(* ===== verification/_CoqProject ===== *)
-Q . S2P
Prelude.v
Effects.v
Handlers.v
InputBuffer.v
Bitops.v
Utf8.v
IntAcc.v
FromString.v
Base64.v
Sha1.v
Percent.v
Query.v
WsParser.v
WsValidator.v
Sendfile.v
SendfileOther.v
WriteGroup.v
Storage.v
OutputCtx.v
RespCoord.v
Headers.v
ParserCallbacks.v
Limiter.v
Accept.v
Connection.v
ConnNotify.v
ConnSafety.v
ConnOrder.v
ConnFaults.v
WsConnection.v
WsStream.v
WsFaults.v
EasyParser.v
EasyRules.v
HttpFields.v
HttpGrammar.v
FieldParsers.v
BasicAuth.v
BearerAuth.v
FieldGrammar.v
Host.v
HostIpv6.v
MethodMatcher.v
Regex.v
Path2Regex.v
Express.v
RouteMatch.v
EasyRouter.v
Builders.v
Multipart.v
FileUpload.v
Zlib.v
ZlibProofs.v
ZlibTheorems.v
Server.v
ThisThread.v
AsyncRun.v
Settings.v
