(* ===== verification/Prelude.v ===== *)
(** * A verification library for RESTinio

    RESTinio (src/MODULE2/restinio/restinio) is a header-only C++ HTTP and
    WebSocket server. This library models the parts that carry its logic and
    proves what makes them correct. Paths below are relative to that directory.

    ** How the parts work together

    A server (http_server.hpp) is opened and runs on a pool of threads
    (http_server_run.hpp). Its acceptor (impl/acceptor.hpp) asks a connection count
    limiter before it accepts a socket. A connection (impl/connection.hpp) feeds
    the bytes it reads into its buffer to the node.js parser, whose callbacks
    (impl/parser_callbacks.ipp) assemble a request; the request gets an id from the
    response coordinator (impl/response_coordinator.hpp) and goes to the user's
    handler, which may be a chain of handlers or a router. The Express router
    matches the path by regular expressions made by path2regex, the easy parser
    router by parsers. The handler reads fields, credentials, query strings,
    multipart and compressed bodies with the helpers, and answers, in any order and
    in several parts, with a builder (message_builders.hpp), which gives the
    connection write groups (buffers.hpp) that start with the header string of
    http_headers.hpp. The coordinator keeps the groups of each request apart and
    gives them out in the order of the requests; the output context
    (impl/write_group_output_ctx.hpp) cuts a group into vector writes and sendfile
    operations (sendfile.hpp, impl/sendfile_operation.hpp). After an upgrade the
    socket belongs to a WebSocket connection (websocket/impl/ws_connection.hpp),
    its parser (ws_parser.hpp), its protocol validator (ws_protocol_validator.hpp)
    and through it the UTF-8 checker (utils/utf8_checker.hpp).

    ** The files: foundations

    - [Prelude]: the error type [result], machine integers ([wrap w] is the
      reduction modulo [2^w]), byte strings, list lemmas and the tactics.
    - [Effects]: [act], the monad of methods that read, change the members of
      their object, start operations and throw.

    ** The files: values and strings

    - [Bitops]: utils/impl/bitops.hpp and the big-endian numbers of
      ws_parser.hpp; reading back what was written.
    - [Utf8]: utf8_checker_t. [process_byte] follows the C++ branch by branch;
      the theorem is that exactly the well-formed texts of RFC 3629, stated by
      an encoder, pass.
    - [IntAcc]: overflow_controlled_integer_accumulator_t, for any width.
    - [FromString]: parse_integer for the eight integer types against a decimal
      specification.
    - [Base64]: tables, encoder, decoder; the round trip and the exact outcome
      of the decoder on every string, reads past its end included.
    - [Sha1]: the eighty calls of the unrolled transform are the compression of
      FIPS 180-4, and the builder fed in pieces gives the digest of the whole,
      for all lengths but those congruent to 56 modulo 64, where it does not.
    - [Percent]: escape, unescape and normalization, written once over a store
      of characters (class [CharStore]) with two instances, a fresh string and
      the buffer itself; the instances agree, and unescaping inverts escaping.
    - [Query]: try_parse_query with views into the shared unescaped buffer; the
      parameters read are those a splitting specification gives.

    ** The files: the connection

    - [InputBuffer]: impl/fixed_buffer.hpp and the guard of the timer.
    - [ParserCallbacks]: the parser context and every callback; a request sent
      as a well-formed sequence of events is assembled exactly when it keeps the
      limits.
    - [Sendfile]: the description sendfile_t with its clamping, and the POSIX
      runners as step relations whose labels are the answers of the kernel:
      the bytes sent are the range asked for, in order, once. [SendfileOther]: the system
      call of BSD and macOS, the two runners of Windows, and the one over the standard library's files.
    - [WriteGroup]: writable items and write groups with their notificators;
      every operation returns the log of the notificator calls it makes. [Storage]: the objects
      a writable item builds in its own bytes and destroys there, as a store of cells with lifetimes;
      items behave as the values of [WriteGroup], and every object is destroyed once.
    - [OutputCtx]: the operations cut from a group: all items, in order, each
      vector write within the limit, and the notificator called once.
    - [RespCoord]: response contexts, the ring of contexts (Module [Table]), the
      coordinator (Module [Coordinator]) and a queue searched by id as
      specification (Module [Spec]); class [ResponseQueue] is the interface both
      implement. A simulation transfers the order of responses proved of
      the queue to the coordinator.
    - [Connection]: connection_t, every method, and a machine. A method whose
      last action is a call of another method returns the [frame]s still to run, and
      the machine keeps them on a stack, so that user code that calls back, exceptions
      and late completions come where they do in the code; completions, timers,
      the handler and responses from other threads are the events.
      [ConnNotify]: each after-write notificator is called once or still
      pending. [ConnSafety]: no exception leaves, at most one read and one write
      are in progress, every activation ends. [ConnOrder]: what is written is, in
      order, what the requests were answered with. [ConnFaults]: runs and laws
      that differ from what the comments say.
    - [Settings]: the settings with every setter and getter, and the constructors of the connection
      settings, the acceptor and the server: the server has what the last setters said, or the
      first complaint is thrown.
    - [Server]: opening and closing of the server and the acceptor with every call
      that may throw; run on a pool of threads as a machine of the calling thread, the
      threads, the signal and initiate_shutdown. Handlers begin and end on the threads, those of the
      acceptor's strand one at a time; initiate_shutdown's is not of the strand, and where it overlaps
      one that uses the server too ([r_raced]) nothing is said of the server. A run that ends has
      ended all its threads and, without such a race, closed the server, and one that is stopped ends. [ThisThread]: the
      run on the calling thread, which reports what a pool may lose. [AsyncRun]: run_async with
      on_pool_runner_t, whose caller stops, waits and destroys the handle: the handle that is
      gone has left no thread and no open server, and the calls that make and destroy it come to an end.
    - [Limiter]: the two limiters (class [CountLimiter]), the lifetime monitor
      and the accept loop as a machine over events. [Accept]: an accepted socket up to its connection,
      with the IP blocker and the factory, its handlers interleaved at every access to the limiter and to the
      counter of ids: the limit and the slots in every run, and the ids where the counter is not raced for.

    ** The files: WebSocket

    - [WsParser]: frame headers; what write_message_details prints is parsed
      back from any stream, in any chunks.
    - [WsValidator]: the validator; which frame headers and which close frames
      it admits, and that a text message in any number of fragments and parts
      is admitted exactly when its payload is well-formed.
    - [WsConnection]: ws_connection_t, ws_t and upgrade, as [Connection] is.
      [WsStream]: the frames a client sends reach the handler as the messages
      they carry, however they are cut into reads. [WsFaults]: runs that differ from
      what is meant.

    ** The files: parsers of fields

    - [EasyParser]: helpers/easy_parser.hpp: producers, clauses, transformers and
      consumers as functions on an input stream. The theorems give the semantics of
      parsing expressions and that backtracking puts the input back. [EasyRules]:
      rules from which the theorems on concrete parsers are put together.
    - [HttpFields], [FieldParsers], [BasicAuth], [BearerAuth], [Host]:
      helpers/http_field_parsers. [HttpGrammar], [FieldGrammar], [HostIpv6]: the texts
      of the RFC grammars are read as the values they stand for, and what is
      read is well-formed.

    ** The files: requests, routers and responses

    - [Headers]: field names with the generated table, the container of fields
      (Module [Fields]), the request target (Module [Target]), the header
      string. Equality up to letter case is a setoid, with [Proper] instances.
    - [Handlers]: what a handler may answer, and sync_chain.
    - [MethodMatcher]: the tables of methods and statuses, router/method_matcher.hpp
      with the holder that keeps a matcher of any type in its own buffer.
    - [Regex]: the part of std::regex that routes need: parser of expressions,
      backtracking matcher, search, iterator. [Path2Regex]: path2regex.hpp.
      [Express]: router/express.hpp. [RouteMatch]: a route of segments and named parameters
      matches the paths it should, with the parameters they have, and the
      router takes the first route that matches.
    - [EasyRouter]: router/easy_parser_router.hpp, against a specification of
      routes.
    - [Builders]: message_builders.hpp: what the three kinds of builders give
      the connection, and that a chunked body is read back.
    - [Multipart], [FileUpload]: helpers/multipart_body.hpp and file_upload.hpp: a
      printed form is split and parsed back.
    - [Zlib]: transforms/zlib.hpp over class [ZlibLibrary]. [ZlibProofs] has what
      zlib.h documents, as classes [Deflates] and [Inflates], and the loops;
      [ZlibTheorems] what is compressed, sent and handled, with a small library
      that keeps those laws.

    Module [m] of file [F] has the operations of one C++ class, under the names
    of its methods; a constructor is [create] or the name with [_create]. A field
    [m_x] of a record is the data member [m_x].

    ** Conventions

    Integers are [Z], with their width where the C++ arithmetic can leave it.
    Bytes are [Z] below 256 and a string is a list of them; where the sign
    of char matters the model shows it. Exceptions, [expected_t] errors and
    undefined behaviour are values of error types. A call of a user's
    notificator is an entry of a log; [cb_throws] says which calls throw. The connections catch what is derived
    from std::exception; class [OtherExceptions] says which notificators throw something else, and the user's handlers may
    too: such an exception leaves the completion handler, which is noexcept, and ends the program ([uncaught]).

    Fuel. Loops whose recursion is not structural take fuel that is a bound on
    their iterations, and their theorems state the result itself, so the fuel is
    shown to be enough: the length of the input and one for the SHA-1 update, the
    query loop, the loops of the easy parser over characters, the splitting
    and unfolding of multipart bodies; the number of items (and one) for
    gathering and writing a group, the number of contexts for the reset of the
    ring, the number of queued groups for dequeuing, the number of fields for
    remove_all_of, twenty digits for printing a 64-bit number, the size of the
    file and two for a sendfile whose calls make progress; for a repetition in a
    regular expression its minimum, the rest of the text and two. The loops of zlib
    take fuel as an argument and say when they are out of it ([run]); the theorems have a
    bound above which they are not. The machines of the connections have no fuel:
    that an activation ends is a theorem on their steps.

    Parameters. The node.js parser (class [HttpParser]) and its table of methods
    ([from_nodejs], [nodejs_code], [http_method_get]), the regular expression
    engines other than the language's own (class [RegexEngine]), zlib
    ([ZlibLibrary]), the format directives of the formatting library ([fmt_02X],
    [fmt_X]), asio's limit on a buffer sequence ([asio_max_iov_len]) and its error
    codes ([operation_aborted], [eof]), the parser of addresses ([from_string]), the longest string ([string_max_size]), how
    much a vector reserves ([reserve]), whether char is signed and what the formatting library is given for a char
    ([char_is_signed], [char_value] of [Percent]), what a variable holds before it is written
    ([garbage]) and after it was moved from ([moved_from], class [MovedFrom]), the classes of the traits
    ([traits_t]), the user's timers ([create_timer_manager]) and IP blocker ([m_ip_blocker]), which notificators throw ([cb_throws]), the user's handlers, and
    the answers of system calls (arguments of the steps). The laws assumed of
    them are premises of the theorems. A notificator is assumed not to call
    its connection while it runs, and a handler that is posted runs as one step but in [Accept] and [Server].

    ** What modelling showed

    Most of the code does what it means to. Where it does not, the model follows the
    code, and a theorem, a run or an example shows the difference:
    [ConnFaults] and [WsFaults] hold those of the connections, the lemmas
    [early_failure_is_lost] and [half_opened] of [Server] and [dropped_failure] of [AsyncRun] those of
    running a server, [peer_gone_terminates] and [throwing_accept_terminates] of [Accept] and [no_factory] of [Settings] exceptions
    that leave [noexcept] functions, [shutdown_races] of [Server] and [two_connections_one_id] of [Accept] accesses
    that nothing orders, [signed_char_escapes_are_refused] of [Percent] the sign of char,
    [sha1_finish_loses_marker] of [Sha1] the lost marker of some lengths.

    ** Not modelled

    The traits are lists of types. TLS sockets, the loggers, the SObjectizer timers, and
    the engines over Boost and PCRE are adapters to other projects' code. The
    printing of parsed fields and of multipart errors, and the date by strftime, are
    output only. The vendored libraries, tests, samples and benchmarks are outside. *)

From Stdlib Require Export Ascii.
From Stdlib Require Export ZArith Lia Bool.
From stdpp Require Export base option list numbers strings.

#[global] Open Scope Z_scope.

(** ** Fallible code

    [result E A] is what a C++ function does that either returns an [A] or
    leaves with an [E]: an exception, an [expected_t] error, or undefined
    behaviour that the model makes visible as an error value of its own. *)

Inductive result (E A : Type) : Type :=
| Ok (a : A)
| Err (e : E).
Arguments Ok {E A} a.
Arguments Err {E A} e.

#[global] Instance result_ret E : MRet (result E) := fun _ a => Ok a.
#[global] Instance result_bind E : MBind (result E) :=
  fun _ _ f m => match m with Ok a => f a | Err e => Err e end.
#[global] Instance result_fmap E : FMap (result E) :=
  fun _ _ f m => match m with Ok a => Ok (f a) | Err e => Err e end.

#[global] Instance result_eq_dec E A `{EqDecision E, EqDecision A} :
  EqDecision (result E A).
Proof. solve_decision. Defined.

Definition is_ok {E A} (r : result E A) : bool :=
  match r with Ok _ => true | Err _ => false end.

Definition of_option {E A} (e : E) (o : option A) : result E A :=
  match o with Some a => Ok a | None => Err e end.

(** Fold of a fallible step over a list, left to right. *)
Fixpoint foldM {E A S} (f : S -> A -> result E S) (s : S) (l : list A) : result E S :=
  match l with
  | [] => Ok s
  | a :: l' => match f s a with Ok s' => foldM f s' l' | Err e => Err e end
  end.

Lemma foldM_app {E A S} (f : S -> A -> result E S) s l1 l2 :
  foldM f s (l1 ++ l2) = (foldM f s l1 ≫= fun s' => foldM f s' l2).
Proof.
  revert s; induction l1 as [|a l1 IH]; intros s; [done|]; simpl.
  destruct (f s a); [apply IH|done].
Qed.

Lemma result_bind_Ok {E A B} (m : result E A) (f : A -> result E B) b :
  (m ≫= f) = Ok b -> exists a, m = Ok a /\ f a = Ok b.
Proof. destruct m as [a|e]; [|done]. by exists a. Qed.

(** ** Machine integers

    A [w]-bit unsigned integer is a [Z] between [0] and [2^w]; arithmetic that
    can leave that range goes through [wrap w]. A [char] is its unsigned byte
    value; where the code depends on the sign of [char] the model says so. *)

Definition wrap (w z : Z) : Z := z mod 2 ^ w.

Definition is_byte (b : Z) : Prop := 0 <= b < 256.

#[global] Instance is_byte_dec b : Decision (is_byte b).
Proof. unfold is_byte; apply _. Defined.

Abbreviation bytes := (list Z).
Abbreviation is_bytes := (Forall is_byte).

Declare Scope word_scope.
Delimit Scope word_scope with word.
Notation "x .& y" := (Z.land x y) (at level 40, left associativity) : word_scope.
Notation "x .| y" := (Z.lor x y) (at level 50, left associativity) : word_scope.
Notation "x .^ y" := (Z.lxor x y) (at level 45, left associativity) : word_scope.
Notation "x .<< y" := (Z.shiftl x y) (at level 38, left associativity) : word_scope.
Notation "x .>> y" := (Z.shiftr x y) (at level 38, left associativity) : word_scope.
#[global] Open Scope word_scope.

(** The bytes of an ASCII literal of the source. *)
Definition str (s : string) : bytes :=
  (fun a => Z.of_N (Ascii.N_of_ascii a)) <$> String.list_ascii_of_string s.

Definition chr (a : Ascii.ascii) : Z := Z.of_N (Ascii.N_of_ascii a).
Arguments str s%_string_scope.
Arguments chr a%_char_scope.

(** ** Hint database and tactics of the development *)

Create HintDb restinio.
#[export] Hint Unfold is_byte : restinio.

(** Destructs the innermost boolean or decidable test of the goal. *)
Ltac case_test :=
  match goal with
  | |- context [if ?b then _ else _] =>
      lazymatch b with
      | context [if _ then _ else _] => fail
      | context [match _ with _ => _ end] => fail
      | _ => let E := fresh "E" in destruct b eqn:E
      end
  end.

(** Turns boolean comparisons of the hypotheses into propositions. *)
Ltac to_prop :=
  repeat match goal with
  | H : context [_ && _ = true] |- _ => rewrite andb_true_iff in H
  | H : context [_ || _ = true] |- _ => rewrite orb_true_iff in H
  | H : context [_ && _ = false] |- _ => rewrite andb_false_iff in H
  | H : context [_ || _ = false] |- _ => rewrite orb_false_iff in H
  | H : context [negb _ = true] |- _ => rewrite negb_true_iff in H
  | H : context [negb _ = false] |- _ => rewrite negb_false_iff in H
  | H : context [(_ <? _) = true] |- _ => rewrite Z.ltb_lt in H
  | H : context [(_ <? _) = false] |- _ => rewrite Z.ltb_ge in H
  | H : context [(_ <=? _) = true] |- _ => rewrite Z.leb_le in H
  | H : context [(_ <=? _) = false] |- _ => rewrite Z.leb_gt in H
  | H : context [(_ =? _) = true] |- _ => rewrite Z.eqb_eq in H
  | H : context [(_ =? _) = false] |- _ => rewrite Z.eqb_neq in H
  end.

(** [lia] with division and remainder by constants. *)
Ltac div_lia := zify; Z.to_euclidean_division_equations; lia.

(** ** Facts about bytes, by exhaustion *)

(** A boolean property of all bytes is checked by evaluation. *)
Lemma byte_forall (P : Z -> bool) :
  forallb P (seqZ 0 256) = true -> forall b, is_byte b -> P b = true.
Proof.
  intros H b Hb. rewrite forallb_forall in H. apply H.
  rewrite <- list_elem_of_In. apply elem_of_seqZ. unfold is_byte in Hb. lia.
Qed.

(** Two functions with decidable results agree on bytes when they do so on
    each of the 256 values. *)
Lemma byte_ext {A} `{EqDecision A} (f g : Z -> A) :
  forallb (fun b => bool_decide (f b = g b)) (seqZ 0 256) = true ->
  forall b, is_byte b -> f b = g b.
Proof.
  intros H b Hb.
  pose proof (byte_forall (fun b => bool_decide (f b = g b)) H b Hb) as E.
  by apply bool_decide_eq_true_1 in E.
Qed.

(** Proves an equation between functions of the byte [b], by evaluation. *)
Ltac byte_exhaust b Hb :=
  revert b Hb; apply (byte_ext (fun _ => _)); vm_compute; reflexivity.

(** ** Bit-level lemmas *)

Lemma wrap_small w z : 0 <= z < 2 ^ w -> wrap w z = z.
Proof. intros; unfold wrap; by apply Z.mod_small. Qed.

Lemma wrap_range w z : 0 <= w -> 0 <= wrap w z < 2 ^ w.
Proof. intros; unfold wrap; apply Z.mod_pos_bound; lia. Qed.

Lemma wrap_wrap w z : wrap w (wrap w z) = wrap w z.
Proof. unfold wrap. apply Z.mod_mod_divide. by exists 1; lia. Qed.

Lemma land_ones_mod z n : 0 <= n -> z .& Z.ones n = z mod 2 ^ n.
Proof. apply Z.land_ones. Qed.

(** Or-ing a value below [2^n] into a value shifted by [n] is an addition. *)
Lemma lor_shiftl_add x y n : 0 <= n -> 0 <= y < 2 ^ n -> (x .<< n) .| y = x * 2 ^ n + y.
Proof.
  intros Hn Hy. rewrite <- Z.shiftl_mul_pow2 by done.
  assert (H0 : (x .<< n) .& y = 0).
  { apply Z.bits_inj'; intros i Hi. rewrite Z.land_spec, Z.bits_0.
    destruct (Z.ltb_spec i n).
    - by rewrite Z.shiftl_spec_low by lia.
    - rewrite <- (Z.mod_small y (2 ^ n)) by lia.
      rewrite Z.mod_pow2_bits_high by lia. apply andb_false_r. }
  rewrite Z.add_nocarry_lxor by done. symmetry. by apply Z.lxor_lor.
Qed.

Lemma lor_mul_add x y n : 0 <= n -> 0 <= y < 2 ^ n -> (x * 2 ^ n) .| y = x * 2 ^ n + y.
Proof. intros. rewrite <- Z.shiftl_mul_pow2 by done. rewrite lor_shiftl_add by done.
  by rewrite Z.shiftl_mul_pow2. Qed.

Lemma lor_range x y n : 0 <= n -> 0 <= x < 2 ^ n -> 0 <= y < 2 ^ n -> 0 <= x .| y < 2 ^ n.
Proof.
  intros Hn Hx Hy.
  assert (Hm : x .| y = (x .| y) mod 2 ^ n).
  { apply Z.bits_inj'; intros i Hi. destruct (Z.ltb_spec i n).
    - by rewrite Z.mod_pow2_bits_low.
    - rewrite Z.mod_pow2_bits_high, Z.lor_spec by lia.
      rewrite <- (Z.mod_small x (2 ^ n)), <- (Z.mod_small y (2 ^ n)) by lia.
      by rewrite !Z.mod_pow2_bits_high by lia. }
  rewrite Hm. apply Z.mod_pos_bound. lia.
Qed.

Lemma lxor_range x y n : 0 <= n -> 0 <= x < 2 ^ n -> 0 <= y < 2 ^ n -> 0 <= x .^ y < 2 ^ n.
Proof.
  intros Hn Hx Hy.
  assert (Hm : x .^ y = (x .^ y) mod 2 ^ n).
  { apply Z.bits_inj'; intros i Hi. destruct (Z.ltb_spec i n).
    - by rewrite Z.mod_pow2_bits_low.
    - rewrite Z.mod_pow2_bits_high, Z.lxor_spec by lia.
      rewrite <- (Z.mod_small x (2 ^ n)), <- (Z.mod_small y (2 ^ n)) by lia.
      by rewrite !Z.mod_pow2_bits_high by lia. }
  rewrite Hm. apply Z.mod_pos_bound. lia.
Qed.

(** ** Lists *)

Lemma Forall_is_bytes_app l1 l2 : is_bytes (l1 ++ l2) <-> is_bytes l1 /\ is_bytes l2.
Proof. apply Forall_app. Qed.

Lemma is_bytes_str s : is_bytes (str s).
Proof.
  unfold str. apply Forall_fmap, Forall_true. intros a; simpl.
  unfold is_byte. pose proof (Ascii.N_ascii_bounded a). lia.
Qed.
#[export] Hint Resolve is_bytes_str : restinio.
