(* ===== verification/Effects.v ===== *)
(** * Effectful code of the components that talk to the outside

    A method of a connection reads the clock, changes the members of its object,
    starts asynchronous operations and calls user code, and may throw. [act]
    is the monad these methods are written in: a reader of [R], a state [S], an
    error [E] and a log of effects [W]. The changes of a method that throws are
    kept, as they are in C++. *)

From S2P Require Import Prelude.

Definition act (R S W E A : Type) : Type := R -> S -> result E A * S * list W.

Section Act.
Context {R S W E : Type}.

#[global] Instance act_ret : MRet (act R S W E) := fun _ a _ s => (Ok a, s, []).

#[global] Instance act_bind : MBind (act R S W E) :=
  fun _ _ f m r s =>
    match m r s with
    | (Ok a, s', w) => let '(x, s'', w') := f a r s' in (x, s'', w ++ w')
    | (Err e, s', w) => (Err e, s', w)
    end.

Definition ask : act R S W E R := fun r s => (Ok r, s, []).
Definition gets {A} (f : S -> A) : act R S W E A := fun _ s => (Ok (f s), s, []).
Definition modify (f : S -> S) : act R S W E unit := fun _ s => (Ok tt, f s, []).
Definition emit (w : W) : act R S W E unit := fun _ s => (Ok tt, s, [w]).
Definition emits (ws : list W) : act R S W E unit := fun _ s => (Ok tt, s, ws).
Definition throw {A} (e : E) : act R S W E A := fun _ s => (Err e, s, []).
Definition lift {A} (x : result E A) : act R S W E A := fun _ s => (x, s, []).

End Act.

(** ** Reasoning

    [run_spec m Q]: whatever the code does from the given state, its outcome,
    final state and effects are related by [Q]. *)
Definition run_spec {R S W E A} (m : act R S W E A) (r : R) (s : S)
    (Q : result E A -> S -> list W -> Prop) : Prop :=
  let '(x, s', w) := m r s in Q x s' w.

Section Spec.
Context {R S W E : Type}.
Implicit Types (r : R) (s : S) (w : list W).

Lemma spec_ret {A} (a : A) r s (Q : result E A -> S -> list W -> Prop) :
  Q (Ok a) s [] -> run_spec (mret a) r s Q.
Proof. done. Qed.

Lemma spec_bind {A B} (m : act R S W E A) (f : A -> act R S W E B) r s
    (Q : result E B -> S -> list W -> Prop) :
  run_spec m r s (fun x s' w =>
    match x with
    | Ok a => run_spec (f a) r s' (fun y s'' w' => Q y s'' (w ++ w'))
    | Err e => Q (Err e) s' w
    end) ->
  run_spec (m ≫= f) r s Q.
Proof.
  unfold run_spec, mbind, act_bind. destruct (m r s) as [[[a|e] s'] w]; [|done].
  by destruct (f a r s') as [[y s''] w'].
Qed.

Lemma spec_weaken {A} (m : act R S W E A) r s (Q Q' : result E A -> S -> list W -> Prop) :
  run_spec m r s Q -> (forall x s' w, Q x s' w -> Q' x s' w) -> run_spec m r s Q'.
Proof. unfold run_spec. destruct (m r s) as [[x s'] w]. auto. Qed.

Lemma spec_ask r s (Q : result E R -> S -> list W -> Prop) :
  Q (Ok r) s [] -> run_spec ask r s Q.
Proof. done. Qed.

Lemma spec_gets {A} (f : S -> A) r s (Q : result E A -> S -> list W -> Prop) :
  Q (Ok (f s)) s [] -> run_spec (gets f) r s Q.
Proof. done. Qed.

Lemma spec_modify (f : S -> S) r s (Q : result E unit -> S -> list W -> Prop) :
  Q (Ok tt) (f s) [] -> run_spec (modify f) r s Q.
Proof. done. Qed.

Lemma spec_emit (e : W) r s (Q : result E unit -> S -> list W -> Prop) :
  Q (Ok tt) s [e] -> run_spec (emit e) r s Q.
Proof. done. Qed.

Lemma spec_emits ws r s (Q : result E unit -> S -> list W -> Prop) :
  Q (Ok tt) s ws -> run_spec (emits ws) r s Q.
Proof. done. Qed.

Lemma spec_throw {A} (e : E) r s (Q : result E A -> S -> list W -> Prop) :
  Q (Err e) s [] -> run_spec (throw e) r s Q.
Proof. done. Qed.

Lemma spec_lift {A} (x : result E A) r s (Q : result E A -> S -> list W -> Prop) :
  Q x s [] -> run_spec (lift x) r s Q.
Proof. done. Qed.

End Spec.

(** Symbolic execution of [run_spec] goals: binds and primitives are stepped
    through, tests are split. *)
Ltac spec_step :=
  lazymatch goal with
  | |- run_spec (_ ≫= _) _ _ _ => apply spec_bind
  | |- run_spec (mret _) _ _ _ => apply spec_ret
  | |- run_spec ask _ _ _ => apply spec_ask
  | |- run_spec (gets _) _ _ _ => apply spec_gets
  | |- run_spec (modify _) _ _ _ => apply spec_modify
  | |- run_spec (emit _) _ _ _ => apply spec_emit
  | |- run_spec (emits _) _ _ _ => apply spec_emits
  | |- run_spec (throw _) _ _ _ => apply spec_throw
  | |- run_spec (lift _) _ _ _ => apply spec_lift
  | |- run_spec (if ?b then _ else _) _ _ _ => let E := fresh "E" in destruct b eqn:E
  | |- run_spec (match ?x with _ => _ end) _ _ _ => let E := fresh "E" in destruct x eqn:E
  end.
Ltac spec_steps := repeat spec_step.
