(* ===== verification/Handlers.v ===== *)
(** * Handlers of requests, and chains of them

    [restinio/common_types.hpp] and [restinio/sync_chain/]: a handler answers
    whether it has taken a request, and a chain asks its handlers in turn. *)

From S2P Require Import Prelude Effects.

(*@ common_types.hpp 25-39 request_handling_status_t *)
Inductive request_handling_status_t : Type := accepted | not_handled | rejected.

Section Handlers.
Context {R S W E : Type} {Request : Type}.

(** User code: it may do anything to its world, and throw. *)
Definition handler_t : Type := Request -> act R S W E request_handling_status_t.
Implicit Types h : handler_t.

(*@ sync_chain/fixed_size.hpp 221-242 fixed_size_chain_t::operator() *)
Fixpoint call_chain (handlers : list handler_t) (req : Request) : act R S W E request_handling_status_t :=
  match handlers with
  | [] => mret not_handled
  | h :: handlers =>
      result ← h req;
      match result with
      | accepted | rejected => mret result
      | not_handled => call_chain handlers req
      end
  end.

(** The loop of the other kind of chain is the same. *)
(*@ sync_chain/growable_size.hpp 252-273 growable_size_chain_t::operator() *)
Definition call_growable (m_handlers : list handler_t) (req : Request) : act R S W E request_handling_status_t :=
  call_chain m_handlers req.

(** ** The builder of a growable chain *)

Inductive builder_error : Type := already_released.

(** [None] once the chain is released. *)
(*@ sync_chain/growable_size.hpp 183-227 growable_size_chain_t::builder_t *)
Record builder_t : Type := mk_builder { m_chain : option (list handler_t) }.

(*@ sync_chain/growable_size.hpp 186-188 growable_size_chain_t::builder_t::builder_t *)
Definition builder_create : builder_t := mk_builder (Some []).
(*@ sync_chain/growable_size.hpp 197-202 growable_size_chain_t::builder_t::release *)
Definition builder_release (b : builder_t) : option (list handler_t) * builder_t := (m_chain b, mk_builder None).
(*@ sync_chain/growable_size.hpp 207-222 growable_size_chain_t::builder_t::add *)
Definition builder_add (b : builder_t) h : result builder_error builder_t :=
  match m_chain b with
  | None => Err already_released
  | Some handlers => Ok (mk_builder (Some (handlers ++ [h])))
  end.

(** ** The constructor of a chain of fixed size *)

(** An argument is one of the caller's variables, by its number, or a temporary. *)
Inductive argument : Type := lvalue (i : nat) | rvalue h.

(** The variables are [std::function]s, [None] when empty. Both kinds of arguments
    are moved from. *)
(*@ sync_chain/fixed_size.hpp 174-193 fixed_size_chain_t::store_to *)
Fixpoint store_to (args : list argument) (vars : list (option handler_t)) : list (option handler_t) * list (option handler_t) :=
  match args with
  | [] => ([], vars)
  | head :: tail =>
      let '(h, vars) :=
        match head with
        | lvalue i => (default None (vars !! i), <[i := None]> vars)
        | rvalue h => (Some h, vars)
        end in
      let '(m_handlers, vars) := store_to tail vars in (h :: m_handlers, vars)
  end.

(** A call of an empty function throws. *)
Definition call_holder (bad_function_call : E) (h : option handler_t) : handler_t :=
  match h with Some h => h | None => fun _ => throw bad_function_call end.

(** ** Theorems *)

(** What is asked before [h]: handlers that have not handled the request. *)
Fixpoint passed (before : list handler_t) (req : Request) : act R S W E bool :=
  match before with
  | [] => mret true
  | h :: before =>
      result ← h req;
      match result with not_handled => passed before req | _ => mret false end
  end.

Lemma act_bind_assoc {A B C} (m : act R S W E A) (f : A -> act R S W E B) (g : B -> act R S W E C) r s :
  ((m ≫= f) ≫= g) r s = (m ≫= fun a => f a ≫= g) r s.
Proof.
  unfold mbind, act_bind. destruct (m r s) as [[[a|e] s1] w1]; [|done].
  destruct (f a r s1) as [[[b|e] s2] w2]; [|done]. destruct (g b r s2) as [[x s3] w3]. by rewrite app_assoc.
Qed.

(** A chain cut in two at any place: the second part is asked exactly when all of
    the first part have answered [not_handled], with the request and the world as
    they have left them. *)
Theorem chain_splits before after req r s :
  call_chain (before ++ after) req r s
  = (status ← call_chain before req;
     match status with not_handled => call_chain after req | _ => mret status end) r s.
Proof.
  revert s. induction before as [|h before IH]; intros s; cbn [app call_chain].
  { unfold mbind, act_bind, mret, act_ret. destruct (call_chain after req r s) as [[x s1] w]. done. }
  rewrite act_bind_assoc. unfold mbind, act_bind in *. destruct (h req r s) as [[[[]|e] s1] w]; try done.
  by rewrite IH.
Qed.

(** The builder gives the handlers in the order in which they were added; after
    that, adding is refused. *)
Theorem builder_builds handlers h :
  foldM builder_add builder_create handlers = Ok (mk_builder (Some handlers)) /\
  builder_release (mk_builder (Some handlers)) = (Some handlers, mk_builder None) /\
  builder_add (mk_builder None) h = Err already_released.
Proof.
  split_and!; [|done..]. induction handlers as [|x handlers IH] using rev_ind; [done|].
  rewrite foldM_app, IH. done.
Qed.

(** The handlers of a fixed chain are those of its arguments when no variable is
    given twice; but the variables of the caller are empty afterwards. *)
Theorem store_to_moves args vars :
  let given := omap (fun a => match a with lvalue i => Some i | rvalue _ => None end) args in
  NoDup given -> Forall (fun i => i < length vars)%nat given ->
  fst (store_to args vars) = (fun a => match a with lvalue i => default None (vars !! i) | rvalue h => Some h end) <$> args /\
  (forall i, i ∈ given -> snd (store_to args vars) !! i = Some None) /\
  (forall i, i ∉ given -> snd (store_to args vars) !! i = vars !! i).
Proof.
  cbv zeta. revert vars. induction args as [|a args IH]; intros vars Hn Hl.
  { split; [done|]. split; [intros i Hi; by apply elem_of_nil in Hi | done]. }
  destruct a as [i|h]; cbn [omap list_omap] in Hn, Hl.
  - apply NoDup_cons in Hn as [Hi Hn]. apply Forall_cons in Hl as [Hlt Hl].
    destruct (IH (<[i:=None]> vars) Hn) as (H1 & H2 & H3); [by rewrite length_insert|].
    cbn [store_to omap list_omap fmap list_fmap]. destruct (store_to args _) as [hs vars']. cbn [fst snd] in *.
    split_and!.
    + f_equal. rewrite H1. apply list_fmap_ext. intros j x Hx. destruct x as [i'|]; [|done].
      rewrite list_lookup_insert_ne; [done|]. intros ->. apply Hi. apply list_elem_of_omap.
      exists (lvalue i'). split; [by eapply list_elem_of_lookup_2|done].
    + intros j Hj. apply elem_of_cons in Hj as [-> | Hj]; [|by apply H2].
      rewrite H3 by done. by apply list_lookup_insert_eq.
    + intros j Hj. apply not_elem_of_cons in Hj as [Hij Hj]. rewrite H3 by done. by apply list_lookup_insert_ne.
  - destruct (IH vars Hn Hl) as (H1 & H2 & H3). cbn [store_to fmap list_fmap]. destruct (store_to args vars) as [hs vars'].
    cbn [fst snd] in *. split_and!; [by rewrite H1|done..].
Qed.

(** The same handler given twice: the second link of the chain is empty. *)
Theorem same_variable_twice h bad req r s w s1 : h req r s = (Ok not_handled, s1, w) ->
  fst (store_to [lvalue 0; lvalue 0] [Some h]) = [Some h; None] /\
  call_chain (call_holder bad <$> fst (store_to [lvalue 0; lvalue 0] [Some h])) req r s = (Err bad, s1, w).
Proof.
  intros Hh. split; [done|]. cbn. unfold mbind, act_bind. rewrite Hh. cbn. by rewrite app_nil_r.
Qed.
End Handlers.
