(* ===== verification/InputBuffer.v ===== *)
(** * The input buffer and the timer guard of a connection

    [restinio/impl/fixed_buffer.hpp] and the guard of
    [restinio/asio_timer_manager.hpp], which both kinds of connections have. *)

From S2P Require Import Prelude.

Module FixedBuffer.

(*@ impl/fixed_buffer.hpp 71-82 fixed_buffer_t *)
Record fixed_buffer_t : Type := mk {
  m_buf : bytes;
  m_ready_pos : Z;
  m_ready_length : Z }.

(*@ impl/fixed_buffer.hpp 34-37 fixed_buffer_t::fixed_buffer_t *)
Definition buffer_create (size : nat) : fixed_buffer_t :=
  {| m_buf := replicate size 0; m_ready_pos := 0; m_ready_length := 0 |}.

(** What a read operation does with the memory of [make_asio_buffer]. *)
(*@ impl/fixed_buffer.hpp 40-44 fixed_buffer_t::make_asio_buffer *)
Definition fill (b : fixed_buffer_t) (data : bytes) : fixed_buffer_t :=
  {| m_buf := data ++ drop (length data) (m_buf b);
     m_ready_pos := m_ready_pos b; m_ready_length := m_ready_length b |}.

(*@ impl/fixed_buffer.hpp 46-52 fixed_buffer_t::obtained_bytes *)
Definition obtained_bytes (b : fixed_buffer_t) (length : Z) : fixed_buffer_t :=
  {| m_buf := m_buf b; m_ready_pos := 0; m_ready_length := length |}.

(*@ impl/fixed_buffer.hpp 54-60 fixed_buffer_t::consumed_bytes *)
Definition consumed_bytes (b : fixed_buffer_t) (length : Z) : fixed_buffer_t :=
  {| m_buf := m_buf b; m_ready_pos := wrap 64 (m_ready_pos b + length);
     m_ready_length := wrap 64 (m_ready_length b - length) |}.

(*@ impl/fixed_buffer.hpp 65-69 fixed_buffer_t::bytes *)
Definition bytes_from (b : fixed_buffer_t) : bytes := drop (Z.to_nat (m_ready_pos b)) (m_buf b).

End FixedBuffer.

(** The timer of the guard: a wait is pending, and how many expired waits still
    have their handler queued, which cancelling does not take back. *)
(*@ asio_timer_manager.hpp 82-84 asio_timer_manager_t::timer_guard_t *)
Record timer_guard_t : Type := mk_timer { t_waiting : bool; t_queued : nat }.

(** A new expiry time cancels the wait for the old one. *)
(*@ asio_timer_manager.hpp 52-67 asio_timer_manager_t::timer_guard_t::schedule *)
Definition timer_schedule (t : timer_guard_t) : timer_guard_t := mk_timer true (t_queued t).

(*@ asio_timer_manager.hpp 75-80 asio_timer_manager_t::timer_guard_t::cancel *)
Definition timer_cancel (t : timer_guard_t) : timer_guard_t := mk_timer false (t_queued t).
