(* ===== verification/Bitops.v ===== *)
(** * Bit extraction and big-endian numbers

    [restinio/utils/impl/bitops.hpp] and the two big-endian helpers of
    [restinio/websocket/impl/ws_parser.hpp]. The result type [T] of
    [n_bits_from] is its width in bits; a [char] is its byte. *)

From S2P Require Import Prelude.

(*@ utils/impl/bitops.hpp 23-28 mask *)
(** [mask<T>(n)]: the [n] lowest bits; [mask(0)] is [T{1}], as in the code. *)
Fixpoint mask (w : Z) (bits_to_extract : nat) : Z :=
  match bits_to_extract with
  | O | S O => 1
  | S n => wrap w ((mask w n .<< 1) .| 1)
  end.

(*@ utils/impl/bitops.hpp 80-89 n_bits_from *)
Definition n_bits_from (w : Z) (shift : Z) (bits_to_extract : nat) (value : Z) : Z :=
  wrap w (value .>> shift) .& mask w bits_to_extract.

(*@ websocket/impl/ws_parser.hpp 219-229 read_number_from_big_endian_bytes *)
Definition read_number_from_big_endian_bytes (w : Z) (data : bytes) : Z :=
  fold_left (fun number byte => wrap w (number .<< 8) .| byte) data 0.

(*@ websocket/impl/ws_parser.hpp 236-246 write_number_to_big_endian_bytes *)
Definition write_number_to_big_endian_bytes (nbytes : nat) (number : Z) : bytes :=
  (fun i => (number .>> ((Z.of_nat nbytes - Z.of_nat i - 1) * 8)) .& 255) <$> seq 0 nbytes.

(** ** Extraction is division and remainder *)

Lemma mask_ones w n : (0 < n)%nat -> Z.of_nat n <= w -> mask w n = Z.ones (Z.of_nat n).
Proof.
  induction n as [|[|n] IH]; intros Hn Hw; [lia|done|].
  change (wrap w ((mask w (S n) .<< 1) .| 1) = Z.ones (Z.of_nat (S (S n)))).
  rewrite IH by lia. rewrite lor_shiftl_add by lia.
  rewrite !Z.ones_equiv, !Nat2Z.inj_succ, (Z.pow_succ_r 2 (Z.succ _)) by lia.
  rewrite wrap_small; [lia|].
  pose proof (Z.pow_le_mono_r 2 (Z.succ (Z.succ (Z.of_nat n))) w ltac:(lia) ltac:(lia)).
  pose proof (Z.pow_pos_nonneg 2 (Z.succ (Z.of_nat n)) ltac:(lia) ltac:(lia)).
  rewrite (Z.pow_succ_r 2 (Z.succ _)) in H by lia. lia.
Qed.

Lemma n_bits_from_spec w s n v :
  (0 < n)%nat -> Z.of_nat n <= w -> 0 <= s ->
  n_bits_from w s n v = (v / 2 ^ s) mod 2 ^ Z.of_nat n.
Proof.
  intros Hn Hw Hs. unfold n_bits_from.
  rewrite mask_ones, Z.land_ones, Z.shiftr_div_pow2 by lia. unfold wrap.
  replace w with ((w - Z.of_nat n) + Z.of_nat n) by lia.
  rewrite Z.pow_add_r by lia. apply Z.mod_mod_divide. by exists (2 ^ (w - Z.of_nat n)).
Qed.

Lemma n_bits_from_range w s n v :
  (0 < n)%nat -> Z.of_nat n <= w -> 0 <= s ->
  0 <= n_bits_from w s n v < 2 ^ Z.of_nat n.
Proof. intros. rewrite n_bits_from_spec by done. apply Z.mod_pos_bound. lia. Qed.

Lemma n_bits_byte s v : 0 <= s -> is_byte (n_bits_from 8 s 8 v).
Proof. intros. apply (n_bits_from_range 8 s 8); [lia|done|done]. Qed.
#[export] Hint Resolve n_bits_byte : restinio.

(** ** Big-endian numbers *)

(** The number a byte string denotes, without any width. *)
Definition be_value (data : bytes) : Z :=
  fold_left (fun n b => n * 256 + b) data 0.

Lemma fold_be_acc data n :
  fold_left (fun n b => n * 256 + b) data n
  = n * 256 ^ Z.of_nat (length data) + be_value data.
Proof.
  unfold be_value. revert n; induction data as [|b data IH]; intros n.
  - cbn. lia.
  - cbn [fold_left length]. rewrite IH, (IH (0 * 256 + b)).
    rewrite Nat2Z.inj_succ, Z.pow_succ_r by lia. lia.
Qed.

Lemma be_value_cons b data :
  be_value (b :: data) = b * 256 ^ Z.of_nat (length data) + be_value data.
Proof. unfold be_value at 1. cbn [fold_left]. by rewrite fold_be_acc. Qed.

Lemma be_value_app d1 d2 :
  be_value (d1 ++ d2) = be_value d1 * 256 ^ Z.of_nat (length d2) + be_value d2.
Proof. unfold be_value at 1. rewrite fold_left_app. apply fold_be_acc. Qed.

Lemma be_value_range data :
  is_bytes data -> 0 <= be_value data < 256 ^ Z.of_nat (length data).
Proof.
  induction 1 as [|b data Hb Hd IH]; [cbn; lia|].
  rewrite be_value_cons. cbn [length].
  rewrite Nat2Z.inj_succ, Z.pow_succ_r by lia. unfold is_byte in Hb. nia.
Qed.

Lemma read_be_acc w data n :
  8 <= w -> is_bytes data -> 0 <= n < 2 ^ w ->
  fold_left (fun number byte => wrap w (number .<< 8) .| byte) data n
  = wrap w (fold_left (fun n b => n * 256 + b) data n).
Proof.
  intros Hw Hd. revert n; induction Hd as [|b data Hb Hd IH]; intros n Hn.
  { by rewrite wrap_small. }
  cbn [fold_left]. unfold is_byte in Hb.
  assert (Hstep : wrap w (n .<< 8) .| b = wrap w (n * 256 + b)).
  { unfold wrap. rewrite Z.shiftl_mul_pow2 by lia.
    assert (Hp : 2 ^ w = 2 ^ (w - 8) * 2 ^ 8) by (rewrite <- Z.pow_add_r by lia; f_equal; lia).
    pose proof (Z.pow_pos_nonneg 2 (w - 8) ltac:(lia) ltac:(lia)).
    rewrite Hp, Zmult_mod_distr_r, lor_mul_add by lia.
    change (2 ^ 8) with 256. pose proof (Z.mod_pos_bound n (2 ^ (w - 8)) ltac:(lia)) as Hm.
    apply (Z.mod_unique_pos _ _ (n / 2 ^ (w - 8))).
    - nia.
    - pose proof (Z.div_mod n (2 ^ (w - 8)) ltac:(lia)). nia. }
  rewrite Hstep, IH by (apply wrap_range; lia).
  rewrite !fold_be_acc. unfold wrap.
  rewrite Z.add_mod, Z.mul_mod_idemp_l, <- Z.add_mod by lia. done.
Qed.

Lemma read_be_value w data :
  8 <= w -> is_bytes data ->
  read_number_from_big_endian_bytes w data = wrap w (be_value data).
Proof.
  intros. unfold read_number_from_big_endian_bytes. rewrite read_be_acc; [done..|].
  split; [done|]. apply Z.pow_pos_nonneg; lia.
Qed.

Lemma write_be_length n v : length (write_number_to_big_endian_bytes n v) = n.
Proof. unfold write_number_to_big_endian_bytes. by rewrite length_fmap, length_seq. Qed.

Lemma land_255 z : z .& 255 = z mod 256.
Proof. change 255 with (Z.ones 8). by rewrite Z.land_ones. Qed.

Lemma write_be_is_bytes n v : is_bytes (write_number_to_big_endian_bytes n v).
Proof.
  unfold write_number_to_big_endian_bytes. apply Forall_fmap, Forall_true.
  intros i; simpl. rewrite land_255. unfold is_byte. apply Z.mod_pos_bound. lia.
Qed.
#[export] Hint Resolve write_be_is_bytes : restinio.

Lemma write_be_S n v :
  write_number_to_big_endian_bytes (S n) v
  = (v / 256 ^ Z.of_nat n) mod 256 :: write_number_to_big_endian_bytes n v.
Proof.
  unfold write_number_to_big_endian_bytes. cbn [seq]. rewrite <- seq_shift, fmap_cons. f_equal.
  - rewrite land_255, Z.shiftr_div_pow2 by lia. do 2 f_equal.
    change 256 with (2 ^ 8). rewrite <- Z.pow_mul_r by lia. f_equal. lia.
  - rewrite <- list_fmap_compose. apply list_fmap_ext. intros i x _; simpl.
    do 3 f_equal. lia.
Qed.

Lemma be_value_write n v :
  be_value (write_number_to_big_endian_bytes n v) = v mod 256 ^ Z.of_nat n.
Proof.
  induction n as [|n IH]; [by rewrite Z.mod_1_r|].
  rewrite write_be_S, be_value_cons, write_be_length, IH.
  rewrite Nat2Z.inj_succ, Z.pow_succ_r by lia.
  pose proof (Z.pow_pos_nonneg 256 (Z.of_nat n) ltac:(lia) ltac:(lia)).
  rewrite (Z.mul_comm 256), Z.rem_mul_r by lia. lia.
Qed.

Lemma write_be_value data :
  is_bytes data ->
  write_number_to_big_endian_bytes (length data) (be_value data) = data.
Proof.
  intros Hd. cut (forall k, write_number_to_big_endian_bytes (length data)
      (be_value data + k * 256 ^ Z.of_nat (length data)) = data).
  { intros H. specialize (H 0). by rewrite Z.mul_0_l, Z.add_0_r in H. }
  induction Hd as [|b data Hb Hd IH]; intros k; [done|].
  cbn [length]. rewrite write_be_S, be_value_cons.
  rewrite Nat2Z.inj_succ, Z.pow_succ_r by lia. unfold is_byte in Hb.
  pose proof (be_value_range data Hd). f_equal.
  - set (P := 256 ^ Z.of_nat (length data)) in *.
    replace (b * P + be_value data + k * (256 * P)) with ((b + k * 256) * P + be_value data) by ring.
    rewrite Z.div_add_l, Z.div_small, Z.add_0_r, Z.mod_add, Z.mod_small by lia. done.
  - etransitivity; [|apply (IH (b + k * 256))]. f_equal. ring.
Qed.

(** Only the value modulo [256^n] matters, and a wide number is written as its
    high part followed by its low part. *)
Lemma write_be_mod n v w :
  v mod 256 ^ Z.of_nat n = w mod 256 ^ Z.of_nat n ->
  write_number_to_big_endian_bytes n v = write_number_to_big_endian_bytes n w.
Proof.
  intros H. rewrite <- (write_be_value (write_number_to_big_endian_bytes n v)),
    <- (write_be_value (write_number_to_big_endian_bytes n w)), !write_be_length, !be_value_write, H
    by apply write_be_is_bytes. done.
Qed.

Lemma write_be_app n k v :
  write_number_to_big_endian_bytes (n + k) v
  = write_number_to_big_endian_bytes n (v / 256 ^ Z.of_nat k) ++
    write_number_to_big_endian_bytes k v.
Proof.
  induction n as [|n IH]; [done|]. cbn [Nat.add]. rewrite !write_be_S, IH. cbn [app]. f_equal.
  rewrite Z.div_div, <- Z.pow_add_r by lia. do 3 f_equal. lia.
Qed.
