(* ===== verification/Utf8.v ===== *)
(** * UTF-8 checker

    [restinio/utils/utf8_checker.hpp]: the byte-at-a-time checker used by the
    percent decoder and by the WebSocket protocol validator, and the theorem
    that a fresh checker accepts exactly the well-formed UTF-8 sequences. *)

From S2P Require Import Prelude.

(** ** The checker *)

(*@ utils/utf8_checker.hpp 198-204 utf8_checker_t::state_t *)
Inductive state_t : Type :=
| valid
| invalid
| may_be_overlong
| overlong.

#[global] Instance state_t_eq_dec : EqDecision state_t.
Proof. solve_decision. Defined.

(*@ utils/utf8_checker.hpp 194-206 utf8_checker_t *)
Record utf8_checker_t : Type := mk_utf8 {
  m_current_symbol : Z;
  m_current_symbol_rest_bytes : Z;
  m_state : state_t }.

(*@ utils/utf8_checker.hpp 34-37 utf8_checker_t::utf8_checker_t *)
Definition utf8_default : utf8_checker_t := mk_utf8 0 0 valid.

(*@ utils/utf8_checker.hpp 138-146 utf8_checker_t::validate_current_symbol *)
Definition validate_current_symbol (c : utf8_checker_t) : utf8_checker_t :=
  let s := m_current_symbol c in
  if ((0xD800 <=? s) && (s <=? 0xDFFF)) || (0x110000 <=? s)
  then mk_utf8 s (m_current_symbol_rest_bytes c) invalid
  else c.

(*@ utils/utf8_checker.hpp 148-192 utf8_checker_t::check_overlong *)
Definition check_overlong (c : utf8_checker_t) (byte : Z) : utf8_checker_t :=
  let rest := m_current_symbol_rest_bytes c in
  mk_utf8 (m_current_symbol c) rest
    (if (0 <? rest) && bool_decide (m_state c = may_be_overlong) then
       if (rest =? 2) && (byte .& 0xE0 =? 0x80) then overlong
       else if (rest =? 3) && (byte .& 0xF0 =? 0x80) then overlong
       else if (rest =? 4) && (byte .& 0xF8 =? 0x80) then overlong
       else if (rest =? 5) && (byte .& 0xFC =? 0x80) then overlong
       else valid
     else
       let st1 :=
         if (byte =? 0xC0) || (byte =? 0xC1) then overlong
         else if byte =? 0xE0 then may_be_overlong
         else if byte =? 0xF0 then may_be_overlong
         else m_state c in
       let st2 := if byte =? 0xF8 then may_be_overlong else st1 in
       if byte =? 0xFC then may_be_overlong else st2).

(*@ utils/utf8_checker.hpp 39-113 utf8_checker_t::process_byte *)
Definition process_byte (c0 : utf8_checker_t) (byte : Z) : bool * utf8_checker_t :=
  let c := check_overlong c0 byte in
  let c' :=
    if 0 <? m_current_symbol_rest_bytes c then
      if byte .& 0xC0 =? 0x80 then
        let symbol := wrap 32 (m_current_symbol c .<< 6) .| (byte .& 0x3F) in
        let rest := m_current_symbol_rest_bytes c - 1 in
        let c1 := mk_utf8 symbol rest (m_state c) in
        if rest =? 0 then validate_current_symbol c1 else c1
      else mk_utf8 (m_current_symbol c) (m_current_symbol_rest_bytes c) invalid
    else
      let rest := m_current_symbol_rest_bytes c in
      if byte .& 0x80 =? 0x00 then mk_utf8 byte 0 (m_state c)
      else if byte .& 0xE0 =? 0xC0 then mk_utf8 (byte .& 0x1F) 1 (m_state c)
      else if byte .& 0xF0 =? 0xE0 then mk_utf8 (byte .& 0xF) 2 (m_state c)
      else if byte .& 0xF8 =? 0xF0 then mk_utf8 (byte .& 0x7) 3 (m_state c)
      else if byte .& 0xFC =? 0xF8 then mk_utf8 (byte .& 0x3) 4 (m_state c)
      else if byte .& 0xFE =? 0xFC then mk_utf8 (byte .& 0x1) 5 (m_state c)
      else mk_utf8 byte rest invalid in
  (bool_decide (m_state c' = valid) || bool_decide (m_state c' = may_be_overlong), c').

(*@ utils/utf8_checker.hpp 115-123 utf8_checker_t::finalized *)
Definition finalized (c : utf8_checker_t) : bool := m_current_symbol_rest_bytes c =? 0.

(*@ utils/utf8_checker.hpp 125-130 utf8_checker_t::reset *)
Definition reset (c : utf8_checker_t) : utf8_checker_t := mk_utf8 0 0 (m_state c).

(*@ utils/utf8_checker.hpp 132-134 utf8_checker_t::current_symbol *)
Definition current_symbol (c : utf8_checker_t) : Z := m_current_symbol c.

Arguments process_byte : simpl never.
Arguments check_overlong : simpl never.

(** The way every client uses the checker: feed bytes until one is refused. *)
Fixpoint process_bytes (c : utf8_checker_t) (bs : bytes) : bool * utf8_checker_t :=
  match bs with
  | [] => (true, c)
  | b :: bs' =>
      let '(ok, c') := process_byte c b in
      if ok then process_bytes c' bs' else (false, c')
  end.

Definition accepts (c : utf8_checker_t) (bs : bytes) : bool :=
  let '(ok, c') := process_bytes c bs in ok && finalized c'.

(** ** Specification: RFC 3629 *)

Definition is_scalar (c : Z) : Prop := 0 <= c < 0xD800 \/ 0xDFFF < c < 0x110000.

Definition encode_utf8 (c : Z) : bytes :=
  if c <? 0x80 then [c]
  else if c <? 0x800 then [0xC0 + c / 64; 0x80 + c mod 64]
  else if c <? 0x10000 then [0xE0 + c / 4096; 0x80 + c / 64 mod 64; 0x80 + c mod 64]
  else [0xF0 + c / 262144; 0x80 + c / 4096 mod 64; 0x80 + c / 64 mod 64; 0x80 + c mod 64].

Definition well_formed_utf8 (bs : bytes) : Prop :=
  exists cps, Forall is_scalar cps /\ bs = concat (encode_utf8 <$> cps).

(** ** The bit tests of the code are interval tests *)

Section ByteTests.
  Context (b : Z) (Hb : is_byte b).

Local Ltac exhaust := byte_exhaust b Hb.

Lemma test_cont : (b .& 0xC0 =? 0x80) = (128 <=? b) && (b <? 192).
  Proof. exhaust. Qed.
Lemma test_ascii : (b .& 0x80 =? 0x00) = (b <? 128).
  Proof. exhaust. Qed.
Lemma test_lead2 : (b .& 0xE0 =? 0xC0) = (192 <=? b) && (b <? 224).
  Proof. exhaust. Qed.
Lemma test_lead3 : (b .& 0xF0 =? 0xE0) = (224 <=? b) && (b <? 240).
  Proof. exhaust. Qed.
Lemma test_lead4 : (b .& 0xF8 =? 0xF0) = (240 <=? b) && (b <? 248).
  Proof. exhaust. Qed.
Lemma test_lead5 : (b .& 0xFC =? 0xF8) = (248 <=? b) && (b <? 252).
  Proof. exhaust. Qed.
Lemma test_lead6 : (b .& 0xFE =? 0xFC) = (252 <=? b) && (b <? 254).
  Proof. exhaust. Qed.
Lemma test_over3 : (b .& 0xE0 =? 0x80) = (128 <=? b) && (b <? 160).
  Proof. exhaust. Qed.
Lemma test_over4 : (b .& 0xF0 =? 0x80) = (128 <=? b) && (b <? 144).
  Proof. exhaust. Qed.
Lemma test_over5 : (b .& 0xF8 =? 0x80) = (128 <=? b) && (b <? 136).
  Proof. exhaust. Qed.
Lemma test_over6 : (b .& 0xFC =? 0x80) = (128 <=? b) && (b <? 132).
  Proof. exhaust. Qed.
Lemma bits_6 : b .& 0x3F = b mod 64.
  Proof. exhaust. Qed.
Lemma bits_5 : b .& 0x1F = b mod 32.
  Proof. exhaust. Qed.
Lemma bits_4 : b .& 0xF = b mod 16.
  Proof. exhaust. Qed.
Lemma bits_3 : b .& 0x7 = b mod 8.
  Proof. exhaust. Qed.
Lemma bits_2 : b .& 0x3 = b mod 4.
  Proof. exhaust. Qed.
Lemma bits_1 : b .& 0x1 = b mod 2.
  Proof. exhaust. Qed.
End ByteTests.

(** ** One step in arithmetic form *)

(** A checker between two characters that has seen no error. *)
Definition clean (c : utf8_checker_t) : Prop :=
  m_current_symbol_rest_bytes c = 0 /\ m_state c = valid.

Lemma clean_default : clean utf8_default.
Proof. done. Qed.
#[export] Hint Resolve clean_default : restinio.

Definition lead_step (b : Z) : bool * utf8_checker_t :=
  if b <? 128 then (true, mk_utf8 b 0 valid)
  else if b <? 192 then (false, mk_utf8 b 0 invalid)
  else if b <? 194 then (false, mk_utf8 (b - 192) 1 overlong)
  else if b <? 224 then (true, mk_utf8 (b - 192) 1 valid)
  else if b <? 225 then (true, mk_utf8 0 2 may_be_overlong)
  else if b <? 240 then (true, mk_utf8 (b - 224) 2 valid)
  else if b <? 241 then (true, mk_utf8 0 3 may_be_overlong)
  else if b <? 248 then (true, mk_utf8 (b - 240) 3 valid)
  else if b <? 249 then (true, mk_utf8 0 4 may_be_overlong)
  else if b <? 252 then (true, mk_utf8 (b - 248) 4 valid)
  else if b <? 253 then (true, mk_utf8 0 5 may_be_overlong)
  else if b <? 254 then (true, mk_utf8 (b - 252) 5 valid)
  else (false, mk_utf8 b 0 invalid).

Local Ltac split_tests :=
  repeat match goal with
  | |- context [if ?b then _ else _] =>
      lazymatch b with
      | context [if _ then _ else _] => fail
      | _ => destruct b eqn:?; to_prop; try div_lia
      end
  end.

#[global] Instance utf8_eq_dec : EqDecision utf8_checker_t.
Proof. solve_decision. Defined.

Lemma process_lead c b :
  clean c -> is_byte b -> process_byte c b = lead_step b.
Proof.
  destruct c as [sym rest st]; intros [Hr Hs] Hb; simpl in *; subst.
  (* The current symbol of a clean checker is never read, so the claim is
     about 256 bytes only. *)
  assert (Hsym : process_byte (mk_utf8 sym 0 valid) b
                 = process_byte (mk_utf8 0 0 valid) b).
  { unfold process_byte, check_overlong; cbn.
    by repeat (case_match; cbn; try done). }
  rewrite Hsym. clear Hsym sym.
  byte_exhaust b Hb.
Qed.

(** A continuation byte that is accepted extends the symbol by six bits. *)
Definition first_cont_min (rest : Z) : Z :=
  if rest =? 2 then 160 else if rest =? 3 then 144
  else if rest =? 4 then 136 else if rest =? 5 then 132 else 128.

Definition good_symbol (s : Z) : bool :=
  negb (((0xD800 <=? s) && (s <=? 0xDFFF)) || (0x110000 <=? s)).

Lemma good_symbol_scalar s : 0 <= s -> good_symbol s = true <-> is_scalar s.
Proof.
  intros. unfold good_symbol, is_scalar.
  split; [intros; to_prop; lia|intros; rewrite negb_true_iff].
  destruct (_ || _) eqn:E; [|done]. to_prop. lia.
Qed.

Lemma cont_symbol sym b :
  0 <= sym < 2 ^ 26 -> 128 <= b < 192 ->
  wrap 32 (sym .<< 6) .| (b .& 0x3F) = sym * 64 + (b - 128).
Proof.
  intros Hs Hb. rewrite bits_6 by (unfold is_byte; lia).
  assert (Hm : b mod 64 = b - 128).
  { symmetry. apply (Z.mod_unique_pos _ _ 2); lia. }
  rewrite Hm, wrap_small; [by rewrite lor_shiftl_add by lia|].
  rewrite Z.shiftl_mul_pow2 by lia. lia.
Qed.

Lemma check_overlong_cont sym rest b st :
  0 < rest <= 5 -> 128 <= b < 192 -> st = valid \/ st = may_be_overlong ->
  check_overlong (mk_utf8 sym rest st) b =
    mk_utf8 sym rest
      (if bool_decide (st = may_be_overlong) && (1 <? rest) && (b <? first_cont_min rest)
       then overlong else valid).
Proof.
  intros Hrest Hb Hst. unfold check_overlong, first_cont_min; cbn.
  rewrite test_over3, test_over4, test_over5, test_over6 by (unfold is_byte; lia).
  assert (rest = 1 \/ rest = 2 \/ rest = 3 \/ rest = 4 \/ rest = 5) as Hcases by lia.
  destruct Hst as [-> | ->]; destruct Hcases as [-> | [-> | [-> | [-> | ->]]]]; cbn;
    rewrite ?(proj2 (Z.leb_le 128 b)) by lia; cbn; f_equal; split_tests; done.
Qed.

Lemma process_cont sym rest b st :
  0 <= sym < 2 ^ 26 -> 0 < rest <= 5 -> is_byte b ->
  st = valid \/ st = may_be_overlong ->
  process_byte (mk_utf8 sym rest st) b =
    if (128 <=? b) && (b <? 192) then
      let sym' := sym * 64 + (b - 128) in
      if bool_decide (st = may_be_overlong) && (1 <? rest) && (b <? first_cont_min rest)
      then (false, mk_utf8 sym' (rest - 1) overlong)
      else if (rest =? 1) && negb (good_symbol sym')
      then (false, mk_utf8 sym' 0 invalid)
      else (true, mk_utf8 sym' (rest - 1) valid)
    else (false, mk_utf8 sym rest invalid).
Proof.
  intros Hsym Hrest Hb Hst. unfold process_byte.
  assert (Hsr : exists st', check_overlong (mk_utf8 sym rest st) b = mk_utf8 sym rest st')
    by (unfold check_overlong; eauto).
  rewrite test_cont by done.
  destruct ((128 <=? b) && (b <? 192)) eqn:Hc; to_prop.
  - rewrite check_overlong_cont by (done || lia). cbn [m_current_symbol m_current_symbol_rest_bytes m_state].
    rewrite cont_symbol by lia. rewrite (proj2 (Z.ltb_lt 0 rest)) by lia.
    set (sym' := sym * 64 + (b - 128)).
    destruct (bool_decide (st = may_be_overlong) && (1 <? rest) && (b <? first_cont_min rest)) eqn:Ho.
    + to_prop. rewrite (proj2 (Z.eqb_neq (rest - 1) 0)) by lia. done.
    + unfold validate_current_symbol, good_symbol; cbn [m_current_symbol].
      destruct (Z.eqb_spec (rest - 1) 0), (Z.eqb_spec rest 1); try lia.
      * rewrite negb_involutive. subst rest. case_test; done.
      * done.
  - destruct Hsr as [st' ->]. cbn [m_current_symbol m_current_symbol_rest_bytes m_state].
    rewrite (proj2 (Z.ltb_lt 0 rest)) by lia. done.
Qed.

(** ** Running the checker over one character *)

Lemma process_bytes_app c bs1 bs2 :
  process_bytes c (bs1 ++ bs2)
  = let '(ok, c') := process_bytes c bs1 in
    if ok then process_bytes c' bs2 else (false, c').
Proof.
  revert c; induction bs1 as [|b bs1 IH]; intros c; [done|].
  cbn [app process_bytes]. destruct (process_byte c b) as [[] c']; [apply IH|done].
Qed.

(** An accepted run that is inside a character consumes a continuation byte. *)
Lemma accept_cont_inv sym rest st bs c' :
  0 <= sym < 2 ^ 26 -> 0 < rest <= 5 -> is_bytes bs ->
  st = valid \/ st = may_be_overlong ->
  process_bytes (mk_utf8 sym rest st) bs = (true, c') -> finalized c' = true ->
  exists b bs', bs = b :: bs' /\ 128 <= b < 192 /\
    process_bytes (mk_utf8 (sym * 64 + (b - 128)) (rest - 1) valid) bs' = (true, c') /\
    (st = may_be_overlong -> 1 < rest -> first_cont_min rest <= b) /\
    (rest = 1 -> is_scalar (sym * 64 + (b - 128))).
Proof.
  intros Hsym Hrest Hbs Hst Hrun Hfin. destruct bs as [|b bs].
  { simpl in Hrun. simplify_eq. unfold finalized in Hfin; cbn in Hfin. lia. }
  apply Forall_cons in Hbs as [Hb Hbs]. cbn [process_bytes] in Hrun.
  rewrite process_cont in Hrun by (done || lia).
  destruct ((128 <=? b) && (b <? 192)) eqn:Hc; [|done].
  cbv zeta in Hrun.
  destruct (bool_decide _ && _ && _) eqn:Ho in Hrun; [done|].
  destruct ((rest =? 1) && negb (good_symbol (sym * 64 + (b - 128)))) eqn:Hg in Hrun; [done|].
  to_prop. exists b, bs. split_and!; [done|lia|lia|done| |].
  - intros -> H1. destruct Ho as [[Ho|Ho]|Ho]; [|lia|lia].
    by apply bool_decide_eq_false in Ho.
  - intros ->. apply good_symbol_scalar; [lia|].
    destruct Hg as [Hg|Hg]; [lia|]. done.
Qed.

Lemma accept_cont sym rest st b bs :
  0 <= sym < 2 ^ 26 -> 0 < rest <= 5 -> 128 <= b < 192 ->
  st = valid \/ (st = may_be_overlong /\ 1 < rest /\ first_cont_min rest <= b) ->
  (rest = 1 -> is_scalar (sym * 64 + (b - 128))) ->
  process_bytes (mk_utf8 sym rest st) (b :: bs)
  = process_bytes (mk_utf8 (sym * 64 + (b - 128)) (rest - 1) valid) bs.
Proof.
  intros Hsym Hrest Hb Hst Hg. cbn [process_bytes].
  rewrite process_cont; [|done|done|unfold is_byte; lia|destruct Hst as [->|[-> _]]; auto].
  rewrite (proj2 (Z.leb_le 128 b)), (proj2 (Z.ltb_lt b 192)) by lia. cbn [andb].
  destruct (bool_decide _ && _ && _) eqn:Ho.
  { to_prop. destruct Ho as [[Ho _] Hlt]. apply bool_decide_eq_true in Ho.
    destruct Hst as [Hst|Hst]; [congruence|lia]. }
  destruct ((rest =? 1) && negb (good_symbol (sym * 64 + (b - 128)))) eqn:Hr; [|done].
  apply andb_true_iff in Hr as [Hr1 Hr2]. apply Z.eqb_eq in Hr1.
  apply negb_true_iff in Hr2. pose proof (Hg Hr1) as Hsc.
  apply good_symbol_scalar in Hsc; [congruence|lia].
Qed.

Lemma process_lead_bytes c b bs :
  clean c -> is_byte b ->
  process_bytes c (b :: bs)
  = let '(ok, c') := lead_step b in if ok then process_bytes c' bs else (false, c').
Proof. intros. cbn [process_bytes]. by rewrite process_lead. Qed.

Local Ltac one_cont :=
  rewrite accept_cont;
  [ | div_lia | lia | div_lia
  | first [left; reflexivity
          |right; unfold first_cont_min; cbn; split; [reflexivity|split; div_lia]]
  | intros ?; unfold is_scalar; div_lia ].

(** A clean checker consumes the encoding of a scalar value and is clean again. *)
Lemma process_encode c cp bs :
  clean c -> is_scalar cp ->
  process_bytes c (encode_utf8 cp ++ bs) = process_bytes (mk_utf8 cp 0 valid) bs.
Proof.
  intros Hc Hs. unfold encode_utf8, is_scalar in *.
  destruct (Z.ltb_spec cp 0x80); [|destruct (Z.ltb_spec cp 0x800);
    [|destruct (Z.ltb_spec cp 0x10000)]]; cbn [app].
  all: rewrite process_lead_bytes; [unfold lead_step|assumption|unfold is_byte; div_lia].
  all: split_tests.
  all: repeat one_cont; do 2 f_equal; div_lia.
Qed.

Local Ltac inv_cont Hrun Hfin Hbs :=
  let b := fresh "b" in let Hb := fresh "Hb" in
  let Hmin := fresh "Hmin" in let Hsc := fresh "Hsc" in
  apply Forall_cons in Hbs as [_ Hbs];
  eapply accept_cont_inv in Hrun; [|div_lia|lia|exact Hbs|auto|exact Hfin];
  destruct Hrun as (b & ? & -> & Hb & Hrun & Hmin & Hsc); cbn in Hrun, Hmin, Hsc;
  unfold first_cont_min, is_scalar in Hmin, Hsc; cbn in Hmin, Hsc;
  try specialize (Hmin eq_refl ltac:(lia)).

Lemma encode_2 c b0 b1 :
  c = (b0 - 192) * 64 + (b1 - 128) -> 194 <= b0 < 224 -> 128 <= b1 < 192 ->
  encode_utf8 c = [b0; b1].
Proof. intros -> ??. unfold encode_utf8. split_tests. do 2 f_equal; [|f_equal]; div_lia. Qed.

Lemma encode_3 c b0 b1 b2 :
  c = ((b0 - 224) * 64 + (b1 - 128)) * 64 + (b2 - 128) -> 0x800 <= c ->
  224 <= b0 < 240 -> 128 <= b1 < 192 -> 128 <= b2 < 192 ->
  encode_utf8 c = [b0; b1; b2].
Proof. intros -> ????. unfold encode_utf8. split_tests. repeat f_equal; div_lia. Qed.

Lemma encode_4 c b0 b1 b2 b3 :
  c = (((b0 - 240) * 64 + (b1 - 128)) * 64 + (b2 - 128)) * 64 + (b3 - 128) ->
  0x10000 <= c < 0x110000 ->
  240 <= b0 < 248 -> 128 <= b1 < 192 -> 128 <= b2 < 192 -> 128 <= b3 < 192 ->
  encode_utf8 c = [b0; b1; b2; b3].
Proof. intros -> ?????. unfold encode_utf8. split_tests. repeat f_equal; div_lia. Qed.

(** An accepted, finished run of a clean checker starts with a whole character. *)
Lemma accepted_starts_with_char c b bs c' :
  clean c -> is_bytes (b :: bs) ->
  process_bytes c (b :: bs) = (true, c') -> finalized c' = true ->
  exists cp rest, is_scalar cp /\ b :: bs = encode_utf8 cp ++ rest /\
    process_bytes (mk_utf8 cp 0 valid) rest = (true, c').
Proof.
  intros Hc Hbs Hrun Hfin. pose proof Hbs as Hb. apply Forall_cons in Hb as [Hb _].
  rewrite process_lead_bytes in Hrun by done. unfold lead_step, is_byte in *.
  repeat match type of Hrun with
  | context [if ?t then _ else _] =>
      lazymatch t with
      | context [if _ then _ else _] => fail
      | _ => destruct t eqn:?; to_prop; try discriminate Hrun
      end
  end.
  - exists b, bs. split_and!; [unfold is_scalar; lia| |done].
    unfold encode_utf8. by split_tests.
  - inv_cont Hrun Hfin Hbs. eexists _, _. split_and!; [|..|exact Hrun];
      [unfold is_scalar; lia|by erewrite encode_2].
  (* three bytes: E0 and the other leads *)
  - inv_cont Hrun Hfin Hbs. inv_cont Hrun Hfin Hbs.
    eexists _, _. split_and!; [|..|exact Hrun]; [unfold is_scalar; lia|].
    erewrite (encode_3 _ b); [done|lia..].
  - inv_cont Hrun Hfin Hbs. inv_cont Hrun Hfin Hbs.
    eexists _, _. split_and!; [|..|exact Hrun]; [unfold is_scalar; lia|].
    erewrite (encode_3 _ b); [done|lia..].
  (* four bytes: F0 and the other leads *)
  - do 3 inv_cont Hrun Hfin Hbs.
    eexists _, _. split_and!; [|..|exact Hrun]; [unfold is_scalar; lia|].
    erewrite (encode_4 _ b); [done|lia..].
  - do 3 inv_cont Hrun Hfin Hbs.
    eexists _, _. split_and!; [|..|exact Hrun]; [unfold is_scalar; lia|].
    erewrite (encode_4 _ b); [done|lia..].
  (* five and six bytes: the symbol is always too large *)
  - exfalso. do 4 inv_cont Hrun Hfin Hbs. lia.
  - exfalso. do 4 inv_cont Hrun Hfin Hbs. lia.
  - exfalso. do 5 inv_cont Hrun Hfin Hbs. lia.
  - exfalso. do 5 inv_cont Hrun Hfin Hbs. lia.
Qed.

Lemma accepts_sound c bs :
  clean c -> is_bytes bs -> accepts c bs = true -> well_formed_utf8 bs.
Proof.
  unfold accepts. remember (length bs) as n eqn:Hn.
  revert c bs Hn. induction n as [n IH] using lt_wf_ind. intros c bs -> Hc Hbs Hacc.
  destruct (process_bytes c bs) as [ok c'] eqn:Hrun.
  apply andb_true_iff in Hacc as [-> Hfin].
  destruct bs as [|b bs]; [by exists []|].
  destruct (accepted_starts_with_char c b bs c') as (cp & rest & Hs & Heq & Hrest); [done..|].
  rewrite Heq in Hbs |- *. apply Forall_app in Hbs as [_ Hbs].
  destruct (IH (length rest)) with (c := mk_utf8 cp 0 valid) (bs := rest)
    as (cps & Hcps & ->); [|done..|by rewrite Hrest|].
  - rewrite Heq, length_app. unfold encode_utf8. repeat case_match; simpl; lia.
  - exists (cp :: cps). split; [by constructor|]. done.
Qed.

Lemma process_well_formed c cps bs :
  clean c -> Forall is_scalar cps -> exists c', clean c' /\
  process_bytes c (concat (encode_utf8 <$> cps) ++ bs) = process_bytes c' bs.
Proof.
  intros Hc Hcps. revert c Hc. induction Hcps as [|cp cps Hcp Hcps IH]; intros c Hc.
  - exists c. done.
  - cbn [fmap list_fmap concat]. rewrite <- app_assoc, process_encode by done.
    apply IH. done.
Qed.

Lemma accepts_exact c bs :
  clean c -> is_bytes bs -> accepts c bs = true <-> well_formed_utf8 bs.
Proof.
  intros Hc Hbs. split; [by apply accepts_sound|].
  intros (cps & Hcps & ->). unfold accepts.
  destruct (process_well_formed c cps [] Hc Hcps) as (c' & [Hr _] & Hrun).
  rewrite app_nil_r in Hrun. rewrite Hrun. unfold finalized; cbn. by rewrite Hr.
Qed.

(** C11 (equivalence). A fresh [utf8_checker_t], fed byte by byte until it refuses one,
    accepts a byte sequence and reports it finalized exactly when the sequence
    is well-formed UTF-8: a concatenation of the shortest encodings of Unicode
    scalar values, so that overlong forms, surrogates, code points above
    10FFFF, stray continuation bytes and truncated characters are all refused
    and nothing else is. *)
Theorem utf8_checker_exact bs :
  is_bytes bs -> accepts utf8_default bs = true <-> well_formed_utf8 bs.
Proof. intros Hbs. by apply accepts_exact. Qed.

Lemma utf8_checker_exact_witness :
  is_bytes [0xE2; 0x82; 0xAC; 0x41] /\ accepts utf8_default [0xE2; 0x82; 0xAC; 0x41] = true.
Proof.
  assert (Hb : is_bytes [0xE2; 0x82; 0xAC; 0x41]) by (repeat constructor; vm_compute; congruence).
  split; [exact Hb|]. apply (utf8_checker_exact _ Hb).
  exists [0x20AC; 0x41]. split; [|reflexivity].
  repeat constructor; unfold is_scalar; lia.
Defined.

(** ** [reset] and the error state

    [reset()] clears the current symbol but keeps [m_state]; the error state is
    neither cleared by it nor kept by [process_byte]. *)

(** After an error, [reset] does not bring the checker back to its initial
    state: the next byte is still refused, whatever it is, unless it is one of
    the four lead bytes E0, F0, F8, FC that overwrite the error state. In
    particular every ASCII text is refused by a reset checker, while a fresh
    checker accepts it. *)
Theorem reset_keeps_error sym rest b :
  is_byte b ->
  fst (process_byte (reset (mk_utf8 sym rest invalid)) b)
  = bool_decide (b ∈ [0xE0; 0xF0; 0xF8; 0xFC]).
Proof. intros Hb. unfold reset; cbn [m_state]. byte_exhaust b Hb. Qed.

Lemma reset_keeps_error_witness :
  is_byte 0x61 /\ fst (process_byte (reset (mk_utf8 0 0 invalid)) 0x61) = false.
Proof.
  assert (Hb : is_byte 0x61) by (vm_compute; split; congruence).
  split; [exact Hb|]. rewrite (reset_keeps_error 0 0 0x61 Hb). reflexivity.
Defined.

(** Facts for the clients of the checker. *)

Lemma process_ascii c b :
  clean c -> 0 <= b < 128 -> process_byte c b = (true, mk_utf8 b 0 valid).
Proof.
  intros Hc Hb. rewrite process_lead by (done || unfold is_byte; lia).
  unfold lead_step. by rewrite (proj2 (Z.ltb_lt b 128)) by lia.
Qed.

Lemma clean_reset c : m_state c = valid -> clean (reset c).
Proof. by destruct c. Qed.

(** A finished, accepted character leaves the checker clean. *)
Lemma finalized_valid_clean c : finalized c = true -> m_state c = valid -> clean c.
Proof. unfold finalized, clean. intros. split; [lia|done]. Qed.

(** ** Resetting between characters

    Clients call [reset] whenever a character is finished. On the states that
    an error-free run reaches this makes no difference. *)

Definition utf8_inv (u : utf8_checker_t) : Prop :=
  clean u \/
  (0 < m_current_symbol_rest_bytes u <= 5 /\
   0 <= m_current_symbol u < 2 ^ (31 - 6 * m_current_symbol_rest_bytes u) /\
   ((m_state u = valid /\ 128 <= m_current_symbol u * 64 ^ m_current_symbol_rest_bytes u) \/
    (m_state u = may_be_overlong /\ 1 < m_current_symbol_rest_bytes u))).

Lemma clean_inv u : clean u -> utf8_inv u.
Proof. by left. Qed.
#[export] Hint Resolve clean_inv : restinio.

Lemma inv_symbol_bound u :
  0 < m_current_symbol_rest_bytes u ->
  m_current_symbol u < 2 ^ (31 - 6 * m_current_symbol_rest_bytes u) -> m_current_symbol u < 2 ^ 26.
Proof.
  intros H1 H2. pose proof (Z.pow_le_mono_r 2 (31 - 6 * m_current_symbol_rest_bytes u) 26). lia.
Qed.

(** The continuation byte that avoids an overlong form makes the symbol large. *)
Lemma first_cont_symbol rest b :
  1 < rest <= 5 -> first_cont_min rest <= b -> 128 <= (b - 128) * 64 ^ (rest - 1).
Proof.
  intros Hr. assert (rest = 2 \/ rest = 3 \/ rest = 4 \/ rest = 5) as Hc by lia.
  unfold first_cont_min. destruct Hc as [-> | [-> | [-> | ->]]]; cbn -[Z.mul]; lia.
Qed.

Lemma process_byte_cont_inv u b u' :
  utf8_inv u -> ~ clean u -> is_byte b -> process_byte u b = (true, u') ->
  let sym' := m_current_symbol u * 64 + (b - 128) in
  let rest' := m_current_symbol_rest_bytes u - 1 in
  u' = mk_utf8 sym' rest' valid /\ 128 <= b < 192 /\ 128 <= sym' * 64 ^ rest' /\
  0 <= sym' < 2 ^ (31 - 6 * rest') /\ 0 <= rest' < 5.
Proof.
  intros [Hc|(Hr & Hs & Hst)] Hn Hb; [done|].
  pose proof (inv_symbol_bound u ltac:(lia) ltac:(lia)).
  destruct u as [sym rest st]; cbn in *.
  rewrite process_cont by (done || lia || tauto).
  destruct ((128 <=? b) && (b <? 192)) eqn:Hc; [|done]. cbv zeta.
  destruct (bool_decide _ && (1 <? rest) && (b <? first_cont_min rest)) eqn:Ho; [done|].
  destruct ((rest =? 1) && _) eqn:Hg; [done|]. intros [= <-].
  apply andb_true_iff in Hc as [Hb1 Hb2].
  assert (E64 : 64 ^ rest = 64 * 64 ^ (rest - 1)) by (rewrite <- Z.pow_succ_r by lia; f_equal; lia).
  assert (0 < 64 ^ (rest - 1)) by (apply Z.pow_pos_nonneg; lia).
  split_and!; [done|lia|lia| |lia| |lia|lia].
  - destruct Hst as [[-> Hlow]|[-> Hr1]]; [nia|].
    rewrite bool_decide_eq_true_2, (proj2 (Z.ltb_lt 1 rest)) in Ho by (done || lia).
    pose proof (first_cont_symbol rest b ltac:(lia)). cbn in Ho. nia.
  - replace (31 - 6 * (rest - 1)) with (31 - 6 * rest + 6) by lia.
    rewrite Z.pow_add_r by lia. lia.
Qed.

Lemma process_byte_lead_inv u b u' :
  clean u -> is_byte b -> process_byte u b = (true, u') ->
  utf8_inv u' /\ (finalized u' = true -> b < 128 /\ u' = mk_utf8 b 0 valid).
Proof.
  intros Hc Hb. rewrite process_lead by done. unfold is_byte in Hb. unfold lead_step.
  repeat case_test; intros [= <-]; to_prop;
    (split; [first [left; done|right; cbn; split_and!; [lia..|]; first [left; split; [done|lia]|right; split; [done|lia]]]
            |unfold finalized; cbn; intros; first [done|split; [lia|done]]]).
Qed.

Lemma clean_dec u : clean u \/ ~ clean u.
Proof.
  unfold clean. destruct (Z.eq_dec (m_current_symbol_rest_bytes u) 0), (decide (m_state u = valid));
    tauto.
Qed.

Lemma process_byte_inv u b u' :
  utf8_inv u -> is_byte b -> process_byte u b = (true, u') -> utf8_inv u'.
Proof.
  intros Hu Hb Hp. destruct (clean_dec u) as [Hc|Hn].
  - by eapply process_byte_lead_inv.
  - destruct (process_byte_cont_inv u b u' Hu Hn Hb Hp) as (-> & _ & H1 & H2 & H3).
    destruct (Z.eq_dec (m_current_symbol_rest_bytes u - 1) 0) as [E|E]; [by left|].
    right. cbn. split_and!; auto; lia.
Qed.

(** A character that ends with a symbol below 128 is one ASCII byte. *)
Lemma finalized_ascii u b u' :
  utf8_inv u -> is_byte b -> process_byte u b = (true, u') -> finalized u' = true ->
  (m_current_symbol u' < 128 -> clean u /\ b < 128 /\ m_current_symbol u' = b) /\
  (b < 128 -> clean u /\ m_current_symbol u' = b) /\ m_state u' = valid.
Proof.
  intros Hu Hb Hp Hf. destruct (clean_dec u) as [Hc|Hn].
  - destruct (process_byte_lead_inv u b u' Hc Hb Hp) as [_ [H ->]]; done.
  - destruct (process_byte_cont_inv u b u' Hu Hn Hb Hp) as (-> & H0 & H1 & _).
    unfold finalized in Hf; cbn in *. apply Z.eqb_eq in Hf. rewrite Hf in H1.
    split_and!; [lia|lia|done].
Qed.

Lemma process_byte_clean u v b :
  clean u -> clean v -> is_byte b -> process_byte u b = process_byte v b.
Proof. intros. by rewrite !process_lead. Qed.

(** What the clients do after each accepted byte. *)
Definition settle (u : utf8_checker_t) : utf8_checker_t := if finalized u then reset u else u.

Definition feed_byte (u : utf8_checker_t) (b : Z) : bool * utf8_checker_t :=
  let '(ok, u') := process_byte u b in (ok, settle u').

Lemma settle_inv u : utf8_inv u -> utf8_inv (settle u).
Proof.
  unfold settle, finalized. intros [[Hr Hs]|H].
  - rewrite Hr. left. by apply clean_reset.
  - rewrite (proj2 (Z.eqb_neq _ _)) by lia. by right.
Qed.

Lemma feed_settled u b :
  utf8_inv u -> is_byte b -> process_byte (settle u) b = process_byte u b.
Proof.
  unfold settle, finalized. intros [[Hr Hs]|H] Hb.
  - rewrite Hr. apply process_byte_clean; [by apply clean_reset|done..].
  - by rewrite (proj2 (Z.eqb_neq _ _)) by lia.
Qed.

Lemma feed_byte_inv u b u' :
  utf8_inv u -> is_byte b -> feed_byte u b = (true, u') -> utf8_inv u'.
Proof.
  unfold feed_byte. intros Hu Hb. destruct (process_byte u b) as [ok v] eqn:E.
  intros [= -> <-]. eapply settle_inv, process_byte_inv; eauto.
Qed.

(** A run that settles after each byte accepts the same sequences. *)
Fixpoint feed_bytes (u : utf8_checker_t) (bs : bytes) : bool * utf8_checker_t :=
  match bs with
  | [] => (true, u)
  | b :: bs' => let '(ok, u') := feed_byte u b in if ok then feed_bytes u' bs' else (false, u')
  end.

Lemma feed_bytes_process u bs :
  utf8_inv u -> is_bytes bs ->
  fst (feed_bytes (settle u) bs) = fst (process_bytes u bs) /\
  (fst (process_bytes u bs) = true ->
     snd (feed_bytes (settle u) bs) = settle (snd (process_bytes u bs))).
Proof.
  intros Hu Hbs. revert u Hu. induction Hbs as [|b bs Hb Hbs IH]; intros u Hu; [done|].
  cbn [feed_bytes process_bytes]. unfold feed_byte. rewrite feed_settled by done.
  destruct (process_byte u b) as [[] u'] eqn:E; [|done].
  apply IH. by eapply process_byte_inv.
Qed.

Lemma settle_clean u : clean u -> settle u = mk_utf8 0 0 valid.
Proof. destruct u as [s r st]; intros [Hr Hs]; cbn in *; by subst. Qed.

Lemma process_bytes_inv u bs u' :
  utf8_inv u -> is_bytes bs -> process_bytes u bs = (true, u') -> utf8_inv u'.
Proof.
  intros Hu Hbs. revert u Hu. induction Hbs as [|b bs Hb Hbs IH]; intros u Hu; cbn [process_bytes].
  - by intros [= <-].
  - destruct (process_byte u b) as [[] u1] eqn:E; [|done].
    apply IH. by eapply process_byte_inv.
Qed.

Lemma encode_utf8_bytes cp : is_scalar cp -> is_bytes (encode_utf8 cp).
Proof.
  intros Hs. unfold encode_utf8, is_scalar in *.
  repeat case_match; to_prop; repeat constructor; unfold is_byte; div_lia.
Qed.
