(* ===== verification/IntAcc.v ===== *)
(** * Overflow-controlled integer accumulator

    [restinio/impl/overflow_controlled_integer_accumulator.hpp], used by the
    header-field parsers to read decimal numbers. The storage type is
    [make_unsigned_t<T>]: its arithmetic wraps at the width of [T]. *)

From S2P Require Import Prelude.

(** The integer type [T]: its width and whether it is signed. *)
Record int_type : Type := mk_int_type { it_width : Z; it_signed : bool }.

(*@ impl/overflow_controlled_integer_accumulator.hpp 25-33 Extremum_Type *)
Inductive extremum_type : Type :=
| check_positive_extremum
| check_negative_extremum.

(*@ impl/overflow_controlled_integer_accumulator.hpp 55-85 extremum_value *)
Definition extremum_value (T : int_type) (e : extremum_type) : Z :=
  match e with
  | check_positive_extremum =>
      if it_signed T then 2 ^ (it_width T - 1) - 1 else 2 ^ it_width T - 1
  | check_negative_extremum => 2 ^ (it_width T - 1)
  end.

(*@ impl/overflow_controlled_integer_accumulator.hpp 38-53 is_greater_than_maximum *)
Definition is_greater_than_maximum (T : int_type) (v maximum : Z) : bool :=
  if it_signed T then maximum <? v else false.

(*@ impl/overflow_controlled_integer_accumulator.hpp 145-148 overflow_controlled_integer_accumulator_t *)
Record accumulator : Type := mk_acc { m_current : Z; m_overflow_detected : bool }.

Definition acc_init : accumulator := mk_acc 0 false.

Section Accumulator.
  Context (T : int_type) (Multiplier : Z) (Ext : extremum_type).

(*@ impl/overflow_controlled_integer_accumulator.hpp 155-172 next_digit *)
Definition next_digit (a : accumulator) (digit : Z) : accumulator :=
    let updated_value := wrap (it_width T) (m_current a * Multiplier + digit) in
    if (updated_value <? m_current a) ||
       is_greater_than_maximum T updated_value (extremum_value T Ext)
    then mk_acc (m_current a) true
    else mk_acc updated_value (m_overflow_detected a).

(*@ impl/overflow_controlled_integer_accumulator.hpp 174-179 overflow_detected *)
Definition overflow_detected (a : accumulator) : bool := m_overflow_detected a.

(*@ impl/overflow_controlled_integer_accumulator.hpp 181-186 value *)
Definition value (a : accumulator) : Z :=
    if it_signed T then
      if m_current a <? 2 ^ (it_width T - 1) then m_current a
      else m_current a - 2 ^ it_width T
    else m_current a.

  (** A sequence of [next_digit] calls. *)
Definition next_digits (a : accumulator) (ds : list Z) : accumulator :=
    fold_left next_digit ds a.

  (** The number the digits denote. *)
Definition digits_value (ds : list Z) : Z :=
    fold_left (fun n d => n * Multiplier + d) ds 0.

Definition digit_ok (d : Z) : Prop := 0 <= d < Multiplier.

  Context (Hw : 0 < it_width T) (Hmul : 1 <= Multiplier)
    (Hext : it_signed T = false -> Ext = check_positive_extremum).

Lemma extremum_value_range : 0 <= extremum_value T Ext < 2 ^ it_width T.
  Proof using Hw Hext.
    pose proof (Z.pow_pos_nonneg 2 (it_width T - 1) ltac:(lia) ltac:(lia)).
    assert (2 ^ it_width T = 2 * 2 ^ (it_width T - 1)) by
      (rewrite <- Z.pow_succ_r by lia; f_equal; lia).
    unfold extremum_value. repeat case_match; lia.
  Qed.

Lemma fold_digits_mono n ds :
    0 <= n -> Forall digit_ok ds -> n <= fold_left (fun n d => n * Multiplier + d) ds n.
  Proof using Hmul.
    intros Hn Hds. revert n Hn. induction Hds as [|d ds Hd Hds IH]; intros n Hn; [done|].
    cbn [fold_left]. unfold digit_ok in Hd. etransitivity; [|apply IH; nia]. nia.
  Qed.

Lemma next_digit_exact a d :
    0 <= m_current a -> digit_ok d ->
    m_current a * Multiplier + d <= extremum_value T Ext ->
    next_digit a d = mk_acc (m_current a * Multiplier + d) (m_overflow_detected a).
  Proof using Hw Hext Hmul.
    intros Ha Hd Hle. pose proof extremum_value_range. unfold next_digit, digit_ok in *.
    rewrite wrap_small by nia. unfold is_greater_than_maximum.
    destruct (_ || _) eqn:E; [|done].
    destruct (it_signed T); to_prop; nia.
  Qed.

Lemma next_digits_exact ds a :
    0 <= m_current a -> Forall digit_ok ds ->
    fold_left (fun n d => n * Multiplier + d) ds (m_current a) <= extremum_value T Ext ->
    next_digits a ds =
      mk_acc (fold_left (fun n d => n * Multiplier + d) ds (m_current a)) (m_overflow_detected a).
  Proof using Hw Hext Hmul.
    intros Ha Hds. revert a Ha. induction Hds as [|d ds Hd Hds IH]; intros a Ha Hle.
    { by destruct a. }
    unfold digit_ok in Hd. cbn [next_digits fold_left] in *.
    rewrite next_digit_exact.
    - apply (IH (mk_acc _ _)); cbn; [nia|done].
    - done.
    - done.
    - etransitivity; [|exact Hle]. apply fold_digits_mono; [nia|done].
  Qed.
End Accumulator.

(** Reading digits whose value does not exceed the extremum of the type is
    exact: no overflow is reported and the accumulator holds the value of the
    digit string, for every width, base and signedness. *)
Theorem accumulator_exact T Multiplier Ext ds :
  0 < it_width T -> 1 <= Multiplier ->
  (it_signed T = false -> Ext = check_positive_extremum) ->
  Forall (digit_ok Multiplier) ds ->
  digits_value Multiplier ds <= extremum_value T Ext ->
  next_digits T Multiplier Ext acc_init ds = mk_acc (digits_value Multiplier ds) false.
Proof. intros. by apply (next_digits_exact T Multiplier Ext). Qed.

Definition uint64_type := mk_int_type 64 false.
Definition uint32_type := mk_int_type 32 false.
Definition int32_type := mk_int_type 32 true.

Lemma accumulator_exact_witness :
  next_digits int32_type 10 check_negative_extremum acc_init [2;1;4;7;4;8;3;6;4;8]
  = mk_acc 2147483648 false.
Proof.
  apply (accumulator_exact int32_type 10 check_negative_extremum [2;1;4;7;4;8;3;6;4;8]).
  - reflexivity.
  - discriminate.
  - discriminate.
  - repeat constructor; vm_compute; congruence.
  - vm_compute. congruence.
Defined.

(** The overflow test compares the wrapped product with the old value, so
    it misses overflows that wrap past it: the ten digits of 5000000000 are read
    into a 32-bit accumulator, signed or unsigned, as 705032704 with no overflow
    reported, and the twenty digits of 50000000000000000000 into a 64-bit one. *)
Theorem accumulator_misses_overflow :
  next_digits uint32_type 10 check_positive_extremum acc_init (5 :: replicate 9 0)
    = mk_acc 705032704 false /\
  next_digits int32_type 10 check_positive_extremum acc_init (5 :: replicate 9 0)
    = mk_acc 705032704 false /\
  next_digits uint64_type 10 check_positive_extremum acc_init (5 :: replicate 19 0)
    = mk_acc 13106511852580896768 false.
Proof. split_and!; reflexivity. Qed.
