(* ===== verification/FromString.v ===== *)
(** * Reading integers from strings

    [restinio/utils/from_string_details.ipp] and [from_string.hpp]: the table of
    digits, the traits of the eight integer types and [parse_integer]. *)

From S2P Require Import Prelude.

(*@ utils/from_string_details.ipp 10-33 digits_mapping *)
Definition digits_mapping : list Z :=
  [ 0xFF; 0xFF; 0xFF; 0xFF; 0xFF; 0xFF; 0xFF; 0xFF; 0xFF; 0xFF; 0xFF; 0xFF; 0xFF; 0xFF; 0xFF; 0xFF;
    0xFF; 0xFF; 0xFF; 0xFF; 0xFF; 0xFF; 0xFF; 0xFF; 0xFF; 0xFF; 0xFF; 0xFF; 0xFF; 0xFF; 0xFF; 0xFF;
    0xFF; 0xFF; 0xFF; 0xFF; 0xFF; 0xFF; 0xFF; 0xFF; 0xFF; 0xFF; 0xFF; 0xFF; 0xFF; 0xFF; 0xFF; 0xFF;
    0x00; 0x01; 0x02; 0x03; 0x04; 0x05; 0x06; 0x07; 0x08; 0x09; 0xFF; 0xFF; 0xFF; 0xFF; 0xFF; 0xFF;
    0xF0; 0xFF; 0xFF; 0xFF; 0xFF; 0xFF; 0xFF; 0xFF; 0xFF; 0xFF; 0xFF; 0xFF; 0xFF; 0xFF; 0xFF; 0xFF;
    0xFF; 0xFF; 0xFF; 0xFF; 0xFF; 0xFF; 0xFF; 0xFF; 0xFF; 0xFF; 0xFF; 0xFF; 0xFF; 0xFF; 0xFF; 0xFF;
    0xFF; 0xFF; 0xFF; 0xFF; 0xFF; 0xFF; 0xFF; 0xFF; 0xFF; 0xFF; 0xFF; 0xFF; 0xFF; 0xFF; 0xFF; 0xFF;
    0xFF; 0xFF; 0xFF; 0xFF; 0xFF; 0xFF; 0xFF; 0xFF; 0xFF; 0xFF; 0xFF; 0xFF; 0xFF; 0xFF; 0xFF; 0xFF;
    0xFF; 0xFF; 0xFF; 0xFF; 0xFF; 0xFF; 0xFF; 0xFF; 0xFF; 0xFF; 0xFF; 0xFF; 0xFF; 0xFF; 0xFF; 0xFF;
    0xFF; 0xFF; 0xFF; 0xFF; 0xFF; 0xFF; 0xFF; 0xFF; 0xFF; 0xFF; 0xFF; 0xFF; 0xFF; 0xFF; 0xFF; 0xFF;
    0xFF; 0xFF; 0xFF; 0xFF; 0xFF; 0xFF; 0xFF; 0xFF; 0xFF; 0xFF; 0xFF; 0xFF; 0xFF; 0xFF; 0xFF; 0xFF;
    0xFF; 0xFF; 0xFF; 0xFF; 0xFF; 0xFF; 0xFF; 0xFF; 0xFF; 0xFF; 0xFF; 0xFF; 0xFF; 0xFF; 0xFF; 0xFF;
    0xFF; 0xFF; 0xFF; 0xFF; 0xFF; 0xFF; 0xFF; 0xFF; 0xFF; 0xFF; 0xFF; 0xFF; 0xFF; 0xFF; 0xFF; 0xFF;
    0xFF; 0xFF; 0xFF; 0xFF; 0xFF; 0xFF; 0xFF; 0xFF; 0xFF; 0xFF; 0xFF; 0xFF; 0xFF; 0xFF; 0xFF; 0xFF;
    0xFF; 0xFF; 0xFF; 0xFF; 0xFF; 0xFF; 0xFF; 0xFF; 0xFF; 0xFF; 0xFF; 0xFF; 0xFF; 0xFF; 0xFF; 0xFF;
    0xFF; 0xFF; 0xFF; 0xFF; 0xFF; 0xFF; 0xFF; 0xFF; 0xFF; 0xFF; 0xFF; 0xFF; 0xFF; 0xFF; 0xFF; 0xFF ].

(** How [parse_integer] can end without a value: four kinds of [exception_t],
    [std::out_of_range], and undefined behaviour (reading the first character
    of an empty string, indexing the table with a negative [char], or signed
    overflow in the accumulation). *)
Inductive parse_error : Type :=
| unsigned_starts_with_minus
| empty_string
| too_many_digits
| invalid_digit
| out_of_range
| undefined_behaviour.

#[global] Instance parse_error_eq_dec : EqDecision parse_error.
Proof. solve_decision. Defined.

Record parse_traits : Type := mk_traits {
  type_bits : Z;
  type_signed : bool;
  digits_representation_max_size : nat;
  min_representation : bytes;
  max_representation : bytes }.

(*@ utils/from_string_details.ipp 35-64 int8_parse_traits_t *)
Definition int8_parse_traits : parse_traits :=
  mk_traits 8 true 3 (str "128") (str "127").

(*@ utils/from_string_details.ipp 66-95 uint8_parse_traits_t *)
Definition uint8_parse_traits : parse_traits :=
  mk_traits 8 false 3 (str "0") (str "255").

(*@ utils/from_string_details.ipp 97-126 int16_parse_traits_t *)
Definition int16_parse_traits : parse_traits :=
  mk_traits 16 true 5 (str "32768") (str "32767").

(*@ utils/from_string_details.ipp 128-157 uint16_parse_traits_t *)
Definition uint16_parse_traits : parse_traits :=
  mk_traits 16 false 5 (str "0") (str "65535").

(*@ utils/from_string_details.ipp 159-188 int32_parse_traits_t *)
Definition int32_parse_traits : parse_traits :=
  mk_traits 32 true 10 (str "2147483648") (str "2147483647").

(*@ utils/from_string_details.ipp 190-219 uint32_parse_traits_t *)
Definition uint32_parse_traits : parse_traits :=
  mk_traits 32 false 10 (str "0") (str "4294967295").

(*@ utils/from_string_details.ipp 221-250 int64_parse_traits_t *)
Definition int64_parse_traits : parse_traits :=
  mk_traits 64 true 19 (str "9223372036854775808") (str "9223372036854775807").

(*@ utils/from_string_details.ipp 252-281 uint64_parse_traits_t *)
Definition uint64_parse_traits : parse_traits :=
  mk_traits 64 false 20 (str "0") (str "18446744073709551615").

Definition all_traits : list parse_traits :=
  [int8_parse_traits; uint8_parse_traits; int16_parse_traits; uint16_parse_traits;
   int32_parse_traits; uint32_parse_traits; int64_parse_traits; uint64_parse_traits].

Definition type_max (t : parse_traits) : Z :=
  if type_signed t then 2 ^ (type_bits t - 1) - 1 else 2 ^ type_bits t - 1.
Definition type_min (t : parse_traits) : Z :=
  if type_signed t then - 2 ^ (type_bits t - 1) else 0.

(** [mapping_table[static_cast<std::size_t>(d)]] for a signed [char] [d]: a
    byte from 128 on is a negative [char] and the index is out of the table. *)
Definition table_at (d : Z) : result parse_error Z :=
  if d <? 128 then of_option undefined_behaviour (digits_mapping !! Z.to_nat d)
  else Err undefined_behaviour.

(** Converting the result of an arithmetic expression to the [Integer] type.
    Types narrower than [int] are computed in [int] and truncated; for the
    signed 32- and 64-bit types an overflow is undefined behaviour; the unsigned
    ones wrap. *)
Definition to_integer (t : parse_traits) (z : Z) : result parse_error Z :=
  if type_signed t then
    if type_bits t <? 32
    then Ok (wrap (type_bits t) (z + 2 ^ (type_bits t - 1)) - 2 ^ (type_bits t - 1))
    else if (type_min t <=? z) && (z <=? type_max t) then Ok z
    else Err undefined_behaviour
  else Ok (wrap (type_bits t) z).

(*@ utils/from_string_details.ipp 283-325 parse_integer_no_checks *)
Definition parse_integer_no_checks (t : parse_traits) (data : bytes)
    (apply_minus_sign : bool) : result parse_error Z :=
  foldM (fun r c =>
      d ← table_at c;
      if type_signed t && apply_minus_sign
      then to_integer t (r * 10 - d)
      else to_integer t (r * 10 + d)) 0 data.

(** [std::any_of] with the not-a-digit predicate: it stops at the first hit. *)
Fixpoint any_invalid_digit (data : bytes) : result parse_error bool :=
  match data with
  | [] => Ok false
  | c :: data' =>
      d ← table_at c;
      if d =? 0xFF then Ok true else any_invalid_digit data'
  end.

(** [0 < std::memcmp(a, b, n)] for two strings of the same length. *)
Fixpoint memcmp_gt (a b : bytes) : bool :=
  match a, b with
  | x :: a', y :: b' => if x =? y then memcmp_gt a' b' else y <? x
  | _, _ => false
  end.

(*@ utils/from_string_details.ipp 327-393 parse_integer *)
Definition parse_integer (t : parse_traits) (data : bytes) : result parse_error Z :=
  match data with
  | [] => Err undefined_behaviour
  | c :: rest =>
      '(apply_minus_sign, digits) ←
        (if c =? chr "-" then
           if negb (type_signed t) then Err unsigned_starts_with_minus
           else Ok (true, rest)
         else if c =? chr "+" then Ok (false, rest)
         else Ok (false, data));
      let representation_size := length digits in
      if (representation_size =? 0)%nat then Err empty_string
      else if (digits_representation_max_size t <? representation_size)%nat
      then Err too_many_digits
      else
        bad ← any_invalid_digit digits;
        if bad : bool then Err invalid_digit
        else
          let possible_max :=
            if apply_minus_sign : bool then min_representation t else max_representation t in
          if (digits_representation_max_size t =? representation_size)%nat &&
             memcmp_gt digits possible_max
          then Err out_of_range
          else parse_integer_no_checks t digits apply_minus_sign
  end.

(*@ utils/from_string.hpp 33-37 read_value *)
Definition read_int64 (s : bytes) : result parse_error Z := parse_integer int64_parse_traits s.
(*@ utils/from_string.hpp 39-43 read_value *)
Definition read_uint64 (s : bytes) : result parse_error Z := parse_integer uint64_parse_traits s.
(*@ utils/from_string.hpp 45-49 read_value *)
Definition read_int32 (s : bytes) : result parse_error Z := parse_integer int32_parse_traits s.
(*@ utils/from_string.hpp 51-55 read_value *)
Definition read_uint32 (s : bytes) : result parse_error Z := parse_integer uint32_parse_traits s.
(*@ utils/from_string.hpp 57-61 read_value *)
Definition read_int16 (s : bytes) : result parse_error Z := parse_integer int16_parse_traits s.
(*@ utils/from_string.hpp 63-67 read_value *)
Definition read_uint16 (s : bytes) : result parse_error Z := parse_integer uint16_parse_traits s.
(*@ utils/from_string.hpp 69-73 read_value *)
Definition read_int8 (s : bytes) : result parse_error Z := parse_integer int8_parse_traits s.
(*@ utils/from_string.hpp 75-79 read_value *)
Definition read_uint8 (s : bytes) : result parse_error Z := parse_integer uint8_parse_traits s.

(** ** Specification *)

Definition is_digit (c : Z) : Prop := 48 <= c <= 57.

#[global] Instance is_digit_dec c : Decision (is_digit c).
Proof. unfold is_digit; apply _. Defined.

(** The number a string of decimal digits denotes. *)
Definition dec_value (digits : bytes) : Z :=
  fold_left (fun n c => n * 10 + (c - 48)) digits 0.

(** What [parse_integer] promises for a sign and a string of digits. *)
Definition parse_spec (t : parse_traits) (negative : bool) (digits : bytes) :
    result parse_error Z :=
  if (digits_representation_max_size t <? length digits)%nat then Err too_many_digits
  else
    let v := if negative then - dec_value digits else dec_value digits in
    if (type_min t <=? v) && (v <=? type_max t) then Ok v else Err out_of_range.

(** ** Digit strings *)

Lemma fold_dec_acc l n :
  fold_left (fun n c => n * 10 + (c - 48)) l n = n * 10 ^ Z.of_nat (length l) + dec_value l.
Proof.
  unfold dec_value. revert n; induction l as [|c l IH]; intros n; [cbn; lia|].
  cbn [fold_left length]. rewrite IH, (IH (0 * 10 + (c - 48))), Nat2Z.inj_succ, Z.pow_succ_r by lia.
  lia.
Qed.

Lemma dec_value_cons c l :
  dec_value (c :: l) = (c - 48) * 10 ^ Z.of_nat (length l) + dec_value l.
Proof. unfold dec_value at 1. cbn [fold_left]. by rewrite fold_dec_acc. Qed.

Lemma dec_value_snoc l c : dec_value (l ++ [c]) = dec_value l * 10 + (c - 48).
Proof. unfold dec_value. by rewrite fold_left_app. Qed.

Lemma dec_value_range l : Forall is_digit l -> 0 <= dec_value l < 10 ^ Z.of_nat (length l).
Proof.
  induction 1 as [|c l Hc Hl IH]; [cbn; lia|].
  rewrite dec_value_cons. cbn [length]. rewrite Nat2Z.inj_succ, Z.pow_succ_r by lia.
  unfold is_digit in Hc. nia.
Qed.

(** Comparing digit strings of one length byte by byte compares the numbers. *)
Lemma memcmp_gt_dec_value a b :
  length a = length b -> Forall is_digit a -> Forall is_digit b ->
  memcmp_gt a b = (dec_value b <? dec_value a).
Proof.
  intros Hlen Ha. revert b Hlen.
  induction Ha as [|x a Hx Ha IH]; intros [|y b] Hlen Hb; try done.
  apply Forall_cons in Hb as [Hy Hb]. injection Hlen as Hlen.
  cbn [memcmp_gt]. rewrite !dec_value_cons, Hlen. unfold is_digit in *.
  pose proof (dec_value_range a Ha) as Hra. pose proof (dec_value_range b Hb).
  rewrite Hlen in Hra. rewrite (IH b Hlen Hb). apply eq_true_iff_eq.
  destruct (Z.eqb_spec x y) as [->|Hne]; rewrite !Z.ltb_lt; nia.
Qed.

Lemma table_at_digit c : is_digit c -> table_at c = Ok (c - 48).
Proof.
  intros Hc. assert (Hb : is_byte c) by (unfold is_byte, is_digit in *; lia).
  assert (H : (if bool_decide (is_digit c)
               then bool_decide (table_at c = Ok (c - 48)) else true) = true)
    by (revert c Hc Hb; intros c _ Hb; revert c Hb; apply byte_forall; vm_compute; reflexivity).
  rewrite bool_decide_eq_true_2 in H by done. by apply bool_decide_eq_true in H.
Qed.

Lemma any_invalid_digits l : Forall is_digit l -> any_invalid_digit l = Ok false.
Proof.
  induction 1 as [|c l Hc Hl IH]; [done|]. cbn [any_invalid_digit].
  rewrite table_at_digit by done. cbn. unfold is_digit in Hc.
  by rewrite (proj2 (Z.eqb_neq (c - 48) 255)) by lia.
Qed.

(** ** The traits of the eight types are consistent *)

Definition traits_okb (t : parse_traits) : bool :=
  (8 <=? type_bits t) &&
  (length (max_representation t) =? digits_representation_max_size t)%nat &&
  forallb (fun c => bool_decide (is_digit c)) (max_representation t) &&
  forallb (fun c => bool_decide (is_digit c)) (min_representation t) &&
  (dec_value (max_representation t) =? type_max t) &&
  (10 ^ (Z.of_nat (digits_representation_max_size t) - 1) - 1 <=? type_max t) &&
  (if type_signed t then
     (length (min_representation t) =? digits_representation_max_size t)%nat &&
     (dec_value (min_representation t) =? - type_min t)
   else true).

Lemma all_traits_ok : forallb traits_okb all_traits = true.
Proof. vm_compute. reflexivity. Qed.

Lemma traits_ok t : t ∈ all_traits -> traits_okb t = true.
Proof.
  intros H. apply list_elem_of_In in H.
  by apply (proj1 (forallb_forall _ _) all_traits_ok).
Qed.

(** ** The accumulation loop *)

Lemma to_integer_in_range t z :
  8 <= type_bits t -> type_min t <= z <= type_max t -> to_integer t z = Ok z.
Proof.
  intros Hbits Hz. unfold to_integer, type_min, type_max in *.
  pose proof (Z.pow_pos_nonneg 2 (type_bits t - 1) ltac:(lia) ltac:(lia)).
  assert (2 ^ type_bits t = 2 * 2 ^ (type_bits t - 1))
    by (rewrite <- Z.pow_succ_r by lia; f_equal; lia).
  destruct (type_signed t).
  - case_test; [rewrite wrap_small by lia; f_equal; lia|].
    case_test; [done|]. to_prop. lia.
  - by rewrite wrap_small by lia.
Qed.

Lemma no_checks_loop t minus l n :
  8 <= type_bits t -> (minus = true -> type_signed t = true) ->
  Forall is_digit l -> 0 <= n ->
  let sg := if minus then -1 else 1 in
  type_min t <= sg * (n * 10 ^ Z.of_nat (length l) + dec_value l) <= type_max t ->
  foldM (fun r c =>
      d ← table_at c;
      if type_signed t && minus then to_integer t (r * 10 - d)
      else to_integer t (r * 10 + d)) (sg * n) l
  = Ok (sg * (n * 10 ^ Z.of_nat (length l) + dec_value l)).
Proof.
  intros Hbits Hminus Hl. revert n. induction Hl as [|c l Hc Hl IH]; intros n Hn sg Hr.
  { cbn in *. f_equal. lia. }
  cbn [foldM length]. rewrite table_at_digit by done. cbn -[Z.mul Z.pow dec_value].
  rewrite dec_value_cons in *. cbn [length] in Hr.
  rewrite Nat2Z.inj_succ, Z.pow_succ_r in * by lia.
  set (P := 10 ^ Z.of_nat (length l)) in *.
  assert (1 <= P) by (pose proof (Z.pow_pos_nonneg 10 (Z.of_nat (length l))); lia).
  pose proof (dec_value_range l Hl) as Hd. unfold is_digit in Hc.
  assert (Hrange : type_min t <= sg * (n * 10 + (c - 48)) <= type_max t).
  { unfold sg in *. assert (type_min t <= 0 <= type_max t).
    { unfold type_min, type_max. pose proof (Z.pow_pos_nonneg 2 (type_bits t - 1)).
      pose proof (Z.pow_pos_nonneg 2 (type_bits t)). destruct (type_signed t); lia. }
    destruct minus; nia. }
  assert (Hstep : (if type_signed t && minus then to_integer t (sg * n * 10 - (c - 48))
                   else to_integer t (sg * n * 10 + (c - 48)))
                  = Ok (sg * (n * 10 + (c - 48)))).
  { rewrite <- (to_integer_in_range t (sg * (n * 10 + (c - 48)))) by done.
    destruct minus; [rewrite Hminus by done|rewrite andb_false_r];
      unfold sg; cbn [andb]; f_equal; lia. }
  rewrite Hstep. specialize (IH (n * 10 + (c - 48)) ltac:(lia)). fold P in IH.
  cbv zeta in IH. fold sg in IH.
  replace (n * (10 * P) + ((c - 48) * P + dec_value l))
    with ((n * 10 + (c - 48)) * P + dec_value l) in * by ring.
  exact (IH Hr).
Qed.

Lemma no_checks_correct t minus l :
  8 <= type_bits t -> (minus = true -> type_signed t = true) -> Forall is_digit l ->
  let v := if minus then - dec_value l else dec_value l in
  type_min t <= v <= type_max t -> parse_integer_no_checks t l minus = Ok v.
Proof.
  intros Hbits Hm Hl v Hv. pose proof (no_checks_loop t minus l 0 Hbits Hm Hl ltac:(lia)) as H.
  cbv zeta in H. unfold parse_integer_no_checks.
  rewrite Z.mul_0_r, Z.mul_0_l, Z.add_0_l in H.
  replace ((if minus then -1 else 1) * dec_value l) with v in H by (unfold v; destruct minus; lia).
  by apply H.
Qed.

(** The length test and the comparison with the extreme representation decide
    the range of the type. *)
Lemma range_check t minus l :
  traits_okb t = true -> (minus = true -> type_signed t = true) ->
  Forall is_digit l -> (length l <= digits_representation_max_size t)%nat ->
  let v := if minus then - dec_value l else dec_value l in
  (digits_representation_max_size t =? length l)%nat &&
    memcmp_gt l (if minus then min_representation t else max_representation t)
  = negb ((type_min t <=? v) && (v <=? type_max t)).
Proof.
  intros Hok Hm Hl Hlen v. unfold traits_okb in Hok.
  rewrite !andb_true_iff, !forallb_forall in Hok.
  destruct Hok as [[[[[[Hbits Hmaxl] Hmaxd] Hmind] Hmaxv] Hpow] Hmin].
  to_prop. rewrite Nat.eqb_eq in Hmaxl.
  assert (Hd : forall r, (forall c, In c r -> bool_decide (is_digit c) = true) -> Forall is_digit r).
  { intros r Hr. apply Forall_forall. intros c Hc. apply list_elem_of_In in Hc.
    by apply Hr, bool_decide_eq_true in Hc. }
  assert (Hmin0 : type_min t <= 0 <= type_max t).
  { unfold type_min, type_max. pose proof (Z.pow_pos_nonneg 2 (type_bits t - 1)).
    pose proof (Z.pow_pos_nonneg 2 (type_bits t)). destruct (type_signed t); lia. }
  pose proof (dec_value_range l Hl) as Hr.
  assert (Hsym : type_signed t = true -> - type_min t = type_max t + 1).
  { unfold type_min, type_max. intros ->. lia. }
  destruct (Nat.eqb_spec (digits_representation_max_size t) (length l)) as [E|E].
  - destruct minus; cbn [andb].
    + rewrite Hm in Hmin by done. apply andb_true_iff in Hmin as [Hminl Hminv].
      apply Nat.eqb_eq in Hminl. apply Z.eqb_eq in Hminv.
      rewrite memcmp_gt_dec_value by (auto; congruence). unfold v.
      apply eq_true_iff_eq. rewrite negb_true_iff, andb_false_iff, Z.ltb_lt, !Z.leb_gt. lia.
    + rewrite memcmp_gt_dec_value by (auto; congruence). unfold v.
      apply eq_true_iff_eq. rewrite negb_true_iff, andb_false_iff, Z.ltb_lt, !Z.leb_gt. lia.
  - cbn [andb]. symmetry. apply negb_false_iff, andb_true_iff.
    pose proof (Z.pow_le_mono_r 10 (Z.of_nat (length l))
                  (Z.of_nat (digits_representation_max_size t) - 1) ltac:(lia) ltac:(lia)).
    rewrite !Z.leb_le. unfold v. destruct minus; [pose proof (Hsym (Hm eq_refl))|]; lia.
Qed.

Lemma parse_digits t minus l :
  t ∈ all_traits -> (minus = true -> type_signed t = true) ->
  Forall is_digit l -> l <> [] ->
  (if (length l =? 0)%nat then Err empty_string
   else if (digits_representation_max_size t <? length l)%nat then Err too_many_digits
   else
     bad ← any_invalid_digit l;
     if bad : bool then Err invalid_digit
     else
       if (digits_representation_max_size t =? length l)%nat &&
          memcmp_gt l (if minus then min_representation t else max_representation t)
       then Err out_of_range
       else parse_integer_no_checks t l minus) = parse_spec t minus l.
Proof.
  intros Ht Hm Hl Hne. pose proof (traits_ok t Ht) as Hok. unfold parse_spec.
  destruct (Nat.eqb_spec (length l) 0) as [E|_]; [by destruct l|].
  destruct (Nat.ltb_spec (digits_representation_max_size t) (length l)); [done|].
  rewrite any_invalid_digits by done. cbn -[memcmp_gt parse_integer_no_checks].
  rewrite range_check by (done || lia).
  destruct ((type_min t <=? _) && _) eqn:Hr; cbn [negb]; [|done].
  to_prop. apply no_checks_correct; [|done..].
  unfold traits_okb in Hok. rewrite !andb_true_iff in Hok. lia.
Qed.

(** ** Correctness *)

(** For each of the eight integer types, a non-empty string of decimal
    digits, with or without a leading plus or (for the signed types) minus sign,
    is read as the number it denotes when it has at most the type's number of
    digits and lies in the type's range; more digits and a value out of range are
    reported as the two different errors. No signed overflow and no out-of-range
    table access happens on the way, and the most negative value is read. *)
Theorem parse_integer_correct t sign digits :
  t ∈ all_traits -> Forall is_digit digits -> digits <> [] ->
  sign ∈ [[]; [chr "+"]; [chr "-"]] -> (sign = [chr "-"] -> type_signed t = true) ->
  parse_integer t (sign ++ digits) = parse_spec t (bool_decide (sign = [chr "-"])) digits.
Proof.
  intros Ht Hd Hne Hs Hm. rewrite !elem_of_cons in Hs.
  destruct Hs as [->|[->|[->|Hs]]]; [| | |by apply elem_of_nil in Hs].
  - destruct digits as [|c l]; [done|].
    assert (Hc : is_digit c) by (by inversion Hd). unfold is_digit in Hc.
    unfold parse_integer. cbn [app].
    change (chr "-") with 45. change (chr "+") with 43.
    rewrite (proj2 (Z.eqb_neq c 45)), (proj2 (Z.eqb_neq c 43)) by lia.
    by apply (parse_digits t false (c :: l)).
  - by apply (parse_digits t false digits).
  - unfold parse_integer. cbn [app]. rewrite Z.eqb_refl, Hm by done.
    apply (parse_digits t true digits); auto.
Qed.

Lemma parse_integer_correct_witness :
  parse_integer int8_parse_traits ([chr "-"] ++ str "128") = Ok (-128).
Proof.
  refine (parse_integer_correct int8_parse_traits [chr "-"] (str "128") _ _ _ _ _).
  - repeat constructor.
  - repeat constructor; vm_compute; congruence.
  - discriminate.
  - repeat constructor.
  - reflexivity.
Defined.

(** [parse_integer] does not refuse everything that is not a decimal number:
    the table gives the character [@] the digit value 240, so a one-character
    string [@] is read as the number 240; the empty string is dereferenced, and a
    character from 128 on (a negative [char]) indexes the table out of range. *)
Theorem parse_integer_not_digits t b :
  t ∈ all_traits -> 128 <= b < 256 ->
  parse_integer uint8_parse_traits (str "@") = Ok 240 /\
  parse_integer uint32_parse_traits (str "1@") = Ok 250 /\
  parse_integer t [] = Err undefined_behaviour /\
  parse_integer t [b] = Err undefined_behaviour.
Proof.
  intros Ht Hb. split_and!; [reflexivity..|].
  unfold parse_integer. change (chr "-") with 45. change (chr "+") with 43.
  rewrite (proj2 (Z.eqb_neq b 45)), (proj2 (Z.eqb_neq b 43)) by lia. cbn -[Nat.ltb].
  assert (Hn : (digits_representation_max_size t <? 1)%nat = false).
  { unfold all_traits in Ht. rewrite !elem_of_cons, elem_of_nil in Ht.
    by repeat destruct Ht as [->|Ht]. }
  rewrite Hn. unfold table_at. by rewrite (proj2 (Z.ltb_ge b 128)) by lia.
Qed.

Lemma parse_integer_not_digits_witness :
  parse_integer int64_parse_traits [200] = Err undefined_behaviour.
Proof.
  refine (proj2 (proj2 (proj2 (parse_integer_not_digits int64_parse_traits 200 _ _)))).
  - repeat constructor.
  - split; reflexivity || discriminate.
Defined.
