(* ===== verification/Base64.v ===== *)
(** * Base64

    [restinio/utils/base64.hpp] and [base64_lut.ipp]: the validity test, the
    encoder and the decoder, with the round trip and the exact condition under
    which the decoder reads past the end of its argument. *)

From S2P Require Import Prelude Bitops.

(*@ utils/base64_lut.ipp 1-52 is_base64_char_lut *)
Definition is_base64_char_lut : list Z :=
  [ 0; 0; 0; 0; 0; 0; 0; 0; 0; 0; 0; 0; 0; 0; 0; 0;
    0; 0; 0; 0; 0; 0; 0; 0; 0; 0; 0; 0; 0; 0; 0; 0;
    0; 0; 0; 0; 0; 0; 0; 0; 0; 0; 0; 1; 0; 0; 0; 1;
    1; 1; 1; 1; 1; 1; 1; 1; 1; 1; 0; 0; 0; 1; 0; 0;
    0; 1; 1; 1; 1; 1; 1; 1; 1; 1; 1; 1; 1; 1; 1; 1;
    1; 1; 1; 1; 1; 1; 1; 1; 1; 1; 1; 0; 0; 0; 0; 0;
    0; 1; 1; 1; 1; 1; 1; 1; 1; 1; 1; 1; 1; 1; 1; 1;
    1; 1; 1; 1; 1; 1; 1; 1; 1; 1; 1; 0; 0; 0; 0; 0;
    0; 0; 0; 0; 0; 0; 0; 0; 0; 0; 0; 0; 0; 0; 0; 0;
    0; 0; 0; 0; 0; 0; 0; 0; 0; 0; 0; 0; 0; 0; 0; 0;
    0; 0; 0; 0; 0; 0; 0; 0; 0; 0; 0; 0; 0; 0; 0; 0;
    0; 0; 0; 0; 0; 0; 0; 0; 0; 0; 0; 0; 0; 0; 0; 0;
    0; 0; 0; 0; 0; 0; 0; 0; 0; 0; 0; 0; 0; 0; 0; 0;
    0; 0; 0; 0; 0; 0; 0; 0; 0; 0; 0; 0; 0; 0; 0; 0;
    0; 0; 0; 0; 0; 0; 0; 0; 0; 0; 0; 0; 0; 0; 0; 0;
    0; 0; 0; 0; 0; 0; 0; 0; 0; 0; 0; 0; 0; 0; 0; 0 ].

(*@ utils/base64_lut.ipp 54-66 base64_alphabet *)
Definition base64_alphabet : list Z :=
  [ 65; 66; 67; 68; 69; 70; 71; 72; 73; 74; 75; 76; 77;
    78; 79; 80; 81; 82; 83; 84; 85; 86; 87; 88; 89; 90;
    97; 98; 99; 100; 101; 102; 103; 104; 105; 106; 107; 108; 109;
    110; 111; 112; 113; 114; 115; 116; 117; 118; 119; 120; 121; 122;
    48; 49; 50; 51; 52; 53; 54; 55; 56; 57; 43; 47 ].

(*@ utils/base64_lut.ipp 68-119 base64_decode_lut *)
Definition base64_decode_lut : list Z :=
  [ 0; 0; 0; 0; 0; 0; 0; 0; 0; 0; 0; 0; 0; 0; 0; 0;
    0; 0; 0; 0; 0; 0; 0; 0; 0; 0; 0; 0; 0; 0; 0; 0;
    0; 0; 0; 0; 0; 0; 0; 0; 0; 0; 0; 62; 0; 0; 0; 63;
    52; 53; 54; 55; 56; 57; 58; 59; 60; 61; 0; 0; 0; 0; 0; 0;
    0; 0; 1; 2; 3; 4; 5; 6; 7; 8; 9; 10; 11; 12; 13; 14;
    15; 16; 17; 18; 19; 20; 21; 22; 23; 24; 25; 0; 0; 0; 0; 0;
    0; 26; 27; 28; 29; 30; 31; 32; 33; 34; 35; 36; 37; 38; 39; 40;
    41; 42; 43; 44; 45; 46; 47; 48; 49; 50; 51; 0; 0; 0; 0; 0;
    0; 0; 0; 0; 0; 0; 0; 0; 0; 0; 0; 0; 0; 0; 0; 0;
    0; 0; 0; 0; 0; 0; 0; 0; 0; 0; 0; 0; 0; 0; 0; 0;
    0; 0; 0; 0; 0; 0; 0; 0; 0; 0; 0; 0; 0; 0; 0; 0;
    0; 0; 0; 0; 0; 0; 0; 0; 0; 0; 0; 0; 0; 0; 0; 0;
    0; 0; 0; 0; 0; 0; 0; 0; 0; 0; 0; 0; 0; 0; 0; 0;
    0; 0; 0; 0; 0; 0; 0; 0; 0; 0; 0; 0; 0; 0; 0; 0;
    0; 0; 0; 0; 0; 0; 0; 0; 0; 0; 0; 0; 0; 0; 0; 0;
    0; 0; 0; 0; 0; 0; 0; 0; 0; 0; 0; 0; 0; 0; 0; 0 ].

(*@ utils/base64.hpp 36-41 is_base64_char *)
Definition is_base64_char (c : Z) : bool := nth (Z.to_nat c) is_base64_char_lut 0 =? 1.

Inductive expected_type : Type := b64ch | b64ch_or_padding | padding.

(** One character of the loop: the state is [expects], [b64chars_found] and
    [paddings_found]; [None] is [return false]. *)
Definition validity_step (s : expected_type * Z * Z) (ch : Z) :
    option (expected_type * Z * Z) :=
  let '(expects, b64chars_found, paddings_found) := s in
  match expects with
  | b64ch =>
      if ch =? chr "=" then None
      else if is_base64_char ch then
        Some (if 2 <=? b64chars_found + 1 then b64ch_or_padding else b64ch,
              b64chars_found + 1, paddings_found)
      else None
  | b64ch_or_padding =>
      if ch =? chr "=" then Some (padding, b64chars_found, paddings_found + 1)
      else if is_base64_char ch then Some (expects, b64chars_found, paddings_found)
      else None
  | padding =>
      if ch =? chr "=" then
        if 2 <? paddings_found + 1 then None
        else Some (padding, b64chars_found, paddings_found + 1)
      else None
  end.

Fixpoint validity_loop (s : expected_type * Z * Z) (l : bytes) : bool :=
  match l with
  | [] => true
  | ch :: l' => match validity_step s ch with Some s' => validity_loop s' l' | None => false end
  end.

(*@ utils/base64.hpp 43-107 is_valid_base64_string *)
Definition is_valid_base64_string (s : bytes) : bool :=
  if (length s <? 4)%nat then false else validity_loop (b64ch, 0, 0) s.

(*@ utils/base64.hpp 115-120 sixbits_char *)
Definition sixbits_char (Shift : Z) (bs : Z) : Z := n_bits_from 8 Shift 6 bs.

(** The lambda [alphabet_char]; a six-bit value is always inside the table. *)
Definition alphabet_char (ch : Z) : Z := nth (Z.to_nat ch) base64_alphabet 0.

(*@ utils/base64.hpp 122-175 encode *)
Fixpoint encode (s : bytes) : bytes :=
  match s with
  | a :: b :: c :: s' =>
      let bs := (a .<< 16) .| (b .<< 8) .| c in
      alphabet_char (sixbits_char 18 bs) :: alphabet_char (sixbits_char 12 bs) ::
      alphabet_char (sixbits_char 6 bs) :: alphabet_char (sixbits_char 0 bs) :: encode s'
  | [a] =>
      let bs := a .<< 16 in
      [alphabet_char (sixbits_char 18 bs); alphabet_char (sixbits_char 12 bs);
       chr "="; chr "="]
  | [a; b] =>
      let bs := (a .<< 16) .| (b .<< 8) in
      [alphabet_char (sixbits_char 18 bs); alphabet_char (sixbits_char 12 bs);
       alphabet_char (sixbits_char 6 bs); chr "="]
  | [] => []
  end.

(** [decoding_error_t], and the read of [str\[i\]] past the end. *)
(*@ utils/base64.hpp 177-181 decoding_error_t *)
Inductive decoding_error : Type :=
| invalid_base64_sequence
| out_of_bounds_read.

#[global] Instance decoding_error_eq_dec : EqDecision decoding_error.
Proof. solve_decision. Defined.

(** [decode_table\[at(i)\]]: the character is an unsigned char, always inside
    the table. *)
Definition decode_char (c : Z) : Z := nth (Z.to_nat c) base64_decode_lut 0.

(** The four characters of one group: [bs] and [paddings_found] give one to
    three bytes. *)
Definition decode_group (c0 c1 c2 c3 : Z) : bytes :=
  let bs := decode_char c0 in
  let bs := (bs .<< 6) .| decode_char c1 in
  let p2 := c2 =? chr "=" in
  let bs := if p2 then bs .<< 6 else (bs .<< 6) .| decode_char c2 in
  let p3 := c3 =? chr "=" in
  let bs := if p3 then bs .<< 6 else (bs .<< 6) .| decode_char c3 in
  let paddings_found := Z.b2z p2 + Z.b2z p3 in
  n_bits_from 8 16 8 bs ::
  (if paddings_found <? 2 then [n_bits_from 8 8 8 bs] else []) ++
  (if paddings_found <? 1 then [n_bits_from 8 0 8 bs] else []).

(** The loop over the groups of four; a group that is not complete is read past
    the end of the string. *)
Fixpoint decode_groups (s : bytes) : result decoding_error bytes :=
  match s with
  | [] => Ok []
  | c0 :: c1 :: c2 :: c3 :: s' =>
      rest ← decode_groups s'; Ok (decode_group c0 c1 c2 c3 ++ rest)
  | _ => Err out_of_bounds_read
  end.

(*@ utils/base64.hpp 183-245 try_decode *)
Definition try_decode (s : bytes) : result decoding_error bytes :=
  if negb (is_valid_base64_string s) then Err invalid_base64_sequence
  else decode_groups s.

(** What [decode] throws: the two texts differ in the part of the argument they
    quote. *)
Inductive decode_failure : Type :=
| invalid_string_that_starts_with (prefix : bytes)
| invalid_string (s : bytes)
| decode_out_of_bounds_read.

(*@ utils/base64.hpp 250-264 throw_exception_on_invalid_base64_string *)
Definition throw_exception_on_invalid_base64_string (s : bytes) : decode_failure :=
  if (32 <? length s)%nat then invalid_string_that_starts_with (take 32 s)
  else invalid_string s.

(*@ utils/base64.hpp 268-276 decode *)
Definition decode (s : bytes) : result decode_failure bytes :=
  match try_decode s with
  | Ok r => Ok r
  | Err invalid_base64_sequence => Err (throw_exception_on_invalid_base64_string s)
  | Err out_of_bounds_read => Err decode_out_of_bounds_read
  end.

(** ** The tables *)

Lemma six_forall (P : Z -> bool) :
  forallb P (seqZ 0 64) = true -> forall v, 0 <= v < 64 -> P v = true.
Proof.
  intros H v Hv. rewrite forallb_forall in H. apply H.
  rewrite <- list_elem_of_In. apply elem_of_seqZ. lia.
Qed.

(** A value below 64 is encoded as a Base64 character that is not a padding
    and decodes to the value. *)
Lemma alphabet_facts v :
  0 <= v < 64 ->
  decode_char (alphabet_char v) = v /\ is_base64_char (alphabet_char v) = true /\
  (alphabet_char v =? chr "=") = false.
Proof.
  intros Hv.
  assert (H : (decode_char (alphabet_char v) =? v) && is_base64_char (alphabet_char v) &&
              negb (alphabet_char v =? chr "=") = true)
    by (revert v Hv; apply six_forall; vm_compute; reflexivity).
  rewrite !andb_true_iff, negb_true_iff, Z.eqb_eq in H. destruct H as [[H1 H2] H3]. auto.
Qed.

Lemma sixbits_range s bs : 0 <= s -> 0 <= sixbits_char s bs < 64.
Proof. intros. apply (n_bits_from_range 8 s 6); [lia|done|done]. Qed.

Lemma sixbits_spec s bs : 0 <= s -> sixbits_char s bs = (bs / 2 ^ s) mod 64.
Proof. intros. unfold sixbits_char. by rewrite n_bits_from_spec by (done || lia). Qed.

(** ** Round trip *)

(** Four six-bit values are decoded to the three bytes of the 24-bit group. *)
Lemma decode_group_full v0 v1 v2 v3 :
  0 <= v0 < 64 -> 0 <= v1 < 64 -> 0 <= v2 < 64 -> 0 <= v3 < 64 ->
  decode_group (alphabet_char v0) (alphabet_char v1) (alphabet_char v2) (alphabet_char v3)
  = let bs := ((v0 * 64 + v1) * 64 + v2) * 64 + v3 in
    [bs / 65536 mod 256; bs / 256 mod 256; bs mod 256].
Proof.
  intros H0 H1 H2 H3.
  pose proof (alphabet_facts v0 H0) as (D0 & _ & _).
  pose proof (alphabet_facts v1 H1) as (D1 & _ & _).
  pose proof (alphabet_facts v2 H2) as (D2 & _ & E2).
  pose proof (alphabet_facts v3 H3) as (D3 & _ & E3).
  unfold decode_group. rewrite E2, E3, D0, D1, D2, D3.
  rewrite !lor_shiftl_add by lia. cbn [Z.b2z Z.add Z.ltb Z.compare app].
  rewrite !n_bits_from_spec by (done || lia). cbv zeta.
  change (2 ^ 6) with 64. change (2 ^ 16) with 65536. change (2 ^ 8) with 256.
  change (2 ^ 0) with 1. change (2 ^ Z.of_nat 8) with 256. by rewrite Z.div_1_r.
Qed.

Lemma decode_group_two v0 v1 v2 :
  0 <= v0 < 64 -> 0 <= v1 < 64 -> 0 <= v2 < 64 ->
  decode_group (alphabet_char v0) (alphabet_char v1) (alphabet_char v2) (chr "=")
  = let bs := ((v0 * 64 + v1) * 64 + v2) * 64 in [bs / 65536 mod 256; bs / 256 mod 256].
Proof.
  intros H0 H1 H2.
  pose proof (alphabet_facts v0 H0) as (D0 & _ & _).
  pose proof (alphabet_facts v1 H1) as (D1 & _ & _).
  pose proof (alphabet_facts v2 H2) as (D2 & _ & E2).
  unfold decode_group. rewrite E2, Z.eqb_refl, D0, D1, D2.
  rewrite !lor_shiftl_add by lia. cbn [Z.b2z Z.add Z.ltb Z.compare app].
  rewrite !n_bits_from_spec by (done || lia). cbv zeta. by rewrite Z.shiftl_mul_pow2.
Qed.

Lemma decode_group_one v0 v1 :
  0 <= v0 < 64 -> 0 <= v1 < 64 ->
  decode_group (alphabet_char v0) (alphabet_char v1) (chr "=") (chr "=")
  = [(v0 * 64 + v1) * 4096 / 65536 mod 256].
Proof.
  intros H0 H1.
  pose proof (alphabet_facts v0 H0) as (D0 & _ & _).
  pose proof (alphabet_facts v1 H1) as (D1 & _ & _).
  unfold decode_group. rewrite Z.eqb_refl, D0, D1.
  rewrite !lor_shiftl_add by lia. cbn [Z.b2z Z.add Z.ltb Z.compare app].
  rewrite !n_bits_from_spec by (done || lia). cbv zeta. rewrite !Z.shiftl_mul_pow2 by lia.
  do 3 f_equal. ring.
Qed.

(** The bytes of a group, or-ed together. *)
Lemma group_value a b c :
  is_byte a -> is_byte b -> is_byte c ->
  (a .<< 16) .| (b .<< 8) .| c = a * 65536 + b * 256 + c.
Proof.
  unfold is_byte. intros Ha Hb Hc. rewrite (lor_shiftl_add a (b .<< 8) 16).
  - rewrite Z.shiftl_mul_pow2 by lia. change (2 ^ 8) with 256. change (2 ^ 16) with 65536.
    replace (a * 65536 + b * 256) with ((a * 256 + b) * 2 ^ 8) by lia.
    by rewrite lor_mul_add by lia.
  - lia.
  - rewrite Z.shiftl_mul_pow2 by lia. lia.
Qed.

(** Joining the leading six-bit digits of a 24-bit value is a division. *)
Lemma sixbits_join x :
  0 <= x < 16777216 ->
  sixbits_char 18 x * 64 + sixbits_char 12 x = x / 4096 /\
  x / 4096 * 64 + sixbits_char 6 x = x / 64 /\
  x / 64 * 64 + sixbits_char 0 x = x.
Proof.
  intros Hx. rewrite !sixbits_spec by lia.
  change (2 ^ 18) with (4096 * 64). change (2 ^ 12) with 4096.
  change (2 ^ 6) with 64. change (2 ^ 0) with 1.
  rewrite <- Z.div_div, Z.div_1_r by lia. change 4096 with (64 * 64) at 3 4.
  rewrite <- !(Z.div_div x 64 64) by lia.
  split_and!; div_lia.
Qed.

Lemma decode_encode_groups bs :
  is_bytes bs -> decode_groups (encode bs) = Ok bs.
Proof.
  remember (length bs) as n eqn:Hn. revert bs Hn.
  induction n as [n IH] using lt_wf_ind. intros bs -> Hb.
  assert (H0 : is_byte 0) by (unfold is_byte; lia).
  destruct bs as [|a [|b [|c bs]]]; [done|..].
  - apply Forall_cons in Hb as [Ha _]. cbn -[decode_group sixbits_char alphabet_char].
    rewrite decode_group_one by (apply sixbits_range; lia).
    pose proof (group_value a 0 0 Ha H0 H0) as Hg. rewrite !Z.lor_0_r in Hg.
    unfold is_byte in *. rewrite Hg. edestruct sixbits_join as (J1 & _); [|rewrite J1]; [lia|].
    cbn [app]. do 2 f_equal. div_lia.
  - apply Forall_cons in Hb as [Ha Hb]. apply Forall_cons in Hb as [Hb _].
    cbn -[decode_group sixbits_char alphabet_char].
    rewrite decode_group_two by (apply sixbits_range; lia).
    pose proof (group_value a b 0 Ha Hb H0) as Hg. rewrite !Z.lor_0_r in Hg.
    unfold is_byte in *. rewrite Hg.
    edestruct sixbits_join as (J1 & J2 & _); [|rewrite J1, J2]; [lia|].
    cbn [app]. do 2 f_equal; [div_lia|f_equal; div_lia].
  - apply Forall_cons in Hb as [Ha Hb]. apply Forall_cons in Hb as [Hb Hc].
    apply Forall_cons in Hc as [Hc Hbs].
    cbn -[decode_group sixbits_char alphabet_char].
    rewrite decode_group_full by (apply sixbits_range; lia).
    rewrite (IH (length bs)) by (simpl; done || lia).
    rewrite (group_value a b c) by done. unfold is_byte in *.
    edestruct sixbits_join as (J1 & J2 & J3); [|rewrite J1, J2, J3]; [lia|].
    cbn [app mbind result_bind]. f_equal.
    f_equal; [div_lia|f_equal; [div_lia|f_equal; div_lia]].
Qed.

(** ** Validity *)

Lemma step_char st v :
  0 <= v < 64 -> fst (fst st) <> padding ->
  validity_step st (alphabet_char v)
  = Some (match fst (fst st) with
          | b64ch => (if 2 <=? snd (fst st) + 1 then b64ch_or_padding else b64ch,
                      snd (fst st) + 1, snd st)
          | _ => st
          end).
Proof.
  intros Hv Hne. pose proof (alphabet_facts v Hv) as (_ & E1 & E2).
  destruct st as [[[] n] p]; cbn in *; [| |done]; by rewrite E2, E1.
Qed.

Local Ltac char_step :=
  cbn [validity_loop]; rewrite ?step_char by (done || (apply sixbits_range; lia));
  cbn [fst snd Z.add Z.leb Z.compare Pos.compare Pos.compare_cont Pos.add].

Lemma encode_valid_loop bs n :
  validity_loop (b64ch_or_padding, n, 0) (encode bs) = true.
Proof.
  remember (length bs) as k eqn:Hk. revert bs Hk.
  induction k as [k IH] using lt_wf_ind. intros bs ->.
  destruct bs as [|a [|b [|c bs]]]; [done|..];
    cbn [encode]; do 2 char_step; [done|char_step; done|]; do 2 char_step.
  apply (IH (length bs)); simpl; lia.
Qed.

Lemma encode_length bs :
  length (encode bs) = (4 * ((length bs + 2) / 3))%nat.
Proof.
  remember (length bs) as k eqn:Hk. revert bs Hk.
  induction k as [k IH] using lt_wf_ind. intros bs ->.
  destruct bs as [|a [|b [|c bs]]]; [done..|]. cbn [encode length].
  rewrite (IH (length bs)) by (simpl; lia).
  replace (S (S (S (length bs))) + 2)%nat with ((length bs + 2) + 1 * 3)%nat by lia.
  rewrite Nat.div_add by lia. lia.
Qed.

Lemma encode_valid bs : bs <> [] -> is_valid_base64_string (encode bs) = true.
Proof.
  intros Hne. unfold is_valid_base64_string.
  assert (Hlen : (length (encode bs) <? 4)%nat = false).
  { rewrite encode_length. apply Nat.ltb_ge. destruct bs as [|a bs]; [done|]. cbn [length].
    replace (S (length bs) + 2)%nat with (length bs + 1 * 3)%nat by lia.
    rewrite Nat.div_add by lia. lia. }
  rewrite Hlen. clear Hlen.
  destruct bs as [|a [|b [|c bs]]]; [done|..];
    cbn [encode]; do 2 char_step; [done| |]; do 2 char_step; [done|].
  apply encode_valid_loop.
Qed.

Lemma try_decode_encode bs : is_bytes bs -> bs <> [] -> try_decode (encode bs) = Ok bs.
Proof. intros Hb Hne. unfold try_decode. rewrite encode_valid by done. by apply decode_encode_groups. Qed.

(** The text is made of characters of the alphabet and then padding. *)
Lemma encode_shape (P : Z -> Prop) bs : (forall v, 0 <= v < 64 -> P (alphabet_char v)) ->
  exists a k, encode bs = a ++ replicate k (chr "=") /\ Forall P a /\ (bs <> [] -> a <> []).
Proof.
  intros HP. assert (Hc : forall s b, 0 <= s -> P (alphabet_char (sixbits_char s b))).
  { intros s b Hs. by apply HP, sixbits_range. }
  remember (length bs) as n eqn:Hn. revert bs Hn.
  induction n as [n IH] using lt_wf_ind. intros bs ->.
  destruct bs as [|a [|b [|c bs]]]; cbn [encode].
  - by exists [], O.
  - eexists [_; _], 2%nat. split; [done|]. split; [|done]. repeat constructor; apply Hc; lia.
  - eexists [_; _; _], 1%nat. split; [done|]. split; [|done]. repeat constructor; apply Hc; lia.
  - destruct (IH (length bs)) with bs as (x & k & -> & Hx & _); [cbn; lia | done |].
    eexists (_ :: _ :: _ :: _ :: x), k. split; [done|]. split; [|done].
    repeat (constructor; [apply Hc; lia|]). done.
Qed.

(** Decoding the encoding of any non-empty sequence of bytes gives the bytes
    back, for [try_decode] and for the throwing [decode]. *)
Theorem base64_roundtrip bs :
  is_bytes bs -> bs <> [] -> try_decode (encode bs) = Ok bs /\ decode (encode bs) = Ok bs.
Proof.
  intros Hb Hne. pose proof (try_decode_encode bs Hb Hne) as H. split; [done|]. unfold decode. by rewrite H.
Qed.

Lemma base64_roundtrip_witness :
  try_decode (encode [0; 255; 128; 7]) = Ok [0; 255; 128; 7].
Proof.
  apply (proj1 (base64_roundtrip [0; 255; 128; 7]
    ltac:(repeat constructor; vm_compute; congruence) ltac:(discriminate))).
Defined.

(** ** When the decoder stays inside its argument *)

Lemma decode_groups_total s :
  if (length s mod 4 =? 0)%nat
  then exists r, decode_groups s = Ok r /\
         (3 * (length s / 4) <= length r + 2 * (length s / 4))%nat /\
         (length r <= 3 * (length s / 4))%nat
  else decode_groups s = Err out_of_bounds_read.
Proof.
  remember (length s) as k eqn:Hk. revert s Hk.
  induction k as [k IH] using lt_wf_ind. intros s ->.
  destruct s as [|c0 [|c1 [|c2 [|c3 s]]]]; [exists []; done|done..|].
  cbn [length]. specialize (IH (length s) ltac:(simpl; lia) s eq_refl).
  replace (S (S (S (S (length s))))) with (length s + 1 * 4)%nat by lia.
  rewrite Nat.Div0.mod_add, Nat.div_add by lia.
  cbn [decode_groups]. destruct (length s mod 4 =? 0)%nat.
  - destruct IH as (r & -> & H1 & H2). eexists. split; [reflexivity|].
    rewrite length_app. unfold decode_group. cbn [length]. rewrite length_app.
    repeat case_match; cbn [length]; lia.
  - by rewrite IH.
Qed.

(** The outcome of [try_decode] is decided by the validity test and the
    length: an invalid string is refused, a valid string whose length is a
    multiple of four is decoded to one to three bytes per group, and a valid
    string of any other length is read past its end - the validity test does not
    look at the length beyond requiring four characters, so that such strings
    exist ([abcde] is one) and [decode] does not refuse them. *)
Theorem try_decode_outcome s :
  (is_valid_base64_string s = false -> try_decode s = Err invalid_base64_sequence) /\
  (is_valid_base64_string s = true -> (length s mod 4 = 0)%nat ->
     exists r, try_decode s = Ok r /\
       (length s / 4 <= length r)%nat /\ (length r <= 3 * (length s / 4))%nat) /\
  (is_valid_base64_string s = true -> (length s mod 4 <> 0)%nat ->
     try_decode s = Err out_of_bounds_read) /\
  try_decode (str "abcde") = Err out_of_bounds_read.
Proof.
  unfold try_decode at 1 2 3. pose proof (decode_groups_total s) as H.
  split_and!; [by intros ->| | |reflexivity].
  - intros -> E. rewrite E in H. destruct H as (r & -> & H1 & H2). exists r.
    split; [done|]. lia.
  - intros -> E. rewrite (proj2 (Nat.eqb_neq _ _)) in H by done. done.
Qed.

Lemma try_decode_outcome_witness :
  exists r, try_decode (str "QUI=") = Ok r /\ (length r <= 3)%nat.
Proof.
  destruct (proj1 (proj2 (try_decode_outcome (str "QUI="))) eq_refl eq_refl) as (r & H1 & _ & H2).
  exists r. split; [exact H1|exact H2].
Defined.
