(* ===== verification/Sha1.v ===== *)
(** * SHA-1

    [restinio/utils/sha1.hpp]: the unrolled 80-round transform on a rolling
    16-word block, the streaming builder with its padding, and the printers.
    Specification: the message schedule, the round functions and the padding of
    FIPS 180. *)

From S2P Require Import Prelude Bitops.

(** ** The transform *)

(*@ utils/sha1.hpp 68-73 rotate_left *)
Definition rotate_left (Shift : Z) (x : Z) : Z :=
  wrap 32 (x .<< Shift) .| (x .>> (32 - Shift)).

(*@ utils/sha1.hpp 75-80 octet_from *)
Definition octet_from (Shift : Z) (x : Z) : Z := n_bits_from 8 Shift 8 x.

(** [std::array::operator\[\]] on the 16 words of the block. *)
Definition word (block : list Z) (i : nat) : Z := nth i block 0.

(*@ utils/sha1.hpp 82-86 blk *)
Definition blk (block : list Z) (i : nat) : Z :=
  rotate_left 1 (word block ((i + 13) mod 16) .^ word block ((i + 8) mod 16) .^
                 word block ((i + 2) mod 16) .^ word block i).

(** The five local variables of [transform]. *)
Inductive reg : Type := ra | rb | rc | rd | re.

#[global] Instance reg_eq_dec : EqDecision reg.
Proof. solve_decision. Defined.

Record regs : Type := mk_regs { reg_a : Z; reg_b : Z; reg_c : Z; reg_d : Z; reg_e : Z }.

Definition get (r : reg) (s : regs) : Z :=
  match r with
  | ra => reg_a s | rb => reg_b s | rc => reg_c s | rd => reg_d s | re => reg_e s
  end.

Definition set (r : reg) (v : Z) (s : regs) : regs :=
  let '(mk_regs a b c d e) := s in
  match r with
  | ra => mk_regs v b c d e | rb => mk_regs a v c d e | rc => mk_regs a b v d e
  | rd => mk_regs a b c v e | re => mk_regs a b c d v
  end.

(** The state of [transform]: [block] and the variables. *)
Abbreviation tstate := (list Z * regs)%type.

(** The common tail of [R0]-[R4]: [z += f + block\[i\] + k + rotate_left<5>(v)] and
    [w = rotate_left<30>(w)], where [w] and [z] are references to variables. *)
Definition round_tail (k f : Z) (v w z : reg) (i : nat) (st : tstate) : tstate :=
  let '(block, s) := st in
  let s' := set z (wrap 32 (get z s + (f + word block i + k + rotate_left 5 (get v s)))) s in
  (block, set w (rotate_left 30 (get w s')) s').

(** [block\[i\] = blk(block, i)]. *)
Definition roll (i : nat) (st : tstate) : tstate := (<[i := blk (fst st) i]> (fst st), snd st).

Definition f_choose (w x y : Z) : Z := (w .& (x .^ y)) .^ y.
Definition f_parity (w x y : Z) : Z := w .^ x .^ y.
Definition f_majority (w x y : Z) : Z := ((w .| x) .& y) .| (w .& x).

(*@ utils/sha1.hpp 88-93 R0 *)
Definition R0 (v w x y z : reg) (i : nat) (st : tstate) : tstate :=
  let s := snd st in
  round_tail 0x5a827999 (f_choose (get w s) (get x s) (get y s)) v w z i st.

(*@ utils/sha1.hpp 96-102 R1 *)
Definition R1 (v w x y z : reg) (i : nat) (st : tstate) : tstate :=
  let s := snd st in
  round_tail 0x5a827999 (f_choose (get w s) (get x s) (get y s)) v w z i (roll i st).

(*@ utils/sha1.hpp 105-111 R2 *)
Definition R2 (v w x y z : reg) (i : nat) (st : tstate) : tstate :=
  let s := snd st in
  round_tail 0x6ed9eba1 (f_parity (get w s) (get x s) (get y s)) v w z i (roll i st).

(*@ utils/sha1.hpp 113-119 R3 *)
Definition R3 (v w x y z : reg) (i : nat) (st : tstate) : tstate :=
  let s := snd st in
  round_tail 0x8f1bbcdc (f_majority (get w s) (get x s) (get y s)) v w z i (roll i st).

(*@ utils/sha1.hpp 122-128 R4 *)
Definition R4 (v w x y z : reg) (i : nat) (st : tstate) : tstate :=
  let s := snd st in
  round_tail 0xca62c1d6 (f_parity (get w s) (get x s) (get y s)) v w z i (roll i st).

(** One statement of the body of [transform]. *)
Inductive call : Type :=
| R0_ (v w x y z : reg) (i : nat)
| R1_ (v w x y z : reg) (i : nat)
| R2_ (v w x y z : reg) (i : nat)
| R3_ (v w x y z : reg) (i : nat)
| R4_ (v w x y z : reg) (i : nat).

#[global] Instance call_eq_dec : EqDecision call.
Proof. solve_decision. Defined.

Definition exec (st : tstate) (c : call) : tstate :=
  match c with
  | R0_ v w x y z i => R0 v w x y z i st
  | R1_ v w x y z i => R1 v w x y z i st
  | R2_ v w x y z i => R2 v w x y z i st
  | R3_ v w x y z i => R3 v w x y z i st
  | R4_ v w x y z i => R4 v w x y z i st
  end.

(** The 80 calls, as they are written. *)
(*@ utils/sha1.hpp 150-229 transform *)
Definition transform_calls : list call :=
  [ R0_ ra rb rc rd re 0; R0_ re ra rb rc rd 1;
    R0_ rd re ra rb rc 2; R0_ rc rd re ra rb 3;
    R0_ rb rc rd re ra 4; R0_ ra rb rc rd re 5;
    R0_ re ra rb rc rd 6; R0_ rd re ra rb rc 7;
    R0_ rc rd re ra rb 8; R0_ rb rc rd re ra 9;
    R0_ ra rb rc rd re 10; R0_ re ra rb rc rd 11;
    R0_ rd re ra rb rc 12; R0_ rc rd re ra rb 13;
    R0_ rb rc rd re ra 14; R0_ ra rb rc rd re 15;
    R1_ re ra rb rc rd 0; R1_ rd re ra rb rc 1;
    R1_ rc rd re ra rb 2; R1_ rb rc rd re ra 3;
    R2_ ra rb rc rd re 4; R2_ re ra rb rc rd 5;
    R2_ rd re ra rb rc 6; R2_ rc rd re ra rb 7;
    R2_ rb rc rd re ra 8; R2_ ra rb rc rd re 9;
    R2_ re ra rb rc rd 10; R2_ rd re ra rb rc 11;
    R2_ rc rd re ra rb 12; R2_ rb rc rd re ra 13;
    R2_ ra rb rc rd re 14; R2_ re ra rb rc rd 15;
    R2_ rd re ra rb rc 0; R2_ rc rd re ra rb 1;
    R2_ rb rc rd re ra 2; R2_ ra rb rc rd re 3;
    R2_ re ra rb rc rd 4; R2_ rd re ra rb rc 5;
    R2_ rc rd re ra rb 6; R2_ rb rc rd re ra 7;
    R3_ ra rb rc rd re 8; R3_ re ra rb rc rd 9;
    R3_ rd re ra rb rc 10; R3_ rc rd re ra rb 11;
    R3_ rb rc rd re ra 12; R3_ ra rb rc rd re 13;
    R3_ re ra rb rc rd 14; R3_ rd re ra rb rc 15;
    R3_ rc rd re ra rb 0; R3_ rb rc rd re ra 1;
    R3_ ra rb rc rd re 2; R3_ re ra rb rc rd 3;
    R3_ rd re ra rb rc 4; R3_ rc rd re ra rb 5;
    R3_ rb rc rd re ra 6; R3_ ra rb rc rd re 7;
    R3_ re ra rb rc rd 8; R3_ rd re ra rb rc 9;
    R3_ rc rd re ra rb 10; R3_ rb rc rd re ra 11;
    R4_ ra rb rc rd re 12; R4_ re ra rb rc rd 13;
    R4_ rd re ra rb rc 14; R4_ rc rd re ra rb 15;
    R4_ rb rc rd re ra 0; R4_ ra rb rc rd re 1;
    R4_ re ra rb rc rd 2; R4_ rd re ra rb rc 3;
    R4_ rc rd re ra rb 4; R4_ rb rc rd re ra 5;
    R4_ ra rb rc rd re 6; R4_ re ra rb rc rd 7;
    R4_ rd re ra rb rc 8; R4_ rc rd re ra rb 9;
    R4_ rb rc rd re ra 10; R4_ ra rb rc rd re 11;
    R4_ re ra rb rc rd 12; R4_ rd re ra rb rc 13;
    R4_ rc rd re ra rb 14; R4_ rb rc rd re ra 15 ].

(** The loop that loads the block: [buf\[4*i+3\] | buf\[4*i+2\]<<8 | ...]. *)
Definition load_word (buf : bytes) (i : nat) : Z :=
  (nth (4 * i + 3) buf 0 .& 0xff) .| wrap 32 ((nth (4 * i + 2) buf 0 .& 0xff) .<< 8) .|
  wrap 32 ((nth (4 * i + 1) buf 0 .& 0xff) .<< 16) .| wrap 32 ((nth (4 * i) buf 0 .& 0xff) .<< 24).

Definition load_block (buf : bytes) : list Z := load_word buf <$> seq 0 16.

(** [digest_t] is an array of five words. *)
Definition regs_of (digest : list Z) : regs :=
  mk_regs (nth 0 digest 0) (nth 1 digest 0) (nth 2 digest 0) (nth 3 digest 0) (nth 4 digest 0).

(*@ utils/sha1.hpp 130-236 transform *)
Definition transform (digest : list Z) (buf : bytes) : list Z :=
  let '(_, s) := fold_left exec transform_calls (load_block buf, regs_of digest) in
  [wrap 32 (nth 0 digest 0 + reg_a s); wrap 32 (nth 1 digest 0 + reg_b s);
   wrap 32 (nth 2 digest 0 + reg_c s); wrap 32 (nth 3 digest 0 + reg_d s);
   wrap 32 (nth 4 digest 0 + reg_e s)].

(** ** The builder *)

(*@ utils/sha1.hpp 345-350 builder_t *)
Record builder_t : Type := mk_builder {
  m_digest : list Z;
  m_buffer_len : nat;
  m_transforms_count : Z;
  m_buffer : bytes }.

(*@ utils/sha1.hpp 330-343 builder_t::reset *)
Definition builder_reset (_ : builder_t) : builder_t :=
  mk_builder [0x67452301; 0xEFCDAB89; 0x98BADCFE; 0x10325476; 0xC3D2E1F0] 0 0 (replicate 64 0).

(*@ utils/sha1.hpp 242-245 builder_t::builder_t *)
Definition new_builder : builder_t := builder_reset (mk_builder [] 0 0 []).

(** [std::copy] of [part] into the buffer at position [pos]. *)
Definition copy_at (pos : nat) (part buffer : bytes) : bytes :=
  take pos buffer ++ part ++ drop (pos + length part) buffer.

(** The [while( true )] loop; [None] when [fuel] iterations were not enough. *)
Fixpoint update_loop (fuel : nat) (b : builder_t) (what : bytes) : option builder_t :=
  match fuel with
  | O => None
  | S fuel' =>
      let part_len := Nat.min (length what) (64 - m_buffer_len b) in
      let buffer := copy_at (m_buffer_len b) (take part_len what) (m_buffer b) in
      let buffer_len := (m_buffer_len b + part_len)%nat in
      if negb (buffer_len =? 64)%nat
      then Some (mk_builder (m_digest b) buffer_len (m_transforms_count b) buffer)
      else update_loop fuel'
             (mk_builder (transform (m_digest b) buffer) 0
                (wrap 64 (m_transforms_count b + 1)) buffer)
             (drop part_len what)
  end.

(*@ utils/sha1.hpp 253-277 builder_t::update *)
Definition update (b : builder_t) (what : bytes) : option builder_t :=
  update_loop (S (length what)) b what.

(*@ utils/sha1.hpp 318-323 builder_t::calculate_total_bits_count *)
Definition calculate_total_bits_count (b : builder_t) : Z :=
  wrap 64 ((m_transforms_count b * 64 + Z.of_nat (m_buffer_len b)) * 8).

(** The lambda [push_uint_to_buffer]. *)
Definition octets (v : Z) : bytes :=
  [octet_from 24 v; octet_from 16 v; octet_from 8 v; octet_from 0 v].

(*@ utils/sha1.hpp 279-314 builder_t::finish *)
Definition finish (b : builder_t) : list Z :=
  let total_bits := calculate_total_bits_count b in
  let original_buf_len := m_buffer_len b in
  let buffer := copy_at original_buf_len (0x80 :: replicate (63 - original_buf_len) 0) (m_buffer b) in
  let '(digest, buffer) :=
    if (56 <? original_buf_len)%nat
    then (transform (m_digest b) buffer, replicate 64 0)
    else (m_digest b, buffer) in
  let buffer := copy_at 56 (octets (wrap 32 (total_bits .>> 32)) ++
                            octets (wrap 32 (total_bits .& 0xffffffff))) buffer in
  transform digest buffer.

(*@ utils/sha1.hpp 416-420 make_digest *)
Definition make_digest (what : bytes) : option (list Z) :=
  b ← update new_builder what; Some (finish b).

(** ** The printers *)

(*@ utils/sha1.hpp 356-361 details::halfbyte *)
Definition halfbyte (Shift : Z) (v : Z) : Z := n_bits_from 32 Shift 4 v.

(*@ utils/sha1.hpp 363-368 details::byte *)
Definition byte (Shift : Z) (v : Z) : Z := n_bits_from 32 Shift 8 v.

(*@ utils/sha1.hpp 372-395 to_hex_string *)
Definition to_hex_string (what : list Z) : bytes :=
  let digit v := nth (Z.to_nat v) (str "0123456789abcdef") 0 in
  what ≫= fun c =>
    [digit (halfbyte 28 c); digit (halfbyte 24 c); digit (halfbyte 20 c); digit (halfbyte 16 c);
     digit (halfbyte 12 c); digit (halfbyte 8 c); digit (halfbyte 4 c); digit (halfbyte 0 c)].

(*@ utils/sha1.hpp 397-414 to_string *)
Definition to_string (what : list Z) : bytes :=
  what ≫= fun c => [byte 24 c; byte 16 c; byte 8 c; byte 0 c].

(** ** FIPS 180: the compression function *)

(** The message schedule, newest word first: [W_t] for [t] below 16 is the
    message word, then the rotated sum of four earlier words. *)
Fixpoint schedule_rev (M : list Z) (n : nat) : list Z :=
  match n with
  | O => []
  | S t =>
      let r := schedule_rev M t in
      (if (t <? 16)%nat then nth t M 0
       else rotate_left 1 (nth 2 r 0 .^ nth 7 r 0 .^ nth 13 r 0 .^ nth 15 r 0)) :: r
  end.

Definition schedule (M : list Z) (t : nat) : Z := nth 0 (schedule_rev M (S t)) 0.

Definition fips_f (t : nat) (x y z : Z) : Z :=
  if (t <? 20)%nat then (x .& y) .^ (Z.lnot x .& z)
  else if (t <? 40)%nat then x .^ y .^ z
  else if (t <? 60)%nat then (x .& y) .^ (x .& z) .^ (y .& z)
  else x .^ y .^ z.

Definition fips_k (t : nat) : Z :=
  if (t <? 20)%nat then 0x5a827999 else if (t <? 40)%nat then 0x6ed9eba1
  else if (t <? 60)%nat then 0x8f1bbcdc else 0xca62c1d6.

(** One round on the working variables [(a, b, c, d, e)]. *)
Definition fips_round (M : list Z) (s : regs) (t : nat) : regs :=
  let '(mk_regs a b c d e) := s in
  mk_regs (wrap 32 (rotate_left 5 a + fips_f t b c d + e + fips_k t + schedule M t))
    a (rotate_left 30 b) c d.

(** The intermediate hash value after one 16-word block. *)
Definition fips_compress (H : list Z) (M : list Z) : list Z :=
  let s := fold_left (fips_round M) (seq 0 80) (regs_of H) in
  [wrap 32 (nth 0 H 0 + reg_a s); wrap 32 (nth 1 H 0 + reg_b s); wrap 32 (nth 2 H 0 + reg_c s);
   wrap 32 (nth 3 H 0 + reg_d s); wrap 32 (nth 4 H 0 + reg_e s)].

(** The big-endian words of a block of bytes. *)
Definition block_words (buf : bytes) : list Z :=
  (fun i => be_value (take 4 (drop (4 * i) buf))) <$> seq 0 16.

(** ** The unrolled transform computes the compression function *)

Lemma schedule_nth M n k : (k < n)%nat -> nth k (schedule_rev M n) 0 = schedule M (n - 1 - k).
Proof.
  revert k; induction n as [|n IH]; intros k Hk; [lia|]. destruct k as [|k].
  - by replace (S n - 1 - 0)%nat with n by lia.
  - replace (S n - 1 - S k)%nat with (n - 1 - k)%nat by lia. apply (IH k). lia.
Qed.

Lemma schedule_early M t : (t < 16)%nat -> schedule M t = nth t M 0.
Proof. intros H. unfold schedule. cbn [schedule_rev nth]. by rewrite (proj2 (Nat.ltb_lt _ _)). Qed.

Lemma schedule_late M t :
  (16 <= t)%nat ->
  schedule M t = rotate_left 1 (schedule M (t - 3) .^ schedule M (t - 8) .^
                                schedule M (t - 14) .^ schedule M (t - 16)).
Proof.
  intros H. unfold schedule at 1. cbn [schedule_rev].
  rewrite (proj2 (Nat.ltb_ge _ _)) by done. cbn [nth].
  rewrite !schedule_nth by lia.
  replace (t - 1 - 2)%nat with (t - 3)%nat by lia. replace (t - 1 - 7)%nat with (t - 8)%nat by lia.
  replace (t - 1 - 13)%nat with (t - 14)%nat by lia.
  by replace (t - 1 - 15)%nat with (t - 16)%nat by lia.
Qed.

Lemma f_choose_fips x y z : f_choose x y z = (x .& y) .^ (Z.lnot x .& z).
Proof.
  apply Z.bits_inj'; intros i Hi. unfold f_choose.
  rewrite !Z.lxor_spec, !Z.land_spec, Z.lnot_spec, Z.lxor_spec by done.
  by destruct (Z.testbit x i), (Z.testbit y i), (Z.testbit z i).
Qed.

Lemma f_majority_fips x y z : f_majority x y z = (x .& y) .^ (x .& z) .^ (y .& z).
Proof.
  apply Z.bits_inj'; intros i Hi. unfold f_majority.
  rewrite !Z.lxor_spec, !Z.lor_spec, !Z.land_spec, Z.lor_spec by done.
  by destruct (Z.testbit x i), (Z.testbit y i), (Z.testbit z i).
Qed.

(** The roles of the variables rotate by one at each call. *)
Definition roles (t : nat) : reg * reg * reg * reg * reg :=
  match (t mod 5)%nat with
  | 0%nat => (ra, rb, rc, rd, re)
  | 1%nat => (re, ra, rb, rc, rd)
  | 2%nat => (rd, re, ra, rb, rc)
  | 3%nat => (rc, rd, re, ra, rb)
  | _ => (rb, rc, rd, re, ra)
  end.

Definition call_at (t : nat) : call :=
  let '(v, w, x, y, z) := roles t in
  (if (t <? 16)%nat then R0_ else if (t <? 20)%nat then R1_ else if (t <? 40)%nat then R2_
   else if (t <? 60)%nat then R3_ else R4_) v w x y z (t mod 16)%nat.

Lemma transform_calls_regular : transform_calls = call_at <$> seq 0 80.
Proof. vm_compute. reflexivity. Qed.

(** The variables in the order of the specification before call [t]. *)
Definition view (t : nat) (s : regs) : regs :=
  let '(v, w, x, y, z) := roles t in mk_regs (get v s) (get w s) (get x s) (get y s) (get z s).

Lemma round_tail_view t k f i block s :
  let '(v, w, x, y, z) := roles t in
  round_tail k f v w z i (block, s) =
    (block, snd (round_tail k f v w z i (block, s))) /\
  view (S t) (snd (round_tail k f v w z i (block, s)))
  = mk_regs (wrap 32 (get z s + (f + word block i + k + rotate_left 5 (get v s))))
      (get v s) (rotate_left 30 (get w s)) (get x s) (get y s).
Proof.
  unfold view, roles. pose proof (Nat.mod_upper_bound t 5 ltac:(lia)) as Hlt.
  assert (Hs : (S t mod 5 = (t mod 5 + 1) mod 5)%nat)
    by (rewrite Nat.Div0.add_mod_idemp_l; f_equal; lia).
  rewrite Hs. destruct (t mod 5)%nat as [|[|[|[|[|n]]]]] eqn:E; [..|lia];
    destruct s; split; reflexivity.
Qed.

(** The rolling block holds the last 16 words of the schedule. *)
Definition rolling (M : list Z) (t : nat) (block : list Z) : Prop :=
  length block = 16%nat /\
  forall s, (Nat.max t 16 - 16 <= s < Nat.max t 16)%nat -> word block (s mod 16) = schedule M s.

Lemma mod16_shift t k :
  (k <= t)%nat -> (k <= 16)%nat -> ((t mod 16 + (16 - k)) mod 16 = (t - k) mod 16)%nat.
Proof.
  intros H1 H2. rewrite Nat.Div0.add_mod_idemp_l.
  replace (t + (16 - k))%nat with ((t - k) + 1 * 16)%nat by lia. by rewrite Nat.Div0.mod_add.
Qed.

Lemma blk_schedule M t block :
  (16 <= t)%nat -> rolling M t block -> blk block (t mod 16) = schedule M t.
Proof.
  intros Ht [Hlen Hw]. unfold blk. rewrite schedule_late by done.
  pose proof (mod16_shift t 3) as E3. pose proof (mod16_shift t 8) as E8.
  pose proof (mod16_shift t 14) as E14. cbn [Nat.sub] in E3, E8, E14.
  rewrite E3, E8, E14 by lia. clear E3 E8 E14.
  assert (E : (t mod 16 = (t - 16) mod 16)%nat).
  { replace t with ((t - 16) + 1 * 16)%nat at 1 by lia. by rewrite Nat.Div0.mod_add. }
  rewrite E. rewrite !Hw by lia. done.
Qed.

Lemma roll_rolling M t block s :
  (16 <= t)%nat -> rolling M t block -> rolling M (S t) (fst (roll (t mod 16) (block, s))).
Proof.
  intros Ht Hr. pose proof (blk_schedule M t block Ht Hr) as Hb. destruct Hr as [Hlen Hw].
  unfold roll; cbn [fst]. rewrite Hb. split; [by rewrite length_insert|].
  intros u Hu. unfold word. rewrite !nth_lookup.
  destruct (decide (u = t)) as [->|Hne].
  - rewrite list_lookup_insert_eq; [done|]. rewrite Hlen. apply Nat.mod_upper_bound; lia.
  - rewrite list_lookup_insert_ne.
    + rewrite <- nth_lookup. apply Hw. lia.
    + intros Heq. apply Hne.
      pose proof (Nat.div_mod_eq u 16). pose proof (Nat.div_mod_eq t 16). lia.
Qed.

Lemma exec_call M t block s :
  (t < 80)%nat -> rolling M t block ->
  let st' := exec (block, s) (call_at t) in
  rolling M (S t) (fst st') /\ view (S t) (snd st') = fips_round M (view t s) t.
Proof.
  intros Ht Hr. unfold call_at.
  pose proof (round_tail_view t) as Hv. unfold view at 2.
  destruct (roles t) as [[[[v w] x] y] z]. cbv zeta.
  set (block' := if (t <? 16)%nat then block else fst (roll (t mod 16) (block, s))).
  assert (Hr' : rolling M (S t) block' /\ word block' (t mod 16) = schedule M t).
  { unfold block'. destruct (Nat.ltb_spec t 16).
    - destruct Hr as [Hlen Hw]. split; [split; [done|]|].
      + intros u Hu. apply Hw. lia.
      + apply Hw. lia.
    - pose proof (roll_rolling M t block s ltac:(lia) Hr) as H'. split; [done|].
      apply H'. lia. }
  destruct Hr' as [Hr' Hword].
  assert (Hexec : exec (block, s) ((if (t <? 16)%nat then R0_ else if (t <? 20)%nat then R1_
      else if (t <? 40)%nat then R2_ else if (t <? 60)%nat then R3_ else R4_) v w x y z (t mod 16)%nat)
    = round_tail (fips_k t) (fips_f t (get w s) (get x s) (get y s)) v w z (t mod 16) (block', s)).
  { unfold block', fips_k, fips_f.
    destruct (Nat.ltb_spec t 16); [rewrite (proj2 (Nat.ltb_lt t 20)) by lia|];
      repeat case_match; cbn [exec]; unfold R0, R1, R2, R3, R4; cbn [snd];
      rewrite ?f_choose_fips, ?f_majority_fips; done. }
  rewrite Hexec.
  destruct (Hv (fips_k t) (fips_f t (get w s) (get x s) (get y s)) (t mod 16)%nat block' s) as [E1 E2].
  rewrite E2. split; [by rewrite E1|].
  unfold fips_round. rewrite Hword. do 2 f_equal. ring.
Qed.

Lemma exec_calls M n t block s :
  (t + n <= 80)%nat -> rolling M t block ->
  view (t + n) (snd (fold_left exec (call_at <$> seq t n) (block, s)))
  = fold_left (fips_round M) (seq t n) (view t s).
Proof.
  revert t block s. induction n as [|n IH]; intros t block s Ht Hr.
  { by rewrite Nat.add_0_r. }
  cbn [seq fmap list_fmap fold_left].
  destruct (exec_call M t block s ltac:(lia) Hr) as [Hr' Hv].
  destruct (exec (block, s) (call_at t)) as [block' s'].
  rewrite <- Hv. replace (t + S n)%nat with (S t + n)%nat by lia. apply IH; [lia|done].
Qed.

Lemma load_word_value b0 b1 b2 b3 :
  is_byte b0 -> is_byte b1 -> is_byte b2 -> is_byte b3 ->
  (b3 .& 0xff) .| wrap 32 ((b2 .& 0xff) .<< 8) .| wrap 32 ((b1 .& 0xff) .<< 16) .|
    wrap 32 ((b0 .& 0xff) .<< 24) = be_value [b0; b1; b2; b3].
Proof.
  unfold is_byte. intros H0 H1 H2 H3. change 0xff with 255. rewrite !land_255, !Z.mod_small by done.
  rewrite !Z.shiftl_mul_pow2 by lia. rewrite !wrap_small by lia.
  rewrite (Z.lor_comm b3), lor_mul_add by lia.
  rewrite (Z.lor_comm _ (b1 * 2 ^ 16)), lor_mul_add by lia.
  rewrite Z.lor_comm, lor_mul_add by lia. cbn. lia.
Qed.

Lemma take_4_drop {A} (d : A) (l : list A) n :
  (n + 4 <= length l)%nat ->
  take 4 (drop n l) = [nth n l d; nth (n + 1) l d; nth (n + 2) l d; nth (n + 3) l d].
Proof.
  revert l. induction n as [|n IH]; intros l Hl.
  - destruct l as [|? [|? [|? [|? ?]]]]; simpl in *; try lia. done.
  - destruct l; simpl in Hl; [lia|]. cbn. rewrite IH by lia. done.
Qed.

Lemma load_block_words buf :
  is_bytes buf -> length buf = 64%nat -> load_block buf = block_words buf.
Proof.
  intros Hb Hlen. unfold load_block, block_words. apply list_fmap_ext.
  intros j i Hi. apply lookup_seq in Hi as [-> Hj]. cbn [Nat.add].
  assert (Hn : forall k, (k < 64)%nat -> is_byte (nth k buf 0)).
  { intros k Hk. rewrite Forall_forall in Hb. apply Hb, list_elem_of_In, nth_In. lia. }
  rewrite (take_4_drop 0) by lia. unfold load_word. apply load_word_value; apply Hn; lia.
Qed.

Lemma transform_compress digest buf :
  is_bytes buf -> length buf = 64%nat ->
  transform digest buf = fips_compress digest (block_words buf).
Proof.
  intros Hb Hlen. unfold transform, fips_compress. rewrite load_block_words by done.
  set (M := block_words buf). rewrite transform_calls_regular.
  pose proof (exec_calls M 80 0 M (regs_of digest) ltac:(lia)) as H.
  destruct (fold_left exec _ _) as [block s].
  change (view 0 (regs_of digest)) with (regs_of digest) in H.
  rewrite <- H; [done|].
  assert (HM : length M = 16%nat) by (unfold M, block_words; by rewrite length_fmap).
  split; [done|]. intros u Hu. rewrite Nat.mod_small by lia.
  rewrite schedule_early by lia. done.
Qed.

(** The 80 unrolled calls of [transform], which rename the five
    variables instead of moving them and keep only the last 16 words of the
    message schedule in place, compute the compression function of FIPS 180:
    from any intermediate hash value and any 64-byte block. *)
Theorem transform_is_fips_compress digest buf :
  is_bytes buf -> length buf = 64%nat ->
  transform digest buf = fips_compress digest (block_words buf).
Proof. apply transform_compress. Qed.

Lemma transform_is_fips_compress_witness :
  transform (m_digest new_builder) (replicate 64 7)
  = fips_compress (m_digest new_builder) (block_words (replicate 64 7)).
Proof.
  apply (transform_is_fips_compress _ (replicate 64 7)); [|reflexivity].
  apply Forall_replicate. vm_compute. split; congruence.
Defined.

(** ** The builder *)

#[local] Opaque transform.

(** What a call of [update] does to one byte. *)
Definition add_byte (b : builder_t) (x : Z) : builder_t :=
  let buffer := <[m_buffer_len b := x]> (m_buffer b) in
  if (m_buffer_len b + 1 =? 64)%nat
  then mk_builder (transform (m_digest b) buffer) 0 (wrap 64 (m_transforms_count b + 1)) buffer
  else mk_builder (m_digest b) (m_buffer_len b + 1) (m_transforms_count b) buffer.

Definition builder_ok (b : builder_t) : Prop :=
  (m_buffer_len b < 64)%nat /\ length (m_buffer b) = 64%nat.

Lemma new_builder_ok : builder_ok new_builder.
Proof. split; cbn; [lia|done]. Qed.

Lemma add_byte_ok b x : builder_ok b -> builder_ok (add_byte b x).
Proof.
  intros [H1 H2]. unfold builder_ok, add_byte.
  destruct (Nat.eqb_spec (m_buffer_len b + 1) 64); cbn; rewrite length_insert; lia.
Qed.

Lemma copy_at_nil pos buffer : (pos <= length buffer)%nat -> copy_at pos [] buffer = buffer.
Proof. intros. unfold copy_at. cbn. by rewrite Nat.add_0_r, take_drop. Qed.

Lemma copy_at_cons pos x part buffer :
  (pos < length buffer)%nat ->
  copy_at pos (x :: part) buffer = copy_at (S pos) part (<[pos := x]> buffer).
Proof.
  intros H. unfold copy_at. rewrite (take_S_r _ pos x) by (by rewrite list_lookup_insert_eq).
  rewrite take_insert_ge by lia. rewrite drop_insert_lt by lia.
  rewrite <- app_assoc. cbn. by rewrite Nat.add_succ_r.
Qed.

(** A part that does not fill the buffer. *)
Lemma add_bytes_partial part b :
  builder_ok b -> (m_buffer_len b + length part < 64)%nat ->
  fold_left add_byte part b
  = mk_builder (m_digest b) (m_buffer_len b + length part) (m_transforms_count b)
      (copy_at (m_buffer_len b) part (m_buffer b)).
Proof.
  revert b. induction part as [|x part IH]; intros b Hb Hlen.
  - destruct Hb as [H1 H2]. cbn. rewrite copy_at_nil, Nat.add_0_r by lia. by destruct b.
  - cbn [fold_left length] in *. rewrite IH; [|by apply add_byte_ok|].
    + unfold add_byte. rewrite (proj2 (Nat.eqb_neq _ _)) by lia. cbn.
      destruct Hb. rewrite copy_at_cons by lia. f_equal; [lia|]. by rewrite Nat.add_1_r.
    + unfold add_byte. rewrite (proj2 (Nat.eqb_neq _ _)) by lia. cbn. lia.
Qed.

(** A part that fills the buffer exactly. *)
Lemma add_bytes_full part b :
  builder_ok b -> part <> [] -> (m_buffer_len b + length part = 64)%nat ->
  let buffer := copy_at (m_buffer_len b) part (m_buffer b) in
  fold_left add_byte part b
  = mk_builder (transform (m_digest b) buffer) 0 (wrap 64 (m_transforms_count b + 1)) buffer.
Proof.
  intros Hb Hne Hlen. destruct part as [|y part0] using rev_ind; [done|clear IHpart0 Hne].
  rewrite length_app in Hlen. cbn in Hlen. rewrite fold_left_app. cbn [fold_left].
  rewrite add_bytes_partial by (done || lia). unfold add_byte; cbn.
  rewrite (proj2 (Nat.eqb_eq _ _)) by lia.
  assert (Hbuf : <[(m_buffer_len b + length part0)%nat := y]> (copy_at (m_buffer_len b) part0 (m_buffer b))
                 = copy_at (m_buffer_len b) (part0 ++ [y]) (m_buffer b)).
  { destruct Hb as [H1 H2]. unfold copy_at. rewrite insert_app_r_alt.
    - rewrite length_take, Nat.min_l by lia.
      rewrite insert_app_r_alt by lia. rewrite <- app_assoc. do 2 f_equal.
      replace (m_buffer_len b + length part0 - m_buffer_len b - length part0)%nat with 0%nat by lia.
      destruct (lookup_lt_is_Some_2 (m_buffer b) (m_buffer_len b + length part0)) as [z Hz]; [lia|].
      rewrite (drop_S (m_buffer b) z) by done.
      cbn. rewrite length_app. cbn. do 2 f_equal. lia.
    - rewrite length_take. lia. }
  cbv zeta. by rewrite Hbuf.
Qed.

Lemma update_loop_bytes fuel b what :
  builder_ok b -> (length what < fuel)%nat ->
  update_loop fuel b what = Some (fold_left add_byte what b).
Proof.
  revert b what. induction fuel as [|fuel IH]; intros b what Hb Hf; [lia|].
  cbn [update_loop]. set (n := Nat.min (length what) (64 - m_buffer_len b)).
  assert (Hn : length (take n what) = n) by (rewrite length_take; unfold n; lia).
  destruct (Nat.eqb_spec (m_buffer_len b + n) 64) as [E|E]; cbn [negb].
  - pose proof (add_bytes_full (take n what) b Hb) as Hfull. cbv zeta in Hfull.
    rewrite <- Hfull.
    + rewrite IH; [by rewrite <- fold_left_app, take_drop| |].
      * rewrite Hfull; [|destruct Hb; destruct (take n what); simpl in *; [lia|done]|lia].
        destruct Hb. split; cbn; [lia|]. unfold copy_at. rewrite !length_app, length_take, length_drop. lia.
      * rewrite length_drop. destruct Hb. lia.
    + destruct Hb. destruct (take n what); simpl in *; [lia|done].
    + lia.
  - assert (n = length what /\ (m_buffer_len b + length what < 64)%nat) as [-> ?]
      by (unfold n in *; destruct Hb; lia).
    rewrite take_ge by lia. rewrite add_bytes_partial by (done || lia).
    done.
Qed.

Lemma update_bytes b what : builder_ok b -> update b what = Some (fold_left add_byte what b).
Proof. intros. apply update_loop_bytes; [done|lia]. Qed.

(** A sequence of [update] calls. *)
Definition updates (b : builder_t) (chunks : list bytes) : option builder_t :=
  fold_left (fun o chunk => b ← o; update b chunk) chunks (Some b).

Lemma add_bytes_ok what b : builder_ok b -> builder_ok (fold_left add_byte what b).
Proof.
  revert b; induction what as [|x what IH]; intros b Hb; [done|]. by apply IH, add_byte_ok.
Qed.

Lemma updates_bytes chunks b :
  builder_ok b -> updates b chunks = Some (fold_left add_byte (concat chunks) b).
Proof.
  revert b. unfold updates. induction chunks as [|c chunks IH]; intros b Hb; [done|].
  cbn [fold_left concat]. change (Some b ≫= fun b' => update b' c) with (update b c).
  rewrite update_bytes, fold_left_app by done. apply IH. by apply add_bytes_ok.
Qed.

(** ** FIPS 180: padding and the hash *)

(** Compressing [n] consecutive 64-byte blocks. *)
Fixpoint hash_blocks (n : nat) (H : list Z) (m : bytes) : list Z :=
  match n with
  | O => H
  | S n' => hash_blocks n' (fips_compress H (block_words (take 64 m))) (drop 64 m)
  end.

Definition fips_pad (m : bytes) : bytes :=
  m ++ 0x80 :: replicate ((119 - length m mod 64) mod 64) 0 ++
  write_number_to_big_endian_bytes 8 (8 * Z.of_nat (length m)).

Definition fips_sha1 (m : bytes) : list Z :=
  let p := fips_pad m in
  hash_blocks (length p / 64) [0x67452301; 0xEFCDAB89; 0x98BADCFE; 0x10325476; 0xC3D2E1F0] p.

Lemma hash_blocks_S n H m :
  hash_blocks (S n) H m
  = fips_compress (hash_blocks n H m) (block_words (take 64 (drop (64 * n) m))).
Proof.
  revert H m. induction n as [|n IH]; intros H m; [done|].
  cbn [hash_blocks] in *. rewrite IH, drop_drop.
  by replace (64 * S n)%nat with (64 + 64 * n)%nat by lia.
Qed.

Lemma hash_blocks_app n H m x :
  (64 * n <= length m)%nat -> hash_blocks n H (m ++ x) = hash_blocks n H m.
Proof.
  revert H m. induction n as [|n IH]; intros H m Hlen; [done|]. cbn [hash_blocks].
  rewrite take_app_le, drop_app_le by lia. apply IH. rewrite length_drop. lia.
Qed.

Lemma hash_blocks_snoc n H m x :
  length m = (64 * n)%nat -> length x = 64%nat ->
  hash_blocks (S n) H (m ++ x) = fips_compress (hash_blocks n H m) (block_words x).
Proof.
  intros Hm Hx. rewrite hash_blocks_S, hash_blocks_app by lia.
  rewrite drop_app_length' by done. by rewrite take_ge by lia.
Qed.

(** What a builder that was fed the message [m] looks like: [done] is the
    message up to its last full block, [rest] the part in the buffer. *)
Definition models (m : bytes) (b : builder_t) : Prop :=
  exists done rest n,
    m = done ++ rest /\ length done = (64 * n)%nat /\ (length rest < 64)%nat /\
    m_buffer_len b = length rest /\ length (m_buffer b) = 64%nat /\
    m_transforms_count b = wrap 64 (Z.of_nat n) /\
    m_digest b = hash_blocks n (m_digest new_builder) done /\
    take (length rest) (m_buffer b) = rest.

Lemma models_new : models [] new_builder.
Proof. exists [], [], 0%nat. repeat split; cbn; lia. Qed.

Lemma take_insert_snoc (l : bytes) n x rest :
  (n < length l)%nat -> take n l = rest -> take (S n) (<[n := x]> l) = rest ++ [x].
Proof.
  intros Hn <-. rewrite (take_S_r _ n x) by (by rewrite list_lookup_insert_eq).
  by rewrite take_insert_ge by lia.
Qed.

Lemma models_snoc m b x :
  is_bytes m -> is_byte x -> models m b -> models (m ++ [x]) (add_byte b x).
Proof.
  intros Hm Hx (dn & rest & n & -> & Hdn & Hrest & Hlen & Hbuf & Hcnt & Hdig & Htake).
  apply Forall_app in Hm as [Hmd Hmr].
  pose proof (take_insert_snoc (m_buffer b) (length rest) x rest ltac:(lia) Htake) as Hsnoc.
  unfold add_byte. rewrite Hlen. destruct (Nat.eqb_spec (length rest + 1) 64) as [E|E].
  - exists (dn ++ rest ++ [x]), [], (S n). rewrite app_nil_r, <- app_assoc.
    rewrite take_ge in Hsnoc by (rewrite length_insert; lia).
    split_and!; cbn [m_buffer_len m_buffer m_transforms_count m_digest length]; [done|..|done].
    + rewrite !length_app. cbn. lia.
    + lia.
    + done.
    + by rewrite length_insert.
    + rewrite Hcnt. unfold wrap. rewrite Zplus_mod_idemp_l. f_equal. lia.
    + rewrite Hsnoc, hash_blocks_snoc; [|done|rewrite length_app; cbn; lia].
      rewrite transform_compress, Hdig; [done| |rewrite length_app; cbn; lia].
      apply Forall_app; split; [done|by constructor].
  - exists dn, (rest ++ [x]), n. rewrite <- app_assoc.
    split_and!; cbn [m_buffer_len m_buffer m_transforms_count m_digest]; try done.
    + rewrite length_app; cbn. lia.
    + by rewrite length_app.
    + by rewrite length_insert.
    + rewrite length_app. cbn. rewrite Nat.add_1_r. done.
Qed.

Lemma models_bytes m b x :
  is_bytes m -> is_bytes x -> models m b -> models (m ++ x) (fold_left add_byte x b).
Proof.
  intros Hm Hx. revert m b Hm. induction Hx as [|y x Hy Hx IH]; intros m b Hm Hb.
  - by rewrite app_nil_r.
  - replace (m ++ y :: x) with ((m ++ [y]) ++ x) by (by rewrite <- app_assoc).
    cbn [fold_left]. apply IH; [apply Forall_app; split; [done|by constructor]|].
    by apply models_snoc.
Qed.

(** ** [finish] *)

Lemma octets_be v : octets v = write_number_to_big_endian_bytes 4 v.
Proof.
  unfold octets, octet_from. rewrite !n_bits_from_spec by (done || lia).
  rewrite !write_be_S. unfold write_number_to_big_endian_bytes. cbn [seq fmap list_fmap].
  done.
Qed.

Lemma length_field v :
  0 <= v < 2 ^ 64 ->
  octets (wrap 32 (v .>> 32)) ++ octets (wrap 32 (v .& 0xffffffff))
  = write_number_to_big_endian_bytes 8 v.
Proof.
  intros Hv. rewrite !octets_be. change 0xffffffff with (Z.ones 32).
  rewrite Z.land_ones, Z.shiftr_div_pow2 by lia.
  rewrite (write_be_app 4 4). change (256 ^ Z.of_nat 4) with (2 ^ 32).
  rewrite wrap_small by div_lia. f_equal. apply write_be_mod.
  unfold wrap. change (256 ^ Z.of_nat 4) with (2 ^ 32). by rewrite !Z.mod_mod by lia.
Qed.

Lemma replicate_bytes n : is_bytes (replicate n 0).
Proof. apply Forall_replicate. split; reflexivity || discriminate. Qed.

Lemma is_byte_80 : is_byte 0x80.
Proof. split; reflexivity || discriminate. Qed.
#[local] Hint Resolve replicate_bytes is_byte_80 write_be_is_bytes : core.

Lemma copy_at_spec pos part buffer rest :
  take pos buffer = rest -> length rest = pos ->
  copy_at pos part buffer = rest ++ part ++ drop (pos + length part) buffer.
Proof. intros <- _. done. Qed.

Lemma copy_at_tail part (l tail : bytes) :
  length l = 56%nat -> length part = 8%nat -> length tail = 8%nat ->
  copy_at 56 part (l ++ tail) = l ++ part.
Proof.
  intros Hl Hp Ht. unfold copy_at. rewrite take_app_length' by done.
  rewrite drop_ge, app_nil_r; [done|]. rewrite length_app. lia.
Qed.

(** The three ways [finish] fills its last block or blocks. *)
Lemma finish_cases b rest bits :
  length (m_buffer b) = 64%nat -> take (length rest) (m_buffer b) = rest ->
  m_buffer_len b = length rest -> (length rest < 64)%nat ->
  calculate_total_bits_count b = bits -> 0 <= bits < 2 ^ 64 ->
  let L := write_number_to_big_endian_bytes 8 bits in
  finish b =
    if (length rest <? 56)%nat then
      transform (m_digest b) (rest ++ 0x80 :: replicate (55 - length rest) 0 ++ L)
    else if (length rest =? 56)%nat then transform (m_digest b) (rest ++ L)
    else transform (transform (m_digest b) (rest ++ 0x80 :: replicate (63 - length rest) 0))
           (replicate 56 0 ++ L).
Proof.
  intros Hbuf Htake Hlen Hlt Hbits Hb L.
  assert (HL : length L = 8%nat) by apply write_be_length.
  unfold finish. rewrite Hbits, Hlen, length_field by done. fold L.
  rewrite (copy_at_spec _ _ _ rest) by done.
  rewrite (drop_ge (m_buffer b)), app_nil_r by (cbn [length]; rewrite length_replicate; lia).
  destruct (Nat.ltb_spec 56 (length rest)).
  - rewrite (proj2 (Nat.ltb_ge _ _)), (proj2 (Nat.eqb_neq _ _)) by lia.
    change (replicate 64 0) with (replicate 56 0 ++ replicate 8 0).
    by rewrite copy_at_tail by (done || by rewrite length_replicate).
  - destruct (Nat.ltb_spec (length rest) 56).
    + replace (63 - length rest)%nat with ((55 - length rest) + 8)%nat by lia.
      rewrite replicate_add, app_comm_cons, app_assoc.
      rewrite copy_at_tail; [by rewrite <- app_assoc| |done|done].
      rewrite length_app. cbn [length]. rewrite length_replicate. lia.
    + assert (length rest = 56%nat) as E by lia. rewrite E at 2. cbn [Nat.eqb].
      replace (63 - length rest)%nat with 7%nat by lia.
      by rewrite (copy_at_tail L rest (0x80 :: replicate 7 0)).
Qed.

(** The padding of FIPS 180 around the last, incomplete block of a message. *)
Section Padding.
Context (dn rest : bytes) (n : nat).
Hypothesis Hdn : length dn = (64 * n)%nat.
Hypothesis Hrest : (length rest < 64)%nat.

Lemma split_mod : (length (dn ++ rest) mod 64 = length rest)%nat.
Proof using Hdn Hrest.
  rewrite length_app, Hdn. replace (64 * n + length rest)%nat with (length rest + n * 64)%nat by lia.
  by rewrite Nat.Div0.mod_add, Nat.mod_small.
Qed.

Lemma split_div : (length (dn ++ rest) / 64 = n)%nat.
Proof using Hdn Hrest.
  rewrite length_app, Hdn. replace (64 * n + length rest)%nat with (length rest + n * 64)%nat by lia.
  by rewrite Nat.div_add, Nat.div_small by lia.
Qed.

Let L := write_number_to_big_endian_bytes 8 (8 * Z.of_nat (length (dn ++ rest))).
Let H0 := m_digest new_builder.

Lemma length_L : length L = 8%nat.
Proof using. apply write_be_length. Qed.

Lemma fips_sha1_one :
  (length rest < 56)%nat ->
  fips_sha1 (dn ++ rest)
  = fips_compress (hash_blocks n H0 dn)
      (block_words (rest ++ 0x80 :: replicate (55 - length rest) 0 ++ L)).
Proof using Hdn Hrest.
  intros Hs. unfold fips_sha1, fips_pad. rewrite split_mod. fold L.
  replace ((119 - length rest) mod 64)%nat with (55 - length rest)%nat.
  2: { replace (119 - length rest)%nat with ((55 - length rest) + 1 * 64)%nat by lia.
       by rewrite Nat.Div0.mod_add, Nat.mod_small by lia. }
  rewrite <- app_assoc. set (X := rest ++ _). pose proof length_L.
  assert (HX : length X = 64%nat).
  { unfold X. rewrite length_app. cbn [length]. rewrite length_app, length_replicate. lia. }
  replace (length (dn ++ X) / 64)%nat with (S n); [by apply hash_blocks_snoc|].
  rewrite length_app, HX, Hdn. replace (64 * n + 64)%nat with (S n * 64)%nat by lia.
  by rewrite Nat.div_mul by lia.
Qed.

Lemma fips_sha1_two :
  (56 < length rest)%nat ->
  fips_sha1 (dn ++ rest)
  = fips_compress
      (fips_compress (hash_blocks n H0 dn)
         (block_words (rest ++ 0x80 :: replicate (63 - length rest) 0)))
      (block_words (replicate 56 0 ++ L)).
Proof using Hdn Hrest.
  intros Hs. unfold fips_sha1, fips_pad. rewrite split_mod, Nat.mod_small by lia. fold L.
  set (X := rest ++ 0x80 :: replicate (63 - length rest) 0). set (Y := replicate 56 0 ++ L).
  pose proof length_L.
  assert (HX : length X = 64%nat).
  { unfold X. rewrite length_app. cbn [length]. rewrite length_replicate. lia. }
  assert (HY : length Y = 64%nat) by (unfold Y; rewrite length_app, length_replicate; lia).
  replace ((dn ++ rest) ++ 0x80 :: replicate (119 - length rest) 0 ++ L) with ((dn ++ X) ++ Y).
  2: { unfold X, Y. replace (119 - length rest)%nat with ((63 - length rest) + 56)%nat by lia.
       rewrite replicate_add, <- !app_assoc. done. }
  replace (length ((dn ++ X) ++ Y) / 64)%nat with (S (S n)).
  2: { rewrite length_app, HY, length_app, HX, Hdn.
       replace (64 * n + 64 + 64)%nat with (S (S n) * 64)%nat by lia.
       by rewrite Nat.div_mul by lia. }
  rewrite hash_blocks_snoc by (rewrite ?length_app; lia). by rewrite hash_blocks_snoc.
Qed.
End Padding.

(** What [finish] returns for a message, as a hash of padded blocks; the
    length of the message modulo 64 decides the padding. *)
Lemma finish_models m b :
  is_bytes m -> Z.of_nat (length m) < 2 ^ 61 -> models m b ->
  finish b =
    if (length m mod 64 =? 56)%nat
    then hash_blocks (S (length m / 64)) (m_digest new_builder)
           (m ++ write_number_to_big_endian_bytes 8 (8 * Z.of_nat (length m)))
    else fips_sha1 m.
Proof.
  intros Hm Hlt (dn & rest & n & -> & Hdn & Hrest & Hlen & Hbuf & Hcnt & Hdig & Htake).
  apply Forall_app in Hm as [Hmd Hmr].
  set (L := write_number_to_big_endian_bytes 8 (8 * Z.of_nat (length (dn ++ rest)))).
  assert (HL : length L = 8%nat) by apply write_be_length.
  assert (HLb : is_bytes L) by apply write_be_is_bytes.
  assert (Hz : forall k x, is_bytes x -> is_bytes (rest ++ 0x80 :: replicate k 0 ++ x)).
  { intros k x Hx. apply Forall_app; split; [done|]. constructor; [done|]. by apply Forall_app. }
  assert (Hl : length (dn ++ rest) = (64 * n + length rest)%nat) by (rewrite length_app; lia).
  rewrite (finish_cases b rest (8 * Z.of_nat (length (dn ++ rest)))); [..|lia]; try done.
  2: { unfold calculate_total_bits_count. rewrite Hcnt, Hlen.
       rewrite (wrap_small 64 (Z.of_nat n)), wrap_small by lia. lia. }
  fold L. cbv zeta. rewrite (split_mod dn rest n), (split_div dn rest n), Hdig by done.
  destruct (Nat.eqb_spec (length rest) 56) as [E|E].
  { rewrite (proj2 (Nat.ltb_ge _ _)) by lia. rewrite <- app_assoc.
    rewrite hash_blocks_snoc; [|done|rewrite length_app; lia].
    apply transform_compress; [by apply Forall_app|rewrite length_app; lia]. }
  destruct (Nat.ltb_spec (length rest) 56) as [Hs|Hs].
  - rewrite (fips_sha1_one dn rest n) by done. apply transform_compress; [by apply Hz|].
    rewrite length_app. cbn [length]. rewrite length_app, length_replicate, write_be_length. lia.
  - rewrite (fips_sha1_two dn rest n) by (done || lia). fold L.
    rewrite (transform_compress _ (replicate 56 0 ++ L)).
    + rewrite transform_compress; [done| |].
      * rewrite <- (app_nil_r (replicate _ 0)). by apply Hz.
      * rewrite length_app. cbn [length]. rewrite length_replicate. lia.
    + apply Forall_app; auto.
    + rewrite length_app, length_replicate. lia.
Qed.

(** C28 (functional). For every message of less than 2^61 bytes whose length
    modulo 64 is not 56, fed to a new builder in any number of pieces of any
    sizes, every [update] returns and [finish] gives the FIPS 180 SHA-1 hash of
    the message: the digest does not depend on how the message is cut. *)
Theorem sha1_builder_correct chunks :
  is_bytes (concat chunks) -> Z.of_nat (length (concat chunks)) < 2 ^ 61 ->
  (length (concat chunks) mod 64 <> 56)%nat ->
  (b ← updates new_builder chunks; Some (finish b)) = Some (fips_sha1 (concat chunks)).
Proof.
  intros Hb Hl Hm. rewrite updates_bytes by apply new_builder_ok. cbn [mbind option_bind].
  rewrite (finish_models (concat chunks)); [|done..|].
  - by rewrite (proj2 (Nat.eqb_neq _ _)).
  - by apply (models_bytes []); [..|apply models_new].
Qed.

Lemma sha1_builder_correct_witness :
  (b ← updates new_builder [str "ab"; []; str "c"]; Some (finish b)) = Some (fips_sha1 (str "abc")).
Proof.
  apply (sha1_builder_correct [str "ab"; []; str "c"]).
  - apply is_bytes_str with (s := "abc"%string).
  - vm_compute. reflexivity.
  - vm_compute. discriminate.
Defined.

#[local] Transparent transform.

(** When the length modulo 64 is 56, [finish] writes the bit count
    over the 0x80 marker it has just stored (the test is [> block_size - 8] where
    [>=] is needed): the result is the hash of the message followed by the bit
    count alone. The 56-byte test message of FIPS 180, whose digest is
    84983e441c3bd26ebaae4aa1f95129e5e54670f1, is hashed to another value, while
    [abc] gets its digest of FIPS 180. *)
Theorem sha1_finish_loses_marker m :
  is_bytes m -> Z.of_nat (length m) < 2 ^ 61 -> (length m mod 64 = 56)%nat ->
  make_digest m
    = Some (hash_blocks (S (length m / 64)) (m_digest new_builder)
              (m ++ write_number_to_big_endian_bytes 8 (8 * Z.of_nat (length m)))) /\
  let nist := str "abcdbcdecdefdefgefghfghighijhijkijkljklmklmnlmnomnopnopq" in
  to_hex_string (fips_sha1 nist) = str "84983e441c3bd26ebaae4aa1f95129e5e54670f1" /\
  to_hex_string <$> make_digest nist = Some (str "1423848df9dec1f003ff7954a4124306766c8cc3") /\
  to_hex_string <$> make_digest (str "abc") = Some (str "a9993e364706816aba3e25717850c26c9cd0d89d").
Proof.
  intros Hb Hl Hm. split; [|vm_compute; split_and!; reflexivity].
  unfold make_digest. rewrite update_bytes by apply new_builder_ok. cbn [mbind option_bind].
  rewrite (finish_models m); [|done..|].
  - by rewrite (proj2 (Nat.eqb_eq _ _)).
  - by apply (models_bytes []); [..|apply models_new].
Qed.

Lemma sha1_finish_loses_marker_witness :
  make_digest (replicate 56 0)
  = Some (hash_blocks 1 (m_digest new_builder) (replicate 56 0 ++ [0; 0; 0; 0; 0; 0; 1; 192])).
Proof.
  refine (proj1 (sha1_finish_loses_marker (replicate 56 0) _ _ _)).
  - apply Forall_replicate. vm_compute. split; congruence.
  - vm_compute. reflexivity.
  - reflexivity.
Defined.

(** The printers: [to_string] gives the 20 bytes of the digest in order. *)
Lemma to_string_bytes d :
  Forall (fun c => 0 <= c < 2 ^ 32) d ->
  to_string d = d ≫= write_number_to_big_endian_bytes 4.
Proof.
  unfold to_string, byte. induction 1 as [|c d Hc Hd IH]; [done|]. cbn [mbind list_bind].
  rewrite IH. f_equal. rewrite !n_bits_from_spec by (done || lia). rewrite !write_be_S. done.
Qed.
