(* ===== verification/Percent.v ===== *)
(** * Percent encoding and URI normalization

    [restinio/utils/percent_encoding.hpp]: the four sets of ordinary characters,
    escaping, unescaping into a new string and in place (where the result
    overwrites the text that is being read), and the normalization of unreserved
    characters. The text that [fmt] produces for a character is a parameter. *)

From S2P Require Import Prelude Utf8.

(** ** Traits *)

(** What a traits class of the code provides. *)
Class UnescapeTraits : Type := ordinary_char : Z -> bool.

Definition in_range (lo hi : Ascii.ascii) (c : Z) : bool := (chr lo <=? c) && (c <=? chr hi).
Arguments in_range (lo hi)%_char_scope c.

Definition is_alnum (c : Z) : bool :=
  in_range "0" "9" c || in_range "a" "z" c || in_range "A" "Z" c.

(*@ utils/percent_encoding.hpp 35-49 restinio_default_unescape_traits *)
Definition restinio_default_unescape_traits : UnescapeTraits := fun c =>
  is_alnum c || (c =? chr "-") || (c =? chr ".") || (c =? chr "~") || (c =? chr "_").

(*@ utils/percent_encoding.hpp 60-74 x_www_form_urlencoded_unescape_traits *)
Definition x_www_form_urlencoded_unescape_traits : UnescapeTraits := fun c =>
  is_alnum c || (c =? chr "*") || (c =? chr "-") || (c =? chr ".") || (c =? chr "_").

(** [std::strchr]: the terminating zero is part of the searched string. *)
Definition strchr_found (s : bytes) (c : Z) : bool := existsb (Z.eqb c) (s ++ [0]).

(*@ utils/percent_encoding.hpp 96-110 relaxed_unescape_traits *)
Definition relaxed_unescape_traits : UnescapeTraits := fun c =>
  strchr_found (str " ABCDEFGHIJKLMNOPQRSTUVWXYZabcdefghijklmnopqrstuvwxyz0123456789-._~:/?#[]@!$&'()*+,;=") c.

(*@ utils/percent_encoding.hpp 124-143 javascript_compatible_unescape_traits *)
Definition javascript_compatible_unescape_traits : UnescapeTraits := fun c =>
  is_alnum c || (c =? chr "-") || (c =? chr ".") || (c =? chr "~") || (c =? chr "_") ||
  (c =? chr "*") || (c =? chr "!") || (c =? chr "'") || (c =? chr "(") || (c =? chr ")").

(** What the theorems need of a traits class, shared by all four. *)
Class UnescapeTraitsLaws (T : UnescapeTraits) : Prop := {
  percent_not_ordinary : ordinary_char (chr "%") = false;
  ordinary_ascii : forall c, is_byte c -> ordinary_char c = true -> c < 128 }.

Lemma traits_laws_by_table (T : UnescapeTraits) :
  ordinary_char (chr "%") = false ->
  forallb (fun c => implb (ordinary_char c) (c <? 128)) (seqZ 0 256) = true ->
  UnescapeTraitsLaws T.
Proof.
  intros H1 H2. split; [done|]. intros c Hc Ho.
  pose proof (byte_forall _ H2 c Hc) as H. cbn beta in H. rewrite Ho in H. cbn in H. lia.
Qed.

#[export] Instance default_laws : UnescapeTraitsLaws restinio_default_unescape_traits.
Proof. apply traits_laws_by_table; vm_compute; reflexivity. Qed.
#[export] Instance form_laws : UnescapeTraitsLaws x_www_form_urlencoded_unescape_traits.
Proof. apply traits_laws_by_table; vm_compute; reflexivity. Qed.
#[export] Instance relaxed_laws : UnescapeTraitsLaws relaxed_unescape_traits.
Proof. apply traits_laws_by_table; vm_compute; reflexivity. Qed.
#[export] Instance javascript_laws : UnescapeTraitsLaws javascript_compatible_unescape_traits.
Proof. apply traits_laws_by_table; vm_compute; reflexivity. Qed.

(** ** Hexadecimal digits *)

(*@ utils/percent_encoding.hpp 189-196 is_hexdigit *)
Definition is_hexdigit (c : Z) : bool :=
  in_range "0" "9" c || in_range "a" "f" c || in_range "A" "F" c.

(*@ utils/percent_encoding.hpp 198-222 extract_escaped_char *)
Definition extract_escaped_char (c1 c2 : Z) : Z :=
  let result :=
    if in_range "0" "9" c1 then c1 - chr "0"
    else wrap 8 (10 + (c1 .| 0x20) - chr "a") in
  let result := wrap 8 (result .<< 4) in
  if in_range "0" "9" c2 then wrap 8 (result + (c2 - chr "0"))
  else wrap 8 (result + (10 + (c2 .| 0x20) - chr "a")).

(** ** Unescaping

    The failures, with the position their text reports. *)
(*@ utils/percent_encoding.hpp 159-184 unescape_percent_encoding_failure_t *)
Inductive unescape_failure : Type :=
| next_utf8_byte_expected (pos : nat)
| invalid_utf8_sequence (pos : nat)
| invalid_escape_sequence (pos : nat)
| invalid_non_escaped_char (c : Z) (pos : nat)
| unfinished_utf8_sequence.

#[global] Instance unescape_failure_eq_dec : EqDecision unescape_failure.
Proof. solve_decision. Defined.

(** The memory [do_unescape_percent_encoding] works on: it reads the text at an
    index and hands each character to the collector. In the in-place functions
    the collector writes into the text itself. *)
Class CharStore (Store : Type) : Type := {
  char_at : Store -> nat -> Z;
  collect : Store -> Z -> Store }.

Section Unescape.
Context {T : UnescapeTraits} {Store : Type} `{CharStore Store}.

(*@ utils/percent_encoding.hpp 232-319 do_unescape_percent_encoding *)
Fixpoint do_unescape_loop (chars_to_handle d : nat) (st : Store) (utf8_checker : utf8_checker_t)
    (expect_next_utf8_byte : bool) : Store * result unescape_failure unit :=
  match chars_to_handle with
  | O =>
      (st, if expect_next_utf8_byte then Err unfinished_utf8_sequence else Ok tt)
  | S rest1 =>
      let c := char_at st d in
      if expect_next_utf8_byte && negb (c =? chr "%")
      then (st, Err (next_utf8_byte_expected d))
      else if c =? chr "%" then
        match rest1 with
        | S (S rest3) =>
            let c1 := char_at st (d + 1) in
            let c2 := char_at st (d + 2) in
            if is_hexdigit c1 && is_hexdigit c2 then
              let ch := extract_escaped_char c1 c2 in
              let '(ok, utf8_checker) := process_byte utf8_checker ch in
              if ok then
                let expect_next_utf8_byte := negb (finalized utf8_checker) in
                do_unescape_loop rest3 (d + 3) (collect st ch)
                  (if expect_next_utf8_byte then utf8_checker else reset utf8_checker)
                  expect_next_utf8_byte
              else (st, Err (invalid_utf8_sequence d))
            else (st, Err (invalid_escape_sequence d))
        | _ => (st, Err (invalid_escape_sequence d))
        end
      else if c =? chr "+" then
        do_unescape_loop rest1 (d + 1) (collect st (chr " ")) utf8_checker expect_next_utf8_byte
      else if ordinary_char c then
        do_unescape_loop rest1 (d + 1) (collect st c) utf8_checker expect_next_utf8_byte
      else (st, Err (invalid_non_escaped_char c d))
  end.

End Unescape.

(** The collector of [unescape_percent_encoding] appends to a string of its
    own; the text is not touched. *)
Record string_store : Type := mk_string_store { ss_data : bytes; ss_result : bytes }.

#[export] Instance string_char_store : CharStore string_store := {
  char_at s i := nth i (ss_data s) 0;
  collect s ch := mk_string_store (ss_data s) (ss_result s ++ [ch]) }.

(** The collector of the in-place functions: [*dest++ = ch; ++result_size]. The
    text is the part of [buffer] that starts at [base]. *)
Record inplace_store : Type :=
  mk_inplace { buffer : bytes; base : nat; result_size : nat }.

#[export] Instance inplace_char_store : CharStore inplace_store := {
  char_at s i := nth (base s + i) (buffer s) 0;
  collect s ch := mk_inplace (<[(base s + result_size s)%nat := ch]> (buffer s)) (base s)
                    (S (result_size s)) }.

Section Entry.
Context {T : UnescapeTraits}.

(*@ utils/percent_encoding.hpp 389-404 try_unescape_percent_encoding *)
Definition try_unescape_percent_encoding (data : bytes) : result unescape_failure bytes :=
  let '(st, r) := do_unescape_loop (length data) 0 (mk_string_store data []) utf8_default false in
  _ ← r; Ok (ss_result st).

(** The description of the failure becomes the text of an [exception_t]. *)
(*@ utils/percent_encoding.hpp 360-375 unescape_percent_encoding *)
Definition unescape_percent_encoding (data : bytes) : result unescape_failure bytes :=
  let '(st, r) := do_unescape_loop (length data) 0 (mk_string_store data []) utf8_default false in
  match r with Err description => Err description | Ok _ => Ok (ss_result st) end.

(** [data] points to [memory] at [off]; the memory is changed on failure too. *)
(*@ utils/percent_encoding.hpp 438-456 try_inplace_unescape_percent_encoding *)
Definition try_inplace_unescape_percent_encoding (memory : bytes) (off size : nat) :
    bytes * result unescape_failure nat :=
  let '(st, r) := do_unescape_loop size 0 (mk_inplace memory off 0) utf8_default false in
  (buffer st, _ ← r; Ok (result_size st)).

(*@ utils/percent_encoding.hpp 406-424 inplace_unescape_percent_encoding *)
Definition inplace_unescape_percent_encoding (memory : bytes) (off size : nat) :
    bytes * result unescape_failure nat :=
  let '(st, r) := do_unescape_loop size 0 (mk_inplace memory off 0) utf8_default false in
  (buffer st, match r with Err description => Err description | Ok _ => Ok (result_size st) end).

(** Whether [char] is signed, and what [fmt::format( "%{:02X}", c )] appends after the percent
    sign for a [char] of this value, which is negative for a byte from 0x80 on when it is signed. *)
Context (char_is_signed : bool) (fmt_02X : Z -> bytes).

Definition char_value (b : Z) : Z := if char_is_signed && (128 <=? b) then b - 256 else b.

(*@ utils/percent_encoding.hpp 325-358 escape_percent_encoding *)
Definition escape_percent_encoding (data : bytes) : bytes :=
  let escaped_chars_count := length (List.filter (fun c => negb (ordinary_char c)) data) in
  if (escaped_chars_count =? 0)%nat then data
  else data ≫= fun c => if ordinary_char c then [c] else chr "%" :: fmt_02X (char_value c).

End Entry.

(** ** Unescaping as a function of the text *)

(** The same loop on the list of the characters that are left: the characters
    handed to the collector and the outcome. *)
Section Spec.
Context {T : UnescapeTraits}.

Definition emit (ch : Z) (r : bytes * result unescape_failure unit) :=
  (ch :: fst r, snd r).

Fixpoint unescape_chars (text : bytes) (pos : nat) (u : utf8_checker_t) (expect : bool) :
    bytes * result unescape_failure unit :=
  match text with
  | [] => ([], if expect then Err unfinished_utf8_sequence else Ok tt)
  | c :: text1 =>
      if expect && negb (c =? chr "%") then ([], Err (next_utf8_byte_expected pos))
      else if c =? chr "%" then
        match text1 with
        | c1 :: c2 :: text3 =>
            if is_hexdigit c1 && is_hexdigit c2 then
              let ch := extract_escaped_char c1 c2 in
              let '(ok, u') := feed_byte u ch in
              if ok then
                emit ch (unescape_chars text3 (pos + 3) u' (negb (finalized u')))
              else ([], Err (invalid_utf8_sequence pos))
            else ([], Err (invalid_escape_sequence pos))
        | _ => ([], Err (invalid_escape_sequence pos))
        end
      else if c =? chr "+" then emit (chr " ") (unescape_chars text1 (pos + 1) u expect)
      else if ordinary_char c then emit c (unescape_chars text1 (pos + 1) u expect)
      else ([], Err (invalid_non_escaped_char c pos))
  end.

(** What a store promises: [related st out d] says that [out] has been
    collected and that the text from position [d] on is still intact. *)
Class CharStoreLaws (Store : Type) `{CharStore Store} (text : bytes)
    (related : Store -> bytes -> nat -> Prop) : Prop := {
  read_char st out d i :
    related st out d -> (d <= i < length text)%nat -> char_at st i = nth i text 0;
  collect_char st out d ch :
    related st out d -> (d < length text)%nat -> related (collect st ch) (out ++ [ch]) (S d);
  skip_char st out d d' : related st out d -> (d <= d')%nat -> related st out d' }.

Lemma drop_nth (l : bytes) d : (d < length l)%nat -> drop d l = nth d l 0 :: drop (S d) l.
Proof.
  intros Hd. destruct (lookup_lt_is_Some_2 l d Hd) as [c Hc].
  rewrite (drop_S l c) by done. f_equal. symmetry. by apply nth_lookup_Some.
Qed.

(** Any store that keeps its promise collects what the function of the text
    gives, and the loop has the same outcome. *)
Lemma do_unescape_loop_chars {Store} `{CharStoreLaws Store text related} n d st out u expect :
  related st out d -> (d + n = length text)%nat ->
  exists st',
    do_unescape_loop n d st u expect
      = (st', snd (unescape_chars (drop d text) d u expect)) /\
    related st' (out ++ fst (unescape_chars (drop d text) d u expect)) (length text).
Proof.
  revert d st out u expect. induction n as [n IH] using lt_wf_ind.
  intros d st out u expect Hrel Hn. destruct n as [|n].
  - rewrite drop_ge by lia. exists st. cbn. rewrite app_nil_r. split; [done|].
    by apply (skip_char _ _ _ _ Hrel); lia.
  - assert (Hstop : forall e : result unescape_failure unit, exists st', (st, e) = (st', e) /\ related st' (out ++ []) (length text)).
    { intros e. exists st. rewrite app_nil_r. split; [done|]. apply (skip_char _ _ _ _ Hrel). lia. }
    rewrite drop_nth by lia. cbn [do_unescape_loop unescape_chars].
    rewrite (read_char _ _ _ d Hrel) by lia. set (c := nth d text 0).
    assert (Hnext : forall ch m d' u' e', (m < S n)%nat -> (d < d')%nat -> (d' + m = length text)%nat ->
      exists st', do_unescape_loop m d' (collect st ch) u' e'
          = (st', snd (emit ch (unescape_chars (drop d' text) d' u' e'))) /\
        related st' (out ++ fst (emit ch (unescape_chars (drop d' text) d' u' e'))) (length text)).
    { intros ch m d' u' e' Hm Hd Hl.
      destruct (IH m Hm d' (collect st ch) (out ++ [ch]) u' e') as (st' & E & R); [|done|].
      - eapply skip_char; [apply (collect_char _ _ _ ch Hrel)|]; lia.
      - exists st'. by rewrite E, <- app_assoc in *. }
    destruct (expect && negb (c =? chr "%")); [apply Hstop|].
    destruct (c =? chr "%").
    + destruct n as [|[|n]].
      * rewrite drop_ge by lia. apply Hstop.
      * rewrite drop_nth, (drop_ge _ (S (S d))) by lia. apply Hstop.
      * rewrite drop_nth, drop_nth by lia.
        rewrite (read_char _ _ _ (d + 1) Hrel), (read_char _ _ _ (d + 2) Hrel) by lia.
        replace (d + 1)%nat with (S d) by lia. replace (d + 2)%nat with (S (S d)) by lia.
        destruct (_ && _); [|apply Hstop]. unfold feed_byte, settle.
        destruct (process_byte u _) as [[] u']; [|apply Hstop].
        replace (S (S (S d))) with (d + 3)%nat by lia.
        destruct (finalized u') eqn:E; cbn [negb]; rewrite ?E; apply Hnext; lia.
    + replace (S d) with (d + 1)%nat by lia.
      destruct (c =? chr "+"); [apply Hnext; lia|].
      destruct (ordinary_char c); [apply Hnext; lia|apply Hstop].
Qed.
End Spec.

(** ** The two stores keep the promise *)

Definition string_related (text : bytes) (st : string_store) (out : bytes) (d : nat) : Prop :=
  ss_data st = text /\ ss_result st = out.

#[export] Instance string_store_laws text : CharStoreLaws string_store text (string_related text).
Proof.
  split; unfold string_related; cbn.
  - by intros st out d i [-> _] _.
  - by intros st out d ch [-> ->] _.
  - done.
Qed.

(** The collected characters take the place of the first characters of the text:
    at most as many as have been read. *)
Definition inplace_related (pre text post : bytes) (st : inplace_store) (out : bytes) (d : nat) :
    Prop :=
  (length out <= d)%nat /\ base st = length pre /\ result_size st = length out /\
  buffer st = pre ++ out ++ drop (length out) text ++ post.

#[export] Instance inplace_store_laws pre text post :
  CharStoreLaws inplace_store text (inplace_related pre text post).
Proof.
  split; unfold inplace_related.
  - intros st out d i (Hd & Hb & _ & Hbuf) Hi. cbn. rewrite Hb, Hbuf.
    rewrite app_nth2_plus, app_nth2, app_nth1 by (rewrite ?length_drop; lia).
    rewrite nth_skipn. f_equal. lia.
  - intros st out d ch (Hd & Hb & Hs & Hbuf) Hlt. cbn. rewrite Hb, Hs, Hbuf, length_app. cbn.
    split_and!; [lia|done|lia|].
    rewrite insert_app_r_alt by lia. f_equal. rewrite insert_app_r_alt by lia.
    replace (length pre + length out - length pre - length out)%nat with 0%nat by lia.
    rewrite (drop_nth text (length out)) by lia. cbn. rewrite <- app_assoc.
    by replace (length out + 1)%nat with (S (length out)) by lia.
  - intros st out d d' (Hd & ?) Hle. split; [lia|done].
Qed.

Section Results.
Context {T : UnescapeTraits}.

Lemma try_unescape_chars data :
  try_unescape_percent_encoding data
  = (_ ← snd (unescape_chars data 0 utf8_default false);
     Ok (fst (unescape_chars data 0 utf8_default false))).
Proof.
  unfold try_unescape_percent_encoding.
  destruct (do_unescape_loop_chars (length data) 0 (mk_string_store data []) [] utf8_default false
              (related := string_related data)) as (st & -> & _ & ->); [done|done|].
  by rewrite drop_0.
Qed.

Lemma unescape_try data : unescape_percent_encoding data = try_unescape_percent_encoding data.
Proof. unfold unescape_percent_encoding, try_unescape_percent_encoding. by destruct (do_unescape_loop _ _ _ _ _) as [st []]. Qed.

Lemma try_inplace_chars pre text post :
  let out := fst (unescape_chars text 0 utf8_default false) in
  let r := snd (unescape_chars text 0 utf8_default false) in
  (length out <= length text)%nat /\
  try_inplace_unescape_percent_encoding (pre ++ text ++ post) (length pre) (length text)
  = (pre ++ out ++ drop (length out) text ++ post, _ ← r; Ok (length out)).
Proof.
  unfold try_inplace_unescape_percent_encoding. set (st0 := mk_inplace _ _ _).
  destruct (do_unescape_loop_chars (length text) 0 st0 [] utf8_default false
              (related := inplace_related pre text post)) as (st & -> & Hle & _ & Hs & Hb);
    [unfold inplace_related, st0; cbn; rewrite drop_0; split_and!; done || lia|done|].
  rewrite drop_0 in *. cbn [app] in *. by rewrite Hs, Hb.
Qed.

(** Unescaping in place, where each decoded character
    overwrites the text that is still being read, gives what unescaping into a
    new string gives: the result occupies the first bytes of the text, the rest
    of the text and everything around it is unchanged, and the errors are the
    same; only on an error is the decoded prefix left in the text. The throwing
    variants agree with the others. *)
Theorem inplace_unescape_refines pre text post :
  let memory := pre ++ text ++ post in
  match try_unescape_percent_encoding text with
  | Ok out =>
      (length out <= length text)%nat /\
      try_inplace_unescape_percent_encoding memory (length pre) (length text)
        = (pre ++ out ++ drop (length out) text ++ post, Ok (length out))
  | Err e =>
      exists out, (length out <= length text)%nat /\
      try_inplace_unescape_percent_encoding memory (length pre) (length text)
        = (pre ++ out ++ drop (length out) text ++ post, Err e)
  end /\
  unescape_percent_encoding text = try_unescape_percent_encoding text /\
  inplace_unescape_percent_encoding memory (length pre) (length text)
    = try_inplace_unescape_percent_encoding memory (length pre) (length text).
Proof.
  intros memory. split_and!.
  - rewrite try_unescape_chars. destruct (try_inplace_chars pre text post) as [Hle E].
    unfold memory. rewrite E. destruct (snd _) as [[]|e]; cbn; eauto.
  - apply unescape_try.
  - unfold inplace_unescape_percent_encoding, try_inplace_unescape_percent_encoding.
    by destruct (do_unescape_loop _ _ _ _ _) as [st []].
Qed.

(** ** Round trip *)

(** An upper-case hexadecimal digit. *)
Definition hex_digit (n : Z) : Z := nth (Z.to_nat n) (str "0123456789ABCDEF") 0.

(** What [fmt] documents for the format [{:02X}] of a number below 256. *)
Definition two_hex_digits (c : Z) : bytes := [hex_digit (c / 16); hex_digit (c mod 16)].

Lemma extract_two_hex b :
  is_byte b ->
  is_hexdigit (hex_digit (b / 16)) = true /\ is_hexdigit (hex_digit (b mod 16)) = true /\
  extract_escaped_char (hex_digit (b / 16)) (hex_digit (b mod 16)) = b.
Proof.
  intros Hb.
  assert (H : is_hexdigit (hex_digit (b / 16)) && is_hexdigit (hex_digit (b mod 16)) &&
    (extract_escaped_char (hex_digit (b / 16)) (hex_digit (b mod 16)) =? b) = true)
    by (revert b Hb; apply byte_forall; vm_compute; reflexivity).
  rewrite !andb_true_iff, Z.eqb_eq in H. tauto.
Qed.

Definition prepend (bs : bytes) (r : bytes * result unescape_failure unit) := (bs ++ fst r, snd r).

(** A run of escaped bytes that the UTF-8 checker accepts. *)
Lemma unescape_hex_block bs u e rest pos :
  is_bytes bs -> bs <> [] -> fst (feed_bytes u bs) = true ->
  unescape_chars ((bs ≫= fun b => chr "%" :: two_hex_digits b) ++ rest) pos u e
  = prepend bs (unescape_chars rest (pos + 3 * length bs) (snd (feed_bytes u bs))
                  (negb (finalized (snd (feed_bytes u bs))))).
Proof.
  intros Hb. revert u e pos. induction Hb as [|b bs Hb Hbs IH]; intros u e pos Hne Hfeed; [done|].
  cbn [mbind list_bind app feed_bytes] in *. unfold two_hex_digits at 1. cbn [app].
  destruct (extract_two_hex b Hb) as (H1 & H2 & H3).
  cbn [unescape_chars]. rewrite Z.eqb_refl, andb_false_r, H1, H2, H3. cbn [andb].
  destruct (feed_byte u b) as [[] u'] eqn:Hfb; [|done].
  destruct bs as [|b' bs].
  - cbn. replace (pos + 3)%nat with (pos + 3 * 1)%nat by lia. done.
  - rewrite IH by done. unfold emit, prepend. cbn [fst snd app length].
    by replace (pos + 3 + 3 * S (length bs))%nat with (pos + 3 * S (S (length bs)))%nat by lia.
Qed.
End Results.

Lemma well_formed_bytes s : well_formed_utf8 s -> is_bytes s.
Proof using.
  intros (cps & Hcps & ->). induction Hcps as [|cp cps H Hcps IH]; [constructor|].
  cbn. apply Forall_app. split; [by apply encode_utf8_bytes|done].
Qed.

Section RoundTrip.
Context {T : UnescapeTraits} `{!UnescapeTraitsLaws T} (char_is_signed : bool) (fmt_02X : Z -> bytes).
Abbreviation escape := (escape_percent_encoding char_is_signed fmt_02X).
Abbreviation fmt_char b := (fmt_02X (char_value char_is_signed b)).

Definition escape_byte (c : Z) : bytes :=
  if ordinary_char c then [c] else chr "%" :: fmt_char c.

Lemma escape_all data : escape data = data ≫= escape_byte.
Proof using.
  unfold escape_percent_encoding. destruct (Nat.eqb_spec (length (List.filter (fun c => negb (ordinary_char c)) data)) 0) as [E|_]; [|done].
  apply length_zero_iff_nil in E. revert E. induction data as [|c data IH]; [done|]. cbn.
  unfold escape_byte at 1. destruct (ordinary_char c); [|done]. cbn. intros E. f_equal. by apply IH.
Qed.

Lemma feed_encode cp :
  is_scalar cp -> feed_bytes utf8_default (encode_utf8 cp) = (true, utf8_default).
Proof using.
  intros Hs. pose proof (process_encode utf8_default cp [] clean_default Hs) as E.
  rewrite app_nil_r in E. cbn [process_bytes] in E.
  destruct (feed_bytes_process utf8_default (encode_utf8 cp)) as [H1 H2];
    [by apply clean_inv|by apply encode_utf8_bytes|].
  rewrite E in H1, H2. cbn [fst snd] in H1, H2.
  change (settle utf8_default) with utf8_default in H1, H2.
  rewrite settle_clean in H2 by done.
  destruct (feed_bytes utf8_default (encode_utf8 cp)) as [ok v]; cbn in H1, H2.
  rewrite H2 by done. by rewrite H1.
Qed.

Lemma encode_utf8_ordinary cp b :
  is_scalar cp -> b ∈ encode_utf8 cp -> ordinary_char b = true -> encode_utf8 cp = [b] /\ cp = b.
Proof.
  intros Hs Hb Ho. assert (Hlt : b < 128).
  { apply ordinary_ascii; [|done]. pose proof (encode_utf8_bytes cp Hs) as Hbs.
    rewrite Forall_forall in Hbs. by apply Hbs. }
  unfold encode_utf8, is_scalar in *.
  destruct (Z.ltb_spec cp 0x80); [apply list_elem_of_singleton in Hb as ->; done|].
  exfalso. revert Hb. repeat case_match; rewrite !elem_of_cons, elem_of_nil;
    intros Hb; to_prop; destruct_or?; div_lia.
Qed.

(** One character of a well-formed text. *)
Lemma unescape_char cp rest pos :
  is_scalar cp ->
  (forall b, b ∈ encode_utf8 cp -> ordinary_char b = false -> fmt_char b = two_hex_digits b) ->
  (cp = chr "+" -> ordinary_char (chr "+") = false) ->
  exists pos',
    unescape_chars ((encode_utf8 cp ≫= escape_byte) ++ rest) pos utf8_default false
    = prepend (encode_utf8 cp) (unescape_chars rest pos' utf8_default false).
Proof.
  intros Hs Hfmt Hplus.
  destruct (decide (Exists (fun b => ordinary_char b = true) (encode_utf8 cp))) as [He|Hn].
  - apply Exists_exists in He as (b & Hb & Ho).
    destruct (encode_utf8_ordinary cp b Hs Hb Ho) as [E ->]. rewrite E.
    cbn [mbind list_bind app]. unfold escape_byte. rewrite Ho. cbn [app unescape_chars andb].
    destruct (Z.eqb_spec b (chr "%")) as [->|_]; [by rewrite percent_not_ordinary in Ho|].
    destruct (Z.eqb_spec b (chr "+")) as [->|_]; [by rewrite Hplus in Ho|].
    rewrite Ho. by eexists.
  - apply not_Exists_Forall in Hn; [|apply _].
    assert (E : (encode_utf8 cp ≫= escape_byte)
                = (encode_utf8 cp ≫= fun b => chr "%" :: two_hex_digits b)).
    { revert Hn Hfmt. generalize (encode_utf8 cp) as l. induction l as [|b l IH]; [done|].
      intros Hl Hfmt. apply Forall_cons in Hl as [Hb Hl]. cbn [mbind list_bind].
      apply not_true_is_false in Hb. unfold escape_byte at 1.
      rewrite Hb, Hfmt by (done || apply elem_of_cons; by left). f_equal. apply IH; [done|].
      intros. apply Hfmt; [|done]. apply elem_of_cons; by right. }
    rewrite E, unescape_hex_block, (feed_encode cp Hs).
    + by eexists.
    + by apply encode_utf8_bytes.
    + unfold encode_utf8. by repeat case_match.
    + by rewrite (feed_encode cp Hs).
Qed.

Lemma unescape_escaped cps pos :
  Forall is_scalar cps ->
  let data := concat (encode_utf8 <$> cps) in
  (forall b, b ∈ data -> ordinary_char b = false -> fmt_char b = two_hex_digits b) ->
  (chr "+" ∈ data -> ordinary_char (chr "+") = false) ->
  unescape_chars (data ≫= escape_byte) pos utf8_default false = (data, Ok tt).
Proof.
  intros Hcps. revert pos. induction Hcps as [|cp cps Hs Hcps IH]; intros pos data Hfmt Hplus; [done|].
  unfold data in *. cbn [fmap list_fmap concat] in *. rewrite bind_app.
  destruct (unescape_char cp (concat (encode_utf8 <$> cps) ≫= escape_byte) pos) as [pos' ->]; [done|..].
  - intros b Hb. apply Hfmt, elem_of_app. by left.
  - intros ->. apply Hplus, elem_of_app. left. by apply list_elem_of_singleton.
  - rewrite IH; [done|..].
    + intros b Hb. apply Hfmt, elem_of_app. by right.
    + intros Hb. apply Hplus, elem_of_app. by right.
Qed.

(** What [fmt] documents for the format [{:02X}], for numbers that one byte holds. *)
Definition hex_of_byte : Prop := forall n, 0 <= n < 256 -> fmt_02X n = two_hex_digits n.

Lemma fmt_char_hex data b : hex_of_byte -> is_bytes data -> (char_is_signed = true -> Forall (fun b => b < 128) data) ->
  b ∈ data -> fmt_char b = two_hex_digits b.
Proof using.
  intros Hfmt Hb Hs Hin. rewrite Forall_forall in Hb. specialize (Hb b Hin). unfold is_byte in Hb.
  unfold char_value. destruct char_is_signed; cbn [andb]; [|by apply Hfmt].
  specialize (Hs eq_refl). rewrite Forall_forall in Hs. rewrite (proj2 (Z.leb_gt _ _)) by by apply Hs. by apply Hfmt.
Qed.

(** C30 (roundtrip). For each of the four traits, unescaping the escaped form of a
    well-formed UTF-8 text gives the text back - provided that [char] is unsigned or the text has only ASCII
    characters (with a signed [char] the bytes from 0x80 on are formatted as negative numbers, see
    below), that [fmt] writes a number below 256 as two upper-case hexadecimal digits, as it documents, and that
    the text has no plus sign or the traits escape it (all but the relaxed ones
    do, see below). *)
Theorem percent_roundtrip data :
  well_formed_utf8 data -> (char_is_signed = true -> Forall (fun b => b < 128) data) -> hex_of_byte ->
  (chr "+" ∈ data -> ordinary_char (chr "+") = false) ->
  try_unescape_percent_encoding (escape data) = Ok data.
Proof.
  intros Hwf Hs Hfmt Hplus. pose proof (well_formed_bytes data Hwf) as Hb. destruct Hwf as (cps & Hcps & ->).
  rewrite try_unescape_chars, escape_all, unescape_escaped; [done|done| |done].
  intros b Hin _. by eapply fmt_char_hex.
Qed.

(** A formatting library that writes negative numbers with a minus sign makes escapes that are
    refused, when [char] is signed: of every text that begins with a byte from 0x80 on. *)
Lemma signed_char_escapes_are_refused b data : char_is_signed = true -> 128 <= b -> ordinary_char b = false ->
  (exists digits, fmt_02X (b - 256) = chr "-" :: digits) ->
  try_unescape_percent_encoding (escape (b :: data)) = Err (invalid_escape_sequence 0).
Proof using.
  intros Hs Hb Ho (digits & Hd). rewrite try_unescape_chars, escape_all. cbn [mbind list_bind]. unfold escape_byte at 1 3.
  rewrite Ho. unfold char_value. rewrite Hs, (proj2 (Z.leb_le _ _)) by done. cbn [andb]. rewrite Hd. cbn [app].
  cbn. by destruct (digits ++ _).
Qed.
End RoundTrip.

Lemma percent_roundtrip_witness :
  @try_unescape_percent_encoding x_www_form_urlencoded_unescape_traits
    (@escape_percent_encoding x_www_form_urlencoded_unescape_traits false two_hex_digits
       [0x41; 0x2B; 0xE2; 0x82; 0xAC; 0x25])
  = Ok [0x41; 0x2B; 0xE2; 0x82; 0xAC; 0x25].
Proof.
  apply (@percent_roundtrip x_www_form_urlencoded_unescape_traits form_laws false two_hex_digits
           [0x41; 0x2B; 0xE2; 0x82; 0xAC; 0x25]).
  - exists [0x41; 0x2B; 0x20AC; 0x25]. split; [|reflexivity].
    repeat constructor; unfold is_scalar; lia.
  - done.
  - done.
  - reflexivity.
Defined.

(** The relaxed traits, found with [strchr], take two
    characters as ordinary that spoil the round trip or their own description:
    the plus sign, so that [+] is escaped as itself and comes back as a space,
    and the zero byte, which matches the end of the searched string and is
    accepted in a text, although it is in none of the listed character sets. *)
Theorem relaxed_traits_exceptions char_is_signed fmt_02X :
  let escape := @escape_percent_encoding relaxed_unescape_traits char_is_signed fmt_02X in
  let try_unescape := @try_unescape_percent_encoding relaxed_unescape_traits in
  try_unescape (escape (str "a+b")) = Ok (str "a b") /\
  try_unescape [0x61; 0; 0x62] = Ok [0x61; 0; 0x62] /\
  @try_unescape_percent_encoding javascript_compatible_unescape_traits [0x61; 0; 0x62]
    = Err (invalid_non_escaped_char 0 1).
Proof. split_and!; vm_compute; reflexivity. Qed.

(** ** Normalization of unreserved characters *)

(*@ utils/percent_encoding.hpp 476-483 uri_normalization::unreserved_chars::impl::is_unreserved_char *)
Definition is_unreserved_char (ch : Z) : bool := restinio_default_unescape_traits ch.

(** The two handlers of [run_normalization_algo]. *)
Class Handlers (Store : Type) : Type := {
  one_byte_handler : Store -> Z -> Store;
  three_byte_handler : Store -> Z -> Z -> Z -> Store }.

(** The text that is left is the list [d]; [pos] is [current_pos()]. The store
    that the handlers have changed is returned with the outcome. *)
(*@ utils/percent_encoding.hpp 499-587 uri_normalization::unreserved_chars::impl::run_normalization_algo *)
Fixpoint normalization_loop {Store} `{Handlers Store} (d : bytes) (pos : nat) (st : Store)
    (utf8_checker : utf8_checker_t) (expect_next_utf8_byte : bool) :
    Store * result unescape_failure unit :=
  match d with
  | [] => (st, if expect_next_utf8_byte then Err unfinished_utf8_sequence else Ok tt)
  | c :: d1 =>
      if expect_next_utf8_byte && negb (c =? chr "%") then (st, Err (next_utf8_byte_expected pos))
      else if negb (c =? chr "%") then
        normalization_loop d1 (pos + 1) (one_byte_handler st c) utf8_checker expect_next_utf8_byte
      else
        match d1 with
        | c1 :: c2 :: d3 =>
            if is_hexdigit c1 && is_hexdigit c2 then
              let ch := extract_escaped_char c1 c2 in
              let '(ok, utf8_checker) := process_byte utf8_checker ch in
              if ok then
                let '(expect_next_utf8_byte, utf8_checker, ascii_char) :=
                  if finalized utf8_checker then
                    let symbol := current_symbol utf8_checker in
                    (false, reset utf8_checker,
                     if (symbol <? 0x80) && is_unreserved_char symbol then Some symbol else None)
                  else (true, utf8_checker, None) in
                let st := match ascii_char with
                          | Some a => one_byte_handler st a
                          | None => three_byte_handler st c c1 c2
                          end in
                normalization_loop d3 (pos + 3) st utf8_checker expect_next_utf8_byte
              else (st, Err (invalid_utf8_sequence pos))
            else (st, Err (invalid_escape_sequence pos))
        | _ => (st, Err (invalid_escape_sequence pos))
        end
  end.

Definition run_normalization_algo {Store} `{Handlers Store} (what : bytes) (st : Store) :=
  normalization_loop what 0 st utf8_default false.

(** The handlers of [estimate_required_capacity] count. *)
#[export] Instance counting : Handlers nat := {
  one_byte_handler n _ := (n + 1)%nat;
  three_byte_handler n _ _ _ := (n + 3)%nat }.

(*@ utils/percent_encoding.hpp 603-619 uri_normalization::unreserved_chars::estimate_required_capacity *)
Definition estimate_required_capacity (what : bytes) : result unescape_failure nat :=
  let '(calculated_capacity, r) := run_normalization_algo what 0%nat in
  _ ← r; Ok calculated_capacity.

(** The handlers of [normalize_to] write through [dest]; a write past the end of
    the memory sets [overrun]. *)
Record dest_store : Type := mk_dest { memory : bytes; dest : nat; overrun : bool }.

Definition put (s : dest_store) (ch : Z) : dest_store :=
  mk_dest (<[dest s := ch]> (memory s)) (dest s + 1)
    (overrun s || negb (dest s <? length (memory s))%nat).

#[export] Instance writing : Handlers dest_store := {
  one_byte_handler := put;
  three_byte_handler s ch1 ch2 ch3 := put (put (put s ch1) ch2) ch3 }.

(*@ utils/percent_encoding.hpp 639-654 uri_normalization::unreserved_chars::normalize_to *)
Definition normalize_to (what mem : bytes) : dest_store * result unescape_failure unit :=
  run_normalization_algo what (mk_dest mem 0 false).

(** ** Tokens

    A text is a sequence of plain characters and escapes. *)

Inductive token : Type :=
| plain (c : Z)
| escaped (c1 c2 : Z).

Definition print_token (t : token) : bytes :=
  match t with plain c => [c] | escaped c1 c2 => [chr "%"; c1; c2] end.

Definition token_ok (t : token) : Prop :=
  match t with
  | plain c => (c =? chr "%") = false
  | escaped c1 c2 => is_hexdigit c1 && is_hexdigit c2 = true
  end.

(** The only tokens that normalization changes. *)
Definition normalize_token (t : token) : token :=
  match t with
  | plain c => plain c
  | escaped c1 c2 =>
      let ch := extract_escaped_char c1 c2 in
      if is_unreserved_char ch then plain ch else escaped c1 c2
  end.

Definition print_tokens (ts : list token) : bytes := ts ≫= print_token.

(** The escapes, seen between the plain characters, are whole UTF-8 characters. *)
Fixpoint tokens_valid (ts : list token) (u : utf8_checker_t) : bool :=
  match ts with
  | [] => finalized u
  | plain _ :: ts' => finalized u && tokens_valid ts' u
  | escaped c1 c2 :: ts' =>
      let '(ok, u') := feed_byte u (extract_escaped_char c1 c2) in ok && tokens_valid ts' u'
  end.

Lemma hexdigit_byte c : is_hexdigit c = true -> is_byte c.
Proof.
  unfold is_hexdigit, in_range, is_byte. intros H. to_prop.
  change (chr "0") with 48 in H. change (chr "9") with 57 in H. change (chr "a") with 97 in H.
  change (chr "f") with 102 in H. change (chr "A") with 65 in H. change (chr "F") with 70 in H. lia.
Qed.

Lemma extract_byte c1 c2 : is_byte (extract_escaped_char c1 c2).
Proof.
  unfold extract_escaped_char. cbv zeta.
  case_test; apply (wrap_range 8); lia.
Qed.

Lemma unreserved_ascii ch : is_byte ch -> is_unreserved_char ch = true ->
  ch < 128 /\ (ch =? chr "%") = false.
Proof.
  intros Hb Hu. split; [by apply (ordinary_ascii (T := restinio_default_unescape_traits))|].
  destruct (Z.eqb_spec ch (chr "%")) as [->|]; [|done].
  by vm_compute in Hu.
Qed.

Definition apply_token {Store} `{Handlers Store} (st : Store) (t : token) : Store :=
  match t with
  | plain c => one_byte_handler st c
  | escaped c1 c2 => three_byte_handler st (chr "%") c1 c2
  end.

(** The checker between two iterations: settled, in a state of an error-free run. *)
Definition settled (u : utf8_checker_t) : Prop := utf8_inv u /\ settle u = u.

Lemma settled_default : settled utf8_default.
Proof. split; [by left|done]. Qed.

Lemma settle_idem u : settle (settle u) = settle u.
Proof. unfold settle, finalized. destruct (m_current_symbol_rest_bytes u =? 0) eqn:E; by rewrite ?E. Qed.

(** One escape: which handler is called depends on the decoded byte alone. *)
Lemma escape_step u ch u' :
  settled u -> is_byte ch -> process_byte u ch = (true, u') ->
  settled (settle u') /\
  (if finalized u' then
     (current_symbol u' <? 0x80) && is_unreserved_char (current_symbol u') = is_unreserved_char ch
     /\ (is_unreserved_char ch = true -> u = utf8_default /\ current_symbol u' = ch)
   else is_unreserved_char ch = false).
Proof.
  intros [Hu Hsu] Hb Hp. pose proof (process_byte_inv _ _ _ Hu Hb Hp) as Hu'. split.
  { split; [by apply settle_inv|apply settle_idem]. }
  destruct (finalized u') eqn:Hf.
  - destruct (finalized_ascii u ch u' Hu Hb Hp Hf) as (H1 & H2 & _). unfold current_symbol.
    destruct (Z.ltb_spec (m_current_symbol u') 128) as [Hlt|Hge].
    + destruct (H1 Hlt) as (Hc & _ & Hs). rewrite Hs. split; [done|]. intros _.
      split; [|done]. rewrite <- Hsu. by apply settle_clean.
    + cbn. destruct (is_unreserved_char ch) eqn:E; [|done].
      destruct (unreserved_ascii ch Hb E) as [Hch _]. destruct (H2 Hch) as [_ Hs]. lia.
  - destruct (is_unreserved_char ch) eqn:E; [|done].
    destruct (unreserved_ascii ch Hb E) as [Hch _].
    destruct (clean_dec u) as [Hc|Hn].
    + unfold is_byte in Hb. rewrite process_ascii in Hp by (done || lia). by simplify_eq.
    + destruct (process_byte_cont_inv u ch u' Hu Hn Hb Hp) as (_ & ? & _). lia.
Qed.

Section NormalizationTokens.
Context {Store : Type} `{Handlers Store}.

Lemma loop_tokens ts pos (st : Store) u :
  Forall token_ok ts -> settled u ->
  if tokens_valid ts u
  then normalization_loop (print_tokens ts) pos st u (negb (finalized u))
       = (fold_left apply_token (normalize_token <$> ts) st, Ok tt)
  else exists st' e, normalization_loop (print_tokens ts) pos st u (negb (finalized u)) = (st', Err e).
Proof.
  intros Hts. revert pos st u. induction Hts as [|t ts Ht Hts IH]; intros pos st u Hu.
  { cbn. destruct (finalized u); cbn; eauto. }
  destruct t as [c|c1 c2]; cbn in Ht.
  - cbn -[normalization_loop]. cbn [normalization_loop]. rewrite Ht. cbn [negb]. rewrite andb_true_r.
    destruct (finalized u) eqn:Hf; cbn [negb andb]; [|eauto].
    specialize (IH (pos + 1)%nat (one_byte_handler st c) u Hu). by rewrite Hf in IH.
  - cbn -[normalization_loop feed_byte]. cbn [normalization_loop].
    rewrite Z.eqb_refl, andb_false_r, Ht. cbn [negb].
    set (ch := extract_escaped_char c1 c2). assert (Hb : is_byte ch) by apply extract_byte.
    unfold feed_byte. destruct (process_byte u ch) as [[] u'] eqn:Hp; cbn [andb]; [|eauto].
    destruct (escape_step u ch u' Hu Hb Hp) as [Hset Hif].
    unfold settle in *. destruct (finalized u') eqn:Hf.
    + destruct Hif as [E Hs]. rewrite E.
      specialize (IH (pos + 3)%nat (apply_token st (normalize_token (escaped c1 c2))) (reset u') Hset).
      change (finalized (reset u')) with true in IH. cbn [negb] in IH.
      unfold normalize_token in IH |- *. fold ch in IH |- *.
      destruct (is_unreserved_char ch); [destruct (Hs eq_refl) as [_ ->]|]; exact IH.
    + specialize (IH (pos + 3)%nat (apply_token st (normalize_token (escaped c1 c2))) u' Hset).
      rewrite Hf in IH. cbn [negb] in IH. unfold normalize_token in IH |- *.
      fold ch in IH |- *. rewrite Hif in IH |- *. exact IH.
Qed.

Lemma loop_parses d pos (st : Store) u e :
  snd (normalization_loop d pos st u e) = Ok tt ->
  exists ts, Forall token_ok ts /\ d = print_tokens ts.
Proof.
  remember (length d) as n eqn:Hn. revert d Hn pos st u e.
  induction n as [n IH] using lt_wf_ind. intros d -> pos st u e Hok.
  destruct d as [|c d]; [by exists []|]. cbn [normalization_loop] in Hok.
  destruct (e && _); [done|].
  destruct (c =? chr "%") eqn:Hc; cbn [negb] in Hok.
  - destruct d as [|c1 [|c2 d]]; [done..|].
    destruct (is_hexdigit c1 && is_hexdigit c2) eqn:Hh; [|done].
    destruct (process_byte u _) as [[] u']; [|done].
    destruct (if finalized u' then _ else _) as [[e' u''] a].
    eapply (IH (length d)) in Hok as (ts & Hts & ->); [|simpl; lia|done].
    exists (escaped c1 c2 :: ts). split; [by constructor|].
    apply Z.eqb_eq in Hc as ->. done.
  - eapply (IH (length d)) in Hok as (ts & Hts & ->); [|simpl; lia|done].
    exists (plain c :: ts). split; [by constructor|done].
Qed.
End NormalizationTokens.

(** The outcome does not depend on what the handlers do. *)
Lemma loop_outcome {St1 St2} `{Handlers St1, Handlers St2} d pos (s1 : St1) (s2 : St2) u e :
  snd (normalization_loop d pos s1 u e) = snd (normalization_loop d pos s2 u e).
Proof.
  remember (length d) as n eqn:Hn. revert d Hn pos s1 s2 u e.
  induction n as [n IH] using lt_wf_ind. intros d -> pos s1 s2 u e.
  destruct d as [|c d]; [done|]. cbn [normalization_loop].
  destruct (e && _); [done|]. destruct (negb _); [by eapply (IH (length d)); [simpl; lia|done]|].
  destruct d as [|c1 [|c2 d]]; [done..|].
  destruct (_ && _); [|done]. destruct (process_byte u _) as [[] u']; [|done].
  destruct (if finalized u' then _ else _) as [[e' u''] a].
  eapply (IH (length d)); [simpl; lia|done].
Qed.

(** ** The handlers of the two functions *)

Lemma counting_tokens ts n : fold_left apply_token ts n = (n + length (print_tokens ts))%nat.
Proof.
  revert n. induction ts as [|t ts IH]; intros n; [cbn; lia|].
  cbn [fold_left]. rewrite IH. unfold print_tokens. cbn [mbind list_bind]. rewrite length_app.
  destruct t; cbn; lia.
Qed.

Lemma put_spec out mem c :
  (length out < length mem)%nat ->
  put (mk_dest (out ++ drop (length out) mem) (length out) false) c
  = mk_dest ((out ++ [c]) ++ drop (length (out ++ [c])) mem) (length (out ++ [c])) false.
Proof.
  intros Hlt. unfold put; cbn [memory dest overrun].
  rewrite (proj2 (Nat.ltb_lt _ _)) by (rewrite length_app, length_drop; lia).
  rewrite !length_app. cbn [length].
  rewrite insert_app_r_alt by lia. rewrite Nat.sub_diag.
  rewrite (drop_nth mem (length out)) by done. cbn. rewrite <- app_assoc. cbn.
  by replace (length out + 1)%nat with (S (length out)) by lia.
Qed.

Lemma writing_tokens ts out mem :
  (length out + length (print_tokens ts) <= length mem)%nat ->
  fold_left apply_token ts (mk_dest (out ++ drop (length out) mem) (length out) false)
  = mk_dest ((out ++ print_tokens ts) ++ drop (length (out ++ print_tokens ts)) mem)
      (length (out ++ print_tokens ts)) false.
Proof.
  revert out. unfold print_tokens.
  induction ts as [|t ts IH]; intros out; cbn [fold_left mbind list_bind]; [by rewrite app_nil_r|].
  rewrite length_app. intros Hle. destruct t as [c|c1 c2]; cbn in Hle.
  - cbn [apply_token one_byte_handler writing print_token]. rewrite put_spec by lia.
    rewrite IH by (rewrite length_app; cbn; lia). by rewrite <- !app_assoc.
  - cbn [apply_token three_byte_handler writing print_token].
    rewrite !put_spec by (rewrite ?length_app; cbn; lia).
    rewrite IH by (rewrite !length_app; cbn; lia). by rewrite <- !app_assoc.
Qed.

Lemma normalized_shorter ts : (length (print_tokens (normalize_token <$> ts)) <= length (print_tokens ts))%nat.
Proof.
  unfold print_tokens. induction ts as [|t ts IH]; [done|].
  cbn [fmap list_fmap mbind list_bind]. rewrite !length_app.
  destruct t as [c|c1 c2]; cbn in *; [lia|]. case_match; cbn; lia.
Qed.

Lemma estimate_ok what n : estimate_required_capacity what = Ok n ->
  exists ts, Forall token_ok ts /\ tokens_valid ts utf8_default = true /\ what = print_tokens ts /\
    n = length (print_tokens (normalize_token <$> ts)).
Proof.
  unfold estimate_required_capacity, run_normalization_algo.
  destruct (normalization_loop what 0 0%nat utf8_default false) as [m [[]|e]] eqn:E; intros Hn; [|done].
  injection Hn as ->. destruct (loop_parses what 0 0%nat utf8_default false) as (ts & Hts & ->); [by rewrite E|].
  exists ts. pose proof (loop_tokens ts 0 0%nat utf8_default Hts settled_default) as H.
  change (negb (finalized utf8_default)) with false in H.
  destruct (tokens_valid ts utf8_default) eqn:Hv; [|destruct H as (? & ? & H); congruence].
  rewrite E, counting_tokens in H. by injection H as ->.
Qed.

Lemma normalize_tokens ts mem : Forall token_ok ts -> tokens_valid ts utf8_default = true ->
  let out := print_tokens (normalize_token <$> ts) in
  (length out <= length mem)%nat ->
  normalize_to (print_tokens ts) mem = (mk_dest (out ++ drop (length out) mem) (length out) false, Ok tt).
Proof.
  intros Hts Hv out Hle. unfold normalize_to, run_normalization_algo.
  pose proof (loop_tokens ts 0 (mk_dest mem 0 false) utf8_default Hts settled_default) as H.
  rewrite Hv in H. change (negb (finalized utf8_default)) with false in H. rewrite H.
  by rewrite (writing_tokens _ [] mem).
Qed.

Lemma normalized_same_length ts :
  length (print_tokens (normalize_token <$> ts)) = length (print_tokens ts) ->
  print_tokens (normalize_token <$> ts) = print_tokens ts.
Proof.
  induction ts as [|t ts IH]; [done|]. pose proof (normalized_shorter ts) as Hl. revert Hl IH. unfold print_tokens.
  cbn [fmap list_fmap mbind list_bind]. rewrite !length_app. intros Hl IH Hlen.
  destruct t as [c|c1 c2]; cbn in *; [|case_match; cbn in *; [lia|]]; rewrite IH; done || lia.
Qed.

(** A text is refused by both functions with the same error, or
    it is a sequence of plain characters and escapes and normalization replaces
    exactly the escapes of unreserved characters by the characters: then
    [estimate_required_capacity] returns the length of the result, which is at
    most that of the text, and [normalize_to] writes the result to the start of
    any destination of at least that size without touching the rest and without
    running past its end. *)
Theorem normalization_correct what :
  (exists ts, Forall token_ok ts /\ what = print_tokens ts /\
     let out := print_tokens (normalize_token <$> ts) in
     estimate_required_capacity what = Ok (length out) /\
     (length out <= length what)%nat /\
     forall mem, (length out <= length mem)%nat ->
       normalize_to what mem = (mk_dest (out ++ drop (length out) mem) (length out) false, Ok tt)) \/
  (exists e, estimate_required_capacity what = Err e /\
     forall mem, snd (normalize_to what mem) = Err e).
Proof.
  destruct (estimate_required_capacity what) as [n|e] eqn:E.
  - left. destruct (estimate_ok what n E) as (ts & Hts & Hv & -> & ->). exists ts. split; [done|]. split; [done|]. split; [done|].
    split; [apply normalized_shorter|]. intros mem Hle. by apply normalize_tokens.
  - right. exists e. split; [done|]. intros mem. revert E. unfold estimate_required_capacity, normalize_to, run_normalization_algo.
    rewrite <- (loop_outcome what 0 0%nat). by destruct (normalization_loop what 0 0%nat utf8_default false) as [m [[]|e']]; [|intros [= ->]].
Qed.

Lemma settled_finalized u : settled u -> finalized u = true -> u = utf8_default.
Proof.
  intros [Hu Hs] Hf. rewrite <- Hs. destruct Hu as [Hc|(Hr & _)]; [by apply settle_clean|].
  unfold finalized in Hf. lia.
Qed.

(** An ASCII character is accepted between characters only, and changes nothing. *)
Lemma feed_ascii u ch :
  settled u -> 0 <= ch < 128 ->
  fst (feed_byte u ch) = finalized u /\ (finalized u = true -> snd (feed_byte u ch) = u).
Proof.
  intros Hset Hch. unfold feed_byte. destruct (finalized u) eqn:Hf.
  - rewrite (settled_finalized u Hset Hf). by rewrite process_ascii.
  - destruct (process_byte u ch) as [[] u'] eqn:Hp; [|done].
    assert (Hn : ~ clean u) by (intros [Hr _]; unfold finalized in Hf; lia).
    destruct Hset as [Hu _].
    destruct (process_byte_cont_inv u ch u' Hu Hn ltac:(unfold is_byte; lia) Hp) as (_ & ? & _). lia.
Qed.

Lemma tokens_valid_normalize ts u :
  settled u -> tokens_valid (normalize_token <$> ts) u = tokens_valid ts u.
Proof.
  revert u. induction ts as [|[c|c1 c2] ts IH]; intros u Hu; [done| |].
  - cbn. by rewrite IH.
  - cbn [fmap list_fmap normalize_token]. set (ch := extract_escaped_char c1 c2).
    assert (Hb : is_byte ch) by apply extract_byte.
    destruct (is_unreserved_char ch) eqn:Hun; cbn [tokens_valid]; fold ch.
    + destruct (unreserved_ascii ch Hb Hun) as [Hlt _]. unfold is_byte in Hb.
      destruct (feed_ascii u ch Hu ltac:(lia)) as [H1 H2].
      destruct (feed_byte u ch) as [ok u']; cbn in H1, H2. subst ok.
      destruct (finalized u); [|done]. rewrite H2 by done. cbn [andb]. by apply IH.
    + unfold feed_byte. destruct (process_byte u ch) as [[] u'] eqn:Hp; [|done]. cbn [andb].
      destruct (escape_step u ch u' Hu Hb Hp) as [Hset _]. by apply IH.
Qed.

Lemma normalize_token_ok t : token_ok t -> token_ok (normalize_token t).
Proof.
  destruct t as [c|c1 c2]; [done|]. cbn. case_match eqn:Hun; [|done].
  by destruct (unreserved_ascii _ (extract_byte c1 c2) Hun).
Qed.

Lemma normalize_token_idem t : normalize_token (normalize_token t) = normalize_token t.
Proof.
  destruct t as [c|c1 c2]; [done|]. cbn.
  destruct (is_unreserved_char (extract_escaped_char c1 c2)) eqn:E; [done|]. cbn. by rewrite E.
Qed.

(** Valid tokens are normalized by both functions. *)
Lemma normalize_valid ts :
  Forall token_ok ts -> tokens_valid ts utf8_default = true ->
  let out := print_tokens (normalize_token <$> ts) in
  estimate_required_capacity (print_tokens ts) = Ok (length out) /\
  forall mem, length mem = length out ->
    normalize_to (print_tokens ts) mem = (mk_dest out (length out) false, Ok tt).
Proof.
  intros Hts Hv out. unfold estimate_required_capacity, normalize_to, run_normalization_algo. split.
  - pose proof (loop_tokens ts 0 0%nat utf8_default Hts settled_default) as H.
    rewrite Hv in H. change (negb (finalized utf8_default)) with false in H.
    by rewrite H, counting_tokens.
  - intros mem Hmem.
    pose proof (loop_tokens ts 0 (mk_dest mem 0 false) utf8_default Hts settled_default) as H.
    rewrite Hv in H. change (negb (finalized utf8_default)) with false in H. rewrite H.
    rewrite (writing_tokens _ [] mem) by (fold out; cbn; lia). cbn [app]. fold out.
    by rewrite drop_ge, app_nil_r by lia.
Qed.

(** Normalization is idempotent: when a text is accepted, its
    normalized form is accepted, needs the same capacity and is its own
    normalized form. *)
Theorem normalization_idempotent what n :
  estimate_required_capacity what = Ok n ->
  exists out, length out = n /\
    (forall mem, length mem = n -> normalize_to what mem = (mk_dest out n false, Ok tt)) /\
    estimate_required_capacity out = Ok n /\
    (forall mem, length mem = n -> normalize_to out mem = (mk_dest out n false, Ok tt)).
Proof.
  intros He.
  assert (H : exists ts, Forall token_ok ts /\ what = print_tokens ts /\
                         tokens_valid ts utf8_default = true).
  { unfold estimate_required_capacity, run_normalization_algo in He.
    destruct (normalization_loop what 0 0%nat utf8_default false) as [k [[]|e]] eqn:E; [|done].
    destruct (loop_parses what 0 0%nat utf8_default false) as (ts & Hts & ->); [by rewrite E|].
    exists ts. split_and!; [done..|].
    pose proof (loop_tokens ts 0 0%nat utf8_default Hts settled_default) as H.
    change (negb (finalized utf8_default)) with false in H.
    destruct (tokens_valid ts utf8_default); [done|]. destruct H as (? & ? & H); congruence. }
  destruct H as (ts & Hts & -> & Hv).
  destruct (normalize_valid ts Hts Hv) as [H1 H2]. rewrite He in H1. injection H1 as ->.
  exists (print_tokens (normalize_token <$> ts)). split; [done|split; [done|]].
  assert (Hts' : Forall token_ok (normalize_token <$> ts)).
  { apply Forall_fmap. eapply Forall_impl; [exact Hts|]. intros t. apply normalize_token_ok. }
  destruct (normalize_valid (normalize_token <$> ts) Hts') as [H3 H4].
  { by rewrite tokens_valid_normalize by apply settled_default. }
  assert (Hidem : normalize_token <$> (normalize_token <$> ts) = normalize_token <$> ts).
  { rewrite <- list_fmap_compose. apply list_fmap_ext. intros i t _. apply normalize_token_idem. }
  rewrite Hidem in H3, H4. by split.
Qed.

Lemma normalization_idempotent_witness :
  exists out, length out = 6%nat /\ estimate_required_capacity out = Ok 6%nat.
Proof.
  destruct (normalization_idempotent (str "%41/%7e%2f") 6 eq_refl) as (out & H1 & _ & H3 & _).
  exists out. split; [exact H1|exact H3].
Defined.
