(* ===== verification/Query.v ===== *)
(** * Query strings

    [restinio/uri_helpers.hpp]: the container of query-string parameters, whose
    names and values are views into one shared buffer, and the parser, which
    unescapes the names and values in place in that buffer. *)

From S2P Require Import Prelude Utf8 Percent.

(*@ uri_helpers.hpp 26-33 impl::modified_memchr *)
Fixpoint modified_memchr (chr_ : Z) (range : bytes) : nat :=
  match range with
  | [] => 0
  | c :: range' => if c =? chr_ then 0 else S (modified_memchr chr_ range')
  end.

(** [string_view_t::find_first_of( chars, pos )]; [None] is [npos]. *)
Fixpoint find_index (p : Z -> bool) (s : bytes) : option nat :=
  match s with
  | [] => None
  | c :: s' => if p c then Some 0%nat else S <$> find_index p s'
  end.

Definition find_first_of (p : Z -> bool) (s : bytes) (pos : nat) : option nat :=
  (fun i => (pos + i)%nat) <$> find_index p (drop pos s).

(** A [string_view_t] into the shared buffer: offset and size. *)
Abbreviation view := (nat * nat)%type.

Definition view_bytes (buffer : bytes) (v : view) : bytes := take (snd v) (drop (fst v) buffer).

(*@ uri_helpers.hpp 42-69 query_string_params_t *)
Record query_string_params_t : Type := mk_params {
  m_data_buffer : bytes;
  m_parameters : list (view * view);
  m_tag : option view }.

(*@ uri_helpers.hpp 134-144 query_string_params_t::find_parameter *)
Definition find_parameter (q : query_string_params_t) (key : bytes) : option (view * view) :=
  List.find (fun p => bool_decide (key = view_bytes (m_data_buffer q) (fst p))) (m_parameters q).

(** The exception of [find_parameter_with_check]. *)
Inductive params_error : Type := unable_to_find_parameter (key : bytes).

(*@ uri_helpers.hpp 146-160 query_string_params_t::find_parameter_with_check *)
Definition find_parameter_with_check (q : query_string_params_t) (key : bytes) :
    result params_error (view * view) :=
  match find_parameter q key with
  | None => Err (unable_to_find_parameter key)
  | Some it => Ok it
  end.

(*@ uri_helpers.hpp 71-76 query_string_params_t::operator[] *)
Definition params_at (q : query_string_params_t) (key : bytes) : result params_error bytes :=
  p ← find_parameter_with_check q key; Ok (view_bytes (m_data_buffer q) (snd p)).

(*@ uri_helpers.hpp 78-83 query_string_params_t::has *)
Definition has (q : query_string_params_t) (key : bytes) : bool :=
  match find_parameter q key with Some _ => true | None => false end.

(*@ uri_helpers.hpp 85-95 query_string_params_t::get_param *)
Definition get_param (q : query_string_params_t) (key : bytes) : option bytes :=
  (fun p => view_bytes (m_data_buffer q) (snd p)) <$> find_parameter q key.

(*@ uri_helpers.hpp 97-98 query_string_params_t::size *)
Definition params_size (q : query_string_params_t) : nat := length (m_parameters q).

(*@ uri_helpers.hpp 100-102 query_string_params_t::empty *)
Definition params_empty (q : query_string_params_t) : bool := (params_size q =? 0)%nat.

(*@ uri_helpers.hpp 119-131 query_string_params_t::tag *)
Definition tag (q : query_string_params_t) : option bytes :=
  view_bytes (m_data_buffer q) <$> m_tag q.

(** ** Parsing traits: an unescape traits class and the separators *)

Class ParseTraits : Type := {
  pt_unescape :: UnescapeTraits;
  is_separator : Z -> bool }.

(*@ uri_helpers.hpp 194-203 parse_query_traits::details::ampersand_and_semicolon_as_separators *)
Definition ampersand_and_semicolon (c : Z) : bool := (c =? chr "&") || (c =? chr ";").

(*@ uri_helpers.hpp 214-223 parse_query_traits::details::ampersand_only_as_separators *)
Definition ampersand_only (c : Z) : bool := c =? chr "&".

(*@ uri_helpers.hpp 244-247 parse_query_traits::restinio_defaults *)
Definition restinio_defaults : ParseTraits :=
  {| pt_unescape := restinio_default_unescape_traits; is_separator := ampersand_and_semicolon |}.

(*@ uri_helpers.hpp 262-265 parse_query_traits::javascript_compatible *)
Definition javascript_compatible : ParseTraits :=
  {| pt_unescape := javascript_compatible_unescape_traits; is_separator := ampersand_and_semicolon |}.

(*@ uri_helpers.hpp 289-292 parse_query_traits::x_www_form_urlencoded *)
Definition x_www_form_urlencoded : ParseTraits :=
  {| pt_unescape := x_www_form_urlencoded_unescape_traits; is_separator := ampersand_only |}.

(*@ uri_helpers.hpp 325-328 parse_query_traits::relaxed *)
Definition relaxed : ParseTraits :=
  {| pt_unescape := relaxed_unescape_traits; is_separator := ampersand_only |}.

(** ** The parser *)

(*@ uri_helpers.hpp 337-365 parse_query_failure_t *)
Inductive parse_query_failure : Type :=
| no_eq_symbol_from (pos : nat)
| unescape_failed (failure : unescape_failure).

Definition lift_failure {A} (r : result unescape_failure A) : result parse_query_failure A :=
  match r with Ok a => Ok a | Err e => Err (unescape_failed e) end.

Section Parser.
Context {P : ParseTraits}.

(** The body of the [while( pos < end_pos )] loop, on the buffer as the previous
    iterations have left it; [None] when [fuel] iterations were not enough. *)
Fixpoint parse_query_loop (fuel : nat) (data_buffer : bytes) (parameters : list (view * view))
    (pos : nat) : option (result parse_query_failure query_string_params_t) :=
  match fuel with
  | O => None
  | S fuel' =>
      let end_pos := length data_buffer in
      if (pos <? end_pos)%nat then
        match find_first_of (Z.eqb (chr "=")) data_buffer pos with
        | None =>
            if negb (pos =? 0)%nat then Some (Err (no_eq_symbol_from pos))
            else
              let '(data_buffer, r) :=
                try_inplace_unescape_percent_encoding data_buffer pos (end_pos - pos) in
              Some (size ← lift_failure r; Ok (mk_params data_buffer [] (Some (pos, size))))
        | Some eq_pos =>
            let eq_pos_next := (eq_pos + 1)%nat in
            let separator_pos :=
              default (length data_buffer) (find_first_of is_separator data_buffer eq_pos_next) in
            let '(data_buffer, key_result) :=
              try_inplace_unescape_percent_encoding data_buffer pos (eq_pos - pos) in
            match lift_failure key_result with
            | Err e => Some (Err e)
            | Ok key_size =>
                let '(data_buffer, value_result) :=
                  try_inplace_unescape_percent_encoding data_buffer eq_pos_next
                    (separator_pos - eq_pos_next) in
                match lift_failure value_result with
                | Err e => Some (Err e)
                | Ok value_size =>
                    parse_query_loop fuel' data_buffer
                      (parameters ++ [((pos, key_size), (eq_pos_next, value_size))])
                      (separator_pos + 1)
                end
            end
        end
      else Some (Ok (mk_params data_buffer parameters None))
  end.

(*@ uri_helpers.hpp 395-496 try_parse_query *)
Definition try_parse_query (original_query_string : bytes) :
    option (result parse_query_failure query_string_params_t) :=
  match original_query_string with
  | [] => Some (Ok (mk_params [] [] None))
  | _ => parse_query_loop (S (length original_query_string)) original_query_string [] 0
  end.

(** [parse_query] throws the description of the failure. *)
(*@ uri_helpers.hpp 515-527 parse_query *)
Definition parse_query (original_query_string : bytes) :
    option (result parse_query_failure query_string_params_t) :=
  r ← try_parse_query original_query_string;
  Some (match r with Err description => Err description | Ok q => Ok q end).

(** ** Specification: a grammar on the immutable text

    [parses pos text r]: the text that starts at position [pos] of the query is
    a sequence of [key=value] pairs and [r] is their unescaped contents. *)
Inductive parses : nat -> bytes -> result parse_query_failure (list (bytes * bytes)) -> Prop :=
| parses_end pos : parses pos [] (Ok [])
| parses_no_eq pos text :
    text <> [] -> chr "=" ∉ text -> parses pos text (Err (no_eq_symbol_from pos))
| parses_bad_key pos k text e :
    chr "=" ∉ k -> try_unescape_percent_encoding k = Err e ->
    parses pos (k ++ chr "=" :: text) (Err (unescape_failed e))
| parses_bad_value pos k key v tail e :
    chr "=" ∉ k -> try_unescape_percent_encoding k = Ok key ->
    Forall (fun c => is_separator c = false) v ->
    match tail with [] => True | c :: _ => is_separator c = true end ->
    try_unescape_percent_encoding v = Err e ->
    parses pos (k ++ chr "=" :: v ++ tail) (Err (unescape_failed e))
| parses_pair pos k key v value tail r :
    chr "=" ∉ k -> try_unescape_percent_encoding k = Ok key ->
    Forall (fun c => is_separator c = false) v ->
    match tail with [] => True | c :: _ => is_separator c = true end ->
    try_unescape_percent_encoding v = Ok value ->
    parses (pos + length k + 1 + length v + 1) (List.tl tail) r ->
    parses pos (k ++ chr "=" :: v ++ tail) (rest ← r; Ok ((key, value) :: rest)).

(** The contents of a container. *)
Definition contents (q : query_string_params_t) : list (bytes * bytes) :=
  (fun p => (view_bytes (m_data_buffer q) (fst p), view_bytes (m_data_buffer q) (snd p)))
  <$> m_parameters q.

(** What [try_parse_query] promises for a text. *)
Inductive parse_promise (text : bytes) : result parse_query_failure query_string_params_t -> Prop :=
| promise_pairs r q :
    (text = [] \/ chr "=" ∈ text) -> parses 0 text (Ok r) -> contents q = r -> m_tag q = None ->
    parse_promise text (Ok q)
| promise_pairs_failure e :
    chr "=" ∈ text -> parses 0 text (Err e) -> parse_promise text (Err e)
| promise_tag q t :
    text <> [] -> chr "=" ∉ text -> try_unescape_percent_encoding text = Ok t ->
    tag q = Some t -> m_parameters q = [] -> parse_promise text (Ok q)
| promise_tag_failure e :
    text <> [] -> chr "=" ∉ text -> try_unescape_percent_encoding text = Err e ->
    parse_promise text (Err (unescape_failed e)).

(** ** Searching *)

Lemma find_index_None p s : find_index p s = None -> Forall (fun c => p c = false) s.
Proof.
  induction s as [|c s IH]; [constructor|]. cbn. destruct (p c) eqn:E; [done|].
  intros H. apply fmap_None in H. constructor; auto.
Qed.

Lemma find_index_Some p s i :
  find_index p s = Some i ->
  exists s1 c s2, s = s1 ++ c :: s2 /\ length s1 = i /\ p c = true /\ Forall (fun c => p c = false) s1.
Proof.
  revert i. induction s as [|c s IH]; intros i; [done|]. cbn. destruct (p c) eqn:E.
  - intros [= <-]. by exists [], c, s.
  - intros (j & Hj & ->)%fmap_Some. destruct (IH j Hj) as (s1 & d & s2 & -> & <- & Hd & Hs1).
    exists (c :: s1), d, s2. split_and!; [done..|]. by constructor.
Qed.

Lemma not_eq_char k : Forall (fun c => (chr "=" =? c) = false) k -> chr "=" ∉ k.
Proof.
  intros Hk Hin. rewrite Forall_forall in Hk. specialize (Hk _ Hin). by rewrite Z.eqb_refl in Hk.
Qed.

Lemma view_prefix pre post v :
  (fst v + snd v <= length pre)%nat -> view_bytes (pre ++ post) v = view_bytes pre v.
Proof.
  intros Hv. unfold view_bytes. rewrite drop_app_le by lia.
  by rewrite take_app_le by (rewrite length_drop; lia).
Qed.

(** The views collected so far show the pairs collected so far, in the part of
    the buffer that is not touched any more. *)
Definition view_shows (pre : bytes) (v : view) (s : bytes) : Prop :=
  (fst v + snd v <= length pre)%nat /\ view_bytes pre v = s.

Definition shows (pre : bytes) (p : view * view) (kv : bytes * bytes) : Prop :=
  view_shows pre (fst p) (fst kv) /\ view_shows pre (snd p) (snd kv).

Lemma view_shows_app pre post v s : view_shows pre v s -> view_shows (pre ++ post) v s.
Proof.
  intros [Hv Hs]. split; [rewrite length_app; lia|]. by rewrite view_prefix.
Qed.

Lemma shows_app pre post ps acc :
  Forall2 (shows pre) ps acc -> Forall2 (shows (pre ++ post)) ps acc.
Proof.
  intros H. eapply Forall2_impl; [exact H|]. intros p kv [H1 H2].
  split; by apply view_shows_app.
Qed.

Lemma view_shows_middle pre s post n :
  n = length s -> view_shows (pre ++ s ++ post) (length pre, n) s.
Proof.
  intros ->. split; cbn; [rewrite !length_app; lia|]. unfold view_bytes; cbn.
  by rewrite drop_app_length, take_app_length.
Qed.

Lemma contents_shows pre ps acc t :
  Forall2 (shows pre) ps acc -> contents (mk_params pre ps t) = acc.
Proof.
  unfold contents; cbn. induction 1 as [|p kv ps acc [[_ H1] [_ H2]] Hps IH]; [done|].
  cbn. rewrite IH, H1, H2. by destruct kv.
Qed.

(** Unescaping a part of the buffer in place. *)
Lemma inplace_part pre s post :
  exists out, (length out <= length s)%nat /\
  try_inplace_unescape_percent_encoding (pre ++ s ++ post) (length pre) (length s)
  = (pre ++ (out ++ drop (length out) s) ++ post,
     match try_unescape_percent_encoding s with Ok _ => Ok (length out) | Err e => Err e end) /\
  (forall o, try_unescape_percent_encoding s = Ok o -> o = out).
Proof.
  exists (fst (unescape_chars s 0 utf8_default false)).
  destruct (try_inplace_chars pre s post) as [Hle E]. split; [done|].
  rewrite E, try_unescape_chars, <- app_assoc.
  destruct (snd (unescape_chars s 0 utf8_default false)) as [[]|e]; cbn; (split; [done|]); by intros ? [= <-].
Qed.

(** How the loop cuts the text at the first equals sign and the separator. *)
Lemma cut_text pre k text :
  Forall (fun c => (chr "=" =? c) = false) k ->
  let buffer := pre ++ k ++ chr "=" :: text in
  let next := (length pre + length k + 1)%nat in
  find_first_of (Z.eqb (chr "=")) buffer (length pre) = Some (length pre + length k)%nat /\
  exists v tail, text = v ++ tail /\
    default (length buffer) (find_first_of is_separator buffer next) = (next + length v)%nat /\
    Forall (fun c => is_separator c = false) v /\
    match tail with [] => True | c :: _ => is_separator c = true end.
Proof.
  intros Hk buffer next. unfold find_first_of, buffer. split.
  - rewrite drop_app_length.
    assert (H : find_index (Z.eqb (chr "=")) (k ++ chr "=" :: text) = Some (length k)).
    { clear -Hk. induction Hk as [|c k Hc Hk IH]; [by cbn [app find_index]; rewrite Z.eqb_refl|].
      cbn [app find_index]. by rewrite Hc, IH. }
    by rewrite H.
  - rewrite app_assoc. replace (drop next ((pre ++ k) ++ chr "=" :: text)) with text.
    2: { unfold next. replace (length pre + length k + 1)%nat with (length (pre ++ k) + 1)%nat
           by (rewrite length_app; lia). rewrite <- drop_drop, drop_app_length. done. }
    destruct (find_index is_separator text) as [i|] eqn:E.
    + destruct (find_index_Some _ _ _ E) as (v & c & tail & -> & <- & Hc & Hv).
      exists v, (c :: tail). done.
    + exists text, []. rewrite app_nil_r. split_and!; [done| |by apply find_index_None|done].
      cbn. unfold next. rewrite !length_app. cbn. lia.
Qed.

(** One iteration on a pair: the buffer after it starts with [pre3], in which the
    views of the pair and all the earlier ones show what they should. *)
Lemma loop_pair fuel pre k v tail ps :
  Forall (fun c => (chr "=" =? c) = false) k ->
  Forall (fun c => is_separator c = false) v ->
  match tail with [] => True | c :: _ => is_separator c = true end ->
  let buffer := pre ++ k ++ chr "=" :: v ++ tail in
  let next := (length pre + length k + 1)%nat in
  default (length buffer) (find_first_of is_separator buffer next) = (next + length v)%nat ->
  match try_unescape_percent_encoding k, try_unescape_percent_encoding v with
  | Err e, _ => parse_query_loop (S fuel) buffer ps (length pre) = Some (Err (unescape_failed e))
  | Ok _, Err e => parse_query_loop (S fuel) buffer ps (length pre) = Some (Err (unescape_failed e))
  | Ok key, Ok value => exists pre3 kv vv,
      parse_query_loop (S fuel) buffer ps (length pre)
      = parse_query_loop fuel (pre3 ++ List.tl tail) (ps ++ [(kv, vv)]) (next + length v + 1) /\
      length pre3 = (next + length v + length (take 1 tail))%nat /\
      view_shows pre3 kv key /\ view_shows pre3 vv value /\
      (forall p kv', shows pre p kv' -> shows pre3 p kv')
  end.
Proof.
  intros Hk Hv Htail buffer next Hsep.
  destruct (cut_text pre k (v ++ tail) Hk) as [Hfind _].
  cbn [parse_query_loop].
  rewrite (proj2 (Nat.ltb_lt _ _)) by (unfold buffer; rewrite !length_app; cbn; lia).
  fold buffer in Hfind. rewrite Hfind. fold next. rewrite Hsep.
  replace (length pre + length k - length pre)%nat with (length k) by lia.
  replace (next + length v - next)%nat with (length v) by lia.
  destruct (inplace_part pre k (chr "=" :: v ++ tail)) as (ko & Hko & E & Hkeq).
  unfold buffer. rewrite E. clear E.
  destruct (try_unescape_percent_encoding k) as [key|e]; cbn [lift_failure]; [|done].
  rewrite (Hkeq key eq_refl) in *. clear Hkeq.
  set (pre2 := pre ++ (ko ++ drop (length ko) k) ++ [chr "="]).
  assert (Hpre2 : length pre2 = next).
  { unfold pre2, next. rewrite !length_app, length_drop. cbn. lia. }
  replace (pre ++ (ko ++ drop (length ko) k) ++ chr "=" :: v ++ tail) with (pre2 ++ v ++ tail)
    by (unfold pre2; by rewrite <- !app_assoc).
  rewrite <- Hpre2. destruct (inplace_part pre2 v tail) as (vo & Hvo & -> & Hveq).
  destruct (try_unescape_percent_encoding v) as [value|e]; cbn [lift_failure]; [|done].
  rewrite (Hveq value eq_refl) in *. clear Hveq.
  exists (pre2 ++ (vo ++ drop (length vo) v) ++ take 1 tail), (length pre, length ko),
    (length pre2, length vo). split_and!.
  - rewrite <- !app_assoc. by destruct tail.
  - rewrite !length_app, length_drop. lia.
  - unfold pre2. rewrite <- !app_assoc. by apply (view_shows_middle pre ko).
  - rewrite <- !app_assoc. by apply (view_shows_middle pre2 vo).
  - intros p kv' [H1 H2]. unfold pre2. rewrite <- !app_assoc. split; by apply view_shows_app.
Qed.

Lemma loop_no_eq fuel pre text ps :
  text <> [] -> length pre <> 0%nat -> chr "=" ∉ text ->
  parse_query_loop (S fuel) (pre ++ text) ps (length pre) = Some (Err (no_eq_symbol_from (length pre))).
Proof.
  intros Hne Hz Hn. cbn [parse_query_loop]. destruct text as [|c text]; [done|].
  rewrite (proj2 (Nat.ltb_lt _ _)) by (rewrite length_app; cbn; lia).
  unfold find_first_of. rewrite drop_app_length.
  destruct (find_index _ (c :: text)) as [j|] eqn:Hj.
  - destruct (find_index_Some _ _ _ Hj) as (s1 & d & s2 & Ht & _ & Hd & _).
    exfalso. apply Hn. apply Z.eqb_eq in Hd as <-. rewrite Ht.
    apply elem_of_app. right. apply elem_of_cons. by left.
  - cbn. by rewrite (proj2 (Nat.eqb_neq _ _)) by done.
Qed.

Lemma parse_query_loop_correct fuel pre text ps acc pos :
  (length text < fuel)%nat ->
  (pos = length pre \/ (text = [] /\ (length pre <= pos)%nat)) ->
  (pos <> 0%nat \/ chr "=" ∈ text \/ text = []) ->
  Forall2 (shows pre) ps acc ->
  exists r, parses pos text r /\
    match r with
    | Err e => parse_query_loop fuel (pre ++ text) ps pos = Some (Err e)
    | Ok l => exists q, parse_query_loop fuel (pre ++ text) ps pos = Some (Ok q) /\
                        contents q = acc ++ l /\ m_tag q = None
    end.
Proof.
  revert pre text ps acc pos.
  induction fuel as [|fuel IH]; intros pre text ps acc pos Hf Hpos Hz Hps; [lia|].
  destruct (decide (text = [])) as [->|Hne].
  { exists (Ok []). split; [constructor|]. rewrite !app_nil_r. cbn [parse_query_loop].
    rewrite (proj2 (Nat.ltb_ge _ _)) by (destruct Hpos as [|[_ ?]]; lia).
    eexists. split; [reflexivity|]. split; [by apply contents_shows|done]. }
  destruct Hpos as [->|[? _]]; [|done].
  destruct (find_index (Z.eqb (chr "=")) text) as [i|] eqn:Hi.
  2: { apply find_index_None, not_eq_char in Hi. exists (Err (no_eq_symbol_from (length pre))).
       split; [by constructor|]. apply loop_no_eq; [done| |done]. tauto. }
  destruct (find_index_Some _ _ _ Hi) as (k & c & rest & -> & _ & Hc & Hk).
  apply Z.eqb_eq in Hc as <-. clear Hi Hz Hne.
  destruct (cut_text pre k rest Hk) as (_ & v & tail & -> & Hsep & Hv & Htail).
  pose proof (loop_pair fuel pre k v tail ps Hk Hv Htail Hsep) as Hstep.
  apply not_eq_char in Hk.
  destruct (try_unescape_percent_encoding k) as [key|e] eqn:Hkey.
  2: { exists (Err (unescape_failed e)). split; [by constructor|done]. }
  destruct (try_unescape_percent_encoding v) as [value|e] eqn:Hval.
  2: { exists (Err (unescape_failed e)). split; [by eapply parses_bad_value|done]. }
  destruct Hstep as (pre3 & kv & vv & -> & Hpre3 & Hkv & Hvv & Hkeep).
  destruct (IH pre3 (List.tl tail) (ps ++ [(kv, vv)]) (acc ++ [(key, value)])
              (length pre + length k + 1 + length v + 1)%nat) as (r & Hr & Hrun).
  - rewrite !length_app in Hf. cbn in Hf. rewrite length_app in Hf. destruct tail; cbn in *; lia.
  - rewrite Hpre3. destruct tail; cbn; [right; split; [done|lia]|left; rewrite take_0; cbn; lia].
  - left. lia.
  - apply Forall2_app; [|by constructor].
    eapply Forall2_impl; [exact Hps|]. apply Hkeep.
  - exists (rest ← r; Ok ((key, value) :: rest)). split; [by eapply parses_pair|].
    destruct r as [l|e]; cbn; [|done]. destruct Hrun as (q & Hq & Hcon & Ht').
    exists q. split; [done|split; [|done]]. by rewrite Hcon, <- app_assoc.
Qed.

(** C29 (refinement). For every query string [try_parse_query] returns, and what
    it returns is described by a grammar on the immutable text: either all the
    [key=value] pairs, in order, where the views into the shared buffer show the
    unescaped names and values although the buffer was overwritten while it was
    parsed; or, for a text with no equals sign, the unescaped text as the tag; or
    the first error in reading order. [parse_query] throws exactly that error. *)
Theorem try_parse_query_correct text :
  exists r, try_parse_query text = Some r /\ parse_promise text r /\ parse_query text = Some r.
Proof.
  assert (H : exists r, try_parse_query text = Some r /\ parse_promise text r).
  { destruct text as [|c text0] eqn:Et.
    { eexists. split; [reflexivity|]. apply (promise_pairs _ []); [by left|constructor|done|done]. }
    unfold try_parse_query. rewrite <- Et.
    destruct (decide (chr "=" ∈ text)) as [Hin|Hn].
    - destruct (parse_query_loop_correct (S (length text)) [] text [] [] 0) as (r & Hr & Hrun);
        [lia|by left|by right; left|constructor|].
      destruct r as [l|e].
      + destruct Hrun as (q & Hq & Hc & Ht). exists (Ok q). split; [done|].
        by apply (promise_pairs _ l); [right| | |].
      + exists (Err e). split; [done|]. by apply promise_pairs_failure.
    - cbn [parse_query_loop]. rewrite (proj2 (Nat.ltb_lt _ _)) by (rewrite Et; cbn; lia).
      assert (E : find_first_of (Z.eqb (chr "=")) text 0 = None).
      { unfold find_first_of. rewrite drop_0.
        destruct (find_index (Z.eqb (chr "=")) text) as [j|] eqn:Hj; [|done].
        destruct (find_index_Some _ _ _ Hj) as (s1 & d & s2 & Ht & _ & Hd & _).
        exfalso. apply Hn. apply Z.eqb_eq in Hd as <-. rewrite Ht.
        apply elem_of_app. right. apply elem_of_cons. by left. }
      rewrite E, Nat.sub_0_r. cbn [negb Nat.eqb].
      destruct (inplace_part [] text []) as (out & Hle & Ho & Heq).
      rewrite !app_nil_r in Ho. cbn [app length] in Ho. rewrite Ho.
      destruct (try_unescape_percent_encoding text) as [t|e] eqn:Hu; cbn.
      + pose proof (Heq t eq_refl) as ->. eexists. split; [reflexivity|].
        eapply promise_tag; [by rewrite Et|done|done| |done].
        cbn. unfold view_bytes; cbn. by rewrite drop_0, take_app_length.
      + eexists. split; [reflexivity|]. apply promise_tag_failure; [by rewrite Et|done|done]. }
  destruct H as (r & H1 & H2). exists r. split_and!; [done..|].
  unfold parse_query. rewrite H1. by destruct r.
Qed.

(** ** The grammar is unambiguous *)

Lemma cut_eq_unique k t k' t' :
  chr "=" ∉ k -> chr "=" ∉ k' -> k ++ chr "=" :: t = k' ++ chr "=" :: t' -> k = k' /\ t = t'.
Proof.
  revert k'. induction k as [|c k IH]; intros [|c' k'] Hk Hk' E; cbn in E.
  - by injection E.
  - injection E as <- _. exfalso. apply Hk', elem_of_cons. by left.
  - injection E as -> _. exfalso. apply Hk, elem_of_cons. by left.
  - injection E as -> E. rewrite elem_of_cons in Hk, Hk'.
    destruct (IH k') as [-> ->]; tauto.
Qed.

Definition at_separator (tail : bytes) : Prop :=
  match tail with [] => True | c :: _ => is_separator c = true end.

Lemma cut_separator_unique v t v' t' :
  Forall (fun c => is_separator c = false) v -> Forall (fun c => is_separator c = false) v' ->
  at_separator t -> at_separator t' -> v ++ t = v' ++ t' -> v = v' /\ t = t'.
Proof.
  intros Hv. revert v'. induction Hv as [|c v Hc Hv IH]; intros v' Hv' Ht Ht' E.
  - destruct Hv' as [|c' v' Hc' _]; [done|]. cbn in E. subst t. cbn in Ht. congruence.
  - destruct Hv' as [|c' v' Hc' Hv']; cbn in E; [subst t'; cbn in Ht'; congruence|].
    injection E as -> E. by destruct (IH v' Hv' Ht Ht' E) as [-> ->].
Qed.

Lemma parses_det pos text r r' : parses pos text r -> parses pos text r' -> r = r'.
Proof.
  assert (Hin : forall k t, chr "=" ∈ k ++ chr "=" :: t)
    by (intros; apply elem_of_app; right; apply elem_of_cons; by left).
  intros H. revert r'.
  induction H as [pos|pos text Hne Hn|pos k text e Hk Hke|pos k key v tail e Hk Hke Hv Ht Hve
    |pos k key v value tail r Hk Hke Hv Ht Hve Hr IH]; intros r' H'.
  - inversion H'; subst; try done; by destruct k.
  - inversion H'; subst; try done; exfalso; by eapply Hn, Hin.
  - inversion H'; subst; [by destruct k|exfalso; by eapply H0, Hin|..];
      match goal with E : _ ++ _ = _ ++ _ |- _ => apply cut_eq_unique in E as [-> _]; [|done..] end;
      congruence.
  - inversion H'; subst; [by destruct k|exfalso; by eapply H0, Hin|..];
      match goal with E : _ ++ _ = _ ++ _ |- _ => apply cut_eq_unique in E as [-> E]; [|done..] end;
      try congruence;
      match goal with E : _ ++ _ = _ ++ _ |- _ => apply cut_separator_unique in E as [-> ->]; [|done..] end;
      congruence.
  - inversion H'; subst; [by destruct k|exfalso; by eapply H0, Hin|..];
      match goal with E : _ ++ _ = _ ++ _ |- _ => apply cut_eq_unique in E as [-> E]; [|done..] end;
      try congruence;
      match goal with E : _ ++ _ = _ ++ _ |- _ => apply cut_separator_unique in E as [-> ->]; [|done..] end;
      [congruence|].
    match goal with E : parses _ _ _ |- _ => apply IH in E as -> end.
    replace key0 with key by congruence. by replace value0 with value by congruence.
Qed.
End Parser.

(** ** Round trip *)

Section QueryRoundTrip.
Context {P : ParseTraits} `{!UnescapeTraitsLaws pt_unescape} (char_is_signed : bool) (fmt_02X : Z -> bytes).
Abbreviation escape := (escape_percent_encoding char_is_signed fmt_02X).

(** A query string written from its pairs. *)
Definition print_pair (kv : bytes * bytes) : bytes :=
  escape (fst kv) ++ chr "=" :: escape (snd kv).

Fixpoint print_query (l : list (bytes * bytes)) : bytes :=
  match l with
  | [] => []
  | [kv] => print_pair kv
  | kv :: l' => print_pair kv ++ chr "&" :: print_query l'
  end.

(** What the traits must escape, and what [fmt] is trusted with. *)
Hypothesis eq_not_ordinary : ordinary_char (chr "=") = false.
Hypothesis plus_not_ordinary : ordinary_char (chr "+") = false.
Hypothesis separators : forall c, is_separator c = true -> c = chr "&" \/ c = chr ";".
Hypothesis separators_not_ordinary : forall c, is_separator c = true -> ordinary_char c = false.
Hypothesis ampersand_separates : is_separator (chr "&") = true.
Hypothesis fmt_hex : hex_of_byte fmt_02X.

(** Texts that can be escaped and unescaped. *)
Definition text_ok (s : bytes) : Prop := well_formed_utf8 s /\ (char_is_signed = true -> Forall (fun b => b < 128) s).

(** A character that can occur in an escaped text. *)
Lemma escaped_char c s :
  text_ok s -> c ∈ escape s ->
  ordinary_char c = true \/ c = chr "%" \/ is_hexdigit c = true.
Proof using fmt_hex.
  intros [Hs%well_formed_bytes Hsg]. rewrite escape_all. induction Hs as [|b s Hb Hs IH]; cbn [mbind list_bind].
  - by intros ?%elem_of_nil.
  - rewrite elem_of_app. intros [Hc|Hc]; [|apply IH; [|done]; intros H; by apply Hsg, Forall_cons in H as [_ ?]].
    unfold escape_byte in Hc.
    destruct (ordinary_char b) eqn:Ho; [apply list_elem_of_singleton in Hc as ->; auto|].
    rewrite (fmt_char_hex char_is_signed fmt_02X (b :: s)) in Hc; [|done|by constructor|done|apply list_elem_of_here].
    unfold two_hex_digits in Hc.
    rewrite !elem_of_cons, elem_of_nil in Hc. destruct (extract_two_hex b Hb) as (H1 & H2 & _).
    destruct Hc as [-> | [-> | [-> | []]]]; auto.
Qed.

Lemma escape_avoids c s :
  text_ok s -> ordinary_char c = false -> (c = chr "%" -> False) -> is_hexdigit c = false ->
  c ∉ escape s.
Proof using fmt_hex.
  intros Hs Ho Hp Hh Hin. apply escaped_char in Hin; [|done].
  destruct Hin as [H|[H|H]]; [congruence|done|congruence].
Qed.

Lemma unescape_escape s :
  text_ok s -> try_unescape_percent_encoding (escape s) = Ok s.
Proof using All.
  intros [Hs Hsg]. pose proof (well_formed_bytes s Hs) as Hb. destruct Hs as (cps & Hcps & ->).
  rewrite try_unescape_chars, escape_all, unescape_escaped; [done|done| |done].
  intros b Hin _. by eapply fmt_char_hex.
Qed.

Lemma print_parses l pos :
  Forall (fun kv => text_ok (fst kv) /\ text_ok (snd kv)) l ->
  parses pos (print_query l) (Ok l).
Proof using All.
  intros Hl. revert pos. induction Hl as [|[k v] l [Hk Hv] Hl IH]; intros pos; [constructor|].
  cbn [fst snd] in *.
  assert (E : exists tail, print_query ((k, v) :: l) =
      escape k ++ chr "=" :: escape v ++ tail /\
      at_separator tail /\ List.tl tail = print_query l).
  { destruct l as [|kv l].
    - exists []. cbn. unfold print_pair; cbn. by rewrite app_nil_r.
    - exists (chr "&" :: print_query (kv :: l)). cbn [print_query]. unfold print_pair at 1; cbn [fst snd].
      rewrite <- app_assoc. done. }
  destruct E as (tail & -> & Htail & Htl).
  apply (parses_pair pos _ k _ v tail (Ok l)).
  - by apply escape_avoids.
  - by apply unescape_escape.
  - apply Forall_forall. intros c Hc. destruct (is_separator c) eqn:Hsep; [|done].
    exfalso. revert Hc. apply escape_avoids; [done|by apply separators_not_ordinary|..];
      destruct (separators c Hsep) as [-> | ->]; done.
  - done.
  - by apply unescape_escape.
  - rewrite Htl. apply IH.
Qed.

Lemma query_roundtrip_gen l :
  Forall (fun kv => text_ok (fst kv) /\ text_ok (snd kv)) l ->
  exists q, try_parse_query (print_query l) = Some (Ok q) /\ contents q = l /\ tag q = None.
Proof using All.
  intros Hl. destruct (decide (l = [])) as [->|Hne]; [by eexists|].
  assert (Hin : chr "=" ∈ print_query l).
  { destruct l as [|kv [|kv' l]]; [done|..]; cbn [print_query]; unfold print_pair.
    - apply elem_of_app; right; apply elem_of_cons; by left.
    - apply elem_of_app; left; apply elem_of_app; right; apply elem_of_cons; by left. }
  destruct (parse_query_loop_correct (S (length (print_query l))) [] (print_query l) [] [] 0)
    as (r & Hr & Hrun); [lia|by left|by right; left|constructor|].
  rewrite (parses_det _ _ _ _ Hr (print_parses l 0 Hl)) in Hrun.
  destruct Hrun as (q & Hq & Hc & Ht). exists q. split_and!; [|done|unfold tag; by rewrite Ht].
  unfold try_parse_query. cbn [app] in Hq.
  destruct (print_query l) eqn:E; [by apply elem_of_nil in Hin|]. exact Hq.
Qed.
End QueryRoundTrip.

(** With any of the three strict traits, a query string written
    from a list of names and values in UTF-8, each escaped, joined by equals signs
    and ampersands, is parsed back to exactly that list in that order, whatever
    characters the names and values have - separators, equals, plus and percent
    signs included - provided that [char] is unsigned, or all of them are ASCII, and that [fmt] prints
    numbers below 256 as two hexadecimal digits. *)
Theorem query_roundtrip (P : ParseTraits) char_is_signed fmt_02X l :
  (P = restinio_defaults \/ P = javascript_compatible \/ P = x_www_form_urlencoded) ->
  hex_of_byte fmt_02X -> Forall (fun kv => text_ok char_is_signed (fst kv) /\ text_ok char_is_signed (snd kv)) l ->
  exists q, try_parse_query (print_query char_is_signed fmt_02X l) = Some (Ok q) /\ contents q = l /\ tag q = None.
Proof.
  intros HP Hfmt Hl.
  assert (Hsep : forall c, ampersand_and_semicolon c = true -> c = chr "&" \/ c = chr ";")
    by (intros c Hc; apply orb_true_iff in Hc; rewrite !Z.eqb_eq in Hc; tauto).
  assert (Hamp : forall c, ampersand_only c = true -> c = chr "&" \/ c = chr ";")
    by (intros c Hc; apply Z.eqb_eq in Hc; tauto).
  destruct HP as [-> | [-> | ->]].
  - apply (@query_roundtrip_gen restinio_defaults default_laws); try done.
    intros c Hc. by destruct (Hsep c Hc) as [-> | ->].
  - apply (@query_roundtrip_gen javascript_compatible javascript_laws); try done.
    intros c Hc. by destruct (Hsep c Hc) as [-> | ->].
  - apply (@query_roundtrip_gen x_www_form_urlencoded form_laws); try done.
    intros c Hc. by destruct (Hamp c Hc) as [-> | ->].
Qed.

Lemma query_roundtrip_witness :
  exists q, @try_parse_query x_www_form_urlencoded
              (@print_query x_www_form_urlencoded false two_hex_digits [(str "a&b", str "1+1=2"); ([], [0xC3; 0xA9])])
            = Some (Ok q) /\ @contents q = [(str "a&b", str "1+1=2"); ([], [0xC3; 0xA9])].
Proof.
  destruct (query_roundtrip x_www_form_urlencoded false two_hex_digits
              [(str "a&b", str "1+1=2"); ([], [0xC3; 0xA9])]) as (q & H1 & H2 & _).
  - right. right. reflexivity.
  - done.
  - constructor; [|constructor; [|constructor]]; split.
    + split; [|done]. exists (str "a&b"). split; [|reflexivity]. repeat constructor; vm_compute; intuition congruence.
    + split; [|done]. exists (str "1+1=2"). split; [|reflexivity].
      repeat constructor; vm_compute; intuition congruence.
    + split; [|done]. exists []. split; [constructor|reflexivity].
    + split; [|done]. exists [0xE9]. split; [|reflexivity]. repeat constructor; unfold is_scalar; lia.
  - exists q. split; [exact H1|exact H2].
Defined.

(** ** Looking up parameters *)

(** The accessors agree with the list of pairs: [get_param]
    gives the value of the first pair with the name, [has] tells whether there is
    one, and [operator\[\]] gives the same value or throws with the name that was
    asked for. *)
Theorem params_lookup q key :
  get_param q key = snd <$> List.find (fun kv => bool_decide (key = fst kv)) (contents q) /\
  has q key = bool_decide (key ∈ (fst <$> contents q)) /\
  params_at q key = of_option (unable_to_find_parameter key) (get_param q key).
Proof.
  unfold get_param, has, params_at, find_parameter_with_check, find_parameter, contents.
  induction (m_parameters q) as [|p ps (IH1 & IH2 & IH3)]; [done|]. cbn.
  destruct (bool_decide (key = view_bytes (m_data_buffer q) (fst p))) eqn:E.
  - apply bool_decide_eq_true in E. split_and!; [done| |done].
    symmetry. apply bool_decide_eq_true. rewrite E. apply elem_of_cons. by left.
  - apply bool_decide_eq_false in E. split_and!; [done| |done]. rewrite IH2.
    apply bool_decide_ext. rewrite elem_of_cons. tauto.
Qed.
