(* ===== verification/WsParser.v ===== *)
(** * WebSocket frame headers

    [restinio/websocket/message.hpp] and [restinio/websocket/impl/ws_parser.hpp]:
    frame details, the incremental header parser, the serializer and the payload
    mask. An [opcode_t] is its underlying byte, since the parser casts any four
    bits to it. *)

From S2P Require Import Prelude Bitops.

(** ** Opcodes and status codes *)

Definition continuation_frame : Z := 0x00.
Definition text_frame : Z := 0x01.
Definition binary_frame : Z := 0x02.
Definition connection_close_frame : Z := 0x08.
Definition ping_frame : Z := 0x09.
Definition pong_frame : Z := 0x0A.
Definition unknown_frame : Z := 0x0F.

(*@ websocket/message.hpp 24-42 opcode_t *)
Definition opcodes_map : list (string * Z) :=
  [("continuation_frame"%string, continuation_frame); ("text_frame"%string, text_frame);
   ("binary_frame"%string, binary_frame); ("connection_close_frame"%string, connection_close_frame);
   ("ping_frame"%string, ping_frame); ("pong_frame"%string, pong_frame)].

(*@ websocket/message.hpp 44-61 opcode_to_string *)
Definition opcode_to_string (opcode : Z) : string :=
  match List.find (fun e => snd e =? opcode) opcodes_map with
  | Some (name, _) => name
  | None => "unknown_frame"%string
  end.

(*@ websocket/message.hpp 63-79 is_valid_opcode *)
Definition is_valid_opcode (opcode : Z) : bool :=
  existsb (fun e => snd e =? opcode) opcodes_map.

(*@ websocket/message.hpp 100-109 status_code_to_bin *)
Definition status_code_to_bin (code : Z) : bytes :=
  [n_bits_from 8 8 8 (wrap 16 code); n_bits_from 8 0 8 (wrap 16 code)].

(*@ websocket/message.hpp 111-126 status_code_from_bin *)
Definition status_code_from_bin (data : bytes) : Z :=
  match data with
  | b0 :: b1 :: _ =>
      let result := wrap 16 0 .| b0 in
      let result := wrap 16 (result .<< 8) in
      result .| b1
  | _ => 0
  end.

(*@ websocket/message.hpp 133-136 final_frame_flag_t *)
Inductive final_frame_flag_t : Type := final_frame | not_final_frame.

Definition is_final_frame (f : final_frame_flag_t) : bool :=
  match f with final_frame => true | not_final_frame => false end.

(** [message_t], the message a user's handler gets. *)
(*@ websocket/message.hpp 142-224 message_t *)
Record message_t : Type := mk_message {
  msg_final_flag : final_frame_flag_t;
  msg_opcode : Z;
  msg_payload : bytes }.

(*@ websocket/message.hpp 179-183 message_t::is_final *)
Definition is_final (m : message_t) : bool := is_final_frame (msg_final_flag m).

(** ** Frame details *)

(*@ websocket/impl/ws_parser.hpp 41-54 websocket constants *)
Definition websocket_max_payload_size_without_ext : Z := 125.
Definition websocket_short_ext_len_code : Z := 126.
Definition websocket_long_ext_len_code : Z := 127.
Definition bit_flag_7 : Z := 0x80.
Definition bit_flag_6 : Z := 0x40.
Definition bit_flag_5 : Z := 0x20.
Definition bit_flag_4 : Z := 0x10.
Definition opcode_mask : Z := 0x0F.
Definition payload_len_mask : Z := 0x7F.

(*@ websocket/impl/ws_parser.hpp 62-132 message_details_t *)
Record message_details_t : Type := mk_details {
  m_final_flag : bool;
  m_rsv1_flag : bool;
  m_rsv2_flag : bool;
  m_rsv3_flag : bool;
  m_opcode : Z;
  m_mask_flag : bool;
  m_payload_len : Z;
  m_ext_payload_len : Z;
  m_masking_key : Z }.

#[global] Instance details_eq_dec : EqDecision message_details_t.
Proof. solve_decision. Defined.

(*@ websocket/impl/ws_parser.hpp 65-65 message_details_t::message_details_t *)
Definition details_default : message_details_t :=
  mk_details true false false false continuation_frame false 0 0 0.

(** The two fields that [init_payload_len] sets, from their defaults. *)
(*@ websocket/impl/ws_parser.hpp 136-157 message_details_t::init_payload_len *)
Definition init_payload_len (payload_len : Z) : Z * Z :=
  if websocket_max_payload_size_without_ext <? payload_len
  then (if 0xFFFF <? payload_len then websocket_long_ext_len_code else websocket_short_ext_len_code,
        payload_len)
  else (wrap 8 payload_len, 0).

(*@ websocket/impl/ws_parser.hpp 67-75 message_details_t::message_details_t *)
Definition details (final_flag : final_frame_flag_t) (opcode payload_len : Z) : message_details_t :=
  let '(len, ext) := init_payload_len payload_len in
  mk_details (is_final_frame final_flag) false false false opcode false len ext 0.

(*@ websocket/impl/ws_parser.hpp 77-88 message_details_t::message_details_t *)
Definition details_masked (final_flag : final_frame_flag_t) (opcode payload_len masking_key : Z) :
    message_details_t :=
  let '(len, ext) := init_payload_len payload_len in
  mk_details (is_final_frame final_flag) false false false opcode true len ext masking_key.

(*@ websocket/impl/ws_parser.hpp 90-96 message_details_t::payload_len *)
Definition payload_len (m : message_details_t) : Z :=
  if websocket_max_payload_size_without_ext <? m_payload_len m
  then m_ext_payload_len m else m_payload_len m.

(*@ websocket/impl/ws_parser.hpp 98-104 message_details_t::set_masking_key *)
Definition set_masking_key (m : message_details_t) (value : Z) : message_details_t :=
  mk_details (m_final_flag m) (m_rsv1_flag m) (m_rsv2_flag m) (m_rsv3_flag m) (m_opcode m) true
    (m_payload_len m) (m_ext_payload_len m) value.

(** ** Data of an expected size *)

(*@ websocket/impl/ws_parser.hpp 165-179 expected_data_t *)
Record expected_data_t : Type := mk_expected {
  m_expected_size : nat;
  m_loaded_data : bytes }.

(*@ websocket/impl/ws_parser.hpp 181-186 expected_data_t::all_bytes_loaded *)
Definition all_bytes_loaded (e : expected_data_t) : bool :=
  (length (m_loaded_data e) =? m_expected_size e)%nat.

(** The exception of [add_byte_and_check_size]. *)
Inductive ws_exception : Type :=
| cannot_add_one_more_byte
| another_frame_is_processing
| current_state_is_empty.

#[global] Instance ws_exception_eq_dec : EqDecision ws_exception.
Proof. solve_decision. Defined.

(*@ websocket/impl/ws_parser.hpp 188-202 expected_data_t::add_byte_and_check_size *)
Definition add_byte_and_check_size (e : expected_data_t) (byte : Z) :
    result ws_exception (bool * expected_data_t) :=
  if (length (m_loaded_data e) =? m_expected_size e)%nat then Err cannot_add_one_more_byte
  else
    let e' := mk_expected (m_expected_size e) (m_loaded_data e ++ [byte]) in
    Ok (all_bytes_loaded e', e').

(*@ websocket/impl/ws_parser.hpp 204-211 expected_data_t::reset *)
Definition expected_reset (expected_size : nat) : expected_data_t := mk_expected expected_size [].

(** ** The parser *)

(*@ websocket/impl/ws_parser.hpp 319-326 ws_parser_t::state_t *)
Inductive parser_state : Type :=
| waiting_for_first_2_bytes
| waiting_for_ext_len
| waiting_for_mask_key
| state_header_parsed.

#[global] Instance parser_state_eq_dec : EqDecision parser_state.
Proof. solve_decision. Defined.

(*@ websocket/impl/ws_parser.hpp 308-329 ws_parser_t *)
Record ws_parser_t : Type := mk_parser {
  m_expected_data : expected_data_t;
  m_current_msg : message_details_t;
  m_current_state : parser_state }.

(*@ websocket/impl/ws_parser.hpp 289-299 ws_parser_t::reset *)
Definition parser_reset : ws_parser_t :=
  mk_parser (expected_reset 2) details_default waiting_for_first_2_bytes.

(*@ websocket/impl/ws_parser.hpp 282-287 ws_parser_t::header_parsed *)
Definition header_parsed (p : ws_parser_t) : bool :=
  bool_decide (m_current_state p = state_header_parsed).

(*@ websocket/impl/ws_parser.hpp 301-306 ws_parser_t::current_message *)
Definition current_message (p : ws_parser_t) : message_details_t := m_current_msg p.

(*@ websocket/impl/ws_parser.hpp 438-452 ws_parser_t::parse_first_2_bytes *)
Definition parse_first_2_bytes (m : message_details_t) (data : bytes) : message_details_t :=
  let d0 := nth 0 data 0 in
  let d1 := nth 1 data 0 in
  mk_details (negb (d0 .& bit_flag_7 =? 0)) (negb (d0 .& bit_flag_6 =? 0))
    (negb (d0 .& bit_flag_5 =? 0)) (negb (d0 .& bit_flag_4 =? 0))
    (d0 .& opcode_mask) (negb (d1 .& bit_flag_7 =? 0)) (d1 .& payload_len_mask)
    (m_ext_payload_len m) (m_masking_key m).

(*@ websocket/impl/ws_parser.hpp 454-470 ws_parser_t::parse_ext_payload_len *)
Definition parse_ext_payload_len (m : message_details_t) (payload_len : Z) (data : bytes) :
    message_details_t :=
  if (payload_len =? websocket_short_ext_len_code) || (payload_len =? websocket_long_ext_len_code)
  then mk_details (m_final_flag m) (m_rsv1_flag m) (m_rsv2_flag m) (m_rsv3_flag m) (m_opcode m)
         (m_mask_flag m) (m_payload_len m) (read_number_from_big_endian_bytes 64 data)
         (m_masking_key m)
  else m.

(*@ websocket/impl/ws_parser.hpp 472-483 ws_parser_t::parse_masking_key *)
Definition parse_masking_key (m : message_details_t) (mask_flag : bool) (data : bytes) :
    message_details_t :=
  if mask_flag
  then mk_details (m_final_flag m) (m_rsv1_flag m) (m_rsv2_flag m) (m_rsv3_flag m) (m_opcode m)
         (m_mask_flag m) (m_payload_len m) (m_ext_payload_len m)
         (read_number_from_big_endian_bytes 32 data)
  else m.

(*@ websocket/impl/ws_parser.hpp 362-398 ws_parser_t::process_first_2_bytes *)
Definition process_first_2_bytes (p : ws_parser_t) : ws_parser_t :=
  let msg := parse_first_2_bytes (m_current_msg p) (m_loaded_data (m_expected_data p)) in
  let payload_len := m_payload_len msg in
  if websocket_max_payload_size_without_ext <? payload_len then
    mk_parser (expected_reset (if payload_len =? websocket_short_ext_len_code then 2 else 8)) msg
      waiting_for_ext_len
  else if m_mask_flag msg then mk_parser (expected_reset 4) msg waiting_for_mask_key
  else mk_parser (expected_reset (Z.to_nat payload_len)) msg state_header_parsed.

(*@ websocket/impl/ws_parser.hpp 400-422 ws_parser_t::process_extended_length *)
Definition process_extended_length (p : ws_parser_t) : ws_parser_t :=
  let msg := parse_ext_payload_len (m_current_msg p) (m_payload_len (m_current_msg p))
               (m_loaded_data (m_expected_data p)) in
  if m_mask_flag msg then mk_parser (expected_reset 4) msg waiting_for_mask_key
  else mk_parser (m_expected_data p) msg state_header_parsed.

(*@ websocket/impl/ws_parser.hpp 424-436 ws_parser_t::process_masking_key *)
Definition process_masking_key (p : ws_parser_t) : ws_parser_t :=
  mk_parser (m_expected_data p)
    (parse_masking_key (m_current_msg p) (m_mask_flag (m_current_msg p))
       (m_loaded_data (m_expected_data p))) state_header_parsed.

(*@ websocket/impl/ws_parser.hpp 331-360 ws_parser_t::process_byte *)
Definition process_byte (p : ws_parser_t) (byte : Z) : result ws_exception ws_parser_t :=
  '(loaded, e) ← add_byte_and_check_size (m_expected_data p) byte;
  let p := mk_parser e (m_current_msg p) (m_current_state p) in
  Ok (if loaded : bool then
        match m_current_state p with
        | waiting_for_first_2_bytes => process_first_2_bytes p
        | waiting_for_ext_len => process_extended_length p
        | waiting_for_mask_key => process_masking_key p
        | state_header_parsed => p
        end
      else p).

(** The number of parsed bytes and the parser. *)
(*@ websocket/impl/ws_parser.hpp 263-280 ws_parser_t::parser_execute *)
Fixpoint parser_execute (p : ws_parser_t) (data : bytes) : result ws_exception (nat * ws_parser_t) :=
  match data with
  | [] => Ok (0%nat, p)
  | byte :: data' =>
      if bool_decide (m_current_state p = state_header_parsed) then Ok (0%nat, p)
      else
        p' ← process_byte p byte;
        '(parsed_bytes, p'') ← parser_execute p' data';
        Ok (S parsed_bytes, p'')
  end.

(** ** Masking *)

(** The array [mask\[ MASK_SIZE \]]. *)
Definition mask_bytes (masking_key : Z) : bytes :=
  [n_bits_from 8 24 8 masking_key; n_bits_from 8 16 8 masking_key;
   n_bits_from 8 8 8 masking_key; n_bits_from 8 0 8 masking_key].

(** The two loops: [j] runs through the mask while [i] runs through the payload. *)
Fixpoint mask_loop (mask : bytes) (j : nat) (payload : bytes) : bytes :=
  match payload with
  | [] => []
  | b :: payload' =>
      (b .^ nth j mask 0) :: mask_loop mask (if (S j <? 4)%nat then S j else 0) payload'
  end.

(*@ websocket/impl/ws_parser.hpp 486-508 mask_unmask_payload *)
Definition mask_unmask_payload (masking_key : Z) (payload : bytes) : bytes :=
  mask_loop (mask_bytes masking_key) 0 payload.

(** ** The serializer *)

Definition flag_bit (b : bool) (bit : Z) : Z := if b then bit else 0.

(*@ websocket/impl/ws_parser.hpp 510-579 write_message_details *)
Definition write_message_details (message : message_details_t) : bytes :=
  let byte := 0x00 .| flag_bit (m_final_flag message) bit_flag_7 .|
    flag_bit (m_rsv1_flag message) bit_flag_6 .| flag_bit (m_rsv2_flag message) bit_flag_5 .|
    flag_bit (m_rsv3_flag message) bit_flag_4 .| (m_opcode message .& opcode_mask) in
  let byte2 := 0x00 .| flag_bit (m_mask_flag message) bit_flag_7 in
  let length := m_payload_len message in
  [byte] ++
  (if length <? websocket_short_ext_len_code then [byte2 .| length]
   else if length =? websocket_short_ext_len_code then
     (byte2 .| websocket_short_ext_len_code) ::
     write_number_to_big_endian_bytes 2 (m_ext_payload_len message)
   else if length =? websocket_long_ext_len_code then
     (byte2 .| websocket_long_ext_len_code) ::
     write_number_to_big_endian_bytes 8 (m_ext_payload_len message)
   else []) ++
  (if m_mask_flag message then
     let key := m_masking_key message in
     [n_bits_from 8 24 8 key; n_bits_from 8 16 8 key; n_bits_from 8 8 8 key; n_bits_from 8 0 8 key]
   else []).

(*@ websocket/impl/ws_parser.hpp 581-593 write_message_details *)
Definition write_message_details_of (final_flag : final_frame_flag_t) (opcode payload_len : Z) : bytes :=
  write_message_details (details final_flag opcode payload_len).

(*@ websocket/impl/ws_parser.hpp 595-608 write_message_details *)
Definition write_message_details_masked (final_flag : final_frame_flag_t)
    (opcode payload_len masking_key : Z) : bytes :=
  write_message_details (details_masked final_flag opcode payload_len masking_key).

(** ** Loading an expected number of bytes *)

(** The part of [process_byte] after the last expected byte. *)
Definition process_loaded (p : ws_parser_t) : ws_parser_t :=
  match m_current_state p with
  | waiting_for_first_2_bytes => process_first_2_bytes p
  | waiting_for_ext_len => process_extended_length p
  | waiting_for_mask_key => process_masking_key p
  | state_header_parsed => p
  end.

Definition add_parsed (n : nat) (r : result ws_exception (nat * ws_parser_t)) :=
  '(k, p) ← r; Ok ((n + k)%nat, p).

Lemma parser_execute_load n l m s data rest :
  s <> state_header_parsed -> data <> [] -> (length l + length data = n)%nat ->
  parser_execute (mk_parser (mk_expected n l) m s) (data ++ rest)
  = add_parsed (length data)
      (parser_execute (process_loaded (mk_parser (mk_expected n (l ++ data)) m s)) rest).
Proof.
  intros Hs. revert l. induction data as [|b data IH]; intros l Hne Hlen; [done|].
  cbn [app parser_execute m_current_state]. rewrite bool_decide_eq_false_2 by done.
  unfold process_byte, add_byte_and_check_size; cbn [m_expected_data m_loaded_data m_expected_size].
  cbn [length] in Hlen. rewrite (proj2 (Nat.eqb_neq _ _)) by lia. cbn [mbind result_bind].
  unfold all_bytes_loaded; cbn [m_loaded_data m_expected_size]. rewrite length_app; cbn [length].
  destruct data as [|b' data].
  - cbn [length] in Hlen. rewrite (proj2 (Nat.eqb_eq _ _)) by lia. done.
  - cbn [length] in Hlen. rewrite (proj2 (Nat.eqb_neq _ _)) by lia.
    cbn [m_current_msg m_current_state]. rewrite IH; [|done|rewrite length_app; cbn; lia].
    rewrite <- app_assoc. unfold add_parsed. cbn [app].
    destruct (parser_execute _ rest) as [[k p]|e]; done.
Qed.

Lemma parser_execute_stop e m data :
  parser_execute (mk_parser e m state_header_parsed) data
  = Ok (0%nat, mk_parser e m state_header_parsed).
Proof. by destruct data. Qed.

(** ** Round trip *)

(** Details that have a wire form: four-bit opcode, a length code with a length
    of its width, and a key only when there is a mask. *)
Definition details_wf (m : message_details_t) : Prop :=
  0 <= m_opcode m < 16 /\
  ((0 <= m_payload_len m < 126 /\ m_ext_payload_len m = 0) \/
   (m_payload_len m = 126 /\ 0 <= m_ext_payload_len m < 2 ^ 16) \/
   (m_payload_len m = 127 /\ 0 <= m_ext_payload_len m < 2 ^ 64)) /\
  0 <= m_masking_key m < 2 ^ 32 /\ (m_mask_flag m = false -> m_masking_key m = 0).

Definition first_byte (f r1 r2 r3 : bool) (opcode : Z) : Z :=
  0x00 .| flag_bit f bit_flag_7 .| flag_bit r1 bit_flag_6 .| flag_bit r2 bit_flag_5 .|
  flag_bit r3 bit_flag_4 .| (opcode .& opcode_mask).

Lemma first_byte_bits f r1 r2 r3 opcode :
  0 <= opcode < 16 ->
  let d0 := first_byte f r1 r2 r3 opcode in
  negb (d0 .& bit_flag_7 =? 0) = f /\ negb (d0 .& bit_flag_6 =? 0) = r1 /\
  negb (d0 .& bit_flag_5 =? 0) = r2 /\ negb (d0 .& bit_flag_4 =? 0) = r3 /\
  d0 .& opcode_mask = opcode.
Proof.
  intros Ho. assert (In opcode (seqZ 0 16)) as Hin
    by (apply list_elem_of_In, elem_of_seqZ; lia).
  cbn in Hin. repeat destruct Hin as [<-|Hin]; [..|done];
    destruct f, r1, r2, r3; vm_compute; split_and!; reflexivity.
Qed.

Lemma second_byte_bits mask len :
  0 <= len < 128 ->
  let d1 := (0x00 .| flag_bit mask bit_flag_7) .| len in
  negb (d1 .& bit_flag_7 =? 0) = mask /\ d1 .& payload_len_mask = len.
Proof.
  intros Hl d1.
  assert (H : forallb (fun l => let d1 := (0x00 .| flag_bit mask bit_flag_7) .| l in
     Bool.eqb (negb (d1 .& bit_flag_7 =? 0)) mask && (d1 .& payload_len_mask =? l)) (seqZ 0 128) = true)
    by (destruct mask; vm_compute; reflexivity).
  rewrite forallb_forall in H.
  assert (In len (seqZ 0 128)) as Hin by (apply list_elem_of_In, elem_of_seqZ; lia).
  specialize (H len Hin). apply andb_true_iff in H as [H1 H2]. split; [by apply eqb_prop|by apply Z.eqb_eq].
Qed.

Lemma write_shape m :
  details_wf m ->
  let ext := if m_payload_len m =? 126 then write_number_to_big_endian_bytes 2 (m_ext_payload_len m)
             else if m_payload_len m =? 127 then write_number_to_big_endian_bytes 8 (m_ext_payload_len m)
             else [] in
  let key := if m_mask_flag m then write_number_to_big_endian_bytes 4 (m_masking_key m) else [] in
  write_message_details m
  = [first_byte (m_final_flag m) (m_rsv1_flag m) (m_rsv2_flag m) (m_rsv3_flag m) (m_opcode m);
     (0x00 .| flag_bit (m_mask_flag m) bit_flag_7) .| m_payload_len m] ++ ext ++ key.
Proof.
  intros (_ & Hlen & _ & _). cbv zeta. unfold write_message_details.
  assert (Hkey : forall key, [n_bits_from 8 24 8 key; n_bits_from 8 16 8 key; n_bits_from 8 8 8 key;
      n_bits_from 8 0 8 key] = write_number_to_big_endian_bytes 4 key).
  { intros key. rewrite !n_bits_from_spec by (done || lia). rewrite !write_be_S. done. }
  rewrite Hkey. unfold first_byte, websocket_short_ext_len_code, websocket_long_ext_len_code.
  destruct Hlen as [[Hl _]|[[Hl _]|[Hl _]]].
  - rewrite (proj2 (Z.ltb_lt _ _)), !(proj2 (Z.eqb_neq _ _)) by lia. done.
  - rewrite Hl. done.
  - rewrite Hl. done.
Qed.

Lemma parse_ext m ext m' s rest :
  m_payload_len m = 126 \/ m_payload_len m = 127 ->
  0 <= ext < 256 ^ Z.of_nat (if m_payload_len m =? 126 then 2 else 8) ->
  s = waiting_for_ext_len ->
  m' = mk_details (m_final_flag m) (m_rsv1_flag m) (m_rsv2_flag m) (m_rsv3_flag m) (m_opcode m)
         (m_mask_flag m) (m_payload_len m) ext (m_masking_key m) ->
  let n := if m_payload_len m =? 126 then 2%nat else 8%nat in
  let data := write_number_to_big_endian_bytes n ext in
  exists e', 
  parser_execute (mk_parser (expected_reset n) m s) (data ++ rest)
  = add_parsed n (parser_execute
      (if m_mask_flag m then mk_parser (expected_reset 4) m' waiting_for_mask_key
       else mk_parser e' m' state_header_parsed) rest).
Proof.
  intros Hc Hr -> -> n data. exists (mk_expected n data).
  assert (Hdata : length data = n) by apply write_be_length.
  unfold expected_reset at 1. rewrite parser_execute_load; [|done| |cbn; lia].
  2: { intros E. rewrite E in Hdata. unfold n in Hdata. by destruct (_ =? 126). }
  rewrite Hdata. do 2 f_equal. unfold process_loaded, process_extended_length, parse_ext_payload_len.
  cbn [m_current_state m_current_msg m_expected_data m_loaded_data app].
  assert (Ht : (m_payload_len m =? websocket_short_ext_len_code) ||
               (m_payload_len m =? websocket_long_ext_len_code) = true).
  { apply orb_true_iff. rewrite !Z.eqb_eq. exact Hc. }
  rewrite Ht. unfold data. rewrite read_be_value, be_value_write by (lia || apply write_be_is_bytes).
  rewrite Z.mod_small by done. rewrite wrap_small; [by destruct (m_mask_flag m)|].
  destruct (_ =? 126); cbn in Hr; lia.
Qed.

Lemma parse_key m key rest :
  m_mask_flag m = true -> 0 <= key < 2 ^ 32 ->
  exists e,
  parser_execute (mk_parser (expected_reset 4) m waiting_for_mask_key)
    (write_number_to_big_endian_bytes 4 key ++ rest)
  = Ok (4%nat, mk_parser e
      (mk_details (m_final_flag m) (m_rsv1_flag m) (m_rsv2_flag m) (m_rsv3_flag m) (m_opcode m)
         (m_mask_flag m) (m_payload_len m) (m_ext_payload_len m) key) state_header_parsed).
Proof.
  intros Hm Hk. unfold expected_reset. rewrite parser_execute_load; [|done|done|done].
  unfold process_loaded, process_masking_key, parse_masking_key.
  cbn [m_current_state m_current_msg m_expected_data m_loaded_data app].
  rewrite Hm, read_be_value, be_value_write by (lia || apply write_be_is_bytes).
  rewrite Z.mod_small, wrap_small, write_be_length by (change (256 ^ Z.of_nat 4) with (2 ^ 32); lia).
  rewrite parser_execute_stop. by eexists.
Qed.

(** The details after the first two bytes: no extended length, no key yet. *)
Definition without_ext (m : message_details_t) : message_details_t :=
  mk_details (m_final_flag m) (m_rsv1_flag m) (m_rsv2_flag m) (m_rsv3_flag m) (m_opcode m)
    (m_mask_flag m) (m_payload_len m) 0 0.

Lemma parse_first_two m rest :
  0 <= m_opcode m < 16 -> 0 <= m_payload_len m < 128 ->
  parser_execute parser_reset
    ([first_byte (m_final_flag m) (m_rsv1_flag m) (m_rsv2_flag m) (m_rsv3_flag m) (m_opcode m);
      (0x00 .| flag_bit (m_mask_flag m) bit_flag_7) .| m_payload_len m] ++ rest)
  = add_parsed 2 (parser_execute
      (if 125 <? m_payload_len m
       then mk_parser (expected_reset (if m_payload_len m =? 126 then 2 else 8)) (without_ext m)
              waiting_for_ext_len
       else if m_mask_flag m then mk_parser (expected_reset 4) (without_ext m) waiting_for_mask_key
       else mk_parser (expected_reset (Z.to_nat (m_payload_len m))) (without_ext m)
              state_header_parsed) rest).
Proof.
  intros Ho Hl. unfold parser_reset. unfold expected_reset at 1.
  rewrite parser_execute_load; [|done..]. do 2 f_equal.
  unfold process_loaded, process_first_2_bytes, parse_first_2_bytes.
  cbn [m_current_state m_current_msg m_expected_data m_loaded_data app nth expected_reset].
  destruct (first_byte_bits (m_final_flag m) (m_rsv1_flag m) (m_rsv2_flag m) (m_rsv3_flag m)
              (m_opcode m) Ho) as (-> & -> & -> & -> & ->).
  destruct (second_byte_bits (m_mask_flag m) (m_payload_len m) Hl) as (-> & ->).
  reflexivity.
Qed.

(** The header parser on the wire form of a header. *)
Lemma parse_write m rest :
  details_wf m ->
  exists e, parser_execute parser_reset (write_message_details m ++ rest)
  = Ok (length (write_message_details m), mk_parser e m state_header_parsed).
Proof.
  intros Hwf. pose proof (write_shape m Hwf) as Hw. cbv zeta in Hw. rewrite Hw. clear Hw.
  destruct Hwf as (Ho & Hlen & Hkey & Hnokey).
  rewrite <- !app_assoc, parse_first_two by lia.
  set (keyb := if m_mask_flag m then write_number_to_big_endian_bytes 4 (m_masking_key m) else []).
  assert (Hmask : forall m' e0, m_mask_flag m' = m_mask_flag m -> exists e k,
    parser_execute (if m_mask_flag m then mk_parser (expected_reset 4) m' waiting_for_mask_key
                    else mk_parser e0 m' state_header_parsed) (keyb ++ rest)
    = Ok (k, mk_parser e
        (mk_details (m_final_flag m') (m_rsv1_flag m') (m_rsv2_flag m') (m_rsv3_flag m') (m_opcode m')
           (m_mask_flag m') (m_payload_len m') (m_ext_payload_len m')
           (if m_mask_flag m then m_masking_key m else m_masking_key m')) state_header_parsed) /\
    k = length keyb).
  { intros m' e0 Hm'. unfold keyb. destruct (m_mask_flag m) eqn:Hm.
    - destruct (parse_key m' (m_masking_key m) rest Hm' Hkey) as [e He].
      exists e, 4%nat. split; [done|]. by rewrite write_be_length.
    - exists e0, 0%nat. rewrite parser_execute_stop. by destruct m'. }
  destruct m as [f r1 r2 r3 opc mask len ext key]; cbn [m_opcode m_payload_len m_ext_payload_len
    m_masking_key m_mask_flag m_final_flag m_rsv1_flag m_rsv2_flag m_rsv3_flag] in *.
  assert (Hkey0 : (if mask then key else 0) = key) by (destruct mask; [done|by rewrite Hnokey]).
  destruct Hlen as [[Hl ->]|Hlen].
  - rewrite (proj2 (Z.ltb_ge 125 len)), (proj2 (Z.eqb_neq len 126)), (proj2 (Z.eqb_neq len 127)) by lia.
    destruct (Hmask (without_ext (mk_details f r1 r2 r3 opc mask len 0 key))
                (expected_reset (Z.to_nat len)) eq_refl) as (e & k & He & ->).
    cbn [app] in *. rewrite He. exists e. cbn. rewrite Hkey0. done.
  - assert (Hr : 125 < len /\ 0 <= ext < 256 ^ Z.of_nat (if len =? 126 then 2 else 8)).
    { destruct Hlen as [[-> Hr]|[-> Hr]]; cbn; lia. }
    rewrite (proj2 (Z.ltb_lt 125 len)) by lia.
    assert (Hext : (if len =? 126 then write_number_to_big_endian_bytes 2 ext
      else if len =? 127 then write_number_to_big_endian_bytes 8 ext else [])
      = write_number_to_big_endian_bytes (if len =? 126 then 2 else 8) ext).
    { destruct Hlen as [[-> _]|[-> _]]; done. }
    rewrite Hext.
    destruct (parse_ext (without_ext (mk_details f r1 r2 r3 opc mask len ext key)) ext _
                waiting_for_ext_len (keyb ++ rest) ltac:(cbn; lia) (proj2 Hr) eq_refl eq_refl) as [e0 He0].
    cbn [without_ext m_opcode m_payload_len m_ext_payload_len m_masking_key m_mask_flag m_final_flag
      m_rsv1_flag m_rsv2_flag m_rsv3_flag] in He0. rewrite He0.
    destruct (Hmask (mk_details f r1 r2 r3 opc mask len ext 0) e0 eq_refl) as (e & k & He & ->).
    rewrite He. exists e. cbn [m_final_flag m_rsv1_flag m_rsv2_flag m_rsv3_flag m_opcode m_mask_flag
      m_payload_len m_ext_payload_len m_masking_key add_parsed mbind result_bind].
    rewrite Hkey0, !length_app, write_be_length. done.
Qed.

(** C26 (roundtrip). The incremental parser, given the bytes that
    [write_message_details] produces for any details that have a wire form and
    followed by anything, consumes exactly the header and ends with those
    details; and the details that the two constructors build have a wire form for
    every payload length of 64 bits, with [payload_len()] giving the length back. *)
Theorem ws_header_roundtrip m rest flag opcode len key :
  details_wf m -> 0 <= opcode < 16 -> 0 <= len < 2 ^ 64 -> 0 <= key < 2 ^ 32 ->
  (exists p, parser_execute parser_reset (write_message_details m ++ rest)
             = Ok (length (write_message_details m), p) /\
             header_parsed p = true /\ current_message p = m) /\
  details_wf (details flag opcode len) /\ payload_len (details flag opcode len) = len /\
  details_wf (details_masked flag opcode len key) /\
  payload_len (details_masked flag opcode len key) = len.
Proof.
  intros Hm Ho Hl Hk. split.
  { destruct (parse_write m rest Hm) as [e He]. eexists. split; [exact He|]. split; [|done].
    by apply bool_decide_eq_true. }
  unfold details, details_masked, details_wf, payload_len, init_payload_len,
    websocket_max_payload_size_without_ext, websocket_long_ext_len_code, websocket_short_ext_len_code.
  destruct (Z.ltb_spec 125 len); [destruct (Z.ltb_spec 0xFFFF len)|];
    cbn; rewrite ?wrap_small by lia;
    repeat (rewrite ?(proj2 (Z.ltb_ge 125 len)) by lia); split_and!; try lia; done.
Qed.

Lemma ws_header_roundtrip_witness :
  exists p, parser_execute parser_reset
              (write_message_details (details_masked final_frame text_frame 300 0xA1B2C3D4) ++ [7; 7])
            = Ok (8%nat, p) /\
            current_message p = details_masked final_frame text_frame 300 0xA1B2C3D4.
Proof.
  destruct (ws_header_roundtrip (details_masked final_frame text_frame 300 0xA1B2C3D4) [7; 7]
              final_frame text_frame 300 0) as [(p & H1 & _ & H2) _].
  - unfold details_wf. cbn. split_and!; try first [lia|done]. right. left. split; [reflexivity|lia].
  - unfold text_frame. lia.
  - lia.
  - lia.
  - exists p. split; [exact H1|exact H2].
Defined.

(** ** Incremental parsing *)

Lemma parser_execute_app p x y :
  parser_execute p (x ++ y)
  = match parser_execute p x with
    | Err e => Err e
    | Ok (k, p') => if header_parsed p' then Ok (k, p') else add_parsed (length x) (parser_execute p' y)
    end.
Proof.
  revert p. induction x as [|b x IH]; intros p; cbn [app parser_execute length].
  - unfold header_parsed. destruct (bool_decide _) eqn:E.
    + destruct y; cbn [parser_execute]; [done|]. by rewrite E.
    + unfold add_parsed. by destruct (parser_execute p y) as [[k q]|e].
  - destruct (bool_decide (m_current_state p = state_header_parsed)) eqn:E.
    { unfold header_parsed. by rewrite E. }
    destruct (process_byte p b) as [p'|e]; cbn [mbind result_bind]; [|done].
    rewrite IH. destruct (parser_execute p' x) as [[k q]|e]; cbn [mbind result_bind]; [|done].
    destruct (header_parsed q); [done|]. unfold add_parsed.
    by destruct (parser_execute q y) as [[j q']|e].
Qed.

(** Until the header is complete there is room for one more byte. *)
Definition parser_ok (p : ws_parser_t) : Prop :=
  m_current_state p = state_header_parsed \/
  (length (m_loaded_data (m_expected_data p)) < m_expected_size (m_expected_data p))%nat.

Lemma parser_reset_ok : parser_ok parser_reset.
Proof. right. cbn. lia. Qed.

Lemma process_byte_ok p b :
  parser_ok p -> m_current_state p <> state_header_parsed ->
  exists p', process_byte p b = Ok p' /\ parser_ok p'.
Proof.
  intros [H|H] Hs; [done|]. unfold process_byte, add_byte_and_check_size.
  rewrite (proj2 (Nat.eqb_neq _ _)) by lia. cbn [mbind result_bind].
  eexists. split; [reflexivity|]. unfold all_bytes_loaded; cbn [m_loaded_data m_expected_size].
  rewrite length_app; cbn [length]. destruct (Nat.eqb_spec (length (m_loaded_data (m_expected_data p)) + 1)
    (m_expected_size (m_expected_data p))) as [E|E].
  - unfold parser_ok. cbn [m_current_state]. destruct (m_current_state p); [..|done].
    + unfold process_first_2_bytes. repeat case_match; cbn; try lia; by left.
    + unfold process_extended_length. case_match; cbn; [lia|by left].
    + unfold process_masking_key. by left.
  - right. cbn. rewrite length_app. cbn. lia.
Qed.

Lemma parser_execute_ok p data :
  parser_ok p ->
  exists k p', parser_execute p data = Ok (k, p') /\ parser_ok p' /\ (k <= length data)%nat /\
    (header_parsed p' = false -> k = length data).
Proof.
  revert p. induction data as [|b data IH]; intros p Hp; cbn [parser_execute].
  { exists 0%nat, p. done. }
  destruct (bool_decide (m_current_state p = state_header_parsed)) eqn:E.
  { exists 0%nat, p. split_and!; [done|done|lia|]. unfold header_parsed. by rewrite E. }
  apply bool_decide_eq_false in E. destruct (process_byte_ok p b Hp E) as (p1 & -> & Hp1).
  destruct (IH p1 Hp1) as (k & p2 & Hk & Hp2 & Hle & Hall). cbn [mbind result_bind]. rewrite Hk.
  exists (S k), p2. cbn. split_and!; [done|done|lia|]. intros H. f_equal. by apply Hall.
Qed.

(** Feeding the parser chunk by chunk, as the connection does, until the header
    is complete: the bytes consumed and the parser. *)
Fixpoint execute_chunks (p : ws_parser_t) (chunks : list bytes) : result ws_exception (nat * ws_parser_t) :=
  match chunks with
  | [] => Ok (0%nat, p)
  | c :: chunks' =>
      '(k, p') ← parser_execute p c;
      if header_parsed p' then Ok (k, p')
      else '(k', p'') ← execute_chunks p' chunks'; Ok ((k + k')%nat, p'')
  end.

(** Parsing does not depend on how the stream is cut into
    pieces: from any state that a new parser can reach, feeding the pieces one
    after the other until the header is complete consumes the same number of
    bytes and ends in the same state as feeding their concatenation, and the
    exception of [add_byte_and_check_size] is never thrown. *)
Theorem ws_parser_chunks p chunks :
  parser_ok p ->
  execute_chunks p chunks = parser_execute p (concat chunks) /\
  (exists k p', parser_execute p (concat chunks) = Ok (k, p') /\ parser_ok p') /\
  parser_ok parser_reset.
Proof.
  intros Hp. split_and!; [|destruct (parser_execute_ok p (concat chunks) Hp) as (k & p' & ? & ? & _); eauto
                          |apply parser_reset_ok].
  revert p Hp. induction chunks as [|c chunks IH]; intros p Hp; [done|]. cbn [execute_chunks concat].
  rewrite parser_execute_app. destruct (parser_execute_ok p c Hp) as (k & p' & -> & Hp' & _ & Hk).
  cbn [mbind result_bind]. destruct (header_parsed p') eqn:E; [done|].
  rewrite (IH p' Hp'), (Hk eq_refl). done.
Qed.

Lemma ws_parser_chunks_witness :
  execute_chunks parser_reset [[0x81]; [0xFE; 0x01]; [0x2C; 1; 2; 3; 4; 5]]
  = parser_execute parser_reset [0x81; 0xFE; 0x01; 0x2C; 1; 2; 3; 4; 5].
Proof.
  exact (proj1 (ws_parser_chunks parser_reset [[0x81]; [0xFE; 0x01]; [0x2C; 1; 2; 3; 4; 5]]
                  parser_reset_ok)).
Defined.

(** ** The mask *)

Lemma mask_loop_length mask j l : length (mask_loop mask j l) = length l.
Proof. revert j. induction l as [|b l IH]; intros j; [done|]. cbn. by rewrite IH. Qed.

Lemma mask_loop_involutive mask j l : mask_loop mask j (mask_loop mask j l) = l.
Proof.
  revert j. induction l as [|b l IH]; intros j; [done|]. cbn [mask_loop].
  rewrite Z.lxor_assoc, Z.lxor_nilpotent, Z.lxor_0_r. f_equal. apply IH.
Qed.

(** The [i]-th byte of the payload meets the [i mod 4]-th byte of the key. *)
Lemma mask_loop_lookup mask j l i :
  (j < 4)%nat ->
  mask_loop mask j l !! i = (fun b => b .^ nth ((j + i) mod 4) mask 0) <$> (l !! i).
Proof.
  revert j i. induction l as [|b l IH]; intros j i Hj; [done|]. destruct i as [|i]; cbn [mask_loop].
  - rewrite Nat.add_0_r, Nat.mod_small by done. done.
  - change ((b :: l) !! S i) with (l !! i).
    destruct (Nat.ltb_spec (S j) 4).
    + change (mask_loop mask (S j) l !! i
              = (fun b => b .^ nth ((j + S i) mod 4) mask 0) <$> (l !! i)).
      rewrite IH by done. by replace (S j + i)%nat with (j + S i)%nat by lia.
    + change (mask_loop mask 0 l !! i
              = (fun b => b .^ nth ((j + S i) mod 4) mask 0) <$> (l !! i)).
      rewrite IH by lia. replace (j + S i)%nat with (0 + i + 1 * 4)%nat by lia.
      by rewrite Nat.Div0.mod_add.
Qed.

(** Masking is an involution that keeps the length of the payload
    and combines the [i]-th byte with byte [i mod 4] of the big-endian key. *)
Theorem mask_unmask_involutive key payload i :
  mask_unmask_payload key (mask_unmask_payload key payload) = payload /\
  length (mask_unmask_payload key payload) = length payload /\
  mask_unmask_payload key payload !! i
  = (fun b => b .^ ((key / 256 ^ (3 - Z.of_nat (i mod 4))) mod 256)) <$> (payload !! i).
Proof.
  unfold mask_unmask_payload. split_and!; [apply mask_loop_involutive|apply mask_loop_length|].
  rewrite mask_loop_lookup by lia. cbn [Nat.add]. unfold mask_bytes.
  rewrite !n_bits_from_spec by (done || lia).
  pose proof (Nat.mod_upper_bound i 4 ltac:(lia)).
  destruct (i mod 4)%nat as [|[|[|[|n]]]]; [done..|lia].
Qed.

(** Status codes survive the trip through their two bytes. *)
Lemma status_code_roundtrip code :
  0 <= code < 2 ^ 16 -> status_code_from_bin (status_code_to_bin code) = code.
Proof.
  intros Hc. unfold status_code_to_bin, status_code_from_bin.
  rewrite !n_bits_from_spec, (wrap_small 16 code) by (done || lia).
  change (2 ^ 8) with 256. change (2 ^ Z.of_nat 8) with 256. change (2 ^ 0) with 1.
  change (wrap 16 0) with 0. rewrite Z.lor_0_l, Z.div_1_r.
  assert (0 <= code / 256 mod 256 < 256) by (apply Z.mod_pos_bound; lia).
  assert (0 <= code mod 256 < 256) by (apply Z.mod_pos_bound; lia).
  rewrite wrap_small by (rewrite Z.shiftl_mul_pow2 by lia; lia).
  rewrite lor_shiftl_add by lia. change (2 ^ 8) with 256. div_lia.
Qed.
