(* ===== verification/WsValidator.v ===== *)
(** * WebSocket protocol validation

    [restinio/websocket/impl/ws_protocol_validator.hpp] and [utf8.hpp]: the
    unmasker and the validator that a connection drives with the header of each
    incoming frame, the pieces of its payload and the end of the frame. *)

From S2P Require Import Prelude Bitops Utf8 WsParser.

(*@ websocket/impl/utf8.hpp 28-43 check_utf8_is_correct *)
Definition check_utf8_is_correct (sv : bytes) : bool :=
  let '(ok, checker) := process_bytes utf8_default sv in
  if ok then finalized checker else false.

(** ** States *)

(*@ websocket/impl/ws_protocol_validator.hpp 27-47 validation_state_t *)
Inductive validation_state_t : Type :=
| initial_state
| frame_header_is_valid
| payload_part_is_valid
| frame_is_valid
| invalid_opcode
| empty_mask_from_client_side
| non_final_control_frame
| non_zero_rsv_flags
| payload_len_is_too_big
| continuation_frame_without_data_frame
| new_data_frame_without_finishing_previous
| invalid_close_code
| incorrect_utf8_data.

#[global] Instance validation_state_eq_dec : EqDecision validation_state_t.
Proof. solve_decision. Defined.

(*@ websocket/impl/ws_protocol_validator.hpp 53-75 validation_state_str *)
Definition validation_state_str (state : validation_state_t) : string :=
  match state with
  | initial_state => "initial_state"
  | frame_header_is_valid => "frame_header_is_valid"
  | payload_part_is_valid => "payload_part_is_valid"
  | frame_is_valid => "frame_is_valid"
  | invalid_opcode => "invalid_opcode"
  | empty_mask_from_client_side => "empty_mask_from_client_side"
  | non_final_control_frame => "non_final_control_frame"
  | non_zero_rsv_flags => "non_zero_rsv_flags"
  | payload_len_is_too_big => "payload_len_is_too_big"
  | continuation_frame_without_data_frame => "continuation_frame_without_data_frame"
  | new_data_frame_without_finishing_previous => "new_data_frame_without_finishing_previous"
  | invalid_close_code => "invalid_close_code"
  | incorrect_utf8_data => "incorrect_utf8_data"
  end%string.

(*@ websocket/impl/ws_protocol_validator.hpp 81-92 is_control_frame *)
Definition is_control_frame (opcode : Z) : bool :=
  (opcode =? connection_close_frame) || (opcode =? ping_frame) || (opcode =? pong_frame).

(*@ websocket/impl/ws_protocol_validator.hpp 98-108 is_data_frame *)
Definition is_data_frame (opcode : Z) : bool :=
  (opcode =? text_frame) || (opcode =? binary_frame).

(** ** The unmasker *)

(*@ websocket/impl/ws_protocol_validator.hpp 164-175 unmasker_t *)
Record unmasker_t : Type := mk_unmasker {
  m_mask : bytes;
  m_processed_bytes_count : Z }.

(** The mask of a default unmasker is indeterminate; [reset] precedes its use. *)
Definition unmasker_default : unmasker_t := mk_unmasker [] 0.

(*@ websocket/impl/ws_protocol_validator.hpp 146-162 unmasker_t::reset *)
Definition unmasker_reset (masking_key : Z) : unmasker_t := mk_unmasker (mask_bytes masking_key) 0.

(*@ websocket/impl/ws_protocol_validator.hpp 136-144 unmasker_t::unmask_byte *)
Definition unmask_byte (u : unmasker_t) (masked_byte : Z) : Z * unmasker_t :=
  (masked_byte .^ nth (Z.to_nat (m_processed_bytes_count u mod 4)) (m_mask u) 0,
   mk_unmasker (m_mask u) (wrap 64 (m_processed_bytes_count u + 1))).

(** ** The validator *)

(*@ websocket/impl/ws_protocol_validator.hpp 539-546 ws_protocol_validator_t::working_state_t *)
Inductive working_state_t : Type := empty_state | processing_frame.

(*@ websocket/impl/ws_protocol_validator.hpp 548-558 ws_protocol_validator_t::previous_data_frame_t *)
Inductive previous_data_frame_t : Type := prev_none | prev_text | prev_binary.

#[global] Instance working_state_eq_dec : EqDecision working_state_t.
Proof. solve_decision. Defined.
#[global] Instance previous_data_frame_eq_dec : EqDecision previous_data_frame_t.
Proof. solve_decision. Defined.

(*@ websocket/impl/ws_protocol_validator.hpp 528-581 ws_protocol_validator_t *)
Record ws_protocol_validator_t : Type := mk_validator {
  m_validation_state : validation_state_t;
  m_working_state : working_state_t;
  m_previous_data_frame : previous_data_frame_t;
  m_current_frame : message_details_t;
  m_expected_close_code : expected_data_t;
  m_utf8_checker : utf8_checker_t;
  m_unmask_flag : bool;
  m_unmasker : unmasker_t }.

(*@ websocket/impl/ws_protocol_validator.hpp 200-203 ws_protocol_validator_t::ws_protocol_validator_t *)
Definition new_validator (do_unmask : bool) : ws_protocol_validator_t :=
  mk_validator initial_state empty_state prev_none details_default (expected_reset 0) utf8_default
    do_unmask unmasker_default.

(*@ websocket/impl/ws_protocol_validator.hpp 518-526 ws_protocol_validator_t::set_validation_state *)
Definition set_validation_state (v : ws_protocol_validator_t) (state : validation_state_t) :
    ws_protocol_validator_t :=
  mk_validator state (m_working_state v) (m_previous_data_frame v) (m_current_frame v)
    (m_expected_close_code v) (m_utf8_checker v) (m_unmask_flag v) (m_unmasker v).

Definition set_working_state (v : ws_protocol_validator_t) (w : working_state_t) :=
  mk_validator (m_validation_state v) w (m_previous_data_frame v) (m_current_frame v)
    (m_expected_close_code v) (m_utf8_checker v) (m_unmask_flag v) (m_unmasker v).

Definition set_previous_data_frame (v : ws_protocol_validator_t) (p : previous_data_frame_t) :=
  mk_validator (m_validation_state v) (m_working_state v) p (m_current_frame v)
    (m_expected_close_code v) (m_utf8_checker v) (m_unmask_flag v) (m_unmasker v).

Definition set_current_frame (v : ws_protocol_validator_t) (f : message_details_t) :=
  mk_validator (m_validation_state v) (m_working_state v) (m_previous_data_frame v) f
    (m_expected_close_code v) (m_utf8_checker v) (m_unmask_flag v) (m_unmasker v).

Definition set_close_code (v : ws_protocol_validator_t) (e : expected_data_t) :=
  mk_validator (m_validation_state v) (m_working_state v) (m_previous_data_frame v)
    (m_current_frame v) e (m_utf8_checker v) (m_unmask_flag v) (m_unmasker v).

Definition set_utf8_checker (v : ws_protocol_validator_t) (u : utf8_checker_t) :=
  mk_validator (m_validation_state v) (m_working_state v) (m_previous_data_frame v)
    (m_current_frame v) (m_expected_close_code v) u (m_unmask_flag v) (m_unmasker v).

Definition set_unmasker (v : ws_protocol_validator_t) (u : unmasker_t) :=
  mk_validator (m_validation_state v) (m_working_state v) (m_previous_data_frame v)
    (m_current_frame v) (m_expected_close_code v) (m_utf8_checker v) (m_unmask_flag v) u.

(*@ websocket/impl/ws_protocol_validator.hpp 508-516 ws_protocol_validator_t::is_state_still_valid *)
Definition is_state_still_valid (v : ws_protocol_validator_t) : bool :=
  match m_validation_state v with
  | initial_state | frame_header_is_valid | payload_part_is_valid | frame_is_valid => true
  | _ => false
  end.

(*@ websocket/impl/ws_protocol_validator.hpp 353-396 ws_protocol_validator_t::validate_frame_header *)
Definition validate_frame_header (v : ws_protocol_validator_t) (frame : message_details_t) :
    bool * ws_protocol_validator_t :=
  let v := set_validation_state v frame_header_is_valid in
  let v :=
    if negb (is_valid_opcode (m_opcode frame)) then set_validation_state v invalid_opcode
    else if is_control_frame (m_opcode frame) && negb (m_final_flag frame)
    then set_validation_state v non_final_control_frame
    else if negb (m_mask_flag frame) then set_validation_state v empty_mask_from_client_side
    else if m_rsv1_flag frame || m_rsv2_flag frame || m_rsv3_flag frame
    then set_validation_state v non_zero_rsv_flags
    else if is_control_frame (m_opcode frame) &&
            (websocket_max_payload_size_without_ext <? payload_len frame)
    then set_validation_state v payload_len_is_too_big
    else v in
  (bool_decide (m_validation_state v = frame_header_is_valid), v).

(*@ websocket/impl/ws_protocol_validator.hpp 446-481 ws_protocol_validator_t::check_previous_frame_type *)
Definition check_previous_frame_type (v : ws_protocol_validator_t) (opcode : Z) :
    bool * ws_protocol_validator_t :=
  if bool_decide (m_previous_data_frame v = prev_none) && (opcode =? continuation_frame)
  then (false, set_validation_state v continuation_frame_without_data_frame)
  else if negb (bool_decide (m_previous_data_frame v = prev_none)) && is_data_frame opcode
  then (false, set_validation_state v new_data_frame_without_finishing_previous)
  else (true, v).

(** The body of the [if] of [process_new_frame]. *)
(*@ websocket/impl/ws_protocol_validator.hpp 219-245 ws_protocol_validator_t::process_new_frame *)
Definition start_frame (v : ws_protocol_validator_t) (frame : message_details_t) :
    ws_protocol_validator_t :=
  let v :=
    if m_opcode frame =? text_frame then
      if negb (m_final_flag frame) then set_previous_data_frame v prev_text else v
    else if m_opcode frame =? binary_frame then
      if negb (m_final_flag frame) then set_previous_data_frame v prev_binary else v
    else if m_opcode frame =? connection_close_frame then set_close_code v (expected_reset 2)
    else v in
  let v := set_working_state (set_current_frame v frame) processing_frame in
  if m_unmask_flag v then set_unmasker v (unmasker_reset (m_masking_key frame)) else v.

(*@ websocket/impl/ws_protocol_validator.hpp 205-249 ws_protocol_validator_t::process_new_frame *)
Definition process_new_frame (v : ws_protocol_validator_t) (frame : message_details_t) :
    result ws_exception (validation_state_t * ws_protocol_validator_t) :=
  if negb (bool_decide (m_working_state v = empty_state)) then Err another_frame_is_processing
  else
    let '(header_ok, v) := validate_frame_header v frame in
    let '(order_ok, v) :=
      if header_ok then check_previous_frame_type v (m_opcode frame) else (false, v) in
    let v := if order_ok then start_frame v frame else v in
    Ok (m_validation_state v, v).

(*@ websocket/impl/ws_protocol_validator.hpp 483-506 ws_protocol_validator_t::validate_close_code *)
Definition validate_close_code (v : ws_protocol_validator_t) (close_code : Z) :
    ws_protocol_validator_t :=
  if (close_code <? 1000) || ((1011 <? close_code) && (close_code <? 3000)) || (4999 <? close_code)
  then set_validation_state v invalid_close_code
  else if (close_code =? 1004) || (close_code =? 1005) || (close_code =? 1006)
  then set_validation_state v invalid_close_code
  else v.

(** [if( !m_utf8_checker.process_byte( byte ) ) set_validation_state( incorrect_utf8_data )]. *)
Definition check_utf8_byte (v : ws_protocol_validator_t) (byte : Z) : ws_protocol_validator_t :=
  let '(ok, u) := Utf8.process_byte (m_utf8_checker v) byte in
  let v := set_utf8_checker v u in
  if ok then v else set_validation_state v incorrect_utf8_data.

(*@ websocket/impl/ws_protocol_validator.hpp 398-444 ws_protocol_validator_t::process_payload_byte *)
Definition process_payload_byte (v : ws_protocol_validator_t) (byte : Z) :
    result ws_exception (Z * ws_protocol_validator_t) :=
  let '(byte, v) :=
    if m_unmask_flag v
    then let '(b, u) := unmask_byte (m_unmasker v) byte in (b, set_unmasker v u)
    else (byte, v) in
  let opcode := m_opcode (m_current_frame v) in
  if (opcode =? text_frame) ||
     ((opcode =? continuation_frame) && bool_decide (m_previous_data_frame v = prev_text))
  then Ok (byte, check_utf8_byte v byte)
  else if opcode =? connection_close_frame then
    if negb (all_bytes_loaded (m_expected_close_code v)) then
      '(loaded, e) ← add_byte_and_check_size (m_expected_close_code v) byte;
      let v := set_close_code v e in
      Ok (byte, if loaded : bool
                then validate_close_code v (read_number_from_big_endian_bytes 16 (m_loaded_data e))
                else v)
    else Ok (byte, check_utf8_byte v byte)
  else Ok (byte, v).

(** The loop over the bytes of a part: it stops after the byte that makes the
    state invalid. The bytes of the part after the loop are returned too. *)
Fixpoint payload_loop (v : ws_protocol_validator_t) (data : bytes) :
    result ws_exception (bytes * ws_protocol_validator_t) :=
  match data with
  | [] => Ok ([], v)
  | b :: data' =>
      '(b', v) ← process_payload_byte v b;
      if negb (bool_decide (m_validation_state v = payload_part_is_valid)) then Ok (b' :: data', v)
      else '(rest, v) ← payload_loop v data'; Ok (b' :: rest, v)
  end.

(** The state, the part of the buffer afterwards and the validator. *)
(*@ websocket/impl/ws_protocol_validator.hpp 276-299 ws_protocol_validator_t::process_and_unmask_next_payload_part *)
Definition process_and_unmask_next_payload_part (v : ws_protocol_validator_t) (data : bytes) :
    result ws_exception (validation_state_t * bytes * ws_protocol_validator_t) :=
  if bool_decide (m_working_state v = empty_state) then Err current_state_is_empty
  else if is_state_still_valid v then
    '(data, v) ← payload_loop (set_validation_state v payload_part_is_valid) data;
    Ok (m_validation_state v, data, v)
  else Ok (m_validation_state v, data, v).

(*@ websocket/impl/ws_protocol_validator.hpp 251-274 ws_protocol_validator_t::process_next_payload_part *)
Definition process_next_payload_part (v : ws_protocol_validator_t) (data : bytes) :
    result ws_exception (validation_state_t * ws_protocol_validator_t) :=
  if bool_decide (m_working_state v = empty_state) then Err current_state_is_empty
  else if is_state_still_valid v then
    '(_, v) ← payload_loop (set_validation_state v payload_part_is_valid) data;
    Ok (m_validation_state v, v)
  else Ok (m_validation_state v, v).

(*@ websocket/impl/ws_protocol_validator.hpp 301-337 ws_protocol_validator_t::finish_frame *)
Definition finish_frame (v : ws_protocol_validator_t) : validation_state_t * ws_protocol_validator_t :=
  let v := if is_state_still_valid v then set_validation_state v frame_is_valid else v in
  let v :=
    if m_final_flag (m_current_frame v) then
      let v := if negb (finalized (m_utf8_checker v))
               then set_validation_state v incorrect_utf8_data else v in
      set_utf8_checker v (Utf8.reset (m_utf8_checker v))
    else v in
  let v := set_working_state v empty_state in
  let v :=
    if negb (bool_decide (m_previous_data_frame v = prev_none)) &&
       negb (is_control_frame (m_opcode (m_current_frame v))) && m_final_flag (m_current_frame v)
    then set_previous_data_frame v prev_none else v in
  let this_frame_validation_state := m_validation_state v in
  (this_frame_validation_state, set_validation_state v initial_state).

(*@ websocket/impl/ws_protocol_validator.hpp 339-349 ws_protocol_validator_t::reset *)
Definition reset (v : ws_protocol_validator_t) : ws_protocol_validator_t :=
  let v := set_validation_state v initial_state in
  let v := set_working_state v empty_state in
  let v := set_previous_data_frame v prev_none in
  set_utf8_checker v (Utf8.reset (m_utf8_checker v)).

(** A whole frame, as a connection drives the validator: its header, then its
    payload in the pieces in which it arrives, then the end. The payload after
    unmasking is returned with the verdict. *)
Fixpoint process_parts (v : ws_protocol_validator_t) (parts : list bytes) :
    result ws_exception (bytes * ws_protocol_validator_t) :=
  match parts with
  | [] => Ok ([], v)
  | part :: parts' =>
      '(_, data, v) ← process_and_unmask_next_payload_part v part;
      '(rest, v) ← process_parts v parts';
      Ok (data ++ rest, v)
  end.

Definition receive_frame (v : ws_protocol_validator_t) (frame : message_details_t)
    (parts : list bytes) : result ws_exception (validation_state_t * bytes * ws_protocol_validator_t) :=
  '(st, v) ← process_new_frame v frame;
  if negb (bool_decide (st = frame_header_is_valid)) then Ok (st, [], v)
  else
    '(data, v) ← process_parts v parts;
    let '(st, v) := finish_frame v in
    Ok (st, data, v).

(** ** Payload in pieces *)

(** What the bytes of a payload leave alone. *)
Definition same_frame (v v' : ws_protocol_validator_t) : Prop :=
  m_working_state v' = m_working_state v /\ m_previous_data_frame v' = m_previous_data_frame v /\
  m_current_frame v' = m_current_frame v /\ m_unmask_flag v' = m_unmask_flag v.

Lemma same_frame_refl v : same_frame v v.
Proof. done. Qed.

Lemma same_frame_trans v1 v2 v3 : same_frame v1 v2 -> same_frame v2 v3 -> same_frame v1 v3.
Proof. unfold same_frame. intuition congruence. Qed.

Lemma check_utf8_byte_frame v b :
  same_frame v (check_utf8_byte v b) /\
  (m_validation_state (check_utf8_byte v b) = m_validation_state v \/
   is_state_still_valid (check_utf8_byte v b) = false).
Proof.
  unfold check_utf8_byte. destruct (Utf8.process_byte _ b) as [[] u]; split; try done; [by left|by right].
Qed.

Lemma validate_close_code_frame v c :
  same_frame v (validate_close_code v c) /\
  (m_validation_state (validate_close_code v c) = m_validation_state v \/
   is_state_still_valid (validate_close_code v c) = false).
Proof. unfold validate_close_code. repeat case_match; split; try done; by (left + right). Qed.

Lemma process_payload_byte_frame v b :
  exists b' v', process_payload_byte v b = Ok (b', v') /\ same_frame v v' /\
  (m_validation_state v' = m_validation_state v \/ is_state_still_valid v' = false).
Proof.
  unfold process_payload_byte.
  destruct (if m_unmask_flag v then _ else _) as [b1 v1] eqn:E.
  assert (H1 : same_frame v v1 /\ m_validation_state v1 = m_validation_state v).
  { destruct (m_unmask_flag v); [destruct (unmask_byte _ b)|]; by injection E as <- <-. }
  destruct H1 as [Hs Hv].
  assert (Hfin : forall v2, same_frame v1 v2 /\
      (m_validation_state v2 = m_validation_state v1 \/ is_state_still_valid v2 = false) ->
      exists b' v', @Ok ws_exception _ (b1, v2) = Ok (b', v') /\ same_frame v v' /\
        (m_validation_state v' = m_validation_state v \/ is_state_still_valid v' = false)).
  { intros v2 [H2 H3]. rewrite Hv in H3. exists b1, v2.
    split_and!; [done|by eapply same_frame_trans|done]. }
  destruct ((_ || _) : bool); [apply Hfin, check_utf8_byte_frame|].
  destruct (_ =? connection_close_frame); [|apply Hfin; split; [apply same_frame_refl|by left]].
  destruct (all_bytes_loaded _) eqn:Hl; cbn [negb]; [apply Hfin, check_utf8_byte_frame|].
  unfold add_byte_and_check_size. unfold all_bytes_loaded in Hl. rewrite Hl. cbn [mbind result_bind].
  apply Hfin. destruct (all_bytes_loaded (mk_expected _ _)); [|split; [repeat split|by left]].
  apply (validate_close_code_frame (set_close_code v1 _)).
Qed.

Lemma payload_loop_frame v data :
  m_validation_state v = payload_part_is_valid ->
  exists d v', payload_loop v data = Ok (d, v') /\ same_frame v v' /\ length d = length data /\
  (m_validation_state v' = payload_part_is_valid \/ is_state_still_valid v' = false).
Proof.
  revert v. induction data as [|b data IH]; intros v Hv; cbn [payload_loop].
  { exists [], v. auto using same_frame_refl. }
  destruct (process_payload_byte_frame v b) as (b' & v1 & -> & Hs & Hst). cbn [mbind result_bind].
  destruct (decide (m_validation_state v1 = payload_part_is_valid)) as [E|E].
  - rewrite bool_decide_eq_true_2 by done. cbn [negb].
    destruct (IH v1 E) as (d & v2 & -> & Hs2 & Hl & Hst2). cbn [mbind result_bind].
    exists (b' :: d), v2. split_and!; [done|by eapply same_frame_trans|cbn; by rewrite Hl|done].
  - rewrite bool_decide_eq_false_2 by done. exists (b' :: data), v1.
    split_and!; [done..|]. right. by destruct Hst as [Hst|Hst]; [rewrite Hv in Hst|].
Qed.

Lemma payload_loop_app v x y :
  m_validation_state v = payload_part_is_valid ->
  payload_loop v (x ++ y)
  = ('(d, v1) ← payload_loop v x;
     if bool_decide (m_validation_state v1 = payload_part_is_valid)
     then '(d2, v2) ← payload_loop v1 y; Ok (d ++ d2, v2)
     else Ok (d ++ y, v1)).
Proof.
  revert v. induction x as [|b x IH]; intros v Hv; cbn [app payload_loop].
  { cbn [mbind result_bind]. rewrite bool_decide_eq_true_2 by done.
    destruct (payload_loop v y) as [[d2 v2]|e]; done. }
  destruct (process_payload_byte v b) as [[b' v1]|e]; cbn [mbind result_bind]; [|done].
  destruct (bool_decide (m_validation_state v1 = payload_part_is_valid)) eqn:E; cbn [negb].
  - apply bool_decide_eq_true in E. rewrite IH by done.
    destruct (payload_loop v1 x) as [[d v2]|e]; cbn [mbind result_bind]; [|done].
    destruct (bool_decide (m_validation_state v2 = payload_part_is_valid)); [|done].
    destruct (payload_loop v2 y) as [[d2 v3]|e]; done.
  - cbn [mbind result_bind]. by rewrite E.
Qed.

Lemma still_valid_set v : is_state_still_valid (set_validation_state v payload_part_is_valid) = true.
Proof. done. Qed.

Lemma set_same_state v st : m_validation_state v = st -> set_validation_state v st = v.
Proof. intros <-. by destruct v. Qed.

(** Two consecutive parts of a payload are processed as one. *)
Lemma process_parts_app v x y :
  process_and_unmask_next_payload_part v (x ++ y)
  = ('(_, d1, v1) ← process_and_unmask_next_payload_part v x;
     '(st2, d2, v2) ← process_and_unmask_next_payload_part v1 y;
     Ok (st2, d1 ++ d2, v2)).
Proof.
  unfold process_and_unmask_next_payload_part.
  destruct (bool_decide (m_working_state v = empty_state)) eqn:Hw; [done|].
  destruct (is_state_still_valid v) eqn:Hv; cbn [mbind result_bind].
  - set (v0 := set_validation_state v payload_part_is_valid).
    assert (H0 : m_validation_state v0 = payload_part_is_valid) by done.
    rewrite payload_loop_app by done.
    destruct (payload_loop_frame v0 x H0) as (d1 & v1 & -> & Hs & _ & Hst). cbn [mbind result_bind].
    assert (Hw1 : bool_decide (m_working_state v1 = empty_state) = false).
    { destruct Hs as (-> & _). done. }
    rewrite Hw1. destruct Hst as [Hst|Hst].
    + rewrite (bool_decide_eq_true_2 _ Hst). unfold is_state_still_valid at 1. rewrite Hst.
      rewrite (set_same_state v1) by done.
      by destruct (payload_loop v1 y) as [[d2 v2]|e].
    + rewrite Hst. rewrite bool_decide_eq_false_2; [done|].
      intros E. unfold is_state_still_valid in Hst. by rewrite E in Hst.
  - by rewrite Hw, Hv.
Qed.

(** ** Unmasking *)

Fixpoint unmask_all (u : unmasker_t) (data : bytes) : bytes * unmasker_t :=
  match data with
  | [] => ([], u)
  | b :: data' =>
      let '(b', u) := unmask_byte u b in
      let '(rest, u) := unmask_all u data' in (b' :: rest, u)
  end.

(** The payload bytes that a validator sees, and its unmasker after them. *)
Definition unmasked (v : ws_protocol_validator_t) (data : bytes) : bytes * unmasker_t :=
  if m_unmask_flag v then unmask_all (m_unmasker v) data else (data, m_unmasker v).

Lemma wrap_mod_4 z : wrap 64 z mod 4 = z mod 4.
Proof. unfold wrap. apply Z.mod_mod_divide. by exists (2 ^ 62). Qed.

(** The unmasker goes on where the mask of the whole payload does, also when the
    64-bit counter wraps around. *)
Lemma unmask_all_mask mask n data :
  0 <= n ->
  fst (unmask_all (mk_unmasker mask n) data) = mask_loop mask (Z.to_nat (n mod 4)) data.
Proof.
  revert n. induction data as [|b data IH]; intros n Hn; [done|].
  cbn [unmask_all unmask_byte m_mask m_processed_bytes_count mask_loop].
  specialize (IH (wrap 64 (n + 1)) (proj1 (wrap_range 64 _ ltac:(lia)))).
  destruct (unmask_all _ data) as [rest u]; cbn [fst] in *. rewrite IH. do 2 f_equal.
  rewrite wrap_mod_4. pose proof (Z.mod_pos_bound n 4 ltac:(lia)).
  destruct (Nat.ltb_spec (S (Z.to_nat (n mod 4))) 4); div_lia.
Qed.

Lemma unmask_reset key data :
  fst (unmask_all (unmasker_reset key) data) = mask_unmask_payload key data.
Proof. apply unmask_all_mask. done. Qed.

Lemma mask_unmask_bytes key data : is_bytes data -> is_bytes (mask_unmask_payload key data).
Proof.
  intros Hd. unfold mask_unmask_payload.
  assert (Hm : forall j, is_byte (nth j (mask_bytes key) 0)).
  { intros j. unfold mask_bytes. do 4 (destruct j as [|j]; [apply n_bits_byte; lia|]).
    destruct j; split; reflexivity || discriminate. }
  generalize 0%nat as j. induction Hd as [|b data Hb Hd IH]; intros j; [constructor|].
  cbn [mask_loop]. constructor; [|apply IH].
  apply (lxor_range _ _ 8); [lia|exact Hb|apply Hm].
Qed.

(** ** Text payloads *)

(** The frame being processed carries text. *)
Definition text_mode (v : ws_protocol_validator_t) : bool :=
  (m_opcode (m_current_frame v) =? text_frame) ||
  ((m_opcode (m_current_frame v) =? continuation_frame) &&
   bool_decide (m_previous_data_frame v = prev_text)).

(** The bytes of the frame go to the UTF-8 checker: text, or the reason after
    the two bytes of a close code. *)
Definition utf8_mode (v : ws_protocol_validator_t) : bool :=
  text_mode v || ((m_opcode (m_current_frame v) =? connection_close_frame) &&
                  all_bytes_loaded (m_expected_close_code v)).

Lemma utf8_mode_byte v b :
  utf8_mode v = true ->
  process_payload_byte v b =
    let v1 := if m_unmask_flag v then set_unmasker v (snd (unmask_byte (m_unmasker v) b)) else v in
    let b1 := if m_unmask_flag v then fst (unmask_byte (m_unmasker v) b) else b in
    Ok (b1, check_utf8_byte v1 b1).
Proof.
  intros Hm. unfold process_payload_byte. unfold utf8_mode, text_mode in Hm.
  destruct (m_unmask_flag v);
    cbn [m_opcode m_current_frame m_previous_data_frame m_expected_close_code set_unmasker unmask_byte fst snd];
    (destruct ((m_opcode (m_current_frame v) =? text_frame) || _); [done|]; cbn [orb] in Hm;
     apply andb_true_iff in Hm as [-> ->]; done).
Qed.

Lemma loop_utf8 v data :
  utf8_mode v = true -> m_validation_state v = payload_part_is_valid ->
  let '(plain, um) := unmasked v data in
  let '(ok, u) := Utf8.process_bytes (m_utf8_checker v) plain in
  if ok then payload_loop v data = Ok (plain, set_utf8_checker (set_unmasker v um) u)
  else exists d v', payload_loop v data = Ok (d, v') /\ m_validation_state v' = incorrect_utf8_data /\
                    same_frame v v'.
Proof.
  unfold unmasked. revert v. induction data as [|b data IH]; intros v Ht Hv.
  { destruct (m_unmask_flag v); cbn; by destruct v. }
  set (v1 := if m_unmask_flag v then set_unmasker v (snd (unmask_byte (m_unmasker v) b)) else v).
  set (b1 := if m_unmask_flag v then fst (unmask_byte (m_unmasker v) b) else b).
  assert (Hstep : process_payload_byte v b = Ok (b1, check_utf8_byte v1 b1)) by (by apply utf8_mode_byte).
  cbn [payload_loop]. rewrite Hstep. cbn [mbind result_bind].
  assert (Hv1 : m_utf8_checker v1 = m_utf8_checker v /\ m_validation_state v1 = payload_part_is_valid /\
                same_frame v v1 /\ m_expected_close_code v1 = m_expected_close_code v).
  { unfold v1. by destruct (m_unmask_flag v). }
  destruct Hv1 as (Hu1 & Hst1 & Hs1 & He1).
  assert (Hplain : (if m_unmask_flag v then unmask_all (m_unmasker v) (b :: data) else (b :: data, m_unmasker v))
    = (b1 :: fst (if m_unmask_flag v1 then unmask_all (m_unmasker v1) data else (data, m_unmasker v1)),
       snd (if m_unmask_flag v1 then unmask_all (m_unmasker v1) data else (data, m_unmasker v1)))).
  { unfold v1, b1. destruct (m_unmask_flag v) eqn:Hf; cbn [set_unmasker m_unmask_flag m_unmasker];
      [rewrite Hf|by rewrite Hf]. cbn [unmask_all unmask_byte snd fst].
    by destruct (unmask_all _ data). }
  rewrite Hplain. cbn [Utf8.process_bytes].
  destruct (Utf8.process_byte (m_utf8_checker v) b1) as [[] u1] eqn:Hp.
  - set (v2 := set_utf8_checker v1 u1).
    assert (Hc : check_utf8_byte v1 b1 = v2) by (unfold check_utf8_byte; by rewrite Hu1, Hp).
    rewrite Hc, bool_decide_eq_true_2 by done. cbn [negb].
    assert (Ht2 : utf8_mode v2 = true).
    { unfold utf8_mode, text_mode in *. destruct Hs1 as (_ & Hp1 & Hc1 & _). unfold v2.
      cbn [m_current_frame m_previous_data_frame m_expected_close_code set_utf8_checker].
      by rewrite Hp1, Hc1, He1. }
    specialize (IH v2 Ht2 Hst1).
    change (m_unmask_flag v2) with (m_unmask_flag v1) in IH.
    change (m_unmasker v2) with (m_unmasker v1) in IH. change (m_utf8_checker v2) with u1 in IH.
    destruct (if m_unmask_flag v1 then _ else _) as [plain um]. cbn [fst snd].
    destruct (Utf8.process_bytes u1 plain) as [[] u2].
    + rewrite IH. cbn [mbind result_bind]. do 2 f_equal. unfold v2, v1. by destruct (m_unmask_flag v).
    + destruct IH as (d & v' & E & Hst & Hs). rewrite E. cbn [mbind result_bind].
      eexists _, _. split; [reflexivity|]. split; [done|].
      eapply same_frame_trans; [exact Hs1|]. by eapply same_frame_trans.
  - assert (Hc : check_utf8_byte v1 b1 = set_validation_state (set_utf8_checker v1 u1) incorrect_utf8_data)
      by (unfold check_utf8_byte; by rewrite Hu1, Hp).
    rewrite Hc, bool_decide_eq_false_2 by done. cbn [negb].
    eexists _, _. split; [reflexivity|]. done.
Qed.

Lemma process_parts_concat v part parts :
  process_parts v (part :: parts)
  = ('(_, d, v') ← process_and_unmask_next_payload_part v (concat (part :: parts)); Ok (d, v')).
Proof.
  revert v part. induction parts as [|c parts IH]; intros v part.
  - cbn [process_parts concat]. rewrite app_nil_r.
    destruct (process_and_unmask_next_payload_part v part) as [[[st d] v']|e]; [|done].
    cbn. by rewrite app_nil_r.
  - change (concat (part :: c :: parts)) with (part ++ concat (c :: parts)).
    rewrite process_parts_app. cbn [process_parts].
    destruct (process_and_unmask_next_payload_part v part) as [[[st d] v']|e]; [|done].
    cbn [mbind result_bind]. specialize (IH v' c). cbn [process_parts] in IH. rewrite IH.
    by destruct (process_and_unmask_next_payload_part v' (concat (c :: parts))) as [[[st2 d2] v2]|e].
Qed.

Lemma process_parts_text v parts :
  m_working_state v = processing_frame -> text_mode v = true -> is_state_still_valid v = true ->
  let plain := fst (unmasked v (concat parts)) in
  let '(ok, u) := Utf8.process_bytes (m_utf8_checker v) plain in
  exists d v', process_parts v parts = Ok (d, v') /\ same_frame v v' /\
    if ok then d = plain /\ is_state_still_valid v' = true /\ m_utf8_checker v' = u
    else m_validation_state v' = incorrect_utf8_data.
Proof.
  intros Hw Ht Hv. destruct parts as [|part parts].
  { unfold unmasked. cbn. destruct (m_unmask_flag v); cbn; by exists [], v. }
  rewrite process_parts_concat. generalize (concat (part :: parts)) as data. intros data.
  unfold process_and_unmask_next_payload_part. rewrite Hw, Hv. cbn [bool_decide].
  rewrite bool_decide_eq_false_2 by done.
  assert (Hm : utf8_mode (set_validation_state v payload_part_is_valid) = true)
    by (unfold utf8_mode; apply orb_true_iff; by left).
  pose proof (loop_utf8 (set_validation_state v payload_part_is_valid) data Hm eq_refl) as H.
  change (unmasked (set_validation_state v payload_part_is_valid) data) with (unmasked v data) in H.
  destruct (unmasked v data) as [plain um]; cbn [fst].
  change (m_utf8_checker (set_validation_state v payload_part_is_valid)) with (m_utf8_checker v) in H.
  destruct (Utf8.process_bytes (m_utf8_checker v) plain) as [[] u].
  - rewrite H. cbn [mbind result_bind]. eexists _, _. split; [reflexivity|]. done.
  - destruct H as (d & v' & -> & Hst & Hs). cbn [mbind result_bind].
    eexists _, _. split; [reflexivity|]. done.
Qed.

(** ** Whole text messages *)

(** A validator between two frames. *)
Definition ready (v : ws_protocol_validator_t) : Prop :=
  m_validation_state v = initial_state /\ m_working_state v = empty_state /\ m_unmask_flag v = true.

(** The header bits that every frame of a client must have. *)
Definition client_header (f : message_details_t) : Prop :=
  m_mask_flag f = true /\ m_rsv1_flag f = false /\ m_rsv2_flag f = false /\ m_rsv3_flag f = false.

(** The payload of a frame after unmasking. *)
Definition plain_payload (f : message_details_t) (parts : list bytes) : bytes :=
  mask_unmask_payload (m_masking_key f) (concat parts).

Lemma text_header v f :
  ready v -> client_header f ->
  (m_opcode f = text_frame /\ m_previous_data_frame v = prev_none) \/
  (m_opcode f = continuation_frame /\ m_previous_data_frame v = prev_text) ->
  exists v', process_new_frame v f = Ok (frame_header_is_valid, v') /\
    m_working_state v' = processing_frame /\ m_validation_state v' = frame_header_is_valid /\
    m_current_frame v' = f /\ text_mode v' = true /\
    m_utf8_checker v' = m_utf8_checker v /\ m_unmask_flag v' = true /\
    m_unmasker v' = unmasker_reset (m_masking_key f) /\
    m_previous_data_frame v' = (if m_final_flag f then m_previous_data_frame v else prev_text).
Proof.
  intros (Hst & Hw & Hu) (Hm & H1 & H2 & H3) Hop.
  destruct v as [vs ws pdf cf cc uc uf um]; cbn in *. subst.
  unfold process_new_frame, start_frame, validate_frame_header, check_previous_frame_type. cbn.
  rewrite Hm, H1, H2, H3. destruct Hop as [[Ho ->]|[Ho ->]]; rewrite Ho; cbn;
    destruct (m_final_flag f) eqn:Hf; cbn; (eexists; split; [reflexivity|]); cbn;
    unfold text_mode; cbn; rewrite ?Hf, ?Ho; split_and!; done.
Qed.

Lemma finish_text v f u :
  m_current_frame v = f -> is_control_frame (m_opcode f) = false -> m_utf8_checker v = u ->
  is_state_still_valid v = true -> m_unmask_flag v = true ->
  let '(st, v') := finish_frame v in
  (if m_final_flag f && negb (finalized u) then st = incorrect_utf8_data
   else st = frame_is_valid) /\
  ready v' /\
  m_previous_data_frame v' = (if m_final_flag f then prev_none else m_previous_data_frame v) /\
  m_utf8_checker v' = (if m_final_flag f then Utf8.reset u else u).
Proof.
  intros Hc Ho Hu Hv Hf. unfold finish_frame. rewrite Hv. unfold ready.
  destruct v as [vs ws pdf cf cc uc uf um]; cbn -[is_control_frame] in *. subst.
  destruct (m_final_flag f) eqn:Hfin, (finalized u), pdf; cbn -[is_control_frame]; rewrite ?Ho, ?Hfin;
    done.
Qed.

Lemma finish_invalid v :
  m_validation_state v = incorrect_utf8_data -> fst (finish_frame v) = incorrect_utf8_data.
Proof.
  intros Hv. unfold finish_frame, is_state_still_valid. rewrite Hv.
  destruct v as [vs ws pdf cf cc uc uf um]; cbn in *. subst.
  repeat case_match; done.
Qed.

Lemma receive_text v f parts :
  ready v -> client_header f ->
  (m_opcode f = text_frame /\ m_previous_data_frame v = prev_none) \/
  (m_opcode f = continuation_frame /\ m_previous_data_frame v = prev_text) ->
  let p := plain_payload f parts in
  let '(ok, u) := Utf8.process_bytes (m_utf8_checker v) p in
  exists st d v', receive_frame v f parts = Ok (st, d, v') /\
    if ok && (negb (m_final_flag f) || finalized u)
    then st = frame_is_valid /\ d = p /\ ready v' /\
         m_previous_data_frame v' = (if m_final_flag f then prev_none else prev_text) /\
         m_utf8_checker v' = (if m_final_flag f then Utf8.reset u else u)
    else st = incorrect_utf8_data.
Proof.
  intros Hr Hh Hop.
  destruct (text_header v f Hr Hh Hop) as (v1 & Hn & Hw & Hst & Hc & Ht & Hu & Hf & Hm & Hp).
  unfold receive_frame. rewrite Hn. cbn [mbind result_bind].
  rewrite bool_decide_eq_true_2 by done. cbn [negb].
  assert (Hv1 : is_state_still_valid v1 = true) by (unfold is_state_still_valid; by rewrite Hst).
  pose proof (process_parts_text v1 parts Hw Ht Hv1) as H. unfold unmasked in H.
  rewrite Hf, Hm, unmask_reset, Hu in H. unfold plain_payload.
  destruct (Utf8.process_bytes (m_utf8_checker v) _) as [ok u].
  destruct H as (d & v2 & -> & (Hw2 & Hp2 & Hc2 & Hf2) & H). cbn [mbind result_bind].
  assert (Hctl : is_control_frame (m_opcode f) = false) by (destruct Hop as [[-> _]|[-> _]]; done).
  destruct ok; cbn [andb].
  - destruct H as (-> & Hv2 & Hu2).
    pose proof (finish_text v2 f u ltac:(congruence) Hctl Hu2 Hv2 ltac:(congruence)) as Hfin.
    destruct (finish_frame v2) as [st v3]. destruct Hfin as (Hst3 & Hr3 & Hp3 & Hu3).
    eexists _, _, _. split; [reflexivity|].
    destruct (m_final_flag f), (finalized u); cbn in *; rewrite ?Hp3; first [split_and!; first [done|congruence]|congruence].
  - pose proof (finish_invalid v2 H) as Hfin. destruct (finish_frame v2) as [st v3].
    eexists _, _, _. split; [reflexivity|]. exact Hfin.
Qed.

(** The frames of a message, received one after the other; [None] when one of
    them is not valid. *)
Fixpoint receive_frames (v : ws_protocol_validator_t) (frames : list (message_details_t * list bytes)) :
    result ws_exception (option bytes * ws_protocol_validator_t) :=
  match frames with
  | [] => Ok (Some [], v)
  | (f, parts) :: frames' =>
      '(st, data, v) ← receive_frame v f parts;
      if bool_decide (st = frame_is_valid) then
        '(rest, v) ← receive_frames v frames';
        Ok (option_map (app data) rest, v)
      else Ok (None, v)
  end.

(** Continuation frames up to a final one. *)
Fixpoint continuation_frames (frames : list (message_details_t * list bytes)) : Prop :=
  match frames with
  | [] => False
  | (f, _) :: frames' =>
      client_header f /\ m_opcode f = continuation_frame /\
      match frames' with
      | [] => m_final_flag f = true
      | _ => m_final_flag f = false /\ continuation_frames frames'
      end
  end.

(** A text message: a text frame, followed by continuation frames when it is not
    final. *)
Definition text_message (frames : list (message_details_t * list bytes)) : Prop :=
  match frames with
  | [] => False
  | (f, _) :: frames' =>
      client_header f /\ m_opcode f = text_frame /\
      match frames' with
      | [] => m_final_flag f = true
      | _ => m_final_flag f = false /\ continuation_frames frames'
      end
  end.

Definition message_payload (frames : list (message_details_t * list bytes)) : bytes :=
  concat ((fun fp => plain_payload (fst fp) (snd fp)) <$> frames).

Lemma receive_frames_text frames v :
  ready v ->
  match frames with
  | [] => False
  | (f, _) :: frames' =>
      client_header f /\
      ((m_opcode f = text_frame /\ m_previous_data_frame v = prev_none) \/
       (m_opcode f = continuation_frame /\ m_previous_data_frame v = prev_text)) /\
      match frames' with
      | [] => m_final_flag f = true
      | _ => m_final_flag f = false /\ continuation_frames frames'
      end
  end ->
  exists v', receive_frames v frames
    = Ok (if accepts (m_utf8_checker v) (message_payload frames)
          then Some (message_payload frames) else None, v') /\
    (accepts (m_utf8_checker v) (message_payload frames) = true ->
     ready v' /\ m_previous_data_frame v' = prev_none /\
     exists u, finalized u = true /\ m_utf8_checker v' = Utf8.reset u /\
       Utf8.process_bytes (m_utf8_checker v) (message_payload frames) = (true, u)).
Proof.
  revert v. induction frames as [|[f parts] frames IH]; intros v Hr; [done|].
  intros (Hh & Hop & Hrest). cbn [receive_frames].
  pose proof (receive_text v f parts Hr Hh Hop) as H. cbv zeta in H.
  unfold message_payload; cbn [fmap list_fmap concat fst snd]. fold (message_payload frames).
  unfold accepts. rewrite process_bytes_app.
  destruct (Utf8.process_bytes (m_utf8_checker v) (plain_payload f parts)) as [ok u].
  destruct H as (st & d & v' & -> & H). cbn [mbind result_bind].
  destruct frames as [|[f2 parts2] frames].
  - rewrite Hrest in H. cbn [negb orb] in H. cbn [message_payload fmap list_fmap concat receive_frames].
    cbn [Utf8.process_bytes].
    destruct ok; cbn [andb] in *; [destruct (finalized u) eqn:Hfin|].
    + destruct H as (-> & -> & Hr' & Hp' & Hu'). rewrite bool_decide_eq_true_2 by done.
      cbn. exists v'. rewrite ?Hfin, ?app_nil_r. split; [done|]. intros _. eauto 10.
    + rewrite H, bool_decide_eq_false_2 by done. by exists v'.
    + rewrite H, bool_decide_eq_false_2 by done. by exists v'.
  - destruct Hrest as [Hnf Hcont]. rewrite Hnf in H. cbn [negb orb] in H. rewrite andb_true_r in H.
    destruct ok.
    + destruct H as (-> & -> & Hr' & Hp' & Hu'). rewrite bool_decide_eq_true_2 by done.
      destruct (IH v' Hr') as (v2 & E & Hacc).
      { destruct Hcont as (Hh2 & Ho2 & Hc2). split_and!; auto. }
      rewrite E. cbn [mbind result_bind]. unfold accepts in E, Hacc |- *. rewrite Hu' in E, Hacc |- *.
      exists v2. destruct (Utf8.process_bytes u _) as [ok2 u2].
      destruct (ok2 && finalized u2); (split; [done|]); [|done]. exact Hacc.
    + rewrite H, bool_decide_eq_false_2 by done. exists v'. done.
Qed.

(** C10 (functional). A client's text message, cut into any number of frames and each
    frame's payload into any parts, is accepted by an idle validator exactly when
    the whole unmasked payload is well-formed UTF-8 - characters may be cut by
    frame and part boundaries alike - and then the data handed on is the payload
    unmasked with each frame's key and the validator is idle again. *)
Theorem text_message_exact frames v :
  ready v -> m_previous_data_frame v = prev_none -> clean (m_utf8_checker v) ->
  text_message frames -> Forall (fun fp => Forall is_bytes (snd fp)) frames ->
  exists v', receive_frames v frames = Ok (None, v') /\ ~ well_formed_utf8 (message_payload frames) \/
    receive_frames v frames = Ok (Some (message_payload frames), v') /\
    well_formed_utf8 (message_payload frames) /\
    ready v' /\ m_previous_data_frame v' = prev_none /\ clean (m_utf8_checker v').
Proof.
  intros Hr Hp Hc Hm Hb.
  assert (Hbytes : is_bytes (message_payload frames)).
  { unfold message_payload. clear -Hb. induction Hb as [|[f parts] frames Hf Hb IH]; [constructor|].
    cbn. apply Forall_app. split; [|done]. apply mask_unmask_bytes. by apply Forall_concat. }
  destruct (receive_frames_text frames v Hr) as (v' & E & Hacc).
  { destruct frames as [|[f parts] frames]; [done|]. destruct Hm as (Hh & Ho & Hrest).
    split_and!; auto. }
  exists v'. pose proof (accepts_exact (m_utf8_checker v) (message_payload frames) Hc Hbytes) as Hex.
  destruct (accepts (m_utf8_checker v) (message_payload frames)).
  - right. destruct (Hacc eq_refl) as (Hr' & Hp' & u & Hfin & Hu & Hrun).
    split_and!; [done|by apply Hex|done|done|]. rewrite Hu.
    pose proof (process_bytes_inv _ _ _ (clean_inv _ Hc) Hbytes Hrun) as [Hcl|(Hrb & _)].
    + destruct Hcl as [_ Hs]. by apply clean_reset.
    + unfold finalized in Hfin. lia.
  - left. split; [done|]. intros Hwf. by apply Hex in Hwf.
Qed.

(** A client frame with the given bits, for examples. *)
Definition client_frame (final : bool) (opcode len key : Z) : message_details_t :=
  mk_details final false false false opcode true len 0 key.

Lemma new_validator_ready : ready (new_validator true).
Proof. done. Qed.

Lemma text_message_exact_witness :
  exists v', receive_frames (new_validator true)
    [(client_frame false text_frame 1 0, [[0xE2]]);
     (client_frame true continuation_frame 3 0x01020304, [[0x83]; [0xAE; 0x62]])]
  = Ok (Some [0xE2; 0x82; 0xAC; 0x61], v').
Proof.
  destruct (text_message_exact
    [(client_frame false text_frame 1 0, [[0xE2]]);
     (client_frame true continuation_frame 3 0x01020304, [[0x83]; [0xAE; 0x62]])]
    (new_validator true) new_validator_ready eq_refl clean_default) as (v' & H).
  - cbn. unfold client_header. cbn. split_and!; reflexivity.
  - repeat constructor; vm_compute; congruence.
  - destruct H as [[H _]|[H _]]; [vm_compute in H; discriminate|].
    exists v'. exact H.
Defined.

(** Cutting a payload into parts makes no difference: from any
    state, two parts in sequence give the verdict, the unmasked data and the
    validator that their concatenation gives (an error of the first part is the
    error of the whole), the data and verdict of a frame do not depend on how it
    was cut, and the unmasker continues the mask of the whole payload. *)
Theorem payload_parts_equivalent v x y u key :
  process_and_unmask_next_payload_part v (x ++ y)
  = ('(_, d1, v1) ← process_and_unmask_next_payload_part v x;
     '(st2, d2, v2) ← process_and_unmask_next_payload_part v1 y;
     Ok (st2, d1 ++ d2, v2)) /\
  process_next_payload_part v x
  = ('(st, _, v1) ← process_and_unmask_next_payload_part v x; Ok (st, v1)) /\
  (forall f part parts, receive_frame v f (part :: parts) = receive_frame v f [concat (part :: parts)]) /\
  unmask_all u (x ++ y) = (let '(d1, u1) := unmask_all u x in
                           let '(d2, u2) := unmask_all u1 y in (d1 ++ d2, u2)) /\
  fst (unmask_all (unmasker_reset key) x) = mask_unmask_payload key x.
Proof.
  split_and!.
  - apply process_parts_app.
  - unfold process_next_payload_part, process_and_unmask_next_payload_part.
    destruct (bool_decide _); [done|]. destruct (is_state_still_valid v); [|done].
    by destruct (payload_loop _ x) as [[d v1]|e].
  - intros f part parts. unfold receive_frame.
    destruct (process_new_frame v f) as [[st v1]|e]; cbn [mbind result_bind]; [|done].
    destruct (negb _); [done|]. rewrite !process_parts_concat. cbn [concat]. by rewrite app_nil_r.
  - revert u. induction x as [|b x IH]; intros u; cbn [app unmask_all].
    + by destruct (unmask_all u y).
    + destruct (unmask_byte u b) as [b' u1]. rewrite IH.
      destruct (unmask_all u1 x) as [d1 u2]. by destruct (unmask_all u2 y).
  - apply unmask_reset.
Qed.

(** ** Headers *)

(** What RFC 6455 asks of a client's frame header, given the data frame that is
    being continued. *)
Definition header_allowed (previous : previous_data_frame_t) (f : message_details_t) : Prop :=
  m_opcode f ∈ [continuation_frame; text_frame; binary_frame; connection_close_frame; ping_frame; pong_frame] /\
  client_header f /\
  (is_control_frame (m_opcode f) = true -> m_final_flag f = true /\ payload_len f <= 125) /\
  (m_opcode f = continuation_frame -> previous <> prev_none) /\
  (is_data_frame (m_opcode f) = true -> previous = prev_none).

Lemma valid_opcode_list opcode :
  is_valid_opcode opcode = true <->
  opcode ∈ [continuation_frame; text_frame; binary_frame; connection_close_frame; ping_frame; pong_frame].
Proof.
  unfold is_valid_opcode, opcodes_map. cbn [existsb snd].
  rewrite !orb_true_iff, !Z.eqb_eq, !elem_of_cons, elem_of_nil. intuition congruence.
Qed.

Lemma validate_frame_header_allowed v f :
  fst (validate_frame_header v f) = true <->
  is_valid_opcode (m_opcode f) = true /\ client_header f /\
  (is_control_frame (m_opcode f) = true -> m_final_flag f = true /\ payload_len f <= 125).
Proof.
  unfold validate_frame_header, client_header, websocket_max_payload_size_without_ext.
  destruct (is_valid_opcode (m_opcode f)), (is_control_frame (m_opcode f)), (m_final_flag f),
    (m_mask_flag f), (m_rsv1_flag f), (m_rsv2_flag f), (m_rsv3_flag f); cbn;
    try (destruct (Z.ltb_spec 125 (payload_len f)); cbn); 
    (split; [intros Hx|intros (H1 & (H2 & H3 & H4 & H5) & H6)]; try done);
    first [split_and!; intros; first [done|split; [done|lia]]|destruct (H6 eq_refl); first [done|lia]].
Qed.

Lemma start_frame_fields v f :
  m_validation_state (start_frame v f) = m_validation_state v /\
  m_working_state (start_frame v f) = processing_frame /\ m_current_frame (start_frame v f) = f.
Proof. unfold start_frame. cbv zeta. repeat case_match; done. Qed.

Lemma check_previous_allowed v opcode :
  let '(ok, v') := check_previous_frame_type v opcode in
  (ok = true <-> (opcode = continuation_frame -> m_previous_data_frame v <> prev_none) /\
                 (is_data_frame opcode = true -> m_previous_data_frame v = prev_none)) /\
  (if ok then v' = v else exists st, v' = set_validation_state v st /\ st <> frame_header_is_valid /\
                                     is_state_still_valid v' = false).
Proof.
  unfold check_previous_frame_type.
  destruct (decide (m_previous_data_frame v = prev_none)) as [E|E].
  - rewrite bool_decide_eq_true_2 by done. cbn [andb negb].
    destruct (Z.eqb_spec opcode continuation_frame) as [->|Hne]; cbn.
    + split; [split; [done|intros [H _]; by destruct (H eq_refl)]|]. by eexists.
    + split; [|done]. by split.
  - rewrite bool_decide_eq_false_2 by done. cbn [andb negb].
    destruct (is_data_frame opcode) eqn:Hd.
    + split; [split; [done|intros [_ H]; by destruct (E (H eq_refl))]|]. by eexists.
    + split; [|done]. by split.
Qed.

(** [process_new_frame] on an idle validator accepts exactly the
    headers that RFC 6455 allows at this point of the stream: a known opcode, a
    mask and no reserved bit, control frames final and at most 125 bytes long, a
    continuation only of an unfinished data frame and no new data frame before its
    end. A refused frame leaves the validator idle with the same continued frame;
    while a frame is being processed the call throws. *)
Theorem process_new_frame_exact v f :
  (m_working_state v = empty_state ->
   exists st v', process_new_frame v f = Ok (st, v') /\ m_validation_state v' = st /\
     (st = frame_header_is_valid <-> header_allowed (m_previous_data_frame v) f) /\
     (st <> frame_header_is_valid ->
        v' = set_validation_state v st /\ is_state_still_valid v' = false) /\
     (st = frame_header_is_valid -> m_working_state v' = processing_frame /\ m_current_frame v' = f)) /\
  (m_working_state v = processing_frame ->
   process_new_frame v f = Err another_frame_is_processing).
Proof.
  split; intros Hw; unfold process_new_frame; rewrite Hw; [|done].
  rewrite bool_decide_eq_true_2 by done. cbn [negb].
  pose proof (validate_frame_header_allowed v f) as Hhdr.
  assert (Hset : exists st, snd (validate_frame_header v f) = set_validation_state v st /\
     (fst (validate_frame_header v f) = true <-> st = frame_header_is_valid) /\
     (st <> frame_header_is_valid -> is_state_still_valid (set_validation_state v st) = false)).
  { unfold validate_frame_header. repeat case_match; cbn [fst snd]; eexists; (split; [reflexivity|]);
      (split; [by split|done]). }
  destruct Hset as (st & Hv & Hok & Hbad). destruct (validate_frame_header v f) as [ok v1].
  cbn [fst snd] in *. subst v1. unfold header_allowed.
  pose proof (valid_opcode_list (m_opcode f)) as Hvo.
  destruct ok.
  - destruct (proj1 Hhdr eq_refl) as (Hop & Hc & Hctl). rewrite (proj1 Hok eq_refl).
    set (v1 := set_validation_state v frame_header_is_valid).
    pose proof (check_previous_allowed v1 (m_opcode f)) as Hch.
    change (m_previous_data_frame v1) with (m_previous_data_frame v) in Hch.
    destruct (check_previous_frame_type v1 (m_opcode f)) as [ok v2]. destruct Hch as [Hiff Hv2].
    destruct ok.
    + subst v2. destruct (start_frame_fields v1 f) as (H1 & H2 & H3). eexists _, _.
      split; [reflexivity|]. split; [done|]. rewrite H1. split; [tauto|]. done.
    + destruct Hv2 as (st2 & -> & Hne & Hinv). eexists _, _.
      split; [reflexivity|]. split; [done|]. cbn [m_validation_state set_validation_state].
      split; [|done]. split; [done|]. intros (_ & _ & _ & H4 & H5). by discriminate (proj2 Hiff (conj H4 H5)).
  - assert (Hne : st <> frame_header_is_valid) by (intros E; by apply Hok in E).
    eexists _, _. split; [reflexivity|]. split; [done|]. cbn [m_validation_state set_validation_state].
    split; [|split; [by split; [|apply Hbad]|done]]. split; [done|].
    intros (H1 & H2 & H3 & _). apply Hvo in H1. discriminate (proj2 Hhdr (conj H1 (conj H2 H3))).
Qed.

Lemma process_new_frame_exact_witness :
  process_new_frame (start_frame (new_validator true) (client_frame true text_frame 5 0))
    (client_frame true ping_frame 0 0) = Err another_frame_is_processing.
Proof.
  apply (proj2 (process_new_frame_exact
    (start_frame (new_validator true) (client_frame true text_frame 5 0)) (client_frame true ping_frame 0 0))).
  reflexivity.
Defined.

(** ** Close frames *)

Definition allowed_close_code (c : Z) : Prop :=
  1000 <= c <= 1003 \/ 1007 <= c <= 1011 \/ 3000 <= c <= 4999.

Definition close_payload_ok (p : bytes) : Prop :=
  (length p < 2)%nat \/
  exists code reason, p = write_number_to_big_endian_bytes 2 code ++ reason /\
    0 <= code < 2 ^ 16 /\ allowed_close_code code /\ well_formed_utf8 reason.

Lemma validate_close_code_spec v c :
  (allowed_close_code c /\ validate_close_code v c = v) \/
  (~ allowed_close_code c /\ validate_close_code v c = set_validation_state v invalid_close_code).
Proof.
  unfold validate_close_code, allowed_close_code.
  destruct (_ || _ || _) eqn:E1; [right; split; [to_prop; lia|done]|].
  destruct ((c =? 1004) || _ || _) eqn:E2; [right|left]; (split; [to_prop; lia|done]).
Qed.

Lemma utf8_mode_close v : text_mode v = false -> m_opcode (m_current_frame v) = connection_close_frame ->
  utf8_mode v = all_bytes_loaded (m_expected_close_code v).
Proof. intros H1 H2. unfold utf8_mode. by rewrite H1, H2. Qed.

(** A byte of the close code. *)
Lemma close_code_byte v b l :
  text_mode v = false -> m_opcode (m_current_frame v) = connection_close_frame ->
  m_expected_close_code v = mk_expected 2 l -> (length l < 2)%nat -> m_unmask_flag v = true ->
  let b1 := fst (unmask_byte (m_unmasker v) b) in
  let v1 := set_close_code (set_unmasker v (snd (unmask_byte (m_unmasker v) b)))
              (mk_expected 2 (l ++ [b1])) in
  process_payload_byte v b
  = Ok (b1, if (length (l ++ [b1]) =? 2)%nat
            then validate_close_code v1 (read_number_from_big_endian_bytes 16 (l ++ [b1])) else v1).
Proof.
  intros Ht Ho He Hl Hf b1 v1. unfold process_payload_byte. unfold text_mode in Ht. rewrite Hf.
  cbn [unmask_byte m_current_frame m_previous_data_frame m_expected_close_code set_unmasker].
  rewrite Ht, Ho, He. unfold all_bytes_loaded, add_byte_and_check_size.
  cbn [m_loaded_data m_expected_size]. rewrite (proj2 (Nat.eqb_neq _ _)) by lia. done.
Qed.

(** The verdict on the payload of a close frame, when the code is expected. *)
Lemma loop_close v data :
  text_mode v = false -> m_opcode (m_current_frame v) = connection_close_frame ->
  m_expected_close_code v = expected_reset 2 -> m_unmask_flag v = true ->
  m_validation_state v = payload_part_is_valid -> is_bytes (fst (unmask_all (m_unmasker v) data)) ->
  let p := fst (unmask_all (m_unmasker v) data) in
  exists d v', payload_loop v data = Ok (d, v') /\ same_frame v v' /\
    match p with
    | [] | [_] => is_state_still_valid v' = true /\ m_utf8_checker v' = m_utf8_checker v
    | a :: b :: reason =>
        (~ allowed_close_code (a * 256 + b) /\ is_state_still_valid v' = false) \/
        (allowed_close_code (a * 256 + b) /\
         let '(ok, u) := Utf8.process_bytes (m_utf8_checker v) reason in
         if ok then is_state_still_valid v' = true /\ m_utf8_checker v' = u
         else is_state_still_valid v' = false)
    end.
Proof.
  intros Ht Ho He Hf Hv Hb p. unfold is_state_still_valid.
  destruct data as [|x data]; [eexists _, _; split; [reflexivity|]; by rewrite Hv|].
  cbn [payload_loop]. rewrite (close_code_byte v x [] Ht Ho He ltac:(cbn; lia) Hf). cbn [mbind result_bind app length Nat.eqb].
  set (a := fst (unmask_byte (m_unmasker v) x)).
  set (v1 := set_close_code (set_unmasker v (snd (unmask_byte (m_unmasker v) x))) (mk_expected 2 [a])).
  rewrite bool_decide_eq_true_2 by done. cbn [negb].
  destruct data as [|y data].
  { subst p. cbn. eexists _, _. split; [reflexivity|]. cbn. by rewrite Hv. }
  cbn [payload_loop]. rewrite (close_code_byte v1 y [a] Ht Ho eq_refl ltac:(cbn; lia) Hf).
  cbn [mbind result_bind app length Nat.eqb]. set (b := fst (unmask_byte (m_unmasker v1) y)).
  set (v2 := set_close_code (set_unmasker v1 (snd (unmask_byte (m_unmasker v1) y))) (mk_expected 2 [a; b])).
  assert (Hp : p = a :: b :: fst (unmask_all (m_unmasker v2) data)).
  { subst p a b. cbn [unmask_all unmask_byte fst snd m_mask m_processed_bytes_count].
    unfold v2, v1; cbn [m_unmasker set_close_code set_unmasker unmask_byte snd m_mask m_processed_bytes_count].
    by destruct (unmask_all _ data). }
  assert (Hab : is_bytes [a; b]).
  { fold p in Hb. rewrite Hp in Hb. apply (Forall_take is_byte 2) in Hb. exact Hb. }
  clearbody p. subst p.
  assert (Hcode : read_number_from_big_endian_bytes 16 [a; b] = a * 256 + b).
  { rewrite read_be_value by (done || lia). pose proof (be_value_range [a; b] Hab).
    rewrite wrap_small by done. done. }
  rewrite Hcode. destruct (validate_close_code_spec v2 (a * 256 + b)) as [[Hal ->]|[Hal ->]].
  - rewrite bool_decide_eq_true_2 by done. cbn [negb].
    assert (Hmode : utf8_mode v2 = true) by (by rewrite utf8_mode_close).
    pose proof (loop_utf8 v2 data Hmode Hv) as H. unfold unmasked in H.
    change (m_unmask_flag v2) with (m_unmask_flag v) in H. rewrite Hf in H.
    change (m_utf8_checker v2) with (m_utf8_checker v) in H.
    destruct (unmask_all (m_unmasker v2) data) as [reason um2]; cbn [fst].
    destruct (Utf8.process_bytes (m_utf8_checker v) reason) as [[] u].
    + rewrite H. cbn [mbind result_bind]. eexists _, _. split; [reflexivity|]. split; [done|].
      right. split; [done|]. cbn. by rewrite Hv.
    + destruct H as (d & v' & -> & Hst & Hs). cbn [mbind result_bind].
      eexists _, _. split; [reflexivity|]. split; [exact Hs|]. right. split; [done|]. by rewrite Hst.
  - rewrite bool_decide_eq_false_2 by done. cbn [negb].
    eexists _, _. split; [reflexivity|]. split; [done|]. by left.
Qed.

Lemma finish_verdict v :
  fst (finish_frame v) = frame_is_valid <->
  is_state_still_valid v = true /\
  (m_final_flag (m_current_frame v) = true -> finalized (m_utf8_checker v) = true).
Proof.
  unfold finish_frame. destruct v as [vs ws pdf cf cc uc uf um].
  destruct vs, (m_final_flag cf) eqn:Hf, (finalized uc) eqn:Hu, pdf,
    (is_control_frame (m_opcode cf)) eqn:Hc; unfold is_state_still_valid;
    cbn -[is_control_frame]; repeat (rewrite ?Hf, ?Hu, ?Hc; cbn -[is_control_frame]);
    (split; [intros H|intros [H1 H2]]; try done; try (split; [done|by intros]); by discriminate H2).
Qed.

Lemma finish_unfinished v :
  m_final_flag (m_current_frame v) = true -> finalized (m_utf8_checker v) = false ->
  fst (finish_frame v) = incorrect_utf8_data.
Proof.
  intros Hf Hu. unfold finish_frame. destruct v as [vs ws pdf cf cc uc uf um].
  destruct vs; unfold is_state_still_valid; cbn -[is_control_frame] in *; rewrite Hf, Hu;
    cbn -[is_control_frame]; repeat case_match; done.
Qed.

Lemma close_header v f :
  ready v -> client_header f -> m_opcode f = connection_close_frame -> m_final_flag f = true ->
  payload_len f <= 125 ->
  exists v', process_new_frame v f = Ok (frame_header_is_valid, v') /\
    m_working_state v' = processing_frame /\ m_validation_state v' = frame_header_is_valid /\
    m_current_frame v' = f /\ text_mode v' = false /\ m_expected_close_code v' = expected_reset 2 /\
    m_utf8_checker v' = m_utf8_checker v /\ m_unmask_flag v' = true /\
    m_unmasker v' = unmasker_reset (m_masking_key f).
Proof.
  intros (Hst & Hw & Hu) (Hm & H1 & H2 & H3) Ho Hfin Hl.
  destruct v as [vs ws pdf cf cc uc uf um]; cbn in Hst, Hw, Hu. subst.
  unfold process_new_frame, validate_frame_header, check_previous_frame_type, start_frame,
    websocket_max_payload_size_without_ext.
  rewrite Hm, H1, H2, H3, Hfin, Ho. cbn -[Z.ltb].
  rewrite (proj2 (Z.ltb_ge _ _)) by done. cbn.
  destruct pdf; cbn; (eexists; split; [reflexivity|]); cbn; unfold text_mode; cbn; rewrite Ho; done.
Qed.

(** The verdict on the payload of a close frame, however it is cut. *)
Lemma process_parts_close v parts :
  m_working_state v = processing_frame -> m_validation_state v = frame_header_is_valid ->
  text_mode v = false -> m_opcode (m_current_frame v) = connection_close_frame ->
  m_expected_close_code v = expected_reset 2 -> m_unmask_flag v = true -> clean (m_utf8_checker v) ->
  let p := fst (unmask_all (m_unmasker v) (concat parts)) in is_bytes p ->
  exists d v', process_parts v parts = Ok (d, v') /\ m_current_frame v' = m_current_frame v /\
    (is_state_still_valid v' = true /\ finalized (m_utf8_checker v') = true <-> close_payload_ok p).
Proof.
  intros Hw Hst Ht Ho He Hf Hcl p Hb. destruct parts as [|part parts].
  { exists [], v. split; [done|]. split; [done|]. unfold is_state_still_valid. rewrite Hst.
    destruct Hcl as [Hr _]. unfold finalized. rewrite Hr. split; [|done]. intros _. left. cbn. lia. }
  rewrite process_parts_concat. unfold p in *. clear p. revert Hb.
  generalize (concat (part :: parts)) as data. intros data Hb.
  unfold process_and_unmask_next_payload_part, is_state_still_valid. rewrite Hw, Hst.
  rewrite bool_decide_eq_false_2 by done.
  destruct (loop_close (set_validation_state v payload_part_is_valid) data Ht Ho He Hf eq_refl Hb)
    as (d & v' & -> & (_ & _ & Hc' & _) & Hcase). cbn [mbind result_bind].
  change (m_unmasker (set_validation_state v payload_part_is_valid)) with (m_unmasker v) in Hcase.
  change (m_utf8_checker (set_validation_state v payload_part_is_valid)) with (m_utf8_checker v) in Hcase.
  eexists _, _. split; [reflexivity|]. split; [exact Hc'|]. change (match m_validation_state v' with
    | initial_state | frame_header_is_valid | payload_part_is_valid | frame_is_valid => true
    | _ => false end) with (is_state_still_valid v').
  assert (Hfin0 : finalized (m_utf8_checker v) = true)
    by (destruct Hcl as [Hr _]; unfold finalized; by rewrite Hr).
  destruct (fst (unmask_all (m_unmasker v) data)) as [|a [|b reason]].
  - destruct Hcase as [-> ->]. split; [intros _; left; cbn; lia|done].
  - destruct Hcase as [-> ->]. split; [intros _; left; cbn; lia|done].
  - assert (Hreason : is_bytes reason) by (by apply Forall_cons in Hb as [_ [_ Hb]%Forall_cons]).
    assert (Hab : is_bytes [a; b]) by (exact (Forall_take is_byte 2 _ Hb)).
    pose proof (accepts_exact (m_utf8_checker v) reason Hcl Hreason) as Hacc.
    assert (Hok : close_payload_ok (a :: b :: reason) <->
                  allowed_close_code (a * 256 + b) /\ well_formed_utf8 reason).
    { pose proof (write_be_value [a; b] Hab) as Hwr. pose proof (be_value_range [a; b] Hab) as Hrg.
      change (be_value [a; b]) with (a * 256 + b) in *. split.
      - intros [H|(code & reason' & E & Hr & Hal & Hwf)]; [cbn in H; lia|].
        pose proof (be_value_write 2 code) as Hv.
        pose proof (write_be_length 2 code) as Hlen.
        destruct (write_number_to_big_endian_bytes 2 code) as [|a' [|b' [|]]]; try done.
        cbn in E. injection E as <- <- <-. change (be_value [a; b]) with (a * 256 + b) in Hv.
        rewrite Z.mod_small in Hv by (cbn; lia). by rewrite Hv.
      - intros [Hal Hwf]. right. exists (a * 256 + b), reason.
        change 2%nat with (length [a; b]). rewrite Hwr. cbn in Hrg. split_and!; done || lia. }
    rewrite Hok. unfold accepts in Hacc. destruct Hcase as [[Hn Hinv]|[Hal Hcase]].
    + rewrite Hinv. split; [by intros [? _]|]. by intros [? _].
    + destruct (Utf8.process_bytes (m_utf8_checker v) reason) as [[] u]; cbn [andb] in Hacc.
      * destruct Hcase as [-> ->]. rewrite <- Hacc. tauto.
      * rewrite Hcase. rewrite <- Hacc. split; [by intros [? _]|]. by intros [_ ?].
Qed.

(** A final close frame from a client, cut into any parts, is
    accepted by an idle validator with a clean UTF-8 checker exactly when its
    payload is empty, or a single byte, or a big-endian status code among
    1000-1003, 1007-1011 and 3000-4999 followed by a reason in well-formed UTF-8.
    The single byte is accepted although RFC 6455 requires a payload to start with
    a two-byte code, since the code is checked only when its second byte arrives. *)
Theorem close_frame_exact v f parts :
  ready v -> clean (m_utf8_checker v) -> client_header f ->
  m_opcode f = connection_close_frame -> m_final_flag f = true -> payload_len f <= 125 ->
  Forall is_bytes parts ->
  exists st d v', receive_frame v f parts = Ok (st, d, v') /\
    (st = frame_is_valid <-> close_payload_ok (plain_payload f parts)).
Proof.
  intros Hr Hcl Hh Ho Hfin Hl Hb.
  destruct (close_header v f Hr Hh Ho Hfin Hl) as (v1 & Hn & Hw & Hst & Hc & Ht & He & Hu & Hf & Hm).
  unfold receive_frame. rewrite Hn. cbn [mbind result_bind].
  rewrite bool_decide_eq_true_2 by done. cbn [negb].
  pose proof (process_parts_close v1 parts Hw Hst Ht) as H. rewrite Hc, Hu, Hm, unmask_reset in H.
  destruct (H Ho He Hf Hcl) as (d & v2 & -> & Hc2 & Hiff).
  { apply mask_unmask_bytes. by apply Forall_concat. }
  cbn [mbind result_bind]. pose proof (finish_verdict v2) as Hv. rewrite Hc2, Hfin in Hv.
  destruct (finish_frame v2) as [st v3]. eexists _, _, _. split; [reflexivity|].
  unfold plain_payload. rewrite <- Hiff. cbn [fst] in Hv. tauto.
Qed.

Lemma close_frame_exact_witness :
  exists st d v', receive_frame (new_validator true) (client_frame true connection_close_frame 3 0)
                    [[3]; [232; 0x61]] = Ok (st, d, v') /\ st = frame_is_valid.
Proof.
  destruct (close_frame_exact (new_validator true) (client_frame true connection_close_frame 3 0)
              [[3]; [232; 0x61]] new_validator_ready clean_default) as (st & d & v' & H & Hiff).
  - unfold client_header. cbn. split_and!; reflexivity.
  - reflexivity.
  - reflexivity.
  - vm_compute. discriminate.
  - repeat constructor; vm_compute; congruence.
  - exists st, d, v'. split; [exact H|]. apply Hiff. right. exists 1000, [0x61].
    split_and!; [reflexivity|lia|lia|unfold allowed_close_code; lia|].
    exists [0x61]. split; [|reflexivity]. repeat constructor; unfold is_scalar; lia.
Defined.

(** ** Interleaved control frames and [reset] *)

(** The payload of a ping or pong frame does not touch the UTF-8 checker. *)
Definition is_ping_pong (v : ws_protocol_validator_t) : Prop :=
  m_opcode (m_current_frame v) = ping_frame \/ m_opcode (m_current_frame v) = pong_frame.

Lemma loop_ping v data :
  is_ping_pong v -> m_validation_state v = payload_part_is_valid ->
  exists d v', payload_loop v data = Ok (d, v') /\ m_utf8_checker v' = m_utf8_checker v /\
    m_current_frame v' = m_current_frame v.
Proof.
  revert v. induction data as [|b data IH]; intros v Hop Hv; [by eexists _, _|]. cbn [payload_loop].
  unfold process_payload_byte.
  destruct (if m_unmask_flag v then _ else _) as [b1 v1] eqn:E.
  assert (H1 : m_current_frame v1 = m_current_frame v /\ m_utf8_checker v1 = m_utf8_checker v /\
               m_validation_state v1 = payload_part_is_valid).
  { destruct (m_unmask_flag v); [destruct (unmask_byte _ b)|]; by injection E as <- <-. }
  destruct H1 as (Hc & Hu & Hst).
  assert (Ho : (m_opcode (m_current_frame v1) =? text_frame) = false /\
    (m_opcode (m_current_frame v1) =? continuation_frame) = false /\
    (m_opcode (m_current_frame v1) =? connection_close_frame) = false).
  { rewrite Hc. by destruct Hop as [-> | ->]. }
  destruct Ho as (-> & -> & ->). cbn [orb andb mbind result_bind].
  rewrite bool_decide_eq_true_2 by done. cbn [negb].
  destruct (IH v1) as (d & v2 & -> & Hu2 & Hc2); [unfold is_ping_pong; by rewrite Hc|done|].
  cbn [mbind result_bind]. eexists _, _. split; [reflexivity|]. split; congruence.
Qed.

Lemma process_parts_ping v parts :
  m_working_state v = processing_frame -> is_state_still_valid v = true -> is_ping_pong v ->
  exists d v', process_parts v parts = Ok (d, v') /\ m_utf8_checker v' = m_utf8_checker v /\
    m_current_frame v' = m_current_frame v.
Proof.
  intros Hw Hv Hop. destruct parts as [|part parts]; [by eexists _, _|].
  rewrite process_parts_concat. unfold process_and_unmask_next_payload_part. rewrite Hw, Hv.
  rewrite bool_decide_eq_false_2 by done.
  destruct (loop_ping (set_validation_state v payload_part_is_valid) (concat (part :: parts)) Hop eq_refl)
    as (d & v' & -> & Hu & Hc). cbn [mbind result_bind]. by eexists _, _.
Qed.

(** A ping or pong frame that arrives between two fragments of a text
    message while a UTF-8 character is cut by the fragment boundary is itself
    reported as incorrect UTF-8, whatever its payload: [finish_frame] looks at the
    checker of the unfinished message when the final bit is set. A message that is
    accepted without the control frame is refused with it, although RFC 6455 allows
    control frames there. *)
Theorem interleaved_control_frame_refused v f parts :
  m_working_state v = empty_state -> header_allowed (m_previous_data_frame v) f ->
  finalized (m_utf8_checker v) = false ->
  (m_opcode f = ping_frame \/ m_opcode f = pong_frame) ->
  (exists d v', receive_frame v f parts = Ok (incorrect_utf8_data, d, v')) /\
  (let text := (client_frame false text_frame 2 0, [[0xE2; 0x82]]) in
   let ping := (client_frame true ping_frame 0 0, []) in
   let rest := (client_frame true continuation_frame 1 0, [[0xAC]]) in
   (fst <$> receive_frames (new_validator true) [text; rest]) = Ok (Some [0xE2; 0x82; 0xAC]) /\
   (fst <$> receive_frames (new_validator true) [text; ping; rest]) = Ok None).
Proof.
  intros Hw Hh Hu Hop. split; [|split; vm_compute; reflexivity].
  assert (Hfin : m_final_flag f = true).
  { destruct Hh as (_ & _ & Hctl & _). apply Hctl. by destruct Hop as [-> | ->]. }
  assert (Hn : exists v1, process_new_frame v f = Ok (frame_header_is_valid, v1) /\
    m_working_state v1 = processing_frame /\ m_current_frame v1 = f /\
    m_utf8_checker v1 = m_utf8_checker v /\ m_validation_state v1 = frame_header_is_valid).
  { destruct Hh as (_ & (Hm & H1 & H2 & H3) & Hctl & _).
    destruct (Hctl ltac:(by destruct Hop as [-> | ->])) as [_ Hl].
    destruct v as [vs ws pdf cf cc uc uf um]; cbn in Hw. subst.
    unfold process_new_frame, validate_frame_header, check_previous_frame_type, start_frame,
      websocket_max_payload_size_without_ext.
    rewrite Hm, H1, H2, H3, Hfin. destruct Hop as [Ho|Ho]; rewrite Ho; cbn -[Z.ltb];
      rewrite (proj2 (Z.ltb_ge _ _)) by done; cbn; destruct pdf, uf; cbn;
      (eexists; split; [reflexivity|done]). }
  destruct Hn as (v1 & Hn & Hw1 & Hc1 & Hu1 & Hst1).
  unfold receive_frame. rewrite Hn. cbn [mbind result_bind].
  rewrite bool_decide_eq_true_2 by done. cbn [negb].
  destruct (process_parts_ping v1 parts) as (d & v2 & -> & Hu2 & Hc2);
    [done|by unfold is_state_still_valid; rewrite Hst1|unfold is_ping_pong; by rewrite Hc1|].
  cbn [mbind result_bind]. pose proof (finish_unfinished v2) as Hst.
  rewrite Hc2, Hc1, Hu2, Hu1 in Hst. specialize (Hst Hfin Hu).
  destruct (finish_frame v2) as [st v3]. cbn [fst] in Hst. subst st. by eexists _, _.
Qed.

Lemma interleaved_control_frame_refused_witness :
  exists d v', receive_frame
    (set_previous_data_frame (set_utf8_checker (new_validator true) (mk_utf8 2 1 valid)) prev_text)
    (client_frame true pong_frame 1 0) [[7]] = Ok (incorrect_utf8_data, d, v').
Proof.
  refine (proj1 (interleaved_control_frame_refused
    (set_previous_data_frame (set_utf8_checker (new_validator true) (mk_utf8 2 1 valid)) prev_text)
    (client_frame true pong_frame 1 0) [[7]] _ _ _ _)).
  - reflexivity.
  - unfold header_allowed, client_header. cbn. split_and!; try (reflexivity || discriminate).
    + repeat (apply list_elem_of_here || apply list_elem_of_further).
    + intros _. split; [reflexivity|vm_compute; discriminate].
  - reflexivity.
  - right. reflexivity.
Defined.

(** A checker in the error state refuses an ASCII character after [reset]. *)
Lemma invalid_refuses_ascii u c :
  m_state u = invalid -> m_current_symbol_rest_bytes u = 0 -> 0 <= c < 128 ->
  fst (Utf8.process_byte u c) = false.
Proof.
  destruct u as [sym rest st]; cbn. intros -> -> Hc. unfold Utf8.process_byte, check_overlong. cbn.
  assert (Hb : is_byte c) by (unfold is_byte; lia).
  rewrite test_ascii, (proj2 (Z.ltb_lt c 128)) by (done || lia). cbn.
  repeat (rewrite (proj2 (Z.eqb_neq _ _)) by lia; cbn). done.
Qed.

Lemma reset_scenario :
  let text := client_frame true text_frame 1 0 in
  let close := client_frame true connection_close_frame 3 0 in
  exists v1 v2 v3 d,
    process_new_frame (new_validator true) text = Ok (frame_header_is_valid, v1) /\
    process_and_unmask_next_payload_part v1 [0xFF] = Ok (incorrect_utf8_data, [0xFF], v2) /\
    ready (reset v2) /\ m_state (m_utf8_checker (reset v2)) = invalid /\
    m_current_symbol_rest_bytes (m_utf8_checker (reset v2)) = 0 /\
    receive_frame (new_validator true) close [[3; 232; 0x61]] = Ok (frame_is_valid, d, v3).
Proof.
  eexists _, _, _, _. split; [vm_compute; reflexivity|]. split; [vm_compute; reflexivity|].
  unfold ready. split_and!; vm_compute; reflexivity.
Qed.

(** After incorrect UTF-8 in a text payload, [reset] does not bring the
    validator back to its initial state: its checker stays in the error state, and
    from then on every close frame with a valid status code and a reason that
    starts with an ASCII character is refused, while a new validator accepts it -
    the connection calls [reset] in that situation to be able to read the peer's
    close frame. *)
Theorem reset_validator_refuses_close v f parts code c reason :
  ready v -> m_state (m_utf8_checker v) = invalid -> m_current_symbol_rest_bytes (m_utf8_checker v) = 0 ->
  client_header f -> m_opcode f = connection_close_frame -> m_final_flag f = true ->
  payload_len f <= 125 -> Forall is_bytes parts -> 0 <= c < 128 ->
  plain_payload f parts = write_number_to_big_endian_bytes 2 code ++ c :: reason ->
  (exists st d v', receive_frame v f parts = Ok (st, d, v') /\ st <> frame_is_valid) /\
  (let text := client_frame true text_frame 1 0 in
   let close := client_frame true connection_close_frame 3 0 in
   exists v1 v2 v3 d,
     process_new_frame (new_validator true) text = Ok (frame_header_is_valid, v1) /\
     process_and_unmask_next_payload_part v1 [0xFF] = Ok (incorrect_utf8_data, [0xFF], v2) /\
     ready (reset v2) /\ m_state (m_utf8_checker (reset v2)) = invalid /\
     m_current_symbol_rest_bytes (m_utf8_checker (reset v2)) = 0 /\
     receive_frame (new_validator true) close [[3; 232; 0x61]] = Ok (frame_is_valid, d, v3)).
Proof.
  intros Hr Hinv Hrest Hh Ho Hfin Hl Hb Hc Hp. split.
  2: exact reset_scenario.
  destruct (close_header v f Hr Hh Ho Hfin Hl) as (v1 & Hn & Hw & Hst & Hcur & Ht & He & Hu & Hf & Hm).
  unfold receive_frame. rewrite Hn. cbn [mbind result_bind].
  rewrite bool_decide_eq_true_2 by done. cbn [negb].
  assert (Hbp : is_bytes (plain_payload f parts)) by (apply mask_unmask_bytes; by apply Forall_concat).
  unfold plain_payload in Hp, Hbp. destruct parts as [|part parts].
  { by destruct (write_number_to_big_endian_bytes 2 code). }
  rewrite process_parts_concat. revert Hp Hbp. generalize (concat (part :: parts)) as data. intros data Hp Hbp.
  unfold process_and_unmask_next_payload_part. unfold is_state_still_valid at 1. rewrite Hw, Hst.
  rewrite bool_decide_eq_false_2 by done. rewrite <- unmask_reset, <- Hm in Hp, Hbp.
  set (v0 := set_validation_state v1 payload_part_is_valid).
  destruct (loop_close v0 data Ht) as (d & v2 & -> & _ & Hcase);
    [unfold v0; cbn; by rewrite Hcur|done|done|done|exact Hbp|].
  change (m_unmasker v0) with (m_unmasker v1) in Hcase.
  change (m_utf8_checker v0) with (m_utf8_checker v1) in Hcase. rewrite Hp in Hcase.
  cbn [mbind result_bind]. pose proof (finish_verdict v2) as Hv.
  destruct (finish_frame v2) as [st v3]. eexists _, _, _. split; [reflexivity|].
  intros ->. destruct (proj1 Hv eq_refl) as [Hvalid _].
  pose proof (write_be_length 2 code) as Hlen.
  destruct (write_number_to_big_endian_bytes 2 code) as [|a [|b [|]]]; try done.
  cbn [app] in Hcase. destruct Hcase as [[_ Hcase]|[_ Hcase]]; [congruence|].
  cbn [Utf8.process_bytes] in Hcase. rewrite Hu in Hcase.
  pose proof (invalid_refuses_ascii (m_utf8_checker v) c Hinv Hrest Hc) as Hno.
  destruct (Utf8.process_byte (m_utf8_checker v) c) as [[] u]; [done|]. congruence.
Qed.

Lemma reset_validator_refuses_close_witness :
  exists st d v', receive_frame (set_utf8_checker (new_validator true) (mk_utf8 0 0 invalid))
    (client_frame true connection_close_frame 3 0) [[3; 232; 0x61]] = Ok (st, d, v') /\
    st <> frame_is_valid.
Proof.
  refine (proj1 (reset_validator_refuses_close
    (set_utf8_checker (new_validator true) (mk_utf8 0 0 invalid))
    (client_frame true connection_close_frame 3 0) [[3; 232; 0x61]] 1000 0x61 [] _ _ _ _ _ _ _ _ _ _)).
  - unfold ready. cbn. split_and!; reflexivity.
  - reflexivity.
  - reflexivity.
  - unfold client_header. cbn. split_and!; reflexivity.
  - reflexivity.
  - reflexivity.
  - vm_compute. discriminate.
  - repeat constructor; vm_compute; congruence.
  - lia.
  - reflexivity.
Defined.
