(* ===== verification/Sendfile.v ===== *)
(** * Sending a piece of a file

    [restinio/sendfile.hpp], [restinio/sendfile_defs_posix.hpp] and the POSIX
    runners of [restinio/impl/sendfile_operation_posix.ipp]: the description of
    a piece of a file ([sendfile_t]) with the ownership of its descriptor, and
    the state machines that transfer it, the one over a plain Linux socket
    ([Native]) and the generic one of TLS sockets ([Buffered]). What a system
    call or an Asio operation answers is an argument of the step that uses it;
    [written_by] collects the part of the file the answers say went out. *)

From stdpp Require Import relations.
From S2P Require Import Prelude.

(** ** Descriptions *)

(*@ sendfile_defs_posix.hpp 44-45 null_file_descriptor *)
Definition null_file_descriptor : Z := -1.

(*@ sendfile.hpp 45-51 sendfile_default_chunk_size *)
Definition sendfile_default_chunk_size : Z := 1024 * 1024.
Definition sendfile_max_chunk_size : Z := 1024 * 1024 * 1024.

(*@ sendfile.hpp 72-82 clarify_chunk_size *)
Definition clarify_chunk_size (chunk_size_value : Z) : Z :=
  if 0 =? chunk_size_value then sendfile_default_chunk_size
  else if sendfile_max_chunk_size <? chunk_size_value then sendfile_max_chunk_size
  else chunk_size_value.

(** The two errors of [sendfile_t]'s setters. *)
Inductive sendfile_error : Type :=
| invalid_file_descriptor
| invalid_file_offset (offset_value file_total_size : Z).

(*@ sendfile.hpp 182-212 file_meta_t *)
Record file_meta_t : Type := mk_file_meta {
  m_file_total_size : Z;
  m_last_modified_at : Z }.

(** [file_descriptor_holder_t]: the descriptor it owns. A move leaves the
    source empty; the destructor answers the descriptors it closes. *)

(*@ sendfile.hpp 132-136 file_descriptor_holder_t::file_descriptor_holder_t *)
Definition fdh_move (fdh : Z) : Z * Z := (fdh, null_file_descriptor).

(*@ sendfile.hpp 154-158 file_descriptor_holder_t::is_valid *)
Definition fdh_is_valid (fdh : Z) : bool := negb (null_file_descriptor =? fdh).

(*@ sendfile.hpp 148-152 file_descriptor_holder_t::~file_descriptor_holder_t *)
Definition fdh_destroy (fdh : Z) : list Z := if fdh_is_valid fdh then [fdh] else [].

(*@ sendfile.hpp 138-146 file_descriptor_holder_t::operator= *)
Definition fdh_assign (this fdh : Z) : Z * Z * list Z :=
  let '(tmp, fdh) := fdh_move fdh in
  (* swap( *this, tmp ) *)
  let '(this, tmp) := (tmp, this) in
  (this, fdh, fdh_destroy tmp).

(*@ sendfile.hpp 436-455 sendfile_t *)
Record sendfile_t : Type := mk_sendfile {
  m_file_descriptor : Z;
  m_meta : file_meta_t;
  m_offset : Z;
  m_size : Z;
  m_chunk_size : Z;
  m_timelimit : Z }.

(*@ sendfile.hpp 232-245 sendfile_t::sendfile_t *)
Definition sendfile_ctor (fdh : Z) (meta : file_meta_t) (chunk : Z) : sendfile_t :=
  let '(fd, _) := fdh_move fdh in
  {| m_file_descriptor := fd; m_meta := meta; m_offset := 0;
     m_size := m_file_total_size meta; m_chunk_size := chunk; m_timelimit := 0 |}.

(*@ sendfile.hpp 467-477 sendfile *)
Definition sendfile (fd : Z) (meta : file_meta_t) (chunk_size : Z) : sendfile_t :=
  sendfile_ctor fd meta (clarify_chunk_size chunk_size).

Definition with_fd (sf : sendfile_t) (fd : Z) : sendfile_t :=
  {| m_file_descriptor := fd; m_meta := m_meta sf; m_offset := m_offset sf;
     m_size := m_size sf; m_chunk_size := m_chunk_size sf; m_timelimit := m_timelimit sf |}.

(*@ sendfile.hpp 272-279 sendfile_t::sendfile_t *)
Definition sendfile_move (sf : sendfile_t) : sendfile_t * sendfile_t :=
  let '(fd, rest) := fdh_move (m_file_descriptor sf) in (with_fd sf fd, with_fd sf rest).

(*@ sendfile.hpp 281-290 sendfile_t::operator= *)
Definition sendfile_assign (this sf : sendfile_t) : sendfile_t * sendfile_t * list Z :=
  let '(tmp, sf) := sendfile_move sf in
  let '(this, tmp) := (tmp, this) in
  (this, sf, fdh_destroy (m_file_descriptor tmp)).

(*@ sendfile.hpp 293-294 sendfile_t::is_valid *)
Definition sf_is_valid (sf : sendfile_t) : bool := fdh_is_valid (m_file_descriptor sf).

(*@ sendfile.hpp 426-434 sendfile_t::check_file_is_valid *)
Definition check_file_is_valid (sf : sendfile_t) : result sendfile_error unit :=
  if negb (sf_is_valid sf) then Err invalid_file_descriptor else Ok tt.

(** [offset_value] is a signed 64-bit number, [size_value] an unsigned one. *)
(*@ sendfile.hpp 318-341 sendfile_t::offset_and_size *)
Definition offset_and_size (sf : sendfile_t) (offset_value size_value : Z)
  : result sendfile_error sendfile_t :=
  _ ← check_file_is_valid sf;
  let total := m_file_total_size (m_meta sf) in
  if total <? wrap 64 offset_value then Err (invalid_file_offset offset_value total)
  else
    Ok {| m_file_descriptor := m_file_descriptor sf; m_meta := m_meta sf;
          m_offset := offset_value;
          m_size := Z.min (wrap 64 (total - wrap 64 offset_value)) size_value;
          m_chunk_size := m_chunk_size sf; m_timelimit := m_timelimit sf |}.

(*@ sendfile.hpp 359-366 sendfile_t::chunk_size *)
Definition set_chunk_size (sf : sendfile_t) (chunk : Z) : result sendfile_error sendfile_t :=
  _ ← check_file_is_valid sf;
  Ok {| m_file_descriptor := m_file_descriptor sf; m_meta := m_meta sf;
        m_offset := m_offset sf; m_size := m_size sf;
        m_chunk_size := clarify_chunk_size chunk; m_timelimit := m_timelimit sf |}.

(*@ sendfile.hpp 383-390 sendfile_t::timelimit *)
Definition set_timelimit (sf : sendfile_t) (timelimit_value : Z)
  : result sendfile_error sendfile_t :=
  _ ← check_file_is_valid sf;
  Ok {| m_file_descriptor := m_file_descriptor sf; m_meta := m_meta sf;
        m_offset := m_offset sf; m_size := m_size sf;
        m_chunk_size := m_chunk_size sf; m_timelimit := Z.max timelimit_value 0 |}.

(*@ sendfile.hpp 419-423 takeaway_file_descriptor *)
Definition takeaway_file_descriptor (target : sendfile_t) : Z * sendfile_t :=
  let '(fd, rest) := fdh_move (m_file_descriptor target) in (fd, with_fd target rest).

(** ** Runners *)

(** What the callback of a runner gets: no error, an error number of the
    system, [async_write_call_failed], or [async_read_some_at_call_failed]. *)
Inductive sf_error : Type :=
| sf_ok
| sf_system (errno : Z)
| sf_async_call_failed
| sf_async_read_failed.

#[global] Instance sf_error_eq_dec : EqDecision sf_error.
Proof. solve_decision. Defined.

(** Where a runner is between two answers of its environment. [Finished]
    holds what [m_after_sendfile_cb] was called with. *)
Inductive runner_phase : Type :=
| Native
| WaitWrite
| ReadFile
| AsyncWrite (n : Z)
| Finished (ec : sf_error) (transfered : Z).

(*@ impl/sendfile_operation.hpp 71-84 sendfile_operation_runner_base_t *)
Record runner_t : Type := mk_runner {
  m_next_write_offset : Z;
  m_remained_size : Z;
  m_transfered_size : Z;
  r_chunk_size : Z;
  r_phase : runner_phase;
  written_by : list (Z * Z) }.

Definition set_phase (r : runner_t) (p : runner_phase) : runner_t :=
  {| m_next_write_offset := m_next_write_offset r; m_remained_size := m_remained_size r;
     m_transfered_size := m_transfered_size r; r_chunk_size := r_chunk_size r;
     r_phase := p; written_by := written_by r |}.

Definition after_sendfile_cb (r : runner_t) (ec : sf_error) : runner_t :=
  set_phase r (Finished ec (m_transfered_size r)).

(** [n] bytes at the current offset went out. *)
Definition shift (r : runner_t) (n : Z) : runner_t :=
  {| m_next_write_offset := m_next_write_offset r + n;
     m_remained_size := wrap 64 (m_remained_size r - n);
     m_transfered_size := wrap 64 (m_transfered_size r + n);
     r_chunk_size := r_chunk_size r; r_phase := r_phase r;
     written_by := written_by r ++ [(m_next_write_offset r, n)] |}.

(** The size asked of one system call. *)
(*@ impl/sendfile_operation_posix.ipp 273-282 call_native_sendfile *)
Definition request_size (r : runner_t) : Z := Z.min (m_remained_size r) (r_chunk_size r).

(*@ impl/sendfile_operation.hpp 54-67 sendfile_operation_runner_base_t *)
Definition runner_ctor (sf : sendfile_t) (p : runner_phase) : runner_t :=
  {| m_next_write_offset := m_offset sf; m_remained_size := m_size sf;
     m_transfered_size := 0; r_chunk_size := m_chunk_size sf; r_phase := p;
     written_by := [] |}.

(** *** The runner of a plain Linux socket *)
Module Linux.

(** [async_wait] either throws or leaves the runner waiting. *)
(*@ impl/sendfile_operation_posix.ipp 285-321 try_initiate_waiting_for_write_readiness *)
Definition try_initiate_waiting_for_write_readiness (throws : bool) (r : runner_t) : runner_t :=
  if throws then after_sendfile_cb r sf_async_call_failed else set_phase r WaitWrite.

(** The head of the loop of [init_next_write], up to the system call. *)
(*@ impl/sendfile_operation_posix.ipp 350-362 init_next_write *)
Definition loop_head (throws : bool) (r : runner_t) : runner_t :=
  if 0 =? m_remained_size r then try_initiate_waiting_for_write_readiness throws r
  else set_phase r Native.

(** Entry of [init_next_write]: [nb] is the error of the switch to the
    non-blocking mode, where it fails. *)
(*@ impl/sendfile_operation_posix.ipp 344-348 init_next_write *)
Definition init_next_write (nb : option Z) (throws : bool) (r : runner_t) : runner_t :=
  match nb with
  | Some ec => after_sendfile_cb r (sf_system ec)
  | None => loop_head throws r
  end.

(*@ impl/sendfile_operation_posix.ipp 334-338 start *)
Definition start (nb : option Z) (throws : bool) (r : runner_t) : runner_t :=
  init_next_write nb throws r.

Definition EAGAIN : Z := 11.
Definition EINTR : Z := 4.

(** The rest of the loop body, on the answer [n] (and [errno]) of
    [sendfile64], up to the next call. *)
(*@ impl/sendfile_operation_posix.ipp 364-397 init_next_write *)
Definition on_native (n errno : Z) (throws : bool) (r : runner_t) : runner_t :=
  if -1 =? n then
    if (errno =? EAGAIN) || (errno =? EINTR)
    then try_initiate_waiting_for_write_readiness throws r
    else after_sendfile_cb r (sf_system errno)
  else if 0 =? n then try_initiate_waiting_for_write_readiness throws r
  else loop_head throws (shift r n).

(** The handler of [async_wait]. *)
(*@ impl/sendfile_operation_posix.ipp 298-309 try_initiate_waiting_for_write_readiness *)
Definition on_wait (ec : sf_error) (nb : option Z) (throws : bool) (r : runner_t) : runner_t :=
  if negb (bool_decide (ec = sf_ok)) || (0 =? m_remained_size r)
  then after_sendfile_cb r ec
  else init_next_write nb throws r.

(** One answer of the environment. [sendfile64] answers [-1] or a count no
    larger than the one asked for. *)
Inductive step : runner_t -> runner_t -> Prop :=
| step_native r n errno throws :
    r_phase r = Native -> n = -1 \/ 0 <= n <= request_size r ->
    step r (on_native n errno throws r)
| step_wait r ec nb throws :
    r_phase r = WaitWrite -> step r (on_wait ec nb throws r).

End Linux.

(** *** The runner of other sockets (TLS): read into a buffer, then write it *)
Module Buffered.

(** [start_buffered], on the error of [lseek] where it fails. *)
(*@ impl/sendfile_operation_posix.ipp 41-60 start_buffered *)
Definition start_buffered (seek : option Z) (r : runner_t) : runner_t :=
  match seek with
  | None => set_phase r ReadFile
  | Some errno => after_sendfile_cb r (sf_system errno)
  end.

Definition EINTR : Z := 4.
Definition asio_eof : Z := 2.

(** The loop body of [init_next_write], on the answer of [read]. *)
(*@ impl/sendfile_operation_posix.ipp 66-127 init_next_write *)
Definition on_read (n errno : Z) (throws : bool) (r : runner_t) : runner_t :=
  if -1 =? n then
    if errno =? EINTR then set_phase r ReadFile
    else after_sendfile_cb r (sf_system errno)
  else if 0 =? n then after_sendfile_cb r (sf_system asio_eof)
  else if throws then after_sendfile_cb r sf_async_call_failed
  else set_phase r (AsyncWrite n).

(** The completion handler of [async_write]. *)
(*@ impl/sendfile_operation_posix.ipp 132-162 make_async_write_handler *)
Definition on_written (ec : sf_error) (written : Z) (r : runner_t) : runner_t :=
  if bool_decide (ec = sf_ok) then
    let r := shift r written in
    if 0 =? m_remained_size r then after_sendfile_cb r ec else set_phase r ReadFile
  else after_sendfile_cb r ec.

(** [read] answers [-1] or a count no larger than the buffer it is given;
    [async_write] completes without an error only when all was written. *)
Inductive step : runner_t -> runner_t -> Prop :=
| step_read r n errno throws :
    r_phase r = ReadFile -> n = -1 \/ 0 <= n <= request_size r ->
    step r (on_read n errno throws r)
| step_written r n ec written :
    r_phase r = AsyncWrite n -> (ec = sf_ok -> written = n) ->
    step r (on_written ec written r).

End Buffered.

(** ** What a description promises *)

(** A piece inside the file, sent in chunks of an allowed size. *)
Record wf_sendfile (sf : sendfile_t) : Prop := {
  wf_total : 0 <= m_file_total_size (m_meta sf) < 2 ^ 63;
  wf_offset : 0 <= m_offset sf;
  wf_size : 0 <= m_size sf;
  wf_inside : m_offset sf + m_size sf <= m_file_total_size (m_meta sf);
  wf_chunk : 1 <= m_chunk_size sf <= sendfile_max_chunk_size;
  wf_timelimit : 0 <= m_timelimit sf }.

Lemma clarify_chunk_size_range v :
  0 <= v -> 1 <= clarify_chunk_size v <= sendfile_max_chunk_size.
Proof.
  intros Hv. unfold clarify_chunk_size, sendfile_default_chunk_size, sendfile_max_chunk_size.
  repeat case_test; to_prop; lia.
Qed.

Lemma sendfile_wf fd meta chunk :
  0 <= m_file_total_size meta < 2 ^ 63 -> 0 <= chunk -> wf_sendfile (sendfile fd meta chunk).
Proof.
  intros Ht Hc. pose proof (clarify_chunk_size_range chunk Hc).
  split; cbn [sendfile sendfile_ctor fdh_move m_meta m_offset m_size m_chunk_size m_timelimit]; lia.
Qed.

Lemma check_file_is_valid_eq sf :
  check_file_is_valid sf = if sf_is_valid sf then Ok tt else Err invalid_file_descriptor.
Proof. unfold check_file_is_valid. by destruct (sf_is_valid sf). Qed.

Lemma offset_and_size_eq sf o s :
  0 <= m_file_total_size (m_meta sf) < 2 ^ 63 -> - 2 ^ 63 <= o < 2 ^ 63 ->
  offset_and_size sf o s =
    if negb (sf_is_valid sf) then Err invalid_file_descriptor
    else if bool_decide (0 <= o <= m_file_total_size (m_meta sf))
    then Ok {| m_file_descriptor := m_file_descriptor sf; m_meta := m_meta sf;
               m_offset := o; m_size := Z.min (m_file_total_size (m_meta sf) - o) s;
               m_chunk_size := m_chunk_size sf; m_timelimit := m_timelimit sf |}
    else Err (invalid_file_offset o (m_file_total_size (m_meta sf))).
Proof.
  intros Ht Ho. unfold offset_and_size. rewrite check_file_is_valid_eq.
  destruct (sf_is_valid sf); [|done]. cbn.
  destruct (decide (0 <= o)) as [Hp|Hp].
  - rewrite (wrap_small 64 o) by lia.
    destruct (Z.ltb_spec (m_file_total_size (m_meta sf)) o).
    + rewrite bool_decide_false by lia. done.
    + rewrite bool_decide_true by lia. rewrite wrap_small by lia. done.
  - rewrite bool_decide_false by lia.
    assert (Hw : wrap 64 o = o + 2 ^ 64).
    { unfold wrap. change (2 ^ 64) with 18446744073709551616 in *.
      change (2 ^ 63) with 9223372036854775808 in *. div_lia. }
    rewrite Hw. destruct (Z.ltb_spec (m_file_total_size (m_meta sf)) (o + 2 ^ 64)); [done|lia].
Qed.

(** ** Transfers: the part of the file that went out *)

(** [ranges] are adjacent pieces from [off] on, of [len] bytes together, each
    no longer than [chunk]. *)
Fixpoint adjacent (off len chunk : Z) (ranges : list (Z * Z)) : Prop :=
  match ranges with
  | [] => len = 0
  | (o, n) :: rest => o = off /\ 0 < n <= chunk /\ adjacent (off + n) (len - n) chunk rest
  end.

Lemma adjacent_snoc off len chunk ranges n :
  adjacent off len chunk ranges -> 0 < n <= chunk ->
  adjacent off (len + n) chunk (ranges ++ [(off + len, n)]).
Proof.
  revert off len. induction ranges as [|[o k] rest IH]; intros off len; simpl.
  - intros -> Hn. rewrite Z.add_0_r. repeat split; lia.
  - intros (-> & Hk & Hr) Hn. split; [done|]. split; [done|].
    specialize (IH _ _ Hr Hn).
    replace (off + k + (len - k)) with (off + len) in IH by lia.
    by replace (len + n - k) with (len - k + n) by lia.
Qed.

(** The invariant of both runners, for the piece [sf]. *)
Record runner_inv (sf : sendfile_t) (r : runner_t) : Prop := {
  inv_offset : m_next_write_offset r = m_offset sf + m_transfered_size r;
  inv_sizes : m_remained_size r + m_transfered_size r = m_size sf;
  inv_remained : 0 <= m_remained_size r;
  inv_transfered : 0 <= m_transfered_size r;
  inv_chunk : r_chunk_size r = m_chunk_size sf;
  inv_written : adjacent (m_offset sf) (m_transfered_size r) (m_chunk_size sf) (written_by r);
  inv_phase :
    match r_phase r with
    | Native => 0 < m_remained_size r
    | AsyncWrite n => 0 < n <= request_size r
    | Finished ec transfered =>
        transfered = m_transfered_size r /\ (ec = sf_ok -> m_remained_size r = 0)
    | WaitWrite | ReadFile => True
    end }.

Lemma runner_inv_ctor sf p :
  wf_sendfile sf -> p = WaitWrite \/ p = ReadFile -> runner_inv sf (runner_ctor sf p).
Proof.
  intros [] Hp. split; cbn; try lia.
  destruct Hp as [-> | ->]; done.
Qed.

Lemma runner_inv_phase sf r p :
  runner_inv sf r ->
  match p with
  | Native => 0 < m_remained_size r
  | AsyncWrite n => 0 < n <= request_size r
  | Finished ec transfered =>
      transfered = m_transfered_size r /\ (ec = sf_ok -> m_remained_size r = 0)
  | WaitWrite | ReadFile => True
  end ->
  runner_inv sf (set_phase r p).
Proof. intros [] Hp. by split. Qed.

Lemma runner_inv_cb sf r ec :
  runner_inv sf r -> (ec = sf_ok -> m_remained_size r = 0) ->
  runner_inv sf (after_sendfile_cb r ec).
Proof. intros Hr He. by apply runner_inv_phase. Qed.

(** Sending [n] bytes keeps the invariant, whatever the phase becomes. *)
Lemma runner_inv_shift sf r n :
  wf_sendfile sf -> runner_inv sf r -> 0 < n <= request_size r ->
  runner_inv sf (set_phase (shift r n) WaitWrite) /\
  m_remained_size (shift r n) = m_remained_size r - n.
Proof.
  intros [] [] Hn. unfold request_size in Hn.
  assert (2 ^ 63 < 2 ^ 64) by lia.
  unfold shift, set_phase. cbn.
  rewrite (wrap_small 64 (m_remained_size r - n)) by lia.
  rewrite (wrap_small 64 (m_transfered_size r + n)) by lia.
  split; [|done]. split; cbn; try lia; try done.
  - rewrite inv_offset0. by apply adjacent_snoc; [|lia].
Qed.

#[export] Hint Resolve runner_inv_phase runner_inv_cb : restinio.

(** *** The Linux runner *)

Lemma linux_wait_inv sf r throws :
  runner_inv sf r ->
  runner_inv sf (Linux.try_initiate_waiting_for_write_readiness throws r).
Proof.
  intros Hr. unfold Linux.try_initiate_waiting_for_write_readiness.
  destruct throws; [by apply runner_inv_cb | by apply runner_inv_phase].
Qed.

Lemma linux_loop_head_inv sf r throws :
  runner_inv sf r -> runner_inv sf (Linux.loop_head throws r).
Proof.
  intros Hr. unfold Linux.loop_head. destruct (Z.eqb_spec 0 (m_remained_size r)).
  - by apply linux_wait_inv.
  - apply runner_inv_phase; [done|]. pose proof (inv_remained _ _ Hr). lia.
Qed.

Lemma linux_init_inv sf r nb throws :
  runner_inv sf r -> runner_inv sf (Linux.init_next_write nb throws r).
Proof.
  intros Hr. destruct nb; [by apply runner_inv_cb | by apply linux_loop_head_inv].
Qed.

(** The phase of the argument plays no role in [loop_head]. *)
Lemma linux_loop_head_phase r p throws :
  Linux.loop_head throws (set_phase r p) = Linux.loop_head throws r.
Proof. done. Qed.

Lemma linux_step_inv sf r r' :
  wf_sendfile sf -> runner_inv sf r -> Linux.step r r' -> runner_inv sf r'.
Proof.
  intros Hsf Hr. destruct 1 as [r n errno throws Hp Hn | r ec nb throws Hp].
  - unfold Linux.on_native. destruct (Z.eqb_spec (-1) n) as [<-|].
    { destruct (_ || _); [by apply linux_wait_inv | by apply runner_inv_cb]. }
    destruct (Z.eqb_spec 0 n) as [<-|].
    { by apply linux_wait_inv. }
    destruct (runner_inv_shift sf r n) as [Hs _]; [done | done | lia |].
    apply (linux_loop_head_inv _ _ throws) in Hs. by rewrite linux_loop_head_phase in Hs.
  - unfold Linux.on_wait. destruct (bool_decide_reflect (ec = sf_ok)) as [-> | He]; cbn [negb orb].
    + destruct (Z.eqb_spec 0 (m_remained_size r)).
      * by apply runner_inv_cb.
      * by apply linux_init_inv.
    + by apply runner_inv_cb.
Qed.

Lemma linux_reach_inv sf nb throws r :
  wf_sendfile sf ->
  rtc Linux.step (Linux.start nb throws (runner_ctor sf WaitWrite)) r -> runner_inv sf r.
Proof.
  intros Hsf H. remember (Linux.start nb throws (runner_ctor sf WaitWrite)) as r0.
  assert (H0 : runner_inv sf r0).
  { subst. apply linux_init_inv, runner_inv_ctor; auto. }
  clear Heqr0. induction H as [|r0 r1 r2 Hs Hr IH]; [done|].
  by apply IH, (linux_step_inv sf r0).
Qed.

(** The runner answered by a system whose [sendfile64] takes [answer r] bytes
    and whose socket is always ready. *)
Fixpoint linux_drive (fuel : nat) (answer : runner_t -> Z) (r : runner_t) : runner_t :=
  match fuel with
  | O => r
  | S fuel' =>
      match r_phase r with
      | Native => linux_drive fuel' answer (Linux.on_native (answer r) 0 false r)
      | WaitWrite => linux_drive fuel' answer (Linux.on_wait sf_ok None false r)
      | _ => r
      end
  end.

Lemma linux_drive_finishes sf answer (Hsf : wf_sendfile sf)
  (Ha : forall r, 0 < request_size r -> 0 < answer r <= request_size r) fuel :
  forall r, runner_inv sf r ->
    (r_phase r = Native \/ r_phase r = WaitWrite /\ m_remained_size r = 0) ->
    m_remained_size r + 2 <= Z.of_nat fuel ->
    r_phase (linux_drive fuel answer r) = Finished sf_ok (m_size sf).
Proof.
  induction fuel as [|fuel IH]; intros r Hr Hp Hf.
  { pose proof (inv_remained _ _ Hr). lia. }
  cbn [linux_drive]. destruct Hp as [Hp | [Hp H0]]; rewrite Hp.
  - pose proof (inv_phase _ _ Hr) as Hrem. rewrite Hp in Hrem.
    assert (Hq : 0 < request_size r).
    { unfold request_size. rewrite (inv_chunk _ _ Hr). destruct Hsf. lia. }
    specialize (Ha r Hq).
    destruct (runner_inv_shift sf r (answer r)) as [Hs Hm]; [done | done | done |].
    unfold Linux.on_native. rewrite (proj2 (Z.eqb_neq _ _)), (proj2 (Z.eqb_neq _ _)) by lia.
    apply IH.
    + apply linux_loop_head_inv with (throws := false) in Hs.
      by rewrite linux_loop_head_phase in Hs.
    + unfold Linux.loop_head. destruct (Z.eqb_spec 0 (m_remained_size (shift r (answer r)))); auto.
    + unfold Linux.loop_head.
      destruct (Z.eqb_spec 0 (m_remained_size (shift r (answer r)))); cbn [Linux.try_initiate_waiting_for_write_readiness set_phase m_remained_size]; lia.
  - unfold Linux.on_wait. rewrite bool_decide_true by done. cbn [negb orb].
    rewrite H0. cbn. pose proof (inv_sizes _ _ Hr).
    destruct fuel; cbn; f_equal; lia.
Qed.

(** C34 (safety). However [sendfile64] splits the data, and whatever errors
    and waits occur, the runner of a plain Linux socket writes adjacent
    pieces of the described part of the file, in order and each within the
    chunk size; it reports success only when exactly the whole part went out,
    and otherwise reports the size that did. *)
Theorem linux_transfer_exact sf nb throws r
  (Hsf : wf_sendfile sf)
  (Hr : rtc Linux.step (Linux.start nb throws (runner_ctor sf WaitWrite)) r) :
  adjacent (m_offset sf) (m_transfered_size r) (m_chunk_size sf) (written_by r) /\
  m_transfered_size r <= m_size sf /\
  forall ec n, r_phase r = Finished ec n ->
    n = m_transfered_size r /\ (ec = sf_ok -> n = m_size sf) /\
    forall r', ~ Linux.step r r'.
Proof.
  pose proof (linux_reach_inv sf nb throws r Hsf Hr) as Hi.
  pose proof (inv_sizes _ _ Hi). pose proof (inv_remained _ _ Hi).
  split; [by apply Hi|]. split; [lia|]. intros ec n Hp.
  pose proof (inv_phase _ _ Hi) as Hf. rewrite Hp in Hf. destruct Hf as [-> Hok].
  split; [done|]. split.
  - intros ->. specialize (Hok eq_refl). lia.
  - intros r' Hs. inversion Hs; congruence.
Qed.

(** On a socket that stays writable and a file long
    enough, the Linux runner reports success for the whole piece after at most
    one system call per byte and one wait. *)
Theorem linux_transfer_terminates sf answer fuel
  (Hsf : wf_sendfile sf)
  (Ha : forall r, 0 < request_size r -> 0 < answer r <= request_size r)
  (Hf : m_size sf + 2 <= Z.of_nat fuel) :
  r_phase (linux_drive fuel answer (Linux.start None false (runner_ctor sf WaitWrite)))
  = Finished sf_ok (m_size sf).
Proof.
  set (r0 := Linux.start None false (runner_ctor sf WaitWrite)).
  assert (Hm : m_remained_size r0 = m_size sf).
  { unfold r0, Linux.start, Linux.init_next_write, Linux.loop_head. by case_test. }
  apply (linux_drive_finishes sf); [done | done | | | by rewrite Hm].
  - apply linux_init_inv, runner_inv_ctor; auto.
  - unfold r0, Linux.start, Linux.init_next_write, Linux.loop_head in *. case_test; auto.
    right. split; [done|]. to_prop. cbn in *. lia.
Qed.

(** [k] rounds of a [sendfile64] that answers 0, the end of the file, on a
    writable socket. *)
Fixpoint linux_eof_rounds (k : nat) (r : runner_t) : runner_t :=
  match k with
  | O => r
  | S k' => linux_eof_rounds k' (Linux.on_wait sf_ok None false (Linux.on_native 0 0 false r))
  end.

(** When the file turns out shorter than the piece,
    [sendfile64] answers 0 and the Linux runner, which takes that for a full
    socket buffer, waits and asks again without end: any number of rounds
    leaves it where it was, and its callback is never called. The generic
    runner reports the end of the file at once. *)
Theorem linux_short_file_livelock sf nb throws r k
  (Hsf : wf_sendfile sf)
  (Hr : rtc Linux.step (Linux.start nb throws (runner_ctor sf WaitWrite)) r)
  (Hp : r_phase r = Native) :
  linux_eof_rounds k r = r /\
  r_phase (Buffered.on_read 0 0 false r)
  = Finished (sf_system Buffered.asio_eof) (m_transfered_size r).
Proof.
  split; [|done].
  pose proof (inv_phase _ _ (linux_reach_inv sf nb throws r Hsf Hr)) as Hrem.
  rewrite Hp in Hrem.
  assert (H1 : Linux.on_wait sf_ok None false (Linux.on_native 0 0 false r) = r).
  { destruct r as [o [|rem|rem] t c p w]; cbn in Hrem, Hp |- *; [lia| |lia]. by subst. }
  induction k as [|k IH]; [done|]. cbn [linux_eof_rounds]. by rewrite H1.
Qed.

(** *** The generic runner *)

Lemma buffered_step_inv sf r r' :
  wf_sendfile sf -> runner_inv sf r -> Buffered.step r r' -> runner_inv sf r'.
Proof.
  intros Hsf Hr. destruct 1 as [r n errno throws Hp Hn | r n ec written Hp Hw].
  - unfold Buffered.on_read. destruct (Z.eqb_spec (-1) n) as [<-|].
    { destruct (errno =? _); [by apply runner_inv_phase | by apply runner_inv_cb]. }
    destruct (Z.eqb_spec 0 n) as [<-|]; [by apply runner_inv_cb|].
    destruct throws; [by apply runner_inv_cb|]. apply runner_inv_phase; [done | lia].
  - unfold Buffered.on_written. case_bool_decide as He; [|by apply runner_inv_cb].
    rewrite (Hw He) in *. pose proof (inv_phase _ _ Hr) as Hn. rewrite Hp in Hn.
    destruct (runner_inv_shift sf r n Hsf Hr Hn) as [Hs _].
    pose proof (runner_inv_phase _ _ ReadFile Hs I) as Hrd.
    destruct (Z.eqb_spec 0 (m_remained_size (shift r n))) as [H0|]; [|exact Hrd].
    apply (runner_inv_phase _ _ (Finished ec (m_transfered_size (shift r n)))) in Hs; [exact Hs|].
    by split.
Qed.

Lemma buffered_reach_inv sf seek r :
  wf_sendfile sf ->
  rtc Buffered.step (Buffered.start_buffered seek (runner_ctor sf ReadFile)) r -> runner_inv sf r.
Proof.
  intros Hsf H. remember (Buffered.start_buffered seek (runner_ctor sf ReadFile)) as r0.
  assert (H0 : runner_inv sf r0).
  { subst. destruct seek; [apply runner_inv_cb; [apply runner_inv_ctor; auto | done]|].
    apply runner_inv_phase, I. apply runner_inv_ctor; auto. }
  clear Heqr0. induction H as [|r0 r1 r2 Hs Hr IH]; [done|].
  by apply IH, (buffered_step_inv sf r0).
Qed.

(** Success is reported from the completion of a write, hence of some bytes. *)
Lemma buffered_step_success sf r r' n :
  wf_sendfile sf -> runner_inv sf r -> Buffered.step r r' ->
  r_phase r' = Finished sf_ok n -> 0 < m_transfered_size r'.
Proof.
  intros Hsf Hr Hs Hf. pose proof (buffered_step_inv sf r r' Hsf Hr Hs) as Hi.
  destruct Hs as [r k errno throws Hp Hk | r k ec written Hp Hw].
  - exfalso. revert Hf. unfold Buffered.on_read.
    repeat case_match; cbn; congruence.
  - revert Hf Hi. unfold Buffered.on_written. case_bool_decide as He; [|cbn; congruence].
    rewrite (Hw He). pose proof (inv_phase _ _ Hr) as Hn. rewrite Hp in Hn.
    destruct (runner_inv_shift sf r k Hsf Hr Hn) as [Hs Hm].
    pose proof (inv_sizes _ _ Hs : m_remained_size (shift r k) + m_transfered_size (shift r k)
      = m_size sf) as H1.
    pose proof (inv_sizes _ _ Hr). pose proof (inv_transfered _ _ Hr). rewrite Hm in H1.
    assert (0 < m_transfered_size (shift r k)) by lia.
    by destruct (0 =? m_remained_size (shift r k)).
Qed.

Lemma buffered_success_positive sf seek r :
  wf_sendfile sf ->
  rtc Buffered.step (Buffered.start_buffered seek (runner_ctor sf ReadFile)) r ->
  forall n, r_phase r = Finished sf_ok n -> 0 < m_transfered_size r.
Proof.
  intros Hsf H n Hn. apply rtc_inv_r in H as [<- | (r0 & H & Hs)].
  - by destruct seek.
  - by apply (buffered_step_success sf r0 r n); [|apply (buffered_reach_inv sf seek)| |].
Qed.

(** The generic runner has the same contract: adjacent pieces in
    order, success only for the whole part. But it never reports success for
    an empty part, which the Linux runner completes at once: [read] is asked
    for zero bytes, its zero is taken for the end of the file, and a response
    with an empty file fails on a TLS connection. *)
Theorem buffered_transfer_exact sf seek r
  (Hsf : wf_sendfile sf)
  (Hr : rtc Buffered.step (Buffered.start_buffered seek (runner_ctor sf ReadFile)) r) :
  adjacent (m_offset sf) (m_transfered_size r) (m_chunk_size sf) (written_by r) /\
  forall ec n, r_phase r = Finished ec n ->
    n = m_transfered_size r /\ (ec = sf_ok -> n = m_size sf /\ 0 < n) /\
    forall r', ~ Buffered.step r r'.
Proof.
  pose proof (buffered_reach_inv sf seek r Hsf Hr) as Hi.
  pose proof (inv_sizes _ _ Hi). pose proof (inv_remained _ _ Hi).
  split; [by apply Hi|]. intros ec n Hp.
  pose proof (inv_phase _ _ Hi) as Hf. rewrite Hp in Hf. destruct Hf as [-> Hok].
  split; [done|]. split; [|intros r' Hs; inversion Hs; congruence].
  intros ->. specialize (Hok eq_refl). split; [lia|].
  by apply (buffered_success_positive sf seek r Hsf Hr (m_transfered_size r)).
Qed.

(** ** Offsets *)

(** The operations a user composes a description with. *)
Inductive setup : Type :=
| SetOffsetAndSize (offset_value size_value : Z)
| SetChunkSize (chunk : Z)
| SetTimelimit (timelimit_value : Z).

Definition apply_setup (sf : sendfile_t) (s : setup) : result sendfile_error sendfile_t :=
  match s with
  | SetOffsetAndSize o n => offset_and_size sf o n
  | SetChunkSize c => set_chunk_size sf c
  | SetTimelimit t => set_timelimit sf t
  end.

Definition setup_in_range (s : setup) : Prop :=
  match s with
  | SetOffsetAndSize o n => - 2 ^ 63 <= o < 2 ^ 63 /\ 0 <= n < 2 ^ 64
  | SetChunkSize c => 0 <= c < 2 ^ 64
  | SetTimelimit _ => True
  end.

Lemma apply_setup_wf sf s sf' :
  wf_sendfile sf -> setup_in_range s -> apply_setup sf s = Ok sf' ->
  wf_sendfile sf' /\ m_meta sf' = m_meta sf /\ m_file_descriptor sf' = m_file_descriptor sf.
Proof.
  intros Hw Hs. pose proof Hw as [].
  destruct s as [o n | c | t]; cbn [apply_setup setup_in_range] in *.
  - rewrite offset_and_size_eq by tauto.
    destruct (negb _); [done|]. case_bool_decide; [|done]. intros [= <-].
    split; [|done]. split; cbn; lia.
  - unfold set_chunk_size. rewrite check_file_is_valid_eq.
    destruct (sf_is_valid sf); [|done]. intros [= <-]. split; [|done].
    pose proof (clarify_chunk_size_range c). split; cbn; lia.
  - unfold set_timelimit. rewrite check_file_is_valid_eq.
    destruct (sf_is_valid sf); [|done]. intros [= <-]. split; [|done].
    split; cbn; lia.
Qed.

(** A description built by [sendfile] and any sequence of
    setters names a part inside the file with a chunk size between 1 and its
    maximum; a setter fails exactly on an offset outside the file (a negative
    one, cast to an unsigned number, included) or once the descriptor was
    moved away, and every setter of a moved-from description does fail. *)
Theorem sendfile_stays_inside fd meta chunk ss sf
  (Ht : 0 <= m_file_total_size meta < 2 ^ 63) (Hc : 0 <= chunk < 2 ^ 64)
  (Hfd : fd <> null_file_descriptor) (Hss : Forall setup_in_range ss)
  (Hsf : foldM apply_setup (sendfile fd meta chunk) ss = Ok sf) :
  wf_sendfile sf /\ m_meta sf = meta /\
  (forall s, setup_in_range s ->
     is_ok (apply_setup sf s) =
       match s with
       | SetOffsetAndSize o _ => bool_decide (0 <= o <= m_file_total_size meta)
       | _ => true
       end /\
     apply_setup (snd (sendfile_move sf)) s = Err invalid_file_descriptor).
Proof.
  assert (Hg : forall ss sf0, wf_sendfile sf0 -> Forall setup_in_range ss ->
    foldM apply_setup sf0 ss = Ok sf ->
    wf_sendfile sf /\ m_meta sf = m_meta sf0 /\ m_file_descriptor sf = m_file_descriptor sf0).
  { clear. induction ss as [|s ss IH]; intros sf0 Hw Hss; cbn; [by intros [= <-]|].
    inversion_clear Hss as [|? ? Hs Hss']. destruct (apply_setup sf0 s) as [sf1|] eqn:E; [|done].
    destruct (apply_setup_wf sf0 s sf1 Hw Hs E) as (Hw1 & <- & <-). by apply IH. }
  destruct (Hg ss (sendfile fd meta chunk)) as (Hw & Hm & Hd);
    [apply sendfile_wf; lia | done | done |].
  cbn in Hm, Hd. split; [done|]. split; [done|]. intros s Hs.
  assert (Hv : sf_is_valid sf = true).
  { unfold sf_is_valid, fdh_is_valid. rewrite Hd.
    by rewrite negb_true_iff, Z.eqb_neq. }
  pose proof (wf_total _ Hw).
  destruct s as [o n | c | t]; cbn [apply_setup setup_in_range] in *.
  - rewrite offset_and_size_eq by tauto. rewrite Hv, Hm. cbn [negb].
    split; [by case_bool_decide|]. done.
  - unfold set_chunk_size. rewrite check_file_is_valid_eq, Hv. done.
  - unfold set_timelimit. rewrite check_file_is_valid_eq, Hv. done.
Qed.

(** ** Witnesses *)

(** Bytes 2 to 6 of a file of ten, three at a time. *)
Definition example_piece : sendfile_t :=
  {| m_file_descriptor := 5; m_meta := mk_file_meta 10 0; m_offset := 2; m_size := 5;
     m_chunk_size := 3; m_timelimit := 0 |}.

Lemma example_piece_wf : wf_sendfile example_piece.
Proof. split; vm_compute; repeat split; discriminate. Defined.

Definition example_sent : runner_t :=
  Linux.on_wait sf_ok None false
    (Linux.on_native 2 0 false
       (Linux.on_native 3 0 false (Linux.start None false (runner_ctor example_piece WaitWrite)))).

Lemma example_sent_reachable :
  rtc Linux.step (Linux.start None false (runner_ctor example_piece WaitWrite)) example_sent.
Proof.
  eapply rtc_l; [apply (Linux.step_native _ 3 0 false); [done | right; by vm_compute]|].
  eapply rtc_l; [apply (Linux.step_native _ 2 0 false); [done | right; by vm_compute]|].
  eapply rtc_l; [apply (Linux.step_wait _ sf_ok None false); done|]. apply rtc_refl.
Defined.

Lemma linux_transfer_exact_witness :
  r_phase example_sent = Finished sf_ok 5 /\ written_by example_sent = [(2, 3); (5, 2)] /\
  adjacent 2 5 3 (written_by example_sent).
Proof.
  split; [done|]. split; [done|].
  apply (linux_transfer_exact example_piece None false example_sent
           example_piece_wf example_sent_reachable).
Defined.

Lemma linux_transfer_terminates_witness :
  r_phase (linux_drive 7 (fun _ => 1) (Linux.start None false (runner_ctor example_piece WaitWrite)))
  = Finished sf_ok 5.
Proof.
  apply (linux_transfer_terminates example_piece (fun _ => 1) 7 example_piece_wf).
  - intros r Hr. lia.
  - by vm_compute.
Defined.

Lemma linux_short_file_livelock_witness :
  let r := Linux.start None false (runner_ctor example_piece WaitWrite) in
  linux_eof_rounds 1000 r = r.
Proof.
  apply (linux_short_file_livelock example_piece None false _ 1000 example_piece_wf);
    [apply rtc_refl | done].
Defined.

Definition example_buffered : runner_t :=
  Buffered.on_written sf_ok 2 (Buffered.on_read 2 0 false
    (Buffered.on_written sf_ok 3 (Buffered.on_read 3 0 false
       (Buffered.start_buffered None (runner_ctor example_piece ReadFile))))).

Lemma example_buffered_reachable :
  rtc Buffered.step (Buffered.start_buffered None (runner_ctor example_piece ReadFile)) example_buffered.
Proof.
  eapply rtc_l; [apply (Buffered.step_read _ 3 0 false); [done | right; by vm_compute]|].
  eapply rtc_l; [apply (Buffered.step_written _ 3 sf_ok 3); done|].
  eapply rtc_l; [apply (Buffered.step_read _ 2 0 false); [done | right; by vm_compute]|].
  eapply rtc_l; [apply (Buffered.step_written _ 2 sf_ok 2); done|]. apply rtc_refl.
Defined.

Lemma buffered_transfer_exact_witness :
  r_phase example_buffered = Finished sf_ok 5 /\ adjacent 2 5 3 (written_by example_buffered).
Proof.
  split; [done|].
  apply (buffered_transfer_exact example_piece None example_buffered
           example_piece_wf example_buffered_reachable).
Defined.

Lemma sendfile_stays_inside_witness :
  wf_sendfile example_piece /\
  apply_setup example_piece (SetOffsetAndSize (-1) 5) = Err (invalid_file_offset (-1) 10).
Proof.
  split; [|by vm_compute].
  apply (sendfile_stays_inside 5 (mk_file_meta 10 0) 0
           [SetChunkSize 3; SetOffsetAndSize 2 5] example_piece).
  - cbn; lia.
  - lia.
  - discriminate.
  - repeat constructor; vm_compute; congruence.
  - vm_compute; reflexivity.
Defined.
