(* ===== verification/SendfileOther.v ===== *)
(** * Sending a piece of a file on other systems

    The runners of [restinio/impl/sendfile_operation_posix.ipp] for FreeBSD and
    macOS (Module [Bsd]), of [restinio/impl/sendfile_operation_win.ipp] (Modules
    [TransmitFile] and [Overlapped]) and of
    [restinio/impl/sendfile_operation_default.ipp] (Module [Stdio]), over the state
    and the contract of [Sendfile]. What the system answers is an argument of
    the steps, as there. *)

From stdpp Require Import relations.
From S2P Require Import Prelude Sendfile.

(** The file offset moves, and [n] bytes from it went out. *)
Definition sent (r : runner_t) (n : Z) : runner_t :=
  {| m_next_write_offset := m_next_write_offset r + n; m_remained_size := m_remained_size r;
     m_transfered_size := m_transfered_size r; r_chunk_size := r_chunk_size r; r_phase := r_phase r;
     written_by := if 0 =? n then written_by r else written_by r ++ [(m_next_write_offset r, n)] |}.

(** The sizes are brought up to date. *)
Definition account (r : runner_t) (n : Z) : runner_t :=
  {| m_next_write_offset := m_next_write_offset r; m_remained_size := wrap 64 (m_remained_size r - n);
     m_transfered_size := wrap 64 (m_transfered_size r + n); r_chunk_size := r_chunk_size r;
     r_phase := r_phase r; written_by := written_by r |}.

(** *** FreeBSD and macOS *)
Module Bsd.

(** [sendfile] answers a code and, in any case, how many bytes it has sent; the offset has
    moved when [call_native_sendfile] returns, the sizes only after a failure. *)
(*@ impl/sendfile_operation_posix.ipp 237-269 call_native_sendfile *)
Definition call_native_sendfile (rc n : Z) (r : runner_t) : Z * runner_t :=
  let r := sent r n in
  if -1 =? rc then (-1, account r n) else (n, r).

(** The rest of the loop body, as on Linux; there the sizes belong to the same step as the offset. *)
Definition on_native (rc sbytes errno : Z) (throws : bool) (r : runner_t) : runner_t :=
  let '(n, r) := call_native_sendfile rc sbytes r in
  if -1 =? n then
    if (errno =? Linux.EAGAIN) || (errno =? Linux.EINTR)
    then Linux.try_initiate_waiting_for_write_readiness throws r
    else after_sendfile_cb r (sf_system errno)
  else if 0 =? n then Linux.try_initiate_waiting_for_write_readiness throws r
  else Linux.loop_head throws (account r n).

Inductive step : runner_t -> runner_t -> Prop :=
| step_native r rc n errno throws :
    r_phase r = Native -> 0 <= n <= request_size r -> step r (on_native rc n errno throws r)
| step_wait r ec nb throws :
    r_phase r = WaitWrite -> step r (Linux.on_wait ec nb throws r).

End Bsd.

(** *** Windows, a plain socket *)
Module TransmitFile.

(** The two halves of the offset in the structure of the call. *)
(*@ impl/sendfile_operation_win.ipp 289-293 init_next_write *)
Definition overlapped_offset (r : runner_t) : Z * Z :=
  (wrap 32 (Z.land (wrap 64 (m_next_write_offset r)) 4294967295),
   wrap 32 (Z.land (Z.shiftr (wrap 64 (m_next_write_offset r)) 32) 4294967295)).

(** Making the handler or the structure may throw; otherwise there is one
    completion, also for a call that failed at once. *)
(*@ impl/sendfile_operation_win.ipp 274-335 init_next_write *)
Definition init_next_write (throws : bool) (r : runner_t) : runner_t :=
  if throws then after_sendfile_cb r sf_async_call_failed else set_phase r Native.

(*@ impl/sendfile_operation_win.ipp 264-268 start *)
Definition start (throws : bool) (r : runner_t) : runner_t := init_next_write throws r.

(*@ impl/sendfile_operation_win.ipp 212-240 make_completion_handler *)
Definition on_completion (ec : sf_error) (written : Z) (throws : bool) (r : runner_t) : runner_t :=
  if bool_decide (ec = sf_ok) then
    let r := sent (account r written) written in
    if 0 =? m_remained_size r then after_sendfile_cb r ec else init_next_write throws r
  else after_sendfile_cb r ec.

(** What is asked for is sent, or less at the end of the file; but a call that asks
    for zero bytes sends the file from the offset to its end, so the size is not bounded then. *)
Inductive step (r : runner_t) : runner_t -> Prop :=
| step_completion ec written throws :
    r_phase r = Native -> 0 <= written -> (0 < request_size r -> written <= request_size r) ->
    step r (on_completion ec written throws r).

End TransmitFile.

(** *** Windows, other sockets: read into a buffer, then write it *)
Module Overlapped.

(** The callback may be called more than once; the calls are recorded. *)
Record logged_t : Type := mk_logged { l_runner : runner_t; l_calls : list (sf_error * Z) }.

Definition with_runner (s : logged_t) (r : runner_t) : logged_t := mk_logged r (l_calls s).

Definition call_cb (s : logged_t) (ec : sf_error) : logged_t :=
  mk_logged (after_sendfile_cb (l_runner s) ec) (l_calls s ++ [(ec, m_transfered_size (l_runner s))]).

Definition asio_eof : sf_error := sf_system 2.

(*@ impl/sendfile_operation_win.ipp 88-112 init_next_read_some_from_file *)
Definition init_next_read_some_from_file (throws : bool) (s : logged_t) : logged_t :=
  if throws then call_cb s sf_async_read_failed else with_runner s (set_phase (l_runner s) ReadFile).

(*@ impl/sendfile_operation_win.ipp 118-139 init_next_write *)
Definition init_next_async_write (len : Z) (throws : bool) (s : logged_t) : logged_t :=
  if throws then call_cb s sf_async_call_failed else with_runner s (set_phase (l_runner s) (AsyncWrite len)).

(*@ impl/sendfile_operation_win.ipp 78-82 start *)
Definition start_overlapped (throws : bool) (r : runner_t) : logged_t :=
  init_next_read_some_from_file throws (mk_logged r []).

(*@ impl/sendfile_operation_win.ipp 148-175 make_async_read_some_at_handler *)
Definition on_read_some_at (ec : sf_error) (len : Z) (throws : bool) (s : logged_t) : logged_t :=
  let s := if negb (bool_decide (ec = sf_ok)) || (0 =? m_remained_size (l_runner s)) then call_cb s ec else s in
  if bool_decide (ec = sf_ok)
  then if negb (0 =? len) then init_next_async_write len throws s else call_cb s asio_eof
  else call_cb s ec.

(*@ impl/sendfile_operation_win.ipp 177-204 make_async_write_handler *)
Definition on_async_write (ec : sf_error) (written : Z) (throws : bool) (s : logged_t) : logged_t :=
  if bool_decide (ec = sf_ok) then
    let s := with_runner s (sent (account (l_runner s) written) written) in
    if 0 =? m_remained_size (l_runner s) then call_cb s ec else init_next_read_some_from_file throws s
  else call_cb s ec.

Inductive step (s : logged_t) : logged_t -> Prop :=
| step_read ec len throws :
    r_phase (l_runner s) = ReadFile -> 0 <= len <= request_size (l_runner s) ->
    step s (on_read_some_at ec len throws s)
| step_written ec n written throws :
    r_phase (l_runner s) = AsyncWrite n -> (ec = sf_ok -> written = n) -> step s (on_async_write ec written throws s).

End Overlapped.

(** *** The standard library's files *)
Module Stdio.

(** The position of the file; the runner keeps its offset as it was. *)
Record stdio_t : Type := mk_stdio { f_runner : runner_t; f_position : Z }.

Definition on_runner (s : stdio_t) (f : runner_t -> runner_t) : stdio_t := mk_stdio (f (f_runner s)) (f_position s).

(** [ferror] is zero when the file ended. *)
Definition code_of (ferror : Z) : sf_error := if 0 =? ferror then sf_ok else sf_system ferror.

(** [fread] takes [n] bytes of the file. *)
(*@ impl/sendfile_operation_default.ipp 64-105 init_next_write *)
Definition init_next_fread (n ferror : Z) (throws : bool) (s : stdio_t) : stdio_t :=
  let desired_size := request_size (f_runner s) in
  if negb (desired_size =? n)
  then on_runner s (fun r => after_sendfile_cb r (code_of ferror))
  else if throws then on_runner s (fun r => after_sendfile_cb r sf_async_call_failed)
  else on_runner s (fun r => set_phase r (AsyncWrite desired_size)).

(*@ impl/sendfile_operation_default.ipp 38-58 start *)
Definition start_stdio (seek ferror : Z) (r : runner_t) : stdio_t :=
  if 0 =? seek then mk_stdio (set_phase r ReadFile) (m_next_write_offset r)
  else mk_stdio (after_sendfile_cb r (code_of ferror)) (m_next_write_offset r).

(** The bytes before the position went out. *)
Definition gone_out (written : Z) (s : stdio_t) : stdio_t :=
  let r := account (f_runner s) written in
  mk_stdio
    (mk_runner (m_next_write_offset r) (m_remained_size r) (m_transfered_size r) (r_chunk_size r) (r_phase r)
       (if 0 =? written then written_by r else written_by r ++ [(f_position s, written)]))
    (f_position s + written).

(*@ impl/sendfile_operation_default.ipp 111-136 make_async_write_handler *)
Definition on_stdio_written (ec : sf_error) (written : Z) (s : stdio_t) : stdio_t :=
  if bool_decide (ec = sf_ok) then
    let s := gone_out written s in
    if 0 =? m_remained_size (f_runner s) then on_runner s (fun r => after_sendfile_cb r ec)
    else on_runner s (fun r => set_phase r ReadFile)
  else on_runner s (fun r => after_sendfile_cb r ec).

Inductive step (s : stdio_t) : stdio_t -> Prop :=
| step_read n ferror throws :
    r_phase (f_runner s) = ReadFile -> 0 <= n <= request_size (f_runner s) ->
    step s (init_next_fread n ferror throws s)
| step_written ec n written :
    r_phase (f_runner s) = AsyncWrite n -> (ec = sf_ok -> written = n) -> step s (on_stdio_written ec written s).

End Stdio.

(** ** The contract *)

Lemma sent_account r n : sent (account r n) n = account (sent r n) n.
Proof. done. Qed.

(** Sending keeps the invariant of the runners, also when it sends nothing. *)
Lemma runner_inv_account sf r n : wf_sendfile sf -> runner_inv sf r -> 0 <= n <= request_size r ->
  runner_inv sf (set_phase (account (sent r n) n) WaitWrite) /\
  m_remained_size (account (sent r n) n) = m_remained_size r - n.
Proof.
  intros Hsf Hr Hn. destruct (Z.eqb_spec 0 n) as [<-|Hz].
  - assert (account (sent r 0) 0 = r) as ->.
    { destruct Hsf, Hr. destruct r. unfold account, sent. cbn in *.
      by rewrite !Z.add_0_r, !Z.sub_0_r, !wrap_small by lia. }
    split; [by apply runner_inv_phase | lia].
  - pose proof (runner_inv_shift sf r n Hsf Hr ltac:(lia)) as H.
    replace (account (sent r n) n) with (shift r n); [done|].
    unfold account, sent, shift. by destruct (Z.eqb_spec 0 n).
Qed.

(** What the callback was told. *)
Definition told (sf : sendfile_t) (r : runner_t) : Prop :=
  adjacent (m_offset sf) (m_transfered_size r) (m_chunk_size sf) (written_by r) /\
  forall ec n, r_phase r = Finished ec n -> n = m_transfered_size r /\ (ec = sf_ok -> n = m_size sf).

Lemma runner_inv_told sf r : runner_inv sf r -> told sf r.
Proof.
  intros []. split; [done|]. intros ec n Hp. rewrite Hp in inv_phase. destruct inv_phase as [-> Hok].
  split; [done|]. intros He. specialize (Hok He). lia.
Qed.

Lemma bsd_step_inv sf r r' : wf_sendfile sf -> runner_inv sf r -> Bsd.step r r' -> runner_inv sf r'.
Proof.
  intros Hsf Hr Hstep. destruct Hstep as [r rc n errno throws Hp Hn | r ec nb throws Hp];
    [|apply (linux_step_inv sf r); [done..|by apply Linux.step_wait]].
  unfold Bsd.on_native, Bsd.call_native_sendfile.
  destruct (runner_inv_account sf r n Hsf Hr Hn) as [Hs _].
  assert (Hw : runner_inv sf (Linux.try_initiate_waiting_for_write_readiness throws (account (sent r n) n))).
  { by apply (linux_wait_inv sf _ throws) in Hs. }
  destruct (Z.eqb_spec (-1) rc) as [_|_].
  - cbn. destruct (_ || _); [done|]. by apply (runner_inv_cb _ _ (sf_system errno)) in Hs.
  - destruct (Z.eqb_spec (-1) n) as [|_]; [lia|]. destruct (Z.eqb_spec 0 n) as [<-|Hz].
    + replace (sent r 0) with r; [by apply linux_wait_inv|]. destruct r. unfold sent. cbn. by rewrite Z.add_0_r.
    + apply (linux_loop_head_inv sf _ throws) in Hs. by rewrite linux_loop_head_phase in Hs.
Qed.

(** The runner of FreeBSD and macOS sends adjacent pieces in order, and reports success
    for the whole part only, although the offset and the sizes change at different places. *)
Theorem bsd_transfer_exact sf nb throws r (Hsf : wf_sendfile sf)
  (Hr : rtc Bsd.step (Linux.start nb throws (runner_ctor sf WaitWrite)) r) : told sf r.
Proof.
  apply runner_inv_told. revert r Hr. apply rtc_ind_r.
  - apply linux_init_inv, runner_inv_ctor; auto.
  - intros r r' _ Hs IH. by apply (bsd_step_inv sf r).
Qed.

(** *** Windows *)

(** The structure of the call has the whole offset. *)
Lemma overlapped_offset_exact r : 0 <= m_next_write_offset r < 2 ^ 64 ->
  let '(low, high) := TransmitFile.overlapped_offset r in
  0 <= low < 2 ^ 32 /\ 0 <= high < 2 ^ 32 /\ m_next_write_offset r = low + 2 ^ 32 * high.
Proof.
  intros H. unfold TransmitFile.overlapped_offset. rewrite (wrap_small 64) by done.
  change 4294967295 with (Z.ones 32). rewrite !Z.land_ones, !Z.shiftr_div_pow2 by lia. unfold wrap.
  rewrite !Z.mod_mod by lia. pose proof (Z.mod_pos_bound (m_next_write_offset r) (2 ^ 32) ltac:(lia)).
  assert (0 <= m_next_write_offset r / 2 ^ 32 < 2 ^ 32).
  { split; [apply Z.div_pos; lia | apply Z.div_lt_upper_bound; lia]. }
  rewrite (Z.mod_small (_ / _)) by done. pose proof (Z.div_mod (m_next_write_offset r) (2 ^ 32) ltac:(lia)). lia.
Qed.

(** It waits for a completion of a call that asks for something, or it has ended. *)
Definition transmit_inv (sf : sendfile_t) (r : runner_t) : Prop :=
  runner_inv sf r /\ match r_phase r with Native | Finished _ _ => True | _ => False end.

Lemma transmit_next_inv sf r throws : runner_inv sf r -> 0 < m_remained_size r ->
  transmit_inv sf (TransmitFile.init_next_write throws r).
Proof.
  intros Hr Hm. unfold TransmitFile.init_next_write. destruct throws.
  - split; [by apply runner_inv_cb | done].
  - split; [by apply runner_inv_phase | done].
Qed.

Lemma transmit_step_inv sf r r' : wf_sendfile sf -> transmit_inv sf r -> TransmitFile.step r r' -> transmit_inv sf r'.
Proof.
  intros Hsf [Hr Hph]. destruct 1 as [ec n throws Hp Hn Hle]. unfold TransmitFile.on_completion.
  case_bool_decide as He; [|by split; [apply runner_inv_cb|]].
  pose proof (inv_phase _ _ Hr) as Hrem. rewrite Hp in Hrem.
  assert (0 < request_size r). { unfold request_size. rewrite (inv_chunk _ _ Hr). pose proof (wf_chunk _ Hsf). lia. }
  destruct (runner_inv_account sf r n Hsf Hr ltac:(lia)) as [Hs Hm]. rewrite sent_account.
  pose proof (inv_remained _ _ Hs : 0 <= m_remained_size (account (sent r n) n)).
  destruct (Z.eqb_spec 0 (m_remained_size (account (sent r n) n))) as [Hz|Hz].
  - split; [|done]. by apply (runner_inv_phase _ _ (Finished ec (m_transfered_size (account (sent r n) n)))) in Hs.
  - assert (0 < m_remained_size (account (sent r n) n)) as Hpos by lia.
    exact (transmit_next_inv sf _ throws Hs Hpos).
Qed.

(** The runner of plain sockets on Windows has the same contract, for a part that
    is not empty; each call carries the whole 64-bit offset in two halves. *)
Theorem transmit_file_exact sf throws r (Hsf : wf_sendfile sf) (Hsize : 0 < m_size sf)
  (Hr : rtc TransmitFile.step (TransmitFile.start throws (runner_ctor sf WaitWrite)) r) :
  told sf r /\
  let '(low, high) := TransmitFile.overlapped_offset r in
  0 <= low < 2 ^ 32 /\ 0 <= high < 2 ^ 32 /\ m_offset sf + m_transfered_size r = low + 2 ^ 32 * high.
Proof.
  assert (Hi : transmit_inv sf r).
  { revert r Hr. apply rtc_ind_r.
    - apply transmit_next_inv; [apply runner_inv_ctor; auto | done].
    - intros r r' _ Hs IH. by apply (transmit_step_inv sf r). }
  destruct Hi as [Hi _]. split; [by apply runner_inv_told|].
  rewrite <- (inv_offset _ _ Hi). apply overlapped_offset_exact.
  destruct Hsf, Hi. lia.
Qed.

(** An empty part: asked for no bytes, the system sends all [n] of the file from the
    offset on, and the runner then takes the size that is left to be enormous. *)
Lemma transmit_file_empty_part sf n : m_size sf = 0 -> 0 < n < 2 ^ 64 ->
  let r := TransmitFile.on_completion sf_ok n false (TransmitFile.start false (runner_ctor sf WaitWrite)) in
  written_by r = [(m_offset sf, n)] /\ m_remained_size r = 2 ^ 64 - n /\ r_phase r = Native.
Proof.
  intros Hs Hn. unfold TransmitFile.on_completion. rewrite bool_decide_true by done. cbn -[Z.eqb wrap].
  assert (Hw : wrap 64 (m_size sf - n) = 2 ^ 64 - n).
  { rewrite Hs. unfold wrap. symmetry. apply (Z.mod_unique _ _ (-1)); lia. }
  rewrite Hw, (proj2 (Z.eqb_neq 0 (2 ^ 64 - n))) by lia.
  split_and!; [|exact Hw|done]. unfold sent. cbn -[Z.eqb]. by rewrite (proj2 (Z.eqb_neq 0 n)) by lia.
Qed.

(** *** The callback of the runner over a buffer on Windows *)

(** How often the callback was called: not before the end, and then once, but
    twice when reading the file failed. *)
Definition logged_inv (sf : sendfile_t) (s : Overlapped.logged_t) : Prop :=
  runner_inv sf (Overlapped.l_runner s) /\
  match r_phase (Overlapped.l_runner s) with
  | ReadFile => Overlapped.l_calls s = [] /\ 0 < m_remained_size (Overlapped.l_runner s)
  | AsyncWrite _ => Overlapped.l_calls s = []
  | Finished ec n => Overlapped.l_calls s = [(ec, n)] \/ ec <> sf_ok /\ Overlapped.l_calls s = [(ec, n); (ec, n)]
  | _ => False
  end.

Lemma logged_call sf s ec : runner_inv sf (Overlapped.l_runner s) -> Overlapped.l_calls s = [] ->
  (ec = sf_ok -> m_remained_size (Overlapped.l_runner s) = 0) -> logged_inv sf (Overlapped.call_cb s ec).
Proof.
  intros Hr Hc He. split; [by apply runner_inv_cb|]. cbn. left. by rewrite Hc.
Qed.

Lemma logged_next_read sf s throws : runner_inv sf (Overlapped.l_runner s) -> Overlapped.l_calls s = [] ->
  0 < m_remained_size (Overlapped.l_runner s) -> logged_inv sf (Overlapped.init_next_read_some_from_file throws s).
Proof.
  intros Hr Hc Hm. unfold Overlapped.init_next_read_some_from_file. destruct throws; [by apply logged_call|].
  split; [by apply runner_inv_phase | done].
Qed.

Lemma logged_step_inv sf s s' : wf_sendfile sf -> logged_inv sf s -> Overlapped.step s s' -> logged_inv sf s'.
Proof.
  intros Hsf [Hr Hph]. destruct 1 as [ec len throws Hp Hn | ec n written throws Hp Hw]; rewrite Hp in Hph.
  - destruct Hph as [Hc Hm]. unfold Overlapped.on_read_some_at.
    destruct (Z.eqb_spec 0 (m_remained_size (Overlapped.l_runner s))) as [|_]; [lia|]. rewrite orb_false_r.
    destruct (bool_decide_reflect (ec = sf_ok)) as [->|He]; cbn [negb].
    + destruct (Z.eqb_spec 0 len) as [|Hz]; cbn [negb]; [by apply logged_call|].
      unfold Overlapped.init_next_async_write. destruct throws; [by apply logged_call|].
      split; [apply runner_inv_phase; [done|lia] | done].
    + split; [by apply runner_inv_cb; [apply runner_inv_cb|]|]. cbn. right. by rewrite Hc.
  - unfold Overlapped.on_async_write. case_bool_decide as He; [|by apply logged_call].
    rewrite (Hw He) in *. pose proof (inv_phase _ _ Hr) as Hn. rewrite Hp in Hn.
    destruct (runner_inv_account sf _ n Hsf Hr ltac:(lia)) as [Hs Hm]. rewrite sent_account.
    set (r := account (sent (Overlapped.l_runner s) n) n) in *. cbn [Overlapped.with_runner Overlapped.l_runner].
    pose proof (inv_remained _ _ Hs : 0 <= m_remained_size r).
    destruct (Z.eqb_spec 0 (m_remained_size r)) as [Hz|Hz].
    + pose proof (runner_inv_phase _ _ (Finished ec (m_transfered_size r)) Hs) as Hf.
      split; [apply Hf; by split | cbn; left; by rewrite Hph].
    + assert (0 < m_remained_size r) as Hpos by lia.
      pose proof (runner_inv_phase _ _ ReadFile Hs I) as Hd.
      unfold Overlapped.init_next_read_some_from_file. destruct throws.
      * pose proof (runner_inv_phase _ _ (Finished sf_async_read_failed (m_transfered_size r)) Hs) as Hf.
        split; [by apply Hf | cbn; left; by rewrite Hph].
      * split; [exact Hd | done].
Qed.

(** The runner of other sockets on Windows sends adjacent pieces in order, for a part
    that is not empty; its callback is called when it has ended, with the
    whole size in the case of success, once or, after a failed read, twice
    with the same error. *)
Theorem overlapped_transfer_exact sf throws s (Hsf : wf_sendfile sf) (Hsize : 0 < m_size sf)
  (Hr : rtc Overlapped.step (Overlapped.start_overlapped throws (runner_ctor sf ReadFile)) s) :
  told sf (Overlapped.l_runner s) /\
  match r_phase (Overlapped.l_runner s) with
  | Finished ec n => Overlapped.l_calls s = [(ec, n)] \/ ec <> sf_ok /\ Overlapped.l_calls s = [(ec, n); (ec, n)]
  | _ => Overlapped.l_calls s = []
  end.
Proof.
  assert (Hi : logged_inv sf s).
  { revert s Hr. apply rtc_ind_r.
    - apply logged_next_read; [apply runner_inv_ctor; auto | done | done].
    - intros s s' _ Hs IH. by apply (logged_step_inv sf s). }
  destruct Hi as [Hi Hph]. split; [by apply runner_inv_told|]. destruct (r_phase _); [done..|apply Hph|done|done].
Qed.

(** *** The standard library's files *)

(** The runner as it would be if it kept the position in its offset. *)
Definition at_position (s : Stdio.stdio_t) : runner_t :=
  let r := Stdio.f_runner s in
  mk_runner (Stdio.f_position s) (m_remained_size r) (m_transfered_size r) (r_chunk_size r) WaitWrite (written_by r).

Record stdio_inv (sf : sendfile_t) (s : Stdio.stdio_t) : Prop := {
  si_runner : runner_inv sf (at_position s);
  si_async : forall n, r_phase (Stdio.f_runner s) = AsyncWrite n -> n = request_size (Stdio.f_runner s);
  si_told : forall ec n, r_phase (Stdio.f_runner s) = Finished ec n -> n = m_transfered_size (Stdio.f_runner s) }.

Lemma stdio_set_phase sf s p : runner_inv sf (at_position s) ->
  (forall n, p = AsyncWrite n -> n = request_size (Stdio.f_runner s)) ->
  (forall ec n, p = Finished ec n -> n = m_transfered_size (Stdio.f_runner s)) ->
  stdio_inv sf (Stdio.on_runner s (fun r => set_phase r p)).
Proof. by split. Qed.

Lemma stdio_gone_out sf s n : wf_sendfile sf -> runner_inv sf (at_position s) -> 0 <= n <= request_size (Stdio.f_runner s) ->
  runner_inv sf (at_position (Stdio.gone_out n s)) /\
  m_remained_size (Stdio.f_runner (Stdio.gone_out n s)) = m_remained_size (Stdio.f_runner s) - n.
Proof. intros Hsf Hr Hn. destruct (runner_inv_account sf (at_position s) n Hsf Hr Hn) as [Hs Hm]. by split. Qed.

(** A step that reports success has sent everything, or the file ended before the
    part did, which [fread] does not take for an error. *)
Lemma stdio_step_inv sf s s' : wf_sendfile sf -> stdio_inv sf s -> Stdio.step s s' ->
  stdio_inv sf s' /\
  (forall n, r_phase (Stdio.f_runner s') = Finished sf_ok n ->
     n = m_size sf \/ exists k throws, s' = Stdio.init_next_fread k 0 throws s /\ k < request_size (Stdio.f_runner s)).
Proof.
  intros Hsf [Hr Ha Ht]. destruct 1 as [n ferror throws Hp Hn | ec n written Hp Hw].
  - unfold Stdio.init_next_fread at 1. destruct (Z.eqb_spec (request_size (Stdio.f_runner s)) n) as [He|He]; cbn [negb].
    + unfold Stdio.init_next_fread. rewrite He, Z.eqb_refl. cbn [negb].
      destruct throws; (split; [apply stdio_set_phase; [done|by intros ? [= <-]|by intros ?? [= _ <-]]|done]).
    + split; [apply stdio_set_phase; [done|done|by intros ?? [= _ <-]]|].
      unfold Stdio.init_next_fread. rewrite (proj2 (Z.eqb_neq _ _) He). cbn. intros k [= Hc _].
      right. exists n, throws. split; [|lia]. unfold Stdio.code_of in Hc.
      destruct (Z.eqb_spec 0 ferror) as [<-|]; [|done]. by rewrite (proj2 (Z.eqb_neq _ _) He).
  - unfold Stdio.on_stdio_written.
    destruct (bool_decide_reflect (ec = sf_ok)) as [->|He];
      [|split; [apply stdio_set_phase; [done|done|by intros ?? [= _ <-]] | cbn; congruence]].
    rewrite (Hw eq_refl) in *. rewrite (Ha n Hp) in *. set (k := request_size (Stdio.f_runner s)).
    destruct (stdio_gone_out sf s k Hsf Hr) as [Hs Hm].
    { subst k. unfold request_size. pose proof (wf_chunk _ Hsf).
      pose proof (inv_remained _ _ Hr : 0 <= m_remained_size (Stdio.f_runner s)).
      pose proof (inv_chunk _ _ Hr : r_chunk_size (Stdio.f_runner s) = m_chunk_size sf). lia. }
    destruct (Z.eqb_spec 0 (m_remained_size (Stdio.f_runner (Stdio.gone_out k s)))) as [Hz|Hz].
    + split; [apply stdio_set_phase; [done|done|by intros ?? [= _ <-]]|].
      intros j Hj. left. set (g := Stdio.gone_out k s) in *.
      pose proof (inv_sizes _ _ Hs : m_remained_size (Stdio.f_runner g) + m_transfered_size (Stdio.f_runner g) = m_size sf).
      change (Finished sf_ok (m_transfered_size (Stdio.f_runner g)) = Finished sf_ok j) in Hj.
      assert (m_transfered_size (Stdio.f_runner g) = j) by congruence. lia.
    + split; [by apply stdio_set_phase | done].
Qed.

(** The runner over the standard library's files sends adjacent pieces in order and tells how
    much it has sent; when the last answer of the file was not a short one, success means the whole part. *)
Theorem stdio_transfer_exact sf seek ferror s (Hsf : wf_sendfile sf)
  (Hr : rtc Stdio.step (Stdio.start_stdio seek ferror (runner_ctor sf ReadFile)) s) :
  adjacent (m_offset sf) (m_transfered_size (Stdio.f_runner s)) (m_chunk_size sf) (written_by (Stdio.f_runner s)) /\
  forall ec n, r_phase (Stdio.f_runner s) = Finished ec n -> n = m_transfered_size (Stdio.f_runner s).
Proof.
  assert (Hi : stdio_inv sf s).
  { revert s Hr. apply rtc_ind_r.
    - pose proof (runner_inv_ctor sf WaitWrite Hsf (or_introl eq_refl)) as Hc. unfold Stdio.start_stdio.
      destruct (0 =? seek); split; try exact Hc; cbn; try congruence.
    - intros s s' _ Hs IH. by apply (stdio_step_inv sf s). }
  destruct Hi as [Hi _ Ht]. split; [exact (inv_written _ _ Hi) | exact Ht].
Qed.

(** A file that is shorter than the part: the callback is told of success. *)
Lemma stdio_short_file sf n : 0 <= n < request_size (runner_ctor sf ReadFile) ->
  r_phase (Stdio.f_runner (Stdio.init_next_fread n 0 false (Stdio.start_stdio 0 0 (runner_ctor sf ReadFile)))) = Finished sf_ok 0.
Proof.
  intros Hn. set (s := Stdio.start_stdio 0 0 _). unfold Stdio.init_next_fread.
  change (request_size (Stdio.f_runner s)) with (request_size (runner_ctor sf ReadFile)).
  by rewrite (proj2 (Z.eqb_neq _ n)) by lia.
Qed.

(** *** Witnesses *)

Lemma bsd_transfer_exact_witness : let r := Bsd.on_native (-1) 3 Linux.EAGAIN false (Linux.start None false (runner_ctor example_piece WaitWrite)) in
  m_transfered_size r = 3 /\ told example_piece r.
Proof.
  split; [done|]. apply (bsd_transfer_exact example_piece None false); [exact example_piece_wf|].
  apply rtc_once, Bsd.step_native; [done | by vm_compute].
Defined.

Lemma transmit_file_exact_witness :
  let r := TransmitFile.on_completion sf_ok 2 false
             (TransmitFile.on_completion sf_ok 3 false (TransmitFile.start false (runner_ctor example_piece WaitWrite))) in
  r_phase r = Finished sf_ok 5 /\ told example_piece r.
Proof.
  split; [done|]. apply (transmit_file_exact example_piece false); [exact example_piece_wf | done |].
  eapply rtc_l; [apply (TransmitFile.step_completion _ sf_ok 3 false); [done | lia | by vm_compute]|].
  apply rtc_once. by apply (TransmitFile.step_completion _ sf_ok 2 false).
Defined.

Lemma overlapped_transfer_exact_witness :
  let s := Overlapped.on_read_some_at (sf_system 5) 0 false (Overlapped.start_overlapped false (runner_ctor example_piece ReadFile)) in
  Overlapped.l_calls s = [(sf_system 5, 0); (sf_system 5, 0)] /\ told example_piece (Overlapped.l_runner s).
Proof.
  split; [done|]. apply (overlapped_transfer_exact example_piece false); [exact example_piece_wf | done |].
  apply rtc_once, Overlapped.step_read; [done | by vm_compute].
Defined.

Lemma stdio_transfer_exact_witness :
  let s := Stdio.on_stdio_written sf_ok 3 (Stdio.init_next_fread 3 0 false (Stdio.start_stdio 0 0 (runner_ctor example_piece ReadFile))) in
  written_by (Stdio.f_runner s) = [(2, 3)] /\ adjacent 2 3 3 (written_by (Stdio.f_runner s)).
Proof.
  intros s. split; [done|]. refine (proj1 (stdio_transfer_exact example_piece 0 0 s example_piece_wf _)). unfold s.
  eapply rtc_l; [apply (Stdio.step_read _ 3 0 false); [done | by vm_compute]|].
  apply rtc_once. by apply (Stdio.step_written _ sf_ok 3 3).
Defined.
