(* ===== verification/WriteGroup.v ===== *)
(** * Write groups

    [restinio/buffers.hpp]: writable items and [write_group_t], the unit in
    which responses travel to a connection, with its after-write notificator.
    A notificator is a name; whether a call of it throws a [std::exception] is the parameter
    [cb_throws] of the operations that call one, whether it throws something else is the class
    [OtherExceptions], which the connections use: what that leaves behind here does not
    matter, since it ends the program. The calls made are listed
    with the error code each got. [std::function]'s move leaves its source
    empty and [std::vector]'s move its source without elements. *)

From S2P Require Import Prelude Sendfile.

(** ** Error codes and notificators *)

(*@ asio_include.hpp 121-150 asio_convertible_error_t *)
Inductive asio_convertible_error_t : Type :=
| write_was_not_executed
| write_group_destroyed_passively
| async_write_call_failed
| async_read_some_at_call_failed.

(** [error_code{}], one of the errors above, or an error of the network. *)
Inductive error_code : Type :=
| no_error
| restinio_error (e : asio_convertible_error_t)
| network_error (value : Z).

#[global] Instance error_code_eq_dec : EqDecision error_code.
Proof. unfold EqDecision, Decision. repeat decide equality. Defined.

Abbreviation notificator := nat.

(** The calls of notificators, in order. *)
Abbreviation calls := (list (notificator * error_code)).

(** ** Writable items *)

(** What [m_storage] holds: one of the trivial buffers (an empty one, constant
    memory, an object with [data()] and [size()], or a shared one), by its
    bytes, or the description of a file. *)
(*@ buffers.hpp 617-661 writable_item_t *)
Inductive writable_item_t : Type :=
| TrivialItem (data : bytes)
| FileItem (sf : sendfile_t).

(*@ buffers.hpp 441-448 writable_item_type_t *)
Inductive writable_item_type_t : Type := trivial_write_operation | file_write_operation.

#[global] Instance writable_item_type_eq_dec : EqDecision writable_item_type_t.
Proof. solve_decision. Defined.

(*@ buffers.hpp 580-585 writable_item_t::write_type *)
Definition write_type (i : writable_item_t) : writable_item_type_t :=
  match i with
  | TrivialItem _ => trivial_write_operation
  | FileItem _ => file_write_operation
  end.

Definition is_trivial (i : writable_item_t) : bool :=
  bool_decide (trivial_write_operation = write_type i).

(*@ buffers.hpp 587-588 writable_item_t::size *)
Definition item_size (i : writable_item_t) : Z :=
  match i with
  | TrivialItem data => Z.of_nat (length data)
  | FileItem sf => m_size sf
  end.

(** ** Groups *)

(*@ buffers.hpp 894-907 write_group_t *)
Record write_group_t : Type := mk_write_group {
  m_items : list writable_item_t;
  m_status_line_size : Z;
  m_after_write_notificator : option notificator }.

(*@ buffers.hpp 704-710 write_group_t::write_group_t *)
Definition write_group (items : list writable_item_t) : write_group_t :=
  {| m_items := items; m_status_line_size := 0; m_after_write_notificator := None |}.

(** The new group and what is left of the source. *)
(*@ buffers.hpp 724-731 write_group_t::write_group_t *)
Definition wg_move (wg : write_group_t) : write_group_t * write_group_t :=
  ({| m_items := m_items wg; m_status_line_size := m_status_line_size wg;
      m_after_write_notificator := m_after_write_notificator wg |},
   {| m_items := []; m_status_line_size := 0; m_after_write_notificator := None |}).

(*@ buffers.hpp 806-811 write_group_t::has_after_write_notificator *)
Definition has_after_write_notificator (wg : write_group_t) : bool :=
  bool_decide (is_Some (m_after_write_notificator wg)).

(*@ buffers.hpp 799-804 write_group_t::after_write_notificator *)
Definition after_write_notificator (wg : write_group_t) (n : option notificator) : write_group_t :=
  {| m_items := m_items wg; m_status_line_size := m_status_line_size wg;
     m_after_write_notificator := n |}.

(** The calls that throw an exception which is not derived from [std::exception]. *)
Class OtherExceptions : Type := throws_other : notificator -> error_code -> bool.
Definition no_other_exceptions : OtherExceptions := fun _ _ => false.

(** The group, the calls made, and whether the call threw. *)
(*@ buffers.hpp 814-827 write_group_t::invoke_after_write_notificator_if_exists *)
Definition invoke_after_write_notificator_if_exists
    (cb_throws : notificator -> error_code -> bool) (wg : write_group_t) (ec : error_code)
    : write_group_t * calls * bool :=
  match m_after_write_notificator wg with
  | Some tmp => (after_write_notificator wg None, [(tmp, ec)], cb_throws tmp ec)
  | None => (wg, [], false)
  end.

(** The destructor swallows what the notificator throws. *)
(*@ buffers.hpp 746-756 write_group_t::~write_group_t *)
Definition wg_destroy (cb_throws : notificator -> error_code -> bool) (wg : write_group_t) : calls :=
  if has_after_write_notificator wg then
    let '(_, cs, _) :=
      invoke_after_write_notificator_if_exists cb_throws wg
        (restinio_error write_group_destroyed_passively) in cs
  else [].

(*@ buffers.hpp 694-702 swap *)
Definition wg_swap (left right : write_group_t) : write_group_t * write_group_t := (right, left).

(*@ buffers.hpp 733-739 write_group_t::operator= *)
Definition wg_assign (cb_throws : notificator -> error_code -> bool) (this wg : write_group_t)
    : write_group_t * write_group_t * calls :=
  let '(tmp, wg) := wg_move wg in
  let '(this, tmp) := wg_swap this tmp in
  (this, wg, wg_destroy cb_throws tmp).

(** The three errors of setting the size of the status line. *)
Inductive status_line_error : Type :=
| empty_write_group
| first_item_not_trivial
| first_item_too_small.

(*@ buffers.hpp 762-790 write_group_t::status_line_size *)
Definition status_line_size (wg : write_group_t) (n : Z)
    : result status_line_error write_group_t :=
  if negb (0 =? n) then
    match m_items wg with
    | [] => Err empty_write_group
    | front :: _ =>
        if negb (is_trivial front) then Err first_item_not_trivial
        else if item_size front <? n then Err first_item_too_small
        else Ok {| m_items := m_items wg; m_status_line_size := n;
                   m_after_write_notificator := m_after_write_notificator wg |}
    end
  else Ok wg.

(** [reset] drops the notificator without a call. *)
(*@ buffers.hpp 858-873 write_group_t::reset *)
Definition wg_reset (wg : write_group_t) : write_group_t :=
  {| m_items := []; m_status_line_size := 0; m_after_write_notificator := None |}.

(** The first group keeps its status line, and its notificator is replaced;
    the second group, a by-value argument, is destroyed at the end. *)
(*@ buffers.hpp 880-892 write_group_t::merge *)
Definition wg_merge (cb_throws : notificator -> error_code -> bool) (this second : write_group_t)
    : write_group_t * calls :=
  let this :=
    {| m_items := m_items this ++ m_items second;
       m_status_line_size := m_status_line_size this;
       m_after_write_notificator := m_after_write_notificator second |} in
  let second := after_write_notificator second None in
  (this, wg_destroy cb_throws second).

(** ** Properties *)

Section WriteGroup.
Context (cb_throws : notificator -> error_code -> bool).

(** The notificators a group still has to call. *)
Definition pending (wg : write_group_t) : list notificator :=
  match m_after_write_notificator wg with Some n => [n] | None => [] end.

Definition pending_all (wgs : list write_group_t) : list notificator := wgs ≫= pending.

Definition moved_from : write_group_t := write_group [].

Lemma wg_move_eq wg : wg_move wg = (wg, moved_from).
Proof. by destruct wg. Qed.

Lemma wg_destroy_calls wg :
  wg_destroy cb_throws wg = (fun n => (n, restinio_error write_group_destroyed_passively)) <$> pending wg.
Proof.
  unfold wg_destroy, has_after_write_notificator, pending,
    invoke_after_write_notificator_if_exists.
  by destruct (m_after_write_notificator wg).
Qed.

Lemma wg_destroy_clean wg : pending wg = [] -> wg_destroy cb_throws wg = [].
Proof. intros H. by rewrite wg_destroy_calls, H. Qed.

Lemma invoke_calls wg ec wg' cs threw :
  invoke_after_write_notificator_if_exists cb_throws wg ec = (wg', cs, threw) ->
  cs = (fun n => (n, ec)) <$> pending wg /\ pending wg' = [] /\
  m_items wg' = m_items wg /\ m_status_line_size wg' = m_status_line_size wg.
Proof.
  unfold invoke_after_write_notificator_if_exists, pending.
  destruct (m_after_write_notificator wg) eqn:E; intros [= <- <- <-]; [done|].
  by rewrite E.
Qed.

Lemma wg_assign_eq this wg :
  wg_assign cb_throws this wg = (wg, moved_from, wg_destroy cb_throws this).
Proof. unfold wg_assign. by rewrite wg_move_eq. Qed.

Lemma wg_merge_eq this second :
  wg_merge cb_throws this second =
    ({| m_items := m_items this ++ m_items second;
        m_status_line_size := m_status_line_size this;
        m_after_write_notificator := m_after_write_notificator second |}, []).
Proof. unfold wg_merge. by rewrite wg_destroy_clean. Qed.

End WriteGroup.

(** The status line of a group lies inside its first item, a trivial one. *)
Definition wf_write_group (wg : write_group_t) : Prop :=
  m_status_line_size wg = 0 \/
  exists data rest, m_items wg = TrivialItem data :: rest /\
    0 < m_status_line_size wg <= Z.of_nat (length data).
