(* ===== verification/Storage.v ===== *)
(** * How a writable item stores its buffer

    [writable_item_t] of [restinio/buffers.hpp] as it is in memory: an object of one of
    five classes is placed in a storage of the item, reached by virtual calls
    and casts, and moved by constructing another object from it. [WriteGroup] takes an
    item for the bytes or the file it stands for; here that view is shown to be right, and
    that nothing is leaked, released twice or used after its release. *)

From stdpp Require Import gmap.
From S2P Require Import Prelude Sendfile WriteGroup.

(** ** The world around the items *)

(** Memory of the program that a constant buffer points to, objects that are
    shared with their numbers of owners, and the descriptors that were closed. *)
Record world : Type := mk_world {
  w_const : gmap nat bytes;
  w_shared : gmap nat (bytes * nat);
  w_closed : list Z }.

Definition uses (w : world) (p : nat) : nat := match w_shared w !! p with Some (_, n) => n | None => 0 end.
Definition shared_data (w : world) (p : nat) : option bytes := fst <$> w_shared w !! p.

(** An owner more, and one less; the last one destroys the object. *)
Definition acquire (p : nat) (w : world) : world :=
  mk_world (w_const w) (alter (fun o => (o.1, S o.2)) p (w_shared w)) (w_closed w).
Definition release (p : nat) (w : world) : world :=
  mk_world (w_const w)
    (match w_shared w !! p with
     | Some (d, S (S n)) => <[p := (d, S n)]> (w_shared w)
     | Some _ => delete p (w_shared w)
     | None => w_shared w
     end) (w_closed w).
Definition close_files (fds : list Z) (w : world) : world := mk_world (w_const w) (w_shared w) (w_closed w ++ fds).

(** Undefined behaviour, and the exception of a constructor. *)
Inductive fault : Type :=
| no_object
| null_pointer
| wrong_class
| dangling
| empty_shared_ptr.

(** ** The stored classes *)

(** The objects of the interface [writable_base_t]: what a move constructs and
    leaves behind, the size, and what the destructor does. *)
(*@ buffers.hpp 59-77 writable_base_t *)
Class writable_base_t (T : Type) : Type := {
  relocate_to : T -> T * T;
  base_size : world -> T -> result fault Z;
  base_destroy : T -> world -> world }.

(*@ buffers.hpp 80-88 buf_iface_t *)
Class buf_iface_t (T : Type) : Type := buffer : world -> T -> result fault bytes.

(*@ buffers.hpp 91-127 empty_buf_t *)
Inductive empty_buf_t : Type := mk_empty_buf.

#[global] Instance empty_base : writable_base_t empty_buf_t :=
  {| relocate_to b := (mk_empty_buf, b); base_size _ _ := Ok 0; base_destroy _ w := w |}.
#[global] Instance empty_iface : buf_iface_t empty_buf_t := fun _ _ => Ok [].

(** [m_data] is the address of some memory of the program. *)
(*@ buffers.hpp 130-177 const_buf_t *)
Record const_buf_t : Type := mk_const_buf { cb_data : nat; cb_size : Z }.

Definition read_memory (w : world) (data : nat) (size : Z) : result fault bytes :=
  match w_const w !! data with
  | Some m => if bool_decide (0 <= size <= Z.of_nat (length m)) then Ok (take (Z.to_nat size) m) else Err dangling
  | None => Err dangling
  end.

#[global] Instance const_base : writable_base_t const_buf_t :=
  {| relocate_to b := (mk_const_buf (cb_data b) (cb_size b), b); base_size _ b := Ok (cb_size b); base_destroy _ w := w |}.
#[global] Instance const_iface : buf_iface_t const_buf_t := fun w b => read_memory w (cb_data b) (cb_size b).

(** What a class of the user leaves in an object it has moved from. *)
Class MovedFrom : Type := moved_from : bytes -> bytes.

(*@ buffers.hpp 187-249 datasizeable_buf_t *)
Record datasizeable_buf_t : Type := mk_datasizeable_buf { m_custom_buffer : bytes }.

#[global] Instance datasizeable_base `{MovedFrom} : writable_base_t datasizeable_buf_t :=
  {| relocate_to b := (mk_datasizeable_buf (m_custom_buffer b), mk_datasizeable_buf (moved_from (m_custom_buffer b)));
     base_size _ b := Ok (Z.of_nat (length (m_custom_buffer b))); base_destroy _ w := w |}.
#[global] Instance datasizeable_iface : buf_iface_t datasizeable_buf_t := fun _ b => Ok (m_custom_buffer b).

(*@ buffers.hpp 271-318 shared_datasizeable_buf_t *)
Record shared_datasizeable_buf_t : Type := mk_shared_buf { m_buf_ptr : option nat }.

Definition dereference (w : world) (p : option nat) : result fault bytes :=
  match p with
  | Some p => match shared_data w p with Some d => Ok d | None => Err dangling end
  | None => Err null_pointer
  end.

#[global] Instance shared_base : writable_base_t shared_datasizeable_buf_t :=
  {| relocate_to b := (mk_shared_buf (m_buf_ptr b), mk_shared_buf None);
     base_size w b := d ← dereference w (m_buf_ptr b); Ok (Z.of_nat (length d));
     base_destroy b w := match m_buf_ptr b with Some p => release p w | None => w end |}.
#[global] Instance shared_iface : buf_iface_t shared_datasizeable_buf_t := fun w b => dereference w (m_buf_ptr b).

(** The description of the file is an object of its own; its destructor closes the file. *)
(*@ buffers.hpp 325-375 sendfile_write_operation_t *)
Record sendfile_write_operation_t : Type := mk_sfwo { m_sendfile_options : option sendfile_t }.

#[global] Instance sendfile_base : writable_base_t sendfile_write_operation_t :=
  {| relocate_to b := (mk_sfwo (m_sendfile_options b), mk_sfwo None);
     base_size _ b := Ok (match m_sendfile_options b with Some sf => m_size sf | None => 0 end);
     base_destroy b w := match m_sendfile_options b with
                         | Some sf => close_files (fdh_destroy (m_file_descriptor sf)) w | None => w end |}.

(*@ buffers.hpp 366-370 sendfile_write_operation_t::sendfile_options *)
Definition sendfile_options (b : sendfile_write_operation_t) : result fault sendfile_t :=
  match m_sendfile_options b with Some sf => Ok sf | None => Err null_pointer end.

(** ** Items *)

(** The object in the storage; the class is that of the virtual table. *)
Inductive stored : Type :=
| S_empty (b : empty_buf_t)
| S_const (b : const_buf_t)
| S_data (b : datasizeable_buf_t)
| S_shared (b : shared_datasizeable_buf_t)
| S_file (b : sendfile_write_operation_t).

#[global] Instance stored_base `{MovedFrom} : writable_base_t stored :=
  {| relocate_to b :=
       match b with
       | S_empty b => let '(x, y) := relocate_to b in (S_empty x, S_empty y)
       | S_const b => let '(x, y) := relocate_to b in (S_const x, S_const y)
       | S_data b => let '(x, y) := relocate_to b in (S_data x, S_data y)
       | S_shared b => let '(x, y) := relocate_to b in (S_shared x, S_shared y)
       | S_file b => let '(x, y) := relocate_to b in (S_file x, S_file y)
       end;
     base_size w b :=
       match b with
       | S_empty b => base_size w b | S_const b => base_size w b | S_data b => base_size w b
       | S_shared b => base_size w b | S_file b => base_size w b
       end;
     base_destroy b :=
       match b with
       | S_empty b => base_destroy b | S_const b => base_destroy b | S_data b => base_destroy b
       | S_shared b => base_destroy b | S_file b => base_destroy b
       end |}.

(** The storage holds no object before the constructor and after the destruction of the one it had. *)
(*@ buffers.hpp 617-661 writable_item_t *)
Record item_t : Type := mk_item { m_write_type : writable_item_type_t; m_storage : option stored }.

(** What an item is made of: nothing, constant memory, an object that is moved
    into it (a text is one), a shared one, or a file. *)
Inductive source : Type :=
| From_nothing
| From_const (data : nat) (size : Z)
| From_object (ds : bytes)
| From_shared (sp : option nat)
| From_file (sf : sendfile_t).

(*@ buffers.hpp 501-505 writable_item_t::writable_item_t *)
Definition item_empty : item_t := mk_item trivial_write_operation (Some (S_empty mk_empty_buf)).
(*@ buffers.hpp 507-511 writable_item_t::writable_item_t *)
Definition item_of_const (str : nat) (size : Z) : item_t :=
  mk_item trivial_write_operation (Some (S_const (mk_const_buf str size))).
(*@ buffers.hpp 520-528 writable_item_t::writable_item_t *)
Definition item_of_object (ds : bytes) : item_t :=
  mk_item trivial_write_operation (Some (S_data (mk_datasizeable_buf ds))).
(*@ buffers.hpp 536-548 writable_item_t::writable_item_t *)
Definition item_of_shared (sp : option nat) : result fault item_t :=
  match sp with
  | None => Err empty_shared_ptr
  | Some _ => Ok (mk_item trivial_write_operation (Some (S_shared (mk_shared_buf sp))))
  end.
(*@ buffers.hpp 550-554 writable_item_t::writable_item_t *)
Definition item_of_file (sf_opts : sendfile_t) : item_t :=
  mk_item file_write_operation (Some (S_file (mk_sfwo (Some (sendfile_move sf_opts).1)))).

(** The caller keeps a pointer to the shared object and gives another one. *)
Definition construct (s : source) (w : world) : result fault (item_t * world) :=
  match s with
  | From_nothing => Ok (item_empty, w)
  | From_const data size => Ok (item_of_const data size, w)
  | From_object ds => Ok (item_of_object ds, w)
  | From_shared sp =>
      item ← item_of_shared sp;
      Ok (item, match sp with Some p => acquire p w | None => w end)
  | From_file sf => Ok (item_of_file sf, w)
  end.

Section Items.
Context `{MovedFrom}.

(*@ buffers.hpp 624-634 writable_item_t::get_writable_base *)
Definition get_writable_base (i : item_t) : result fault stored :=
  match m_storage i with Some b => Ok b | None => Err no_object end.

(*@ buffers.hpp 610-615 writable_item_t::destroy_stored_buffer *)
Definition destroy_stored_buffer (i : item_t) (w : world) : result fault (item_t * world) :=
  b ← get_writable_base i; Ok (mk_item (m_write_type i) None, base_destroy b w).

(** The new item and what is left of the other. *)
(*@ buffers.hpp 556-560 writable_item_t::writable_item_t *)
Definition item_move_construct (b : item_t) : result fault (item_t * item_t) :=
  o ← get_writable_base b;
  let '(moved, rest) := relocate_to o in
  Ok (mk_item (m_write_type b) (Some moved), mk_item (m_write_type b) (Some rest)).

(** For two items that are not the same. *)
(*@ buffers.hpp 562-573 writable_item_t::operator= *)
Definition item_move_assign (this b : item_t) (w : world) : result fault (item_t * item_t * world) :=
  '(_, w) ← destroy_stored_buffer this w;
  '(this, b) ← item_move_construct b;
  Ok (this, b, w).

(*@ buffers.hpp 588-588 writable_item_t::size *)
Definition stored_size (w : world) (i : item_t) : result fault Z := b ← get_writable_base i; base_size w b.

(*@ buffers.hpp 594-594 writable_item_t::buf *)
Definition buf (w : world) (i : item_t) : result fault bytes :=
  b ← get_writable_base i;
  match b with
  | S_empty b => buffer w b
  | S_const b => buffer w b
  | S_data b => buffer w b
  | S_shared b => buffer w b
  | S_file _ => Err wrong_class
  end.

(*@ buffers.hpp 603-607 writable_item_t::sendfile_operation *)
Definition sendfile_operation (i : item_t) : result fault sendfile_t :=
  b ← get_writable_base i;
  match b with S_file b => sendfile_options b | _ => Err wrong_class end.
End Items.

(** ** Programs over items *)

(** Items in use have names; a vector that grows constructs each item in the new memory by a
    move and destroys the old one. The rest of the program owns [outside p] pointers to the shared object [p]. *)
Inductive command : Type :=
| Construct (i : nat) (s : source)
| MoveConstruct (i j : nat)
| MoveAssign (i j : nat)
| Destroy (i : nat)
| LoseOwner (p : nat).

Record memory : Type := mk_memory { slots : gmap nat item_t; outside : nat -> nat; mem_world : world }.

(** A program constructs where nothing is, moves and destroys what is there, and shares what it owns. *)
Definition proper (c : command) (m : memory) : Prop :=
  match c with
  | Construct i s => slots m !! i = None /\ match s with From_shared (Some p) => (0 < outside m p)%nat | _ => True end
  | MoveConstruct i j => slots m !! i = None /\ is_Some (slots m !! j)
  | MoveAssign i j => is_Some (slots m !! i) /\ is_Some (slots m !! j)
  | Destroy i => is_Some (slots m !! i)
  | LoseOwner p => (0 < outside m p)%nat
  end.

Definition slot (m : memory) (i : nat) : result fault item_t :=
  match slots m !! i with Some x => Ok x | None => Err no_object end.

Section Programs.
Context `{MovedFrom}.

Definition perform (c : command) (m : memory) : result fault memory :=
  match c with
  | Construct i s =>
      '(x, w) ← construct s (mem_world m);
      Ok (mk_memory (<[i := x]> (slots m)) (outside m) w)
  | MoveConstruct i j =>
      b ← slot m j;
      '(x, b) ← item_move_construct b;
      Ok (mk_memory (<[i := x]> (<[j := b]> (slots m))) (outside m) (mem_world m))
  | MoveAssign i j =>
      if bool_decide (i = j) then Ok m else
      this ← slot m i; b ← slot m j;
      '(x, b, w) ← item_move_assign this b (mem_world m);
      Ok (mk_memory (<[i := x]> (<[j := b]> (slots m))) (outside m) w)
  | Destroy i =>
      x ← slot m i;
      '(_, w) ← destroy_stored_buffer x (mem_world m);
      Ok (mk_memory (delete i (slots m)) (outside m) w)
  | LoseOwner p =>
      Ok (mk_memory (slots m) (fun q => if bool_decide (q = p) then outside m q - 1 else outside m q)%nat
            (release p (mem_world m)))
  end.
End Programs.

(** ** What items own *)

Inductive token : Type := Owner (p : nat) | File (fd : Z).

#[global] Instance token_eq_dec : EqDecision token.
Proof. solve_decision. Defined.

(** The pointer to a shared object, or the descriptor of an open file, that an object holds. *)
Definition stored_tokens (b : stored) : list token :=
  match b with
  | S_shared b => match m_buf_ptr b with Some p => [Owner p] | None => [] end
  | S_file b => match m_sendfile_options b with Some sf => File <$> fdh_destroy (m_file_descriptor sf) | None => [] end
  | _ => []
  end.
Definition tokens (x : item_t) : list token := match m_storage x with Some b => stored_tokens b | None => [] end.

Definition held (s : gmap nat item_t) : list token := (map_to_list s).*2 ≫= tokens.

Lemma held_insert s i x : s !! i = None -> held (<[i := x]> s) ≡ₚ tokens x ++ held s.
Proof. intros Hi. unfold held. by rewrite (map_to_list_insert s i x Hi). Qed.

Lemma held_delete s i x : s !! i = Some x -> held s ≡ₚ tokens x ++ held (delete i s).
Proof. intros Hi. rewrite <- (insert_delete_id s i x Hi) at 1. apply held_insert, lookup_delete_eq. Qed.

Lemma held_update s i x y : s !! i = Some x -> tokens x ++ held (<[i := y]> s) ≡ₚ tokens y ++ held s.
Proof.
  intros Hi. rewrite <- insert_delete_eq, held_insert by apply lookup_delete_eq.
  rewrite (held_delete s i x Hi). rewrite !(assoc (++)). by rewrite (Permutation_app_comm (tokens x)).
Qed.

Definition occurrences (t : token) (l : list token) : nat := length (filter (.= t) l).

Lemma occurrences_app t l k : occurrences t (l ++ k) = (occurrences t l + occurrences t k)%nat.
Proof. unfold occurrences. by rewrite filter_app, length_app. Qed.

#[global] Instance occurrences_proper t : Proper ((≡ₚ) ==> eq) (occurrences t).
Proof. intros l k Hlk. unfold occurrences. by rewrite Hlk. Qed.

Lemma occurrences_pos t l : t ∈ l -> (0 < occurrences t l)%nat.
Proof.
  intros Ht. unfold occurrences. destruct (filter (.= t) l) as [|x k] eqn:E; [|cbn; lia].
  assert (t ∈ filter (.= t) l) as Hf by by apply list_elem_of_filter. rewrite E in Hf. by apply elem_of_nil in Hf.
Qed.

Lemma occurrences_one t u : occurrences t [u] = (if bool_decide (t = u) then 1 else 0)%nat.
Proof.
  unfold occurrences. destruct (bool_decide_reflect (t = u)) as [->|Ht].
  - by rewrite filter_cons_True.
  - rewrite filter_cons_False; [done | congruence].
Qed.

Lemma occurrences_files p fds : occurrences (Owner p) (File <$> fds) = 0%nat.
Proof. unfold occurrences. induction fds as [|fd fds IH]; [done|]. rewrite fmap_cons. by rewrite filter_cons_False. Qed.

Lemma held_tokens s i x t : s !! i = Some x -> t ∈ tokens x -> t ∈ held s.
Proof. intros Hi Ht. rewrite (held_delete s i x Hi). apply elem_of_app. by left. Qed.

(** *** Owners *)

Lemma uses_acquire p w q : is_Some (w_shared w !! p) -> uses (acquire p w) q = (if bool_decide (q = p) then S (uses w q) else uses w q).
Proof.
  intros [[d n] Hp]. unfold uses, acquire. cbn [w_shared]. case_bool_decide as Hq.
  - subst q. by rewrite lookup_alter_eq, Hp.
  - by rewrite lookup_alter_ne by done.
Qed.

Lemma acquire_data p w q : shared_data (acquire p w) q = shared_data w q.
Proof.
  unfold shared_data, acquire. cbn [w_shared]. destruct (decide (q = p)) as [->|Hq].
  - rewrite lookup_alter_eq. by destruct (w_shared w !! p).
  - by rewrite lookup_alter_ne by done.
Qed.

Lemma release_uses p w q : uses (release p w) q = (if bool_decide (q = p) then uses w q - 1 else uses w q)%nat.
Proof.
  unfold uses, release. cbn [w_shared]. case_bool_decide as Hq.
  - subst q. destruct (w_shared w !! p) as [[d [|[|n]]]|] eqn:E; rewrite ?lookup_delete_eq, ?lookup_insert_eq, ?E; cbn; lia.
  - destruct (w_shared w !! p) as [[d [|[|n]]]|] eqn:E; rewrite ?lookup_delete_ne, ?lookup_insert_ne by done; done.
Qed.

Lemma release_data p w q : (0 < uses (release p w) q)%nat -> shared_data (release p w) q = shared_data w q.
Proof.
  unfold uses, shared_data, release. cbn [w_shared].
  destruct (decide (q = p)) as [->|Hq].
  - destruct (w_shared w !! p) as [[d [|[|n]]]|] eqn:E; rewrite ?lookup_delete_eq, ?lookup_insert_eq, ?E; cbn; lia || done.
  - destruct (w_shared w !! p) as [[d [|[|n]]]|] eqn:E; rewrite ?lookup_delete_ne, ?lookup_insert_ne by done; done.
Qed.

(** Whatever still has an owner reads as before. *)
Definition same_data (w w' : world) : Prop :=
  w_const w' = w_const w /\ forall p, (0 < uses w' p)%nat -> shared_data w' p = shared_data w p.

(** *** The objects *)

Definition stored_type (b : stored) : writable_item_type_t :=
  match b with S_file _ => file_write_operation | _ => trivial_write_operation end.

Section Objects.
Context `{MovedFrom}.

Lemma relocate_tokens (b a r : stored) : relocate_to b = (a, r) ->
  stored_tokens a = stored_tokens b /\ stored_tokens r = [] /\ stored_type a = stored_type b /\ stored_type r = stored_type b.
Proof. by destruct b; cbn; intros [= <- <-]. Qed.

Lemma destroy_uses (b : stored) w p : uses (base_destroy b w) p = (uses w p - occurrences (Owner p) (stored_tokens b))%nat.
Proof.
  destruct b as [| | |[[q|]]|[[sf|]]]; cbn [base_destroy stored_base empty_base const_base datasizeable_base shared_base
    sendfile_base stored_tokens m_buf_ptr m_sendfile_options]; rewrite ?Nat.sub_0_r; try done.
  - rewrite release_uses, occurrences_one. do 2 case_bool_decide; lia || congruence.
  - rewrite occurrences_files. cbn. unfold uses, close_files. cbn. lia.
Qed.

Lemma destroy_closed (b : stored) w : exists fds, w_closed (base_destroy b w) = w_closed w ++ fds /\
  forall fd, occurrences (File fd) (File <$> fds) = occurrences (File fd) (stored_tokens b).
Proof.
  destruct b as [| | |[[q|]]|[[sf|]]]; cbn; try (exists []; split; [by rewrite app_nil_r | done]).
  by eexists.
Qed.

Lemma destroy_same (b : stored) w : same_data w (base_destroy b w).
Proof. destruct b as [| | |[[q|]]|[[sf|]]]; cbn; split; try done. intros p. apply release_data. Qed.
End Objects.

(** ** Invariant *)

(** Every item in use has an object in its storage, of the class its type says, and an owner is
    counted for each item and for each pointer of the rest of the program. *)
Record sound (m : memory) : Prop := {
  so_typed : forall i x, slots m !! i = Some x -> exists b, m_storage x = Some b /\ m_write_type x = stored_type b;
  so_uses : forall p, uses (mem_world m) p = (outside m p + occurrences (Owner p) (held (slots m)))%nat }.

(** What a command takes over from the rest of the program. *)
Definition takes (c : command) : list token :=
  match c with
  | Construct _ (From_shared (Some p)) => [Owner p]
  | Construct _ (From_file sf) => File <$> fdh_destroy (m_file_descriptor sf)
  | _ => []
  end.

(** The descriptors that items hold and those that were closed. *)
Definition files (m : memory) (fd : Z) : nat :=
  (occurrences (File fd) (held (slots m)) + occurrences (File fd) (File <$> w_closed (mem_world m)))%nat.

Definition fine (c : command) (m m' : memory) : Prop :=
  sound m' /\ same_data (mem_world m) (mem_world m') /\
  forall fd, files m' fd = (files m fd + occurrences (File fd) (takes c))%nat.

Section Steps.
Context `{MovedFrom}.

Lemma typed_insert (s : gmap nat item_t) i b wt : wt = stored_type b ->
  (forall k x, s !! k = Some x -> exists b, m_storage x = Some b /\ m_write_type x = stored_type b) ->
  forall k x, <[i := mk_item wt (Some b)]> s !! k = Some x -> exists b, m_storage x = Some b /\ m_write_type x = stored_type b.
Proof. intros -> Hs k x. rewrite lookup_insert_Some. intros [[<- <-]|[_ Hk]]; [by eexists | by apply (Hs k)]. Qed.

Lemma same_data_refl w : same_data w w.
Proof. done. Qed.

(** An object is placed where nothing was. *)
Lemma fine_construct m i b w c : sound m -> slots m !! i = None -> takes c = stored_tokens b ->
  w_closed w = w_closed (mem_world m) -> same_data (mem_world m) w ->
  (forall p, uses w p = (uses (mem_world m) p + occurrences (Owner p) (stored_tokens b))%nat) ->
  fine c m (mk_memory (<[i := mk_item (stored_type b) (Some b)]> (slots m)) (outside m) w).
Proof.
  intros [] Hi Ht Hc Hd Hu. split; [|split; [done|]].
  - split; cbn; [by apply typed_insert|]. intros p. rewrite Hu, so_uses0, held_insert, occurrences_app by done. unfold tokens. cbn [m_storage]. lia.
  - intros fd. unfold files. cbn [slots mem_world]. rewrite held_insert, occurrences_app, Hc, Ht by done. unfold tokens. cbn [m_storage]. lia.
Qed.

Lemma construct_fine m i s : sound m -> proper (Construct i s) m ->
  perform (Construct i s) m = Err empty_shared_ptr /\ s = From_shared None \/
  exists m', perform (Construct i s) m = Ok m' /\ fine (Construct i s) m m'.
Proof.
  intros Hm [Hi Hs]. destruct s as [|data size|ds|[p|]|sf]; cbn.
  - right. eexists. split; [done|]. apply (fine_construct m i (S_empty mk_empty_buf)); try done; intros p; unfold occurrences; cbn; lia.
  - right. eexists. split; [done|]. apply (fine_construct m i (S_const _)); try done; intros p; unfold occurrences; cbn; lia.
  - right. eexists. split; [done|]. apply (fine_construct m i (S_data _)); try done; intros p; unfold occurrences; cbn; lia.
  - right. eexists. split; [done|]. apply (fine_construct m i (S_shared (mk_shared_buf (Some p)))); try done.
    + split; [done|]. intros q _. apply acquire_data.
    + intros q. rewrite uses_acquire.
      * cbn [stored_tokens m_buf_ptr]. rewrite occurrences_one. do 2 case_bool_decide; lia || congruence.
      * pose proof (so_uses _ Hm p) as Hu. unfold uses in Hu. destruct (w_shared (mem_world m) !! p) as [[d n]|]; [by eexists | lia].
  - by left.
  - right. eexists. split; [done|]. apply (fine_construct m i (S_file (mk_sfwo (Some (sendfile_move sf).1)))); try done.
    intros q. cbn [stored_tokens m_sendfile_options]. rewrite occurrences_files. lia.
Qed.

Lemma moved_item m j x : sound m -> slots m !! j = Some x -> exists b a r,
  m_storage x = Some b /\ relocate_to b = (a, r) /\
  item_move_construct x = Ok (mk_item (stored_type a) (Some a), mk_item (stored_type r) (Some r)) /\
  stored_tokens a = tokens x /\ stored_tokens r = [].
Proof.
  intros Hm Hj. destruct (so_typed _ Hm j x Hj) as (b & Hb & Hw). unfold item_move_construct, get_writable_base, tokens. rewrite Hb.
  destruct (relocate_to b) as [a r] eqn:E. destruct (relocate_tokens b a r E) as (H1 & H2 & H3 & H4).
  exists b, a, r. rewrite Hw. cbn [mbind result_bind]. rewrite ?E, H3, H4. by split_and!.
Qed.

Lemma held_moved (s : gmap nat item_t) i j x a r : s !! i = None -> s !! j = Some x -> tokens a = tokens x -> tokens r = [] ->
  held (<[i := a]> (<[j := r]> s)) ≡ₚ held s.
Proof.
  intros Hi Hj Ha Hr. rewrite held_insert; [|rewrite lookup_insert_ne; [done | congruence]].
  rewrite Ha, (held_update s j x r Hj), Hr. done.
Qed.

Lemma move_construct_fine m i j : sound m -> proper (MoveConstruct i j) m ->
  exists m', perform (MoveConstruct i j) m = Ok m' /\ fine (MoveConstruct i j) m m'.
Proof.
  intros Hm [Hi [x Hj]]. destruct (moved_item m j x Hm Hj) as (b & a & r & Hb & Hre & Hx & Ha & Hr).
  unfold perform, slot. rewrite Hj. cbn [mbind result_bind]. rewrite Hx. cbn [mbind result_bind]. eexists. split; [done|].
  assert (Hh : held (<[i := mk_item (stored_type a) (Some a)]> (<[j := mk_item (stored_type r) (Some r)]> (slots m))) ≡ₚ held (slots m))
    by by apply (held_moved _ _ _ x).
  destruct Hm. split; [split; cbn|split; [done|]].
  - apply typed_insert; [done|]. by apply typed_insert.
  - intros p. by rewrite Hh.
  - intros fd. unfold files. cbn [slots mem_world]. rewrite Hh. by rewrite Nat.add_0_r.
Qed.

Lemma destroyed m i x : sound m -> slots m !! i = Some x -> exists b, m_storage x = Some b /\
  destroy_stored_buffer x (mem_world m) = Ok (mk_item (m_write_type x) None, base_destroy b (mem_world m)).
Proof.
  intros Hm Hi. destruct (so_typed _ Hm i x Hi) as (b & Hb & Hw). exists b. split; [done|].
  unfold destroy_stored_buffer, get_writable_base. by rewrite Hb.
Qed.

Lemma destroy_files (b : stored) w fd : occurrences (File fd) (File <$> w_closed (base_destroy b w)) =
  (occurrences (File fd) (File <$> w_closed w) + occurrences (File fd) (stored_tokens b))%nat.
Proof. destruct (destroy_closed b w) as (fds & -> & Hf). by rewrite fmap_app, occurrences_app, Hf. Qed.

Lemma destroy_fine m i : sound m -> proper (Destroy i) m ->
  exists m', perform (Destroy i) m = Ok m' /\ fine (Destroy i) m m'.
Proof.
  intros Hm [x Hi]. destruct (destroyed m i x Hm Hi) as (b & Hb & Hx).
  unfold perform, slot. rewrite Hi. cbn [mbind result_bind]. rewrite Hx. cbn [mbind result_bind]. eexists. split; [done|].
  pose proof (held_delete _ _ _ Hi) as Hh. unfold tokens in Hh. rewrite Hb in Hh.
  destruct Hm. split; [split; cbn [slots outside mem_world]|split; [apply destroy_same|]].
  - intros k y. rewrite lookup_delete_Some. intros [_ Hk]. by apply (so_typed0 k).
  - intros p. rewrite destroy_uses, so_uses0, Hh, occurrences_app. lia.
  - intros fd. unfold files. cbn [slots mem_world]. rewrite destroy_files, Hh, occurrences_app. change (occurrences (File fd) (takes _)) with 0%nat. lia.
Qed.

Lemma move_assign_fine m i j : sound m -> proper (MoveAssign i j) m ->
  exists m', perform (MoveAssign i j) m = Ok m' /\ fine (MoveAssign i j) m m'.
Proof.
  intros Hm [[y Hi] [x Hj]]. unfold perform. case_bool_decide as Hij.
  { exists m. split; [done|]. split; [done|]. split; [done|]. intros fd. by rewrite Nat.add_0_r. }
  destruct (moved_item m j x Hm Hj) as (b & a & r & Hb & Hre & Hx & Ha & Hr).
  destruct (destroyed m i y Hm Hi) as (o & Ho & Hy).
  unfold slot, item_move_assign. rewrite Hi, Hj. cbn [mbind result_bind]. rewrite Hy. cbn [mbind result_bind]. rewrite Hx. cbn [mbind result_bind].
  eexists. split; [done|].
  assert (Hh : stored_tokens o ++ held (<[i := mk_item (stored_type a) (Some a)]> (<[j := mk_item (stored_type r) (Some r)]> (slots m)))
             ≡ₚ held (slots m)).
  { pose proof (held_update (<[j := mk_item (stored_type r) (Some r)]> (slots m)) i y (mk_item (stored_type a) (Some a))) as H1.
    rewrite lookup_insert_ne in H1 by done. specialize (H1 Hi). unfold tokens in H1 at 1 2. rewrite Ho in H1. cbn [m_storage] in H1.
    rewrite H1, Ha. rewrite (held_update _ j x _ Hj). unfold tokens at 1. cbn. by rewrite Hr. }
  destruct Hm. split; [split; cbn [slots outside mem_world]|split; [apply destroy_same|]].
  - apply typed_insert; [done|]. by apply typed_insert.
  - intros p. rewrite destroy_uses, so_uses0, <- Hh, occurrences_app. lia.
  - intros fd. unfold files. cbn [slots mem_world]. rewrite destroy_files, <- Hh, occurrences_app. change (occurrences (File fd) (takes _)) with 0%nat. lia.
Qed.

Lemma lose_owner_fine m p : sound m -> proper (LoseOwner p) m ->
  exists m', perform (LoseOwner p) m = Ok m' /\ fine (LoseOwner p) m m'.
Proof.
  intros Hm Hp. cbn in Hp. eexists. split; [done|]. destruct Hm. split; [split; cbn|split].
  - done.
  - intros q. rewrite release_uses, so_uses0. case_bool_decide as Hq; [subst q; lia | done].
  - split; [done|]. intros q. apply release_data.
  - intros fd. unfold files. cbn [slots mem_world]. by rewrite Nat.add_0_r.
Qed.

Lemma perform_fine m c : sound m -> proper c m ->
  perform c m = Err empty_shared_ptr /\ (exists i, c = Construct i (From_shared None)) \/
  exists m', perform c m = Ok m' /\ fine c m m'.
Proof.
  intros Hm Hc. destruct c as [i s|i j|i j|i|p].
  - destruct (construct_fine m i s Hm Hc) as [[H1 ->]|H1]; [left; eauto | by right].
  - right. by apply move_construct_fine.
  - right. by apply move_assign_fine.
  - right. by apply destroy_fine.
  - right. by apply lose_owner_fine.
Qed.
End Steps.

(** ** What items stand for *)

(** The item of [WriteGroup] that an item stands for, as long as it can be read. *)
Definition view (w : world) (x : item_t) : option writable_item_t :=
  match m_storage x with
  | Some (S_empty _) => Some (TrivialItem [])
  | Some (S_const b) => match read_memory w (cb_data b) (cb_size b) with Ok d => Some (TrivialItem d) | Err _ => None end
  | Some (S_data b) => Some (TrivialItem (m_custom_buffer b))
  | Some (S_shared b) => p ← m_buf_ptr b; TrivialItem <$> shared_data w p
  | Some (S_file b) => FileItem <$> m_sendfile_options b
  | None => None
  end.

(** What a source stands for. *)
Definition meaning (w : world) (s : source) : option writable_item_t :=
  match s with
  | From_nothing => Some (TrivialItem [])
  | From_const data size => match read_memory w data size with Ok d => Some (TrivialItem d) | Err _ => None end
  | From_object ds => Some (TrivialItem ds)
  | From_shared sp => p ← sp; TrivialItem <$> shared_data w p
  | From_file sf => Some (FileItem sf)
  end.

(** The specification: names of values; an item that was moved from has none. *)
Definition spec := gmap nat (option writable_item_t).

Definition spec_perform (c : command) (w : world) (sp : spec) : spec :=
  match c with
  | Construct i s => <[i := meaning w s]> sp
  | MoveConstruct i j => <[i := sp !! j ≫= id]> (<[j := None]> sp)
  | MoveAssign i j => if bool_decide (i = j) then sp else <[i := sp !! j ≫= id]> (<[j := None]> sp)
  | Destroy i => delete i sp
  | LoseOwner _ => sp
  end.

Definition refines (m : memory) (sp : spec) : Prop :=
  forall i it, sp !! i = Some (Some it) -> exists x, slots m !! i = Some x /\ view (mem_world m) x = Some it.

(** What every program over items may come to, from [m0], with what was taken over and what
    the specification says. *)
Inductive reaches `{MovedFrom} (m0 : memory) : list token -> spec -> memory -> Prop :=
| reach_start : reaches m0 [] ∅ m0
| reach_perform taken sp m c m' : reaches m0 taken sp m -> proper c m -> perform c m = Ok m' ->
    reaches m0 (taken ++ takes c) (spec_perform c (mem_world m) sp) m'.

(** At the start there are no items, and the program owns what is shared. *)
Definition start (m : memory) : Prop := slots m = ∅ /\ w_closed (mem_world m) = [] /\ forall p, uses (mem_world m) p = outside m p.

Lemma start_sound m : start m -> sound m.
Proof.
  intros (Hs & _ & Hu). split; rewrite Hs.
  - intros i x Hx. by rewrite lookup_empty in Hx.
  - intros p. rewrite Hu. unfold held. rewrite map_to_list_empty. cbn. unfold occurrences. cbn. lia.
Qed.

Section Views.
Context `{MovedFrom}.

Lemma view_same w w' x : same_data w w' -> (forall p, Owner p ∈ tokens x -> (0 < uses w' p)%nat) -> view w' x = view w x.
Proof.
  intros [Hc Hd] Hx. unfold view, tokens in *. destruct (m_storage x) as [[b|b|b|[[p|]]|b]|]; try done.
  - unfold read_memory. by rewrite Hc.
  - cbn in *. rewrite Hd; [done|]. apply Hx. by apply list_elem_of_here.
Qed.

Lemma owned m i x p : sound m -> slots m !! i = Some x -> Owner p ∈ tokens x -> (0 < uses (mem_world m) p)%nat.
Proof.
  intros Hm Hi Hp. rewrite (so_uses _ Hm). pose proof (occurrences_pos _ _ (held_tokens _ _ _ _ Hi Hp)). lia.
Qed.

(** An item that a command does not touch is seen as before. *)
Lemma view_kept c m m' i x : fine c m m' -> slots m' !! i = Some x -> view (mem_world m') x = view (mem_world m) x.
Proof. intros (Hm & Hd & _) Hi. apply view_same; [done|]. intros p. by apply (owned m' i x). Qed.

Lemma view_moved w x a r b : m_storage x = Some b -> relocate_to b = (a, r) -> view w (mk_item (stored_type a) (Some a)) = view w x.
Proof. intros Hb Hr. unfold view. rewrite Hb. destruct b; cbn in Hr; injection Hr as <- <-; done. Qed.

Lemma moved_refines i j x a r b c sp m w : slots m !! j = Some x -> m_storage x = Some b -> relocate_to b = (a, r) ->
  let s := <[i := mk_item (stored_type a) (Some a)]> (<[j := mk_item (stored_type r) (Some r)]> (slots m)) in
  fine c m (mk_memory s (outside m) w) -> refines m sp ->
  refines (mk_memory s (outside m) w) (<[i := sp !! j ≫= id]> (<[j := None]> sp)).
Proof.
  intros Hj Hb Hre s Hf Hr k it Hk. apply lookup_insert_Some in Hk as [[<- Hk]|[Hne Hk]].
  - exists (mk_item (stored_type a) (Some a)). split; [apply lookup_insert_eq|].
    rewrite (view_kept _ _ _ i _ Hf) by apply lookup_insert_eq. rewrite (view_moved _ x a r b Hb Hre).
    destruct (sp !! j) as [o|] eqn:E; [|done]. cbn in Hk. unfold id in Hk. subst o. destruct (Hr j it E) as (y & Hy & Hv). congruence.
  - apply lookup_insert_Some in Hk as [[<- Hk]|[Hne' Hk]]; [done|]. destruct (Hr k it Hk) as (y & Hy & Hv).
    assert (slots (mk_memory s (outside m) w) !! k = Some y) as Hs by (cbn; unfold s; by rewrite !lookup_insert_ne).
    exists y. split; [done|]. by rewrite (view_kept _ _ _ k y Hf).
Qed.

Lemma perform_refines m m' c sp : sound m -> proper c m -> perform c m = Ok m' -> fine c m m' -> refines m sp ->
  refines m' (spec_perform c (mem_world m) sp).
Proof.
  intros Hm Hp He Hf Hr.
  assert (Hkeep : forall k x it, sp !! k = Some (Some it) -> slots m !! k = Some x -> view (mem_world m) x = Some it ->
    slots m' !! k = Some x -> exists x, slots m' !! k = Some x /\ view (mem_world m') x = Some it).
  { intros k x it _ _ Hv Hk. exists x. split; [done|]. by rewrite (view_kept c m m' k x). }
  destruct c as [i s|i j|i j|i|p]; cbn [spec_perform]; intros k it Hk.
  - cbn in He. destruct (construct s (mem_world m)) as [[x w]|e] eqn:Es; [|done]. injection He as <-.
    apply lookup_insert_Some in Hk as [[<- Hk]|[Hne Hk]].
    + exists x. split; [apply lookup_insert_eq|]. rewrite (view_kept _ _ _ i x Hf) by apply lookup_insert_eq.
      rewrite <- Hk. destruct s as [|data size|ds|[q|]|sf]; cbn in Es; try injection Es as <- _; try done.
      by destruct sf.
    + destruct (Hr k it Hk) as (y & Hy & Hv). apply (Hkeep k y); try done. cbn. by rewrite lookup_insert_ne.
  - destruct Hp as [Hi [x Hj]]. destruct (moved_item m j x Hm Hj) as (b & a & r & Hb & Hre & Hx & _ & _).
    unfold perform, slot in He. rewrite Hj in He. cbn [mbind result_bind] in He. rewrite Hx in He. injection He as <-.
    exact (moved_refines i j x a r b _ sp m _ Hj Hb Hre Hf Hr k it Hk).
  - unfold perform in He. case_bool_decide as Hij; [injection He as <-; by destruct (Hr k it Hk) as (x & ? & ?); eauto|].
    destruct Hp as [[y Hi] [x Hj]]. destruct (moved_item m j x Hm Hj) as (b & a & r & Hb & Hre & Hx & _ & _).
    destruct (destroyed m i y Hm Hi) as (o & Ho & Hy).
    unfold slot, item_move_assign in He. rewrite Hi, Hj in He. cbn [mbind result_bind] in He. rewrite Hy in He.
    cbn [mbind result_bind] in He. rewrite Hx in He. injection He as <-.
    exact (moved_refines i j x a r b _ sp m _ Hj Hb Hre Hf Hr k it Hk).
  - destruct Hp as [x Hi]. destruct (destroyed m i x Hm Hi) as (o & Ho & Hy).
    unfold perform, slot in He. rewrite Hi in He. cbn [mbind result_bind] in He. rewrite Hy in He. injection He as <-.
    apply lookup_delete_Some in Hk as [Hne Hk]. destruct (Hr k it Hk) as (y & Hy' & Hv).
    apply (Hkeep k y); try done. cbn. by rewrite lookup_delete_ne.
  - injection He as <-. destruct (Hr k it Hk) as (y & Hy & Hv). by apply (Hkeep k y).
Qed.

Lemma reaches_sound m0 taken sp m : start m0 -> reaches m0 taken sp m ->
  sound m /\ refines m sp /\ forall fd, files m fd = occurrences (File fd) taken.
Proof.
  intros H0. induction 1 as [|taken sp m c m' Hreach (Hm & Hr & Hfd) Hp He].
  - split_and!; [by apply start_sound | by intros i it Hi | ].
    intros fd. unfold files. destruct H0 as (-> & -> & _). unfold held. by rewrite map_to_list_empty.
  - destruct (perform_fine m c Hm Hp) as [[He' _]|(m'' & He' & Hf)]; [congruence|].
    assert (m'' = m') as -> by congruence. pose proof Hf as (Hm' & _ & Hfd').
    split_and!; [done | by apply (perform_refines m m') |].
    intros fd. by rewrite Hfd', Hfd, occurrences_app.
Qed.

(** What is read from an item that stands for something. *)
Lemma view_read m i x it : sound m -> slots m !! i = Some x -> view (mem_world m) x = Some it ->
  m_write_type x = write_type it /\ stored_size (mem_world m) x = Ok (item_size it) /\
  match it with
  | TrivialItem data => buf (mem_world m) x = Ok data
  | FileItem sf => sendfile_operation x = Ok sf
  end.
Proof.
  intros Hm Hi Hv. destruct (so_typed _ Hm i x Hi) as (b & Hb & ->). unfold view in Hv.
  unfold stored_size, buf, sendfile_operation, get_writable_base. rewrite Hb in *.
  destruct b as [b|[data size]|b|[[p|]]|[[sf|]]]; cbn in *; try done; try (by injection Hv as <-).
  - unfold buffer, const_iface. cbn in *. destruct (read_memory (mem_world m) data size) as [d|] eqn:E; [|done]. injection Hv as <-.
    split; [done|]. split; [|done]. f_equal. cbn. unfold read_memory in E. destruct (w_const (mem_world m) !! data) as [l|]; [|done].
    case_bool_decide; [|done]. injection E as <-. rewrite length_take. lia.
  - unfold buffer, shared_iface. cbn. destruct (shared_data (mem_world m) p); [|done]. by injection Hv as <-.
Qed.

(** C32 (refinement). Items are values: after any program of constructions, moves, assignments
    and destructions, also of shared objects that the rest of the program gives
    up, every item that was not moved from has the type and the size of the
    item of [WriteGroup] that the same program on values gives, and what is written
    from it are these bytes, or this file. *)
Theorem items_refine_values m0 taken sp m i it (H0 : start m0) (Hr : reaches m0 taken sp m) (Hi : sp !! i = Some (Some it)) :
  exists x, slots m !! i = Some x /\ m_write_type x = write_type it /\ stored_size (mem_world m) x = Ok (item_size it) /\
    match it with
    | TrivialItem data => buf (mem_world m) x = Ok data
    | FileItem sf => sendfile_operation x = Ok sf
    end.
Proof.
  destruct (reaches_sound m0 taken sp m H0 Hr) as (Hm & Hs & _). destruct (Hs i it Hi) as (x & Hx & Hv).
  exists x. split; [done|]. by apply (view_read m i).
Qed.

(** C33 (safety). Items neither leak nor release twice: whatever a program does with them, no command
    touches a storage without an object or a null pointer, and only an empty shared
    pointer is refused; a shared object has as many owners as there are items and
    other pointers that own it; each descriptor that was given to an item is in
    one item or was closed, once. When all items are gone, every owner is
    gone and every file is closed. *)
Theorem items_leak_nothing m0 taken sp m (H0 : start m0) (Hr : reaches m0 taken sp m) :
  (forall c, proper c m -> (exists m', perform c m = Ok m') \/
     perform c m = Err empty_shared_ptr /\ exists i, c = Construct i (From_shared None)) /\
  (forall p, uses (mem_world m) p = (outside m p + occurrences (Owner p) (held (slots m)))%nat) /\
  (forall fd, occurrences (File fd) taken =
     (occurrences (File fd) (held (slots m)) + occurrences (File fd) (File <$> w_closed (mem_world m)))%nat) /\
  (slots m = ∅ -> (forall p, uses (mem_world m) p = outside m p) /\
     forall fd, occurrences (File fd) (File <$> w_closed (mem_world m)) = occurrences (File fd) taken).
Proof.
  destruct (reaches_sound m0 taken sp m H0 Hr) as (Hm & _ & Hf). pose proof (so_uses _ Hm) as Hu.
  split_and!; [| done | by intros fd; rewrite <- Hf |].
  - intros c Hc. destruct (perform_fine m c Hm Hc) as [H1|(m' & H1 & _)]; eauto.
  - intros Hs. assert (Hh : held (slots m) = []) by (rewrite Hs; unfold held; by rewrite map_to_list_empty).
    split; [intros p; rewrite Hu, Hh; unfold occurrences; cbn; lia | intros fd; rewrite <- Hf; unfold files; by rewrite Hh].
Qed.
End Views.

(** ** A program *)

#[local] Instance strings_left_empty : MovedFrom := fun _ => [].

(** One shared object with one pointer to it. *)
Definition example_memory : memory :=
  mk_memory ∅ (fun p => if bool_decide (p = 7%nat) then 1%nat else 0%nat) (mk_world ∅ {[7%nat := (str "shared", 1%nat)]} []).

Lemma example_start : start example_memory.
Proof.
  split_and!; [done..|]. intros p. unfold uses. cbn. case_bool_decide as Hp.
  - subst p. by rewrite lookup_singleton_eq.
  - by rewrite lookup_singleton_ne.
Qed.

(** Runs a program; the commands have to be proper. *)
Definition run_program (cs : list command) (m : memory) : result fault memory := foldM (fun m c => perform c m) m cs.
Fixpoint all_proper (cs : list command) (m : memory) : Prop :=
  match cs with
  | [] => True
  | c :: cs => proper c m /\ match perform c m with Ok m' => all_proper cs m' | Err _ => False end
  end.
Fixpoint spec_run (cs : list command) (m : memory) (sp : spec) : spec :=
  match cs with
  | [] => sp
  | c :: cs => match perform c m with Ok m' => spec_run cs m' (spec_perform c (mem_world m) sp) | Err _ => sp end
  end.

Lemma reaches_run cs m0 taken sp m m' : reaches m0 taken sp m -> all_proper cs m -> run_program cs m = Ok m' ->
  reaches m0 (taken ++ (cs ≫= takes)) (spec_run cs m sp) m'.
Proof.
  revert taken sp m. induction cs as [|c cs IH]; intros taken sp m Hr Hp He; cbn in *.
  - injection He as <-. by rewrite app_nil_r.
  - destruct Hp as [Hc Hp]. destruct (perform c m) as [m1|] eqn:E; [|done]. rewrite app_assoc.
    by apply IH; [eapply reach_perform | done | done].
Qed.

(** A file and a shared object in a vector of two that grows, as the program gives up its pointer. *)
Definition example_program : list command :=
  [Construct 0 (From_file example_piece); Construct 1 (From_shared (Some 7%nat)); LoseOwner 7;
   MoveConstruct 2 0; Destroy 0; MoveConstruct 3 1; Destroy 1].

Definition example_grown : memory :=
  match run_program example_program example_memory with Ok m => m | Err _ => example_memory end.

Lemma example_grown_reached :
  reaches example_memory [File 5; Owner 7] (spec_run example_program example_memory ∅) example_grown.
Proof.
  change [File 5; Owner 7] with ([] ++ (example_program ≫= takes)). apply (reaches_run example_program example_memory).
  - apply reach_start.
  - vm_compute. repeat split; eauto.
  - by vm_compute.
Defined.

Lemma items_refine_values_witness :
  exists x, slots example_grown !! 3%nat = Some x /\ m_write_type x = trivial_write_operation /\
    stored_size (mem_world example_grown) x = Ok 6 /\ buf (mem_world example_grown) x = Ok (str "shared").
Proof.
  apply (items_refine_values example_memory _ _ example_grown 3 (TrivialItem (str "shared")) example_start example_grown_reached).
  by vm_compute.
Defined.

Lemma items_leak_nothing_witness :
  uses (mem_world example_grown) 7 = 1%nat /\
  uses (mem_world example_grown) 7 = (outside example_grown 7 + occurrences (Owner 7) (held (slots example_grown)))%nat.
Proof.
  split; [by vm_compute|].
  apply (items_leak_nothing example_memory _ _ example_grown example_start example_grown_reached).
Defined.
