(* ===== verification/OutputCtx.v ===== *)
(** * Writing one group out

    [restinio/impl/write_group_output_ctx.hpp]: [write_group_output_ctx_t]
    splits the current write group into operations, gathers of trivial buffers
    and files, and calls the group's notificator at the end. The number of
    buffers one gather may take, [asio_ns::detail::max_iov_len], is a parameter. *)

From S2P Require Import Prelude Sendfile WriteGroup.

Module OutputCtx.

(** The running file operation is kept by its description. *)
(*@ impl/write_group_output_ctx.hpp 366-381 write_group_output_ctx_t *)
Record t : Type := mk {
  m_current_wg : option write_group_t;
  m_next_writable_item_index : nat;
  m_asio_bufs : list bytes;
  m_sendfile_operation : option sendfile_t }.

(*@ impl/write_group_output_ctx.hpp 96-99 write_group_output_ctx_t::write_group_output_ctx_t *)
Definition create : t :=
  {| m_current_wg := None; m_next_writable_item_index := 0; m_asio_bufs := [];
     m_sendfile_operation := None |}.

(** [none_write_operation_t], [trivial_write_operation_t] with the buffers and
    their total size, [file_write_operation_t]. *)
(*@ impl/write_group_output_ctx.hpp 244-249 solid_write_operation_variant_t *)
Inductive solid_write_operation : Type :=
| none_write_operation
| trivial_write_operation (bufs : list bytes) (total_size : Z)
| file_write_operation (sf : sendfile_t).

(*@ impl/write_group_output_ctx.hpp 234-235 transmitting *)
Definition transmitting (c : t) : bool := bool_decide (is_Some (m_current_wg c)).

(** A group that was still there is replaced, so destroyed. *)
(*@ impl/write_group_output_ctx.hpp 237-242 start_next_write_group *)
Definition start_next_write_group (cb_throws : notificator -> error_code -> bool) (c : t)
    (next_wg : option write_group_t) : t * calls :=
  ({| m_current_wg := next_wg; m_next_writable_item_index := m_next_writable_item_index c;
      m_asio_bufs := m_asio_bufs c; m_sendfile_operation := m_sendfile_operation c |},
   from_option (wg_destroy cb_throws) [] (m_current_wg c)).

(*@ impl/write_group_output_ctx.hpp 303-309 reset_write_group *)
Definition reset_write_group (cb_throws : notificator -> error_code -> bool) (c : t) : t * calls :=
  ({| m_current_wg := None; m_next_writable_item_index := 0;
      m_asio_bufs := m_asio_bufs c; m_sendfile_operation := m_sendfile_operation c |},
   from_option (wg_destroy cb_throws) [] (m_current_wg c)).

Definition with_wg (c : t) (wg : option write_group_t) : t :=
  {| m_current_wg := wg; m_next_writable_item_index := m_next_writable_item_index c;
     m_asio_bufs := m_asio_bufs c; m_sendfile_operation := m_sendfile_operation c |}.

Inductive output_error : Type :=
| no_current_group
| after_write_callback_failed.

(** Calls the notificator of the current group; when it throws, the group is
    reset and the exception goes on as another one. *)
(*@ impl/write_group_output_ctx.hpp 311-330 invoke_after_write_notificator_if_necessary *)
Definition invoke_after_write_notificator_if_necessary
    (cb_throws : notificator -> error_code -> bool) (c : t) (ec : error_code)
    : result output_error unit * t * calls :=
  match m_current_wg c with
  | None => (Err no_current_group, c, [])
  | Some wg =>
      let '(wg, cs, threw) := invoke_after_write_notificator_if_exists cb_throws wg ec in
      let c := with_wg c (Some wg) in
      if threw then
        let '(c, cs') := reset_write_group cb_throws c in
        (Err after_write_callback_failed, c, cs ++ cs')
      else (Ok tt, c, cs)
  end.

(** The index of the next item is not reset here. *)
(*@ impl/write_group_output_ctx.hpp 281-290 fail_write_group *)
Definition fail_write_group (cb_throws : notificator -> error_code -> bool) (c : t)
    (ec : error_code) : result output_error unit * t * calls :=
  match invoke_after_write_notificator_if_necessary cb_throws c ec with
  | (Err e, c, cs) => (Err e, c, cs)
  | (Ok _, c, cs) =>
      (Ok tt,
       {| m_current_wg := None; m_next_writable_item_index := m_next_writable_item_index c;
          m_asio_bufs := m_asio_bufs c; m_sendfile_operation := None |},
       cs ++ from_option (wg_destroy cb_throws) [] (m_current_wg c))
  end.

(*@ impl/write_group_output_ctx.hpp 292-300 finish_write_group *)
Definition finish_write_group (cb_throws : notificator -> error_code -> bool) (c : t)
    : result output_error unit * t * calls :=
  match invoke_after_write_notificator_if_necessary cb_throws c no_error with
  | (Err e, c, cs) => (Err e, c, cs)
  | (Ok _, c, cs) =>
      let '(c, cs') := reset_write_group cb_throws c in (Ok tt, c, cs ++ cs')
  end.

(** [file_write_operation_t::start_sendfile_operation]: fails on a
    description whose descriptor is gone, and otherwise stores the operation. *)
(*@ impl/write_group_output_ctx.hpp 165-189 file_write_operation_t::start_sendfile_operation *)
Definition start_sendfile_operation (c : t) (sf : sendfile_t) : result sendfile_error t :=
  if negb (sf_is_valid sf) then Err invalid_file_descriptor
  else Ok {| m_current_wg := m_current_wg c;
             m_next_writable_item_index := m_next_writable_item_index c;
             m_asio_bufs := m_asio_bufs c; m_sendfile_operation := Some sf |}.

(*@ impl/write_group_output_ctx.hpp 205-209 file_write_operation_t::reset *)
Definition reset_sendfile_operation (c : t) : t :=
  {| m_current_wg := m_current_wg c; m_next_writable_item_index := m_next_writable_item_index c;
     m_asio_bufs := m_asio_bufs c; m_sendfile_operation := None |}.

Section Gather.
Context (asio_max_iov_len : Z).

(*@ impl/write_group_output_ctx.hpp 81-89 max_iov_len *)
Definition max_iov_len : Z := Z.min asio_max_iov_len 64.

(** The loop over trivial items: [fuel] is at least the number of items left. *)
(*@ impl/write_group_output_ctx.hpp 341-350 prepare_trivial_buffers_wo *)
Fixpoint gather_loop (fuel : nat) (items : list writable_item_t) (index : nat)
    (bufs : list bytes) (total_size : Z) : nat * list bytes * Z :=
  match fuel with
  | O => (index, bufs, total_size)
  | S fuel' =>
      match items !! index with
      | Some (TrivialItem buf as item) =>
          if Z.of_nat (length bufs) <? max_iov_len then
            gather_loop fuel' items (index + 1) (bufs ++ [buf])
              (wrap 64 (total_size + item_size item))
          else (index, bufs, total_size)
      | _ => (index, bufs, total_size)
      end
  end.

(*@ impl/write_group_output_ctx.hpp 332-354 prepare_trivial_buffers_wo *)
Definition prepare_trivial_buffers_wo (c : t) (wg : write_group_t) : solid_write_operation * t :=
  let '(index, bufs, total_size) :=
    gather_loop (length (m_items wg)) (m_items wg) (m_next_writable_item_index c) [] 0 in
  (trivial_write_operation bufs total_size,
   {| m_current_wg := m_current_wg c; m_next_writable_item_index := index;
      m_asio_bufs := bufs; m_sendfile_operation := m_sendfile_operation c |}).

(*@ impl/write_group_output_ctx.hpp 356-364 prepare_sendfile_wo *)
Definition prepare_sendfile_wo (c : t) (sf : sendfile_t) : solid_write_operation * t :=
  (file_write_operation sf,
   {| m_current_wg := m_current_wg c;
      m_next_writable_item_index := m_next_writable_item_index c + 1;
      m_asio_bufs := m_asio_bufs c; m_sendfile_operation := m_sendfile_operation c |}).

(*@ impl/write_group_output_ctx.hpp 251-279 extract_next_write_operation *)
Definition extract_next_write_operation (c : t) : result output_error (solid_write_operation * t) :=
  match m_current_wg c with
  | None => Err no_current_group
  | Some wg =>
      match m_items wg !! m_next_writable_item_index c with
      | None => Ok (none_write_operation, c)
      | Some (TrivialItem _) => Ok (prepare_trivial_buffers_wo c wg)
      | Some (FileItem sf) => Ok (prepare_sendfile_wo c sf)
      end
  end.

(** The documented loop of the class: operations until there is none. *)
(*@ impl/write_group_output_ctx.hpp 36-73 write_group_output_ctx_t *)
Fixpoint write_all (fuel : nat) (c : t) : result output_error (list solid_write_operation * t) :=
  match fuel with
  | O => Ok ([], c)
  | S fuel' =>
      match extract_next_write_operation c with
      | Err e => Err e
      | Ok (none_write_operation, c) => Ok ([], c)
      | Ok (op, c) =>
          match write_all fuel' c with
          | Err e => Err e
          | Ok (ops, c) => Ok (op :: ops, c)
          end
      end
  end.

End Gather.

End OutputCtx.

(** ** What the operations of a group amount to *)

Import OutputCtx.

Definition items_of_op (op : solid_write_operation) : list writable_item_t :=
  match op with
  | none_write_operation => []
  | trivial_write_operation bufs _ => TrivialItem <$> bufs
  | file_write_operation sf => [FileItem sf]
  end.

Definition total_of (bufs : list bytes) : Z :=
  foldr (fun b n => Z.of_nat (length b) + n) 0 bufs.

(** A gather takes at least one buffer and no more than the limit, and knows
    its size. *)
Definition wf_op (limit : Z) (op : solid_write_operation) : Prop :=
  match op with
  | none_write_operation => False
  | trivial_write_operation bufs total_size =>
      1 <= Z.of_nat (length bufs) <= limit /\ total_size = wrap 64 (total_of bufs)
  | file_write_operation _ => True
  end.

(** Gathers are as large as they can be: one followed by another is full. *)
Fixpoint gathers_full (limit : Z) (ops : list solid_write_operation) : Prop :=
  match ops with
  | trivial_write_operation bufs _ :: ((trivial_write_operation _ _ :: _) as rest) =>
      Z.of_nat (length bufs) = limit /\ gathers_full limit rest
  | _ :: rest => gathers_full limit rest
  | [] => True
  end.

Lemma total_of_snoc bufs b : total_of (bufs ++ [b]) = total_of bufs + Z.of_nat (length b).
Proof. unfold total_of. induction bufs; cbn; lia. Qed.

Lemma wrap_add_l w a b : 0 <= w -> wrap w (wrap w a + b) = wrap w (a + b).
Proof. intros. unfold wrap. by rewrite Zplus_mod_idemp_l. Qed.

Section Gathering.
Context (asio_max_iov_len : Z) (Hmax : 1 <= asio_max_iov_len).
Abbreviation limit := (max_iov_len asio_max_iov_len).

Lemma limit_pos : 1 <= limit.
Proof. unfold max_iov_len. lia. Qed.

Lemma gather_loop_spec fuel items : forall index bufs,
  (length items <= index + fuel)%nat -> Z.of_nat (length bufs) <= limit ->
  exists index' datas,
    gather_loop asio_max_iov_len fuel items index bufs (wrap 64 (total_of bufs))
      = (index', bufs ++ datas, wrap 64 (total_of (bufs ++ datas))) /\
    index' = (index + length datas)%nat /\
    drop index items = (TrivialItem <$> datas) ++ drop index' items /\
    Z.of_nat (length (bufs ++ datas)) <= limit /\
    (Z.of_nat (length (bufs ++ datas)) = limit \/
     forall data, items !! index' <> Some (TrivialItem data)).
Proof.
  induction fuel as [|fuel IH]; intros index bufs Hf Hb.
  - exists index, []. rewrite app_nil_r. cbn. rewrite Nat.add_0_r. repeat split; try done.
    right. intros data Hd. apply lookup_lt_Some in Hd. lia.
  - cbn [gather_loop]. destruct (items !! index) as [[data|sf]|] eqn:E.
    + destruct (Z.ltb_spec (Z.of_nat (length bufs)) limit).
      * rewrite wrap_add_l by lia. cbn [item_size]. rewrite <- total_of_snoc.
        destruct (IH (index + 1)%nat (bufs ++ [data])) as (index' & datas & -> & Hi & Hd & Hl & Hs).
        { lia. }
        { rewrite length_app. cbn. lia. }
        exists index', (data :: datas). rewrite <- app_assoc in *.
        split; [done|]. split; [cbn; lia|]. split; [|done].
        rewrite (drop_S _ _ _ E), <- Nat.add_1_r, Hd. done.
      * exists index, []. rewrite app_nil_r. cbn. rewrite Nat.add_0_r. repeat split; try done.
        left. lia.
    + exists index, []. rewrite app_nil_r. cbn. rewrite Nat.add_0_r. repeat split; try done.
      right. congruence.
    + exists index, []. rewrite app_nil_r. cbn. rewrite Nat.add_0_r. repeat split; try done.
      right. congruence.
Qed.

(** One operation advances over exactly the items it carries. *)
Lemma extract_spec c wg :
  m_current_wg c = Some wg ->
  exists op c', extract_next_write_operation asio_max_iov_len c = Ok (op, c') /\
    m_current_wg c' = Some wg /\
    drop (m_next_writable_item_index c) (m_items wg)
      = items_of_op op ++ drop (m_next_writable_item_index c') (m_items wg) /\
    match op with
    | none_write_operation => c' = c /\ (length (m_items wg) <= m_next_writable_item_index c)%nat
    | trivial_write_operation bufs _ =>
        wf_op limit op /\ (m_next_writable_item_index c < m_next_writable_item_index c')%nat /\
        (Z.of_nat (length bufs) = limit \/
         forall data, m_items wg !! m_next_writable_item_index c' <> Some (TrivialItem data))
    | file_write_operation _ =>
        (m_next_writable_item_index c < m_next_writable_item_index c')%nat
    end.
Proof.
  intros Hwg. unfold extract_next_write_operation. rewrite Hwg.
  destruct (m_items wg !! m_next_writable_item_index c) as [[data|sf]|] eqn:E.
  - unfold prepare_trivial_buffers_wo.
    destruct (gather_loop_spec (length (m_items wg)) (m_items wg)
      (m_next_writable_item_index c) []) as (index' & datas & Heq & Hi & Hd & Hl & Hs);
      [lia | pose proof limit_pos; cbn; lia|].
    change (wrap 64 (total_of [])) with 0 in Heq. rewrite Heq. cbn [app] in *.
    assert (Hpos : (0 < length datas)%nat).
    { destruct datas; [|cbn; lia]. cbn in Hi, Hl, Hs. rewrite Nat.add_0_r in Hi. subst index'.
      pose proof limit_pos. destruct Hs as [Hs|Hs]; [lia | by specialize (Hs data)]. }
    eexists _, _. split; [done|]. cbn. split; [done|]. split; [done|].
    split; [|split; [lia | done]]. split; [lia | done].
  - eexists _, _. split; [done|]. cbn. split; [done|]. split; [|lia].
    rewrite Nat.add_1_r. by rewrite (drop_S _ _ _ E).
  - eexists _, _. split; [done|]. split; [done|]. split; [done|].
    split; [done|]. by apply lookup_ge_None_1 in E.
Qed.

Lemma gathers_full_cons op ops :
  match op with
  | trivial_write_operation bufs _ =>
      Z.of_nat (length bufs) = limit \/
      match ops with trivial_write_operation _ _ :: _ => False | _ => True end
  | _ => True
  end ->
  gathers_full limit ops -> gathers_full limit (op :: ops).
Proof. destruct op as [|bufs n|]; try done. destruct ops as [|[] ?]; try done. by intros [?|[]] ?. Qed.

Lemma write_all_spec wg fuel : forall c,
  m_current_wg c = Some wg ->
  (length (m_items wg) < m_next_writable_item_index c + fuel)%nat ->
  exists ops c', write_all asio_max_iov_len fuel c = Ok (ops, c') /\
    m_current_wg c' = Some wg /\
    (ops ≫= items_of_op) = drop (m_next_writable_item_index c) (m_items wg) /\
    Forall (wf_op limit) ops /\ gathers_full limit ops.
Proof.
  induction fuel as [|fuel IH]; intros c Hwg Hf.
  { exists [], c. repeat split; try done. cbn. by rewrite drop_ge by lia. }
  cbn [write_all].
  destruct (extract_spec c wg Hwg) as (op & c1 & -> & Hwg1 & Hd & Hop).
  destruct op as [|bufs n|sf].
  - destruct Hop as [-> Hge]. exists [], c. repeat split; try done.
    cbn. by rewrite drop_ge by lia.
  - destruct Hop as (Hwf & Hlt & Hs). destruct (IH c1 Hwg1) as (ops & c' & -> & Hc' & Hi & Hf' & Hg); [lia|].
    eexists _, _. split; [done|]. split; [done|]. rewrite Hd, bind_cons, Hi. split; [done|].
    split; [by constructor|]. apply gathers_full_cons; [|done].
    destruct Hs as [?|Hs]; [by left|right]. destruct ops as [|[|bufs' n'|] ops]; try done.
    apply Forall_inv in Hf'. destruct Hf' as [Hl _]. rewrite bind_cons in Hi. cbn in Hi.
    destruct bufs' as [|b bufs']; [cbn in Hl; lia|]. cbn in Hi.
    apply (Hs b). by rewrite <- (Nat.add_0_r (m_next_writable_item_index c1)), <- lookup_drop, <- Hi.
  - destruct (IH c1 Hwg1) as (ops & c' & -> & Hc' & Hi & Hf' & Hg); [lia|].
    eexists _, _. split; [done|]. split; [done|]. rewrite Hd, bind_cons, Hi. split; [done|].
    split; [by constructor|]. by apply gathers_full_cons.
Qed.

End Gathering.

Lemma finish_write_group_eq cb_throws c wg :
  m_current_wg c = Some wg ->
  finish_write_group cb_throws c =
    (if existsb (fun n => cb_throws n no_error) (pending wg)
     then Err after_write_callback_failed else Ok tt,
     (reset_write_group cb_throws c).1, (fun n => (n, no_error)) <$> pending wg).
Proof.
  intros Hwg. unfold finish_write_group, invoke_after_write_notificator_if_necessary.
  rewrite Hwg. unfold invoke_after_write_notificator_if_exists, pending.
  destruct wg as [items sls [n|]]; cbn; [|done].
  by destruct (cb_throws n no_error).
Qed.

(** C27 (functional). The documented loop over a group just started ends,
    having emitted exactly the group's items in order: files one by one,
    neighbouring buffers in gathers of at most [max_iov_len] buffers, each
    with its total size, where only the last gather of a run is not full.
    Finishing then calls the notificator once, without an error, and leaves
    the context ready for the next group. *)
Theorem output_ctx_writes_group cb_throws asio_max_iov_len c wg
  (Hmax : 1 <= asio_max_iov_len)
  (Hc : m_current_wg c = None) (Hi : m_next_writable_item_index c = 0%nat) :
  exists ops c',
    write_all asio_max_iov_len (length (m_items wg) + 1)
      (start_next_write_group cb_throws c (Some wg)).1 = Ok (ops, c') /\
    (ops ≫= items_of_op) = m_items wg /\
    Forall (wf_op (max_iov_len asio_max_iov_len)) ops /\
    gathers_full (max_iov_len asio_max_iov_len) ops /\
    (finish_write_group cb_throws c').2 = (fun n => (n, no_error)) <$> pending wg /\
    transmitting (finish_write_group cb_throws c').1.2 = false /\
    m_next_writable_item_index (finish_write_group cb_throws c').1.2 = 0%nat.
Proof.
  destruct (write_all_spec asio_max_iov_len Hmax wg (length (m_items wg) + 1)
    (start_next_write_group cb_throws c (Some wg)).1) as (ops & c' & Hw & Hc' & Hitems & Hf & Hg);
    [done | cbn; lia|].
  cbn in Hitems. rewrite Hi, drop_0 in Hitems.
  exists ops, c'. split; [done|]. split; [done|]. split; [done|]. split; [done|].
  rewrite (finish_write_group_eq _ _ wg) by done. done.
Qed.

(** [fail_write_group] calls the notificator once with the error
    and drops the group, but, unlike [finish_write_group], keeps the index of
    the next item: a group started after a failure is written from that index
    on, its first items never leave. *)
Theorem fail_write_group_keeps_index cb_throws asio_max_iov_len c wg ec wg2
  (Hmax : 1 <= asio_max_iov_len) (Hc : m_current_wg c = Some wg)
  (Hok : forall n, cb_throws n ec = false) :
  exists c', fail_write_group cb_throws c ec = (Ok tt, c', (fun n => (n, ec)) <$> pending wg) /\
    transmitting c' = false /\
    exists ops c'',
      write_all asio_max_iov_len (length (m_items wg2) + 1)
        (start_next_write_group cb_throws c' (Some wg2)).1 = Ok (ops, c'') /\
      (ops ≫= items_of_op) = drop (m_next_writable_item_index c) (m_items wg2).
Proof.
  unfold fail_write_group, invoke_after_write_notificator_if_necessary. rewrite Hc.
  destruct (invoke_after_write_notificator_if_exists cb_throws wg ec) as [[wg' cs] threw] eqn:E.
  assert (Ht : threw = false).
  { revert E. unfold invoke_after_write_notificator_if_exists. case_match; intros [= <- <- <-]; auto. }
  apply invoke_calls in E as (-> & Hp & _ & _). subst threw.
  eexists; split; [cbn; rewrite wg_destroy_clean by done; by rewrite app_nil_r|].
  split; [done|].
  destruct (write_all_spec asio_max_iov_len Hmax wg2 (length (m_items wg2) + 1)
    (start_next_write_group cb_throws
       {| m_current_wg := None; m_next_writable_item_index := m_next_writable_item_index c;
          m_asio_bufs := m_asio_bufs c; m_sendfile_operation := None |} (Some wg2)).1)
    as (ops & c'' & Hw & _ & Hitems & _ & _); [done | cbn; lia|].
  by exists ops, c''.
Qed.

(** ** Witnesses *)

Definition example_group : write_group_t :=
  {| m_items := [TrivialItem (str "a"); TrivialItem (str "b"); TrivialItem (str "cc");
                 FileItem example_piece; TrivialItem []];
     m_status_line_size := 1; m_after_write_notificator := Some 3%nat |}.

Definition example_run : result output_error (list solid_write_operation * t) :=
  write_all 2 6 (start_next_write_group (fun _ _ => false) create (Some example_group)).1.

Lemma output_ctx_writes_group_witness :
  (exists c', example_run =
    Ok ([trivial_write_operation [str "a"; str "b"] 2; trivial_write_operation [str "cc"] 2;
         file_write_operation example_piece; trivial_write_operation [[]] 0], c')) /\
  exists ops c', example_run = Ok (ops, c') /\ (ops ≫= items_of_op) = m_items example_group.
Proof.
  split; [eexists; vm_compute; reflexivity|].
  destruct (output_ctx_writes_group (fun _ _ => false) 2 create example_group)
    as (ops & c' & Hr & Hi & _); [lia | done | done |].
  by exists ops, c'.
Defined.

(** Two buffers of a group went out, the write failed, the next group loses
    its first two items. *)
Definition example_failed : t :=
  {| m_current_wg := Some example_group; m_next_writable_item_index := 2;
     m_asio_bufs := []; m_sendfile_operation := None |}.

Lemma fail_write_group_keeps_index_witness :
  exists c' ops c'',
    fail_write_group (fun _ _ => false) example_failed (network_error 32)
      = (Ok tt, c', [(3%nat, network_error 32)]) /\
    write_all 2 6 (start_next_write_group (fun _ _ => false) c' (Some example_group)).1
      = Ok (ops, c'') /\
    (ops ≫= items_of_op) = [TrivialItem (str "cc"); FileItem example_piece; TrivialItem []].
Proof.
  destruct (fail_write_group_keeps_index (fun _ _ => false) 2 example_failed example_group
    (network_error 32) example_group) as (c' & Hf & _ & ops & c'' & Hw & Hi);
    [lia | done | done |].
  by exists c', ops, c''.
Defined.
