(* ===== verification/RespCoord.v ===== *)
(** * The response coordinator

    [restinio/impl/response_coordinator.hpp]: the contexts of the pipelined
    requests of one connection in a ring buffer ([Table]) and the coordinator
    that registers requests, collects the write groups of their responses and
    hands them out for writing ([Coordinator]). Request ids are 32-bit
    unsigned numbers. The second half is the specification, a FIFO queue of
    contexts found by their id ([Spec]), the refinement between the two, and
    what it gives for the order of responses. *)

From Stdlib Require Import Sorted.
From S2P Require Import Prelude Sendfile WriteGroup.

(** ** Flags *)

(*@ common_types.hpp 72-79 response_parts_attr_t *)
Inductive response_parts_attr_t : Type := not_final_parts | final_parts.

(*@ common_types.hpp 92-99 response_connection_attr_t *)
Inductive response_connection_attr_t : Type := connection_keepalive | connection_close.

#[global] Instance response_parts_attr_eq_dec : EqDecision response_parts_attr_t.
Proof. solve_decision. Defined.
#[global] Instance response_connection_attr_eq_dec : EqDecision response_connection_attr_t.
Proof. solve_decision. Defined.

(*@ common_types.hpp 121-134 response_output_flags_t *)
Record response_output_flags_t : Type := mk_flags {
  m_response_parts : response_parts_attr_t;
  m_response_connection : response_connection_attr_t }.

Definition is_final (f : response_output_flags_t) : bool :=
  bool_decide (final_parts = m_response_parts f).

(** ** Contexts *)

(*@ impl/response_coordinator.hpp 138-149 response_context_t *)
Record response_context_t : Type := mk_context {
  m_request_id : Z;
  m_write_groups : list write_group_t;
  m_response_output_flags : response_output_flags_t }.

Definition initial_flags : response_output_flags_t :=
  {| m_response_parts := not_final_parts; m_response_connection := connection_keepalive |}.

Definition initial_context : response_context_t :=
  {| m_request_id := 0; m_write_groups := []; m_response_output_flags := initial_flags |}.

(** The write groups of the previous user of the slot stay. *)
(*@ impl/response_coordinator.hpp 48-58 response_context_t::reinit *)
Definition reinit (ctx : response_context_t) (request_id : Z) : response_context_t :=
  {| m_request_id := request_id; m_write_groups := m_write_groups ctx;
     m_response_output_flags :=
       {| m_response_parts := not_final_parts; m_response_connection := connection_keepalive |} |}.

(*@ impl/response_coordinator.hpp 115-120 response_context_t::response_output_flags *)
Definition set_response_output_flags (ctx : response_context_t) (flags : response_output_flags_t)
    : response_context_t :=
  {| m_request_id := m_request_id ctx; m_write_groups := m_write_groups ctx;
     m_response_output_flags := flags |}.

Definition with_groups (ctx : response_context_t) (wgs : list write_group_t) : response_context_t :=
  {| m_request_id := m_request_id ctx; m_write_groups := wgs;
     m_response_output_flags := m_response_output_flags ctx |}.

Section Contexts.
Context (cb_throws : notificator -> error_code -> bool).

(** Merges into the last group, or appends a group. *)
(*@ impl/response_coordinator.hpp 60-77 response_context_t::enqueue_group *)
Definition enqueue_group (ctx : response_context_t) (wg : write_group_t)
    : response_context_t * calls :=
  match last (m_write_groups ctx) with
  | Some back =>
      if negb (has_after_write_notificator back) && (0 =? m_status_line_size wg) then
        let '(back, cs) := wg_merge cb_throws back wg in
        (with_groups ctx (removelast (m_write_groups ctx) ++ [back]), cs)
      else (with_groups ctx (m_write_groups ctx ++ [wg]), [])
  | None => (with_groups ctx (m_write_groups ctx ++ [wg]), [])
  end.

(*@ impl/response_coordinator.hpp 79-80 response_context_t::empty *)
Definition ctx_empty (ctx : response_context_t) : bool :=
  match m_write_groups ctx with [] => true | _ => false end.

(** [std::vector::erase] of the first element: every later one is moved one
    place down, then the last, moved-from one is destroyed. *)
Fixpoint erase_first (front : write_group_t) (rest : list write_group_t)
    : list write_group_t * calls :=
  match rest with
  | [] => ([], wg_destroy cb_throws front)
  | next :: rest' =>
      let '(front, next, cs) := wg_assign cb_throws front next in
      let '(rest', cs') := erase_first next rest' in
      (front :: rest', cs ++ cs')
  end.

(** Defined for a context that is not empty, what the code asserts. *)
(*@ impl/response_coordinator.hpp 82-110 response_context_t::dequeue_group *)
Definition dequeue_group (ctx : response_context_t)
    : option (write_group_t * response_context_t * calls) :=
  match m_write_groups ctx with
  | [] => None
  | front :: rest =>
      let '(result, front) := wg_move front in
      let '(groups, cs) := erase_first front rest in
      Some (result, with_groups ctx groups, cs)
  end.

(*@ impl/response_coordinator.hpp 129-136 response_context_t::is_complete *)
Definition is_complete (ctx : response_context_t) : bool :=
  ctx_empty ctx &&
  bool_decide (final_parts = m_response_parts (m_response_output_flags ctx)).

End Contexts.

(** ** The table: a ring buffer of contexts *)

(** The exceptions of this file. *)
Inductive coordinator_error : Type :=
| context_table_is_full
| context_table_is_empty
| coordinator_is_closed
| no_context_associated (req_id : Z)
| response_marked_as_complete.

Module Table.

(*@ impl/response_coordinator.hpp 272-275 response_context_table_t *)
Record response_context_table_t : Type := mk {
  m_contexts : list response_context_t;
  m_first_element_index : nat;
  m_elements_exists : nat }.

(*@ impl/response_coordinator.hpp 159-162 response_context_table_t::response_context_table_t *)
Definition table_create (max_elements_count : nat) : response_context_table_t :=
  {| m_contexts := replicate max_elements_count initial_context;
     m_first_element_index := 0; m_elements_exists := 0 |}.

(*@ impl/response_coordinator.hpp 164-169 response_context_table_t::empty *)
Definition table_empty (t : response_context_table_t) : bool := (m_elements_exists t =? 0)%nat.

(*@ impl/response_coordinator.hpp 171-176 response_context_table_t::is_full *)
Definition table_is_full (t : response_context_table_t) : bool := (length (m_contexts t) =? m_elements_exists t)%nat.

Definition get (t : response_context_table_t) (i : nat) : response_context_t :=
  default initial_context (m_contexts t !! i).

Definition set (t : response_context_table_t) (i : nat) (ctx : response_context_t)
    : response_context_table_t :=
  {| m_contexts := <[i := ctx]> (m_contexts t);
     m_first_element_index := m_first_element_index t;
     m_elements_exists := m_elements_exists t |}.

(** [front] and [back] are only used on a table that is not empty. *)
(*@ impl/response_coordinator.hpp 178-183 response_context_table_t::front *)
Definition front (t : response_context_table_t) : response_context_t := get t (m_first_element_index t).

(*@ impl/response_coordinator.hpp 185-192 response_context_table_t::back *)
Definition back (t : response_context_table_t) : response_context_t :=
  get t ((m_first_element_index t + (m_elements_exists t - 1)) mod length (m_contexts t)).

(*@ impl/response_coordinator.hpp 263-270 response_context_table_t::get_real_index *)
Definition get_real_index (t : response_context_table_t) (req_id : Z) : nat :=
  let distance_from_first := wrap 32 (req_id - m_request_id (front t)) in
  ((m_first_element_index t + Z.to_nat distance_from_first) mod length (m_contexts t))%nat.

(** The index of the context found. *)
(*@ impl/response_coordinator.hpp 194-206 response_context_table_t::get_by_req_id *)
Definition get_by_req_id (t : response_context_table_t) (req_id : Z) : option nat :=
  if table_empty t || (req_id <? m_request_id (front t)) || (m_request_id (back t) <? req_id)
  then None
  else Some (get_real_index t req_id).

(*@ impl/response_coordinator.hpp 208-227 response_context_table_t::push_response_context *)
Definition push_response_context (t : response_context_table_t) (req_id : Z)
    : result coordinator_error response_context_table_t :=
  if table_is_full t then Err context_table_is_full
  else
    let i := ((m_first_element_index t + m_elements_exists t) mod length (m_contexts t))%nat in
    let t := set t i (reinit (get t i) req_id) in
    Ok {| m_contexts := m_contexts t; m_first_element_index := m_first_element_index t;
          m_elements_exists := m_elements_exists t + 1 |}.

(*@ impl/response_coordinator.hpp 251-260 response_context_table_t::pop_response_context_nonchecked *)
Definition pop_response_context_nonchecked (t : response_context_table_t)
    : response_context_table_t :=
  let first := (m_first_element_index t + 1)%nat in
  {| m_contexts := m_contexts t;
     m_first_element_index := if (length (m_contexts t) =? first)%nat then 0%nat else first;
     m_elements_exists := m_elements_exists t - 1 |}.

(*@ impl/response_coordinator.hpp 229-239 response_context_table_t::pop_response_context *)
Definition pop_response_context (t : response_context_table_t)
    : result coordinator_error response_context_table_t :=
  if table_empty t then Err context_table_is_empty else Ok (pop_response_context_nonchecked t).

End Table.

(** ** The coordinator *)

Module Coordinator.

(*@ impl/response_coordinator.hpp 446-455 response_coordinator_t *)
Record response_coordinator_t : Type := mk {
  m_request_id_counter : Z;
  m_connection_closed_response_occured : bool;
  m_context_table : Table.response_context_table_t }.

(*@ impl/response_coordinator.hpp 291-295 response_coordinator_t::response_coordinator_t *)
Definition create (max_req_count : nat) : response_coordinator_t :=
  {| m_request_id_counter := 0; m_connection_closed_response_occured := false;
     m_context_table := Table.table_create max_req_count |}.

(*@ impl/response_coordinator.hpp 301-303 response_coordinator_t::closed *)
Definition closed (c : response_coordinator_t) : bool := m_connection_closed_response_occured c.
Definition empty (c : response_coordinator_t) : bool := Table.table_empty (m_context_table c).
Definition is_full (c : response_coordinator_t) : bool := Table.table_is_full (m_context_table c).

(*@ impl/response_coordinator.hpp 306-311 response_coordinator_t::is_able_to_get_more_messages *)
Definition is_able_to_get_more_messages (c : response_coordinator_t) : bool := negb (closed c) && negb (is_full c).

Definition with_table (c : response_coordinator_t) (tb : Table.response_context_table_t) : response_coordinator_t :=
  {| m_request_id_counter := m_request_id_counter c;
     m_connection_closed_response_occured := m_connection_closed_response_occured c;
     m_context_table := tb |}.

(*@ impl/response_coordinator.hpp 313-320 response_coordinator_t::register_new_request *)
Definition register_new_request (c : response_coordinator_t) : result coordinator_error (Z * response_coordinator_t) :=
  match Table.push_response_context (m_context_table c) (m_request_id_counter c) with
  | Err e => Err e
  | Ok tb =>
      Ok (m_request_id_counter c,
          {| m_request_id_counter := wrap 32 (m_request_id_counter c + 1);
             m_connection_closed_response_occured := m_connection_closed_response_occured c;
             m_context_table := tb |})
  end.

Section Handlers.
Context (cb_throws : notificator -> error_code -> bool).

(** The group is a by-value argument: an exception destroys it. *)
(*@ impl/response_coordinator.hpp 322-361 response_coordinator_t::append_response *)
Definition append_response (c : response_coordinator_t) (req_id : Z) (flags : response_output_flags_t)
    (wg : write_group_t) : result coordinator_error response_coordinator_t * calls :=
  if closed c then (Err coordinator_is_closed, wg_destroy cb_throws wg)
  else
    match Table.get_by_req_id (m_context_table c) req_id with
    | None => (Err (no_context_associated req_id), wg_destroy cb_throws wg)
    | Some i =>
        let ctx := Table.get (m_context_table c) i in
        if bool_decide (final_parts = m_response_parts (m_response_output_flags ctx))
        then (Err response_marked_as_complete, wg_destroy cb_throws wg)
        else
          let ctx := set_response_output_flags ctx flags in
          let '(ctx, cs) := enqueue_group cb_throws ctx wg in
          (Ok (with_table c (Table.set (m_context_table c) i ctx)), cs)
    end.

(*@ impl/response_coordinator.hpp 370-406 response_coordinator_t::pop_ready_buffers *)
Definition pop_ready_buffers (c : response_coordinator_t)
    : result coordinator_error (option (write_group_t * Z) * response_coordinator_t) * calls :=
  if closed c then (Err coordinator_is_closed, [])
  else if Table.table_empty (m_context_table c) then (Ok (None, c), [])
  else
    let tb := m_context_table c in
    match dequeue_group cb_throws (Table.front tb) with
    | None => (Ok (None, c), [])
    | Some (wg, ctx, cs) =>
        let tb := Table.set tb (Table.m_first_element_index tb) ctx in
        let r := Some (wg, m_request_id ctx) in
        if is_complete ctx then
          let flags := m_response_output_flags ctx in
          let closed :=
            bool_decide (final_parts = m_response_parts flags) &&
            bool_decide (connection_close = m_response_connection flags) in
          match Table.pop_response_context tb with
          | Err e => (Err e, cs)
          | Ok tb =>
              (Ok (r, {| m_request_id_counter := m_request_id_counter c;
                         m_connection_closed_response_occured := closed;
                         m_context_table := tb |}), cs)
          end
        else (Ok (r, with_table c tb), cs)
    end.

(** The inner loop of [reset]: the groups of one context. *)
(*@ impl/response_coordinator.hpp 434-442 response_coordinator_t::reset *)
Fixpoint drain_groups (fuel : nat) (ctx : response_context_t) : response_context_t * calls :=
  match fuel with
  | O => (ctx, [])
  | S fuel' =>
      match dequeue_group cb_throws ctx with
      | None => (ctx, [])
      | Some (wg, ctx, cs) =>
          let '(wg, cs', _) :=
            invoke_after_write_notificator_if_exists cb_throws wg
              (restinio_error write_was_not_executed) in
          let '(ctx, cs'') := drain_groups fuel' ctx in
          (ctx, cs ++ cs' ++ wg_destroy cb_throws wg ++ cs'')
      end
  end.

(*@ impl/response_coordinator.hpp 427-443 response_coordinator_t::reset *)
Fixpoint reset_loop (fuel : nat) (tb : Table.response_context_table_t) : Table.response_context_table_t * calls :=
  match fuel with
  | O => (tb, [])
  | S fuel' =>
      if Table.table_empty tb then (tb, [])
      else
        let current_ctx := Table.front tb in
        let '(ctx, cs) := drain_groups (length (m_write_groups current_ctx)) current_ctx in
        let tb := Table.set tb (Table.m_first_element_index tb) ctx in
        let '(tb, cs') := reset_loop fuel' (Table.pop_response_context_nonchecked tb) in
        (tb, cs ++ cs')
  end.

(** The id counter and the closed flag stay. *)
(*@ impl/response_coordinator.hpp 415-444 response_coordinator_t::reset *)
Definition reset (c : response_coordinator_t) : response_coordinator_t * calls :=
  let tb := m_context_table c in
  let '(tb, cs) := reset_loop (Table.m_elements_exists tb) tb in
  (with_table c tb, cs).

End Handlers.

End Coordinator.

(** ** The specification: a FIFO queue of contexts *)

Module Spec.

(** [base] is the id of the oldest request that is not answered. *)
Record spec_t : Type := mk {
  capacity : nat;
  counter : Z;
  is_closed : bool;
  queue : list response_context_t }.

Definition spec_create (n : nat) : spec_t :=
  {| capacity := n; counter := 0; is_closed := false; queue := [] |}.

Definition fresh (id : Z) : response_context_t :=
  {| m_request_id := id; m_write_groups := []; m_response_output_flags := initial_flags |}.

Definition with_queue (s : spec_t) (q : list response_context_t) : spec_t :=
  {| capacity := capacity s; counter := counter s; is_closed := is_closed s; queue := q |}.

Definition spec_register_new_request (s : spec_t) : result coordinator_error (Z * spec_t) :=
  if (length (queue s) =? capacity s)%nat then Err context_table_is_full
  else Ok (counter s,
           {| capacity := capacity s; counter := counter s + 1; is_closed := is_closed s;
              queue := queue s ++ [fresh (counter s)] |}).

(** Appends to the last group when it can be merged, to the list otherwise. *)
Definition add_group (wgs : list write_group_t) (wg : write_group_t) : list write_group_t :=
  match last wgs with
  | Some back =>
      if bool_decide (m_after_write_notificator back = None) && (m_status_line_size wg =? 0) then
        removelast wgs ++
          [{| m_items := m_items back ++ m_items wg;
              m_status_line_size := m_status_line_size back;
              m_after_write_notificator := m_after_write_notificator wg |}]
      else wgs ++ [wg]
  | None => [wg]
  end.

Definition add_to (flags : response_output_flags_t) (wg : write_group_t)
    (ctx : response_context_t) : response_context_t :=
  {| m_request_id := m_request_id ctx; m_write_groups := add_group (m_write_groups ctx) wg;
     m_response_output_flags := flags |}.

(** A group that is refused is destroyed. *)
Definition destroyed (wg : write_group_t) : calls :=
  (fun n => (n, restinio_error write_group_destroyed_passively)) <$> pending wg.

Definition spec_append_response (s : spec_t) (req_id : Z) (flags : response_output_flags_t)
    (wg : write_group_t) : result coordinator_error spec_t * calls :=
  if is_closed s then (Err coordinator_is_closed, destroyed wg)
  else
    match list_find (fun ctx => m_request_id ctx = req_id) (queue s) with
    | None => (Err (no_context_associated req_id), destroyed wg)
    | Some (i, ctx) =>
        if is_final (m_response_output_flags ctx)
        then (Err response_marked_as_complete, destroyed wg)
        else (Ok (with_queue s (<[i := add_to flags wg ctx]> (queue s))), [])
    end.

Definition spec_pop_ready_buffers (s : spec_t)
    : result coordinator_error (option (write_group_t * Z) * spec_t) :=
  if is_closed s then Err coordinator_is_closed
  else
    match queue s with
    | ctx :: q =>
        match m_write_groups ctx with
        | wg :: wgs =>
            let flags := m_response_output_flags ctx in
            Ok (Some (wg, m_request_id ctx),
                match wgs with
                | [] =>
                    if is_final flags then
                      {| capacity := capacity s; counter := counter s;
                         is_closed := bool_decide (connection_close = m_response_connection flags);
                         queue := q |}
                    else with_queue s (with_groups ctx [] :: q)
                | _ => with_queue s (with_groups ctx wgs :: q)
                end)
        | [] => Ok (None, s)
        end
    | [] => Ok (None, s)
    end.

(** The notificators of the queue, in order, with [write_was_not_executed]. *)
Definition spec_reset (s : spec_t) : spec_t * calls :=
  (with_queue s [],
   (fun n => (n, restinio_error write_was_not_executed)) <$>
     (queue s ≫= fun ctx => pending_all (m_write_groups ctx))).

End Spec.

(** ** Ring arithmetic *)

Lemma ring_index f i n :
  (f < n)%nat -> (i < n)%nat ->
  ((f + i) mod n)%nat = if (f + i <? n)%nat then (f + i)%nat else (f + i - n)%nat.
Proof.
  intros Hf Hi. destruct (Nat.ltb_spec (f + i) n).
  - by apply Nat.mod_small.
  - symmetry. apply (Nat.mod_unique _ _ 1); lia.
Qed.

Lemma ring_inj f i j n :
  (f < n)%nat -> (i < n)%nat -> (j < n)%nat ->
  ((f + i) mod n)%nat = ((f + j) mod n)%nat -> i = j.
Proof.
  intros Hf Hi Hj. rewrite !ring_index by done.
  destruct (Nat.ltb_spec (f + i) n), (Nat.ltb_spec (f + j) n); lia.
Qed.

(** The [i]-th slot from the first element on. *)
Definition slot (tb : Table.response_context_table_t) (i : nat) : response_context_t :=
  Table.get tb ((Table.m_first_element_index tb + i) mod length (Table.m_contexts tb)).

Definition in_ring (tb : Table.response_context_table_t) : Prop :=
  (Table.m_first_element_index tb < length (Table.m_contexts tb))%nat.

Lemma slot_set tb i j ctx :
  in_ring tb -> (i < length (Table.m_contexts tb))%nat -> (j < length (Table.m_contexts tb))%nat ->
  slot (Table.set tb ((Table.m_first_element_index tb + i) mod length (Table.m_contexts tb)) ctx) j
  = if decide (i = j) then ctx else slot tb j.
Proof.
  intros Hr Hi Hj. unfold slot, Table.get, Table.set. cbn.
  rewrite length_insert. destruct (decide (i = j)) as [->|Hne].
  - by rewrite list_lookup_insert_eq by (apply Nat.mod_upper_bound; unfold in_ring in Hr; lia).
  - by rewrite list_lookup_insert_ne by (intros E; by apply ring_inj in E).
Qed.

Lemma in_ring_set tb i ctx : in_ring (Table.set tb i ctx) <-> in_ring tb.
Proof. unfold in_ring, Table.set. cbn. by rewrite length_insert. Qed.

Lemma in_ring_pop tb : in_ring tb -> in_ring (Table.pop_response_context_nonchecked tb).
Proof.
  unfold in_ring, Table.pop_response_context_nonchecked. cbn.
  destruct (Nat.eqb_spec (length (Table.m_contexts tb)) (Table.m_first_element_index tb + 1)); lia.
Qed.

(** Popping rotates the slots. *)
Lemma slot_pop tb i :
  in_ring tb -> (i < length (Table.m_contexts tb))%nat ->
  slot (Table.pop_response_context_nonchecked tb) i =
  slot tb (if (i + 1 =? length (Table.m_contexts tb))%nat then 0%nat else (i + 1)%nat).
Proof.
  intros Hr Hi. unfold slot, Table.get, Table.pop_response_context_nonchecked. cbn.
  do 2 f_equal. unfold in_ring in Hr. set (n := length (Table.m_contexts tb)) in *.
  set (f := Table.m_first_element_index tb) in *.
  destruct (Nat.eqb_spec n (f + 1)), (Nat.eqb_spec (i + 1) n);
    rewrite !ring_index by lia;
    repeat match goal with |- context [(?a <? ?b)%nat] => destruct (Nat.ltb_spec a b) end; lia.
Qed.

Lemma front_slot tb : in_ring tb -> Table.front tb = slot tb 0.
Proof. intros Hr. unfold Table.front, slot. by rewrite Nat.add_0_r, Nat.mod_small. Qed.

Lemma back_slot tb : Table.back tb = slot tb (Table.m_elements_exists tb - 1).
Proof. done. Qed.

Lemma set_front_slot tb ctx :
  in_ring tb ->
  Table.set tb (Table.m_first_element_index tb) ctx =
  Table.set tb ((Table.m_first_element_index tb + 0) mod length (Table.m_contexts tb)) ctx.
Proof. intros Hr. by rewrite Nat.add_0_r, Nat.mod_small. Qed.

(** ** The simulation *)

(** A table stands for the queue [q] whose ids end just below [counter]; the
    slots that are not in use hold no write groups, which is what [reinit]
    needs. A table of capacity 0 has no slots at all. *)
Record represents (tb : Table.response_context_table_t) (cap : nat) (counter : Z) (q : list response_context_t) : Prop := {
  rep_capacity : length (Table.m_contexts tb) = cap;
  rep_ring : (0 < cap)%nat -> in_ring tb;
  rep_exists : Table.m_elements_exists tb = length q;
  rep_fits : (length q <= cap)%nat;
  rep_used : forall i, (i < length q)%nat -> q !! i = Some (slot tb i);
  rep_unused : forall i, (length q <= i < cap)%nat -> m_write_groups (slot tb i) = [];
  rep_ids : forall i ctx, q !! i = Some ctx ->
    m_request_id ctx = counter - Z.of_nat (length q) + Z.of_nat i;
  rep_counter : Z.of_nat (length q) <= counter <= 2 ^ 32 }.

Record simulates (c : Coordinator.response_coordinator_t) (s : Spec.spec_t) : Prop := {
  sim_counter : Coordinator.m_request_id_counter c = wrap 32 (Spec.counter s);
  sim_closed : Coordinator.closed c = Spec.is_closed s;
  sim_table : represents (Coordinator.m_context_table c) (Spec.capacity s)
                (Spec.counter s) (Spec.queue s) }.

Lemma represents_empty tb cap counter q :
  represents tb cap counter q -> Table.table_empty tb = match q with [] => true | _ => false end.
Proof. intros []. unfold Table.table_empty. rewrite rep_exists0. by destruct q. Qed.

Lemma represents_is_full tb cap counter q :
  represents tb cap counter q -> Table.table_is_full tb = (length q =? cap)%nat.
Proof.
  intros []. unfold Table.table_is_full. rewrite rep_exists0, rep_capacity0. apply Nat.eqb_sym.
Qed.

Lemma represents_nonempty tb cap counter ctx q :
  represents tb cap counter (ctx :: q) -> (0 < cap)%nat /\ in_ring tb /\ Table.front tb = ctx.
Proof.
  intros []. assert (0 < cap)%nat by (cbn in *; lia). split; [done|].
  assert (Hr : in_ring tb) by auto. split; [done|]. rewrite front_slot by done.
  specialize (rep_used0 0%nat ltac:(cbn; lia)). by inversion rep_used0.
Qed.

Lemma simulates_create n : simulates (Coordinator.create n) (Spec.spec_create n).
Proof.
  split; [done | done|]. split; cbn; try lia; try done.
  - apply length_replicate.
  - unfold in_ring. cbn. by rewrite length_replicate.
  - intros i Hi. unfold slot, Table.get. cbn. rewrite length_replicate.
    rewrite lookup_replicate_2; [done|]. apply Nat.mod_upper_bound. lia.
Qed.

Lemma represents_set tb cap counter q i ctx0 ctx :
  represents tb cap counter q -> q !! i = Some ctx0 -> m_request_id ctx = m_request_id ctx0 ->
  represents
    (Table.set tb ((Table.m_first_element_index tb + i) mod length (Table.m_contexts tb)) ctx)
    cap counter (<[i := ctx]> q).
Proof.
  intros [] Hi Hid. pose proof (lookup_lt_Some _ _ _ Hi) as Hlt.
  assert (Hr : in_ring tb) by (apply rep_ring0; lia).
  split; rewrite ?length_insert; try done.
  - unfold Table.set. cbn. by rewrite length_insert.
  - intros _. by apply in_ring_set.
  - intros j Hj. rewrite slot_set by (rewrite ?rep_capacity0; lia || done).
    destruct (decide (i = j)) as [->|Hne].
    + by rewrite list_lookup_insert_eq by lia.
    + rewrite list_lookup_insert_ne by done. by apply rep_used0.
  - intros j Hj. rewrite slot_set by (rewrite ?rep_capacity0; lia || done).
    rewrite decide_False by lia. by apply rep_unused0.
  - intros j ctx1 Hj. destruct (decide (i = j)) as [->|Hne].
    + rewrite list_lookup_insert_eq in Hj by lia. injection Hj as <-. rewrite Hid. by apply rep_ids0.
    + rewrite list_lookup_insert_ne in Hj by done. by apply rep_ids0.
Qed.

Lemma represents_push tb cap counter q :
  represents tb cap counter q -> (length q < cap)%nat -> counter < 2 ^ 32 ->
  exists tb', Table.push_response_context tb counter = Ok tb' /\
    represents tb' cap (counter + 1) (q ++ [Spec.fresh counter]).
Proof.
  intros Hrep Hlt Hc. pose proof (represents_is_full _ _ _ _ Hrep) as Hfull. destruct Hrep.
  assert (Hr : in_ring tb) by (apply rep_ring0; lia).
  unfold Table.push_response_context. rewrite Hfull, (proj2 (Nat.eqb_neq _ _)) by lia.
  eexists; split; [done|]. rewrite rep_exists0.
  fold (slot tb (length q)).
  set (k := ((Table.m_first_element_index tb + length q) mod length (Table.m_contexts tb))%nat).
  assert (Hfresh : reinit (slot tb (length q)) counter = Spec.fresh counter).
  { unfold reinit, Spec.fresh. by rewrite rep_unused0 by lia. }
  assert (Hslot : forall i, (i < cap)%nat ->
    slot (Table.set tb k (reinit (Table.get tb k) counter)) i
    = if decide (length q = i) then Spec.fresh counter else slot tb i).
  { intros i Hi. unfold k. rewrite slot_set by (rewrite ?rep_capacity0; lia || done).
    destruct (decide (length q = i)) as [<-|]; [exact Hfresh | done]. }
  split; cbn; rewrite ?length_app, ?length_insert; cbn; try lia.
  - intros _. by apply in_ring_set.
  - intros i Hi.
    match goal with |- _ = Some ?x =>
      change x with (slot (Table.set tb k (reinit (Table.get tb k) counter)) i) end.
    rewrite Hslot by lia.
    destruct (decide (length q = i)) as [<-|].
    + by rewrite list_lookup_middle.
    + rewrite lookup_app_l by lia. apply rep_used0. lia.
  - intros i Hi.
    match goal with |- m_write_groups ?x = _ =>
      change x with (slot (Table.set tb k (reinit (Table.get tb k) counter)) i) end.
    rewrite Hslot by lia. rewrite decide_False by lia. apply rep_unused0. lia.
  - intros i ctx Hi. destruct (decide (i = length q)) as [->|Hne].
    + rewrite list_lookup_middle in Hi by done. injection Hi as <-. cbn. lia.
    + rewrite lookup_app_l in Hi
        by (apply lookup_lt_Some in Hi; rewrite length_app in Hi; cbn in Hi; lia).
      apply rep_ids0 in Hi. lia.
Qed.

Lemma represents_pop tb cap counter ctx q :
  represents tb cap counter (ctx :: q) -> m_write_groups ctx = [] ->
  represents (Table.pop_response_context_nonchecked tb) cap counter q.
Proof.
  intros Hrep He. destruct (represents_nonempty _ _ _ _ _ Hrep) as (Hcap & Hr & Hfront).
  rewrite front_slot in Hfront by done. destruct Hrep. cbn in *.
  assert (Hpop : forall i, (i < cap)%nat -> slot (Table.pop_response_context_nonchecked tb) i =
    slot tb (if (i + 1 =? cap)%nat then 0%nat else (i + 1)%nat)).
  { intros i Hi. rewrite slot_pop by (rewrite ?rep_capacity0; done). by rewrite rep_capacity0. }
  split; try done; try lia.
  - intros _. by apply in_ring_pop.
  - cbn. lia.
  - intros i Hi. rewrite Hpop by lia. rewrite (proj2 (Nat.eqb_neq _ _)) by lia.
    rewrite Nat.add_1_r, <- rep_used0 by lia. done.
  - intros i Hi. rewrite Hpop by lia. destruct (Nat.eqb_spec (i + 1) cap).
    + by rewrite Hfront.
    + apply rep_unused0. lia.
  - intros i c Hi. specialize (rep_ids0 (S i) c Hi). lia.
Qed.

(** Ids being consecutive, the index computed from an id is the position of
    the context with that id. *)
Lemma list_find_id q counter req_id :
  (forall i ctx, q !! i = Some ctx ->
     m_request_id ctx = counter - Z.of_nat (length q) + Z.of_nat i) ->
  list_find (fun ctx => m_request_id ctx = req_id) q =
    if bool_decide (counter - Z.of_nat (length q) <= req_id < counter) then
      let i := Z.to_nat (req_id - (counter - Z.of_nat (length q))) in (fun ctx => (i, ctx)) <$> q !! i
    else None.
Proof.
  intros Hids. case_bool_decide as Hb.
  - cbn zeta. set (i := Z.to_nat _).
    destruct (lookup_lt_is_Some_2 q i) as [ctx Hi]; [lia|]. rewrite Hi. cbn.
    apply list_find_Some. split; [done|]. pose proof (Hids _ _ Hi). split; [lia|].
    intros j y Hj Hlt. pose proof (Hids _ _ Hj). lia.
  - apply list_find_None, Forall_lookup. intros i ctx Hi.
    pose proof (Hids _ _ Hi). pose proof (lookup_lt_Some _ _ _ Hi). lia.
Qed.

Lemma get_by_req_id_find tb cap counter q req_id :
  represents tb cap counter q ->
  match list_find (fun ctx => m_request_id ctx = req_id) q with
  | None => Table.get_by_req_id tb req_id = None
  | Some (i, ctx) =>
      Table.get_by_req_id tb req_id =
        Some ((Table.m_first_element_index tb + i) mod length (Table.m_contexts tb))%nat /\
      q !! i = Some ctx /\ slot tb i = ctx
  end.
Proof.
  intros Hrep. rewrite (list_find_id q counter) by apply Hrep.
  unfold Table.get_by_req_id. rewrite (represents_empty _ _ _ _ Hrep).
  destruct q as [|c0 q0] eqn:Eq.
  { cbn. case_bool_decide; [cbn; by destruct (Z.to_nat _) | done]. }
  destruct (represents_nonempty _ _ _ _ _ Hrep) as (Hcap & Hr & Hfront). rewrite <- Eq in *.
  assert (Hf : m_request_id (Table.front tb) = counter - Z.of_nat (length q)).
  { rewrite Hfront. rewrite (rep_ids _ _ _ _ Hrep 0 c0); [lia | by rewrite Eq]. }
  assert (Hb : m_request_id (Table.back tb) = counter - 1).
  { rewrite back_slot, (rep_exists _ _ _ _ Hrep).
    assert (0 < length q)%nat by (rewrite Eq; cbn; lia).
    rewrite (rep_ids _ _ _ _ Hrep (length q - 1)); [lia|].
    apply (rep_used _ _ _ _ Hrep). lia. }
  rewrite Hf, Hb. pose proof (rep_counter _ _ _ _ Hrep). case_bool_decide as Hd.
  - cbn zeta. destruct (lookup_lt_is_Some_2 q (Z.to_nat (req_id - (counter - Z.of_nat (length q)))))
      as [ctx Hi]; [lia|]. rewrite Hi. cbn.
    rewrite (proj2 (Z.ltb_ge _ _)), (proj2 (Z.ltb_ge _ _)) by lia. cbn [orb].
    pose proof (lookup_lt_Some _ _ _ Hi).
    split; [|split; [done|]].
    + unfold Table.get_real_index. rewrite Hf, wrap_small by lia. done.
    + pose proof (rep_used _ _ _ _ Hrep _ H0) as Hu. rewrite Hi in Hu. by inversion Hu.
  - assert (Hor : (req_id <? counter - Z.of_nat (length q)) || (counter - 1 <? req_id) = true).
    { rewrite orb_true_iff, !Z.ltb_lt. lia. }
    cbn [orb]. by rewrite Hor.
Qed.

Section Simulation.
Context (cb_throws : notificator -> error_code -> bool).

Lemma enqueue_group_eq ctx wg :
  enqueue_group cb_throws ctx wg =
    (with_groups ctx (Spec.add_group (m_write_groups ctx) wg), []).
Proof.
  unfold enqueue_group, Spec.add_group. destruct (last (m_write_groups ctx)) as [back|] eqn:E.
  - rewrite (Z.eqb_sym 0), wg_merge_eq. unfold has_after_write_notificator.
    destruct (m_after_write_notificator back); cbn; [done|].
    by destruct (m_status_line_size wg =? 0).
  - apply last_None in E. by rewrite E.
Qed.

(** Erasing the first, moved-from group calls nothing and keeps the others. *)
Lemma erase_first_eq rest : erase_first cb_throws moved_from rest = (rest, []).
Proof.
  induction rest as [|next rest IH]; cbn [erase_first]; [done|].
  rewrite wg_assign_eq, IH. by rewrite wg_destroy_clean.
Qed.

Lemma dequeue_group_eq ctx :
  dequeue_group cb_throws ctx =
    match m_write_groups ctx with
    | [] => None
    | wg :: wgs => Some (wg, with_groups ctx wgs, [])
    end.
Proof.
  unfold dequeue_group. destruct (m_write_groups ctx) as [|wg wgs]; [done|].
  rewrite wg_move_eq. by rewrite erase_first_eq.
Qed.

Lemma drain_groups_eq wgs : forall ctx fuel,
  m_write_groups ctx = wgs -> (length wgs <= fuel)%nat ->
  Coordinator.drain_groups cb_throws fuel ctx =
    (with_groups ctx [],
     (fun n => (n, restinio_error write_was_not_executed)) <$> pending_all wgs).
Proof.
  induction wgs as [|wg wgs IH]; intros ctx fuel Hw Hf.
  { destruct ctx as [id g fl]; cbn in Hw; subst. by destruct fuel; cbn; rewrite ?dequeue_group_eq. }
  destruct fuel as [|fuel]; [cbn in Hf; lia|]. cbn [Coordinator.drain_groups].
  rewrite dequeue_group_eq, Hw.
  destruct (invoke_after_write_notificator_if_exists cb_throws wg _) as [[wg' cs'] th] eqn:E.
  apply invoke_calls in E as (-> & Hp & _ & _).
  rewrite IH by (cbn in *; done || lia). rewrite wg_destroy_clean by done. cbn.
  by rewrite fmap_app.
Qed.

Lemma simulates_register c s :
  simulates c s -> Spec.counter s < 2 ^ 32 ->
  match Spec.spec_register_new_request s with
  | Err e => Coordinator.register_new_request c = Err e
  | Ok (id, s') =>
      exists c', Coordinator.register_new_request c = Ok (id, c') /\ simulates c' s'
  end.
Proof.
  intros [Hcnt Hcl Hrep] Hlt. unfold Spec.spec_register_new_request, Coordinator.register_new_request.
  pose proof (rep_counter _ _ _ _ Hrep) as Hrange. rewrite wrap_small in Hcnt by lia. rewrite Hcnt. destruct (Nat.eqb_spec (length (Spec.queue s)) (Spec.capacity s)) as [Hfull|Hne].
  - unfold Table.push_response_context. rewrite (represents_is_full _ _ _ _ Hrep).
    by rewrite Hfull, Nat.eqb_refl.
  - pose proof (rep_fits _ _ _ _ Hrep). pose proof (rep_counter _ _ _ _ Hrep).
    destruct (represents_push _ _ _ _ Hrep) as (tb & -> & Htb); [lia | done |].
    by eexists.
Qed.

Lemma simulates_append c s id flags wg :
  simulates c s ->
  snd (Coordinator.append_response cb_throws c id flags wg) = snd (Spec.spec_append_response s id flags wg) /\
  match fst (Spec.spec_append_response s id flags wg) with
  | Err e => fst (Coordinator.append_response cb_throws c id flags wg) = Err e
  | Ok s' => exists c', fst (Coordinator.append_response cb_throws c id flags wg) = Ok c' /\
      simulates c' s'
  end.
Proof.
  intros [Hcnt Hcl Hrep]. unfold Spec.spec_append_response, Coordinator.append_response.
  rewrite Hcl, !wg_destroy_calls. fold (Spec.destroyed wg).
  destruct (Spec.is_closed s) eqn:Ecl; [done|].
  pose proof (get_by_req_id_find _ _ _ _ id Hrep) as Hg.
  destruct (list_find _ (Spec.queue s)) as [[i ctx]|] eqn:Ef; [|by rewrite Hg].
  destruct Hg as (-> & Hi & Hslot). change (Table.get _ _) with (slot (Coordinator.m_context_table c) i).
  rewrite Hslot. unfold is_final. case_bool_decide as Hfin; [done|].
  rewrite enqueue_group_eq. split; [done|]. eexists; split; [done|].
  split; [done | unfold Coordinator.closed in *; cbn in *; congruence|]. cbn.
  by apply (represents_set _ _ _ _ i ctx).
Qed.

Lemma simulates_pop c s :
  simulates c s ->
  match Spec.spec_pop_ready_buffers s with
  | Err e => Coordinator.pop_ready_buffers cb_throws c = (Err e, [])
  | Ok (r, s') =>
      exists c', Coordinator.pop_ready_buffers cb_throws c = (Ok (r, c'), []) /\ simulates c' s'
  end.
Proof.
  intros Hsim. pose proof Hsim as [Hcnt Hcl Hrep].
  unfold Spec.spec_pop_ready_buffers, Coordinator.pop_ready_buffers.
  rewrite Hcl, (represents_empty _ _ _ _ Hrep).
  destruct (Spec.is_closed s) eqn:Ecl; [done|].
  destruct (Spec.queue s) as [|ctx q] eqn:Eq; [by exists c|].
  destruct (represents_nonempty _ _ _ _ _ Hrep) as (Hcap & Hr & Hfront).
  rewrite Hfront, dequeue_group_eq.
  destruct (m_write_groups ctx) as [|wg wgs] eqn:Ew; [by exists c|].
  assert (Hset : represents
    (Table.set (Coordinator.m_context_table c)
       (Table.m_first_element_index (Coordinator.m_context_table c)) (with_groups ctx wgs))
    (Spec.capacity s) (Spec.counter s) (with_groups ctx wgs :: q)).
  { rewrite set_front_slot by done. by apply (represents_set _ _ _ _ 0 ctx _ Hrep). }
  unfold is_complete, ctx_empty, is_final. cbn [m_write_groups with_groups m_response_output_flags m_request_id].
  destruct wgs as [|wg' wgs]; cbn [andb].
  2: { eexists; split; [done|]. split; [done | unfold Coordinator.closed in *; cbn in *; congruence | done]. }
  case_bool_decide as Hfin.
  2: { eexists; split; [done|]. split; [done | unfold Coordinator.closed in *; cbn in *; congruence | done]. }
  unfold Table.pop_response_context. rewrite (represents_empty _ _ _ _ Hset).
  eexists; split; [done|]. split; [done | done |]. cbn.
  by apply (represents_pop _ _ _ _ _ Hset).
Qed.

Lemma reset_loop_represents q : forall tb cap counter,
  represents tb cap counter q ->
  exists tb', Coordinator.reset_loop cb_throws (length q) tb =
    (tb', (fun n => (n, restinio_error write_was_not_executed)) <$>
          (q ≫= fun ctx => pending_all (m_write_groups ctx))) /\
  represents tb' cap counter [].
Proof.
  induction q as [|ctx q IH]; intros tb cap counter Hrep; [by exists tb|].
  cbn [length Coordinator.reset_loop]. rewrite (represents_empty _ _ _ _ Hrep).
  destruct (represents_nonempty _ _ _ _ _ Hrep) as (Hcap & Hr & Hfront).
  rewrite Hfront, (drain_groups_eq (m_write_groups ctx)) by done.
  assert (Hset : represents
    (Table.set tb (Table.m_first_element_index tb) (with_groups ctx [])) cap counter
    (with_groups ctx [] :: q)).
  { rewrite set_front_slot by done. by apply (represents_set _ _ _ _ 0 ctx _ Hrep). }
  destruct (IH _ _ _ (represents_pop _ _ _ _ _ Hset eq_refl)) as (tb' & -> & Hrep').
  exists tb'. split; [|done]. f_equal. cbn. by rewrite fmap_app.
Qed.

Lemma simulates_reset c s :
  simulates c s ->
  exists c', Coordinator.reset cb_throws c = (c', snd (Spec.spec_reset s)) /\
    simulates c' (fst (Spec.spec_reset s)).
Proof.
  intros [Hcnt Hcl Hrep]. unfold Coordinator.reset, Spec.spec_reset. cbn [fst snd].
  rewrite (rep_exists _ _ _ _ Hrep).
  destruct (reset_loop_represents _ _ _ _ Hrep) as (tb' & -> & Hrep').
  eexists; split; [done|]. by split.
Qed.

End Simulation.

(** ** Runs *)

(** What a connection asks of its coordinator. *)
Class ResponseQueue (T : Type) : Type := {
  q_register : T -> result coordinator_error (Z * T);
  q_append : T -> Z -> response_output_flags_t -> write_group_t -> result coordinator_error T * calls;
  q_pop : T -> result coordinator_error (option (write_group_t * Z) * T) * calls;
  q_reset : T -> T * calls }.

#[global] Instance coordinator_queue (cb_throws : notificator -> error_code -> bool) :
  ResponseQueue Coordinator.response_coordinator_t := {|
    q_register := Coordinator.register_new_request;
    q_append := Coordinator.append_response cb_throws;
    q_pop := Coordinator.pop_ready_buffers cb_throws;
    q_reset := Coordinator.reset cb_throws |}.

#[global] Instance spec_queue : ResponseQueue Spec.spec_t := {|
    q_register := Spec.spec_register_new_request;
    q_append := Spec.spec_append_response;
    q_pop := fun s => (Spec.spec_pop_ready_buffers s, []);
    q_reset := Spec.spec_reset |}.

Inductive coord_op : Type :=
| ORegister
| OAppend (req_id : Z) (flags : response_output_flags_t) (wg : write_group_t)
| OPop
| OReset.

Inductive coord_out : Type :=
| Registered (id : Z)
| Appended (id : Z) (flags : response_output_flags_t) (wg : write_group_t)
| Popped (r : option (write_group_t * Z))
| WasReset
| Refused (e : coordinator_error).

Section Runs.
Context {T : Type} `{Q : ResponseQueue T}.

(** A refused operation leaves the state, as the exceptions do. *)
Definition run_op (s : T) (op : coord_op) : T * coord_out * calls :=
  match op with
  | ORegister =>
      match q_register s with
      | Ok (id, s') => (s', Registered id, [])
      | Err e => (s, Refused e, [])
      end
  | OAppend id flags wg =>
      match q_append s id flags wg with
      | (Ok s', cs) => (s', Appended id flags wg, cs)
      | (Err e, cs) => (s, Refused e, cs)
      end
  | OPop =>
      match q_pop s with
      | (Ok (r, s'), cs) => (s', Popped r, cs)
      | (Err e, cs) => (s, Refused e, cs)
      end
  | OReset => let '(s', cs) := q_reset s in (s', WasReset, cs)
  end.

Fixpoint run (s : T) (ops : list coord_op) : list (coord_out * calls) * T :=
  match ops with
  | [] => ([], s)
  | op :: ops' =>
      let '(s', out, cs) := run_op s op in
      let '(outs, s'') := run s' ops' in ((out, cs) :: outs, s'')
  end.

End Runs.

Definition registers (ops : list coord_op) : Z :=
  Z.of_nat (length (List.filter (fun op => match op with ORegister => true | _ => false end) ops)).

Section Refinement.
Context (cb_throws : notificator -> error_code -> bool).
#[local] Existing Instance coordinator_queue.

Lemma run_op_simulates c s op :
  simulates c s -> Spec.counter s + registers [op] <= 2 ^ 32 ->
  exists c', run_op (Q := coordinator_queue cb_throws) c op =
    (c', (run_op s op).1.2, (run_op s op).2) /\ simulates c' (run_op s op).1.1 /\
  Spec.counter (run_op s op).1.1 <= Spec.counter s + registers [op].
Proof.
  intros Hsim.
  replace (registers [op]) with (match op with ORegister => 1 | _ => 0 end) by (by destruct op).
  intros Hc. destruct op as [|id flags wg| |]; cbn in *.
  - pose proof (simulates_register c s Hsim ltac:(lia)) as Hs.
    destruct (Spec.spec_register_new_request s) as [[id s']|e] eqn:E.
    + destruct Hs as (c' & -> & Hs). exists c'. split; [done|]. split; [done|]. cbn.
      unfold Spec.spec_register_new_request in E. case_match; [done|]. injection E as <- <-. cbn; lia.
    + rewrite Hs. exists c. repeat split; try apply Hsim. cbn. lia.
  - destruct (simulates_append cb_throws c s id flags wg Hsim) as [Hcs Hs].
    destruct (Coordinator.append_response cb_throws c id flags wg) as [r cs].
    destruct (Spec.spec_append_response s id flags wg) as [[s'|e] cs'] eqn:E; cbn in *; subst.
    + destruct Hs as (c' & -> & Hs). exists c'. split; [done|]. split; [done|].
      unfold Spec.spec_append_response in E. repeat case_match; simplify_eq. cbn. lia.
    + exists c. split; [done|]. split; [done | lia].
  - pose proof (simulates_pop cb_throws c s Hsim) as Hs.
    destruct (Spec.spec_pop_ready_buffers s) as [[r s']|e] eqn:E.
    + destruct Hs as (c' & -> & Hs). exists c'. split; [done|]. split; [done|]. cbn.
      unfold Spec.spec_pop_ready_buffers in E. repeat case_match; simplify_eq; cbn; lia.
    + rewrite Hs. exists c. repeat split; try apply Hsim. cbn. lia.
  - destruct (simulates_reset cb_throws c s Hsim) as (c' & -> & Hs).
    exists c'. split; [done|]. split; [done|]. cbn. lia.
Qed.

Lemma registers_cons op ops : registers (op :: ops) = registers [op] + registers ops.
Proof. unfold registers. destruct op; cbn; lia. Qed.

Lemma registers_nonneg ops : 0 <= registers ops.
Proof. unfold registers. lia. Qed.

Lemma run_simulates ops : forall c s,
  simulates c s -> Spec.counter s + registers ops <= 2 ^ 32 ->
  (run (Q := coordinator_queue cb_throws) c ops).1 = (run s ops).1 /\
  simulates (run (Q := coordinator_queue cb_throws) c ops).2 (run s ops).2.
Proof.
  induction ops as [|op ops IH]; intros c s Hsim Hc; [done|].
  rewrite registers_cons in Hc.
  pose proof (registers_nonneg ops).
  destruct (run_op_simulates c s op Hsim) as (c' & Heq & Hsim' & Hcnt); [lia|].
  cbn [run]. rewrite Heq. destruct (run_op s op) as [[s' out] cs]. cbn in *.
  destruct (IH c' s' Hsim') as [Ho Hs]; [lia|].
  destruct (run c' ops), (run s' ops). cbn in *. by subst.
Qed.

(** C9 (refinement). The ring buffer with ids turned into indexes behaves
    like a FIFO queue searched by id: on every sequence of operations,
    including refused ones and resets, the coordinator gives the same ids,
    the same groups in the same order, the same exceptions and the same
    notificator calls, as long as at most [2^32] requests are registered. *)
Theorem coordinator_refines_queue n ops
  (Hreg : registers ops <= 2 ^ 32) :
  (run (Q := coordinator_queue cb_throws) (Coordinator.create n) ops).1 =
  (run (Spec.spec_create n) ops).1.
Proof. apply run_simulates; [apply simulates_create | done]. Qed.

End Refinement.

(** ** The order of responses *)

Definition items_of (wgs : list write_group_t) : list writable_item_t := wgs ≫= m_items.

(** The items accepted for request [id], and those handed out for it. *)
Definition given (id : Z) (outs : list coord_out) : list writable_item_t :=
  outs ≫= fun o => match o with
                   | Appended id' _ wg => if id =? id' then m_items wg else []
                   | _ => []
                   end.

Definition sent (id : Z) (outs : list coord_out) : list writable_item_t :=
  outs ≫= fun o => match o with
                   | Popped (Some (wg, id')) => if id =? id' then m_items wg else []
                   | _ => []
                   end.

Definition popped_ids (outs : list coord_out) : list Z :=
  outs ≫= fun o => match o with Popped (Some (_, id)) => [id] | _ => [] end.

(** The response of [id] was given its final parts. *)
Definition finalized (id : Z) (outs : list coord_out) : Prop :=
  exists flags wg, Appended id flags wg ∈ outs /\ is_final flags = true.

Lemma items_of_add_group wgs wg : items_of (Spec.add_group wgs wg) = items_of wgs ++ m_items wg.
Proof.
  unfold Spec.add_group, items_of. destruct (last wgs) as [back|] eqn:E.
  - apply last_Some in E as [l ->]. case_match.
    + rewrite removelast_last, !bind_app. cbn. by rewrite !app_nil_r, app_assoc.
    + rewrite bind_app. cbn. by rewrite app_nil_r.
  - apply last_None in E as ->. cbn. by rewrite app_nil_r.
Qed.

Lemma given_snoc id outs o : given id (outs ++ [o]) = given id outs ++ given id [o].
Proof. apply bind_app. Qed.

Lemma sent_snoc id outs o : sent id (outs ++ [o]) = sent id outs ++ sent id [o].
Proof. apply bind_app. Qed.

Lemma finalized_snoc id outs o : finalized id outs -> finalized id (outs ++ [o]).
Proof. intros (f & wg & Hin & Hf). exists f, wg. split; [|done]. apply elem_of_app. by left. Qed.

(** The invariant of a run without resets, after outputs [outs]. *)
Record order_inv (outs : list coord_out) (s : Spec.spec_t) : Prop := {
  ord_base : Z.of_nat (length (Spec.queue s)) <= Spec.counter s;
  ord_ids : forall i ctx, Spec.queue s !! i = Some ctx ->
    m_request_id ctx = Spec.counter s - Z.of_nat (length (Spec.queue s)) + Z.of_nat i;
  ord_queued : forall ctx, ctx ∈ Spec.queue s ->
    given (m_request_id ctx) outs
      = sent (m_request_id ctx) outs ++ items_of (m_write_groups ctx) /\
    (is_final (m_response_output_flags ctx) = true -> finalized (m_request_id ctx) outs);
  ord_done : forall id, 0 <= id < Spec.counter s - Z.of_nat (length (Spec.queue s)) ->
    given id outs = sent id outs /\ finalized id outs;
  ord_future : forall id, id < 0 \/ Spec.counter s <= id -> given id outs = [] /\ sent id outs = [];
  ord_popped : Forall (fun id => 0 <= id <= Spec.counter s - Z.of_nat (length (Spec.queue s)))
    (popped_ids outs);
  ord_sorted : StronglySorted Z.le (popped_ids outs) }.

Lemma order_inv_create n : order_inv [] (Spec.spec_create n).
Proof.
  split; cbn; try lia.
  - done.
  - intros ctx Hc. by apply not_elem_of_nil in Hc.
  - done.
  - constructor.
  - constructor.
Qed.

(** An output that concerns no group leaves the invariant. *)
Lemma order_inv_quiet outs s o :
  order_inv outs s ->
  match o with Appended _ _ _ | Popped (Some _) => False | _ => True end ->
  order_inv (outs ++ [o]) s.
Proof.
  intros [] Ho.
  assert (Hg : forall id, given id (outs ++ [o]) = given id outs).
  { intros id. rewrite given_snoc. destruct o as [| | [[]|] | |]; cbn; by rewrite ?app_nil_r. }
  assert (Hs : forall id, sent id (outs ++ [o]) = sent id outs).
  { intros id. rewrite sent_snoc. destruct o as [| | [[]|] | |]; cbn; by rewrite ?app_nil_r. }
  assert (Hp : popped_ids (outs ++ [o]) = popped_ids outs).
  { unfold popped_ids. rewrite bind_app. destruct o as [| | [[]|] | |]; cbn; by rewrite ?app_nil_r. }
  split; rewrite ?Hp; try done.
  - intros ctx Hc. rewrite Hg, Hs. destruct (ord_queued0 ctx Hc). split; [done|].
    intros. apply finalized_snoc. auto.
  - intros id Hid. rewrite Hg, Hs. destruct (ord_done0 id Hid). split; [done|].
    by apply finalized_snoc.
  - intros id Hid. rewrite Hg, Hs. auto.
Qed.

Lemma order_inv_register outs s id s' :
  order_inv outs s -> Spec.spec_register_new_request s = Ok (id, s') ->
  order_inv (outs ++ [Registered id]) s'.
Proof.
  intros Hi E. apply (order_inv_quiet outs); [|done]. destruct Hi.
  unfold Spec.spec_register_new_request in E. case_match; [done|]. injection E as <- <-.
  split; cbn; rewrite ?length_app; cbn; try lia.
  - intros i ctx Hc. apply lookup_app_Some in Hc as [Hc | [Hle Hc]].
    + specialize (ord_ids0 _ _ Hc). lia.
    + apply list_lookup_singleton_Some in Hc as [Hi <-]. cbn. lia.
  - intros ctx [Hc | Hc]%elem_of_app; [by apply ord_queued0|].
    apply list_elem_of_singleton in Hc as ->. cbn.
    destruct (ord_future0 (Spec.counter s)) as [-> ->]; [lia|]. done.
  - intros id Hid. apply ord_done0. lia.
  - intros id Hid. apply ord_future0. lia.
  - eapply Forall_impl; [exact ord_popped0|]. cbn. lia.
  - done.
Qed.

Lemma given_appended id id' flags wg :
  given id [Appended id' flags wg] = if id =? id' then m_items wg else [].
Proof. cbn. by rewrite app_nil_r. Qed.

Lemma sent_popped id wg id' :
  sent id [Popped (Some (wg, id'))] = if id =? id' then m_items wg else [].
Proof. cbn. by rewrite app_nil_r. Qed.

(** Two contexts of a queue with the same id are the same. *)
Lemma order_inv_unique outs s i j ci cj :
  order_inv outs s -> Spec.queue s !! i = Some ci -> Spec.queue s !! j = Some cj ->
  m_request_id ci = m_request_id cj -> i = j.
Proof. intros [] Hi Hj He. apply ord_ids0 in Hi, Hj. lia. Qed.

Lemma order_inv_append outs s id flags wg s' cs :
  order_inv outs s -> Spec.spec_append_response s id flags wg = (Ok s', cs) ->
  order_inv (outs ++ [Appended id flags wg]) s'.
Proof.
  intros Hi E. unfold Spec.spec_append_response in E.
  destruct (Spec.is_closed s); [done|].
  destruct (list_find _ (Spec.queue s)) as [[i ctx]|] eqn:Ef; [|done].
  apply list_find_Some in Ef as (Hl & Hid & _).
  destruct (is_final (m_response_output_flags ctx)) eqn:Efin; [done|]. injection E as <- <-.
  assert (Hu : forall j cj, Spec.queue s !! j = Some cj -> m_request_id ctx = m_request_id cj -> i = j)
    by (intros j cj Hj He; by apply (order_inv_unique outs s i j ctx cj)).
  destruct Hi. pose proof (lookup_lt_Some _ _ _ Hl) as Hlt.
  pose proof (ord_ids0 _ _ Hl) as Hpos.
  assert (Hs : forall k, sent k (outs ++ [Appended id flags wg]) = sent k outs).
  { intros k. rewrite sent_snoc. cbn. by rewrite app_nil_r. }
  assert (Hg : forall k, given k (outs ++ [Appended id flags wg])
    = given k outs ++ if k =? id then m_items wg else []).
  { intros k. by rewrite given_snoc, given_appended. }
  assert (Hp : popped_ids (outs ++ [Appended id flags wg]) = popped_ids outs).
  { unfold popped_ids. rewrite bind_app. cbn. by rewrite app_nil_r. }
  split; cbn; rewrite ?length_insert, ?Hp; try done.
  - intros j c Hj. destruct (decide (i = j)) as [<-|Hne].
    + rewrite list_lookup_insert_eq in Hj by lia. by injection Hj as <-.
    + rewrite list_lookup_insert_ne in Hj by done. by apply ord_ids0.
  - intros c [j Hj]%list_elem_of_lookup. rewrite Hs, Hg. destruct (decide (i = j)) as [<-|Hne].
    + rewrite list_lookup_insert_eq in Hj by lia. injection Hj as <-. cbn.
      rewrite Hid, Z.eqb_refl, items_of_add_group.
      destruct (ord_queued0 ctx) as [Hq _]; [by apply list_elem_of_lookup_2 in Hl|].
      rewrite Hid in Hq. rewrite Hq. split; [by rewrite app_assoc|].
      intros Hf. exists flags, wg. split; [|done]. apply elem_of_app. right. by apply list_elem_of_singleton.
    + rewrite list_lookup_insert_ne in Hj by done.
      destruct (ord_queued0 c) as [Hq Hf]; [by apply list_elem_of_lookup_2 in Hj|].
      rewrite (proj2 (Z.eqb_neq _ _)), app_nil_r.
      * split; [done|]. intros. by apply finalized_snoc, Hf.
      * intros He. apply Hne, (Hu j c Hj). congruence.
  - intros k Hk. rewrite Hs, Hg. rewrite (proj2 (Z.eqb_neq _ _)), app_nil_r by lia.
    destruct (ord_done0 k Hk). split; [done | by apply finalized_snoc].
  - intros k Hk. rewrite Hs, Hg. rewrite (proj2 (Z.eqb_neq _ _)), app_nil_r by lia. auto.
Qed.

Lemma StronglySorted_snoc (l : list Z) x :
  StronglySorted Z.le l -> Forall (fun y => y <= x) l -> StronglySorted Z.le (l ++ [x]).
Proof.
  induction l as [|y l IH]; intros Hs Hf; cbn; [by repeat constructor|].
  inversion_clear Hs as [|? ? Hs' Hy]. inversion_clear Hf as [|? ? Hyx Hf'].
  constructor; [by apply IH|]. apply Forall_app. split; [done | by constructor].
Qed.

(** The pop of a group: [q'] is the rest of the queue with what is left of the
    first context, which is gone only when it was final and empty. *)
Lemma order_inv_popped outs s ctx q wg wgs s' :
  order_inv outs s -> Spec.queue s = ctx :: q -> m_write_groups ctx = wg :: wgs ->
  Spec.counter s' = Spec.counter s ->
  Spec.queue s' = with_groups ctx wgs :: q \/
    (Spec.queue s' = q /\ wgs = [] /\ is_final (m_response_output_flags ctx) = true) ->
  order_inv (outs ++ [Popped (Some (wg, m_request_id ctx))]) s'.
Proof.
  intros Hi Hq Hw Hc Hq'.
  assert (Hu : forall j cj, (ctx :: q) !! j = Some cj -> m_request_id ctx = m_request_id cj -> 0%nat = j)
    by (intros j cj; rewrite <- Hq; intros Hj He; apply (order_inv_unique outs s 0 j ctx cj);
        [done | by rewrite Hq | done | done]).
  destruct Hi. rewrite Hq in *.
  change (length (ctx :: q)) with (S (length q)) in *.
  pose proof (ord_ids0 0%nat ctx eq_refl) as Hid.
  set (o := Popped (Some (wg, m_request_id ctx))).
  assert (Hg : forall k, given k (outs ++ [o]) = given k outs).
  { intros k. rewrite given_snoc. cbn. by rewrite app_nil_r. }
  assert (Hs : forall k, sent k (outs ++ [o])
    = sent k outs ++ if k =? m_request_id ctx then m_items wg else []).
  { intros k. rewrite sent_snoc. unfold o. by rewrite sent_popped. }
  assert (Hp : popped_ids (outs ++ [o]) = popped_ids outs ++ [m_request_id ctx]).
  { unfold popped_ids. by rewrite bind_app. }
  destruct (ord_queued0 ctx) as [Hfirst Hfin]; [by apply list_elem_of_here|]. rewrite Hw in Hfirst.
  assert (Hmine : given (m_request_id ctx) (outs ++ [o])
    = sent (m_request_id ctx) (outs ++ [o]) ++ items_of wgs).
  { rewrite Hg, Hs, Z.eqb_refl, Hfirst. cbn. by rewrite app_assoc. }
  assert (Hrest : forall c, c ∈ q -> given (m_request_id c) (outs ++ [o])
    = sent (m_request_id c) (outs ++ [o]) ++ items_of (m_write_groups c) /\
    (is_final (m_response_output_flags c) = true -> finalized (m_request_id c) (outs ++ [o]))).
  { intros c Hcq. destruct (ord_queued0 c) as [Hqc Hf]; [by apply list_elem_of_further|].
    apply list_elem_of_lookup in Hcq as [j Hj].
    rewrite Hg, Hs. rewrite (proj2 (Z.eqb_neq _ _)), app_nil_r.
    - split; [done|]. intros. by apply finalized_snoc, Hf.
    - intros He. by specialize (Hu (S j) c Hj (eq_sym He)). }
  assert (Hsorted : StronglySorted Z.le (popped_ids (outs ++ [o]))).
  { rewrite Hp. apply StronglySorted_snoc; [done|]. eapply Forall_impl; [exact ord_popped0|].
    intros x Hx. cbn beta in Hx. lia. }
  assert (Hother : forall k, k <> m_request_id ctx -> sent k (outs ++ [o]) = sent k outs).
  { intros k Hk. by rewrite Hs, (proj2 (Z.eqb_neq _ _)), app_nil_r. }
  destruct Hq' as [Hq' | (Hq' & -> & Hf)]; split; rewrite ?Hq', ?Hc; cbn [length]; try done; try lia.
  - intros [|j] c Hj; [by injection Hj as <- | exact (ord_ids0 (S j) c Hj)].
  - intros c [-> | Hcq]%elem_of_cons; [|by apply Hrest]. cbn. split; [done|].
    intros. by apply finalized_snoc, Hfin.
  - intros k Hk. rewrite Hg, Hother by (lia).
    destruct (ord_done0 k Hk). split; [done | by apply finalized_snoc].
  - intros k Hk. rewrite Hg, Hother by (lia). auto.
  - rewrite Hp, Forall_app. split; [done|]. constructor; [lia | constructor].
  - intros j c Hj. specialize (ord_ids0 (S j) c Hj). lia.
  - intros k Hk. destruct (decide (k = m_request_id ctx)) as [-> | Hne].
    + rewrite Hmine. cbn. rewrite app_nil_r. split; [done|]. by apply finalized_snoc, Hfin.
    + rewrite Hg, Hother by done. destruct (ord_done0 k) as [? ?]; [lia|].
      split; [done | by apply finalized_snoc].
  - intros k Hk. rewrite Hg, Hother by (lia). auto.
  - rewrite Hp, Forall_app. split.
    + eapply Forall_impl; [exact ord_popped0|]. intros x Hx. cbn beta in Hx. lia.
    + constructor; [lia | constructor].
Qed.

Lemma order_inv_pop outs s r s' :
  order_inv outs s -> Spec.spec_pop_ready_buffers s = Ok (r, s') -> order_inv (outs ++ [Popped r]) s'.
Proof.
  intros Hi E. unfold Spec.spec_pop_ready_buffers in E.
  destruct (Spec.is_closed s); [done|].
  destruct (Spec.queue s) as [|ctx q] eqn:Eq; [injection E as <- <-; by apply order_inv_quiet|].
  destruct (m_write_groups ctx) as [|wg wgs] eqn:Ew;
    [injection E as <- <-; by apply order_inv_quiet|].
  injection E as <- <-. apply (order_inv_popped _ s ctx q _ wgs); try done.
  - repeat case_match; done.
  - destruct wgs; [|by left]. destruct (is_final _) eqn:Ef; [by right | by left].
Qed.

Lemma order_inv_op outs s op :
  order_inv outs s -> op <> OReset -> order_inv (outs ++ [(run_op s op).1.2]) (run_op s op).1.1.
Proof.
  intros Hi Hop. destruct op as [|id flags wg| |]; cbn; [| | |done].
  - destruct (Spec.spec_register_new_request s) as [[id s']|e] eqn:E;
      [by apply (order_inv_register _ s) | by apply order_inv_quiet].
  - destruct (Spec.spec_append_response s id flags wg) as [[s'|e] cs] eqn:E;
      [by apply (order_inv_append _ s _ _ _ _ cs) | by apply order_inv_quiet].
  - destruct (Spec.spec_pop_ready_buffers s) as [[r s']|e] eqn:E;
      [by apply (order_inv_pop _ s) | by apply order_inv_quiet].
Qed.

Lemma order_inv_run ops : forall outs s,
  Forall (fun op => op <> OReset) ops -> order_inv outs s ->
  order_inv (outs ++ (run s ops).1.*1) (run s ops).2.
Proof.
  induction ops as [|op ops IH]; intros outs s Hops Hi; [by rewrite app_nil_r|].
  inversion_clear Hops as [|? ? Hop Hops']. cbn [run].
  pose proof (order_inv_op outs s op Hi Hop) as H1.
  destruct (run_op s op) as [[s' out] cs]. cbn in H1.
  specialize (IH _ _ Hops' H1). destruct (run s' ops) as [outs' s'']. cbn in *.
  by rewrite <- app_assoc in IH.
Qed.

Lemma order_inv_prefix outs s id : order_inv outs s -> sent id outs `prefix_of` given id outs.
Proof.
  intros Hi. pose proof (ord_base _ _ Hi) as Hb.
  destruct (decide (id < 0 \/ Spec.counter s <= id)) as [Hf|Hf].
  { destruct (ord_future _ _ Hi id Hf) as [-> ->]. done. }
  destruct (decide (id < Spec.counter s - Z.of_nat (length (Spec.queue s)))) as [Hd|Hd].
  { destruct (ord_done _ _ Hi id) as [-> _]; [lia | done]. }
  destruct (lookup_lt_is_Some_2 (Spec.queue s)
    (Z.to_nat (id - (Spec.counter s - Z.of_nat (length (Spec.queue s)))))) as [ctx Hc]; [lia|].
  pose proof (ord_ids _ _ Hi _ _ Hc) as He.
  replace id with (m_request_id ctx) by lia.
  destruct (ord_queued _ _ Hi ctx) as [-> _]; [by apply list_elem_of_lookup_2 in Hc|].
  by apply prefix_app_r.
Qed.

(** *** The stream *)

(** The items of all groups handed out, and the number of requests registered. *)
Definition popped_items (outs : list coord_out) : list writable_item_t :=
  outs ≫= fun o => match o with Popped (Some (wg, _)) => m_items wg | _ => [] end.

Definition registered (outs : list coord_out) : Z :=
  Z.of_nat (length (List.filter (fun o => match o with Registered _ => true | _ => false end) outs)).

Lemma registered_cons o outs : registered (o :: outs) = registered [o] + registered outs.
Proof. unfold registered. destruct o; cbn; lia. Qed.

Lemma run_op_counter s op :
  Spec.counter (run_op s op).1.1 = Spec.counter s + registered [(run_op s op).1.2].
Proof.
  unfold registered. destruct op as [|id flags wg| |]; cbn.
  - unfold Spec.spec_register_new_request. destruct (length _ =? _)%nat; cbn; lia.
  - unfold Spec.spec_append_response. repeat case_match; cbn in *; simplify_eq; cbn; lia.
  - unfold Spec.spec_pop_ready_buffers. repeat case_match; cbn in *; simplify_eq; cbn; lia.
  - lia.
Qed.

(** A run of the coordinator itself keeps the order, while fewer than [2^32]
    requests have been registered. *)
Lemma order_inv_coordinator cb_throws ops : forall c s outs,
  simulates c s -> Forall (fun op => op <> OReset) ops -> order_inv outs s ->
  Spec.counter s + registered (run (Q := coordinator_queue cb_throws) c ops).1.*1 < 2 ^ 32 ->
  exists s', order_inv (outs ++ (run (Q := coordinator_queue cb_throws) c ops).1.*1) s'.
Proof.
  induction ops as [|op ops IH]; intros c s outs Hsim Hops Hi; [exists s; by rewrite app_nil_r|].
  inversion_clear Hops as [|? ? Hop Hops']. cbn [run].
  pose proof (order_inv_op outs s op Hi Hop) as H1. pose proof (run_op_counter s op) as Hcnt.
  destruct (run_op c op) as [[c' out] cs] eqn:E. destruct (run c' ops) as [outs' c''] eqn:Er.
  cbn [fst snd fmap list_fmap]. rewrite registered_cons. intros Hreg.
  assert (0 <= registered [out] /\ 0 <= registered outs'.*1) by (unfold registered; lia).
  destruct (run_op_simulates cb_throws c s op Hsim) as (c1 & E1 & Hsim' & _).
  { unfold registers. destruct op; cbn; lia. }
  rewrite E in E1. injection E1 as <- -> ->.
  destruct (IH c' _ _ Hsim' Hops' H1) as [s' Hs'].
  - rewrite Er, Hcnt. cbn [fst]. lia.
  - exists s'. rewrite Er, <- app_assoc in Hs'. exact Hs'.
Qed.

Lemma bind_empty {A B} (f : A -> list B) l : (forall x, x ∈ l -> f x = []) -> l ≫= f = [].
Proof.
  induction l as [|x l IH]; intros Hl; [done|]. rewrite bind_cons, Hl, IH; [done | | apply list_elem_of_here].
  intros y Hy. apply Hl. by apply list_elem_of_further.
Qed.

Lemma bind_ext {A B} (f g : A -> list B) l : (forall x, x ∈ l -> f x = g x) -> l ≫= f = l ≫= g.
Proof.
  induction l as [|x l IH]; intros Hl; [done|].
  rewrite !bind_cons, Hl, IH; [done | | apply list_elem_of_here].
  intros y Hy. apply Hl. by apply list_elem_of_further.
Qed.

Lemma sent_elsewhere id outs : id ∉ popped_ids outs -> sent id outs = [].
Proof.
  intros Hn. apply bind_empty. intros [| | [[wg j]|] | |] Ho; try done.
  destruct (Z.eqb_spec id j) as [-> | ?]; [|done]. destruct Hn.
  apply list_elem_of_bind. exists (Popped (Some (wg, j))). split; [by apply list_elem_of_singleton | done].
Qed.

Lemma list_bind_singleton {A B} (f : A -> list B) x : [x] ≫= f = f x.
Proof. apply app_nil_r. Qed.

Lemma seqZ_one i : seqZ i 1 = [i].
Proof. done. Qed.

(** Groups popped by nondecreasing id are the concatenation, by id, of what
    each request sent. *)
Lemma popped_by_id outs : forall lo n, 0 <= n ->
  StronglySorted Z.le (popped_ids outs) -> Forall (fun id => lo <= id < lo + n) (popped_ids outs) ->
  popped_items outs = seqZ lo n ≫= fun id => sent id outs.
Proof.
  induction outs as [|o outs IH]; intros lo n Hn Hs Hf.
  { symmetry. by apply bind_empty. }
  assert (Hskip : (forall id, sent id (o :: outs) = sent id outs) -> popped_ids (o :: outs) = popped_ids outs ->
    popped_items (o :: outs) = popped_items outs ->
    popped_items (o :: outs) = seqZ lo n ≫= fun id => sent id (o :: outs)).
  { intros H1 H2 ->. rewrite H2 in *. rewrite (IH lo n) by done. by apply bind_ext. }
  destruct o as [| | [[wg i]|] | |]; try (by apply Hskip). clear Hskip.
  change (popped_ids (Popped (Some (wg, i)) :: outs)) with (i :: popped_ids outs) in *.
  inversion_clear Hs as [|? ? Hs' Hle]. inversion_clear Hf as [|? ? Hi Hf'].
  change (popped_items (Popped (Some (wg, i)) :: outs)) with (m_items wg ++ popped_items outs).
  rewrite (IH lo n) by done.
  replace n with ((i - lo) + (1 + (lo + n - i - 1))) by lia.
  rewrite !seqZ_app, !bind_app by lia.
  rewrite Forall_forall in Hle.
  assert (Hlow : forall os, (forall j, j ∈ popped_ids os -> i <= j) ->
    seqZ lo (i - lo) ≫= (fun id => sent id os) = []).
  { intros os Hos. apply bind_empty. intros x Hx%elem_of_seqZ. apply sent_elsewhere.
    intros Hin%Hos. lia. }
  rewrite !Hlow; [|intros j [-> | Hj]%elem_of_cons; [lia | by apply Hle] | done].
  rewrite !app_nil_l. replace (lo + (i - lo)) with i by lia.
  rewrite !seqZ_one, !list_bind_singleton.
  change (sent i (Popped (Some (wg, i)) :: outs)) with ((if i =? i then m_items wg else []) ++ sent i outs).
  rewrite Z.eqb_refl, <- app_assoc. do 2 f_equal. apply bind_ext. intros x Hx%elem_of_seqZ.
  change (sent x (Popped (Some (wg, i)) :: outs)) with ((if x =? i then m_items wg else []) ++ sent x outs).
  by rewrite (proj2 (Z.eqb_neq _ _)) by lia.
Qed.

(** What has been handed out: the complete responses of the first [n] requests,
    each of them final, and the beginning of the next response. *)
Lemma order_inv_stream outs s :
  order_inv outs s -> exists n part, 0 <= n /\
    popped_items outs = (seqZ 0 n ≫= fun id => given id outs) ++ part /\
    part `prefix_of` given n outs /\ (forall id, 0 <= id < n -> finalized id outs).
Proof.
  intros Hi. destruct (last (popped_ids outs)) as [j|] eqn:El.
  - apply last_Some in El as [ids El]. pose proof (ord_popped _ _ Hi) as Hp.
    pose proof (ord_sorted _ _ Hi) as Hs. rewrite El in Hp, Hs.
    apply Forall_app in Hp as [Hp1 Hp2%Forall_inv]. cbn beta in Hp2.
    assert (Hmax : Forall (fun id => 0 <= id < 0 + (j + 1)) (popped_ids outs)).
    { rewrite El. apply Forall_app. split; [|apply Forall_singleton; lia].
      rewrite Forall_forall in *. intros x Hx. specialize (Hp1 x Hx). cbn in Hp1.
      apply list_elem_of_split in Hx as (l1 & l2 & ->). rewrite <- app_assoc in Hs.
      assert (x <= j); [|lia]. clear -Hs. induction l1 as [|y l1 IH]; inversion_clear Hs as [|? ? Hs' Hf]; [|auto].
      rewrite Forall_forall in Hf. apply Hf. apply elem_of_app. right. by apply list_elem_of_singleton. }
    exists j, (sent j outs). split; [lia|]. split; [|split; [by apply (order_inv_prefix outs s)|]].
    + rewrite (popped_by_id outs 0 (j + 1)); [|lia | apply Hi | done].
      rewrite seqZ_app, bind_app by lia. f_equal.
      * apply bind_ext. intros x Hx%elem_of_seqZ. destruct (ord_done _ _ Hi x); [lia | done].
      * by rewrite seqZ_one, list_bind_singleton.
    + intros id Hid. destruct (ord_done _ _ Hi id); [lia | done].
  - apply last_None in El. exists 0, []. split; [done|]. split; [|split; [apply prefix_nil | lia]].
    rewrite (popped_by_id outs 0 0); [done | done | by rewrite El; constructor | by rewrite El; constructor].
Qed.

(** C8 (invariant). Pipelining. As long as the coordinator is not reset, which drops the
    responses that wait, and at most 2^32 requests are registered, whose ids are then distinct
    32-bit numbers, whatever the order in which responses are produced, groups leave the coordinator by nondecreasing request id; the
    items sent for a request are a prefix, in order, of the items accepted for
    it; and once anything of request [j] has left, every earlier response was
    given its final parts and has left completely. *)
Theorem pipeline_order cb_throws n ops outs
  (Hreg : registers ops <= 2 ^ 32)
  (Hnr : Forall (fun op => op <> OReset) ops)
  (Ho : (run (Q := coordinator_queue cb_throws) (Coordinator.create n) ops).1.*1 = outs) :
  StronglySorted Z.le (popped_ids outs) /\
  (forall id, sent id outs `prefix_of` given id outs) /\
  (forall id j, j ∈ popped_ids outs -> 0 <= id < j ->
     sent id outs = given id outs /\ finalized id outs).
Proof.
  pose proof (order_inv_run ops [] (Spec.spec_create n) Hnr (order_inv_create n)) as Hi.
  rewrite app_nil_l in Hi.
  destruct (run_simulates cb_throws ops (Coordinator.create n) (Spec.spec_create n)) as [He _];
    [apply simulates_create | done |].
  rewrite He in Ho. rewrite Ho in Hi. split; [apply Hi|]. split.
  - intros id. by apply (order_inv_prefix outs (run (Spec.spec_create n) ops).2).
  - intros id j Hj Hid. pose proof (ord_popped _ _ Hi) as Hp. rewrite Forall_forall in Hp.
    specialize (Hp j Hj). cbn beta in Hp. destruct (ord_done _ _ Hi id); [lia|]. done.
Qed.

(** Ids are compared as plain 32-bit numbers: when the counter
    has wrapped while earlier requests wait for their responses, the next
    request gets id 0 and from then on no response is accepted for any request
    in the table. *)
Theorem request_id_wrap_loses_requests cb_throws c s
  (Hsim : simulates c s) (Hcnt : Spec.counter s = 2 ^ 32)
  (Hq : (0 < length (Spec.queue s) < Spec.capacity s)%nat) (Hcap : Z.of_nat (Spec.capacity s) < 2 ^ 32) :
  exists c', Coordinator.register_new_request c = Ok (0, c') /\
    forall id flags wg, exists e,
      fst (Coordinator.append_response cb_throws c' id flags wg) = Err e.
Proof.
  destruct Hsim as [Hc _ Hrep]. rewrite Hcnt in Hrep, Hc. change (wrap 32 (2 ^ 32)) with 0 in Hc.
  unfold Coordinator.register_new_request, Table.push_response_context.
  rewrite (represents_is_full _ _ _ _ Hrep), (proj2 (Nat.eqb_neq _ _)), Hc by lia.
  eexists; split; [done|]. intros id flags wg.
  assert (Hring : in_ring (Coordinator.m_context_table c)) by (apply (rep_ring _ _ _ _ Hrep); lia).
  pose proof (rep_capacity _ _ _ _ Hrep) as Hl. pose proof (rep_exists _ _ _ _ Hrep) as He.
  set (tb := Coordinator.m_context_table c) in *. set (q := Spec.queue s) in *.
  unfold Coordinator.append_response. cbn [Coordinator.m_context_table].
  destruct (Coordinator.closed _); [by eexists|].
  set (tb' := Table.mk _ _ _).
  assert (Hslot : forall i, (i < Spec.capacity s)%nat ->
    slot tb' i = if decide (length q = i) then reinit (slot tb (length q)) 0 else slot tb i).
  { intros i Hi. unfold tb'. rewrite He.
    exact (slot_set tb (length q) i _ Hring ltac:(lia) ltac:(lia)). }
  assert (Hring' : in_ring tb') by (unfold in_ring, tb'; cbn; by rewrite length_insert).
  assert (Hfront : m_request_id (Table.front tb') = 2 ^ 32 - Z.of_nat (length q)).
  { rewrite front_slot, Hslot, decide_False by (done || lia).
    rewrite (rep_ids _ _ _ _ Hrep 0%nat); [lia | apply (rep_used _ _ _ _ Hrep); unfold q in *; lia]. }
  assert (Hback : m_request_id (Table.back tb') = 0).
  { rewrite back_slot.
    replace (Table.m_elements_exists tb' - 1)%nat with (length q) by (unfold tb'; cbn; lia).
    by rewrite Hslot, decide_True by lia. }
  assert (Hnone : Table.get_by_req_id tb' id = None).
  { unfold Table.get_by_req_id. rewrite Hfront, Hback.
    replace (_ || _ || _) with true; [done|]. symmetry. rewrite !orb_true_iff, !Z.ltb_lt.
    destruct (decide (0 < id)); [by right|]. left; right. lia. }
  rewrite Hnone. by eexists.
Qed.

(** ** Witnesses *)

Definition part : response_output_flags_t := mk_flags not_final_parts connection_keepalive.
Definition final : response_output_flags_t := mk_flags final_parts connection_keepalive.
Definition item (s : string) : writable_item_t := TrivialItem (str s).
Definition never_throws : notificator -> error_code -> bool := fun _ _ => false.

(** Two pipelined requests; the second response is ready first. *)
Definition example_ops : list coord_op :=
  [ORegister; ORegister; ORegister;
   OAppend 1 final (after_write_notificator (write_group [item "b"]) (Some 7%nat));
   OPop;
   OAppend 0 part (write_group [item "a1"]); OAppend 0 part (write_group [item "a2"]);
   OPop; OPop;
   OAppend 0 final (write_group [item "a3"]); OAppend 0 final (write_group []);
   OPop; OPop; ORegister].

Lemma coordinator_refines_queue_witness :
  (run (Q := coordinator_queue never_throws) (Coordinator.create 2) example_ops).1.*1 =
    [Registered 0; Registered 1; Refused context_table_is_full;
     Appended 1 final (after_write_notificator (write_group [item "b"]) (Some 7%nat));
     Popped None;
     Appended 0 part (write_group [item "a1"]); Appended 0 part (write_group [item "a2"]);
     Popped (Some (write_group [item "a1"; item "a2"], 0)); Popped None;
     Appended 0 final (write_group [item "a3"]); Refused response_marked_as_complete;
     Popped (Some (write_group [item "a3"], 0));
     Popped (Some (after_write_notificator (write_group [item "b"]) (Some 7%nat), 1));
     Registered 2].
Proof.
  rewrite (coordinator_refines_queue never_throws 2 example_ops).
  - vm_compute; reflexivity.
  - vm_compute; congruence.
Defined.

Lemma pipeline_order_witness :
  StronglySorted Z.le
    (popped_ids (run (Q := coordinator_queue never_throws) (Coordinator.create 2) example_ops).1.*1).
Proof.
  apply (pipeline_order never_throws 2 example_ops
    (run (Q := coordinator_queue never_throws) (Coordinator.create 2) example_ops).1.*1).
  - vm_compute; congruence.
  - repeat constructor; congruence.
  - reflexivity.
Defined.

(** One request with the last id waits in a table of two. *)
Definition wrapped : Coordinator.response_coordinator_t :=
  {| Coordinator.m_request_id_counter := 0;
     Coordinator.m_connection_closed_response_occured := false;
     Coordinator.m_context_table :=
       Table.mk [Spec.fresh (2 ^ 32 - 1); initial_context] 0 1 |}.

Lemma request_id_wrap_loses_requests_witness :
  exists c', Coordinator.register_new_request wrapped = Ok (0, c') /\
    exists e, fst (Coordinator.append_response never_throws c' (2 ^ 32 - 1) part (write_group [])) = Err e.
Proof.
  destruct (request_id_wrap_loses_requests never_throws wrapped
    (Spec.mk 2 (2 ^ 32) false [Spec.fresh (2 ^ 32 - 1)])) as (c' & Hc & Ha).
  - split; [done | done|]. split; cbn; try done; try lia.
    + intros [|i] Hi; [done | lia].
    + intros [|[|i]] Hi; [lia | done | lia].
    + intros [|i] ctx Hi; [by injection Hi as <- | done].
  - done.
  - cbn; lia.
  - cbn; lia.
  - exists c'. split; [exact Hc | apply Ha].
Defined.
