(* ===== verification/Headers.v ===== *)
(** * HTTP headers

    [restinio/http_headers.hpp], [restinio/impl/to_lower_lut.hpp],
    [restinio/impl/string_caseless_compare.hpp] and
    [restinio/impl/header_helpers.hpp]: names of header fields without regard
    to case, the table of known fields, the container of fields, the target of
    a request split while it arrives, and the text of a response header. An
    [http_field_t] is its underlying number, the position in the table of
    fields. *)

From S2P Require Import Prelude.

(** ** Comparison without case *)

(*@ impl/to_lower_lut.hpp 11-35 to_lower_lut *)
Definition to_lower_lut : list Z :=
  [
   0x00; 0x01; 0x02; 0x03; 0x04; 0x05; 0x06; 0x07; 0x08; 0x09; 0x0A; 0x0B; 0x0C; 0x0D; 0x0E; 0x0F;
   0x10; 0x11; 0x12; 0x13; 0x14; 0x15; 0x16; 0x17; 0x18; 0x19; 0x1A; 0x1B; 0x1C; 0x1D; 0x1E; 0x1F;
   0x20; 0x21; 0x22; 0x23; 0x24; 0x25; 0x26; 0x27; 0x28; 0x29; 0x2A; 0x2B; 0x2C; 0x2D; 0x2E; 0x2F;
   0x30; 0x31; 0x32; 0x33; 0x34; 0x35; 0x36; 0x37; 0x38; 0x39; 0x3A; 0x3B; 0x3C; 0x3D; 0x3E; 0x3F;
   0x40;
   0x61; 0x62; 0x63; 0x64; 0x65; 0x66; 0x67; 0x68; 0x69; 0x6A; 0x6B; 0x6C; 0x6D; 0x6E; 0x6F;
   0x70; 0x71; 0x72; 0x73; 0x74; 0x75; 0x76; 0x77; 0x78; 0x79; 0x7A;
   0x5B; 0x5C; 0x5D; 0x5E; 0x5F;
   0x60; 0x61; 0x62; 0x63; 0x64; 0x65; 0x66; 0x67; 0x68; 0x69; 0x6A; 0x6B; 0x6C; 0x6D; 0x6E; 0x6F;
   0x70; 0x71; 0x72; 0x73; 0x74; 0x75; 0x76; 0x77; 0x78; 0x79; 0x7A; 0x7B; 0x7C; 0x7D; 0x7E; 0x7F;
   0x80; 0x81; 0x82; 0x83; 0x84; 0x85; 0x86; 0x87; 0x88; 0x89; 0x8A; 0x8B; 0x8C; 0x8D; 0x8E; 0x8F;
   0x90; 0x91; 0x92; 0x93; 0x94; 0x95; 0x96; 0x97; 0x98; 0x99; 0x9A; 0x9B; 0x9C; 0x9D; 0x9E; 0x9F;
   0xA0; 0xA1; 0xA2; 0xA3; 0xA4; 0xA5; 0xA6; 0xA7; 0xA8; 0xA9; 0xAA; 0xAB; 0xAC; 0xAD; 0xAE; 0xAF;
   0xB0; 0xB1; 0xB2; 0xB3; 0xB4; 0xB5; 0xB6; 0xB7; 0xB8; 0xB9; 0xBA; 0xBB; 0xBC; 0xBD; 0xBE; 0xBF;
   0xC0; 0xC1; 0xC2; 0xC3; 0xC4; 0xC5; 0xC6; 0xC7; 0xC8; 0xC9; 0xCA; 0xCB; 0xCC; 0xCD; 0xCE; 0xCF;
   0xD0; 0xD1; 0xD2; 0xD3; 0xD4; 0xD5; 0xD6; 0xD7; 0xD8; 0xD9; 0xDA; 0xDB; 0xDC; 0xDD; 0xDE; 0xDF;
   0xE0; 0xE1; 0xE2; 0xE3; 0xE4; 0xE5; 0xE6; 0xE7; 0xE8; 0xE9; 0xEA; 0xEB; 0xEC; 0xED; 0xEE; 0xEF;
   0xF0; 0xF1; 0xF2; 0xF3; 0xF4; 0xF5; 0xF6; 0xF7; 0xF8; 0xF9; 0xFA; 0xFB; 0xFC; 0xFD; 0xFE; 0xFF].

(*@ impl/to_lower_lut.hpp 37-53 to_lower_case *)
Definition to_lower_case (ch : Z) : Z := nth (Z.to_nat ch) to_lower_lut 0.

(** The loop over the first [size] characters. *)
(*@ impl/string_caseless_compare.hpp 38-54 is_equal_caseless *)
Definition is_equal_caseless_n (a b : bytes) (size : nat) : bool :=
  forallb (fun i => to_lower_case (nth i a 0) =? to_lower_case (nth i b 0)) (seq 0 size).

(*@ impl/string_caseless_compare.hpp 60-85 is_equal_caseless *)
Definition is_equal_caseless (a b : bytes) : bool :=
  if (length a =? length b)%nat then is_equal_caseless_n a b (length a) else false.

(** ** The table of fields *)

(*@ http_headers.hpp 34-219 RESTINIO_HTTP_FIELDS_MAP *)
Definition fields_map : list (string * string) :=
  [
   ("a_im", "A-IM"); ("accept", "Accept"); ("accept_additions", "Accept-Additions");
   ("accept_charset", "Accept-Charset"); ("accept_datetime", "Accept-Datetime"); ("accept_encoding",
   "Accept-Encoding"); ("accept_features", "Accept-Features"); ("accept_language",
   "Accept-Language"); ("accept_patch", "Accept-Patch"); ("accept_post", "Accept-Post");
   ("accept_ranges", "Accept-Ranges"); ("age", "Age"); ("allow", "Allow"); ("alpn", "ALPN");
   ("alt_svc", "Alt-Svc"); ("alt_used", "Alt-Used"); ("alternates", "Alternates");
   ("apply_to_redirect_ref", "Apply-To-Redirect-Ref"); ("authentication_control",
   "Authentication-Control"); ("authentication_info", "Authentication-Info"); ("authorization",
   "Authorization"); ("c_ext", "C-Ext"); ("c_man", "C-Man"); ("c_opt", "C-Opt"); ("c_pep", "C-PEP");
   ("c_pep_info", "C-PEP-Info"); ("cache_control", "Cache-Control"); ("caldav_timezones",
   "CalDAV-Timezones"); ("close", "Close"); ("content_base", "Content-Base");
   ("content_disposition", "Content-Disposition"); ("content_encoding", "Content-Encoding");
   ("content_id", "Content-ID"); ("content_language", "Content-Language"); ("content_location",
   "Content-Location"); ("content_md5", "Content-MD5"); ("content_range", "Content-Range");
   ("content_script_type", "Content-Script-Type"); ("content_style_type", "Content-Style-Type");
   ("content_type", "Content-Type"); ("content_version", "Content-Version"); ("cookie", "Cookie");
   ("cookie2", "Cookie2"); ("dasl", "DASL"); ("dav", "DAV"); ("date", "Date"); ("default_style",
   "Default-Style"); ("delta_base", "Delta-Base"); ("depth", "Depth"); ("derived_from",
   "Derived-From"); ("destination", "Destination"); ("differential_id", "Differential-ID");
   ("digest", "Digest"); ("etag", "ETag"); ("expect", "Expect"); ("expires", "Expires"); ("ext",
   "Ext"); ("forwarded", "Forwarded"); ("from", "From"); ("getprofile", "GetProfile"); ("hobareg",
   "Hobareg"); ("host", "Host"); ("http2_settings", "HTTP2-Settings"); ("im", "IM"); ("if_", "If");
   ("if_match", "If-Match"); ("if_modified_since", "If-Modified-Since"); ("if_none_match",
   "If-None-Match"); ("if_range", "If-Range"); ("if_schedule_tag_match", "If-Schedule-Tag-Match");
   ("if_unmodified_since", "If-Unmodified-Since"); ("keep_alive", "Keep-Alive"); ("label", "Label");
   ("last_modified", "Last-Modified"); ("link", "Link"); ("location", "Location"); ("lock_token",
   "Lock-Token"); ("man", "Man"); ("max_forwards", "Max-Forwards"); ("memento_datetime",
   "Memento-Datetime"); ("meter", "Meter"); ("mime_version", "MIME-Version"); ("negotiate",
   "Negotiate"); ("opt", "Opt"); ("optional_www_authenticate", "Optional-WWW-Authenticate");
   ("ordering_type", "Ordering-Type"); ("origin", "Origin"); ("overwrite", "Overwrite"); ("p3p",
   "P3P"); ("pep", "PEP"); ("pics_label", "PICS-Label"); ("pep_info", "Pep-Info"); ("position",
   "Position"); ("pragma", "Pragma"); ("prefer", "Prefer"); ("preference_applied",
   "Preference-Applied"); ("profileobject", "ProfileObject"); ("protocol", "Protocol");
   ("protocol_info", "Protocol-Info"); ("protocol_query", "Protocol-Query"); ("protocol_request",
   "Protocol-Request"); ("proxy_authenticate", "Proxy-Authenticate"); ("proxy_authentication_info",
   "Proxy-Authentication-Info"); ("proxy_authorization", "Proxy-Authorization"); ("proxy_features",
   "Proxy-Features"); ("proxy_instruction", "Proxy-Instruction"); ("public_", "Public");
   ("public_key_pins", "Public-Key-Pins"); ("public_key_pins_report_only",
   "Public-Key-Pins-Report-Only"); ("range", "Range"); ("redirect_ref", "Redirect-Ref"); ("referer",
   "Referer"); ("retry_after", "Retry-After"); ("safe", "Safe"); ("schedule_reply",
   "Schedule-Reply"); ("schedule_tag", "Schedule-Tag"); ("sec_websocket_accept",
   "Sec-WebSocket-Accept"); ("sec_websocket_extensions", "Sec-WebSocket-Extensions");
   ("sec_websocket_key", "Sec-WebSocket-Key"); ("sec_websocket_protocol", "Sec-WebSocket-Protocol");
   ("sec_websocket_version", "Sec-WebSocket-Version"); ("security_scheme", "Security-Scheme");
   ("server", "Server"); ("set_cookie", "Set-Cookie"); ("set_cookie2", "Set-Cookie2");
   ("setprofile", "SetProfile"); ("slug", "SLUG"); ("soapaction", "SoapAction"); ("status_uri",
   "Status-URI"); ("strict_transport_security", "Strict-Transport-Security");
   ("surrogate_capability", "Surrogate-Capability"); ("surrogate_control", "Surrogate-Control");
   ("tcn", "TCN"); ("te", "TE"); ("timeout", "Timeout"); ("topic", "Topic"); ("trailer", "Trailer");
   ("transfer_encoding", "Transfer-Encoding"); ("ttl", "TTL"); ("urgency", "Urgency"); ("uri",
   "URI"); ("upgrade", "Upgrade"); ("user_agent", "User-Agent"); ("variant_vary", "Variant-Vary");
   ("vary", "Vary"); ("via", "Via"); ("www_authenticate", "WWW-Authenticate"); ("want_digest",
   "Want-Digest"); ("warning", "Warning"); ("x_frame_options", "X-Frame-Options");
   ("access_control", "Access-Control"); ("access_control_allow_credentials",
   "Access-Control-Allow-Credentials"); ("access_control_allow_headers",
   "Access-Control-Allow-Headers"); ("access_control_allow_methods",
   "Access-Control-Allow-Methods"); ("access_control_allow_origin", "Access-Control-Allow-Origin");
   ("access_control_max_age", "Access-Control-Max-Age"); ("access_control_request_method",
   "Access-Control-Request-Method"); ("access_control_request_headers",
   "Access-Control-Request-Headers"); ("compliance", "Compliance"); ("content_transfer_encoding",
   "Content-Transfer-Encoding"); ("cost", "Cost"); ("ediint_features", "EDIINT-Features");
   ("message_id", "Message-ID"); ("method_check", "Method-Check"); ("method_check_expires",
   "Method-Check-Expires"); ("non_compliance", "Non-Compliance"); ("optional", "Optional");
   ("referer_root", "Referer-Root"); ("resolution_hint", "Resolution-Hint"); ("resolver_location",
   "Resolver-Location"); ("subok", "SubOK"); ("subst", "Subst"); ("title", "Title"); ("ua_color",
   "UA-Color"); ("ua_media", "UA-Media"); ("ua_pixels", "UA-Pixels"); ("ua_resolution",
   "UA-Resolution"); ("ua_windowpixels", "UA-Windowpixels"); ("version", "Version");
   ("x_device_accept", "X-Device-Accept"); ("x_device_accept_charset", "X-Device-Accept-Charset");
   ("x_device_accept_encoding", "X-Device-Accept-Encoding"); ("x_device_accept_language",
   "X-Device-Accept-Language"); ("x_device_user_agent", "X-Device-User-Agent")]%string.

Abbreviation http_field_t := Z.

(*@ http_headers.hpp 232-239 http_field_t *)
Definition field_unspecified : http_field_t := Z.of_nat (length fields_map).

(** The number of a constant of the enumeration. *)
Definition field_id (name : string) : http_field_t :=
  match list_find (fun e => fst e = name) fields_map with
  | Some (i, _) => Z.of_nat i
  | None => field_unspecified
  end.

(** The candidates of [string_to_field], by the size of the name. *)
(*@ http_headers.hpp 262-408 string_to_field *)
Definition field_candidates_short : list (Z * list (string * string)) :=
  [
   (2, [
     ("if_", "If"); ("im", "IM"); ("te", "TE")]);
   (3, [
     ("age", "Age"); ("dav", "DAV"); ("ext", "Ext"); ("man", "Man"); ("opt", "Opt"); ("p3p", "P3P");
     ("pep", "PEP"); ("tcn", "TCN"); ("ttl", "TTL"); ("uri", "URI"); ("via", "Via")]);
   (4, [
     ("host", "Host"); ("a_im", "A-IM"); ("alpn", "ALPN"); ("dasl", "DASL"); ("date", "Date");
     ("etag", "ETag"); ("from", "From"); ("link", "Link"); ("safe", "Safe"); ("slug", "SLUG");
     ("vary", "Vary"); ("cost", "Cost")]);
   (5, [
     ("allow", "Allow"); ("c_ext", "C-Ext"); ("c_man", "C-Man"); ("c_opt", "C-Opt"); ("c_pep",
     "C-PEP"); ("close", "Close"); ("depth", "Depth"); ("label", "Label"); ("meter", "Meter");
     ("range", "Range"); ("topic", "Topic"); ("subok", "SubOK"); ("subst", "Subst"); ("title",
     "Title")]);
   (6, [
     ("accept", "Accept"); ("cookie", "Cookie"); ("server", "Server"); ("digest", "Digest");
     ("expect", "Expect"); ("origin", "Origin"); ("pragma", "Pragma"); ("prefer", "Prefer");
     ("public_", "Public")]);
   (7, [
     ("alt_svc", "Alt-Svc"); ("cookie2", "Cookie2"); ("expires", "Expires"); ("hobareg", "Hobareg");
     ("referer", "Referer"); ("timeout", "Timeout"); ("trailer", "Trailer"); ("urgency", "Urgency");
     ("upgrade", "Upgrade"); ("warning", "Warning"); ("version", "Version")]);
   (8, [
     ("alt_used", "Alt-Used"); ("if_match", "If-Match"); ("if_range", "If-Range"); ("location",
     "Location"); ("pep_info", "Pep-Info"); ("position", "Position"); ("protocol", "Protocol");
     ("optional", "Optional"); ("ua_color", "UA-Color"); ("ua_media", "UA-Media")]);
   (9, [
     ("forwarded", "Forwarded"); ("negotiate", "Negotiate"); ("overwrite", "Overwrite");
     ("ua_pixels", "UA-Pixels")]);
   (10, [
     ("alternates", "Alternates"); ("c_pep_info", "C-PEP-Info"); ("content_id", "Content-ID");
     ("delta_base", "Delta-Base"); ("getprofile", "GetProfile"); ("keep_alive", "Keep-Alive");
     ("lock_token", "Lock-Token"); ("pics_label", "PICS-Label"); ("set_cookie", "Set-Cookie");
     ("setprofile", "SetProfile"); ("soapaction", "SoapAction"); ("status_uri", "Status-URI");
     ("user_agent", "User-Agent"); ("compliance", "Compliance"); ("message_id", "Message-ID")]);
   (11, [
     ("accept_post", "Accept-Post"); ("content_md5", "Content-MD5"); ("destination", "Destination");
     ("retry_after", "Retry-After"); ("set_cookie2", "Set-Cookie2"); ("want_digest", "Want-Digest")]);
   (12, [
     ("content_type", "Content-Type"); ("accept_patch", "Accept-Patch"); ("content_base",
     "Content-Base"); ("derived_from", "Derived-From"); ("max_forwards", "Max-Forwards");
     ("mime_version", "MIME-Version"); ("schedule_tag", "Schedule-Tag"); ("redirect_ref",
     "Redirect-Ref"); ("variant_vary", "Variant-Vary"); ("method_check", "Method-Check");
     ("referer_root", "Referer-Root")])]%string.

(*@ http_headers.hpp 409-541 string_to_field *)
Definition field_candidates_long : list (Z * list (string * string)) :=
  [
   (13, [
     ("accept_ranges", "Accept-Ranges"); ("authorization", "Authorization"); ("cache_control",
     "Cache-Control"); ("content_range", "Content-Range"); ("default_style", "Default-Style");
     ("if_none_match", "If-None-Match"); ("last_modified", "Last-Modified"); ("ordering_type",
     "Ordering-Type"); ("profileobject", "ProfileObject"); ("protocol_info", "Protocol-Info");
     ("ua_resolution", "UA-Resolution")]);
   (14, [
     ("accept_charset", "Accept-Charset"); ("http2_settings", "HTTP2-Settings"); ("protocol_query",
     "Protocol-Query"); ("proxy_features", "Proxy-Features"); ("schedule_reply", "Schedule-Reply");
     ("non_compliance", "Non-Compliance"); ("access_control", "Access-Control")]);
   (15, [
     ("accept_encoding", "Accept-Encoding"); ("accept_features", "Accept-Features");
     ("accept_language", "Accept-Language"); ("accept_datetime", "Accept-Datetime");
     ("content_version", "Content-Version"); ("differential_id", "Differential-ID");
     ("public_key_pins", "Public-Key-Pins"); ("security_scheme", "Security-Scheme");
     ("x_frame_options", "X-Frame-Options"); ("x_device_accept", "X-Device-Accept");
     ("resolution_hint", "Resolution-Hint"); ("ediint_features", "EDIINT-Features");
     ("ua_windowpixels", "UA-Windowpixels")]);
   (16, [
     ("accept_additions", "Accept-Additions"); ("caldav_timezones", "CalDAV-Timezones");
     ("content_encoding", "Content-Encoding"); ("content_language", "Content-Language");
     ("content_location", "Content-Location"); ("memento_datetime", "Memento-Datetime");
     ("protocol_request", "Protocol-Request"); ("www_authenticate", "WWW-Authenticate")]);
   (17, [
     ("if_modified_since", "If-Modified-Since"); ("proxy_instruction", "Proxy-Instruction");
     ("sec_websocket_key", "Sec-WebSocket-Key"); ("surrogate_control", "Surrogate-Control");
     ("transfer_encoding", "Transfer-Encoding"); ("resolver_location", "Resolver-Location")]);
   (18, [
     ("content_style_type", "Content-Style-Type"); ("preference_applied", "Preference-Applied");
     ("proxy_authenticate", "Proxy-Authenticate")]);
   (19, [
     ("authentication_info", "Authentication-Info"); ("content_disposition", "Content-Disposition");
     ("content_script_type", "Content-Script-Type"); ("if_unmodified_since", "If-Unmodified-Since");
     ("proxy_authorization", "Proxy-Authorization"); ("x_device_user_agent", "X-Device-User-Agent")]);
   (20, [
     ("sec_websocket_accept", "Sec-WebSocket-Accept"); ("surrogate_capability",
     "Surrogate-Capability"); ("method_check_expires", "Method-Check-Expires")]);
   (21, [
     ("apply_to_redirect_ref", "Apply-To-Redirect-Ref"); ("if_schedule_tag_match",
     "If-Schedule-Tag-Match"); ("sec_websocket_version", "Sec-WebSocket-Version")]);
   (22, [
     ("authentication_control", "Authentication-Control"); ("sec_websocket_protocol",
     "Sec-WebSocket-Protocol"); ("access_control_max_age", "Access-Control-Max-Age")]);
   (23, [
     ("x_device_accept_charset", "X-Device-Accept-Charset")]);
   (24, [
     ("sec_websocket_extensions", "Sec-WebSocket-Extensions"); ("x_device_accept_encoding",
     "X-Device-Accept-Encoding"); ("x_device_accept_language", "X-Device-Accept-Language")]);
   (25, [
     ("optional_www_authenticate", "Optional-WWW-Authenticate"); ("proxy_authentication_info",
     "Proxy-Authentication-Info"); ("strict_transport_security", "Strict-Transport-Security");
     ("content_transfer_encoding", "Content-Transfer-Encoding")]);
   (27, [
     ("public_key_pins_report_only", "Public-Key-Pins-Report-Only"); ("access_control_allow_origin",
     "Access-Control-Allow-Origin")]);
   (28, [
     ("access_control_allow_headers", "Access-Control-Allow-Headers");
     ("access_control_allow_methods", "Access-Control-Allow-Methods")]);
   (29, [
     ("access_control_request_method", "Access-Control-Request-Method")]);
   (30, [
     ("access_control_request_headers", "Access-Control-Request-Headers")]);
   (32, [
     ("access_control_allow_credentials", "Access-Control-Allow-Credentials")])]%string.

Definition field_candidates : list (Z * list (string * string)) := field_candidates_short ++ field_candidates_long.

(*@ http_headers.hpp 248-262 string_to_field *)
Definition string_to_field (field : bytes) : http_field_t :=
  match List.find (fun c => fst c =? Z.of_nat (length field)) field_candidates with
  | Some (_, candidates) =>
      match List.find (fun c => is_equal_caseless_n field (str (snd c)) (length field)) candidates with
      | Some (name, _) => field_id name
      | None => field_unspecified
      end
  | None => field_unspecified
  end.

(*@ http_headers.hpp 551-568 field_to_string *)
Definition field_to_string (f : http_field_t) : bytes :=
  if f <? 0 then [] else
  match fields_map !! Z.to_nat f with
  | Some (_, name) => str name
  | None => []
  end.

(** ** A field and the container of fields *)

(*@ http_headers.hpp 651-655 http_header_field_t *)
Record http_header_field_t : Type := mk_field {
  m_name : bytes;
  m_value : bytes;
  m_field_id : http_field_t }.

(*@ http_headers.hpp 589-603 http_header_field_t::http_header_field_t *)
Definition field_of_name (name value : bytes) : http_header_field_t :=
  {| m_name := name; m_value := value; m_field_id := string_to_field name |}.

(*@ http_headers.hpp 605-619 http_header_field_t::http_header_field_t *)
Definition field_of_id (id : http_field_t) (value : bytes) : http_header_field_t :=
  {| m_name := field_to_string id; m_value := value; m_field_id := id |}.

(*@ http_headers.hpp 625-630 http_header_field_t::name *)
Definition set_name (f : http_header_field_t) (n : bytes) : http_header_field_t :=
  {| m_name := n; m_value := m_value f; m_field_id := string_to_field n |}.

(*@ http_headers.hpp 632-636 http_header_field_t::value *)
Definition set_value (f : http_header_field_t) (v : bytes) : http_header_field_t :=
  {| m_name := m_name f; m_value := v; m_field_id := m_field_id f |}.

(*@ http_headers.hpp 638-642 http_header_field_t::append_value *)
Definition append_value (f : http_header_field_t) (v : bytes) : http_header_field_t :=
  {| m_name := m_name f; m_value := m_value f ++ v; m_field_id := m_field_id f |}.

(*@ http_headers.hpp 644-649 http_header_field_t::field_id *)
Definition set_field_id (f : http_header_field_t) (id : http_field_t) : http_header_field_t :=
  {| m_name := field_to_string id; m_value := m_value f; m_field_id := id |}.

Abbreviation http_header_fields_t := (list http_header_field_t).

(** The key of an access: a name or an id. *)
Inductive field_key : Type :=
| ByName (field_name : bytes)
| ById (id : http_field_t).

Definition key_matches (k : field_key) (f : http_header_field_t) : bool :=
  match k with
  | ByName n => is_equal_caseless (m_name f) n
  | ById id => m_field_id f =? id
  end.

(** Accesses by [field_unspecified] do nothing. *)
Definition key_usable (k : field_key) : bool :=
  match k with ByName _ => true | ById id => negb (field_unspecified =? id) end.

Module Fields.

(** The position of the first match, [None] for the end iterator. *)
(*@ http_headers.hpp 1514-1556 http_header_fields_t::find *)
Fixpoint find (k : field_key) (fields : http_header_fields_t) : option nat :=
  match fields with
  | [] => None
  | f :: rest => if key_matches k f then Some 0%nat else S <$> find k rest
  end.

(*@ http_headers.hpp 746-750 http_header_fields_t::swap_fields *)
Definition swap_fields (fields other : http_header_fields_t) : http_header_fields_t * http_header_fields_t := (other, fields).

(*@ http_headers.hpp 752-769 http_header_fields_t::has_field *)
Definition has_field (fields : http_header_fields_t) (k : field_key) : bool :=
  bool_decide (is_Some (find k fields)).

(** Replaces the field at a position, or appends one. *)
Definition update_or_add (fields : http_header_fields_t) (it : option nat)
    (upd : http_header_field_t -> http_header_field_t) (new : http_header_field_t)
    : http_header_fields_t :=
  match it with
  | Some i => alter upd i fields
  | None => fields ++ [new]
  end.

(*@ http_headers.hpp 771-797 http_header_fields_t::set_field *)
Definition set_field_object (fields : http_header_fields_t) (f : http_header_field_t)
    : http_header_fields_t :=
  let it :=
    if negb (field_unspecified =? m_field_id f) then find (ById (m_field_id f)) fields
    else find (ByName (m_name f)) fields in
  update_or_add fields it (fun _ => f) f.

(*@ http_headers.hpp 799-845 http_header_fields_t::set_field *)
Definition set_field (fields : http_header_fields_t) (k : field_key) (value : bytes)
    : http_header_fields_t :=
  match k with
  | ByName name =>
      update_or_add fields (find (ByName name) fields)
        (fun f => set_value (set_name f name) value) (field_of_name name value)
  | ById id =>
      if negb (field_unspecified =? id) then
        update_or_add fields (find (ById id) fields)
          (fun f => set_value f value) (field_of_id id value)
      else fields
  end.

(*@ http_headers.hpp 859-904 http_header_fields_t::add_field *)
Definition add_field (fields : http_header_fields_t) (k : field_key) (value : bytes)
    : http_header_fields_t :=
  match k with
  | ByName name => fields ++ [field_of_name name value]
  | ById id => if negb (field_unspecified =? id) then fields ++ [field_of_id id value] else fields
  end.

(*@ http_headers.hpp 906-947 http_header_fields_t::append_field *)
Definition append_field (fields : http_header_fields_t) (k : field_key) (value : bytes)
    : http_header_fields_t :=
  match k with
  | ByName name =>
      update_or_add fields (find (ByName name) fields)
        (fun f => append_value f value) (field_of_name name value)
  | ById id =>
      if negb (field_unspecified =? id) then
        update_or_add fields (find (ById id) fields)
          (fun f => append_value f value) (field_of_id id value)
      else fields
  end.

(*@ http_headers.hpp 974-1031 http_header_fields_t::try_get_field *)
Definition try_get_field (fields : http_header_fields_t) (k : field_key) : option bytes :=
  if key_usable k then
    match find k fields with
    | Some i => m_value <$> fields !! i
    | None => None
    end
  else None.

Inductive fields_error : Type :=
| unspecified_by_id
| field_does_not_exist (name : bytes).

(*@ http_headers.hpp 949-1006 http_header_fields_t::get_field *)
Definition get_field (fields : http_header_fields_t) (k : field_key) : result fields_error bytes :=
  match k with
  | ById id =>
      if field_unspecified =? id then Err unspecified_by_id
      else of_option (field_does_not_exist (field_to_string id)) (try_get_field fields (ById id))
  | ByName name => of_option (field_does_not_exist name) (try_get_field fields (ByName name))
  end.

(*@ http_headers.hpp 1039-1115 http_header_fields_t::get_field_or *)
Definition get_field_or (fields : http_header_fields_t) (k : field_key) (default_value : bytes)
    : bytes :=
  match k with
  | ByName name =>
      match find (ByName name) fields with
      | Some i => default default_value (m_value <$> fields !! i)
      | None => default_value
      end
  | ById id =>
      if negb (field_unspecified =? id) then
        match find (ById id) fields with
        | Some i => default default_value (m_value <$> fields !! i)
        | None => default_value
        end
      else default_value
  end.

(** The view of the value that [get_field] returns. *)
(*@ http_headers.hpp 1269-1286 http_header_fields_t::value_of *)
Definition value_of (fields : http_header_fields_t) (k : field_key) : result fields_error bytes :=
  get_field fields k.

(*@ http_headers.hpp 1299-1335 http_header_fields_t::opt_value_of *)
Definition opt_value_of (fields : http_header_fields_t) (k : field_key) : option bytes :=
  match try_get_field fields k with
  | Some ptr => Some ptr
  | None => None
  end.

(*@ http_headers.hpp 1173-1212 http_header_fields_t::remove_field *)
Definition remove_field (fields : http_header_fields_t) (k : field_key)
    : bool * http_header_fields_t :=
  if key_usable k then
    match find k fields with
    | Some i => (true, delete i fields)
    | None => (false, fields)
    end
  else (false, fields).

(** The loop with an iterator: erase and count, or move on. *)
(*@ http_headers.hpp 1224-1233 http_header_fields_t::remove_all_of *)
Fixpoint remove_all_loop (fuel : nat) (k : field_key) (it : nat) (fields : http_header_fields_t)
    (count : nat) : nat * http_header_fields_t :=
  match fuel with
  | O => (count, fields)
  | S fuel' =>
      match fields !! it with
      | None => (count, fields)
      | Some f =>
          if key_matches k f then remove_all_loop fuel' k it (delete it fields) (count + 1)
          else remove_all_loop fuel' k (it + 1) fields count
      end
  end.

(*@ http_headers.hpp 1220-1263 http_header_fields_t::remove_all_of *)
Definition remove_all_of (fields : http_header_fields_t) (k : field_key)
    : nat * http_header_fields_t :=
  if key_usable k then remove_all_loop (length fields) k 0 fields 0 else (0%nat, fields).

(** What a [for_each_value_of] lambda answers. *)
(*@ http_headers.hpp 720-733 http_header_fields_t::handling_result_t *)
Inductive handling_result_t : Type := continue_enumeration | stop_enumeration.

(** The loop, with the state [S] a lambda works on. *)
(*@ http_headers.hpp 1399-1479 http_header_fields_t::for_each_value_of *)
Fixpoint for_each_value_of {S} (fields : http_header_fields_t) (k : field_key)
    (lambda : S -> bytes -> S * handling_result_t) (s : S) : S :=
  match fields with
  | [] => s
  | f :: rest =>
      if key_matches k f then
        match lambda s (m_value f) with
        | (s, stop_enumeration) => s
        | (s, continue_enumeration) => for_each_value_of rest k lambda s
        end
      else for_each_value_of rest k lambda s
  end.

(*@ http_headers.hpp 1359-1367 http_header_fields_t::for_each_field *)
Fixpoint for_each_field {S} (fields : http_header_fields_t) (lambda : S -> http_header_field_t -> S) (s : S) : S :=
  match fields with
  | [] => s
  | f :: rest => for_each_field rest lambda (lambda s f)
  end.

(*@ http_headers.hpp 1493-1496 http_header_fields_t::fields_count *)
Definition fields_count (fields : http_header_fields_t) : nat := length fields.

(** Undefined on an empty container. *)
(*@ http_headers.hpp 1508-1512 http_header_fields_t::append_last_field *)
Definition append_last_field (fields : http_header_fields_t) (value : bytes)
    : option http_header_fields_t :=
  match last fields with
  | Some f => Some (removelast fields ++ [append_value f value])
  | None => None
  end.

End Fields.

(** ** The request target *)

Module Target.

(*@ http_headers.hpp 1981-1985 http_request_header_t *)
Record t : Type := mk {
  m_request_target : bytes;
  m_query_separator_pos : nat;
  m_fragment_separator_pos : nat }.

Definition create : t :=
  {| m_request_target := []; m_query_separator_pos := 0; m_fragment_separator_pos := 0 |}.

(** The position of [chr], or the size. *)
(*@ http_headers.hpp 1860-1867 http_request_header_t::memchr_helper *)
Fixpoint memchr_helper (chr : Z) (from : bytes) : nat :=
  match from with
  | [] => 0
  | c :: rest => if c =? chr then 0 else S (memchr_helper chr rest)
  end.

(*@ http_headers.hpp 1892-1902 http_request_header_t::request_target *)
Definition request_target (target : bytes) : t :=
  let fragment := memchr_helper (chr "#") target in
  {| m_request_target := target;
     m_query_separator_pos := memchr_helper (chr "?") (take fragment target);
     m_fragment_separator_pos := fragment |}.

(*@ http_headers.hpp 1912-1916 http_request_header_t::path *)
Definition path (h : t) : bytes := take (m_query_separator_pos h) (m_request_target h).

(*@ http_headers.hpp 1923-1932 http_request_header_t::query *)
Definition query (h : t) : bytes :=
  if (m_fragment_separator_pos h =? m_query_separator_pos h)%nat then []
  else take (m_fragment_separator_pos h - m_query_separator_pos h - 1)
            (drop (m_query_separator_pos h + 1) (m_request_target h)).

(*@ http_headers.hpp 1940-1949 http_request_header_t::fragment *)
Definition fragment (h : t) : bytes :=
  if (length (m_request_target h) =? m_fragment_separator_pos h)%nat then []
  else take (length (m_request_target h) - m_fragment_separator_pos h - 1)
            (drop (m_fragment_separator_pos h + 1) (m_request_target h)).

(*@ http_headers.hpp 1952-1978 http_request_header_t::append_request_target *)
Definition append_request_target (h : t) (at_ : bytes) : t :=
  let size := length (m_request_target h) in
  let '(query_pos, fragment_pos) :=
    if (size =? m_fragment_separator_pos h)%nat then
      let inc := memchr_helper (chr "#") at_ in
      ((if (size =? m_query_separator_pos h)%nat
        then (m_query_separator_pos h + memchr_helper (chr "?") (take inc at_))%nat
        else m_query_separator_pos h),
       (m_fragment_separator_pos h + inc)%nat)
    else (m_query_separator_pos h, m_fragment_separator_pos h) in
  {| m_request_target := m_request_target h ++ at_;
     m_query_separator_pos := query_pos; m_fragment_separator_pos := fragment_pos |}.

End Target.

(** ** Status codes and the text of a response header *)

(** The comparisons of [http_status_code_t], on the 16-bit codes. *)
(*@ http_headers.hpp 2008-2024 http_status_code_t::operator== *)
Definition status_code_eq (this sc : Z) : bool := this =? sc.
Definition status_code_ne (this sc : Z) : bool := negb (sc =? sc).
Definition status_code_lt (this sc : Z) : bool := sc <? sc.

(*@ http_headers.hpp 1566-1571 http_connection_header_t *)
Inductive http_connection_header_t : Type := keep_alive | close | upgrade.

(*@ http_headers.hpp 2336-2377 http_response_header_t *)
Record http_response_header_t : Type := mk_response_header {
  m_fields : http_header_fields_t;
  m_http_major : Z;
  m_http_minor : Z;
  m_content_length : Z;
  m_connection : http_connection_header_t;
  m_status_code : Z;
  m_reason_phrase : bytes }.

(*@ impl/header_helpers.hpp 33-37 content_length_field_presence_t *)
Inductive content_length_field_presence_t : Type := add_content_length | skip_content_length.

Definition CRLF : bytes := [13; 10].

(*@ impl/header_helpers.hpp 43-60 calculate_approx_buffer_size_for_header *)
Definition calculate_approx_buffer_size_for_header (h : http_response_header_t) : Z :=
  let result := 13 in
  let result := result + (Z.of_nat (length (m_reason_phrase h)) + 2) in
  let result := result + 26 in
  let result := result + (20 + 18) in
  let result := result + 2 in
  foldl (fun result f =>
           result + (Z.of_nat (length (m_name f)) + 2 + Z.of_nat (length (m_value f)) + 2))
        result (m_fields h).

(** [printf]'s [%llu]. *)
Fixpoint print_llu_loop (fuel : nat) (n : Z) : bytes :=
  match fuel with
  | O => []
  | S fuel' =>
      if n <? 10 then [48 + n] else print_llu_loop fuel' (n / 10) ++ [48 + n mod 10]
  end.

Definition print_llu (n : Z) : bytes := print_llu_loop 20 n.

Definition connection_line (c : http_connection_header_t) : bytes :=
  match c with
  | keep_alive => str "Connection: keep-alive" ++ CRLF
  | close => str "Connection: close" ++ CRLF
  | upgrade => str "Connection: Upgrade" ++ CRLF
  end.

(** A digit is added to the [char] ['0'] and cut to eight bits. *)
(*@ impl/header_helpers.hpp 66-153 create_header_string *)
Definition create_header_string (h : http_response_header_t)
    (presence : content_length_field_presence_t) : bytes :=
  let result := str "HTTP/" in
  let result := result ++ [wrap 8 (chr "0" + m_http_major h)] in
  let result := result ++ str "." in
  let result := result ++ [wrap 8 (chr "0" + m_http_minor h)] in
  let result := result ++ str " " in
  let sc := m_status_code h in
  let result := result ++ [chr "0" + (sc / 100) mod 10] in
  let result := result ++ [chr "0" + (sc / 10) mod 10] in
  let result := result ++ [chr "0" + sc mod 10] in
  let result := result ++ str " " in
  let result := result ++ m_reason_phrase h in
  let result := result ++ CRLF in
  let result := result ++ connection_line (m_connection h) in
  let result :=
    match presence with
    | add_content_length =>
        result ++ str "Content-Length: " ++ print_llu (m_content_length h) ++ CRLF
    | skip_content_length => result
    end in
  let result :=
    foldl (fun result f => result ++ m_name f ++ str ": " ++ m_value f ++ CRLF)
          result (m_fields h) in
  result ++ CRLF.

(*@ impl/header_helpers.hpp 155-167 create_not_implemented_resp *)
Definition create_not_implemented_resp : bytes :=
  str "HTTP/1.1 501 Not Implemented" ++ CRLF ++ str "Connection: close" ++ CRLF ++
  str "Content-Length: 0" ++ CRLF ++ CRLF.

(*@ impl/header_helpers.hpp 169-181 create_timeout_resp *)
Definition create_timeout_resp : bytes :=
  str "HTTP/1.1 504 Gateway Time-out" ++ CRLF ++ str "Connection: close" ++ CRLF ++
  str "Content-Length: 0" ++ CRLF ++ CRLF.

(** ** Caseless names *)

Definition lower (s : bytes) : bytes := to_lower_case <$> s.

(** Names that differ in case only. *)
Definition caseless : relation bytes := fun a b => lower a = lower b.

#[global] Instance caseless_equivalence : Equivalence caseless.
Proof.
  unfold caseless. split.
  - by intros x.
  - by intros x y.
  - intros x y z. congruence.
Qed.

#[global] Instance caseless_dec a b : Decision (caseless a b).
Proof. unfold caseless. apply _. Defined.

Lemma caseless_length a b : caseless a b -> length a = length b.
Proof. intros H. apply (f_equal length) in H. unfold lower in H. by rewrite !length_fmap in H. Qed.

Lemma is_equal_caseless_n_spec a b :
  length a = length b -> is_equal_caseless_n a b (length a) = bool_decide (caseless a b).
Proof.
  intros Hl. apply eq_bool_prop_intro. rewrite bool_decide_spec, Is_true_true.
  unfold is_equal_caseless_n. rewrite forallb_forall. split.
  - intros H. unfold caseless, lower. apply (list_eq_same_length _ _ (length a)).
    { by rewrite length_fmap. } { by rewrite length_fmap. }
    intros i x y Hi Hx Hy.
    apply list_lookup_fmap_Some in Hx as (x' & -> & Hx). apply list_lookup_fmap_Some in Hy as (y' & -> & Hy).
    specialize (H i). rewrite in_seq in H. specialize (H ltac:(lia)). rewrite Z.eqb_eq in H.
    by rewrite (nth_lookup_Some _ _ _ _ Hx), (nth_lookup_Some _ _ _ _ Hy) in H.
  - intros H i Hi. apply in_seq in Hi. rewrite Z.eqb_eq.
    destruct (lookup_lt_is_Some_2 a i) as [x Hx]; [lia|].
    destruct (lookup_lt_is_Some_2 b i) as [y Hy]; [lia|].
    rewrite (nth_lookup_Some _ _ _ _ Hx), (nth_lookup_Some _ _ _ _ Hy).
    assert (Hf : lower a !! i = lower b !! i) by (by rewrite (H : lower a = lower b)).
    unfold lower in Hf. rewrite !list_lookup_fmap, Hx, Hy in Hf. by injection Hf.
Qed.

Lemma is_equal_caseless_spec a b : is_equal_caseless a b = bool_decide (caseless a b).
Proof.
  unfold is_equal_caseless. destruct (Nat.eqb_spec (length a) (length b)) as [Hl|Hl].
  - by apply is_equal_caseless_n_spec.
  - rewrite bool_decide_false; [done|]. intros H. by apply Hl, caseless_length.
Qed.

#[global] Instance is_equal_caseless_proper : Proper (caseless ==> caseless ==> eq) is_equal_caseless.
Proof.
  intros a a' Ha b b' Hb. rewrite !is_equal_caseless_spec. apply bool_decide_ext.
  by rewrite Ha, Hb.
Qed.

(** ** The table of fields is exact *)

Lemma forallb_ext_in {A} (f g : A -> bool) l :
  (forall x, In x l -> f x = g x) -> forallb f l = forallb g l.
Proof.
  induction l as [|x l IH]; intros H; cbn; [done|].
  rewrite H by (by left). f_equal. apply IH. intros y Hy. apply H. by right.
Qed.

Lemma find_ext_fun {A} (f g : A -> bool) l :
  (forall x, f x = g x) -> List.find f l = List.find g l.
Proof. intros H. induction l as [|x l IH]; cbn; [done|]. by rewrite H, IH. Qed.

Lemma is_equal_caseless_n_proper a a' b :
  caseless a a' -> is_equal_caseless_n a b (length a) = is_equal_caseless_n a' b (length a').
Proof.
  intros H. rewrite <- (caseless_length _ _ H). unfold is_equal_caseless_n.
  apply forallb_ext_in. intros i Hi. f_equal.
  apply in_seq in Hi. pose proof (caseless_length _ _ H).
  destruct (lookup_lt_is_Some_2 a i) as [x Hx]; [lia|].
  destruct (lookup_lt_is_Some_2 a' i) as [y Hy]; [lia|].
  rewrite (nth_lookup_Some _ _ _ _ Hx), (nth_lookup_Some _ _ _ _ Hy).
  assert (Hf : lower a !! i = lower a' !! i) by (by rewrite (H : lower a = lower a')).
  unfold lower in Hf. rewrite !list_lookup_fmap, Hx, Hy in Hf. by injection Hf.
Qed.

#[global] Instance string_to_field_proper : Proper (caseless ==> eq) string_to_field.
Proof.
  intros a a' H. unfold string_to_field. rewrite <- (caseless_length _ _ H).
  destruct (List.find _ field_candidates) as [[n cs]|]; [|done].
  rewrite (find_ext_fun _ (fun c => is_equal_caseless_n a' (str c.2) (length a))); [done|].
  intros c. rewrite (is_equal_caseless_n_proper a a' _ H).
  by rewrite (caseless_length _ _ H).
Qed.

(** Every candidate of the switch stands under its size, and its constant is
    the one whose name it is. *)
Definition candidates_agree : bool :=
  forallb (fun g =>
    forallb (fun c =>
      (Z.of_nat (length (str (snd c))) =? fst g) &&
      (0 <=? field_id (fst c)) && (field_id (fst c) <? field_unspecified) &&
      bool_decide (field_to_string (field_id (fst c)) = str (snd c)))
    (snd g)) field_candidates.

Lemma candidates_agree_true : candidates_agree = true.
Proof. vm_compute. reflexivity. Qed.

Lemma string_to_field_own_name f :
  0 <= f < field_unspecified -> string_to_field (field_to_string f) = f.
Proof.
  intros Hf. apply Z.eqb_eq.
  assert (H : forallb (fun g => string_to_field (field_to_string g) =? g)
    (seqZ 0 field_unspecified) = true) by (vm_compute; reflexivity).
  rewrite forallb_forall in H. apply H. rewrite <- list_elem_of_In. apply elem_of_seqZ. lia.
Qed.

Lemma string_to_field_result s :
  string_to_field s = field_unspecified \/
  0 <= string_to_field s < field_unspecified /\
    caseless s (field_to_string (string_to_field s)).
Proof.
  unfold string_to_field.
  destruct (List.find _ field_candidates) as [[n cs]|] eqn:Eg; [|by left].
  apply find_some in Eg as [Hg Hn]. rewrite Z.eqb_eq in Hn. cbn [fst] in Hn.
  destruct (List.find _ cs) as [[name c]|] eqn:Ec; [|by left].
  apply find_some in Ec as [Hc He]. cbn [snd] in He. right.
  pose proof candidates_agree_true as Ha. unfold candidates_agree in Ha.
  rewrite forallb_forall in Ha. specialize (Ha _ Hg). rewrite forallb_forall in Ha.
  specialize (Ha _ Hc). cbn [fst snd] in Ha. rewrite !andb_true_iff in Ha.
  destruct Ha as [[[Hl H0] H1] Ht]. rewrite Z.eqb_eq in Hl. rewrite Z.leb_le in H0.
  rewrite Z.ltb_lt in H1. apply bool_decide_eq_true_1 in Ht.
  split; [done|]. rewrite Ht. rewrite is_equal_caseless_n_spec in He by lia.
  by apply bool_decide_eq_true_1 in He.
Qed.

Lemma string_to_field_iff s f :
  0 <= f < field_unspecified ->
  string_to_field s = f <-> caseless s (field_to_string f).
Proof.
  intros Hf. split.
  - intros <-. destruct (string_to_field_result s) as [He | [_ ?]]; [lia | done].
  - intros H. rewrite H. by apply string_to_field_own_name.
Qed.

(** [string_to_field] is exact: it answers the id of a known
    field exactly for the spellings of its name, without regard to case, and
    [field_unspecified] for every other string; ids and names are in
    one-to-one correspondence. *)
Theorem string_to_field_exact s :
  (forall f, 0 <= f < field_unspecified ->
     (string_to_field s = f <-> caseless s (field_to_string f)) /\
     string_to_field (field_to_string f) = f) /\
  (string_to_field s = field_unspecified <->
     forall f, 0 <= f < field_unspecified -> ~ caseless s (field_to_string f)).
Proof.
  split.
  - intros f Hf. split; [by apply string_to_field_iff | by apply string_to_field_own_name].
  - split.
    + intros He f Hf Hc. apply (string_to_field_iff s f) in Hc; [|done]. lia.
    + intros H. destruct (string_to_field_result s) as [? | [Hr Hc]]; [done|].
      by destruct (H _ Hr).
Qed.

(** ** The container as a map keyed by caseless names *)

(** Ids and names of the fields agree, as every constructor makes them. *)
Definition wf_field (f : http_header_field_t) : Prop := m_field_id f = string_to_field (m_name f).
Abbreviation wf_fields := (Forall wf_field).

Definition valid_key (k : field_key) : Prop :=
  match k with ByName _ => True | ById id => 0 <= id < field_unspecified end.

(** The name an access is about. *)
Definition key_name (k : field_key) : bytes :=
  match k with ByName n => n | ById id => field_to_string id end.

(** The value of the first field with that name. *)
Fixpoint lookup_name (fields : http_header_fields_t) (n : bytes) : option bytes :=
  match fields with
  | [] => None
  | f :: rest => if decide (caseless (m_name f) n) then Some (m_value f) else lookup_name rest n
  end.

#[global] Instance lookup_name_proper fields : Proper (caseless ==> eq) (lookup_name fields).
Proof.
  intros n n' Hn. induction fields as [|f fields IH]; cbn; [done|].
  destruct (decide (caseless (m_name f) n)) as [H|H], (decide (caseless (m_name f) n')) as [H'|H'];
    try done; exfalso.
  - apply H'. by rewrite <- Hn.
  - apply H. by rewrite Hn.
Qed.

Lemma wf_field_of_id id v : 0 <= id < field_unspecified -> wf_field (field_of_id id v).
Proof. intros H. unfold wf_field. cbn. by rewrite string_to_field_own_name. Qed.

Lemma valid_key_usable k : valid_key k -> key_usable k = true.
Proof. destruct k as [|id]; [done|]. cbn. intros H. rewrite negb_true_iff, Z.eqb_neq. lia. Qed.

Lemma key_matches_name k f :
  wf_field f -> valid_key k -> key_matches k f = bool_decide (caseless (m_name f) (key_name k)).
Proof.
  intros Hf Hk. destruct k as [n|id]; cbn [key_matches key_name].
  - apply is_equal_caseless_spec.
  - rewrite Hf. apply eq_bool_prop_intro. rewrite bool_decide_spec, Is_true_true, Z.eqb_eq.
    by apply string_to_field_iff.
Qed.

(** [find] answers the position of the first field with the name. *)
Lemma find_spec k fields :
  wf_fields fields -> valid_key k ->
  match Fields.find k fields with
  | Some i => exists pre f post, fields = pre ++ f :: post /\ length pre = i /\
      Forall (fun g => ~ caseless (m_name g) (key_name k)) pre /\ caseless (m_name f) (key_name k)
  | None => Forall (fun g => ~ caseless (m_name g) (key_name k)) fields
  end.
Proof.
  intros Hw Hk. induction fields as [|f fields IH]; cbn [Fields.find]; [constructor|].
  inversion_clear Hw as [|? ? Hf Hw']. specialize (IH Hw').
  rewrite key_matches_name by done. case_bool_decide as Hc.
  - exists [], f, fields. by repeat split.
  - destruct (Fields.find k fields) as [i|]; cbn.
    + destruct IH as (pre & g & post & -> & <- & Hp & Hg). exists (f :: pre), g, post.
      repeat split; try done. by constructor.
    + by constructor.
Qed.

Lemma lookup_name_app_none pre fields n :
  Forall (fun g => ~ caseless (m_name g) n) pre ->
  lookup_name (pre ++ fields) n = lookup_name fields n.
Proof. induction 1 as [|g pre Hg Hp IH]; cbn; [done|]. by rewrite decide_False. Qed.

Lemma lookup_name_none fields n :
  Forall (fun g => ~ caseless (m_name g) n) fields -> lookup_name fields n = None.
Proof. intros H. rewrite <- (app_nil_r fields). by rewrite lookup_name_app_none. Qed.

Lemma alter_middle {A} (upd : A -> A) pre x post :
  alter upd (length pre) (pre ++ x :: post) = pre ++ upd x :: post.
Proof. induction pre as [|y pre IH]; [done|]. cbn. by f_equal. Qed.

(** Replacing a field by one of the same name, or adding one, acts on that
    name only. *)
Lemma lookup_name_update fields i upd new pre f post n n' :
  fields = pre ++ f :: post -> length pre = i ->
  Forall (fun g => ~ caseless (m_name g) n) pre -> caseless (m_name f) n ->
  caseless (m_name (upd f)) n ->
  lookup_name (Fields.update_or_add fields (Some i) upd new) n' =
    if decide (caseless n n') then Some (m_value (upd f)) else lookup_name fields n'.
Proof.
  intros -> <- Hp Hf Hu. cbn [Fields.update_or_add].
  rewrite alter_middle. induction Hp as [|g pre Hg Hp IH]; cbn.
  - destruct (decide (caseless n n')) as [Hn|Hn].
    + rewrite decide_True; [done|]. by rewrite Hu, Hn.
    + rewrite decide_False by (intros H; apply Hn; by rewrite <- Hu).
      rewrite decide_False by (intros H; apply Hn; by rewrite <- Hf). done.
  - destruct (decide (caseless (m_name g) n')) as [Hg'|Hg'].
    + rewrite decide_False; [done|]. intros Hn. apply Hg. by rewrite Hn.
    + exact IH.
Qed.

Lemma lookup_name_add fields upd new n n' :
  Forall (fun g => ~ caseless (m_name g) n) fields -> caseless (m_name new) n ->
  lookup_name (Fields.update_or_add fields None upd new) n' =
    if decide (caseless n n') then Some (m_value new) else lookup_name fields n'.
Proof.
  intros Hp Hn. cbn [Fields.update_or_add].
  destruct (decide (caseless n n')) as [He|He].
  - rewrite lookup_name_app_none.
    + cbn. rewrite decide_True; [done|]. by rewrite Hn, He.
    + eapply Forall_impl; [exact Hp|]. intros g Hg Hc. apply Hg. by rewrite He.
  - induction Hp as [|g fields Hg Hp IH]; cbn.
    + rewrite decide_False; [done|]. intros H. apply He. by rewrite <- Hn, H.
    + by rewrite IH.
Qed.

Lemma try_get_field_lookup fields k :
  wf_fields fields -> valid_key k -> Fields.try_get_field fields k = lookup_name fields (key_name k).
Proof.
  intros Hw Hk. unfold Fields.try_get_field. rewrite valid_key_usable by done.
  pose proof (find_spec k fields Hw Hk) as Hs. destruct (Fields.find k fields) as [i|].
  - destruct Hs as (pre & f & post & -> & <- & Hp & Hf).
    rewrite list_lookup_middle by done. rewrite lookup_name_app_none by done.
    cbn. by rewrite decide_True.
  - symmetry. by apply lookup_name_none.
Qed.

Lemma remove_all_loop_spec k fuel : forall it fields count,
  (length fields <= it + fuel)%nat ->
  Fields.remove_all_loop fuel k it fields count =
    ((count + length (List.filter (key_matches k) (drop it fields)))%nat,
     take it fields ++ List.filter (fun f => negb (key_matches k f)) (drop it fields)).
Proof.
  induction fuel as [|fuel IH]; intros it fields count Hf; cbn [Fields.remove_all_loop].
  - rewrite drop_ge, take_ge by lia. cbn. by rewrite Nat.add_0_r, app_nil_r.
  - destruct (fields !! it) as [f|] eqn:E.
    + pose proof (lookup_lt_Some _ _ _ E). rewrite (drop_S _ _ _ E). cbn [List.filter].
      destruct (key_matches k f) eqn:Ek; cbn [negb length].
      * rewrite IH by (rewrite length_delete by done; lia).
        rewrite delete_take_drop. rewrite drop_app_le by (rewrite length_take; lia).
        rewrite (drop_ge (take it fields)) by (rewrite length_take; lia).
        rewrite take_app_le by (rewrite length_take; lia). rewrite take_take, Nat.min_id. cbn [app].
        f_equal. lia.
      * rewrite IH by lia. rewrite Nat.add_1_r, (take_S_r _ _ _ E), <- app_assoc. done.
    + apply lookup_ge_None_1 in E. rewrite drop_ge, take_ge by lia. cbn. by rewrite Nat.add_0_r, app_nil_r.
Qed.

Lemma filter_none fields k n' :
  wf_fields fields -> valid_key k ->
  lookup_name (List.filter (fun f => negb (key_matches k f)) fields) n' =
    if decide (caseless (key_name k) n') then None else lookup_name fields n'.
Proof.
  intros Hw Hk. induction Hw as [|f fields Hf Hw IH]; cbn; [by destruct (decide _)|].
  rewrite key_matches_name by done. case_bool_decide as Hc; cbn.
  - rewrite IH. destruct (decide (caseless (key_name k) n')) as [Hn|Hn]; [done|].
    rewrite decide_False; [done|]. intros H. apply Hn. by rewrite <- Hc.
  - rewrite IH. destruct (decide (caseless (key_name k) n')) as [Hn|Hn]; [|done].
    rewrite decide_False; [done|]. intros H. apply Hc. by rewrite Hn.
Qed.

Lemma wf_update_or_add fields it upd new :
  wf_fields fields -> (forall f, wf_field f -> wf_field (upd f)) -> wf_field new ->
  wf_fields (Fields.update_or_add fields it upd new).
Proof.
  intros Hw Hu Hn. destruct it as [i|]; cbn.
  - apply Forall_alter; [done|]. intros f Hf. eapply Forall_lookup_1 in Hw; [|done]. auto.
  - apply Forall_app. split; [done | by constructor].
Qed.

(** The operations that search by the key, then update a field or add one. *)
Lemma lookup_update fields k upd new n' :
  wf_fields fields -> valid_key k ->
  (forall f, caseless (m_name f) (key_name k) -> caseless (m_name (upd f)) (key_name k)) ->
  (forall f g, m_value f = m_value g -> m_value (upd f) = m_value (upd g)) ->
  caseless (m_name new) (key_name k) ->
  lookup_name (Fields.update_or_add fields (Fields.find k fields) upd new) n' =
    if decide (caseless (key_name k) n') then
      Some (match lookup_name fields (key_name k) with
            | Some v => m_value (upd (field_of_name [] v))
            | None => m_value new
            end)
    else lookup_name fields n'.
Proof.
  intros Hw Hk Hupd Hval Hnew. pose proof (find_spec k fields Hw Hk) as Hs.
  destruct (Fields.find k fields) as [i|].
  - destruct Hs as (pre & f & post & -> & <- & Hp & Hf).
    rewrite (lookup_name_update _ _ _ _ pre f post (key_name k)) by (done || auto).
    rewrite (lookup_name_app_none pre _ (key_name k)) by done. cbn.
    destruct (decide (caseless (key_name k) n')); [|done].
    rewrite decide_True by done. f_equal. by apply Hval.
  - rewrite (lookup_name_add _ _ _ (key_name k)) by done. by rewrite (lookup_name_none fields (key_name k)) by done.
Qed.

(** The field an operation adds for a key. *)
Definition field_of_key (k : field_key) (v : bytes) : http_header_field_t :=
  match k with ByName n => field_of_name n v | ById id => field_of_id id v end.

Lemma set_field_update fields k v :
  valid_key k ->
  Fields.set_field fields k v =
    Fields.update_or_add fields (Fields.find k fields)
      (match k with ByName n => fun f => set_value (set_name f n) v | ById _ => fun f => set_value f v end)
      (field_of_key k v).
Proof.
  intros Hk. destruct k as [n|id]; cbn; [done|].
  pose proof (valid_key_usable _ Hk) as Hu. cbn in Hu. by rewrite Hu.
Qed.

Lemma append_field_update fields k v :
  valid_key k ->
  Fields.append_field fields k v =
    Fields.update_or_add fields (Fields.find k fields) (fun f => append_value f v) (field_of_key k v).
Proof.
  intros Hk. destruct k as [n|id]; cbn; [done|].
  pose proof (valid_key_usable _ Hk) as Hu. cbn in Hu. by rewrite Hu.
Qed.

Lemma add_field_app fields k v :
  valid_key k -> Fields.add_field fields k v = fields ++ [field_of_key k v].
Proof.
  intros Hk. destruct k as [n|id]; cbn; [done|].
  pose proof (valid_key_usable _ Hk) as Hu. cbn in Hu. by rewrite Hu.
Qed.

Lemma field_of_key_wf k v : valid_key k -> wf_field (field_of_key k v).
Proof. destruct k; [done | apply wf_field_of_id]. Qed.

Lemma field_of_key_name k v : m_name (field_of_key k v) = key_name k.
Proof. by destruct k. Qed.

Lemma field_of_key_value k v : m_value (field_of_key k v) = v.
Proof. by destruct k. Qed.

Lemma set_field_wf fields k v :
  wf_fields fields -> valid_key k -> wf_fields (Fields.set_field fields k v).
Proof.
  intros Hw Hk. rewrite set_field_update by done.
  apply wf_update_or_add; [done | by destruct k | by apply field_of_key_wf].
Qed.

Lemma set_field_lookup fields k v n' :
  wf_fields fields -> valid_key k ->
  lookup_name (Fields.set_field fields k v) n' =
    if decide (caseless (key_name k) n') then Some v else lookup_name fields n'.
Proof.
  intros Hw Hk. rewrite set_field_update, lookup_update by
    (try done; destruct k; cbn; done || by rewrite field_of_key_name).
  destruct (decide _); [|done]. f_equal.
  destruct (lookup_name fields (key_name k)); [by destruct k | apply field_of_key_value].
Qed.

Lemma append_field_lookup fields k v n' :
  wf_fields fields -> valid_key k ->
  lookup_name (Fields.append_field fields k v) n' =
    if decide (caseless (key_name k) n')
    then Some (default [] (lookup_name fields (key_name k)) ++ v) else lookup_name fields n'.
Proof.
  intros Hw Hk. rewrite append_field_update, lookup_update; try done.
  - destruct (decide _); [|done]. f_equal.
    destruct (lookup_name fields (key_name k)); [done | apply field_of_key_value].
  - intros f g. cbn. congruence.
  - by rewrite field_of_key_name.
Qed.

Lemma lookup_name_app l1 l2 n :
  lookup_name (l1 ++ l2) n =
    match lookup_name l1 n with Some v => Some v | None => lookup_name l2 n end.
Proof. induction l1 as [|f l1 IH]; cbn; [done|]. by destruct (decide _). Qed.

(** C35 (functional). Fields behave as a map keyed by names without regard to
    case, where accesses by a known id and by any spelling of its name are
    interchangeable: [set_field] overwrites, [append_field] extends,
    [add_field] never hides an earlier value, [remove_all_of] removes all
    values and counts them, and each leaves all other names alone and keeps
    ids and names in agreement. *)
Theorem fields_behave_as_map fields k v k'
  (Hw : wf_fields fields) (Hk : valid_key k) (Hk' : valid_key k') :
  let same := bool_decide (caseless (key_name k) (key_name k')) in
  Fields.try_get_field (Fields.set_field fields k v) k'
    = (if same then Some v else Fields.try_get_field fields k') /\
  Fields.try_get_field (Fields.append_field fields k v) k'
    = (if same then Some (default [] (Fields.try_get_field fields k) ++ v)
       else Fields.try_get_field fields k') /\
  Fields.try_get_field (Fields.add_field fields k v) k'
    = (if same then Some (default v (Fields.try_get_field fields k))
       else Fields.try_get_field fields k') /\
  Fields.try_get_field (Fields.remove_all_of fields k).2 k'
    = (if same then None else Fields.try_get_field fields k') /\
  (Fields.remove_all_of fields k).1 = (length fields - length (Fields.remove_all_of fields k).2)%nat /\
  wf_fields (Fields.set_field fields k v) /\ wf_fields (Fields.append_field fields k v) /\
  wf_fields (Fields.add_field fields k v) /\ wf_fields (Fields.remove_all_of fields k).2.
Proof.
  assert (Hset : wf_fields (Fields.set_field fields k v)) by (by apply set_field_wf).
  assert (Happ : wf_fields (Fields.append_field fields k v)).
  { rewrite append_field_update by done.
    apply wf_update_or_add; [done | done | by apply field_of_key_wf]. }
  assert (Hadd : wf_fields (Fields.add_field fields k v)).
  { rewrite add_field_app by done. apply Forall_app. split; [done|].
    constructor; [by apply field_of_key_wf | constructor]. }
  assert (Hrm : Fields.remove_all_of fields k =
    (length (List.filter (key_matches k) fields),
     List.filter (fun f => negb (key_matches k f)) fields)).
  { unfold Fields.remove_all_of. rewrite valid_key_usable by done.
    by rewrite remove_all_loop_spec by lia. }
  assert (Hrem : wf_fields (Fields.remove_all_of fields k).2).
  { rewrite Hrm. cbn. apply Forall_forall. intros f Hf%list_elem_of_In%filter_In.
    rewrite Forall_forall in Hw. apply Hw, list_elem_of_In. tauto. }
  cbn zeta. rewrite !try_get_field_lookup by done.
  rewrite set_field_lookup, append_field_lookup, add_field_app by done. rewrite Hrm. cbn [fst snd].
  rewrite filter_none by done. rewrite lookup_name_app. cbn [lookup_name].
  rewrite field_of_key_name, field_of_key_value.
  assert (Hlen : length (List.filter (key_matches k) fields) =
    (length fields - length (List.filter (fun f => negb (key_matches k f)) fields))%nat).
  { pose proof (filter_length (key_matches k) fields). lia. }
  rewrite <- add_field_app by done. rewrite Hrm in Hrem.
  repeat split; try done; case_bool_decide as Hs.
  - by rewrite decide_True.
  - by rewrite decide_False.
  - by rewrite decide_True.
  - by rewrite decide_False.
  - rewrite <- Hs. rewrite decide_True by done. by destruct (lookup_name fields (key_name k)).
  - rewrite decide_False by done. by destruct (lookup_name fields (key_name k')).
  - by rewrite decide_True.
  - by rewrite decide_False.
Qed.

(** ** The request target, whole or in pieces *)

Lemma memchr_le c t : (Target.memchr_helper c t <= length t)%nat.
Proof. induction t as [|x t IH]; cbn; [done|]. destruct (x =? c); lia. Qed.

Lemma memchr_app c t a :
  Target.memchr_helper c (t ++ a) =
    if (length t =? Target.memchr_helper c t)%nat
    then (length t + Target.memchr_helper c a)%nat else Target.memchr_helper c t.
Proof.
  induction t as [|x t IH]; cbn; [done|]. destruct (x =? c); [done|].
  rewrite IH. by destruct (length t =? Target.memchr_helper c t)%nat.
Qed.

(** Up to the position answered there is no [c], and there it is. *)
Lemma memchr_split c t :
  (c ∉ take (Target.memchr_helper c t) t) /\
  ((Target.memchr_helper c t < length t)%nat -> t !! Target.memchr_helper c t = Some c).
Proof.
  induction t as [|x t [IH1 IH2]]; cbn.
  - split; [apply not_elem_of_nil | lia].
  - destruct (Z.eqb_spec x c) as [->|Hne]; cbn.
    + split; [apply not_elem_of_nil | done].
    + split; [|intros; apply IH2; lia].
      intros [->|H]%elem_of_cons; done.
Qed.

(** What is behind the characters before the first [c]. *)
Lemma memchr_cut c t : let n := Target.memchr_helper c t in
  (c ∉ take n t) /\ (drop n t = [] \/ exists r, drop n t = c :: r).
Proof.
  cbv zeta. induction t as [|x t IH]; cbn [Target.memchr_helper]; [split; [by apply not_elem_of_nil | by left]|].
  destruct (Z.eqb_spec x c) as [->|Hc]; cbn [take drop].
  - split; [by apply not_elem_of_nil | right; by eexists].
  - split; [|apply IH]. apply not_elem_of_cons. split; [done | apply IH].
Qed.

Lemma memchr_before c v t : c ∉ v -> (t = [] \/ exists r, t = c :: r) -> Target.memchr_helper c (v ++ t) = length v.
Proof.
  intros Hv Ht. induction v as [|x v IH]; cbn [app length Target.memchr_helper].
  - destruct Ht as [-> | [r ->]]; [done|]. cbn [Target.memchr_helper]. by rewrite Z.eqb_refl.
  - apply not_elem_of_cons in Hv as [Hc Hv]. rewrite (proj2 (Z.eqb_neq _ _)) by congruence. by rewrite IH.
Qed.

Lemma append_request_target_whole t a :
  Target.append_request_target (Target.request_target t) a = Target.request_target (t ++ a).
Proof.
  unfold Target.append_request_target, Target.request_target. cbn.
  rewrite memchr_app. set (m := Target.memchr_helper (chr "#") t).
  pose proof (memchr_le (chr "#") t) as Hm. fold m in Hm.
  destruct (Nat.eqb_spec (length t) m) as [Hf|Hf].
  - rewrite (take_ge t) by lia. rewrite take_app_ge by lia.
    replace (length t + Target.memchr_helper (chr "#") a - length t)%nat
      with (Target.memchr_helper (chr "#") a) by lia.
    rewrite memchr_app, <- Hf.
    by destruct (Nat.eqb_spec (length t) (Target.memchr_helper (chr "?") t)) as [<-|].
  - rewrite take_app_le by lia. done.
Qed.

Lemma take_drop_middle_sub (t : bytes) i c :
  t !! i = Some c -> t = take i t ++ c :: drop (i + 1) t.
Proof.
  intros H. rewrite <- (take_drop i t) at 1. f_equal. rewrite Nat.add_1_r. by apply drop_S.
Qed.

(** A request target that arrives in any number of pieces is
    split as the whole one would be, and the parts put together again give the
    target: a path without [?] and [#], a query without [#] after the first
    [?] before the fragment, and a fragment after the first [#]. *)
Theorem request_target_split pieces :
  let t := concat pieces in
  let h := foldl Target.append_request_target Target.create pieces in
  h = Target.request_target t /\
  exists sep_query sep_fragment,
    t = Target.path h ++ sep_query ++ Target.query h ++ sep_fragment ++ Target.fragment h /\
    (sep_query = str "?" \/ sep_query = [] /\ Target.query h = []) /\
    (sep_fragment = str "#" \/ sep_fragment = [] /\ Target.fragment h = []) /\
    (chr "?" ∉ Target.path h) /\ (chr "#" ∉ Target.path h ++ Target.query h).
Proof.
  cbn zeta.
  assert (Hfold : forall t0, foldl Target.append_request_target (Target.request_target t0) pieces
    = Target.request_target (t0 ++ concat pieces)).
  { induction pieces as [|a pieces IH]; intros t0; cbn; [by rewrite app_nil_r|].
    by rewrite append_request_target_whole, IH, app_assoc. }
  specialize (Hfold []). change (Target.request_target []) with Target.create in Hfold.
  split; [exact Hfold|]. rewrite Hfold. cbn [app]. clear Hfold.
  set (t := concat pieces). unfold Target.request_target, Target.path, Target.query, Target.fragment.
  cbn [Target.m_request_target Target.m_query_separator_pos Target.m_fragment_separator_pos].
  set (f := Target.memchr_helper (chr "#") t).
  pose proof (memchr_le (chr "#") t) as Hf. fold f in Hf.
  destruct (memchr_split (chr "#") t) as [Hnf Hif]. fold f in Hnf, Hif.
  set (q := Target.memchr_helper (chr "?") (take f t)).
  pose proof (memchr_le (chr "?") (take f t)) as Hq. fold q in Hq. rewrite length_take in Hq.
  destruct (memchr_split (chr "?") (take f t)) as [Hnq Hiq]. fold q in Hnq, Hiq.
  rewrite take_take in Hnq. replace (q `min` f)%nat with q in Hnq by lia.
  assert (Hfrag : exists sf, drop f t = sf ++ (if (length t =? f)%nat then []
    else take (length t - f - 1) (drop (f + 1) t)) /\
    (sf = str "#" \/ sf = [] /\ (if (length t =? f)%nat then []
    else take (length t - f - 1) (drop (f + 1) t)) = [])).
  { destruct (Nat.eqb_spec (length t) f) as [He|He].
    - exists []. rewrite drop_ge by lia. auto.
    - exists (str "#"). rewrite take_ge by (rewrite length_drop; lia). split; [|by left].
      rewrite Nat.add_1_r. apply drop_S, Hif. lia. }
  destruct Hfrag as (sf & Hsf & Hsf'). exists (if (f =? q)%nat then [] else str "?"), sf.
  rewrite <- Hsf.
  assert (Hpq : take f t = take q t ++ (if (f =? q)%nat then [] else str "?") ++
    (if (f =? q)%nat then [] else take (f - q - 1) (drop (q + 1) t))).
  { destruct (Nat.eqb_spec f q) as [He|He]; [by rewrite He, app_nil_r|].
    rewrite (take_drop_middle_sub (take f t) q (chr "?")) by (apply Hiq; rewrite length_take; lia).
    rewrite take_take. replace (q `min` f)%nat with q by lia. f_equal.
    change (str "?") with [chr "?"]. cbn [app]. f_equal.
    rewrite skipn_firstn_comm. f_equal. lia. }
  split; [rewrite <- (take_drop f t) at 1; rewrite Hpq, <- !app_assoc; done|].
  split; [destruct (f =? q)%nat; auto|]. split; [done|]. split; [done|].
  intros Hin. apply Hnf. rewrite Hpq. rewrite !elem_of_app in *. tauto.
Qed.

(** ** The text of a response header *)

Lemma print_llu_loop_length fuel n : (length (print_llu_loop fuel n) <= fuel)%nat.
Proof.
  revert n; induction fuel as [|fuel IH]; intros n; cbn; [done|].
  destruct (n <? 10); cbn; [lia|]. rewrite length_app. cbn. specialize (IH (n / 10)). lia.
Qed.

(** The number a text of decimal digits stands for. *)
Definition decimal (s : bytes) : Z := foldl (fun acc d => acc * 10 + (d - 48)) 0 s.

Lemma decimal_snoc s d : decimal (s ++ [d]) = decimal s * 10 + (d - 48).
Proof. unfold decimal. by rewrite foldl_app. Qed.

Lemma print_llu_loop_decimal fuel : forall n,
  0 <= n < 10 ^ Z.of_nat fuel -> decimal (print_llu_loop fuel n) = n.
Proof.
  induction fuel as [|fuel IH]; intros n Hn; [cbn in *; lia|].
  cbn [print_llu_loop]. destruct (Z.ltb_spec n 10); [cbn; lia|].
  rewrite decimal_snoc, IH.
  - pose proof (Z.div_mod n 10). lia.
  - rewrite Nat2Z.inj_succ, Z.pow_succ_r in Hn by lia.
    split; [apply Z.div_pos; lia|]. apply Z.div_lt_upper_bound; lia.
Qed.

Lemma foldl_fields_length fs : forall result size,
  Z.of_nat (length result) <= size ->
  Z.of_nat (length (foldl (fun (result : bytes) f =>
      result ++ m_name f ++ str ": " ++ m_value f ++ CRLF) result fs))
  <= foldl (fun result f =>
       result + (Z.of_nat (length (m_name f)) + 2 + Z.of_nat (length (m_value f)) + 2)) size fs.
Proof.
  induction fs as [|f fs IH]; intros result size H; cbn [foldl]; [done|].
  apply IH. rewrite !length_app. change (length (str ": ")) with 2%nat.
  change (length CRLF) with 2%nat. lia.
Qed.

Lemma foldl_fields_shift fs : forall a b,
  foldl (fun result f =>
    result + (Z.of_nat (length (m_name f)) + 2 + Z.of_nat (length (m_value f)) + 2)) (a + b) fs
  = foldl (fun result f =>
    result + (Z.of_nat (length (m_name f)) + 2 + Z.of_nat (length (m_value f)) + 2)) a fs + b.
Proof.
  induction fs as [|f fs IH]; intros a b; cbn [foldl]; [done|].
  rewrite <- IH. f_equal. lia.
Qed.

(** The lines before the fields. *)
Definition header_start (h : http_response_header_t) (presence : content_length_field_presence_t)
    : bytes :=
  str "HTTP/" ++ [wrap 8 (chr "0" + m_http_major h)] ++ str "." ++
  [wrap 8 (chr "0" + m_http_minor h)] ++ str " " ++
  [chr "0" + (m_status_code h / 100) mod 10; chr "0" + (m_status_code h / 10) mod 10;
   chr "0" + m_status_code h mod 10] ++ str " " ++ m_reason_phrase h ++ CRLF ++
  connection_line (m_connection h) ++
  match presence with
  | add_content_length => str "Content-Length: " ++ print_llu (m_content_length h) ++ CRLF
  | skip_content_length => []
  end.

Lemma foldl_fields_text fs : forall result,
  foldl (fun (result : bytes) f => result ++ m_name f ++ str ": " ++ m_value f ++ CRLF) result fs
  = result ++ (fs ≫= fun f => m_name f ++ str ": " ++ m_value f ++ CRLF).
Proof.
  induction fs as [|f fs IH]; intros result; cbn [foldl]; [by rewrite app_nil_r|].
  rewrite IH, bind_cons. by rewrite <- app_assoc.
Qed.

Lemma create_header_string_eq h presence :
  create_header_string h presence =
    header_start h presence ++
    (m_fields h ≫= fun f => m_name f ++ str ": " ++ m_value f ++ CRLF) ++ CRLF.
Proof.
  unfold create_header_string. cbv zeta. rewrite foldl_fields_text. unfold header_start.
  destruct presence; rewrite <- ?app_assoc, ?app_nil_r; done.
Qed.

Lemma connection_line_length c : (length (connection_line c) <= 24)%nat.
Proof. destruct c; vm_compute; lia. Qed.

Lemma header_start_length h presence :
  Z.of_nat (length (header_start h presence)) <= 13 + (Z.of_nat (length (m_reason_phrase h)) + 2) + 24 + 38.
Proof.
  pose proof (connection_line_length (m_connection h)) as Hc.
  pose proof (print_llu_loop_length 20 (m_content_length h)) as Hl. fold (print_llu (m_content_length h)) in Hl.
  unfold header_start. rewrite !length_app.
  change (length (str "HTTP/")) with 5%nat. change (length (str ".")) with 1%nat.
  change (length (str " ")) with 1%nat. change (length CRLF) with 2%nat. cbn [length].
  destruct presence; rewrite ?length_app.
  - change (length (str "Content-Length: ")) with 16%nat. change (length CRLF) with 2%nat. lia.
  - cbn [length]. lia.
Qed.

(** C36 (bounds). The text of a response header is the status line, the
    connection line, the content length where asked for, in decimal digits
    that read back as the 64-bit number, then every field in order, then the
    empty line; and the size reserved for it in advance is always enough. *)
Theorem header_string_layout_and_size h presence
  (Hl : 0 <= m_content_length h < 2 ^ 64) :
  create_header_string h presence =
    header_start h presence ++
    (m_fields h ≫= fun f => m_name f ++ str ": " ++ m_value f ++ CRLF) ++ CRLF /\
  decimal (print_llu (m_content_length h)) = m_content_length h /\
  Z.of_nat (length (create_header_string h presence)) <= calculate_approx_buffer_size_for_header h.
Proof.
  split; [apply create_header_string_eq|]. split.
  { apply print_llu_loop_decimal. split; [lia|]. assert (2 ^ 64 < 10 ^ Z.of_nat 20) by (vm_compute; done). lia. }
  rewrite create_header_string_eq, app_assoc, length_app, <- foldl_fields_text.
  change (length CRLF) with 2%nat. unfold calculate_approx_buffer_size_for_header. cbv zeta.
  pose proof (header_start_length h presence) as Hs.
  set (size := 13 + (Z.of_nat (length (m_reason_phrase h)) + 2) + 26 + (20 + 18) + 2).
  replace size with (size - 2 + 2) by lia. rewrite foldl_fields_shift.
  pose proof (foldl_fields_length (m_fields h) (header_start h presence) (size - 2)) as Hf.
  unfold size in *. lia.
Qed.

(** ** Witnesses *)

Definition example_fields : http_header_fields_t :=
  [field_of_name (str "hOsT") (str "localhost"); field_of_name (str "X-Test") (str "1")].

Definition host : http_field_t := field_id "host".

Lemma fields_behave_as_map_witness :
  Fields.try_get_field (Fields.set_field example_fields (ById host) (str "a.b")) (ByName (str "HOST"))
    = Some (str "a.b").
Proof.
  assert (Hw : wf_fields example_fields) by (repeat constructor).
  pose proof (fields_behave_as_map example_fields (ById host) (str "a.b") (ByName (str "HOST")) Hw) as H.
  cbn zeta in H. destruct H as [H _]; [vm_compute; intuition congruence | done |].
  rewrite H. vm_compute. reflexivity.
Defined.

Definition example_header : http_response_header_t :=
  {| m_fields := example_fields; m_http_major := 1; m_http_minor := 1;
     m_content_length := 2 ^ 64 - 1; m_connection := keep_alive; m_status_code := 404;
     m_reason_phrase := str "Not Found" |}.

Lemma header_string_layout_and_size_witness :
  Z.of_nat (length (create_header_string example_header add_content_length))
    <= calculate_approx_buffer_size_for_header example_header.
Proof. apply (header_string_layout_and_size example_header add_content_length). cbn; lia. Defined.
