(* ===== verification/ParserCallbacks.v ===== *)
(** * Assembling a request from the callbacks of the HTTP parser

    [restinio/impl/parser_callbacks.ipp], [http_parser_ctx_t] of
    [restinio/impl/connection.hpp], [restinio/incoming_http_msg_limits.hpp]
    and [restinio/chunked_input_info.hpp]. The HTTP parser itself is
    third-party code: what it reports arrives here as a list of events, one per
    callback, with the values of the parser's fields a callback reads. A
    callback answers 0 or -1, and -1 stops the parser. Allocation failures are
    not modelled. *)

From S2P Require Import Prelude Headers.

(** ** Limits and chunks *)

(*@ incoming_http_msg_limits.hpp 68-163 incoming_http_msg_limits_t *)
Record incoming_http_msg_limits_t : Type := mk_limits {
  max_url_size : Z;
  max_field_name_size : Z;
  max_field_value_size : Z;
  max_field_count : Z;
  max_body_size : Z }.

(*@ chunked_input_info.hpp 40-62 chunk_info_t *)
Record chunk_info_t : Type := mk_chunk { m_started_at : Z; m_size : Z }.

(** [exception_t] on a body that is too small. *)
(*@ chunked_input_info.hpp 71-101 chunk_info_t::make_string_view *)
Definition make_string_view (c : chunk_info_t) (full_body : bytes) : option bytes :=
  let n := Z.of_nat (length full_body) in
  if (n <=? m_started_at c) || (n <? wrap 64 (m_started_at c + m_size c)) then None
  else Some (take (Z.to_nat (m_size c)) (drop (Z.to_nat (m_started_at c)) full_body)).

(*@ chunked_input_info.hpp 115-126 chunked_input_info_block_t *)
Record chunked_input_info_block_t : Type := mk_block {
  m_chunks : list chunk_info_t;
  m_trailing_fields : http_header_fields_t }.

(** ** The parser context *)

(*@ impl/connection.hpp 48-91 http_parser_ctx_t *)
Record http_parser_ctx_t : Type := mk_ctx {
  m_target : Target.t;
  m_header : http_header_fields_t;
  m_header_method : Z;
  m_header_connection : http_connection_header_t;
  m_body : bytes;
  m_current_field_name : bytes;
  m_last_value_total_size : Z;
  m_last_was_value : bool;
  m_leading_headers_completed : bool;
  m_chunked_info_block : chunked_input_info_block_t;
  m_message_complete : bool;
  m_total_field_count : Z;
  m_limits : incoming_http_msg_limits_t }.

Definition empty_block : chunked_input_info_block_t := mk_block [] [].

Section Callbacks.

(** [http_method_get()] of a fresh header, and [Http_Methods::from_nodejs],
    the mapping of the user's traits. *)
Context (http_method_get : Z) (from_nodejs : Z -> Z).

(*@ impl/connection.hpp 98-101 http_parser_ctx_t::http_parser_ctx_t *)
Definition ctx_create (limits : incoming_http_msg_limits_t) : http_parser_ctx_t :=
  {| m_target := Target.create; m_header := []; m_header_method := http_method_get;
     m_header_connection := close; m_body := []; m_current_field_name := [];
     m_last_value_total_size := 0; m_last_was_value := true;
     m_leading_headers_completed := false; m_chunked_info_block := empty_block;
     m_message_complete := false; m_total_field_count := 0; m_limits := limits |}.

(** The block of chunks is not cleared. *)
(*@ impl/connection.hpp 103-115 http_parser_ctx_t::reset *)
Definition ctx_reset (ctx : http_parser_ctx_t) : http_parser_ctx_t :=
  {| m_target := Target.create; m_header := []; m_header_method := http_method_get;
     m_header_connection := close; m_body := []; m_current_field_name := [];
     m_last_value_total_size := 0; m_last_was_value := true;
     m_leading_headers_completed := false; m_chunked_info_block := m_chunked_info_block ctx;
     m_message_complete := false; m_total_field_count := 0; m_limits := m_limits ctx |}.

Definition with_block (ctx : http_parser_ctx_t) (b : chunked_input_info_block_t) : http_parser_ctx_t :=
  {| m_target := m_target ctx; m_header := m_header ctx; m_header_method := m_header_method ctx;
     m_header_connection := m_header_connection ctx; m_body := m_body ctx;
     m_current_field_name := m_current_field_name ctx;
     m_last_value_total_size := m_last_value_total_size ctx;
     m_last_was_value := m_last_was_value ctx;
     m_leading_headers_completed := m_leading_headers_completed ctx;
     m_chunked_info_block := b; m_message_complete := m_message_complete ctx;
     m_total_field_count := m_total_field_count ctx; m_limits := m_limits ctx |}.

(** The block, when there is something in it, is moved out. *)
(*@ impl/connection.hpp 122-136 http_parser_ctx_t::make_chunked_input_info_if_necessary *)
Definition make_chunked_input_info_if_necessary (ctx : http_parser_ctx_t)
    : option chunked_input_info_block_t * http_parser_ctx_t :=
  match m_chunked_info_block ctx with
  | {| m_chunks := []; m_trailing_fields := [] |} => (None, ctx)
  | b => (Some b, with_block ctx empty_block)
  end.

(** ** The callbacks: the context after it, and whether it answered 0 *)

Definition size_of (b : bytes) : Z := Z.of_nat (length b).

(*@ impl/parser_callbacks.ipp 9-32 restinio_url_cb *)
Definition restinio_url_cb (ctx : http_parser_ctx_t) (at_ : bytes) : http_parser_ctx_t * bool :=
  let target := Target.append_request_target (m_target ctx) at_ in
  ({| m_target := target; m_header := m_header ctx; m_header_method := m_header_method ctx;
      m_header_connection := m_header_connection ctx; m_body := m_body ctx;
      m_current_field_name := m_current_field_name ctx;
      m_last_value_total_size := m_last_value_total_size ctx;
      m_last_was_value := m_last_was_value ctx;
      m_leading_headers_completed := m_leading_headers_completed ctx;
      m_chunked_info_block := m_chunked_info_block ctx;
      m_message_complete := m_message_complete ctx;
      m_total_field_count := m_total_field_count ctx; m_limits := m_limits ctx |},
   negb (max_url_size (m_limits ctx) <? size_of (Target.m_request_target target))).

Definition with_name (ctx : http_parser_ctx_t) (name : bytes) : http_parser_ctx_t :=
  {| m_target := m_target ctx; m_header := m_header ctx; m_header_method := m_header_method ctx;
     m_header_connection := m_header_connection ctx; m_body := m_body ctx;
     m_current_field_name := name;
     m_last_value_total_size := m_last_value_total_size ctx;
     m_last_was_value := false;
     m_leading_headers_completed := m_leading_headers_completed ctx;
     m_chunked_info_block := m_chunked_info_block ctx;
     m_message_complete := m_message_complete ctx;
     m_total_field_count := m_total_field_count ctx; m_limits := m_limits ctx |}.

(*@ impl/parser_callbacks.ipp 34-71 restinio_header_field_cb *)
Definition restinio_header_field_cb (ctx : http_parser_ctx_t) (at_ : bytes)
    : http_parser_ctx_t * bool :=
  if m_last_was_value ctx && (m_total_field_count ctx =? max_field_count (m_limits ctx))
  then (ctx, false)
  else
    let name := if m_last_was_value ctx then at_ else m_current_field_name ctx ++ at_ in
    (with_name ctx name, negb (max_field_name_size (m_limits ctx) <? size_of name)).

(** The container fields go to now. *)
Definition current_fields (ctx : http_parser_ctx_t) : http_header_fields_t :=
  if m_leading_headers_completed ctx then m_trailing_fields (m_chunked_info_block ctx)
  else m_header ctx.

(** The context with these fields, the size of the last value and the count. *)
Definition with_fields (ctx : http_parser_ctx_t) (fields : http_header_fields_t)
    (name : bytes) (value_size count : Z) : http_parser_ctx_t :=
  {| m_target := m_target ctx;
     m_header := if m_leading_headers_completed ctx then m_header ctx else fields;
     m_header_method := m_header_method ctx;
     m_header_connection := m_header_connection ctx; m_body := m_body ctx;
     m_current_field_name := name; m_last_value_total_size := value_size;
     m_last_was_value := true;
     m_leading_headers_completed := m_leading_headers_completed ctx;
     m_chunked_info_block :=
       if m_leading_headers_completed ctx
       then mk_block (m_chunks (m_chunked_info_block ctx)) fields
       else m_chunked_info_block ctx;
     m_message_complete := m_message_complete ctx;
     m_total_field_count := count; m_limits := m_limits ctx |}.

(** A value that goes on with no field to go on is undefined behaviour. *)
(*@ impl/parser_callbacks.ipp 79-121 restinio_header_value_cb *)
Definition restinio_header_value_cb (ctx : http_parser_ctx_t) (at_ : bytes)
    : option (http_parser_ctx_t * bool) :=
  let fields := current_fields ctx in
  let next :=
    if negb (m_last_was_value ctx) then
      Some (with_fields ctx (Fields.add_field fields (ByName (m_current_field_name ctx)) at_) []
              (size_of at_) (wrap 64 (m_total_field_count ctx + 1)))
    else
      match Fields.append_last_field fields at_ with
      | Some fields =>
          Some (with_fields ctx fields (m_current_field_name ctx)
                  (wrap 64 (m_last_value_total_size ctx + size_of at_)) (m_total_field_count ctx))
      | None => None
      end in
  match next with
  | Some ctx =>
      Some (ctx, negb (max_field_value_size (m_limits ctx) <=? m_last_value_total_size ctx))
  | None => None
  end.

Definition ULLONG_MAX : Z := 2 ^ 64 - 1.

(*@ impl/parser_callbacks.ipp 123-155 restinio_headers_complete_cb *)
Definition restinio_headers_complete_cb (ctx : http_parser_ctx_t) (content_length : Z)
    : http_parser_ctx_t * bool :=
  ({| m_target := m_target ctx; m_header := m_header ctx; m_header_method := m_header_method ctx;
      m_header_connection := m_header_connection ctx; m_body := m_body ctx;
      m_current_field_name := m_current_field_name ctx;
      m_last_value_total_size := m_last_value_total_size ctx;
      m_last_was_value := m_last_was_value ctx; m_leading_headers_completed := true;
      m_chunked_info_block := m_chunked_info_block ctx;
      m_message_complete := m_message_complete ctx;
      m_total_field_count := m_total_field_count ctx; m_limits := m_limits ctx |},
   negb (negb (ULLONG_MAX =? content_length) && (0 <? content_length) &&
         (max_body_size (m_limits ctx) <? content_length))).

(*@ impl/parser_callbacks.ipp 158-183 restinio_body_cb *)
Definition restinio_body_cb (ctx : http_parser_ctx_t) (at_ : bytes) : http_parser_ctx_t * bool :=
  let total_length := wrap 64 (size_of (m_body ctx) + size_of at_) in
  if max_body_size (m_limits ctx) <? total_length then (ctx, false)
  else
    ({| m_target := m_target ctx; m_header := m_header ctx; m_header_method := m_header_method ctx;
        m_header_connection := m_header_connection ctx; m_body := m_body ctx ++ at_;
        m_current_field_name := m_current_field_name ctx;
        m_last_value_total_size := m_last_value_total_size ctx;
        m_last_was_value := m_last_was_value ctx;
        m_leading_headers_completed := m_leading_headers_completed ctx;
        m_chunked_info_block := m_chunked_info_block ctx;
        m_message_complete := m_message_complete ctx;
        m_total_field_count := m_total_field_count ctx; m_limits := m_limits ctx |}, true).

(*@ impl/parser_callbacks.ipp 185-215 restinio_chunk_header_cb *)
Definition restinio_chunk_header_cb (ctx : http_parser_ctx_t) (content_length : Z)
    : http_parser_ctx_t * bool :=
  if negb (0 =? content_length) then
    (with_block ctx
       {| m_chunks := m_chunks (m_chunked_info_block ctx)
            ++ [{| m_started_at := size_of (m_body ctx); m_size := content_length |}];
          m_trailing_fields := m_trailing_fields (m_chunked_info_block ctx) |}, true)
  else (ctx, true).

(*@ impl/parser_callbacks.ipp 224-252 restinio_message_complete_cb *)
Definition restinio_message_complete_cb (ctx : http_parser_ctx_t) (method : Z)
    (upgrade_ : bool) (should_keep_alive : bool) : http_parser_ctx_t * bool :=
  let add := negb (m_last_was_value ctx) &&
             negb (match m_current_field_name ctx with [] => true | _ => false end) in
  ({| m_target := m_target ctx; m_header := m_header ctx;
      m_header_method := from_nodejs method;
      m_header_connection :=
        if negb upgrade_ then (if should_keep_alive then keep_alive else close) else upgrade;
      m_body := m_body ctx;
      m_current_field_name := if add then [] else m_current_field_name ctx;
      m_last_value_total_size := m_last_value_total_size ctx;
      m_last_was_value := m_last_was_value ctx;
      m_leading_headers_completed := m_leading_headers_completed ctx;
      m_chunked_info_block :=
        if add then
          {| m_chunks := m_chunks (m_chunked_info_block ctx);
             m_trailing_fields :=
               Fields.add_field (m_trailing_fields (m_chunked_info_block ctx))
                 (ByName (m_current_field_name ctx)) [] |}
        else m_chunked_info_block ctx;
      m_message_complete := true; m_total_field_count := m_total_field_count ctx;
      m_limits := m_limits ctx |}, true).

(** ** Runs of the parser *)

Inductive parser_event : Type :=
| OnUrl (at_ : bytes)
| OnHeaderField (at_ : bytes)
| OnHeaderValue (at_ : bytes)
| OnHeadersComplete (content_length : Z)
| OnBody (at_ : bytes)
| OnChunkHeader (content_length : Z)
| OnChunkComplete
| OnMessageComplete (method : Z) (upgrade_ : bool) (should_keep_alive : bool).

Inductive parser_error : Type := callback_failed | undefined_behaviour.

Definition of_callback (r : http_parser_ctx_t * bool) : result parser_error http_parser_ctx_t :=
  if r.2 then Ok r.1 else Err callback_failed.

(** The callbacks [create_parser_settings] installs. *)
(*@ impl/connection.hpp 150-198 create_parser_settings *)
Definition on_event (ctx : http_parser_ctx_t) (e : parser_event)
    : result parser_error http_parser_ctx_t :=
  match e with
  | OnUrl at_ => of_callback (restinio_url_cb ctx at_)
  | OnHeaderField at_ => of_callback (restinio_header_field_cb ctx at_)
  | OnHeaderValue at_ =>
      match restinio_header_value_cb ctx at_ with
      | Some r => of_callback r
      | None => Err undefined_behaviour
      end
  | OnHeadersComplete n => of_callback (restinio_headers_complete_cb ctx n)
  | OnBody at_ => of_callback (restinio_body_cb ctx at_)
  | OnChunkHeader n => of_callback (restinio_chunk_header_cb ctx n)
  | OnChunkComplete => Ok ctx
  | OnMessageComplete m u k => of_callback (restinio_message_complete_cb ctx m u k)
  end.

Definition run_parser (ctx : http_parser_ctx_t) (es : list parser_event)
    : result parser_error http_parser_ctx_t := foldM on_event ctx es.

End Callbacks.

(** ** Messages as the parser reports them *)

(** A field: the pieces of its name and of its value, one at least of each. *)
Record field_pieces : Type := mk_pieces {
  name_first : bytes; name_rest : list bytes;
  value_first : bytes; value_rest : list bytes }.

Definition fp_name (f : field_pieces) : bytes := name_first f ++ concat (name_rest f).
Definition fp_value (f : field_pieces) : bytes := value_first f ++ concat (value_rest f).

Definition field_events (f : field_pieces) : list parser_event :=
  OnHeaderField (name_first f) :: (OnHeaderField <$> name_rest f) ++
  OnHeaderValue (value_first f) :: (OnHeaderValue <$> value_rest f).

Definition field_of_pieces (f : field_pieces) : http_header_field_t :=
  field_of_name (fp_name f) (fp_value f).

(** What the limits say of one field: a value must stay below its limit. *)
Definition field_within (l : incoming_http_msg_limits_t) (f : field_pieces) : bool :=
  (size_of (fp_name f) <=? max_field_name_size l) && (size_of (fp_value f) <? max_field_value_size l).

Section Assembly.
Context (http_method_get : Z) (from_nodejs : Z -> Z).
Abbreviation run := (run_parser from_nodejs).
Abbreviation cat := (@concat Z).

Lemma size_of_app a b : size_of (a ++ b) = size_of a + size_of b.
Proof. unfold size_of. rewrite length_app. lia. Qed.

Lemma size_of_nonneg a : 0 <= size_of a.
Proof. unfold size_of. lia. Qed.

Lemma run_app ctx es1 es2 :
  run ctx (es1 ++ es2) = match run ctx es1 with Ok ctx' => run ctx' es2 | Err e => Err e end.
Proof.
  unfold run_parser. rewrite foldM_app. by destruct (foldM (on_event from_nodejs) ctx es1).
Qed.

Lemma run_cons ctx e es :
  run ctx (e :: es) = match on_event from_nodejs ctx e with Ok ctx' => run ctx' es | Err e' => Err e' end.
Proof. done. Qed.

(** *** Field names and values *)

Lemma with_name_id ctx : m_last_was_value ctx = false -> with_name ctx (m_current_field_name ctx) = ctx.
Proof. destruct ctx; cbn. by intros ->. Qed.

Lemma run_name_rest ps : forall ctx,
  m_last_was_value ctx = false -> size_of (m_current_field_name ctx) <= max_field_name_size (m_limits ctx) ->
  run ctx (OnHeaderField <$> ps) =
    let name := m_current_field_name ctx ++ concat ps in
    if size_of name <=? max_field_name_size (m_limits ctx) then Ok (with_name ctx name)
    else Err callback_failed.
Proof.
  induction ps as [|p ps IH]; intros ctx Hl Hs; cbn zeta.
  - cbn [fmap list_fmap concat]. rewrite app_nil_r, with_name_id by done.
    by rewrite (proj2 (Z.leb_le _ _)) by lia.
  - rewrite fmap_cons, run_cons. cbn [on_event concat]. unfold restinio_header_field_cb, of_callback.
    rewrite Hl. cbn [andb fst snd].
    destruct (Z.ltb_spec (max_field_name_size (m_limits ctx)) (size_of (m_current_field_name ctx ++ p))).
    + cbn [negb]. rewrite (proj2 (Z.leb_gt _ _)); [done|].
      rewrite app_assoc, size_of_app. pose proof (size_of_nonneg (concat ps)). lia.
    + cbn [negb]. rewrite IH by done. cbn [m_current_field_name with_name m_limits].
      by rewrite app_assoc.
Qed.

Lemma with_fields_id ctx :
  m_last_was_value ctx = true ->
  with_fields ctx (current_fields ctx) (m_current_field_name ctx) (m_last_value_total_size ctx)
    (m_total_field_count ctx) = ctx.
Proof.
  destruct ctx as [? ? ? ? ? ? ? ? [] [] ? ? ?]; cbn; by intros ->.
Qed.

Lemma current_with_fields ctx fs nm sz n : current_fields (with_fields ctx fs nm sz n) = fs.
Proof. unfold current_fields. cbn. by destruct (m_leading_headers_completed ctx). Qed.

Lemma with_fields_twice ctx fs nm sz n fs' nm' sz' n' :
  with_fields (with_fields ctx fs nm sz n) fs' nm' sz' n' = with_fields ctx fs' nm' sz' n'.
Proof. unfold with_fields. cbn. by destruct (m_leading_headers_completed ctx). Qed.

Lemma with_fields_name ctx nm fs nm' sz n :
  with_fields (with_name ctx nm) fs nm' sz n = with_fields ctx fs nm' sz n.
Proof. done. Qed.

Lemma append_last_field_snoc fs f v :
  Fields.append_last_field (fs ++ [f]) v = Some (fs ++ [append_value f v]).
Proof. unfold Fields.append_last_field. by rewrite last_snoc, removelast_last. Qed.

Lemma run_value_rest ps : forall ctx fs name v,
  m_last_was_value ctx = true -> current_fields ctx = fs ++ [field_of_name name v] ->
  m_last_value_total_size ctx = size_of v -> size_of v < max_field_value_size (m_limits ctx) ->
  size_of (v ++ concat ps) < 2 ^ 64 ->
  run ctx (OnHeaderValue <$> ps) =
    let value := v ++ concat ps in
    if size_of value <? max_field_value_size (m_limits ctx)
    then Ok (with_fields ctx (fs ++ [field_of_name name value]) (m_current_field_name ctx)
               (size_of value) (m_total_field_count ctx))
    else Err callback_failed.
Proof.
  induction ps as [|p ps IH]; intros ctx fs name v Hl Hc Hs Hlt Hsz; cbn zeta.
  - cbn [fmap list_fmap concat] in *. rewrite app_nil_r, <- Hc, <- Hs, with_fields_id by done.
    rewrite Hs. by rewrite (proj2 (Z.ltb_lt _ _)) by lia.
  - cbn [concat] in Hsz. rewrite app_assoc in Hsz.
    pose proof (size_of_nonneg (concat ps)). pose proof (size_of_nonneg (v ++ p)).
    rewrite size_of_app in Hsz.
    rewrite fmap_cons, run_cons. cbn [on_event concat]. unfold restinio_header_value_cb, of_callback.
    rewrite Hl, Hc, append_last_field_snoc, Hs. cbn [negb fst snd].
    rewrite <- size_of_app, wrap_small by lia.
    cbn [m_limits with_fields m_last_value_total_size].
    change (append_value (field_of_name name v) p) with (field_of_name name (v ++ p)).
    destruct (Z.leb_spec (max_field_value_size (m_limits ctx)) (size_of (v ++ p))); cbn [negb].
    + rewrite (proj2 (Z.ltb_ge _ _)); [done|]. rewrite app_assoc, size_of_app. lia.
    + rewrite (IH _ fs name (v ++ p)); try done.
      * cbn zeta. rewrite with_fields_twice, <- app_assoc. done.
      * apply current_with_fields.
      * rewrite size_of_app. lia.
Qed.

Lemma limits_with_name ctx n : m_limits (with_name ctx n) = m_limits ctx.
Proof. done. Qed.

Lemma with_name_twice ctx n n' : with_name (with_name ctx n) n' = with_name ctx n'.
Proof. done. Qed.

(** One field: its name and value become a field of the current container. *)
Lemma run_field ctx f :
  m_last_was_value ctx = true -> size_of (fp_value f) < 2 ^ 64 ->
  0 <= m_total_field_count ctx < 2 ^ 64 - 1 ->
  run ctx (field_events f) =
    if (m_total_field_count ctx =? max_field_count (m_limits ctx)) || negb (field_within (m_limits ctx) f)
    then Err callback_failed
    else Ok (with_fields ctx (current_fields ctx ++ [field_of_pieces f]) [] (size_of (fp_value f))
               (m_total_field_count ctx + 1)).
Proof.
  intros Hl Hv Hcnt. unfold field_events, field_within. rewrite run_cons. cbn [on_event].
  unfold restinio_header_field_cb. rewrite Hl.
  destruct (m_total_field_count ctx =? max_field_count (m_limits ctx)); [done|].
  cbn [andb orb]. unfold of_callback. cbn [fst snd].
  pose proof (size_of_nonneg (concat (name_rest f))). pose proof (size_of_nonneg (concat (value_rest f))).
  unfold fp_name, fp_value in *. rewrite size_of_app in Hv.
  destruct (Z.ltb_spec (max_field_name_size (m_limits ctx)) (size_of (name_first f))); cbn [negb].
  { rewrite (proj2 (Z.leb_gt _ _)); [done|]. rewrite size_of_app. lia. }
  rewrite run_app, run_name_rest by done. cbn zeta. cbn [m_current_field_name with_name m_limits].
  destruct (size_of (name_first f ++ concat (name_rest f)) <=? _); [|done]. cbn [andb].
  rewrite run_cons. cbn [on_event]. unfold restinio_header_value_cb. rewrite with_name_twice.
  cbn [m_last_was_value with_name negb m_current_field_name m_limits m_total_field_count].
  rewrite !wrap_small by lia. unfold of_callback.
  cbn [fst snd with_fields m_last_value_total_size m_limits]. rewrite limits_with_name.
  destruct (Z.leb_spec (max_field_value_size (m_limits ctx)) (size_of (value_first f))); cbn [negb].
  { rewrite (proj2 (Z.ltb_ge _ _)); [done|]. rewrite size_of_app. lia. }
  rewrite (run_value_rest _ _ (current_fields ctx) (name_first f ++ concat (name_rest f)) (value_first f));
    try done.
  - cbn zeta. cbn [m_limits with_fields with_name]. rewrite with_fields_twice. by case_match.
  - by rewrite current_with_fields.
  - rewrite size_of_app. lia.
Qed.

(** Any number of fields. *)
Lemma run_fields fs : forall ctx,
  m_last_was_value ctx = true -> Forall (fun f => size_of (fp_value f) < 2 ^ 64) fs ->
  0 <= m_total_field_count ctx <= max_field_count (m_limits ctx) ->
  m_total_field_count ctx + Z.of_nat (length fs) < 2 ^ 64 ->
  if (m_total_field_count ctx + Z.of_nat (length fs) <=? max_field_count (m_limits ctx)) &&
     forallb (field_within (m_limits ctx)) fs
  then exists name size, run ctx (fs ≫= field_events) =
    Ok (with_fields ctx (current_fields ctx ++ (field_of_pieces <$> fs)) name size
          (m_total_field_count ctx + Z.of_nat (length fs)))
  else run ctx (fs ≫= field_events) = Err callback_failed.
Proof.
  induction fs as [|f fs IH]; intros ctx Hl Hv Hc Hn.
  { cbn [length forallb]. rewrite (proj2 (Z.leb_le _ _)) by lia. cbn [andb].
    exists (m_current_field_name ctx), (m_last_value_total_size ctx).
    cbn [fmap list_fmap]. rewrite app_nil_r, Z.add_0_r, with_fields_id by done. done. }
  inversion_clear Hv as [|? ? Hvf Hv']. cbn [length] in Hn. rewrite Nat2Z.inj_succ in Hn.
  rewrite bind_cons, run_app, run_field by (done || lia).
  cbn [forallb length]. rewrite Nat2Z.inj_succ.
  destruct (Z.eqb_spec (m_total_field_count ctx) (max_field_count (m_limits ctx))) as [He|He]; cbn [orb].
  { rewrite (proj2 (Z.leb_gt _ _)) by lia. done. }
  destruct (field_within (m_limits ctx) f); cbn [negb andb].
  2: { by rewrite andb_false_r. }
  set (ctx1 := with_fields ctx _ _ _ _).
  specialize (IH ctx1 eq_refl Hv'). change (m_limits ctx1) with (m_limits ctx) in IH.
  change (m_total_field_count ctx1) with (m_total_field_count ctx + 1) in IH.
  specialize (IH ltac:(lia) ltac:(lia)).
  replace (m_total_field_count ctx + Z.succ (Z.of_nat (length fs)))
    with (m_total_field_count ctx + 1 + Z.of_nat (length fs)) by lia.
  destruct (_ && forallb _ fs); [|done]. destruct IH as (nm & sz & ->).
  exists nm, sz. unfold ctx1. rewrite with_fields_twice, current_with_fields, <- app_assoc. done.
Qed.

(** *** Body *)

Definition with_body (ctx : http_parser_ctx_t) (chunks : list chunk_info_t) (body : bytes)
    : http_parser_ctx_t :=
  {| m_target := m_target ctx; m_header := m_header ctx; m_header_method := m_header_method ctx;
     m_header_connection := m_header_connection ctx; m_body := body;
     m_current_field_name := m_current_field_name ctx;
     m_last_value_total_size := m_last_value_total_size ctx;
     m_last_was_value := m_last_was_value ctx;
     m_leading_headers_completed := m_leading_headers_completed ctx;
     m_chunked_info_block :=
       mk_block chunks (m_trailing_fields (m_chunked_info_block ctx));
     m_message_complete := m_message_complete ctx;
     m_total_field_count := m_total_field_count ctx; m_limits := m_limits ctx |}.

Abbreviation chunks_of ctx := (m_chunks (m_chunked_info_block ctx)).

Lemma with_body_id ctx : with_body ctx (chunks_of ctx) (m_body ctx) = ctx.
Proof. by destruct ctx as [? ? ? ? ? ? ? ? ? [] ? ? ?]. Qed.

Lemma run_body ps : forall ctx,
  size_of (m_body ctx) <= max_body_size (m_limits ctx) ->
  size_of (m_body ctx ++ concat ps) < 2 ^ 64 ->
  run ctx (OnBody <$> ps) =
    if size_of (m_body ctx ++ concat ps) <=? max_body_size (m_limits ctx)
    then Ok (with_body ctx (chunks_of ctx) (m_body ctx ++ concat ps)) else Err callback_failed.
Proof.
  induction ps as [|p ps IH]; intros ctx Hb Hs.
  - cbn [fmap list_fmap concat]. rewrite app_nil_r, with_body_id.
    by rewrite (proj2 (Z.leb_le _ _)) by lia.
  - cbn [concat] in *. rewrite app_assoc in *.
    pose proof (size_of_nonneg (concat ps)). rewrite size_of_app in Hs.
    rewrite fmap_cons, run_cons. cbn [on_event]. unfold restinio_body_cb.
    pose proof (size_of_nonneg (m_body ctx ++ p)).
    rewrite <- size_of_app, wrap_small by lia.
    destruct (Z.ltb_spec (max_body_size (m_limits ctx)) (size_of (m_body ctx ++ p))).
    + cbn. rewrite (proj2 (Z.leb_gt _ _)); [done|]. rewrite size_of_app. lia.
    + unfold of_callback. cbn [fst snd]. rewrite IH; cbn [m_body m_limits].
      * done.
      * done.
      * rewrite size_of_app. lia.
Qed.

Definition chunk_events (ps : list bytes) : list parser_event :=
  OnChunkHeader (size_of (concat ps)) :: (OnBody <$> ps) ++ [OnChunkComplete].

(** Where the chunks lie in the concatenated body. *)
Fixpoint layout (off : Z) (cs : list (list bytes)) : list chunk_info_t :=
  match cs with
  | [] => []
  | ps :: rest =>
      mk_chunk off (size_of (concat ps)) :: layout (off + size_of (concat ps)) rest
  end.

Lemma run_chunks cs : forall ctx,
  Forall (fun ps => 0 < size_of (concat ps)) cs ->
  size_of (m_body ctx) <= max_body_size (m_limits ctx) ->
  size_of (m_body ctx ++ concat (cat <$> cs)) < 2 ^ 64 ->
  run ctx (cs ≫= chunk_events) =
    if size_of (m_body ctx ++ concat (cat <$> cs)) <=? max_body_size (m_limits ctx)
    then Ok (with_body ctx (chunks_of ctx ++ layout (size_of (m_body ctx)) cs)
               (m_body ctx ++ concat (cat <$> cs)))
    else Err callback_failed.
Proof.
  induction cs as [|ps cs IH]; intros ctx Hcs Hb Hs.
  - cbn [fmap list_fmap concat layout]. rewrite !app_nil_r, with_body_id.
    by rewrite (proj2 (Z.leb_le _ _)) by lia.
  - inversion_clear Hcs as [|? ? Hp Hcs']. rewrite fmap_cons in *. cbn [concat layout] in *.
    rewrite app_assoc in *. pose proof (size_of_nonneg (concat (cat <$> cs))).
    rewrite size_of_app in Hs.
    rewrite bind_cons, run_app. unfold chunk_events at 1. rewrite run_cons. cbn [on_event].
    unfold restinio_chunk_header_cb. rewrite (proj2 (Z.eqb_neq _ _)) by lia.
    unfold of_callback. cbn [negb fst snd].
    rewrite run_app, run_body by (cbn [m_body with_block m_limits]; lia).
    cbn [m_body with_block m_limits].
    destruct (Z.leb_spec (size_of (m_body ctx ++ concat ps)) (max_body_size (m_limits ctx))).
    + rewrite run_cons. cbn [on_event]. cbn [run_parser foldM]. fold (run_parser from_nodejs).
      change (foldM (on_event from_nodejs)) with (run_parser from_nodejs).
      rewrite IH; try done; cbn [m_body with_body m_limits].
      * cbn [m_chunked_info_block m_chunks with_body with_block].
        rewrite <- size_of_app, <- !app_assoc. done.
      * rewrite size_of_app. lia.
    + rewrite (proj2 (Z.leb_gt _ _)); [done|]. rewrite size_of_app. lia.
Qed.

(** Every chunk is found again in the body. *)
Lemma layout_views cs : forall pre post,
  Forall (fun ps => 0 < size_of (concat ps)) cs ->
  size_of (pre ++ concat (cat <$> cs) ++ post) < 2 ^ 64 ->
  (fun c => make_string_view c (pre ++ concat (cat <$> cs) ++ post)) <$> layout (size_of pre) cs
  = (fun ps => Some (cat ps)) <$> cs.
Proof.
  induction cs as [|ps cs IH]; intros pre post Hcs Hs; [done|].
  inversion_clear Hcs as [|? ? Hp Hcs']. rewrite !fmap_cons. cbn [concat layout fmap list_fmap] in *.
  rewrite <- app_assoc in *. f_equal.
  - unfold make_string_view. cbn [m_started_at m_size]. fold (size_of (pre ++ concat ps ++ concat (cat <$> cs) ++ post)).
    rewrite !size_of_app in *.
    pose proof (size_of_nonneg pre). pose proof (size_of_nonneg post).
    pose proof (size_of_nonneg (concat (cat <$> cs))).
    rewrite wrap_small by lia. rewrite (proj2 (Z.leb_gt _ _)) by lia.
    rewrite (proj2 (Z.ltb_ge _ _)) by lia. cbn [orb compose]. f_equal. unfold size_of.
    rewrite !Nat2Z.id, drop_app_length, take_app_length. done.
  - rewrite <- size_of_app. specialize (IH (pre ++ concat ps) post Hcs').
    rewrite <- app_assoc in IH. by apply IH.
Qed.

End Assembly.

(** ** Whole messages *)

Inductive body_pieces : Type :=
| Plain (ps : list bytes)
| Chunked (cs : list (list bytes)) (trailing : list field_pieces).

Record message : Type := mk_message {
  msg_url : list bytes;
  msg_fields : list field_pieces;
  msg_content_length : Z;
  msg_body : body_pieces;
  msg_method : Z;
  msg_upgrade : bool;
  msg_keep_alive : bool }.

Definition body_of (b : body_pieces) : bytes :=
  match b with Plain ps => concat ps | Chunked cs _ => concat (@concat Z <$> cs) end.

Definition chunks_in (b : body_pieces) : list (list bytes) :=
  match b with Plain _ => [] | Chunked cs _ => cs end.

Definition trailing_of (b : body_pieces) : list field_pieces :=
  match b with Plain _ => [] | Chunked _ t => t end.

Definition body_events (b : body_pieces) : list parser_event :=
  match b with
  | Plain ps => OnBody <$> ps
  | Chunked cs trailing =>
      (cs ≫= chunk_events) ++ OnChunkHeader 0 :: (trailing ≫= field_events) ++ [OnChunkComplete]
  end.

Definition message_events (m : message) : list parser_event :=
  (OnUrl <$> msg_url m) ++ (msg_fields m ≫= field_events) ++
  OnHeadersComplete (msg_content_length m) :: body_events (msg_body m) ++
  [OnMessageComplete (msg_method m) (msg_upgrade m) (msg_keep_alive m)].

Definition all_fields (m : message) : list field_pieces := msg_fields m ++ trailing_of (msg_body m).

(** Sizes of 64 bits, chunks with something in them, and a content length
    that is absent or right: what the parser guarantees. *)
Record wf_message (m : message) : Prop := {
  wfm_values : Forall (fun f => size_of (fp_value f) < 2 ^ 64) (all_fields m);
  wfm_count : Z.of_nat (length (all_fields m)) < 2 ^ 64;
  wfm_body : size_of (body_of (msg_body m)) < 2 ^ 64;
  wfm_chunks : Forall (fun ps => 0 < size_of (concat ps)) (chunks_in (msg_body m));
  wfm_length : msg_content_length m = ULLONG_MAX \/ msg_content_length m = 0 \/
    msg_content_length m = size_of (body_of (msg_body m)) }.

Definition wf_limits (l : incoming_http_msg_limits_t) : Prop :=
  0 <= max_url_size l /\ 0 <= max_field_count l /\ 0 <= max_body_size l.

Definition within_limits (l : incoming_http_msg_limits_t) (m : message) : bool :=
  (size_of (concat (msg_url m)) <=? max_url_size l) &&
  (Z.of_nat (length (all_fields m)) <=? max_field_count l) &&
  forallb (field_within l) (all_fields m) &&
  (size_of (body_of (msg_body m)) <=? max_body_size l).

Section Messages.
Context (http_method_get : Z) (from_nodejs : Z -> Z).
Abbreviation run := (run_parser from_nodejs).
Abbreviation chunks_of ctx := (m_chunks (m_chunked_info_block ctx)).

Definition with_target (ctx : http_parser_ctx_t) (t : Target.t) : http_parser_ctx_t :=
  {| m_target := t; m_header := m_header ctx; m_header_method := m_header_method ctx;
     m_header_connection := m_header_connection ctx; m_body := m_body ctx;
     m_current_field_name := m_current_field_name ctx;
     m_last_value_total_size := m_last_value_total_size ctx;
     m_last_was_value := m_last_was_value ctx;
     m_leading_headers_completed := m_leading_headers_completed ctx;
     m_chunked_info_block := m_chunked_info_block ctx;
     m_message_complete := m_message_complete ctx;
     m_total_field_count := m_total_field_count ctx; m_limits := m_limits ctx |}.

Lemma run_url ps : forall ctx t,
  m_target ctx = Target.request_target t -> size_of t <= max_url_size (m_limits ctx) ->
  run ctx (OnUrl <$> ps) =
    if size_of (t ++ concat ps) <=? max_url_size (m_limits ctx)
    then Ok (with_target ctx (Target.request_target (t ++ concat ps))) else Err callback_failed.
Proof.
  induction ps as [|p ps IH]; intros ctx t Ht Hs.
  - cbn [fmap list_fmap concat]. rewrite app_nil_r, <- Ht. rewrite (proj2 (Z.leb_le _ _)) by lia.
    by destruct ctx.
  - rewrite fmap_cons, run_cons. cbn [on_event concat]. unfold restinio_url_cb, of_callback.
    rewrite Ht, append_request_target_whole. cbn [fst snd Target.m_request_target Target.request_target].
    rewrite app_assoc.
    destruct (Z.ltb_spec (max_url_size (m_limits ctx)) (size_of (t ++ p))); cbn [negb].
    + rewrite (proj2 (Z.leb_gt _ _)); [done|]. rewrite size_of_app.
      pose proof (size_of_nonneg (concat ps)). lia.
    + by rewrite (IH _ (t ++ p)).
Qed.

(** The body of either kind, after the header. *)
Lemma run_body_events ctx b :
  m_leading_headers_completed ctx = true -> m_last_was_value ctx = true ->
  m_body ctx = [] -> m_chunked_info_block ctx = empty_block ->
  Forall (fun ps => 0 < size_of (concat ps)) (chunks_in b) ->
  size_of (body_of b) < 2 ^ 64 -> 0 <= max_body_size (m_limits ctx) ->
  Forall (fun f => size_of (fp_value f) < 2 ^ 64) (trailing_of b) ->
  0 <= m_total_field_count ctx <= max_field_count (m_limits ctx) ->
  m_total_field_count ctx + Z.of_nat (length (trailing_of b)) < 2 ^ 64 ->
  if (size_of (body_of b) <=? max_body_size (m_limits ctx)) &&
     ((m_total_field_count ctx + Z.of_nat (length (trailing_of b)) <=? max_field_count (m_limits ctx)) &&
      forallb (field_within (m_limits ctx)) (trailing_of b))
  then exists ctx', run ctx (body_events b) = Ok ctx' /\
    m_body ctx' = body_of b /\ chunks_of ctx' = layout 0 (chunks_in b) /\
    m_trailing_fields (m_chunked_info_block ctx') = field_of_pieces <$> trailing_of b /\
    m_last_was_value ctx' = true /\ m_target ctx' = m_target ctx /\ m_header ctx' = m_header ctx /\
    m_limits ctx' = m_limits ctx
  else run ctx (body_events b) = Err callback_failed.
Proof.
  intros Hlead Hlast Hb Hblk Hcs Hs Hmax Hv Hc Hn.
  assert (Hb0 : size_of (m_body ctx) <= max_body_size (m_limits ctx)) by (rewrite Hb; unfold size_of; cbn [length]; lia).
  destruct b as [ps|cs trailing]; cbn [body_of chunks_in trailing_of body_events] in *.
  - cbn [length forallb]. rewrite Z.add_0_r, andb_true_r.
    rewrite (proj2 (Z.leb_le (m_total_field_count ctx) _)) by lia. rewrite andb_true_r.
    rewrite run_body by (rewrite ?Hb; done). rewrite Hb. cbn [app].
    destruct (_ <=? _); [|done]. eexists; split; [done|]. cbn.
    by rewrite Hblk.
  - rewrite run_app, run_chunks by (rewrite ?Hb; done). rewrite Hb. cbn [app].
    destruct (_ <=? max_body_size _); [|done]. cbn [andb].
    rewrite run_cons. cbn [on_event]. unfold restinio_chunk_header_cb. cbn [Z.eqb negb].
    unfold of_callback. cbn [fst snd]. rewrite run_app.
    set (ctx1 := with_body _ _ _).
    pose proof (run_fields from_nodejs trailing ctx1 Hlast Hv Hc Hn) as Hf.
    change (m_limits ctx1) with (m_limits ctx) in Hf.
    change (m_total_field_count ctx1) with (m_total_field_count ctx) in Hf.
    destruct (_ && _); [|by rewrite Hf]. destruct Hf as (nm & sz & ->).
    eexists; split; [done|]. unfold ctx1, with_fields, current_fields. cbn.
    by rewrite Hlead, Hblk.
Qed.

(** C12 (functional). However the parser cuts a message into pieces, the
    callbacks accept it exactly when it is within the limits (the target, the
    number of fields with the trailing ones counted in, the names, the values,
    which must stay strictly below theirs, and the body), and then the request
    has the target, the fields in order, the body, the chunks, each found again
    in the body, and the trailing fields; and moving the chunk information out
    leaves a context that the next [reset] makes fresh. *)
Theorem request_assembled c0 m
  (Hblk : m_chunked_info_block c0 = empty_block)
  (Hl : wf_limits (m_limits c0)) (Hm : wf_message m) :
  if within_limits (m_limits c0) m
  then exists ctx, run (ctx_reset http_method_get c0) (message_events m) = Ok ctx /\
    m_target ctx = Target.request_target (concat (msg_url m)) /\
    m_header ctx = field_of_pieces <$> msg_fields m /\
    m_header_method ctx = from_nodejs (msg_method m) /\
    m_body ctx = body_of (msg_body m) /\
    ((fun c => make_string_view c (m_body ctx)) <$> chunks_of ctx
       = (fun ps => Some (concat ps)) <$> chunks_in (msg_body m)) /\
    m_trailing_fields (m_chunked_info_block ctx) = field_of_pieces <$> trailing_of (msg_body m) /\
    m_message_complete ctx = true /\
    m_chunked_info_block (make_chunked_input_info_if_necessary ctx).2 = empty_block
  else run (ctx_reset http_method_get c0) (message_events m) = Err callback_failed.
Proof.
  destruct Hl as (Hlu & Hlc & Hlb). destruct Hm as [Hv Hn Hb Hcs Hlen].
  unfold all_fields in *. rewrite Forall_app in Hv. destruct Hv as [Hv1 Hv2].
  rewrite length_app, Nat2Z.inj_add in Hn.
  unfold within_limits, all_fields. rewrite length_app, Nat2Z.inj_add, forallb_app.
  set (ctx0 := ctx_reset http_method_get c0). change (m_limits c0) with (m_limits ctx0) in *.
  unfold message_events. rewrite run_app.
  rewrite (run_url _ ctx0 []) by (done || (unfold size_of; cbn [length]; lia)). cbn [app].
  destruct (_ <=? max_url_size _); [|done]. cbn [andb].
  set (ctx1 := with_target ctx0 _). rewrite run_app.
  pose proof (run_fields from_nodejs (msg_fields m) ctx1 eq_refl Hv1) as Hf.
  change (m_limits ctx1) with (m_limits ctx0) in Hf. change (m_total_field_count ctx1) with 0 in Hf.
  specialize (Hf ltac:(lia) ltac:(lia)).
  rewrite Z.add_0_l in Hf.
  set (n1 := Z.of_nat (length (msg_fields m))) in *.
  set (n2 := Z.of_nat (length (trailing_of (msg_body m)))) in *.
  assert (0 <= n1 /\ 0 <= n2) by lia.
  destruct ((n1 <=? _) && forallb _ (msg_fields m)) eqn:E1.
  2: { rewrite Hf. replace (_ && _ && _) with false; [done|]. symmetry.
       rewrite andb_false_iff in E1. rewrite !andb_false_iff.
       destruct E1 as [E1 | ->]; [|by left; right; left].
       left; left. rewrite Z.leb_gt in *. lia. }
  rewrite andb_true_iff, Z.leb_le in E1. destruct E1 as [E1 E2]. rewrite E2. cbn [andb].
  destruct Hf as (nm & sz & ->). rewrite run_cons. cbn [on_event].
  unfold restinio_headers_complete_cb, of_callback. cbn [fst snd].
  set (ctx2 := mk_ctx _ _ _ _ _ _ _ _ _ _ _ _ _).
  assert (Hhc : negb (negb (ULLONG_MAX =? msg_content_length m) && (0 <? msg_content_length m) &&
      (max_body_size (m_limits ctx2) <? msg_content_length m)) = false ->
      (size_of (body_of (msg_body m)) <=? max_body_size (m_limits ctx0)) = false).
  { rewrite negb_false_iff, !andb_true_iff, negb_true_iff, Z.eqb_neq, !Z.ltb_lt, Z.leb_gt.
    change (m_limits ctx2) with (m_limits ctx0). lia. }
  change (m_limits (with_fields ctx1 _ _ _ _)) with (m_limits ctx2).
  destruct (negb (_ && _ && _)) eqn:Ehc.
  2: { rewrite (Hhc eq_refl), !andb_false_r. done. }
  clear Hhc. rewrite run_app.
  pose proof (run_body_events ctx2 (msg_body m) eq_refl eq_refl eq_refl Hblk Hcs Hb Hlb Hv2) as Hbody.
  change (m_limits ctx2) with (m_limits ctx0) in Hbody.
  change (m_total_field_count ctx2) with n1 in Hbody.
  specialize (Hbody ltac:(lia) ltac:(fold n2; lia)). fold n2 in Hbody.
  replace ((n1 + n2 <=? max_field_count (m_limits ctx0)) &&
    forallb (field_within (m_limits ctx0)) (trailing_of (msg_body m)) &&
    (size_of (body_of (msg_body m)) <=? max_body_size (m_limits ctx0)))
    with ((size_of (body_of (msg_body m)) <=? max_body_size (m_limits ctx0)) &&
      ((n1 + n2 <=? max_field_count (m_limits ctx0)) &&
       forallb (field_within (m_limits ctx0)) (trailing_of (msg_body m)))) by apply andb_comm.
  match goal with |- if ?b then _ else _ => destruct b end; [|by rewrite Hbody].
  destruct Hbody as (ctx3 & -> & Hb3 & Hch & Htr & Hlast & Htg & Hhd & _).
  cbn [run_parser foldM on_event]. unfold restinio_message_complete_cb, of_callback. cbn [fst snd].
  rewrite Hlast. cbn [negb andb]. eexists; split; [done|]. cbn.
  rewrite Htg, Hhd, Hb3, Htr, Hch. repeat split; try done.
  - pose proof (layout_views (chunks_in (msg_body m)) [] []) as Hview. cbn [app] in Hview.
    change (size_of []) with 0 in Hview. rewrite app_nil_r in Hview.
    destruct (msg_body m) as [ps|cs tr]; [done|]. by apply Hview.
  - unfold make_chunked_input_info_if_necessary. cbn.
    destruct (m_chunked_info_block ctx3) as [[|] [|]]; done.
Qed.

End Messages.

(** ** Witness *)

(** A chunked request in many pieces, with a trailing field. *)
Definition example_message : message :=
  {| msg_url := [str "/pa"; str "th?q"; str "=1#f"];
     msg_fields := [mk_pieces (str "Ho") [str "st"] (str "local") [str "ho"; str "st"];
                    mk_pieces (str "Transfer-Encoding") [] (str "chunked") []];
     msg_content_length := ULLONG_MAX;
     msg_body := Chunked [[str "he"; str "llo"]; [str " world"]]
                   [mk_pieces (str "X-Sum") [] (str "4") [str "2"]];
     msg_method := 3; msg_upgrade := false; msg_keep_alive := true |}.

Definition example_limits (value_size : Z) : incoming_http_msg_limits_t :=
  {| max_url_size := 16; max_field_name_size := 17; max_field_value_size := value_size;
     max_field_count := 3; max_body_size := 11 |}.

Lemma example_message_wf : wf_message example_message.
Proof.
  split.
  - repeat constructor; vm_compute; congruence.
  - vm_compute; reflexivity.
  - vm_compute; reflexivity.
  - repeat constructor; vm_compute; congruence.
  - by left.
Defined.

(** The longest value has nine bytes: a limit of ten accepts the message, a
    limit of nine does not. *)
Lemma request_assembled_witness :
  (exists ctx, run_parser id (ctx_reset 1 (ctx_create 1 (example_limits 10)))
     (message_events example_message) = Ok ctx /\ m_body ctx = str "hello world") /\
  run_parser id (ctx_reset 1 (ctx_create 1 (example_limits 9)))
     (message_events example_message) = Err callback_failed.
Proof.
  split.
  - pose proof (request_assembled 1 id (ctx_create 1 (example_limits 10)) example_message eq_refl) as H.
    specialize (H ltac:(vm_compute; intuition congruence) example_message_wf).
    change (within_limits _ _) with true in H. destruct H as (ctx & Hr & _ & _ & _ & Hb & _).
    exists ctx. split; [exact Hr | exact Hb].
  - exact (request_assembled 1 id (ctx_create 1 (example_limits 9)) example_message eq_refl
      ltac:(vm_compute; intuition congruence) example_message_wf).
Defined.
