(* ===== verification/Limiter.v ===== *)
(** * Accepting connections under a limit

    [restinio/connection_count_limiter.hpp] and the accept loop of
    [restinio/impl/acceptor.hpp]: the limiter of parallel connections, its
    no-op variant, and the server that accepts through either of them, which
    one being a type class as it is a trait in the code. The mutex makes every
    method of the limiter one atomic step. What the network, the IP blocker and
    the users' code decide comes as events; [step] answers [None] for an event
    that cannot happen in a state. *)

From stdpp Require Import relations.
From S2P Require Import Prelude.

(** ** The limiters *)

(** What the acceptor uses of a limiter: [accept_next] answers whether
    [call_accept_now] is called back, and [decrement_parallel_connections]
    which index [schedule_next_accept_attempt] is called with, if any. *)
Class CountLimiter (L : Type) : Type := {
  increment_parallel_connections : L -> L;
  decrement_parallel_connections : L -> L * option nat;
  accept_next : L -> nat -> L * bool }.

(*@ connection_count_limiter.hpp 114-172 actual_limiter_t *)
Record actual_limiter_t : Type := mk_limiter {
  m_active_accepts : Z;
  m_connections : Z;
  m_max_parallel_connections : Z;
  m_pending_indexes : list nat }.

(*@ connection_count_limiter.hpp 175-183 actual_limiter_t::actual_limiter_t *)
Definition limiter_create (max_parallel_connections : Z) : actual_limiter_t :=
  {| m_active_accepts := 0; m_connections := 0;
     m_max_parallel_connections := max_parallel_connections; m_pending_indexes := [] |}.

(*@ connection_count_limiter.hpp 167-172 actual_limiter_t::has_free_slots *)
Definition has_free_slots (l : actual_limiter_t) : bool :=
  wrap 64 (m_active_accepts l + m_connections l) <? m_max_parallel_connections l.

(*@ connection_count_limiter.hpp 188-197 actual_limiter_t::increment_parallel_connections *)
Definition actual_increment (l : actual_limiter_t) : actual_limiter_t :=
  {| m_active_accepts := wrap 64 (m_active_accepts l - 1);
     m_connections := wrap 64 (m_connections l + 1);
     m_max_parallel_connections := m_max_parallel_connections l;
     m_pending_indexes := m_pending_indexes l |}.

(** The pending indexes are a stack, its top at the end. *)
(*@ connection_count_limiter.hpp 201-228 actual_limiter_t::decrement_parallel_connections *)
Definition actual_decrement (l : actual_limiter_t) : actual_limiter_t * option nat :=
  let l :=
    {| m_active_accepts := m_active_accepts l; m_connections := wrap 64 (m_connections l - 1);
       m_max_parallel_connections := m_max_parallel_connections l;
       m_pending_indexes := m_pending_indexes l |} in
  if has_free_slots l then
    match last (m_pending_indexes l) with
    | Some pending_index =>
        ({| m_active_accepts := m_active_accepts l; m_connections := m_connections l;
            m_max_parallel_connections := m_max_parallel_connections l;
            m_pending_indexes := removelast (m_pending_indexes l) |}, Some pending_index)
    | None => (l, None)
    end
  else (l, None).

(*@ connection_count_limiter.hpp 235-259 actual_limiter_t::accept_next *)
Definition actual_accept_next (l : actual_limiter_t) (index : nat) : actual_limiter_t * bool :=
  if has_free_slots l then
    ({| m_active_accepts := wrap 64 (m_active_accepts l + 1); m_connections := m_connections l;
        m_max_parallel_connections := m_max_parallel_connections l;
        m_pending_indexes := m_pending_indexes l |}, true)
  else
    ({| m_active_accepts := m_active_accepts l; m_connections := m_connections l;
        m_max_parallel_connections := m_max_parallel_connections l;
        m_pending_indexes := m_pending_indexes l ++ [index] |}, false).

#[global] Instance actual_limiter : CountLimiter actual_limiter_t := {|
  increment_parallel_connections := actual_increment;
  decrement_parallel_connections := actual_decrement;
  accept_next := actual_accept_next |}.

(*@ connection_count_limiter.hpp 270-298 noop_connection_count_limiter_t *)
#[global] Instance noop_limiter : CountLimiter unit := {|
  increment_parallel_connections := fun l => l;
  decrement_parallel_connections := fun l => (l, None);
  accept_next := fun l _ => (l, true) |}.

(** ** The server *)

(** The accept operations under way, the posted attempts, and the live
    lifetime monitors, of connections and of ones being made. *)
Record server_t (L : Type) : Type := mk_server {
  s_limiter : L;
  s_accepting : list nat;
  s_scheduled : list nat;
  s_monitors : nat }.
Arguments mk_server {L}.
Arguments s_limiter {L}.
Arguments s_accepting {L}.
Arguments s_scheduled {L}.
Arguments s_monitors {L}.

(** How [accept_connection_for_socket_with_index] goes for a connection that
    was accepted: an exception before the monitor is made (the peer is gone
    and has no endpoint, or the logger fails), or the answer of the IP blocker. *)
Inductive inspection : Type := accept_failed | deny | allow.

Inductive event : Type :=
| AcceptError (i : nat)
| Accepted (i : nat) (r : inspection)
| MonitorDestroyed
| RunScheduled (i : nat).

(** Removes one occurrence. *)
Fixpoint remove_one (i : nat) (l : list nat) : option (list nat) :=
  match l with
  | [] => None
  | x :: l' => if decide (x = i) then Some l' else cons x <$> remove_one i l'
  end.

Section Server.
Context {L : Type} `{Lim : CountLimiter L}.

(** [acceptor_t::accept_next] with the call back to [call_accept_now]. *)
(*@ impl/acceptor.hpp 380-384 acceptor_t::accept_next *)
Definition server_accept_next (s : server_t L) (i : nat) : server_t L :=
  let '(l, now) := accept_next (s_limiter s) i in
  mk_server l (if now then s_accepting s ++ [i] else s_accepting s) (s_scheduled s) (s_monitors s).

(** The constructor of [connection_lifetime_monitor_t]. *)
(*@ connection_count_limiter.hpp 379-384 connection_lifetime_monitor_t *)
Definition monitor_create (s : server_t L) : server_t L :=
  mk_server (increment_parallel_connections (s_limiter s)) (s_accepting s) (s_scheduled s)
    (S (s_monitors s)).

(** Its destructor, of one that was not moved from, with the call back to
    [schedule_next_accept_attempt]. *)
(*@ connection_count_limiter.hpp 386-390 ~connection_lifetime_monitor_t *)
Definition monitor_destroy (s : server_t L) : server_t L :=
  let '(l, index) := decrement_parallel_connections (s_limiter s) in
  mk_server l (s_accepting s)
    (match index with Some i => s_scheduled s ++ [i] | None => s_scheduled s end)
    (pred (s_monitors s)).

(*@ impl/acceptor.hpp 430-471 acceptor_t::accept_connection_for_socket_with_index *)
Definition accept_connection_for_socket_with_index (s : server_t L) (r : inspection) : server_t L :=
  match r with
  | accept_failed | deny => s
  | allow => monitor_create s
  end.

(*@ impl/acceptor.hpp 391-420 acceptor_t::accept_current_connection *)
Definition accept_current_connection (s : server_t L) (i : nat) (r : inspection) : server_t L :=
  server_accept_next (accept_connection_for_socket_with_index s r) i.

(** The loop of [open] over the sockets. *)
(*@ impl/acceptor.hpp 264-272 acceptor_t::open *)
Definition open_ (l : L) (concurrent_accepts_count : nat) : server_t L :=
  foldl server_accept_next (mk_server l [] [] 0) (seq 0 concurrent_accepts_count).

(** The handler of [async_accept] does nothing on an error. *)
(*@ impl/acceptor.hpp 325-355 acceptor_t::call_accept_now *)
Definition step (s : server_t L) (e : event) : option (server_t L) :=
  match e with
  | AcceptError i =>
      l ← remove_one i (s_accepting s);
      Some (mk_server (s_limiter s) l (s_scheduled s) (s_monitors s))
  | Accepted i r =>
      l ← remove_one i (s_accepting s);
      Some (accept_current_connection (mk_server (s_limiter s) l (s_scheduled s) (s_monitors s)) i r)
  | MonitorDestroyed =>
      match s_monitors s with O => None | S _ => Some (monitor_destroy s) end
  | RunScheduled i =>
      l ← remove_one i (s_scheduled s);
      Some (server_accept_next (mk_server (s_limiter s) (s_accepting s) l (s_monitors s)) i)
  end.

Fixpoint run (s : server_t L) (es : list event) : option (server_t L) :=
  match es with
  | [] => Some s
  | e :: es' => s' ← step s e; run s' es'
  end.

End Server.

(** ** The invariant *)

Lemma remove_one_perm i l l' : remove_one i l = Some l' -> l ≡ₚ i :: l'.
Proof.
  revert l'. induction l as [|x l IH]; intros l'; cbn; [done|].
  destruct (decide (x = i)) as [->|]; [by intros [= ->]|].
  intros (l1 & Hl & ->)%fmap_Some. rewrite (IH _ Hl). apply Permutation_swap.
Qed.

Lemma remove_one_length i l l' : remove_one i l = Some l' -> length l = S (length l').
Proof. intros H%remove_one_perm. by rewrite H. Qed.

Abbreviation server := (server_t actual_limiter_t).

(** The sockets of the pool, wherever they are. *)
Definition sockets (s : server) : list nat :=
  s_accepting s ++ s_scheduled s ++ m_pending_indexes (s_limiter s).

(** [leaked] accept slots are counted in [m_active_accepts] though no accept
    operation holds them. *)
Record server_inv (max : Z) (pool : list nat) (leaked : Z) (s : server) : Prop := {
  inv_max : m_max_parallel_connections (s_limiter s) = max;
  inv_active : m_active_accepts (s_limiter s) = Z.of_nat (length (s_accepting s)) + leaked;
  inv_connections : m_connections (s_limiter s) = Z.of_nat (s_monitors s);
  inv_limit : m_active_accepts (s_limiter s) + m_connections (s_limiter s) <= max;
  inv_leaked : 0 <= leaked;
  inv_wakeup : m_pending_indexes (s_limiter s) <> [] ->
    max - m_active_accepts (s_limiter s) - m_connections (s_limiter s)
      <= Z.of_nat (length (s_scheduled s));
  inv_sockets : exists lost, sockets s ++ lost ≡ₚ pool /\ (leaked = 0 -> lost = []) }.

(** How an event changes the number of leaked slots. *)
Definition leaks (e : event) : Z :=
  match e with
  | AcceptError _ | Accepted _ accept_failed | Accepted _ deny => 1
  | _ => 0
  end.

Section Invariant.
Context (max : Z) (Hmax : 0 <= max < 2 ^ 64).

(** Between taking socket [i] for a new attempt and [accept_next]: one posted
    attempt may already have been taken off. *)
Record pre_inv (pool : list nat) (leaked : Z) (i : nat) (s : server) : Prop := {
  pre_max : m_max_parallel_connections (s_limiter s) = max;
  pre_active : m_active_accepts (s_limiter s) = Z.of_nat (length (s_accepting s)) + leaked;
  pre_connections : m_connections (s_limiter s) = Z.of_nat (s_monitors s);
  pre_limit : m_active_accepts (s_limiter s) + m_connections (s_limiter s) <= max;
  pre_leaked : 0 <= leaked;
  pre_wakeup : m_pending_indexes (s_limiter s) <> [] ->
    max - m_active_accepts (s_limiter s) - m_connections (s_limiter s)
      <= Z.of_nat (length (s_scheduled s)) + 1;
  pre_sockets : exists lost, (i :: sockets s) ++ lost ≡ₚ pool /\ (leaked = 0 -> lost = []) }.

Lemma accept_next_inv pool leaked i s :
  pre_inv pool leaked i s -> server_inv max pool leaked (server_accept_next s i).
Proof.
  destruct s as [[a c m p] acc sch mon]. intros []. cbn in *.
  unfold server_accept_next. cbn [accept_next actual_limiter s_limiter].
  unfold actual_accept_next, has_free_slots.
  cbn [m_active_accepts m_connections m_max_parallel_connections m_pending_indexes].
  rewrite wrap_small by lia. destruct pre_sockets0 as (lost & Hl & Hl0).
  destruct (Z.ltb_spec (a + c) m); split; cbn; rewrite ?length_app; cbn;
    rewrite ?wrap_small by lia; try lia.
  - intros Hp. specialize (pre_wakeup0 Hp). lia.
  - exists lost. split; [|done]. rewrite <- Hl. unfold sockets. cbn.
    rewrite <- !app_assoc. symmetry. apply Permutation_middle.
  - exists lost. split; [|done]. rewrite <- Hl. unfold sockets. cbn.
    replace ((acc ++ sch ++ p ++ [i]) ++ lost) with ((acc ++ sch ++ p) ++ i :: lost)
      by (by rewrite <- !app_assoc).
    symmetry. apply Permutation_middle.
Qed.

Lemma open_inv n : server_inv max (seq 0 n) 0 (open_ (limiter_create max) n).
Proof.
  unfold open_.
  assert (H : forall rest pool s, server_inv max pool 0 s ->
    server_inv max (pool ++ rest) 0 (foldl server_accept_next s rest)).
  { induction rest as [|i rest IH]; intros pool s Hs; cbn [foldl]; [by rewrite app_nil_r|].
    replace (pool ++ i :: rest) with ((pool ++ [i]) ++ rest) by (by rewrite <- app_assoc).
    apply IH, accept_next_inv. destruct Hs. split; try done.
    - intros Hp. specialize (inv_wakeup0 Hp). lia.
    - destruct inv_sockets0 as (lost & Hl & Hl0). exists lost. split; [|done].
      cbn [app]. rewrite Hl. apply Permutation_cons_append. }
  apply (H (seq 0 n) []). split; cbn; try lia; try done. by exists [].
Qed.

(** Taking an accept operation off leaves its slot to be used again or leaked. *)
Lemma accepting_removed pool leaked s i l :
  server_inv max pool leaked s -> remove_one i (s_accepting s) = Some l ->
  Z.of_nat (length (s_accepting s)) = Z.of_nat (length l) + 1 /\
  exists lost, (i :: sockets (mk_server (s_limiter s) l (s_scheduled s) (s_monitors s))) ++ lost ≡ₚ pool /\
    (leaked = 0 -> lost = []).
Proof.
  intros [] Hr. pose proof (remove_one_length _ _ _ Hr). split; [lia|].
  destruct inv_sockets0 as (lost & Hl & Hl0). exists lost. split; [|done].
  rewrite <- Hl. unfold sockets. cbn. by rewrite (remove_one_perm _ _ _ Hr).
Qed.

Lemma step_inv pool leaked s e s' :
  server_inv max pool leaked s -> step s e = Some s' ->
  server_inv max pool (leaked + leaks e) s'.
Proof.
  intros Hi Hs. destruct e as [i|i r| |i]; cbn [step leaks] in *.
  - apply bind_Some in Hs as (l & Hr & [= <-]).
    destruct (accepting_removed _ _ _ _ _ Hi Hr) as [Hl (lost & Hp & Hl0)]. destruct Hi.
    split; cbn [s_limiter s_accepting s_scheduled s_monitors]; try done; try lia.
    exists (i :: lost). split; [|lia]. rewrite <- Hp. cbn. symmetry. apply Permutation_middle.
  - apply bind_Some in Hs as (l & Hr & [= <-]).
    destruct (accepting_removed _ _ _ _ _ Hi Hr) as [Hl (lost & Hp & Hl0)]. destruct Hi.
    apply accept_next_inv. destruct r; cbn [accept_connection_for_socket_with_index leaks].
    1, 2: split; cbn [s_limiter s_accepting s_scheduled s_monitors]; try done; try lia;
      [intros Hne; specialize (inv_wakeup0 Hne); lia | exists lost; split; [done | lia]].
    rewrite Z.add_0_r.
    destruct s as [[a c m p] acc sch mon]. cbn in *.
    split; cbn; rewrite ?wrap_small by lia; try lia; try done.
    + intros Hne. specialize (inv_wakeup0 Hne). lia.
    + by exists lost.
  - destruct (s_monitors s) as [|k] eqn:Em; [done|]. injection Hs as <-. rewrite Z.add_0_r.
    destruct s as [[a c m p] acc sch mon]. destruct Hi. cbn in *. subst mon.
    unfold monitor_destroy. cbn [s_limiter]. cbn [decrement_parallel_connections actual_limiter].
    unfold actual_decrement, has_free_slots.
    cbn [m_active_accepts m_connections m_max_parallel_connections m_pending_indexes].
    rewrite (wrap_small 64 (c - 1)) by lia. rewrite wrap_small by lia.
    rewrite (proj2 (Z.ltb_lt _ _)) by lia.
    destruct (last p) as [i|] eqn:El.
    + apply last_Some in El as [p' ->]. rewrite removelast_last.
      split; cbn; rewrite ?length_app; cbn; try lia.
      * intros _. assert (p' ++ [i] <> []) as Hne by (by destruct p'). specialize (inv_wakeup0 Hne). lia.
      * destruct inv_sockets0 as (lost & Hl & Hl0). exists lost. split; [|done].
        rewrite <- Hl. unfold sockets. cbn. rewrite <- !app_assoc. do 2 apply Permutation_app_head.
        rewrite !app_assoc. apply Permutation_app_tail, Permutation_app_comm.
    + apply last_None in El as ->. split; cbn; try lia; done.
  - apply bind_Some in Hs as (l & Hr & [= <-]). rewrite Z.add_0_r.
    pose proof (remove_one_length _ _ _ Hr). destruct Hi. apply accept_next_inv.
    split; cbn [s_limiter s_accepting s_scheduled s_monitors]; try done.
    + intros Hne. specialize (inv_wakeup0 Hne). lia.
    + destruct inv_sockets0 as (lost & Hl & Hl0). exists lost. split; [|done].
      rewrite <- Hl. unfold sockets. cbn. rewrite (remove_one_perm _ _ _ Hr).
      cbn [app]. rewrite <- !app_assoc. cbn [app]. rewrite <- !app_assoc. apply Permutation_middle.
Qed.

Definition total_leaks (es : list event) : Z := foldr (fun e n => leaks e + n) 0 es.

Lemma run_inv pool es : forall leaked s s',
  server_inv max pool leaked s -> run s es = Some s' ->
  server_inv max pool (leaked + total_leaks es) s'.
Proof.
  induction es as [|e es IH]; intros leaked s s' Hi Hr; cbn in *.
  - injection Hr as <-. by rewrite Z.add_0_r.
  - apply bind_Some in Hr as (s1 & H1 & H2). rewrite Z.add_assoc.
    apply (IH _ s1); [by apply (step_inv _ _ s) | done].
Qed.

End Invariant.

(** ** What the server guarantees *)

(** In every run, however accepts, denials, failures, posted
    attempts and closings interleave: the live connections, the accept
    operations under way and the slots lost so far never exceed the limit
    together, no socket of the pool is used for two things at once, and no
    wake-up is lost: as long as a socket is parked while a slot is free, an
    attempt to use it is already posted. *)
Theorem limiter_safe max n es s
  (Hmax : 0 <= max < 2 ^ 64) (Hr : run (open_ (limiter_create max) n) es = Some s) :
  Z.of_nat (s_monitors s) + Z.of_nat (length (s_accepting s)) + total_leaks es <= max /\
  NoDup (sockets s) /\
  (m_pending_indexes (s_limiter s) <> [] -> has_free_slots (s_limiter s) = true ->
     s_scheduled s <> []).
Proof.
  pose proof (run_inv max Hmax _ es _ _ _ (open_inv max Hmax n) Hr) as []. cbn in *.
  split; [lia|]. split.
  - destruct inv_sockets0 as (lost & Hl & _). pose proof (NoDup_seq 0 n) as Hn.
    rewrite <- Hl in Hn. by apply NoDup_app in Hn as [Hn _].
  - intros Hp Hf. unfold has_free_slots in Hf. rewrite wrap_small, Z.ltb_lt in Hf by lia.
    specialize (inv_wakeup0 Hp). destruct (s_scheduled s); [cbn in *; lia | done].
Qed.

(** As long as no accept fails and no connection is denied, the
    server keeps accepting: while fewer connections than the limit are alive,
    some accept operation is under way or an attempt is posted. *)
Theorem limiter_keeps_accepting max n es s
  (Hmax : 0 <= max < 2 ^ 64) (Hn : (0 < n)%nat)
  (Hr : run (open_ (limiter_create max) n) es = Some s) (Hl : total_leaks es = 0)
  (Hfree : Z.of_nat (s_monitors s) < max) :
  s_accepting s <> [] \/ s_scheduled s <> [].
Proof.
  pose proof (run_inv max Hmax _ es _ _ _ (open_inv max Hmax n) Hr) as []. rewrite Hl in *. cbn in *.
  destruct (s_accepting s) as [|i acc] eqn:Ea; [right | by left].
  destruct (s_scheduled s) as [|i sch] eqn:Es; [|done].
  destruct inv_sockets0 as (lost & Hp & Hlost). rewrite (Hlost eq_refl) in Hp.
  unfold sockets in Hp. rewrite Ea, Es in Hp.
  cbn in Hp. rewrite app_nil_r in Hp.
  assert (Hne : m_pending_indexes (s_limiter s) <> []).
  { intros E. rewrite E in Hp. apply Permutation_length in Hp. rewrite length_seq in Hp. cbn in Hp. lia. }
  specialize (inv_wakeup0 Hne). cbn in *. lia.
Qed.

Lemma denied_run max k : 0 < max < 2 ^ 64 -> (0 < k)%nat -> Z.of_nat k <= max ->
  run (open_ (limiter_create max) 1) (replicate (k - 1) (Accepted 0 deny)) =
    Some (mk_server (mk_limiter (Z.of_nat k) 0 max []) [0%nat] [] 0).
Proof.
  intros Hmax Hk Hle. destruct k as [|k]; [lia|]. clear Hk. cbn [Nat.sub]. rewrite Nat.sub_0_r.
  assert (H0 : open_ (limiter_create max) 1 = mk_server (mk_limiter 1 0 max []) [0%nat] [] 0).
  { unfold open_. cbn. unfold server_accept_next. cbn. unfold actual_accept_next, has_free_slots. cbn.
    rewrite (proj2 (Z.ltb_lt _ _)) by (rewrite wrap_small; lia). done. }
  rewrite H0. clear H0.
  assert (H : forall j a, 0 < a -> a + Z.of_nat j <= max ->
    run (mk_server (mk_limiter a 0 max []) [0%nat] [] 0) (replicate j (Accepted 0 deny)) =
    Some (mk_server (mk_limiter (a + Z.of_nat j) 0 max []) [0%nat] [] 0)).
  { induction j as [|j IH]; intros a Ha Hj; [cbn; by rewrite Z.add_0_r|].
    cbn [replicate run step]. cbn [s_accepting remove_one]. rewrite decide_True by done.
    cbn [mbind option_bind]. unfold accept_current_connection, server_accept_next.
    cbn [accept_connection_for_socket_with_index s_limiter accept_next actual_limiter].
    unfold actual_accept_next, has_free_slots.
    cbn [m_active_accepts m_connections m_max_parallel_connections m_pending_indexes].
    rewrite Z.add_0_r, (wrap_small 64 a), (proj2 (Z.ltb_lt _ _)) by lia.
    rewrite wrap_small by lia. cbn [app s_accepting s_scheduled s_monitors].
    rewrite IH by lia. do 3 f_equal. lia. }
  rewrite H by lia. do 3 f_equal. lia.
Qed.

(** A connection that the IP blocker denies, or whose set-up
    throws before its monitor exists, gives its slot never back: a server with
    one accept socket that limits its connections to [max] is dead after [max]
    denied connections, with no connection alive and no event left that could
    wake it. *)
Theorem denied_connections_exhaust_limiter max
  (Hmax : 0 < max < 2 ^ 64) :
  exists s, run (open_ (limiter_create max) 1) (replicate (Z.to_nat max) (Accepted 0 deny)) = Some s /\
    s_monitors s = 0%nat /\ forall e, step s e = None.
Proof.
  set (s := mk_server (mk_limiter max 0 max [0%nat]) [] [] 0). exists s.
  replace (Z.to_nat max) with ((Z.to_nat max - 1) + 1)%nat by lia.
  rewrite replicate_add.
  assert (Happ : forall es1 es2 (s1 : server),
    run s1 (es1 ++ es2) = (s2 ← run s1 es1; run s2 es2)).
  { clear. induction es1 as [|e es1 IH]; intros es2 s1; cbn; [done|].
    destruct (step s1 e); cbn; [apply IH | done]. }
  rewrite Happ, denied_run by lia. cbn [mbind option_bind replicate run step].
  cbn [s_accepting remove_one]. rewrite decide_True by done. cbn [mbind option_bind].
  unfold accept_current_connection, server_accept_next.
  cbn [accept_connection_for_socket_with_index s_limiter accept_next actual_limiter].
  unfold actual_accept_next, has_free_slots.
  cbn [m_active_accepts m_connections m_max_parallel_connections m_pending_indexes].
  rewrite Z2Nat.id, Z.add_0_r, wrap_small, Z.ltb_irrefl by lia.
  split; [done|]. split; [done|]. by intros [].
Qed.

(** ** Witnesses *)

(** Two sockets, at most two connections: both are taken, one closes, the
    parked socket is woken. *)
Definition example_events : list event :=
  [Accepted 0 allow; Accepted 1 allow; MonitorDestroyed; RunScheduled 1].

Lemma limiter_safe_witness :
  exists s, run (open_ (limiter_create 2) 2) example_events = Some s /\
    s_accepting s = [1%nat] /\ m_pending_indexes (s_limiter s) = [0%nat] /\ s_monitors s = 1%nat /\
    NoDup (sockets s).
Proof.
  destruct (run (open_ (limiter_create 2) 2) example_events) as [s|] eqn:E;
    [|vm_compute in E; discriminate].
  exists s. split; [done|]. pose proof (limiter_safe 2 2 example_events s ltac:(lia) E) as (_ & Hn & _).
  vm_compute in E. injection E as <-. done.
Defined.

Lemma limiter_keeps_accepting_witness :
  exists s, run (open_ (limiter_create 2) 2) example_events = Some s /\
    (s_accepting s <> [] \/ s_scheduled s <> []).
Proof.
  destruct (run (open_ (limiter_create 2) 2) example_events) as [s|] eqn:E;
    [|vm_compute in E; discriminate].
  exists s. split; [done|].
  apply (limiter_keeps_accepting 2 2 example_events s); [lia | lia | done | done|].
  vm_compute in E. injection E as <-. cbn. lia.
Defined.

Lemma denied_connections_exhaust_limiter_witness :
  exists s, run (open_ (limiter_create 3) 1) (replicate 3 (Accepted 0 deny)) = Some s /\
    forall e, step s e = None.
Proof.
  destruct (denied_connections_exhaust_limiter 3 ltac:(lia)) as (s & Hr & _ & Hs).
  by exists s.
Defined.
