(* ===== verification/Accept.v ===== *)
(** * From an accepted socket to a connection

    [acceptor_t] of [restinio/impl/acceptor.hpp] with the IP blocker, the factory of
    [restinio/impl/connection.hpp] and the limiter of [Limiter]: what becomes of
    a socket that was accepted, with every call that may throw, and the connections that are alive.

    The accept handlers of different sockets, the handlers that make connections and the ends of connections run on
    any threads of the pool at once. An event is what one of them does up to and with its next
    access to shared data: a method of the limiter, which its mutex makes atomic, or a load or a store of the
    counter of connection ids, which is an ordinary member of the factory that nothing protects. A handler
    between two accesses is a value of [handler_t], and any of them may go on next. *)

From S2P Require Import Prelude Limiter.

(*@ ip_blocker.hpp 30-36 inspection_result_t *)
Inductive inspection_result_t : Type := deny_ | allow_.

(** How the making of a connection ends once it has its id: the allocation may throw, or [init] of the connection. *)
Inductive making : Type := made | allocation_throws | init_throws.

(** A handler under way. It is about to make a connection, has read its id but not written the
    next one, has caught an exception with a monitor to destroy, or has [accept_next] left to
    call. The socket is that of the accept handler, which a posted handler has not. *)
(*@ impl/acceptor.hpp 473-517 acceptor_t::do_accept_current_connection *)
Inductive handler_t : Type :=
| H_creating (remote_endpoint : nat) (i : option nat)
| H_numbering (id : Z) (remote_endpoint : nat) (i : option nat)
| H_failing (i : option nat)
| H_accepting_next (i : nat).

(** The server of [Limiter]; the posted handlers that will make a connection, by the endpoint; the handlers
    under way; the connections, by id and endpoint; and the counter of the factory. *)
(*@ impl/connection.hpp 1749-1757 connection_factory_t *)
Record acceptor_t (L : Type) : Type := mk_acceptor {
  a_server : server_t L;
  a_posted : list nat;
  a_handlers : list handler_t;
  a_alive : list (Z * nat);
  m_connection_id_counter : Z }.
Arguments mk_acceptor {L}.
Arguments a_server {L}.
Arguments a_posted {L}.
Arguments a_handlers {L}.
Arguments a_alive {L}.
Arguments m_connection_id_counter {L}.

(** Handlers, posted handlers and connections are chosen by position. [still_connected]: the peer is not gone either when its
    endpoint is asked for again. *)
Inductive acceptor_event : Type :=
| E_accept_error (i : nat)
| E_accepted (i : nat) (remote_endpoint : option nat) (log_throws still_connected post_throws : bool)
| E_run_posted (k : nat)
| E_drop_posted (k : nat)
| E_set_options (k : nat) (setter_throws : bool)
| E_make (k : nat) (m : making)
| E_fail (k : nat)
| E_accept_next (k : nat) (async_accept_throws : bool)
| E_connection_destroyed (k : nat)
| E_run_scheduled (i : nat) (async_accept_throws : bool).

(** Why a run does not go on: the event is not possible, or an exception has left a [noexcept] function. *)
Inductive stop_t : Type := impossible | terminated.

Section Acceptor.
Context {L : Type} `{Lim : CountLimiter L}.
(** The user's IP blocker, if there is one, and whether connections are made by a handler of their own. *)
Context (m_ip_blocker : option (nat -> inspection_result_t)) (separate_accept_and_create_connect : bool).

(** Asking for the endpoint may throw, and the function is [noexcept]. *)
(*@ impl/acceptor.hpp 110-152 ip_blocker_holder_t::inspect_incoming *)
Definition inspect_incoming (remote_endpoint : option nat) : option inspection_result_t :=
  match m_ip_blocker with
  | Some inspect => inspect <$> remote_endpoint
  | None => Some allow_
  end.

Definition with_server (a : acceptor_t L) (s : server_t L) : acceptor_t L :=
  mk_acceptor s (a_posted a) (a_handlers a) (a_alive a) (m_connection_id_counter a).

Definition with_handlers (a : acceptor_t L) (hs : list handler_t) : acceptor_t L :=
  mk_acceptor (a_server a) (a_posted a) hs (a_alive a) (m_connection_id_counter a).

(** [async_accept] may throw, and [call_accept_now] and [accept_next] are [noexcept]. *)
(*@ impl/acceptor.hpp 322-384 acceptor_t::accept_next *)
Definition call_accept_next (async_accept_throws : bool) (s : server_t L) (i : nat) : result stop_t (server_t L) :=
  if async_accept_throws && (accept_next (s_limiter s) i).2 then Err terminated else Ok (server_accept_next s i).

(** The first part, up to the load of the counter; the monitor is an argument by value. *)
(*@ impl/connection.hpp 1728-1742 connection_factory_t::create_new_connection *)
Definition read_connection_id (setter_throws : bool) (remote_endpoint : nat) (i : option nat) (m_connection_id_counter : Z) : handler_t :=
  if setter_throws then H_failing i else H_numbering m_connection_id_counter remote_endpoint i.

(** The second part, from the store: the counter, and the connection unless it cannot be allocated. *)
(*@ impl/connection.hpp 1728-1747 connection_factory_t::create_new_connection *)
Definition create_new_connection (m : making) (id : Z) (remote_endpoint : nat) : Z * option (Z * nat) :=
  (wrap 64 (id + 1), match m with allocation_throws => None | _ => Some (id, remote_endpoint) end).

(** What an accept handler has left to do when its connection is made, or was posted to be, or has failed. *)
(*@ impl/acceptor.hpp 418-420 acceptor_t::accept_current_connection *)
Definition continue_accepting (i : option nat) : list handler_t :=
  match i with Some i => [H_accepting_next i] | None => [] end.

(** A connection that throws in [init] is destroyed with its last pointer, and its monitor with it. *)
(*@ impl/acceptor.hpp 478-505 acceptor_t::do_accept_current_connection *)
Definition create_and_init_connection (m : making) (id : Z) (remote_endpoint : nat) (i : option nat) (others : list handler_t)
    (a : acceptor_t L) : acceptor_t L :=
  let '(counter, conn) := create_new_connection m id remote_endpoint in
  match conn, m with
  | Some conn, made => mk_acceptor (a_server a) (a_posted a) (others ++ continue_accepting i) (a_alive a ++ [conn]) counter
  | _, _ => mk_acceptor (a_server a) (a_posted a) (others ++ [H_failing i]) (a_alive a) counter
  end.

(** The monitor is made with the handler; when posting fails, it is destroyed with it. *)
(*@ impl/acceptor.hpp 473-517 acceptor_t::do_accept_current_connection *)
Definition do_accept_current_connection (remote_endpoint i : nat) (post_throws : bool) (a : acceptor_t L) : acceptor_t L :=
  let s := monitor_create (a_server a) in
  if separate_accept_and_create_connect then
    if post_throws then with_handlers (with_server a s) (a_handlers a ++ [H_failing (Some i)])
    else mk_acceptor s (a_posted a ++ [remote_endpoint]) (a_handlers a ++ continue_accepting (Some i)) (a_alive a) (m_connection_id_counter a)
  else with_handlers (with_server a s) (a_handlers a ++ [H_creating remote_endpoint (Some i)]).

(** The peer may be gone, and then [remote_endpoint] throws, and the logger may; exceptions are logged
    by the caller and end there. *)
(*@ impl/acceptor.hpp 430-471 acceptor_t::accept_connection_for_socket_with_index *)
Definition accept_connection (i : nat) (remote_endpoint : option nat) (log_throws still_connected post_throws : bool)
    (a : acceptor_t L) : result stop_t (acceptor_t L) :=
  let ended := with_handlers a (a_handlers a ++ continue_accepting (Some i)) in
  match remote_endpoint with
  | None => Ok ended
  | Some ep =>
      if log_throws then Ok ended
      else
        inspection_result ← of_option terminated (inspect_incoming (if still_connected then Some ep else None));
        match inspection_result with
        | deny_ => Ok ended
        | allow_ => Ok (do_accept_current_connection ep i post_throws a)
        end
  end.

(** The handlers of the acceptor, and the end of a connection. *)
Definition acceptor_step (a : acceptor_t L) (e : acceptor_event) : result stop_t (acceptor_t L) :=
  let s := a_server a in
  match e with
  | E_accept_error i =>
      l ← of_option impossible (remove_one i (s_accepting s));
      Ok (with_server a (mk_server (s_limiter s) l (s_scheduled s) (s_monitors s)))
  | E_accepted i ep lt sc pt =>
      l ← of_option impossible (remove_one i (s_accepting s));
      accept_connection i ep lt sc pt (with_server a (mk_server (s_limiter s) l (s_scheduled s) (s_monitors s)))
  | E_run_posted k =>
      ep ← of_option impossible (a_posted a !! k);
      Ok (mk_acceptor s (delete k (a_posted a)) (a_handlers a ++ [H_creating ep None]) (a_alive a) (m_connection_id_counter a))
  | E_drop_posted k =>
      ep ← of_option impossible (a_posted a !! k);
      Ok (mk_acceptor (monitor_destroy s) (delete k (a_posted a)) (a_handlers a) (a_alive a) (m_connection_id_counter a))
  | E_set_options k setter_throws =>
      h ← of_option impossible (a_handlers a !! k);
      match h with
      | H_creating ep i =>
          Ok (with_handlers a (delete k (a_handlers a) ++ [read_connection_id setter_throws ep i (m_connection_id_counter a)]))
      | _ => Err impossible
      end
  | E_make k m =>
      h ← of_option impossible (a_handlers a !! k);
      match h with
      | H_numbering id ep i => Ok (create_and_init_connection m id ep i (delete k (a_handlers a)) a)
      | _ => Err impossible
      end
  | E_fail k =>
      h ← of_option impossible (a_handlers a !! k);
      match h with
      | H_failing i => Ok (with_handlers (with_server a (monitor_destroy s)) (delete k (a_handlers a) ++ continue_accepting i))
      | _ => Err impossible
      end
  | E_accept_next k throws =>
      h ← of_option impossible (a_handlers a !! k);
      match h with
      | H_accepting_next i =>
          s' ← call_accept_next throws s i;
          Ok (with_handlers (with_server a s') (delete k (a_handlers a)))
      | _ => Err impossible
      end
  | E_connection_destroyed k =>
      conn ← of_option impossible (a_alive a !! k);
      Ok (mk_acceptor (monitor_destroy s) (a_posted a) (a_handlers a) (delete k (a_alive a)) (m_connection_id_counter a))
  | E_run_scheduled i throws =>
      l ← of_option impossible (remove_one i (s_scheduled s));
      s' ← call_accept_next throws (mk_server (s_limiter s) (s_accepting s) l (s_monitors s)) i;
      Ok (with_server a s')
  end.

Fixpoint acceptor_run (a : acceptor_t L) (es : list acceptor_event) : result stop_t (acceptor_t L) :=
  match es with [] => Ok a | e :: es => a' ← acceptor_step a e; acceptor_run a' es end.

Definition acceptor_opened (l : L) (concurrent_accepts_count : nat) : acceptor_t L :=
  mk_acceptor (open_ l concurrent_accepts_count) [] [] [] 1.

(** The ids that were read from the counter whose successor was not yet written. *)
Definition read_ids (hs : list handler_t) : list Z :=
  omap (fun h => match h with H_numbering id _ _ => Some id | _ => None end) hs.

(** No two threads are between the load and the store of the counter at once: so it is when the pool has one thread. *)
Fixpoint one_at_a_time (a : acceptor_t L) (es : list acceptor_event) : bool :=
  (length (read_ids (a_handlers a)) <=? 1)%nat &&
  match es with
  | [] => true
  | e :: es => match acceptor_step a e with Ok a' => one_at_a_time a' es | Err _ => true end
  end.
End Acceptor.

(** ** Invariant *)

Definition allows (m_ip_blocker : option (nat -> inspection_result_t)) (ep : nat) : bool :=
  match m_ip_blocker with
  | Some inspect => match inspect ep with deny_ => false | allow_ => true end
  | None => true
  end.

(** Slots that are lost because no monitor was made. *)
Definition event_leaks (m_ip_blocker : option (nat -> inspection_result_t)) (e : acceptor_event) : Z :=
  match e with
  | E_accept_error _ => 1
  | E_accepted _ ep lt _ _ =>
      match ep with Some ep => if lt then 1 else if allows m_ip_blocker ep then 0 else 1 | None => 1 end
  | _ => 0
  end.

(** What a handler holds: a socket of the pool, a monitor, an accepted peer. *)
Definition in_hand (h : handler_t) : option nat :=
  match h with H_creating _ i | H_numbering _ _ i | H_failing i => i | H_accepting_next i => Some i end.
Definition holds_monitor (h : handler_t) : bool := match h with H_accepting_next _ => false | _ => true end.
Definition endpoint_of (h : handler_t) : option nat :=
  match h with H_creating ep _ | H_numbering _ ep _ => Some ep | _ => None end.

(** Connections that are alive or being made, and their peers. *)
Definition connections {L} (a : acceptor_t L) : nat :=
  length (a_posted a) + length (filter holds_monitor (a_handlers a)) + length (a_alive a).
Definition endpoints {L} (a : acceptor_t L) : list nat :=
  a_posted a ++ omap endpoint_of (a_handlers a) ++ (a_alive a).*2.

(** The server, with the sockets in the hands of handlers as attempts that will be made. *)
Definition held_server (a : acceptor_t actual_limiter_t) : server :=
  let s := a_server a in
  mk_server (s_limiter s) (s_accepting s) (omap in_hand (a_handlers a) ++ s_scheduled s) (s_monitors s).

Section Invariant.
Context (max : Z) (Hmax : 0 <= max < 2 ^ 64) (blocker : option (nat -> inspection_result_t)) (separate : bool).

Lemma scheduled_perm pool leaked l acc sch sch' m : sch ≡ₚ sch' ->
  server_inv max pool leaked (mk_server l acc sch m) -> server_inv max pool leaked (mk_server l acc sch' m).
Proof.
  intros Hp []. split; cbn in *; try done; [by rewrite <- Hp|].
  unfold sockets in *. cbn in *. by setoid_rewrite <- Hp.
Qed.

Lemma destroy_server_inv pool leaked s : server_inv max pool leaked s -> s_monitors s <> 0%nat ->
  server_inv max pool leaked (monitor_destroy s).
Proof.
  intros Hs Hm. rewrite <- (Z.add_0_r leaked). apply (step_inv max Hmax pool leaked s MonitorDestroyed); [done|].
  cbn. by destruct (s_monitors s).
Qed.

(** The slot of an accept operation is lost, and the socket is in the hands of the handler; *)
Lemma lost_server_inv pool leaked lim acc sch m i l :
  server_inv max pool leaked (mk_server lim acc sch m) -> remove_one i acc = Some l ->
  server_inv max pool (leaked + 1) (mk_server lim l (i :: sch) m).
Proof.
  intros Hi Hr. destruct (accepting_removed max _ _ _ _ _ Hi Hr) as [Hl (lost & Hp & Hl0)]. destruct Hi.
  cbn [s_limiter s_accepting s_scheduled s_monitors] in *.
  split; cbn [s_limiter s_accepting s_scheduled s_monitors]; try done; try lia.
  - intros Hne. specialize (inv_wakeup Hne). cbn. lia.
  - exists lost. split; [|lia]. rewrite <- Hp. symmetry. exact (Permutation_app_tail lost (Permutation_middle l _ i)).
Qed.

(** or it becomes that of a monitor. *)
Lemma created_server_inv pool leaked lim acc sch m i l :
  server_inv max pool leaked (mk_server lim acc sch m) -> remove_one i acc = Some l ->
  server_inv max pool leaked (monitor_create (mk_server lim l (i :: sch) m)).
Proof.
  intros Hi Hr. destruct (accepting_removed max _ _ _ _ _ Hi Hr) as [Hl (lost & Hp & Hl0)]. destruct Hi.
  destruct lim as [a c mx p]. cbn in *. split; cbn; rewrite ?wrap_small by lia; try lia; try done.
  - intros Hne. specialize (inv_wakeup Hne). lia.
  - exists lost. split; [|done]. rewrite <- Hp. symmetry. exact (Permutation_app_tail lost (Permutation_middle l _ i)).
Qed.

(** The number of monitors, the slots and the peers of everything that lives. *)
Record acceptor_inv (pool : list nat) (leaked : Z) (a : acceptor_t actual_limiter_t) : Prop := {
  ai_server : server_inv max pool leaked (held_server a);
  ai_monitors : s_monitors (a_server a) = connections a;
  ai_allowed : Forall (fun ep => allows blocker ep = true) (endpoints a) }.

(** It does not depend on the order of anything. *)
Lemma acceptor_inv_perm pool leaked s p p' hs hs' al al' c c' : p ≡ₚ p' -> hs ≡ₚ hs' -> al ≡ₚ al' ->
  acceptor_inv pool leaked (mk_acceptor s p hs al c) -> acceptor_inv pool leaked (mk_acceptor s p' hs' al' c').
Proof.
  intros Hp Hh Ha []. split.
  - eapply scheduled_perm; [|exact ai_server0]. cbn. by rewrite Hh.
  - unfold connections in *. cbn in *. by rewrite <- Hp, <- Hh, <- Ha.
  - unfold endpoints in *. cbn in *. by rewrite <- Hp, <- Hh, <- Ha.
Qed.

Lemma connections_handler {L} (s s' : server_t L) p h hs al c c' : connections (mk_acceptor s p (h :: hs) al c) =
  ((if holds_monitor h then 1 else 0) + connections (mk_acceptor s' p hs al c'))%nat.
Proof.
  unfold connections. cbn [a_posted a_handlers a_alive]. rewrite filter_cons. destruct (holds_monitor h).
  - rewrite decide_True by done. cbn [length]. lia.
  - rewrite decide_False by (cbn; tauto). done.
Qed.

(** A handler that goes on without touching the server. *)
Lemma handler_goes_on pool leaked s p h h' hs al c c' :
  in_hand h' = in_hand h -> holds_monitor h' = holds_monitor h -> endpoint_of h' = endpoint_of h \/ endpoint_of h' = None ->
  acceptor_inv pool leaked (mk_acceptor s p (h :: hs) al c) -> acceptor_inv pool leaked (mk_acceptor s p (h' :: hs) al c').
Proof.
  intros Hi Hm He []. split.
  - unfold held_server in *. cbn in *. by rewrite Hi.
  - cbn [a_server] in *. rewrite ai_monitors0, !(connections_handler _ s _ _ _ _ _ c). by rewrite Hm.
  - unfold endpoints in *. cbn in *. destruct He as [-> | ->]; [done|]. rewrite !Forall_app in *. cbn.
    destruct (endpoint_of h); [|done]. rewrite Forall_cons in ai_allowed0. tauto.
Qed.

(** One monitor less, be it of a posted handler, of a handler or of a connection. *)
Lemma monitor_gone pool leaked s p hs al c p' hs' al' : acceptor_inv pool leaked (mk_acceptor s p hs al c) ->
  connections (mk_acceptor s p hs al c) = S (connections (mk_acceptor s p' hs' al' c)) ->
  omap in_hand hs' ≡ₚ omap in_hand hs -> (forall ep, ep ∈ endpoints (mk_acceptor s p' hs' al' c) -> ep ∈ endpoints (mk_acceptor s p hs al c)) ->
  acceptor_inv pool leaked (mk_acceptor (monitor_destroy s) p' hs' al' c).
Proof.
  intros [Hs Hm Ha] Hc Hh He. unfold held_server in *. cbn [a_server a_handlers] in *.
  apply destroy_server_inv in Hs; [|cbn [s_monitors]; lia]. unfold monitor_destroy in *.
  cbn [s_limiter s_accepting s_scheduled s_monitors] in Hs.
  destruct (decrement_parallel_connections (s_limiter s)) as [lim j]. split.
  - unfold held_server. cbn [a_server a_handlers s_limiter s_accepting s_scheduled s_monitors].
    eapply scheduled_perm; [|exact Hs]. rewrite Hh. destruct j; [by rewrite app_assoc | done].
  - cbn [a_server s_monitors]. rewrite Hm, Hc. done.
  - rewrite Forall_forall in *. auto.
Qed.

Lemma accept_next_keeps pool leaked s p hs al c i :
  acceptor_inv pool leaked (mk_acceptor s p (H_accepting_next i :: hs) al c) ->
  acceptor_inv pool leaked (mk_acceptor (server_accept_next s i) p hs al c).
Proof.
  intros [Hs Hm Ha]. unfold held_server in *. cbn [a_server a_handlers omap list_omap in_hand app] in *.
  apply (step_inv max Hmax _ _ _ (RunScheduled i) (server_accept_next (mk_server (s_limiter s) (s_accepting s) (omap in_hand hs ++ s_scheduled s) (s_monitors s)) i)) in Hs;
    [|cbn; by rewrite decide_True]. cbn [leaks] in Hs. rewrite Z.add_0_r in Hs.
  unfold server_accept_next in *. cbn [s_limiter s_accepting s_scheduled s_monitors] in Hs.
  destruct (accept_next (s_limiter s) i) as [lim now]. by split.
Qed.

Lemma scheduled_in_hand pool leaked s p hs al c i l : remove_one i (s_scheduled s) = Some l ->
  acceptor_inv pool leaked (mk_acceptor s p hs al c) ->
  acceptor_inv pool leaked (mk_acceptor (mk_server (s_limiter s) (s_accepting s) l (s_monitors s)) p (H_accepting_next i :: hs) al c).
Proof.
  intros Hl [Hs Hm Ha]. split; [|done|done]. eapply scheduled_perm; [|exact Hs]. cbn.
  rewrite (remove_one_perm _ _ _ Hl). symmetry. apply Permutation_middle.
Qed.

Lemma found_ok {A} (o : option A) {B} (f : A -> result stop_t B) b :
  (of_option impossible o ≫= f) = Ok b -> exists x, o = Some x /\ f x = Ok b.
Proof. destruct o as [x|]; [|done]. by exists x. Qed.

(** What the blocker says decides, unless the program is terminated. *)
Lemma inspected ep (sc : bool) (a b : acceptor_t actual_limiter_t) r :
  (of_option terminated (inspect_incoming blocker (if sc then Some ep else None)) ≫=
   fun inspection_result : inspection_result_t => match inspection_result with deny_ => Ok a | allow_ => Ok b end) = Ok r ->
  allows blocker ep = false /\ r = a \/ allows blocker ep = true /\ r = b.
Proof.
  unfold inspect_incoming, allows. destruct blocker as [f|]; cbn; [|intros [= <-]; by right].
  destruct sc; [|done]. cbn. destruct (f ep); intros [= <-]; [by left | by right].
Qed.

(** A socket that was accepted: its slot is lost, *)
Lemma accepted_lost pool leaked s p hs al c i l : remove_one i (s_accepting s) = Some l ->
  acceptor_inv pool leaked (mk_acceptor s p hs al c) ->
  acceptor_inv pool (leaked + 1) (mk_acceptor (mk_server (s_limiter s) l (s_scheduled s) (s_monitors s)) p (H_accepting_next i :: hs) al c).
Proof. intros Hl [Hs Hm Ha]. split; [|done|done]. exact (lost_server_inv _ _ _ _ _ _ _ _ Hs Hl). Qed.

(** or a monitor is made for it, which a posted handler or this one holds. *)
Lemma accepted_held pool leaked s p hs al c i l p' h : remove_one i (s_accepting s) = Some l -> in_hand h = Some i ->
  acceptor_inv pool leaked (mk_acceptor s p hs al c) ->
  let a := mk_acceptor (monitor_create (mk_server (s_limiter s) l (s_scheduled s) (s_monitors s))) p' (h :: hs) al c in
  connections a = S (connections (mk_acceptor s p hs al c)) -> Forall (fun ep => allows blocker ep = true) (endpoints a) ->
  acceptor_inv pool leaked a.
Proof.
  intros Hl Hh [Hs Hm Ha] a Hc He. split; [| |done].
  - pose proof (created_server_inv _ _ _ _ _ _ _ _ Hs Hl) as H. unfold held_server, monitor_create in *. cbn in *. by rewrite Hh.
  - rewrite Hc, <- Hm. done.
Qed.

Lemma accept_inv pool leaked s p hs al c i l (ep : option nat) (lt sc pt : bool) a' :
  remove_one i (s_accepting s) = Some l -> acceptor_inv pool leaked (mk_acceptor s p hs al c) ->
  accept_connection blocker separate i ep lt sc pt (mk_acceptor (mk_server (s_limiter s) l (s_scheduled s) (s_monitors s)) p hs al c) = Ok a' ->
  acceptor_inv pool (leaked + event_leaks blocker (E_accepted i ep lt sc pt)) a'.
Proof.
  intros Hl Ha Ha'. pose proof (accepted_lost _ _ _ _ _ _ _ _ _ Hl Ha) as Hlost.
  apply (acceptor_inv_perm _ _ _ _ p _ (hs ++ [H_accepting_next i]) _ al _ c) in Hlost; [|done|apply Permutation_cons_append|done].
  unfold accept_connection in Ha'. cbn [event_leaks].
  destruct ep as [ep|]; [|injection Ha' as <-; exact Hlost]. destruct lt; [injection Ha' as <-; exact Hlost|].
  apply inspected in Ha' as [[-> ->]|[Eep ->]]; [exact Hlost|]. rewrite Eep, Z.add_0_r.
  pose proof (ai_allowed _ _ _ Ha) as He. unfold endpoints in He. cbn [a_posted a_handlers a_alive] in He.
  pose proof (fun p' h => accepted_held pool leaked s p hs al c i l p' h Hl) as Hheld.
  unfold do_accept_current_connection, continue_accepting. destruct separate; [destruct pt|].
  - apply (acceptor_inv_perm _ _ _ p _ (H_failing (Some i) :: hs) _ al _ c); [done|apply Permutation_cons_append|done|].
    by apply Hheld; [| |apply connections_handler|].
  - apply (acceptor_inv_perm _ _ _ (ep :: p) _ (H_accepting_next i :: hs) _ al _ c);
      [apply Permutation_cons_append|apply Permutation_cons_append|done|].
    apply Hheld; [done|done|by rewrite (connections_handler _ s _ _ _ _ _ c)|]. by constructor.
  - apply (acceptor_inv_perm _ _ _ p _ (H_creating ep (Some i) :: hs) _ al _ c); [done|apply Permutation_cons_append|done|].
    apply Hheld; [done|done|apply connections_handler|]. unfold endpoints. cbn. rewrite !Forall_app in *. rewrite Forall_cons, Forall_app. tauto.
Qed.

(** Taking the handler at a position first. *)
Lemma at_handler pool leaked a k h : a_handlers a !! k = Some h -> acceptor_inv pool leaked a ->
  acceptor_inv pool leaked (mk_acceptor (a_server a) (a_posted a) (h :: delete k (a_handlers a)) (a_alive a) (m_connection_id_counter a)).
Proof. intros Hk. destruct a. apply acceptor_inv_perm; [done|by apply delete_Permutation|done]. Qed.

Lemma put_back pool leaked s p hs h al c c' : acceptor_inv pool leaked (mk_acceptor s p (h :: hs) al c) ->
  acceptor_inv pool leaked (mk_acceptor s p (hs ++ [h]) al c').
Proof. apply acceptor_inv_perm; [done|apply Permutation_cons_append|done]. Qed.

(** A connection that is made takes over the monitor, or the handler that caught the exception keeps it. *)
Lemma make_inv pool leaked a k m id ep i : a_handlers a !! k = Some (H_numbering id ep i) -> acceptor_inv pool leaked a ->
  acceptor_inv pool leaked (create_and_init_connection m id ep i (delete k (a_handlers a)) a).
Proof.
  intros Hx Ha. apply (at_handler _ _ _ _ _ Hx) in Ha.
  unfold create_and_init_connection, create_new_connection. destruct m.
  2, 3: apply put_back with (c := m_connection_id_counter a); revert Ha; apply handler_goes_on; cbn; tauto.
  destruct a as [s p hs al c]. cbn in *. set (hs' := delete k hs) in *.
  apply (acceptor_inv_perm _ _ _ p _ (continue_accepting i ++ hs') _ ((id, ep) :: al) _ c);
    [done | apply Permutation_app_comm | apply Permutation_cons_append|].
  destruct Ha as [Hs Hm Ha]. split.
  - destruct i; exact Hs.
  - cbn [a_server] in *. rewrite Hm, (connections_handler _ s _ _ _ _ _ c). cbn [holds_monitor].
    destruct i; cbn [continue_accepting app]; rewrite ?(connections_handler _ s _ _ _ _ _ c); unfold connections; cbn; lia.
  - revert Ha. unfold endpoints. cbn. rewrite omap_app, !Forall_app, !Forall_cons, Forall_app. destruct i; cbn; rewrite Forall_nil; tauto.
Qed.

Lemma acceptor_step_inv pool leaked a e a' : acceptor_inv pool leaked a ->
  acceptor_step blocker separate a e = Ok a' -> acceptor_inv pool (leaked + event_leaks blocker e) a'.
Proof.
  intros Ha He. destruct e as [i|i ep lt sc pt|k|k|k throws|k m|k|k throws|k|i throws]; cbn [acceptor_step] in He;
    apply found_ok in He as (x & Hx & He); cbn [event_leaks]; rewrite ?Z.add_0_r.
  - injection He as <-. destruct Ha. split; [|done|done].
    apply (step_inv max Hmax pool leaked (held_server a) (AcceptError i)); [done|]. cbn. by rewrite Hx.
  - destruct a as [s p hs al c]. by apply (accept_inv pool leaked s p hs al c i x ep lt sc pt).
  - injection He as <-. apply put_back with (c := m_connection_id_counter a). destruct a as [s p hs al c]. cbn in *.
    apply (acceptor_inv_perm _ _ _ _ (x :: delete k p) _ hs _ al _ c) in Ha; [|by apply delete_Permutation|done|done].
    destruct Ha. split; [done| |].
    + rewrite (connections_handler _ s _ _ _ _ _ c). cbn in *. rewrite ai_monitors0. unfold connections. cbn. lia.
    + revert ai_allowed0. unfold endpoints. cbn. rewrite Forall_cons, !Forall_app, Forall_cons, Forall_app. tauto.
  - injection He as <-. destruct a as [s p hs al c]. cbn in *. apply delete_Permutation in Hx as Hp.
    revert Hp. generalize (delete k p) as p'. intros p' Hp. eapply monitor_gone; [exact Ha| |done|].
    + unfold connections. cbn. by rewrite Hp.
    + intros ep. unfold endpoints. cbn. rewrite Hp. cbn. rewrite ?elem_of_cons, ?elem_of_app, ?elem_of_cons. tauto.
  - destruct x as [ep i|id ep i|i|i]; try discriminate. injection He as <-. apply put_back with (c := m_connection_id_counter a).
    apply (at_handler _ _ _ _ _ Hx) in Ha. revert Ha. apply handler_goes_on; destruct throws; cbn; tauto.
  - destruct x as [ep i|id ep i|i|i]; try discriminate. injection He as <-. by apply make_inv.
  - destruct x as [ep i|id ep i|i|i]; try discriminate. injection He as <-. apply (at_handler _ _ _ _ _ Hx) in Ha.
    apply (acceptor_inv_perm _ _ _ (a_posted a) _ (continue_accepting i ++ delete k (a_handlers a)) _ (a_alive a) _ (m_connection_id_counter a));
      [done | apply Permutation_app_comm | done |]. apply (monitor_gone _ _ _ _ _ _ _ _ _ _ Ha).
    + rewrite (connections_handler _ (a_server a) _ _ _ _ _ (m_connection_id_counter a)). cbn. by destruct i.
    + by destruct i.
    + intros e. unfold endpoints. cbn. by destruct i.
  - destruct x as [ep i|id ep i|i|i]; try discriminate. apply result_bind_Ok in He as (s' & Hs' & [= <-]).
    apply (at_handler _ _ _ _ _ Hx) in Ha. unfold call_accept_next in Hs'. destruct (throws && _); [done|]. injection Hs' as <-.
    revert Ha. apply accept_next_keeps.
  - injection He as <-. destruct a as [s p hs al c]. cbn in *. apply delete_Permutation in Hx as Hp.
    revert Hp. generalize (delete k al) as al'. intros al' Hp. eapply monitor_gone; [exact Ha| |done|].
    + unfold connections. cbn. rewrite Hp. cbn. lia.
    + intros ep. unfold endpoints. cbn. rewrite Hp. cbn. rewrite ?elem_of_cons, ?elem_of_app, ?elem_of_cons. tauto.
  - apply result_bind_Ok in He as (s' & Hs' & [= <-]). destruct a as [s p hs al c]. cbn in *.
    unfold call_accept_next in Hs'. destruct (throws && _); [done|]. injection Hs' as <-.
    eapply accept_next_keeps, scheduled_in_hand; [exact Hx | exact Ha].
Qed.

Definition total_event_leaks (es : list acceptor_event) : Z := foldr (fun e n => event_leaks blocker e + n) 0 es.

Lemma acceptor_run_inv pool es : forall leaked a a', acceptor_inv pool leaked a ->
  acceptor_run blocker separate a es = Ok a' -> acceptor_inv pool (leaked + total_event_leaks es) a'.
Proof.
  induction es as [|e es IH]; intros leaked a a' Ha Hr; cbn [acceptor_run total_event_leaks foldr] in *.
  - injection Hr as <-. by rewrite Z.add_0_r.
  - apply result_bind_Ok in Hr as (b & Hb & Hr). rewrite Z.add_assoc.
    apply (IH _ b); [|done]. by apply (acceptor_step_inv pool leaked a e b).
Qed.

Lemma opened_inv count : acceptor_inv (seq 0 count) 0 (acceptor_opened (limiter_create max) count).
Proof.
  split; [| |constructor].
  - pose proof (open_inv max Hmax count) as H. unfold held_server, acceptor_opened. cbn [a_server a_handlers omap list_omap app].
    by destruct (open_ _ _).
  - cbn. unfold open_. generalize (seq 0 count) as l.
    enough (H : forall l (s : server_t actual_limiter_t), s_monitors (foldl server_accept_next s l) = s_monitors s) by (intros l; apply H).
    induction l as [|i l IH]; intros s; [done|]. cbn. rewrite IH. unfold server_accept_next. by destruct (accept_next _ _).
Qed.

(** Unless two threads are between the load and the store of the counter at once, an id that was read is that of the counter,
    and no connection has it; [n] ids at most were given. *)
Record ids_inv (n : Z) (a : acceptor_t actual_limiter_t) : Prop := {
  ii_ids : NoDup ((a_alive a).*1);
  ii_fresh : Forall (fun id => id < m_connection_id_counter a) ((a_alive a).*1);
  ii_read : Forall (fun id => id = m_connection_id_counter a) (read_ids (a_handlers a));
  ii_counter : 0 <= m_connection_id_counter a <= 1 + n }.

Lemma fmap_sublist {A B} (f : A -> B) (l k : list A) : sublist l k -> sublist (f <$> l) (f <$> k).
Proof. induction 1; cbn [fmap list_fmap]; by constructor. Qed.

Lemma ids_keep n a s p hs al : ids_inv n a -> sublist al (a_alive a) ->
  Forall (fun id => id = m_connection_id_counter a) (read_ids hs) ->
  ids_inv (n + 1) (mk_acceptor s p hs al (m_connection_id_counter a)).
Proof.
  intros [] Hal Hread. pose proof (fmap_sublist fst _ _ Hal) as Hs. split; cbn [a_alive a_handlers m_connection_id_counter]; [|..|done|lia].
  - by eapply sublist_NoDup.
  - rewrite Forall_forall in *. intros id Hid. apply ii_fresh0. by eapply elem_of_sublist.
Qed.

#[local] Instance read_ids_perm : Proper (Permutation ==> Permutation) read_ids.
Proof. intros hs hs' Hp. unfold read_ids. by rewrite Hp. Qed.

(** What a handler has read. *)
Definition read_id (h : handler_t) : list Z := match h with H_numbering id _ _ => [id] | _ => [] end.

Lemma read_ids_at hs k h : hs !! k = Some h -> read_ids hs ≡ₚ read_id h ++ read_ids (delete k hs).
Proof. intros Hk. etrans; [apply read_ids_perm, delete_Permutation, Hk | by destruct h]. Qed.

Lemma read_ids_app hs hs' : read_ids (hs ++ hs') = read_ids hs ++ read_ids hs'.
Proof. apply omap_app. Qed.

Lemma read_ids_put k h h' (P : Z -> Prop) hs : hs !! k = Some h -> Forall P (read_ids hs) -> Forall P (read_ids h') ->
  Forall P (read_ids (delete k hs ++ h')).
Proof. intros Hk Hs Hh. rewrite read_ids_app. rewrite (read_ids_at _ _ _ Hk), Forall_app in Hs. apply Forall_app. tauto. Qed.

Lemma accept_keeps_ids i ep lt sc pt (a a' : acceptor_t actual_limiter_t) : accept_connection blocker separate i ep lt sc pt a = Ok a' ->
  exists s p h, a' = mk_acceptor s p (a_handlers a ++ [h]) (a_alive a) (m_connection_id_counter a) /\ read_ids [h] = [].
Proof.
  assert (Hended : forall b, Ok (E := stop_t) (with_handlers a (a_handlers a ++ continue_accepting (Some i))) = Ok b ->
    exists s p h, b = mk_acceptor s p (a_handlers a ++ [h]) (a_alive a) (m_connection_id_counter a) /\ read_ids [h] = [])
    by (intros b [= <-]; by do 3 eexists).
  unfold accept_connection. destruct ep as [ep|]; [|apply Hended]. destruct lt; [apply Hended|].
  intros [[_ ->]|[_ ->]]%inspected; [by apply Hended|]. unfold do_accept_current_connection.
  destruct separate; [destruct pt|]; by do 3 eexists.
Qed.

(** The connection that is made gets the id of the counter, which goes on. *)
Lemma ids_made n m k id ep i a : n < 2 ^ 64 - 2 -> (length (read_ids (a_handlers a)) <= 1)%nat -> ids_inv n a ->
  a_handlers a !! k = Some (H_numbering id ep i) -> ids_inv (n + 1) (create_and_init_connection m id ep i (delete k (a_handlers a)) a).
Proof.
  intros Hn Hone [] Hk. pose proof (read_ids_at _ _ _ Hk) as Hp. cbn [read_id app] in Hp.
  rewrite Hp in Hone, ii_read0. apply Forall_cons in ii_read0 as [-> _]. cbn [length] in Hone.
  destruct (read_ids (delete k (a_handlers a))) as [|] eqn:Er; [clear Hone|cbn in Hone; lia].
  assert (Hfresh : Forall (fun id => id < m_connection_id_counter a + 1) (a_alive a).*1) by (eapply Forall_impl; [done|cbn; lia]).
  assert (Hnone : forall h, read_ids h = [] -> read_ids (delete k (a_handlers a) ++ h) = []) by (intros h Hh; by rewrite read_ids_app, Er, Hh).
  unfold create_and_init_connection, create_new_connection. rewrite wrap_small by lia. destruct m.
  2, 3: split; cbn [a_alive a_handlers m_connection_id_counter]; [done|done|by rewrite Hnone|lia].
  split; cbn [a_alive a_handlers m_connection_id_counter]; rewrite ?fmap_app; cbn [fmap list_fmap fst].
  - apply NoDup_app. split; [done|]. split; [|apply NoDup_singleton]. intros id Hid [= ->]%list_elem_of_singleton.
    rewrite Forall_forall in ii_fresh0. specialize (ii_fresh0 _ Hid). lia.
  - apply Forall_app. split; [done|]. constructor; [lia|done].
  - rewrite Hnone; [done|]. by destruct i.
  - lia.
Qed.

Lemma ids_step n a e a' : n < 2 ^ 64 - 2 -> (length (read_ids (a_handlers a)) <= 1)%nat -> ids_inv n a ->
  acceptor_step blocker separate a e = Ok a' -> ids_inv (n + 1) a'.
Proof.
  intros Hn Hone Ha He. pose proof (ii_read _ _ Ha) as Hread.
  destruct e as [i|i ep lt sc pt|k|k|k throws|k m|k|k throws|k|i throws]; cbn [acceptor_step] in He;
    apply found_ok in He as (x & Hx & He).
  - injection He as <-. by apply ids_keep.
  - apply accept_keeps_ids in He as (s & p & h & -> & Hh). cbn [a_handlers a_alive m_connection_id_counter with_server].
    apply (ids_keep n a); [done|reflexivity|].
    by rewrite read_ids_app, Hh, app_nil_r.
  - injection He as <-. apply (ids_keep n a); [done|reflexivity|]. rewrite read_ids_app. by rewrite app_nil_r.
  - injection He as <-. by apply ids_keep.
  - destruct x as [ep i|id ep i|i|i]; try discriminate. injection He as <-. apply (ids_keep n a); [done|reflexivity|].
    apply (read_ids_put _ _ _ _ _ Hx Hread). destruct throws; repeat constructor.
  - destruct x as [ep i|id ep i|i|i]; try discriminate. injection He as <-. by apply ids_made.
  - destruct x as [ep i|id ep i|i|i]; try discriminate. injection He as <-. apply (ids_keep n a); [done|reflexivity|].
    apply (read_ids_put _ _ _ _ _ Hx Hread). destruct i; constructor.
  - destruct x as [ep i|id ep i|i|i]; try discriminate. apply result_bind_Ok in He as (s' & Hs' & [= <-]). apply (ids_keep n a); [done|reflexivity|].
    rewrite <- (app_nil_r (delete k _)). apply (read_ids_put _ _ _ _ _ Hx Hread). constructor.
  - injection He as <-. apply ids_keep; [done| |done]. apply sublist_delete.
  - apply result_bind_Ok in He as (s' & Hs' & [= <-]). by apply ids_keep.
Qed.

Lemma ids_run es : forall n a a', n + Z.of_nat (length es) < 2 ^ 64 - 2 -> one_at_a_time blocker separate a es = true -> ids_inv n a ->
  acceptor_run blocker separate a es = Ok a' -> ids_inv (n + Z.of_nat (length es)) a'.
Proof.
  induction es as [|e es IH]; intros n a a' Hn Hone Ha Hr; cbn [acceptor_run one_at_a_time length] in *.
  - injection Hr as <-. by rewrite Z.add_0_r.
  - apply result_bind_Ok in Hr as (b & Hb & Hr). rewrite Hb in Hone. apply andb_true_iff in Hone as [H1%Nat.leb_le Hone].
    replace (n + Z.of_nat (S (length es))) with (n + 1 + Z.of_nat (length es)) in * by lia.
    apply (IH _ b); [lia|done| |done]. apply (ids_step n a e b); [lia|done|done|done].
Qed.

Lemma opened_ids count : ids_inv 0 (acceptor_opened (limiter_create max) count).
Proof. split; cbn; [apply NoDup_nil_2 | constructor | constructor | lia]. Qed.
End Invariant.

(** C31 (invariant). Accepting, in every run of the accept handlers, the handlers that make connections and the
    ends of connections on any threads, interleaved at every access to the limiter and to the counter of
    ids, however the peers go away, the blocker decides, setters and allocations throw and handlers are posted
    or dropped: connections and connections in the making, together with the accept operations and
    the slots that were lost, do not exceed the limit; all come from endpoints the blocker allows; the
    limiter counts them, and the slots in use by accepting are those of the accept operations and the
    lost ones, so that all other slots are free when the connections are gone. Where no two
    threads are in the unprotected increment of the counter of ids at once (as on one thread), and for fewer
    than 2^64 - 2 events, no two connections have one id. *)
Theorem accepted_connections_limited max count blocker separate es a (Hmax : 0 <= max < 2 ^ 64)
  (Hr : acceptor_run blocker separate (acceptor_opened (limiter_create max) count) es = Ok a) :
  Z.of_nat (connections a + length (s_accepting (a_server a))) + total_event_leaks blocker es <= max /\
  Forall (fun ep => allows blocker ep = true) (endpoints a) /\
  m_connections (s_limiter (a_server a)) = Z.of_nat (connections a) /\
  m_active_accepts (s_limiter (a_server a)) = Z.of_nat (length (s_accepting (a_server a))) + total_event_leaks blocker es /\
  (one_at_a_time blocker separate (acceptor_opened (limiter_create max) count) es = true -> Z.of_nat (length es) < 2 ^ 64 - 2 ->
     NoDup ((a_alive a).*1)).
Proof.
  destruct (acceptor_run_inv max Hmax blocker separate _ es 0 _ a (opened_inv max Hmax blocker count) Hr) as [[] Hm Ha]. cbn in *.
  split_and!; [lia | done | by rewrite inv_connections, Hm | lia |].
  intros Hone Hlen. exact (ii_ids _ _ (ids_run max Hmax blocker separate es 0 _ a Hlen Hone (opened_ids max count) Hr)).
Qed.

(** Two sockets, two connections at most; even endpoints are allowed. One connection fails to be made. *)
Definition example_inspect (ep : nat) : inspection_result_t := if Nat.even ep then allow_ else deny_.

Definition example_accepts : list acceptor_event :=
  [E_accepted 0 (Some 2%nat) false true false; E_accept_next 0 false; E_run_posted 0; E_set_options 0 true; E_fail 0;
   E_accepted 1 (Some 4%nat) false true false; E_run_posted 0; E_set_options 1 false; E_accept_next 0 false; E_make 0 made].

Lemma accepted_connections_limited_witness :
  exists a, acceptor_run (Some example_inspect) true (acceptor_opened (limiter_create 3) 2) example_accepts = Ok a /\
    a_alive a = [(1, 4%nat)] /\ connections a = 1%nat /\ Forall (fun ep => allows (Some example_inspect) ep = true) (endpoints a) /\
    NoDup ((a_alive a).*1).
Proof.
  destruct (acceptor_run (Some example_inspect) true (acceptor_opened (limiter_create 3) 2) example_accepts) as [a|e] eqn:E;
    [|vm_compute in E; discriminate].
  exists a. split; [done|].
  pose proof (accepted_connections_limited 3 2 (Some example_inspect) true example_accepts a ltac:(lia) E) as (_ & Ha & _ & _ & Hn).
  specialize (Hn ltac:(vm_compute; done) ltac:(vm_compute; done)).
  vm_compute in E. injection E as <-. done.
Defined.

(** Two threads that read the counter before either writes it: two connections have one id. *)
Definition racing_accepts : list acceptor_event :=
  [E_accepted 0 (Some 2%nat) false true false; E_accepted 1 (Some 4%nat) false true false;
   E_set_options 0 false; E_set_options 0 false; E_make 0 made; E_make 0 made].

Lemma two_connections_one_id :
  exists a, acceptor_run None false (acceptor_opened (limiter_create 3) 2) racing_accepts = Ok a /\
    a_alive a = [(1, 2%nat); (1, 4%nat)].
Proof. eexists. split; vm_compute; reflexivity. Qed.

(** A peer that goes away between the two questions for its endpoint ends the program when an IP blocker is used. *)
Lemma peer_gone_terminates :
  acceptor_run (Some example_inspect) true (acceptor_opened (limiter_create 3) 2) [E_accepted 0 (Some 2%nat) false false false]
    = Err terminated.
Proof. reflexivity. Qed.

(** So does an exception of [async_accept]. *)
Lemma throwing_accept_terminates :
  acceptor_run None false (acceptor_opened (limiter_create 3) 1) [E_accepted 0 (Some 2%nat) false true false; E_set_options 0 false; E_make 0 made; E_accept_next 0 true]
    = Err terminated.
Proof. reflexivity. Qed.
