(* ===== verification/Connection.v ===== *)
(** * The HTTP connection

    [connection_t] of [restinio/impl/connection.hpp]: reading and parsing requests, calling
    the user's handler, collecting responses in the coordinator, writing them
    group by group, the upgrade stage, timeouts and closing.

    The methods are written in the monad of [Effects]. A method that calls
    another one as its last action runs it or returns the [frame]s still to run;
    the [machine] keeps these frames on a stack, so that user code that calls back into
    the connection, and exceptions that leave several methods, are modelled as
    they happen. What the outside does (completions, timers, the user's handler,
    late responses) are the events of the machine. The node.js parser and asio's
    error codes are parameters. Notificators are assumed not to call the
    connection while they run. Log messages of level trace and info are left out. *)

From S2P Require Import Prelude Effects Handlers InputBuffer Sendfile WriteGroup OutputCtx RespCoord Headers ParserCallbacks.

(** ** Parameters *)

(** The node.js parser: its state, and what one call of [http_parser_execute]
    does with the bytes it is given and the context its callbacks work on. *)
Class HttpParser (P : Type) : Type := {
  http_parser_init : P;
  http_parser_execute : P -> http_parser_ctx_t -> bytes -> P * http_parser_ctx_t * Z;
  http_errno_ok_or_paused : P -> bool;
  parser_upgrade : P -> bool;
  parser_nread : P -> Z }.

(** The members of [connection_settings_t] a connection reads. *)
(*@ impl/connection_settings.hpp 177-192 connection_settings_t *)
Record settings_t : Type := mk_settings {
  m_buffer_size : nat;
  m_incoming_http_msg_limits : incoming_http_msg_limits_t;
  m_read_next_http_message_timelimit : Z;
  m_write_http_response_timelimit : Z;
  m_handle_request_timeout : Z;
  m_max_pipelined_requests : nat }.

(** ** State *)

(*@ impl/connection.hpp 204-219 connection_upgrade_stage_t *)
Inductive connection_upgrade_stage_t : Type :=
| stage_none
| pending_upgrade_handling
| wait_for_upgrade_handling_result_or_nothing.

#[global] Instance upgrade_stage_eq_dec : EqDecision connection_upgrade_stage_t.
Proof. solve_decision. Defined.

(** The member functions [m_current_timeout_cb] can point to. *)
Inductive timeout_cb_t : Type :=
| handle_read_timeout
| handle_request_handling_timeout
| handle_write_response_timeout
| handle_sendfile_timeout.

(** What [std::terminate] or a [catch] sees. *)
Inductive exception_t : Type :=
| coordinator_exception (e : coordinator_error)
| output_exception (e : OutputCtx.output_error)
| sendfile_exception (e : sendfile_error)
| handler_exception
| other_exception.

(** The [try] blocks of a connection catch [const std::exception &]. All exceptions of the library are
    derived from it; [other_exception] is one of the user's code that is not. *)
Definition derives_from_std (e : exception_t) : bool :=
  match e with other_exception => false | _ => true end.

(** Why [trigger_error_and_close] was called. *)
Inductive connection_error_t : Type :=
| read_socket_error (ec : error_code)
| parser_error_happened
| unable_to_write (ec : error_code)
| unexpected_exception (e : exception_t).

(** The request the handler is given. *)
(*@ request_handler.hpp 402-413 generic_request_t *)
Record request_t : Type := mk_request {
  r_request_id : Z;
  r_target : Target.t;
  r_header : http_header_fields_t;
  r_method : Z;
  r_connection : http_connection_header_t;
  r_body : bytes;
  r_chunked_input_info : option chunked_input_info_block_t }.

Inductive effect : Type :=
| AsyncReadSome
| AsyncWrite (bufs : list bytes)
| StartSendfile (sf : sendfile_t)
| SocketCancel
| SocketShutdown
| SocketClose
| SocketMoved
| Accepted
| Closed
| CallHandler (r : request_t)
| CoordinatorDid (o : coord_out)
| Notified (n : notificator) (ec : error_code)
| LogError (e : connection_error_t)
| AssertionFailed.

(** What is still to be done by the methods that have not returned. [FTry] ends
    a [try] block, whose handler calls [trigger_error_and_close]. *)
Inductive frame : Type :=
| FWaitForHttpMessage
| FConsumeData (length : Z)
| FRequestMessageComplete
| FHandler (request_id : Z) (for_upgrade : bool)
| FWriteResponsePartsImpl (request_id : Z) (flags : response_output_flags_t) (wg : write_group_t)
| FAppendResponse (request_id : Z) (flags : response_output_flags_t) (wg : write_group_t)
| FInitWriteIfNecessary
| FCurrentWriteCtx
| FSendfileStarted
| FResetSendfile
| FTry.

Section Connection.
Context {P : Type} `{HP : HttpParser P} {Other : OtherExceptions}.
Context (st : settings_t) (http_method_get : Z).
Context (cb_throws : notificator -> error_code -> bool) (asio_max_iov_len : Z).
Context (operation_aborted eof : error_code).

(*@ impl/connection.hpp 226-247 connection_input_t *)
Record connection_input_t : Type := mk_input {
  m_parser : P;
  m_parser_ctx : http_parser_ctx_t;
  m_buf : FixedBuffer.fixed_buffer_t;
  m_connection_upgrade_stage : connection_upgrade_stage_t;
  m_read_operation_is_running : bool }.

(** [m_socket] by whether it is open. *)
(*@ impl/connection.hpp 1480-1499 connection_t *)
Record connection_t : Type := mk_connection {
  m_socket_is_open : bool;
  m_input : connection_input_t;
  m_write_output_ctx : OutputCtx.t;
  m_init_read_after_this_write : bool;
  m_response_coordinator : Coordinator.response_coordinator_t;
  m_current_timeout_cb : option timeout_cb_t;
  m_current_timeout_after : Z;
  m_timer_guard : timer_guard_t }.

Definition set_socket (b : bool) (c : connection_t) : connection_t :=
  mk_connection b (m_input c) (m_write_output_ctx c) (m_init_read_after_this_write c)
    (m_response_coordinator c) (m_current_timeout_cb c) (m_current_timeout_after c) (m_timer_guard c).
Definition set_input (i : connection_input_t) (c : connection_t) : connection_t :=
  mk_connection (m_socket_is_open c) i (m_write_output_ctx c) (m_init_read_after_this_write c)
    (m_response_coordinator c) (m_current_timeout_cb c) (m_current_timeout_after c) (m_timer_guard c).
Definition set_output (o : OutputCtx.t) (c : connection_t) : connection_t :=
  mk_connection (m_socket_is_open c) (m_input c) o (m_init_read_after_this_write c)
    (m_response_coordinator c) (m_current_timeout_cb c) (m_current_timeout_after c) (m_timer_guard c).
Definition set_init_read (b : bool) (c : connection_t) : connection_t :=
  mk_connection (m_socket_is_open c) (m_input c) (m_write_output_ctx c) b
    (m_response_coordinator c) (m_current_timeout_cb c) (m_current_timeout_after c) (m_timer_guard c).
Definition set_coordinator (q : Coordinator.response_coordinator_t) (c : connection_t) : connection_t :=
  mk_connection (m_socket_is_open c) (m_input c) (m_write_output_ctx c)
    (m_init_read_after_this_write c) q (m_current_timeout_cb c) (m_current_timeout_after c)
    (m_timer_guard c).
Definition set_timeout (cb : option timeout_cb_t) (after : Z) (c : connection_t) : connection_t :=
  mk_connection (m_socket_is_open c) (m_input c) (m_write_output_ctx c)
    (m_init_read_after_this_write c) (m_response_coordinator c) cb after (m_timer_guard c).
Definition set_timer (t : timer_guard_t) (c : connection_t) : connection_t :=
  mk_connection (m_socket_is_open c) (m_input c) (m_write_output_ctx c)
    (m_init_read_after_this_write c) (m_response_coordinator c) (m_current_timeout_cb c)
    (m_current_timeout_after c) t.

Definition set_stage (s : connection_upgrade_stage_t) (c : connection_t) : connection_t :=
  set_input (mk_input (m_parser (m_input c)) (m_parser_ctx (m_input c)) (m_buf (m_input c)) s
               (m_read_operation_is_running (m_input c))) c.
Definition set_running (b : bool) (c : connection_t) : connection_t :=
  set_input (mk_input (m_parser (m_input c)) (m_parser_ctx (m_input c)) (m_buf (m_input c))
               (m_connection_upgrade_stage (m_input c)) b) c.
Definition set_buf (b : FixedBuffer.fixed_buffer_t) (c : connection_t) : connection_t :=
  set_input (mk_input (m_parser (m_input c)) (m_parser_ctx (m_input c)) b
               (m_connection_upgrade_stage (m_input c)) (m_read_operation_is_running (m_input c))) c.
Definition set_parser (p : P) (ctx : http_parser_ctx_t) (c : connection_t) : connection_t :=
  set_input (mk_input p ctx (m_buf (m_input c)) (m_connection_upgrade_stage (m_input c))
               (m_read_operation_is_running (m_input c))) c.

Definition stage (c : connection_t) : connection_upgrade_stage_t :=
  m_connection_upgrade_stage (m_input c).

(** The methods: the reader is [std::chrono::steady_clock::now()]. *)
Abbreviation meth := (act Z connection_t effect exception_t).

(*@ impl/connection.hpp 319-353 connection_t::connection_t *)
Definition connection_create : connection_t :=
  {| m_socket_is_open := true;
     m_input :=
       {| m_parser := http_parser_init;
          m_parser_ctx := ctx_create http_method_get (m_incoming_http_msg_limits st);
          m_buf := FixedBuffer.buffer_create (m_buffer_size st);
          m_connection_upgrade_stage := stage_none;
          m_read_operation_is_running := false |};
     m_write_output_ctx := OutputCtx.create;
     m_init_read_after_this_write := false;
     m_response_coordinator := Coordinator.create (m_max_pipelined_requests st);
     m_current_timeout_cb := None; m_current_timeout_after := 0;
     m_timer_guard := mk_timer false 0 |}.

(** ** The members it calls *)

Definition notify (cs : calls) : meth unit := emits ((fun c => Notified (fst c) (snd c)) <$> cs).

(** One operation of the coordinator, with what it gave. *)
Definition coordinator (op : coord_op) : meth coord_out :=
  q ← gets m_response_coordinator;
  let '(q', out, cs) := run_op (Q := coordinator_queue cb_throws) q op in
  modify (set_coordinator q');; emit (CoordinatorDid out);; notify cs;; mret out.

(** The operations a connection uses, as calls that return or throw. *)
Definition register_new_request : meth Z :=
  out ← coordinator ORegister;
  match out with
  | Registered id => mret id
  | Refused e => throw (coordinator_exception e)
  | _ => mret 0
  end.
Definition append_response (id : Z) (flags : response_output_flags_t) (wg : write_group_t)
    : meth unit :=
  out ← coordinator (OAppend id flags wg);
  match out with Refused e => throw (coordinator_exception e) | _ => mret tt end.
Definition pop_ready_buffers : meth (option (write_group_t * Z)) :=
  out ← coordinator OPop;
  match out with
  | Popped r => mret r
  | Refused e => throw (coordinator_exception e)
  | _ => mret None
  end.

Definition closed (c : connection_t) : bool := Coordinator.closed (m_response_coordinator c).
Definition is_full (c : connection_t) : bool := Coordinator.is_full (m_response_coordinator c).
Definition is_empty (c : connection_t) : bool := Coordinator.empty (m_response_coordinator c).
Definition transmitting (c : connection_t) : bool := OutputCtx.transmitting (m_write_output_ctx c).

(** One operation of the output context, and the same as a call that throws. *)
Definition output_result {A} (f : OutputCtx.t -> result OutputCtx.output_error A * OutputCtx.t * calls)
    : meth (result OutputCtx.output_error A) :=
  o ← gets m_write_output_ctx;
  let '(r, o', cs) := f o in
  modify (set_output o');; notify cs;; mret r.
Definition output {A} (f : OutputCtx.t -> result OutputCtx.output_error A * OutputCtx.t * calls)
    : meth A :=
  r ← output_result f;
  match r with Ok a => mret a | Err e => throw (output_exception e) end.

(** An operation that calls a notificator outside of a destructor: what is not derived from
    [std::exception] goes through all of its handlers. *)
Definition throw_other (cs : calls) : meth unit :=
  if existsb (fun c => throws_other (fst c) (snd c)) cs then throw other_exception else mret tt.
Definition output_notifying {A} (f : OutputCtx.t -> result OutputCtx.output_error A * OutputCtx.t * calls)
    : meth (result OutputCtx.output_error A) :=
  o ← gets m_write_output_ctx;
  let '(r, o', cs) := f o in
  modify (set_output o');; notify cs;; throw_other cs;; mret r.

(** ** Timeouts *)

(*@ impl/connection.hpp 1568-1573 connection_t::init_next_timeout_checking *)
Definition init_next_timeout_checking : meth unit :=
  modify (fun c => set_timer (mk_timer true (t_queued (m_timer_guard c))) c).

(*@ impl/connection.hpp 1575-1581 connection_t::cancel_timeout_checking *)
Definition cancel_timeout_checking : meth unit :=
  modify (fun c => set_timeout None (m_current_timeout_after c) c);;
  modify (fun c => set_timer (mk_timer false (t_queued (m_timer_guard c))) c).

(*@ impl/connection.hpp 1583-1601 connection_t::schedule_operation_timeout_callback *)
Definition schedule_operation_timeout_callback (timeout : Z) (cb : timeout_cb_t) : meth unit :=
  now ← ask; modify (set_timeout (Some cb) (now + timeout)).

(*@ impl/connection.hpp 1622-1632 connection_t::guard_read_operation *)
Definition guard_read_operation : meth unit :=
  empty ← gets is_empty;
  if empty : bool then
    schedule_operation_timeout_callback (m_read_next_http_message_timelimit st) handle_read_timeout
  else mret tt.

(*@ impl/connection.hpp 1640-1650 connection_t::guard_request_handling_operation *)
Definition guard_request_handling_operation : meth unit :=
  t ← gets transmitting;
  if negb t then
    schedule_operation_timeout_callback (m_handle_request_timeout st) handle_request_handling_timeout
  else mret tt.

(*@ impl/connection.hpp 1658-1665 connection_t::guard_write_operation *)
Definition guard_write_operation : meth unit :=
  schedule_operation_timeout_callback (m_write_http_response_timelimit st)
    handle_write_response_timeout.

(*@ impl/connection.hpp 1673-1682 connection_t::guard_sendfile_operation *)
Definition guard_sendfile_operation (timelimit : Z) : meth unit :=
  schedule_operation_timeout_callback
    (if 0 =? timelimit then m_write_http_response_timelimit st else timelimit)
    handle_sendfile_timeout.

(** ** Closing *)

(*@ impl/connection.hpp 1396-1459 connection_t::close *)
Definition close : meth unit :=
  emit SocketShutdown;;
  modify (set_socket false);; emit SocketClose;;
  cancel_timeout_checking;;
  _ ← coordinator OReset;
  emit Closed.

(*@ impl/connection.hpp 1467-1477 connection_t::trigger_error_and_close *)
Definition trigger_error_and_close (e : connection_error_t) : meth unit :=
  emit (LogError e);; close.

(** All four handlers close, whatever operation they name in the log. *)
(*@ impl/connection.hpp 1603-1614 connection_t::handle_xxx_timeout *)
Definition handle_xxx_timeout : meth unit := close.

(*@ impl/connection.hpp 1553-1566 connection_t::check_timeout_impl *)
Definition check_timeout_impl : meth unit :=
  now ← ask; after ← gets m_current_timeout_after;
  if after <? now then
    cb ← gets m_current_timeout_cb;
    match cb with Some _ => handle_xxx_timeout | None => mret tt end
  else init_next_timeout_checking.

(** The lambda dispatched by [check_timeout]; its [try] is the frame below it. *)
(*@ impl/connection.hpp 1510-1542 connection_t::check_timeout *)
Definition check_timeout : meth (list frame) := check_timeout_impl;; mret [].

(** ** Reading *)

(*@ impl/connection.hpp 250-260 connection_input_t::reset_parser *)
Definition reset_parser (c : connection_t) : connection_t :=
  set_parser http_parser_init (ctx_reset http_method_get (m_parser_ctx (m_input c))) c.

(*@ impl/connection.hpp 472-504 connection_t::consume_message *)
Definition consume_message : meth unit :=
  running ← gets (fun c => m_read_operation_is_running (m_input c));
  if negb running then modify (set_running true);; emit AsyncReadSome else mret tt.

(*@ impl/connection.hpp 407-438 connection_t::wait_for_http_message *)
Definition wait_for_http_message : meth (list frame) :=
  modify reset_parser;;
  guard_read_operation;;
  length ← gets (fun c => FixedBuffer.m_ready_length (m_buf (m_input c)));
  if negb (0 =? length) then mret [FConsumeData length]
  else consume_message;; mret [].

(*@ impl/connection.hpp 371-404 connection_t::init *)
Definition init : meth (list frame) :=
  emit Accepted;; init_next_timeout_checking;; mret [FWaitForHttpMessage].

(** The data is what the operation put into the buffer. *)
(*@ impl/connection.hpp 508-575 connection_t::after_read *)
Definition after_read (ec : error_code) (data : bytes) : meth (list frame) :=
  if bool_decide (ec = no_error) then
    modify (fun c => set_buf (FixedBuffer.fill (m_buf (m_input c)) data) c);;
    let length := Z.of_nat (List.length data) in
    modify (fun c => set_buf (FixedBuffer.obtained_bytes (m_buf (m_input c)) length) c);;
    mret [FConsumeData length; FTry]
  else if negb (bool_decide (ec = operation_aborted)) then
    nread ← gets (fun c => parser_nread (m_parser (m_input c)));
    if negb (bool_decide (ec = eof)) || negb (0 =? nread)
    then trigger_error_and_close (read_socket_error ec);; mret []
    else close;; mret []
  else mret [].

(** The completion handler of [async_read_some]. *)
(*@ impl/connection.hpp 485-494 connection_t::consume_message *)
Definition on_read (ec : error_code) (data : bytes) : meth (list frame) :=
  modify (set_running false);; after_read ec data.

(** [length] bytes from the first unconsumed one on. *)
(*@ impl/connection.hpp 577-622 connection_t::consume_data *)
Definition consume_data (length : Z) : meth (list frame) :=
  i ← gets m_input;
  let data := take (Z.to_nat length) (FixedBuffer.bytes_from (m_buf i)) in
  let '(parser, ctx, nparsed) := http_parser_execute (m_parser i) (m_parser_ctx i) data in
  modify (set_parser parser ctx);;
  modify (fun c => set_buf (FixedBuffer.consumed_bytes (m_buf (m_input c)) nparsed) c);;
  if negb (http_errno_ok_or_paused parser) then
    trigger_error_and_close parser_error_happened;; mret []
  else if m_message_complete ctx then mret [FRequestMessageComplete; FTry]
  else consume_message;; mret [].

(** ** Requests *)

(** The header and the body are moved into the request: strings and vectors are
    left empty, the positions of the separators stay. *)
Definition moved_from_ctx (ctx : http_parser_ctx_t) : http_parser_ctx_t :=
  {| m_target := {| Target.m_request_target := [];
                    Target.m_query_separator_pos := Target.m_query_separator_pos (m_target ctx);
                    Target.m_fragment_separator_pos := Target.m_fragment_separator_pos (m_target ctx) |};
     m_header := []; m_header_method := m_header_method ctx;
     m_header_connection := m_header_connection ctx; m_body := [];
     m_current_field_name := m_current_field_name ctx;
     m_last_value_total_size := m_last_value_total_size ctx;
     m_last_was_value := m_last_was_value ctx;
     m_leading_headers_completed := m_leading_headers_completed ctx;
     m_chunked_info_block := m_chunked_info_block ctx;
     m_message_complete := m_message_complete ctx;
     m_total_field_count := m_total_field_count ctx; m_limits := m_limits ctx |}.

(** [std::make_shared<generic_request_t>( ... )] and the call of the handler,
    which runs as the frame [FHandler]. *)
(*@ impl/connection.hpp 668-677 connection_t::on_request_message_complete *)
Definition call_handler (request_id : Z) (for_upgrade : bool) : meth (list frame) :=
  ctx ← gets (fun c => m_parser_ctx (m_input c));
  let '(chunked, ctx') := make_chunked_input_info_if_necessary ctx in
  modify (fun c => set_parser (m_parser (m_input c)) (moved_from_ctx ctx') c);;
  emit (CallHandler
    {| r_request_id := request_id; r_target := m_target ctx; r_header := m_header ctx;
       r_method := m_header_method ctx; r_connection := m_header_connection ctx;
       r_body := m_body ctx; r_chunked_input_info := chunked |});;
  mret [FHandler request_id for_upgrade].

(*@ impl/connection.hpp 755-799 connection_t::handle_upgrade_request *)
Definition handle_upgrade_request : meth (list frame) :=
  request_id ← register_new_request;
  cancel_timeout_checking;;
  modify (set_stage wait_for_upgrade_handling_result_or_nothing);;
  call_handler request_id true.

(** The body of the [try] block; the block itself is the frames
    [[FRequestMessageComplete; FTry]]. *)
(*@ impl/connection.hpp 624-738 connection_t::on_request_message_complete *)
Definition on_request_message_complete : meth (list frame) :=
  upgrade ← gets (fun c => parser_upgrade (m_parser (m_input c)));
  (if upgrade : bool then modify (set_stage pending_upgrade_handling) else mret tt);;
  s ← gets stage;
  if bool_decide (s = stage_none) then
    request_id ← register_new_request;
    guard_request_handling_operation;;
    call_handler request_id false
  else
    empty ← gets is_empty;
    if empty : bool then handle_upgrade_request else mret [].

Definition final_close_flags : response_output_flags_t :=
  {| m_response_parts := final_parts; m_response_connection := connection_close |}.

Definition not_implemented (request_id : Z) : frame :=
  FWriteResponsePartsImpl request_id final_close_flags
    (write_group [TrivialItem create_not_implemented_resp]).

(** After the handler returned: the [switch] of the two callers. *)
(*@ impl/connection.hpp 679-703 connection_t::on_request_message_complete *)
Definition after_handler (request_id : Z) (status : request_handling_status_t) : meth (list frame) :=
  match status with
  | not_handled | rejected => mret [not_implemented request_id]
  | accepted =>
      able ← gets (fun c => Coordinator.is_able_to_get_more_messages (m_response_coordinator c));
      if able : bool then mret [FWaitForHttpMessage] else mret []
  end.

(*@ impl/connection.hpp 800-841 connection_t::handle_upgrade_request *)
Definition after_upgrade_handler (request_id : Z) (status : request_handling_status_t)
    : meth (list frame) :=
  match status with
  | not_handled | rejected =>
      is_open ← gets m_socket_is_open;
      if is_open : bool then mret [not_implemented request_id] else mret []
  | accepted => mret []
  end.

(*@ impl/connection.hpp 460-469 connection_t::move_upgrade_internals *)
Definition move_upgrade_internals : meth unit :=
  modify (set_socket false);; emit SocketMoved.

(** ** Writing *)

(** The lambda [invoke_after_write_cb_with_error], and the end of the group. *)
(*@ impl/connection.hpp 894-909 connection_t::write_response_parts_impl *)
Definition invoke_after_write_cb_with_error (wg : write_group_t) : meth unit :=
  let '(wg, cs, _) := invoke_after_write_notificator_if_exists cb_throws wg
                        (restinio_error write_was_not_executed) in
  notify cs;; throw_other cs;; notify (wg_destroy cb_throws wg).

(** Up to the first part that may run more than one method. *)
(*@ impl/connection.hpp 884-931 connection_t::write_response_parts_impl *)
Definition write_response_parts_impl (request_id : Z) (flags : response_output_flags_t)
    (wg : write_group_t) : meth (list frame) :=
  is_open ← gets m_socket_is_open;
  if is_open : bool then
    s ← gets stage; full ← gets is_full;
    if bool_decide (wait_for_upgrade_handling_result_or_nothing = s) && negb full
    then mret [FWaitForHttpMessage; FAppendResponse request_id flags wg]
    else mret [FAppendResponse request_id flags wg]
  else invoke_after_write_cb_with_error wg;; mret [].

(*@ impl/connection.hpp 1309-1351 connection_t::handle_nothing_to_write *)
Definition handle_nothing_to_write : meth unit :=
  is_closed ← gets closed;
  if is_closed : bool then close
  else
    empty ← gets is_empty;
    if empty : bool then guard_read_operation else guard_request_handling_operation.

(*@ impl/connection.hpp 988-1057 connection_t::init_write *)
Definition init_write : meth (list frame) :=
  response_coordinator_full_before ← gets is_full;
  next_write_group ← pop_ready_buffers;
  match next_write_group with
  | Some (wg, _) =>
      response_coordinator_full_after ← gets is_full;
      modify (set_init_read (response_coordinator_full_before && negb response_coordinator_full_after));;
      output (fun o => let '(o, cs) := OutputCtx.start_next_write_group cb_throws o (Some wg) in
                       (Ok tt, o, cs));;
      mret [FCurrentWriteCtx; FTry]
  | None => handle_nothing_to_write;; mret []
  end.

(*@ impl/connection.hpp 974-986 connection_t::init_write_if_necessary *)
Definition init_write_if_necessary : meth (list frame) :=
  is_closed ← gets closed;
  (if is_closed : bool then emit AssertionFailed else mret tt);;
  t ← gets transmitting;
  if negb t then init_write else mret [].

(** The rest, once a pending upgrade has been dealt with. *)
(*@ impl/connection.hpp 933-971 connection_t::write_response_parts_impl *)
Definition append_and_write (request_id : Z) (flags : response_output_flags_t)
    (wg : write_group_t) : meth (list frame) :=
  is_closed ← gets closed;
  if negb is_closed then
    append_response request_id flags wg;; init_write_if_necessary
  else invoke_after_write_cb_with_error wg;; mret [].

Definition cancel_reading_if_closed : meth unit :=
  is_closed ← gets closed; if is_closed : bool then emit SocketCancel else mret tt.

(*@ impl/connection.hpp 1107-1168 connection_t::handle_trivial_write_operation *)
Definition handle_trivial_write_operation (bufs : list bytes) : meth (list frame) :=
  cancel_reading_if_closed;;
  emit (AsyncWrite bufs);; guard_write_operation;; mret [].

(** The runner may report an error before [start] returns: [FSendfileStarted]. *)
(*@ impl/connection.hpp 1170-1247 connection_t::handle_file_write_operation *)
Definition handle_file_write_operation (sf : sendfile_t) : meth (list frame) :=
  cancel_reading_if_closed;;
  guard_sendfile_operation (m_timelimit sf);;
  o ← gets m_write_output_ctx;
  match OutputCtx.start_sendfile_operation o sf with
  | Err e => throw (sendfile_exception e)
  | Ok o => modify (set_output o);; emit (StartSendfile sf);; mret [FSendfileStarted]
  end.

(*@ impl/connection.hpp 1249-1307 connection_t::finish_handling_current_write_ctx *)
Definition finish_handling_current_write_ctx : meth (list frame) :=
  r ← output_notifying (OutputCtx.finish_write_group cb_throws);
  match r with Ok _ => mret tt | Err e => throw (output_exception e) end;;
  is_closed ← gets closed;
  if negb is_closed then
    s ← gets stage;
    if bool_decide (stage_none = s) then
      init_read ← gets m_init_read_after_this_write;
      mret ((if init_read : bool then [FWaitForHttpMessage] else []) ++ [FInitWriteIfNecessary])
    else
      empty ← gets is_empty;
      if empty : bool then handle_upgrade_request else init_write_if_necessary
  else close;; mret [].

(** The body of the [try] block; the block is [[FCurrentWriteCtx; FTry]]. *)
(*@ impl/connection.hpp 1075-1105 connection_t::handle_current_write_ctx *)
Definition handle_current_write_ctx : meth (list frame) :=
  wo ← output (fun o =>
    match OutputCtx.extract_next_write_operation asio_max_iov_len o with
    | Ok (wo, o') => (Ok wo, o', [])
    | Err e => (Err e, o, [])
    end);
  match wo with
  | OutputCtx.trivial_write_operation bufs _ => handle_trivial_write_operation bufs
  | OutputCtx.file_write_operation sf => handle_file_write_operation sf
  | OutputCtx.none_write_operation => finish_handling_current_write_ctx
  end.

(** What the notificator of a failed group throws is caught and logged. *)
(*@ impl/connection.hpp 1353-1391 connection_t::after_write *)
Definition after_write (ec : error_code) : meth (list frame) :=
  if bool_decide (ec = no_error) then mret [FCurrentWriteCtx; FTry]
  else
    (if negb (bool_decide (ec = operation_aborted))
     then trigger_error_and_close (unable_to_write ec) else mret tt);;
    _ ← output_notifying (fun o => OutputCtx.fail_write_group cb_throws o ec);
    mret [].

(** The completion handler of a sendfile: its operation is reset at the end. *)
(*@ impl/connection.hpp 1207-1245 connection_t::handle_file_write_operation *)
Definition on_sendfile_done (ec : error_code) : meth (list frame) :=
  fs ← after_write ec; mret (fs ++ [FResetSendfile]).

(** ** The machine *)

(** [reads], [writes] and [sendfiles] count the asynchronous operations that have
    not completed; [given] lists the notificators of all responses so far. *)
Record machine : Type := mk_machine {
  conn : connection_t;
  stack : list frame;
  log : list effect;
  reads : nat;
  writes : nat;
  sendfiles : nat;
  clock : Z;
  given : list notificator;
  uncaught : option exception_t;
  destroyed : bool }.

Inductive event : Type :=
| EReadDone (ec : error_code) (data : bytes)
| EWriteDone (ec : error_code)
| ESendfileDone (ec : error_code)
| ETimerExpires
| ECheckTimeout
| ETick (d : Z)
| EResponse (request_id : Z) (flags : response_output_flags_t) (wg : write_group_t)
| EMove
| EHandlerWrites (request_id : Z) (flags : response_output_flags_t) (wg : write_group_t)
| EHandlerMoves
| EHandlerReturns (status : request_handling_status_t)
| EHandlerThrows
| EHandlerThrowsOther
| ESendfileReports (ec : option error_code)
| ERun
| EDestroy.

Definition run_frame (f : frame) : meth (list frame) :=
  match f with
  | FWaitForHttpMessage => wait_for_http_message
  | FConsumeData length => consume_data length
  | FRequestMessageComplete => on_request_message_complete
  | FWriteResponsePartsImpl id flags wg => write_response_parts_impl id flags wg
  | FAppendResponse id flags wg => append_and_write id flags wg
  | FInitWriteIfNecessary => init_write_if_necessary
  | FCurrentWriteCtx => handle_current_write_ctx
  | FResetSendfile =>
      modify (fun c => set_output (OutputCtx.reset_sendfile_operation (m_write_output_ctx c)) c);;
      mret []
  | FTry | FHandler _ _ | FSendfileStarted => mret []
  end.

(** The by-value group of a frame an exception leaves is destroyed. *)
Definition frame_destroy (f : frame) : calls :=
  match f with
  | FWriteResponsePartsImpl _ _ wg | FAppendResponse _ _ wg => wg_destroy cb_throws wg
  | _ => []
  end.

(** Up to the innermost [try]: the frames below it, and whether there is one. *)
Fixpoint unwind (fs : list frame) : list frame * calls * bool :=
  match fs with
  | [] => ([], [], false)
  | FTry :: rest => (rest, [], true)
  | f :: rest => let '(rest', cs, caught) := unwind rest in (rest', frame_destroy f ++ cs, caught)
  end.

Definition count (p : effect -> bool) (es : list effect) : nat := length (List.filter p es).
Definition is_read (e : effect) : bool := match e with AsyncReadSome => true | _ => false end.
Definition is_write (e : effect) : bool := match e with AsyncWrite _ => true | _ => false end.

Definition record (m : machine) (c : connection_t) (fs : list frame) (es : list effect)
    (ex : option exception_t) : machine :=
  {| conn := c; stack := fs; log := log m ++ es;
     reads := reads m + count is_read es; writes := writes m + count is_write es;
     sendfiles := sendfiles m; clock := clock m; given := given m;
     uncaught := ex; destroyed := destroyed m |}.

Definition notified (cs : calls) : list effect := (fun c => Notified (fst c) (snd c)) <$> cs.

(** Runs a method on top of the frames [rest]. An exception derived from
    [std::exception] is caught by the innermost [try] of [rest]; without one, or if it
    is another, it leaves a [noexcept] handler, and that is the end of the program. *)
Definition enter (b : meth (list frame)) (rest : list frame) (m : machine) : machine :=
  match b (clock m) (conn m) with
  | (Ok fs, c, es) => record m c (fs ++ rest) es None
  | (Err ex, c, es) =>
      let '(rest', cs, caught) := unwind rest in
      if negb (derives_from_std ex) then record m c rest es (Some ex)
      else if caught then
        let '(_, c', es') := trigger_error_and_close (unexpected_exception ex) (clock m) c in
        record m c' rest' (es ++ notified cs ++ es') None
      else record m c rest' (es ++ notified cs) (Some ex)
  end.

(** The groups destroyed with the connection: the coordinator's, then the
    current one. *)
(*@ impl/connection.hpp 361-369 connection_t::~connection_t *)
Definition connection_destroy (c : connection_t) : calls :=
  (Table.m_contexts (Coordinator.m_context_table (m_response_coordinator c)) ≫=
     fun ctx => m_write_groups ctx ≫= wg_destroy cb_throws) ++
  from_option (wg_destroy cb_throws) [] (OutputCtx.m_current_wg (m_write_output_ctx c)).

Definition with_stack (m : machine) (fs : list frame) : machine :=
  {| conn := conn m; stack := fs; log := log m; reads := reads m; writes := writes m;
     sendfiles := sendfiles m; clock := clock m; given := given m; uncaught := uncaught m;
     destroyed := destroyed m |}.

Definition with_ops (m : machine) (r w s : nat) : machine :=
  {| conn := conn m; stack := stack m; log := log m; reads := r; writes := w; sendfiles := s;
     clock := clock m; given := given m; uncaught := uncaught m; destroyed := destroyed m |}.

Definition with_conn (m : machine) (c : connection_t) : machine :=
  {| conn := c; stack := stack m; log := log m; reads := reads m; writes := writes m;
     sendfiles := sendfiles m; clock := clock m; given := given m; uncaught := uncaught m;
     destroyed := destroyed m |}.

Definition with_clock (m : machine) (t : Z) : machine :=
  {| conn := conn m; stack := stack m; log := log m; reads := reads m; writes := writes m;
     sendfiles := sendfiles m; clock := t; given := given m; uncaught := uncaught m;
     destroyed := destroyed m |}.

(** The lambda dispatched by [write_response_parts], with its [try]. *)
(*@ impl/connection.hpp 844-882 connection_t::write_response_parts *)
Definition write_response_parts (m : machine) (id : Z) (flags : response_output_flags_t)
    (wg : write_group_t) : machine :=
  {| conn := conn m; stack := FWriteResponsePartsImpl id flags wg :: FTry :: stack m;
     log := log m; reads := reads m; writes := writes m; sendfiles := sendfiles m;
     clock := clock m; given := given m ++ pending wg; uncaught := uncaught m;
     destroyed := destroyed m |}.

(** What the environment does between two activations of the connection. *)
Definition outside (m : machine) (e : event) : option machine :=
  match e with
  | EReadDone ec data =>
      if (0 <? reads m)%nat && (length data <=? m_buffer_size st)%nat
      then Some (enter (on_read ec data) [] (with_ops m (reads m - 1) (writes m) (sendfiles m)))
      else None
  | EWriteDone ec =>
      if (0 <? writes m)%nat
      then Some (enter (after_write ec) [] (with_ops m (reads m) (writes m - 1) (sendfiles m)))
      else None
  | ESendfileDone ec =>
      if (0 <? sendfiles m)%nat
      then Some (enter (on_sendfile_done ec) [] (with_ops m (reads m) (writes m) (sendfiles m - 1)))
      else None
  | ETimerExpires =>
      let t := m_timer_guard (conn m) in
      if t_waiting t
      then Some (with_conn m (set_timer (mk_timer false (t_queued t + 1)) (conn m))) else None
  | ECheckTimeout =>
      let t := m_timer_guard (conn m) in
      if (0 <? t_queued t)%nat
      then Some (enter check_timeout [FTry]
                   (with_conn m (set_timer (mk_timer (t_waiting t) (t_queued t - 1)) (conn m))))
      else None
  | ETick d => if 0 <=? d then Some (with_clock m (clock m + d)) else None
  | EResponse id flags wg => Some (write_response_parts m id flags wg)
  | EMove => Some (enter (move_upgrade_internals;; mret []) [] m)
  | EDestroy =>
      if (reads m =? 0)%nat && (writes m =? 0)%nat && (sendfiles m =? 0)%nat
      then Some {| conn := conn m; stack := []; log := log m ++ notified (connection_destroy (conn m));
                   reads := 0; writes := 0; sendfiles := 0; clock := clock m; given := given m;
                   uncaught := uncaught m; destroyed := true |}
      else None
  | _ => None
  end.

Definition step (m : machine) (e : event) : option machine :=
  if destroyed m || bool_decide (is_Some (uncaught m)) then None
  else
    match stack m with
    | [] => outside m e
    | FHandler id for_upgrade :: rest =>
        match e with
        | EHandlerWrites i flags wg => Some (write_response_parts m i flags wg)
        | EHandlerMoves => Some (enter (move_upgrade_internals;; mret []) (stack m) m)
        | EHandlerReturns status =>
            Some (enter (if for_upgrade then after_upgrade_handler id status
                         else after_handler id status) rest m)
        | EHandlerThrows => Some (enter (throw handler_exception) rest m)
        | EHandlerThrowsOther => Some (enter (throw other_exception) rest m)
        | _ => None
        end
    | FSendfileStarted :: rest =>
        match e with
        | ESendfileReports None =>
            Some (with_ops (with_stack m rest) (reads m) (writes m) (sendfiles m + 1))
        | ESendfileReports (Some ec) => Some (enter (on_sendfile_done ec) rest m)
        | _ => None
        end
    | f :: rest =>
        match e with ERun => Some (enter (run_frame f) rest (with_stack m rest)) | _ => None end
    end.

Fixpoint run_events (m : machine) (es : list event) : option machine :=
  match es with
  | [] => Some m
  | e :: es' => match step m e with Some m' => run_events m' es' | None => None end
  end.

(** A connection just created and initialised. *)
Definition start (now : Z) : machine :=
  enter init []
    {| conn := connection_create; stack := []; log := []; reads := 0; writes := 0; sendfiles := 0;
       clock := now; given := []; uncaught := None; destroyed := false |}.

Inductive reachable (now : Z) : machine -> Prop :=
| reach_start : reachable now (start now)
| reach_step m e m' : reachable now m -> step m e = Some m' -> reachable now m'.

(** Runs frames until the stack is empty or waits for user code. *)
Fixpoint settle (fuel : nat) (m : machine) : machine :=
  match fuel with
  | O => m
  | S fuel' => match step m ERun with Some m' => settle fuel' m' | None => m end
  end.

(** Each event is followed by the frames it leaves, up to [fuel] of them. *)
Fixpoint script (fuel : nat) (m : machine) (es : list event) : option machine :=
  match es with
  | [] => Some m
  | e :: es' =>
      match step m e with Some m' => script fuel (settle fuel m') es' | None => None end
  end.

Lemma settle_reachable now fuel : forall m, reachable now m -> reachable now (settle fuel m).
Proof.
  induction fuel as [|fuel IH]; intros m Hm; [done|]. cbn [settle].
  destruct (step m ERun) as [m'|] eqn:E; [|done]. apply IH. by eapply reach_step.
Qed.

Lemma script_reachable now fuel es : forall m m',
  reachable now m -> script fuel m es = Some m' -> reachable now m'.
Proof.
  induction es as [|e es IH]; intros m m' Hm; cbn [script]; [by intros [= <-]|].
  destruct (step m e) as [m1|] eqn:E; [|done]. apply IH, settle_reachable.
  by eapply reach_step.
Qed.

Lemma run_events_reachable now es : forall m m',
  reachable now m -> run_events m es = Some m' -> reachable now m'.
Proof.
  induction es as [|e es IH]; intros m m' Hm; cbn [run_events]; [by intros [= <-]|].
  destruct (step m e) as [m1|] eqn:E; [|done]. apply IH. by eapply reach_step.
Qed.

(** Runs of events taken together. *)
Lemma run_events_app es es' : forall m,
  run_events m (es ++ es') = run_events m es ≫= fun m' => run_events m' es'.
Proof.
  induction es as [|e es IH]; intros m; [done|]. cbn [app run_events].
  destruct (step m e); [apply IH | done].
Qed.

End Connection.

(** ** A small parser, for concrete runs

    One line is one request: its bytes are the target, a [U] asks for an
    upgrade, an [E] is a parse error. *)
Record line_parser : Type := mk_line { lp_ok : bool; lp_upgrade : bool; lp_nread : Z }.

Fixpoint line_execute (p : line_parser) (ctx : http_parser_ctx_t) (data : bytes)
    : line_parser * http_parser_ctx_t * Z :=
  match data with
  | [] => (p, ctx, 0)
  | b :: data' =>
      if b =? 10 then
        (p, (restinio_message_complete_cb id ctx 1 (lp_upgrade p) true).1, 1)
      else if b =? chr "E" then (mk_line false (lp_upgrade p) (lp_nread p), ctx, 0)
      else
        let '(p', ctx', n) :=
          line_execute (mk_line true (lp_upgrade p || (b =? chr "U")) (lp_nread p + 1))
            (restinio_url_cb ctx [b]).1 data' in
        (p', ctx', n + 1)
  end.

#[global] Instance line_http_parser : HttpParser line_parser := {|
  http_parser_init := mk_line true false 0;
  http_parser_execute := line_execute;
  http_errno_ok_or_paused := lp_ok;
  parser_upgrade := lp_upgrade;
  parser_nread := lp_nread |}.

Definition example_settings : settings_t :=
  {| m_buffer_size := 64; m_incoming_http_msg_limits := mk_limits 100 100 100 100 100;
     m_read_next_http_message_timelimit := 60; m_write_http_response_timelimit := 5;
     m_handle_request_timeout := 10; m_max_pipelined_requests := 1 |}.

(** Error codes and notificators of the concrete runs. *)
Definition example_aborted : error_code := network_error 125.
Definition example_eof : error_code := network_error 2.
Definition no_throw : notificator -> error_code -> bool := fun _ _ => false.
#[local] Existing Instance no_other_exceptions.

Abbreviation example_machine := (@machine line_parser).
Definition example_start : example_machine := start example_settings 1 no_throw 0.
Definition example_script (es : list event) : option example_machine :=
  script example_settings 1 no_throw 64 example_aborted example_eof 50
    (settle example_settings 1 no_throw 64 example_aborted example_eof 50 example_start) es.

Lemma example_script_reachable es m :
  example_script es = Some m ->
  reachable example_settings 1 no_throw 64 example_aborted example_eof 0 m.
Proof. apply script_reachable, settle_reachable, reach_start. Qed.

Definition line (s : string) : bytes := str s ++ [10].
Definition response (c : response_connection_attr_t) : response_output_flags_t :=
  {| m_response_parts := final_parts; m_response_connection := c |}.
Definition text_group (s : string) (n : option notificator) : write_group_t :=
  after_write_notificator (write_group [TrivialItem (str s)]) n.
