(* ===== verification/ConnNotify.v ===== *)
(** * Every notificator is called exactly once

    Conservation of after-write notificators in a connection: each one that came
    with a response is pending in the coordinator, in the group being written or
    in a method that has not returned, or it has been called, once. *)

From Stdlib Require Import Permutation.
From S2P Require Import Prelude Effects Handlers InputBuffer Sendfile WriteGroup OutputCtx RespCoord Headers.
From S2P Require Import ParserCallbacks Connection.

(** ** Counting *)

Section Counting.
Variable n : notificator.

Definition occ (l : list notificator) : nat := count_occ Nat.eq_dec l n.

#[local] Arguments occ : simpl never.

Lemma occ_app l k : occ (l ++ k) = (occ l + occ k)%nat.
Proof. apply count_occ_app. Qed.

(** The calls of [n] still owed by a group, a context, a table, a frame. *)
Definition owed_group (wg : write_group_t) : nat := occ (pending wg).
Definition owed_groups (wgs : list write_group_t) : nat := sum_list_with owed_group wgs.
Definition owed_ctx (ctx : response_context_t) : nat := owed_groups (m_write_groups ctx).
Definition owed_table (q : Coordinator.response_coordinator_t) : nat :=
  sum_list_with owed_ctx (Table.m_contexts (Coordinator.m_context_table q)).
Definition called (cs : calls) : nat := occ (fst <$> cs).

Lemma called_nil : called [] = 0%nat.
Proof. done. Qed.

Lemma called_app cs cs' : called (cs ++ cs') = (called cs + called cs')%nat.
Proof. unfold called. by rewrite fmap_app, occ_app. Qed.

Lemma called_map (ec : error_code) l : called ((fun m => (m, ec)) <$> l) = occ l.
Proof.
  unfold called. f_equal. rewrite <- list_fmap_compose. unfold compose; cbn. apply list_fmap_id.
Qed.

Lemma owed_groups_app k l : owed_groups (k ++ l) = (owed_groups k + owed_groups l)%nat.
Proof. unfold owed_groups. induction k; cbn; lia. Qed.

Lemma owed_groups_pending wgs : owed_groups wgs = occ (pending_all wgs).
Proof.
  unfold owed_groups, pending_all. induction wgs as [|wg wgs IH]; [done|].
  rewrite bind_cons, occ_app. cbn. unfold owed_group at 1. lia.
Qed.

Lemma owed_destroy cb wg : called (wg_destroy cb wg) = owed_group wg.
Proof. rewrite wg_destroy_calls. apply called_map. Qed.

Lemma owed_destroy_all cb wgs : called (wgs ≫= wg_destroy cb) = owed_groups wgs.
Proof.
  induction wgs as [|wg wgs IH]; [done|].
  rewrite bind_cons, called_app, owed_destroy, IH. done.
Qed.

Lemma sum_insert {A} (f : A -> nat) l i x y :
  l !! i = Some x -> (sum_list_with f (<[i := y]> l) + f x = sum_list_with f l + f y)%nat.
Proof.
  revert i; induction l as [|a l IH]; intros [|i]; [done..| |]; cbn.
  - intros [= ->]. lia.
  - intros H. specialize (IH i H). rewrite <- !Nat.add_assoc. f_equal. exact IH.
Qed.

(** ** The coordinator *)

(** The index of the first element is that of a context. *)
Definition ring_ok (q : Coordinator.response_coordinator_t) : Prop :=
  let tb := Coordinator.m_context_table q in
  (Table.m_elements_exists tb <= length (Table.m_contexts tb))%nat /\
  ((0 < length (Table.m_contexts tb))%nat -> in_ring tb).

Lemma owed_set tb i ctx q :
  (i < length (Table.m_contexts tb))%nat -> Coordinator.m_context_table q = tb ->
  (owed_table (Coordinator.with_table q (Table.set tb i ctx)) + owed_ctx (Table.get tb i) =
   owed_table q + owed_ctx ctx)%nat.
Proof.
  intros Hi <-. unfold owed_table, Table.set, Table.get; cbn.
  destruct (lookup_lt_is_Some_2 _ _ Hi) as [x Hx]. rewrite Hx; cbn. by apply sum_insert.
Qed.

Lemma owed_enqueue cb ctx wg ctx' cs :
  enqueue_group cb ctx wg = (ctx', cs) ->
  (called cs + owed_ctx ctx' = owed_ctx ctx + owed_group wg)%nat.
Proof.
  rewrite enqueue_group_eq. intros [= <- <-]. unfold owed_ctx, Spec.add_group; cbn.
  destruct (last (m_write_groups ctx)) as [back|] eqn:E.
  - apply last_Some in E as [l E]. rewrite E.
    case_bool_decide as Hn; cbn; [destruct (m_status_line_size wg =? 0)|];
      rewrite ?removelast_last, !owed_groups_app, called_nil; cbn; try lia.
    unfold owed_group, pending; cbn. rewrite Hn. change (occ []) with 0%nat. lia.
  - apply last_None in E. rewrite E, ?called_nil. cbn. lia.
Qed.

Definition op_owed (op : coord_op) : nat :=
  match op with OAppend _ _ wg => owed_group wg | _ => 0%nat end.
Definition out_owed (out : coord_out) : nat :=
  match out with Popped (Some (wg, _)) => owed_group wg | _ => 0%nat end.

Lemma owed_dequeue cb ctx wg ctx' cs :
  dequeue_group cb ctx = Some (wg, ctx', cs) ->
  cs = [] /\ owed_ctx ctx = (owed_group wg + owed_ctx ctx')%nat /\ m_request_id ctx' = m_request_id ctx.
Proof.
  rewrite dequeue_group_eq. unfold owed_ctx.
  destruct (m_write_groups ctx) eqn:E; intros [= <- <- <-]. done.
Qed.

Lemma ring_ok_set q i ctx :
  ring_ok q -> ring_ok (Coordinator.with_table q (Table.set (Coordinator.m_context_table q) i ctx)).
Proof. unfold ring_ok, in_ring. cbn. by rewrite length_insert. Qed.

Lemma ring_ok_pop q cnt b :
  ring_ok q ->
  ring_ok (Coordinator.mk cnt b
    (Table.pop_response_context_nonchecked (Coordinator.m_context_table q))).
Proof.
  intros [He Hr]. split; cbn; [lia|]. intros Hl. by apply in_ring_pop, Hr.
Qed.

Lemma owed_register q id q' :
  ring_ok q -> Coordinator.register_new_request q = Ok (id, q') ->
  ring_ok q' /\ owed_table q' = owed_table q.
Proof.
  intros [He Hr]. unfold Coordinator.register_new_request, Table.push_response_context,
    Table.table_is_full.
  destruct (Nat.eqb_spec (length (Table.m_contexts (Coordinator.m_context_table q)))
    (Table.m_elements_exists (Coordinator.m_context_table q))) as [|Hne]; [done|].
  intros [= <- <-].
  set (tb := Coordinator.m_context_table q) in *.
  set (i := (_ mod _)%nat). assert (Hi : (i < length (Table.m_contexts tb))%nat)
    by (apply Nat.mod_upper_bound; lia).
  split.
  - unfold ring_ok, in_ring in *. cbn. rewrite length_insert. split; [lia | done].
  - pose proof (owed_set tb i (reinit (Table.get tb i) (Coordinator.m_request_id_counter q)) q Hi eq_refl) as Ho.
    change (owed_ctx (reinit ?x ?y)) with (owed_ctx x) in Ho.
    match type of Ho with (?x + _ = _)%nat => match goal with |- ?y = _ => change y with x end end. lia.
Qed.

Lemma owed_append cb q id flags wg q' cs :
  ring_ok q -> Coordinator.append_response cb q id flags wg = (Ok q', cs) ->
  ring_ok q' /\ (called cs + owed_table q' = owed_table q + owed_group wg)%nat.
Proof.
  intros Hok. unfold Coordinator.append_response.
  destruct (Coordinator.closed q); [done|].
  unfold Table.get_by_req_id, Table.table_empty.
  destruct (_ || _) eqn:E; [done|]. apply orb_false_iff in E as [E _].
  apply orb_false_iff in E as [E _]. apply Nat.eqb_neq in E.
  case_bool_decide; [done|].
  set (i := Table.get_real_index _ _). set (tb := Coordinator.m_context_table q) in *.
  assert (Hi : (i < length (Table.m_contexts tb))%nat).
  { apply Nat.mod_upper_bound. destruct Hok as [He _]. fold tb in He. lia. }
  destruct (enqueue_group cb _ wg) as [ctx cs'] eqn:Hen. intros [= <- <-].
  apply owed_enqueue in Hen. change (owed_ctx (set_response_output_flags ?x _)) with (owed_ctx x) in Hen.
  split; [by apply ring_ok_set|]. pose proof (owed_set tb i ctx q Hi eq_refl) as Ho. lia.
Qed.

Lemma owed_pop cb q r q' cs :
  ring_ok q -> Coordinator.pop_ready_buffers cb q = (Ok (r, q'), cs) ->
  ring_ok q' /\ (called cs + owed_table q' + out_owed (Popped r) = owed_table q)%nat.
Proof.
  intros Hok. unfold Coordinator.pop_ready_buffers.
  destruct (Coordinator.closed q); [done|].
  destruct (Table.table_empty _) eqn:Ee; [intros [= <- <- <-]; cbn; rewrite ?called_nil; split; [done | lia]|].
  destruct (dequeue_group cb _) as [[[wg ctx] cs0]|] eqn:Hd;
    [|intros [= <- <- <-]; cbn; rewrite ?called_nil; split; [done | lia]].
  apply owed_dequeue in Hd as (-> & Hd & _).
  set (tb := Coordinator.m_context_table q) in *. set (i := Table.m_first_element_index tb) in *.
  assert (Hi : (i < length (Table.m_contexts tb))%nat).
  { unfold Table.table_empty in Ee. apply Nat.eqb_neq in Ee. destruct Hok as [He Hr].
    fold tb in He, Hr. apply Hr. lia. }
  pose proof (owed_set tb i ctx q Hi eq_refl) as Ho. unfold Table.front in Hd. fold i in Hd.
  pose proof (ring_ok_set q i ctx Hok) as Hok'. fold tb in Hok'.
  destruct (is_complete ctx).
  - unfold Table.pop_response_context. destruct (Table.table_empty _); [done|].
    intros [= <- <- <-]. split; [by apply (ring_ok_pop _ _ _ Hok')|].
    change (owed_table (Coordinator.mk _ _ (Table.pop_response_context_nonchecked ?t))) with
      (owed_table (Coordinator.with_table q t)). cbn [called out_owed]. rewrite ?called_nil. lia.
  - intros [= <- <- <-]. split; [done|]. cbn [out_owed]. rewrite ?called_nil. lia.
Qed.

Lemma owed_drain cb fuel ctx :
  forall ctx' cs, Coordinator.drain_groups cb fuel ctx = (ctx', cs) ->
  (called cs + owed_ctx ctx' = owed_ctx ctx)%nat.
Proof.
  revert ctx; induction fuel as [|fuel IH]; intros ctx ctx' cs; cbn [Coordinator.drain_groups].
  { by intros [= <- <-]. }
  destruct (dequeue_group cb ctx) as [[[wg ctx1] cs0]|] eqn:Hd; [|by intros [= <- <-]].
  apply owed_dequeue in Hd as (-> & Hd & _).
  destruct (invoke_after_write_notificator_if_exists cb wg _) as [[wg' cs1] th] eqn:Hi.
  apply invoke_calls in Hi as (-> & Hp & _).
  destruct (Coordinator.drain_groups cb fuel ctx1) as [ctx2 cs2] eqn:Hr. intros [= <- <-].
  apply IH in Hr. rewrite !called_app, called_map, owed_destroy.
  unfold owed_group in *. rewrite Hp. change (occ []) with 0%nat. rewrite ?called_nil. lia.
Qed.

Lemma owed_reset_loop cb q fuel : forall tb tb' cs,
  ring_ok (Coordinator.with_table q tb) -> Coordinator.reset_loop cb fuel tb = (tb', cs) ->
  ring_ok (Coordinator.with_table q tb') /\
  (called cs + owed_table (Coordinator.with_table q tb') = owed_table (Coordinator.with_table q tb))%nat.
Proof.
  induction fuel as [|fuel IH]; intros tb tb' cs Hok; cbn [Coordinator.reset_loop].
  { by intros [= <- <-]. }
  destruct (Table.table_empty tb) eqn:Ee; [by intros [= <- <-]|].
  destruct (Coordinator.drain_groups cb _ _) as [ctx cs0] eqn:Hd. apply owed_drain in Hd.
  set (i := Table.m_first_element_index tb) in *.
  assert (Hi : (i < length (Table.m_contexts tb))%nat).
  { unfold Table.table_empty in Ee. apply Nat.eqb_neq in Ee. destruct Hok as [He Hr].
    cbn in He, Hr. apply Hr. lia. }
  destruct (Coordinator.reset_loop cb fuel _) as [tb1 cs1] eqn:Hl. intros [= <- <-].
  pose proof (owed_set tb i ctx (Coordinator.with_table q tb) Hi eq_refl) as Ho.
  unfold Table.front in Hd. fold i in Hd.
  apply IH in Hl as [Hok1 Ho1].
  - split; [done|]. rewrite called_app.
    change (owed_table (Coordinator.with_table q (Table.pop_response_context_nonchecked ?t)))
      with (owed_table (Coordinator.with_table q t)) in Ho1.
    change (Coordinator.with_table (Coordinator.with_table q tb) ?t) with (Coordinator.with_table q t) in Ho.
    lia.
  - apply (ring_ok_pop (Coordinator.with_table q (Table.set tb i ctx))).
    by apply (ring_ok_set (Coordinator.with_table q tb)).
Qed.

(** Every operation of the coordinator keeps the balance. *)
Lemma run_op_balance cb q op q' out cs :
  ring_ok q -> run_op (Q := coordinator_queue cb) q op = (q', out, cs) ->
  ring_ok q' /\ (called cs + owed_table q' + out_owed out = owed_table q + op_owed op)%nat.
Proof.
  intros Hok. destruct op as [|id flags wg| |]; cbn.
  - destruct (Coordinator.register_new_request q) as [[id q1]|e] eqn:E; intros [= <- <- <-].
    + apply owed_register in E as [? ->]; [|done]. split; [done|]. cbn. rewrite ?called_nil. lia.
    + split; [done|]. cbn. rewrite ?called_nil. lia.
  - destruct (Coordinator.append_response cb q id flags wg) as [[q1|e] cs1] eqn:E;
      intros [= <- <- <-].
    + apply owed_append in E as [? E]; [|done]. split; [done|]. cbn. lia.
    + split; [done|]. cbn. enough (called cs1 = owed_group wg) by lia.
      unfold Coordinator.append_response in E. rewrite <- (owed_destroy cb).
      destruct (Coordinator.closed q); [by injection E as _ <-|].
      destruct (Table.get_by_req_id _ _); [|by injection E as _ <-].
      case_bool_decide; [by injection E as _ <-|]. by destruct (enqueue_group cb _ wg).
  - destruct (Coordinator.pop_ready_buffers cb q) as [[[r q1]|e] cs1] eqn:E; intros [= <- <- <-].
    + apply owed_pop in E as [? E]; [|done]. split; [done|]. cbn in *. lia.
    + split; [done|]. cbn. enough (cs1 = []) as -> by (rewrite ?called_nil; lia).
      unfold Coordinator.pop_ready_buffers in E.
      destruct (Coordinator.closed q); [by injection E|]. destruct (Table.table_empty _); [done|].
      destruct (dequeue_group cb _) as [[[wg ctx] cs0]|] eqn:Hd; [|done].
      apply owed_dequeue in Hd as (-> & _). destruct (is_complete ctx); [|done].
      destruct (Table.pop_response_context _); [done | by injection E].
  - destruct (Coordinator.reset cb q) as [q1 cs1] eqn:E. intros [= <- <- <-].
    unfold Coordinator.reset in E.
    destruct (Coordinator.reset_loop cb _ _) as [tb cs2] eqn:Hl. injection E as <- <-.
    assert (Hq : Coordinator.with_table q (Coordinator.m_context_table q) = q) by by destruct q.
    apply (owed_reset_loop cb q) in Hl as [? Hl]; rewrite ?Hq in *; [|done].
    split; [done|]. cbn. lia.
Qed.

End Counting.

(** ** The methods of the connection *)

Definition notified_in (es : list effect) : list notificator :=
  omap (fun e => match e with Notified m _ => Some m | _ => None end) es.

Lemma notified_in_app es es' : notified_in (es ++ es') = notified_in es ++ notified_in es'.
Proof. apply omap_app. Qed.

Lemma notified_in_notified cs : notified_in (notified cs) = fst <$> cs.
Proof. unfold notified_in. induction cs as [|[m ec] cs IH]; cbn; [done|]. by f_equal. Qed.

Section Balance.
Context {P : Type} `{HP : HttpParser P} {Other : OtherExceptions}.
Context (st : settings_t) (http_method_get : Z).
Context (cb_throws : notificator -> error_code -> bool) (asio_max_iov_len : Z).
Context (operation_aborted eof : error_code).
Abbreviation connection_t := (@connection_t P).
Abbreviation meth := (act Z connection_t effect exception_t).
Variable n : notificator.

Definition owed_output (o : OutputCtx.t) : nat := from_option (owed_group n) 0%nat (OutputCtx.m_current_wg o).
Definition owed_conn (c : connection_t) : nat :=
  (owed_table n (m_response_coordinator c) + owed_output (m_write_output_ctx c))%nat.
Definition owed_frame (f : frame) : nat :=
  match f with
  | FWriteResponsePartsImpl _ _ wg | FAppendResponse _ _ wg => owed_group n wg
  | _ => 0%nat
  end.
Definition owed_stack (fs : list frame) : nat := sum_list_with owed_frame fs.
Definition called_in (es : list effect) : nat := occ n (notified_in es).

Lemma called_in_app es es' : called_in (es ++ es') = (called_in es + called_in es')%nat.
Proof. unfold called_in. by rewrite notified_in_app, occ_app. Qed.

Lemma called_in_notified cs : called_in (notified cs) = called n cs.
Proof. unfold called_in. by rewrite notified_in_notified. Qed.

Lemma owed_stack_app fs fs' : owed_stack (fs ++ fs') = (owed_stack fs + owed_stack fs')%nat.
Proof. unfold owed_stack. induction fs; cbn; lia. Qed.

(** [balanced b k g]: [b], responsible for [k] calls besides those the
    connection owes, makes them, leaves them to the connection, or answers
    [g a] of them with its result [a]; when it throws none is left over. *)
Definition balanced {A} (b : meth A) (k : nat) (g : A -> nat) : Prop :=
  forall now c, ring_ok (m_response_coordinator c) ->
  run_spec b now c (fun x c' w =>
    ring_ok (m_response_coordinator c') /\
    (called_in w + owed_conn c' + match x with Ok a => g a | Err _ => 0 end =
     owed_conn c + k)%nat).

Lemma balanced_bind {A B} (m : meth A) (f : A -> meth B) k g h :
  balanced m k g -> (forall a, balanced (f a) (g a) h) -> balanced (m ≫= f) k h.
Proof.
  intros Hm Hf now c Hc. apply spec_bind. eapply spec_weaken; [by apply Hm|].
  intros [a|e] c1 w1 [Hr1 H1]; [|done].
  eapply spec_weaken; [by apply Hf|]. intros x c2 w2 [Hr2 H2]. cbn in H1, H2.
  split; [done|]. rewrite called_in_app. lia.
Qed.

Lemma balanced_ret {A} (a : A) (g : A -> nat) : balanced (mret a) (g a) g.
Proof. intros now c Hc. apply spec_ret. split; [done|]. unfold called_in; cbn. lia. Qed.

Lemma balanced_ret_eq {A} (a : A) k (g : A -> nat) : g a = k -> balanced (mret a) k g.
Proof. intros <-. apply balanced_ret. Qed.

Lemma balanced_gets {A} (f : connection_t -> A) k : balanced (gets f) k (fun _ => k).
Proof. intros now c Hc. apply spec_gets. split; [done|]. unfold called_in; cbn. lia. Qed.

Lemma balanced_ask k : balanced ask k (fun _ => k).
Proof. intros now c Hc. apply spec_ask. split; [done|]. unfold called_in; cbn. lia. Qed.

(** Changes of other members, and effects that are not calls, do not matter. *)
Lemma balanced_modify (f : connection_t -> connection_t) k :
  (forall c, m_response_coordinator (f c) = m_response_coordinator c) ->
  (forall c, OutputCtx.m_current_wg (m_write_output_ctx (f c)) =
             OutputCtx.m_current_wg (m_write_output_ctx c)) ->
  balanced (modify f) k (fun _ => k).
Proof.
  intros Hq Ho now c Hc. apply spec_modify. rewrite Hq. split; [done|].
  unfold called_in, owed_conn, owed_output; cbn. rewrite Hq, Ho. lia.
Qed.

Lemma balanced_emit (e : effect) k :
  notified_in [e] = [] -> balanced (emit e) k (fun _ => k).
Proof.
  intros He now c Hc. apply spec_emit. split; [done|]. unfold called_in. rewrite He. cbn. lia.
Qed.

Lemma balanced_throw {A} (e : exception_t) (g : A -> nat) : balanced (throw e) 0 g.
Proof. intros now c Hc. apply spec_throw. split; [done|]. unfold called_in; cbn. lia. Qed.

Lemma balanced_notify cs k : balanced (notify cs) (called n cs + k) (fun _ => k).
Proof.
  intros now c Hc. apply spec_emits. split; [done|].
  change ((fun c0 => Notified (fst c0) (snd c0)) <$> cs) with (notified cs).
  rewrite called_in_notified. lia.
Qed.

Lemma balanced_coordinator op :
  balanced (coordinator cb_throws op) (op_owed n op) (out_owed n).
Proof.
  intros now c Hc. unfold coordinator. apply spec_bind, spec_gets.
  destruct (run_op _ _) as [[q' out] cs] eqn:E.
  apply (run_op_balance n) in E as [Hr Hb]; [|done].
  apply spec_bind, spec_modify, spec_bind, spec_emit, spec_bind, spec_emits, spec_ret.
  split; [done|]. cbn [app].
  change (_ :: notified cs ++ []) with ([CoordinatorDid out] ++ notified cs ++ []).
  rewrite app_nil_r.
  change ((fun c0 => Notified (fst c0) (snd c0)) <$> cs) with (notified cs).
  rewrite <- (called_in_notified cs) in Hb.
  change (called_in (CoordinatorDid out :: notified cs)) with (called_in (notified cs)).
  unfold owed_conn; cbn. lia.
Qed.

Lemma balanced_output_result {A} (f : OutputCtx.t -> result OutputCtx.output_error A * OutputCtx.t * calls) k g :
  (forall o r o' cs, f o = (r, o', cs) ->
     called n cs + owed_output o' + g r = owed_output o + k)%nat ->
  balanced (output_result f) k g.
Proof.
  intros Hf now c Hc. unfold output_result. apply spec_bind, spec_gets.
  destruct (f _) as [[r o'] cs] eqn:E. apply Hf in E.
  apply spec_bind, spec_modify, spec_bind, spec_emits, spec_ret. split; [done|]. cbn [app].
  rewrite app_nil_r. change ((fun c0 => Notified (fst c0) (snd c0)) <$> cs) with (notified cs).
  rewrite called_in_notified. unfold owed_conn; cbn. lia.
Qed.

Lemma balanced_output {A} (f : OutputCtx.t -> result OutputCtx.output_error A * OutputCtx.t * calls) k g :
  (forall o r o' cs, f o = (r, o', cs) ->
     called n cs + owed_output o' + match r with Ok a => g a | Err _ => 0 end = owed_output o + k)%nat ->
  balanced (output f) k g.
Proof.
  intros Hf. eapply balanced_bind.
  - apply (balanced_output_result f k (fun r => match r with Ok a => g a | Err _ => 0%nat end)), Hf.
  - intros [a|e]; [apply balanced_ret | apply balanced_throw].
Qed.

Lemma balanced_throw_other cs : balanced (throw_other cs) 0 (fun _ => 0%nat).
Proof. unfold throw_other. destruct (existsb _ cs); [apply balanced_throw | by apply balanced_ret_eq]. Qed.

(** Nothing is left over by an operation that calls a notificator, even one whose exception ends the program. *)
Lemma balanced_output_notifying {A} (f : OutputCtx.t -> result OutputCtx.output_error A * OutputCtx.t * calls) :
  (forall o r o' cs, f o = (r, o', cs) -> called n cs + owed_output o' = owed_output o)%nat ->
  balanced (output_notifying f) 0 (fun _ => 0%nat).
Proof.
  intros Hf now c Hc. unfold output_notifying. apply spec_bind, spec_gets.
  destruct (f _) as [[r o'] cs] eqn:E. apply Hf in E.
  apply spec_bind, spec_modify, spec_bind, spec_emits, spec_bind.
  eapply spec_weaken; [by apply (balanced_throw_other cs)|].
  change ((fun c0 => Notified (fst c0) (snd c0)) <$> cs) with (notified cs).
  unfold owed_conn. cbn [set_output m_response_coordinator m_write_output_ctx].
  intros [u|e] c1 w1 [Hr1 H1]; [apply spec_ret|]; (split; [done|]);
    rewrite ?app_nil_r, !called_in_app, called_in_notified; unfold called_in in *; cbn in *; lia.
Qed.

(** *** The output context *)

Lemma owed_invoke o ec r o' cs :
  OutputCtx.invoke_after_write_notificator_if_necessary cb_throws o ec = (r, o', cs) ->
  (called n cs + owed_output o' = owed_output o)%nat /\
  match r with
  | Ok _ => exists wg, OutputCtx.m_current_wg o' = Some wg /\ pending wg = []
  | Err _ => True
  end.
Proof.
  unfold OutputCtx.invoke_after_write_notificator_if_necessary, owed_output.
  destruct (OutputCtx.m_current_wg o) as [wg|] eqn:Ew; [|by intros [= <- <- <-]; rewrite Ew].
  destruct (invoke_after_write_notificator_if_exists cb_throws wg ec) as [[wg' cs'] th] eqn:E.
  apply invoke_calls in E as (-> & Hp & _). destruct th; cbn; intros [= <- <- <-]; cbn.
  - rewrite called_app, called_map, owed_destroy. unfold owed_group. rewrite Hp. split; [|done].
    change (occ n []) with 0%nat. lia.
  - rewrite called_map. unfold owed_group. rewrite Hp. split; [|by eexists].
    change (occ n []) with 0%nat. lia.
Qed.

Lemma owed_finish o r o' cs :
  OutputCtx.finish_write_group cb_throws o = (r, o', cs) ->
  (called n cs + owed_output o' = owed_output o)%nat.
Proof.
  unfold OutputCtx.finish_write_group.
  destruct (OutputCtx.invoke_after_write_notificator_if_necessary _ _ _) as [[r1 o1] cs1] eqn:E.
  apply owed_invoke in E as [E Hr]. destruct r1 as [u|e]; [|by intros [= <- <- <-]].
  destruct Hr as (wg & Hw & Hp). cbn. rewrite Hw; cbn. intros [= <- <- <-].
  revert E. unfold owed_output. rewrite Hw; cbn. rewrite called_app, owed_destroy. lia.
Qed.

Lemma owed_fail o ec r o' cs :
  OutputCtx.fail_write_group cb_throws o ec = (r, o', cs) ->
  (called n cs + owed_output o' = owed_output o)%nat.
Proof.
  unfold OutputCtx.fail_write_group.
  destruct (OutputCtx.invoke_after_write_notificator_if_necessary _ _ _) as [[r1 o1] cs1] eqn:E.
  apply owed_invoke in E as [E Hr]. destruct r1 as [u|e]; [|by intros [= <- <- <-]].
  destruct Hr as (wg & Hw & Hp). rewrite Hw; cbn. intros [= <- <- <-].
  revert E. unfold owed_output. rewrite Hw; cbn. rewrite called_app, owed_destroy. lia.
Qed.

Lemma owed_extract o wo o' :
  OutputCtx.extract_next_write_operation asio_max_iov_len o = Ok (wo, o') ->
  OutputCtx.m_current_wg o' = OutputCtx.m_current_wg o.
Proof.
  unfold OutputCtx.extract_next_write_operation, OutputCtx.prepare_trivial_buffers_wo,
    OutputCtx.prepare_sendfile_wo. intros H.
  destruct (OutputCtx.m_current_wg o) as [wg|] eqn:Ew; [|done].
  destruct (m_items wg !! _) as [[data|sf]|]; [|by simplify_eq|by simplify_eq].
  destruct (OutputCtx.gather_loop _ _ _ _ _ _) as [[i b] t]. by simplify_eq.
Qed.

(** *** Each method *)

Ltac bal_prim :=
  first
  [ apply balanced_gets | apply balanced_ask | apply balanced_throw
  | apply balanced_emit; reflexivity
  | apply balanced_modify; intros; reflexivity
  | apply balanced_ret_eq; repeat case_match; cbn; lia
  | solve [eauto with balance nocore] ].
Ltac bal_step :=
  lazymatch goal with
  | |- balanced (_ ≫= _) _ _ => eapply balanced_bind; [| intros ?; cbn beta]
  | |- balanced (if ?b then _ else _) _ _ => destruct b
  | |- balanced (match ?x with _ => _ end) _ _ => let E := fresh "E" in destruct x eqn:E
  | |- balanced _ _ _ => bal_prim
  end.
Ltac bal := repeat bal_step.

Lemma run_op_out_owed q op :
  op <> OPop -> out_owed n (run_op (Q := coordinator_queue cb_throws) q op).1.2 = 0%nat.
Proof.
  destruct op as [|id flags wg| |]; intros Hop; cbn; [| |done|].
  - by destruct (Coordinator.register_new_request q) as [[? ?]|].
  - by destruct (Coordinator.append_response cb_throws q id flags wg) as [[?|?] ?].
  - by destruct (Coordinator.reset cb_throws q).
Qed.

Lemma balanced_coordinator_quiet op :
  op <> OPop -> balanced (coordinator cb_throws op) (op_owed n op) (fun _ => 0%nat).
Proof.
  intros Hop now c Hc. pose proof (balanced_coordinator op now c Hc) as H. revert H.
  pose proof (run_op_out_owed (m_response_coordinator c) op Hop) as Ho. revert Ho.
  unfold run_spec, coordinator, mbind, act_bind, gets, modify, emit, notify, emits, mret, act_ret.
  destruct (run_op _ _) as [[q' out] cs]. cbn. intros ->. done.
Qed.

Create HintDb balance.
#[local] Hint Resolve balanced_gets balanced_ask : balance.

Lemma bal_register : balanced (register_new_request cb_throws) 0 (fun _ => 0%nat).
Proof.
  unfold register_new_request.
  eapply balanced_bind; [by apply (balanced_coordinator_quiet ORegister)|].
  intros [| | | |]; bal.
Qed.

Lemma bal_append id flags wg :
  balanced (append_response cb_throws id flags wg) (owed_group n wg) (fun _ => 0%nat).
Proof.
  unfold append_response.
  eapply balanced_bind; [by apply (balanced_coordinator_quiet (OAppend id flags wg))|].
  intros [| | | |]; bal.
Qed.

Definition owed_popped (r : option (write_group_t * Z)) : nat :=
  match r with Some (wg, _) => owed_group n wg | None => 0%nat end.

Lemma bal_pop : balanced (pop_ready_buffers cb_throws) 0 owed_popped.
Proof.
  unfold pop_ready_buffers. eapply balanced_bind; [by apply (balanced_coordinator OPop)|].
  intros [| |[[]|]| |]; cbn; bal.
Qed.

Lemma bal_reset : balanced (coordinator cb_throws OReset) 0 (fun _ => 0%nat).
Proof. by apply (balanced_coordinator_quiet OReset). Qed.

#[local] Hint Resolve bal_register bal_append bal_pop bal_reset : balance.
Tactic Notation "bal_method" reference(m) := unfold m; bal.

Lemma bal_init_timeout : balanced init_next_timeout_checking 0 (fun _ => 0%nat).
Proof. bal_method init_next_timeout_checking. Qed.
Lemma bal_cancel_timeout : balanced cancel_timeout_checking 0 (fun _ => 0%nat).
Proof. bal_method cancel_timeout_checking. Qed.
Lemma bal_schedule t cb : balanced (schedule_operation_timeout_callback t cb) 0 (fun _ => 0%nat).
Proof. bal_method schedule_operation_timeout_callback. Qed.
#[local] Hint Resolve bal_init_timeout bal_cancel_timeout bal_schedule : balance.

Lemma bal_guard_read : balanced (guard_read_operation st) 0 (fun _ => 0%nat).
Proof. bal_method guard_read_operation. Qed.
Lemma bal_guard_handling : balanced (guard_request_handling_operation st) 0 (fun _ => 0%nat).
Proof. bal_method guard_request_handling_operation. Qed.
Lemma bal_guard_write : balanced (guard_write_operation st) 0 (fun _ => 0%nat).
Proof. bal_method guard_write_operation. Qed.
Lemma bal_guard_sendfile t : balanced (guard_sendfile_operation st t) 0 (fun _ => 0%nat).
Proof. bal_method guard_sendfile_operation. Qed.
#[local] Hint Resolve bal_guard_read bal_guard_handling bal_guard_write bal_guard_sendfile : balance.

Lemma bal_close : balanced (close cb_throws) 0 (fun _ => 0%nat).
Proof. bal_method close. Qed.
#[local] Hint Resolve bal_close : balance.
Lemma bal_trigger e : balanced (trigger_error_and_close cb_throws e) 0 (fun _ => 0%nat).
Proof. bal_method trigger_error_and_close. Qed.
#[local] Hint Resolve bal_trigger : balance.
Lemma bal_check_timeout : balanced (check_timeout cb_throws) 0 owed_stack.
Proof. unfold check_timeout, check_timeout_impl, handle_xxx_timeout. bal. Qed.

Lemma bal_consume_message : balanced consume_message 0 (fun _ => 0%nat).
Proof. bal_method consume_message. Qed.
#[local] Hint Resolve bal_consume_message : balance.
Lemma bal_wait : balanced (wait_for_http_message st http_method_get) 0 owed_stack.
Proof. bal_method wait_for_http_message. Qed.
Lemma bal_on_read ec data :
  balanced (on_read cb_throws operation_aborted eof ec data) 0 owed_stack.
Proof. unfold on_read, after_read. bal. Qed.
Lemma bal_consume_data len : balanced (consume_data cb_throws len) 0 owed_stack.
Proof. bal_method consume_data. Qed.

Lemma bal_call_handler id up : balanced (call_handler id up) 0 owed_stack.
Proof. bal_method call_handler. Qed.
#[local] Hint Resolve bal_call_handler : balance.
Lemma bal_handle_upgrade : balanced (handle_upgrade_request cb_throws) 0 owed_stack.
Proof. bal_method handle_upgrade_request. Qed.
#[local] Hint Resolve bal_handle_upgrade : balance.
Lemma bal_on_request : balanced (on_request_message_complete st cb_throws) 0 owed_stack.
Proof. bal_method on_request_message_complete. Qed.
Lemma bal_after_handler id s : balanced (after_handler id s) 0 owed_stack.
Proof. bal_method after_handler. Qed.
Lemma bal_after_upgrade_handler id s : balanced (after_upgrade_handler id s) 0 owed_stack.
Proof. bal_method after_upgrade_handler. Qed.
Lemma bal_move : balanced move_upgrade_internals 0 (fun _ => 0%nat).
Proof. bal_method move_upgrade_internals. Qed.

Lemma bal_invoke_with_error wg :
  balanced (invoke_after_write_cb_with_error cb_throws wg) (owed_group n wg) (fun _ => 0%nat).
Proof.
  unfold invoke_after_write_cb_with_error.
  destruct (invoke_after_write_notificator_if_exists _ _ _) as [[wg' cs] th] eqn:E.
  apply invoke_calls in E as (-> & Hp & _). rewrite wg_destroy_clean by done.
  unfold owed_group. rewrite <- (called_map n (restinio_error write_was_not_executed)).
  eapply balanced_bind; [|intros; eapply balanced_bind; [apply balanced_throw_other | intros; apply (balanced_notify [] 0)]].
  rewrite <- (Nat.add_0_r (called n _)). apply balanced_notify.
Qed.
#[local] Hint Resolve bal_invoke_with_error : balance.
Lemma bal_write_parts id flags wg :
  balanced (write_response_parts_impl cb_throws id flags wg) (owed_group n wg) owed_stack.
Proof. bal_method write_response_parts_impl. Qed.

Lemma bal_nothing_to_write : balanced (handle_nothing_to_write st cb_throws) 0 (fun _ => 0%nat).
Proof. bal_method handle_nothing_to_write. Qed.
#[local] Hint Resolve bal_nothing_to_write : balance.

Lemma bal_start_group wg :
  balanced (output (P := P) (fun o => let '(o, cs) := OutputCtx.start_next_write_group cb_throws o (Some wg) in
                       (Ok tt, o, cs))) (owed_group n wg) (fun _ => 0%nat).
Proof.
  apply balanced_output. intros o r o' cs. cbn. intros [= <- <- <-]. unfold owed_output.
  destruct (OutputCtx.m_current_wg o) as [old|];
    cbn [from_option OutputCtx.m_current_wg]; rewrite ?owed_destroy, ?called_nil; lia.
Qed.
#[local] Hint Resolve bal_start_group : balance.
Lemma bal_init_write : balanced (init_write st cb_throws) 0 owed_stack.
Proof. bal_method init_write. Qed.
#[local] Hint Resolve bal_init_write : balance.
Lemma bal_init_write_if : balanced (init_write_if_necessary st cb_throws) 0 owed_stack.
Proof. bal_method init_write_if_necessary. Qed.
#[local] Hint Resolve bal_init_write_if : balance.
Lemma bal_append_and_write id flags wg :
  balanced (append_and_write st cb_throws id flags wg) (owed_group n wg) owed_stack.
Proof. bal_method append_and_write. Qed.

Lemma bal_trivial bufs : balanced (handle_trivial_write_operation st bufs) 0 owed_stack.
Proof. unfold handle_trivial_write_operation, cancel_reading_if_closed. bal. Qed.

Lemma bal_file sf : balanced (handle_file_write_operation st sf) 0 owed_stack.
Proof.
  unfold handle_file_write_operation, cancel_reading_if_closed.
  eapply balanced_bind; [bal | intros ?]. eapply balanced_bind; [bal | intros ?].
  (* the group being written stays in the context *)
  intros now c Hc. apply spec_bind, spec_gets.
  unfold OutputCtx.start_sendfile_operation. destruct (negb (sf_is_valid sf)).
  - apply balanced_throw, Hc.
  - apply spec_bind, spec_modify, spec_bind, spec_emit, spec_ret. split; [done|].
    unfold owed_conn, owed_output, called_in; cbn. lia.
Qed.

Lemma bal_finish : balanced (finish_handling_current_write_ctx st cb_throws) 0 owed_stack.
Proof.
  unfold finish_handling_current_write_ctx. eapply balanced_bind.
  - apply balanced_output_notifying. intros o r o' cs H. by apply owed_finish in H.
  - intros r. eapply balanced_bind; [destruct r; bal | intros ?; bal].
Qed.
#[local] Hint Resolve bal_trivial bal_file bal_finish : balance.

Lemma bal_current_write_ctx :
  balanced (handle_current_write_ctx st cb_throws asio_max_iov_len) 0 owed_stack.
Proof.
  unfold handle_current_write_ctx. eapply balanced_bind.
  - apply (balanced_output _ 0 (fun _ => 0%nat)). intros o r o' cs H.
    destruct (OutputCtx.extract_next_write_operation _ o) as [[wo o1]|e] eqn:E;
      injection H as <- <- <-; rewrite ?called_nil; [|lia].
    apply owed_extract in E. unfold owed_output. rewrite E. lia.
  - intros wo. bal.
Qed.

Lemma bal_after_write ec : balanced (after_write cb_throws operation_aborted ec) 0 owed_stack.
Proof.
  unfold after_write. bal_step; [bal|]. eapply balanced_bind; [bal | intros ?].
  eapply balanced_bind; [|intros ?; bal].
  apply balanced_output_notifying. intros o r o' cs H. by apply owed_fail in H.
Qed.
Lemma bal_sendfile_done ec :
  balanced (on_sendfile_done cb_throws operation_aborted ec) 0 owed_stack.
Proof.
  unfold on_sendfile_done. eapply balanced_bind; [apply bal_after_write|].
  intros fs. apply balanced_ret_eq. rewrite owed_stack_app. cbn. lia.
Qed.

Lemma bal_frame f :
  balanced (run_frame st http_method_get cb_throws asio_max_iov_len f) (owed_frame f) owed_stack.
Proof.
  destruct f; cbn [run_frame owed_frame].
  - apply bal_wait.
  - apply bal_consume_data.
  - apply bal_on_request.
  - bal.
  - apply bal_write_parts.
  - apply bal_append_and_write.
  - apply bal_init_write_if.
  - apply bal_current_write_ctx.
  - bal.
  - bal.
  - bal.
Qed.

(** ** The machine *)

Definition still_owed (m : machine (P := P)) : nat :=
  if destroyed m then 0%nat else (owed_conn (conn m) + owed_stack (stack m))%nat.

Record balance_inv (m : machine (P := P)) : Prop := {
  bi_ring : ring_ok (m_response_coordinator (conn m));
  bi_balance : (called_in (log m) + still_owed m = occ n (given m))%nat }.

Lemma unwind_owed fs rest cs caught :
  unwind cb_throws fs = (rest, cs, caught) -> (called n cs + owed_stack rest = owed_stack fs)%nat.
Proof.
  revert rest cs caught; induction fs as [|f fs IH]; intros rest cs caught; cbn.
  { by intros [= <- <- <-]. }
  destruct (unwind cb_throws fs) as [[rest' cs'] caught'] eqn:E.
  specialize (IH _ _ _ eq_refl). unfold owed_stack in *. cbn [sum_list_with].
  assert (Hd : called n (frame_destroy cb_throws f) = owed_frame f)
    by (destruct f; cbn [frame_destroy owed_frame]; first [apply owed_destroy | done]).
  destruct f; cbn [frame_destroy owed_frame] in *; intros [= <- <- <-]; rewrite ?called_app, ?called_nil, ?Hd; lia.
Qed.

(** [enter] with a balanced method for the frames it replaces. *)
Lemma enter_balance b k rest m :
  balanced b k owed_stack -> ring_ok (m_response_coordinator (conn m)) -> destroyed m = false ->
  (called_in (log m) + owed_conn (conn m) + k + owed_stack rest = occ n (given m))%nat ->
  balance_inv (enter cb_throws b rest m).
Proof.
  intros Hb Hr Hd Hm. unfold enter. specialize (Hb (clock m) (conn m) Hr). revert Hb.
  unfold run_spec. destruct (b (clock m) (conn m)) as [[[fs|ex] c] es]; intros [Hr' Hb].
  - split; cbn [record conn]; [done|]. unfold still_owed;
    cbn [record conn log stack given destroyed]. rewrite Hd, called_in_app, owed_stack_app. lia.
  - destruct (unwind cb_throws rest) as [[rest' cs] caught] eqn:Eu. apply unwind_owed in Eu.
    destruct (derives_from_std ex); cbn [negb].
    2: { split; cbn [record conn]; [done|]. unfold still_owed; cbn [record conn log stack given destroyed].
         rewrite Hd, called_in_app. lia. }
    destruct caught.
    + pose proof (bal_trigger (unexpected_exception ex) (clock m) c Hr') as Ht. revert Ht.
      unfold run_spec. destruct (trigger_error_and_close _ _ _ _) as [[x c'] es'].
      intros [Hr'' Ht]. split; cbn [record conn]; [done|]. unfold still_owed;
    cbn [record conn log stack given destroyed].
      rewrite Hd, !called_in_app, called_in_notified. destruct x; lia.
    + split; cbn [record conn]; [done|]. unfold still_owed;
    cbn [record conn log stack given destroyed].
      rewrite Hd, !called_in_app, called_in_notified. lia.
Qed.

Lemma balanced_then {A} (b : meth A) :
  balanced b 0 (fun _ => 0%nat) -> balanced (b;; mret []) 0 owed_stack.
Proof. intros Hb. eapply balanced_bind; [exact Hb|]. intros ?. by apply balanced_ret_eq. Qed.

Lemma connection_destroy_owed c :
  called n (connection_destroy cb_throws c) = owed_conn c.
Proof.
  unfold connection_destroy, owed_conn, owed_table. rewrite called_app. f_equal.
  - induction (Table.m_contexts _) as [|ctx ctxs IH]; [done|].
    rewrite bind_cons, called_app, owed_destroy_all. cbn [sum_list_with]. by rewrite IH.
  - unfold owed_output. destruct (OutputCtx.m_current_wg _); [apply owed_destroy | done].
Qed.

(** The invariant of a machine that still runs, without the record. *)
Lemma write_parts_balance id flags wg m :
  balance_inv m -> destroyed m = false -> balance_inv (write_response_parts m id flags wg).
Proof.
  intros [Hr Hb] Hd. split; [done|]. revert Hb.
  unfold still_owed, write_response_parts, owed_stack; cbn [destroyed conn stack log given sum_list_with].
  rewrite Hd, occ_app. cbn [owed_frame]. unfold owed_group. lia.
Qed.

Ltac enter_goal :=
  unfold owed_stack in *;
  cbn [with_ops with_stack with_conn conn log given sum_list_with owed_frame] in *; lia.

Lemma outside_balance m e m' :
  balance_inv m -> destroyed m = false -> stack m = [] ->
  outside st cb_throws operation_aborted eof m e = Some m' -> balance_inv m'.
Proof.
  intros Hm Hd Hs. pose proof Hm as [Hr Hb]. unfold still_owed in Hb. rewrite Hd, Hs in Hb.
  change (owed_stack []) with 0%nat in Hb.
  destruct e; cbn [outside]; intros H; repeat case_match; simplify_eq.
  - eapply enter_balance; [apply bal_on_read | exact Hr | exact Hd | enter_goal].
  - eapply enter_balance; [apply bal_after_write | exact Hr | exact Hd | enter_goal].
  - eapply enter_balance; [apply bal_sendfile_done | exact Hr | exact Hd | enter_goal].
  - split; [exact Hr|]. unfold still_owed; cbn. rewrite Hd, Hs. exact Hb.
  - eapply enter_balance; [apply bal_check_timeout | exact Hr | exact Hd |].
    change (owed_conn (conn (with_conn m (set_timer ?t (conn m))))) with (owed_conn (conn m)).
    enter_goal.
  - split; [exact Hr|]. unfold still_owed; cbn. rewrite Hd, Hs. exact Hb.
  - by apply write_parts_balance.
  - eapply enter_balance; [apply balanced_then, bal_move | exact Hr | exact Hd | enter_goal].
  - split; [exact Hr|]. unfold still_owed; cbn [destroyed log given].
    rewrite called_in_app, called_in_notified, connection_destroy_owed. lia.
Qed.

Lemma step_balance m e m' :
  balance_inv m -> step st http_method_get cb_throws asio_max_iov_len operation_aborted eof m e = Some m' ->
  balance_inv m'.
Proof.
  intros Hm. pose proof Hm as [Hr Hb]. unfold step. destruct (destroyed m) eqn:Hd; [done|].
  destruct (bool_decide _) eqn:Hu; [done|]. cbn [orb].
  unfold still_owed in Hb. rewrite Hd in Hb.
  destruct (stack m) as [|f rest] eqn:Hs; [by apply outside_balance|].
  assert (Hrun : balance_inv (enter cb_throws (run_frame st http_method_get cb_throws asio_max_iov_len f) rest
                                (with_stack m rest))).
  { eapply enter_balance; [apply bal_frame | exact Hr | exact Hd | enter_goal]. }
  destruct f; destruct e; intros H; simplify_eq; try done.
  - by apply write_parts_balance.
  - eapply enter_balance; [apply balanced_then, bal_move | exact Hr | exact Hd | enter_goal].
  - apply (enter_balance _ 0); [|exact Hr | exact Hd | enter_goal].
    destruct for_upgrade; [apply bal_after_upgrade_handler | apply bal_after_handler].
  - eapply enter_balance; [apply balanced_throw | exact Hr | exact Hd | enter_goal].
  - eapply enter_balance; [apply balanced_throw | exact Hr | exact Hd | enter_goal].
  - destruct ec as [ec|]; simplify_eq.
    + eapply enter_balance; [apply bal_sendfile_done | exact Hr | exact Hd | enter_goal].
    + split; [exact Hr|]. unfold still_owed; cbn. rewrite Hd. exact Hb.
Qed.

Lemma start_balance now : balance_inv (start st http_method_get cb_throws now).
Proof.
  apply (enter_balance _ 0); [| | done |].
  - unfold init. bal.
  - unfold ring_ok, in_ring; cbn. rewrite length_replicate. lia.
  - cbn. unfold owed_conn, owed_table, owed_output; cbn.
    induction (m_max_pipelined_requests st) as [|k IH]; cbn in *; [done|]. exact IH.
Qed.

Lemma reachable_balance now m :
  reachable st http_method_get cb_throws asio_max_iov_len operation_aborted eof now m -> balance_inv m.
Proof. induction 1; [apply start_balance | by eapply step_balance]. Qed.

End Balance.

(** ** The theorem *)

(** The notificators still to be called, as lists. *)
Definition pending_frame (f : frame) : list notificator :=
  match f with
  | FWriteResponsePartsImpl _ _ wg | FAppendResponse _ _ wg => pending wg
  | _ => []
  end.
Definition pending_in {P} (c : @connection_t P) : list notificator :=
  (Table.m_contexts (Coordinator.m_context_table (m_response_coordinator c)) ≫=
     fun ctx => pending_all (m_write_groups ctx)) ++
  from_option pending [] (OutputCtx.m_current_wg (m_write_output_ctx c)).
Definition still_pending {P} (m : @machine P) : list notificator :=
  if destroyed m then [] else pending_in (conn m) ++ (stack m ≫= pending_frame).

Lemma still_owed_pending {P} n (m : @machine P) : still_owed n m = occ n (still_pending m).
Proof.
  unfold still_owed, still_pending. destruct (destroyed m); [done|].
  rewrite occ_app. f_equal.
  - unfold owed_conn, pending_in, owed_table. rewrite occ_app. f_equal.
    + induction (Table.m_contexts _) as [|ctx l IH]; [done|].
      rewrite bind_cons, occ_app. cbn [sum_list_with]. rewrite IH. f_equal. apply owed_groups_pending.
    + unfold owed_output. by destruct (OutputCtx.m_current_wg _).
  - unfold owed_stack. induction (stack m) as [|f l IH]; [done|].
    rewrite bind_cons, occ_app. cbn [sum_list_with]. rewrite IH. f_equal. by destruct f.
Qed.

(** C2 (invariant). In every state a connection can reach, under any order of
    completions, timeouts, handler actions, exceptions and late responses, and also if one of these
    exceptions ends the program, the
    notificators called so far and those still pending are, with multiplicity,
    the notificators of all responses given to it: none is lost or called
    twice, and once the connection is destroyed each was called exactly once. *)
Theorem notificators_exactly_once {P} `{HttpParser P} {Other : OtherExceptions} st http_method_get cb_throws
    asio_max_iov_len operation_aborted eof now m
  (Hm : reachable st http_method_get cb_throws asio_max_iov_len operation_aborted eof now m) :
  notified_in (log m) ++ still_pending m ≡ₚ given m /\
  (destroyed m = true -> notified_in (log m) ≡ₚ given m).
Proof.
  assert (Hp : notified_in (log m) ++ still_pending m ≡ₚ given m).
  { apply (Permutation_count_occ Nat.eq_dec). intros n. rewrite count_occ_app.
    destruct (reachable_balance _ _ _ _ _ _ n _ _ Hm) as [_ Hb].
    rewrite still_owed_pending in Hb. exact Hb. }
  split; [done|]. intros Hd. revert Hp. unfold still_pending. by rewrite Hd, app_nil_r.
Qed.

(** A response that is written, one that a failed write leaves in the
    coordinator, and one that comes too late. *)
Definition example_events : list event :=
    [EReadDone no_error (line "a");
     EHandlerWrites 0 (response connection_keepalive) (text_group "first" (Some 7%nat));
     EHandlerReturns accepted; EWriteDone no_error;
     EReadDone no_error (line "b"); EHandlerReturns accepted;
     EResponse 1 {| m_response_parts := not_final_parts; m_response_connection := connection_keepalive |}
       (text_group "second" (Some 8%nat));
     EResponse 1 (response connection_keepalive) (text_group "third" (Some 9%nat));
     EWriteDone (network_error 104);
     EResponse 1 (response connection_keepalive) (text_group "late" (Some 10%nat));
     EDestroy].

Lemma example_run_final :
  exists m, example_script example_events = Some m /\ destroyed m = true /\ given m = [7; 8; 9; 10]%nat.
Proof. vm_compute. eexists. split; [reflexivity|]. split; reflexivity. Qed.

Lemma notificators_exactly_once_witness :
  exists m, example_script example_events = Some m /\ given m = [7; 8; 9; 10]%nat /\
    notified_in (log m) ≡ₚ [7; 8; 9; 10]%nat.
Proof.
  destruct example_run_final as (m & Hr & Hd & Hg).
  exists m. split; [exact Hr|]. split; [exact Hg|]. rewrite <- Hg.
  exact (proj2 (notificators_exactly_once _ _ _ _ _ _ _ m (example_script_reachable example_events m Hr)) Hd).
Defined.
