(* ===== verification/ConnSafety.v ===== *)
(** * Safety of the HTTP connection

    What holds in every reachable state: no exception leaves the connection, at most
    one read and one write are in progress, every activation ends, and a timer
    that was cancelled is never started again. *)

From S2P Require Import Prelude Effects Handlers InputBuffer Sendfile WriteGroup OutputCtx RespCoord Headers.
From S2P Require Import ParserCallbacks Connection.

Section Safety.
Context {P : Type} `{HP : HttpParser P} {Other : OtherExceptions}.
Context (st : settings_t) (http_method_get : Z).
Context (cb_throws : notificator -> error_code -> bool) (asio_max_iov_len : Z).
Context (operation_aborted eof : error_code).
Abbreviation connection_t := (@connection_t P).
Abbreviation meth := (act Z connection_t effect exception_t).
Abbreviation machine := (@machine P).

(** ** Steps that keep the state of the operations *)

Definition running (c : connection_t) : bool := m_read_operation_is_running (m_input c).
Definition idle_timer (c : connection_t) : Prop := m_timer_guard c = mk_timer false 0.

(** The groups the coordinator holds. *)
Definition queued (q : Coordinator.response_coordinator_t) : nat :=
  sum_list_with (fun ctx => length (m_write_groups ctx))
    (Table.m_contexts (Coordinator.m_context_table q)).
Definition groups (c : connection_t) : nat := queued (m_response_coordinator c).

Lemma count_app p es es' : count p (es ++ es') = (count p es + count p es')%nat.
Proof. unfold count. rewrite List.filter_app. apply length_app. Qed.

Lemma count_nil p : count p [] = 0%nat.
Proof. done. Qed.

Lemma count_notified p cs :
  (forall n ec, p (Notified n ec) = false) -> count p (notified cs) = 0%nat.
Proof.
  intros Hp. unfold count, notified. induction cs as [|[n ec] cs IH]; [done|]. cbn. by rewrite Hp.
Qed.

(** What most methods do: they start reads only while none runs, write nothing,
    leave the output context, add no groups, and do not wake an idle timer. *)
Record keeps (c c' : connection_t) (w : list effect) : Prop := {
  k_running : (count is_read w + Nat.b2n (running c) = Nat.b2n (running c'))%nat;
  k_writes : count is_write w = 0%nat;
  k_output : m_write_output_ctx c' = m_write_output_ctx c;
  k_groups : (groups c' <= groups c)%nat;
  k_timer : idle_timer c -> idle_timer c' }.

Lemma keeps_refl c : keeps c c [].
Proof. split; cbn; auto. Qed.

Lemma keeps_trans c c1 c2 w1 w2 : keeps c c1 w1 -> keeps c1 c2 w2 -> keeps c c2 (w1 ++ w2).
Proof.
  intros [] []. split; rewrite ?count_app; [lia | lia | congruence | lia | auto].
Qed.

(** [does b R E]: [b] keeps the state of the operations, its result satisfies
    [R], and it throws only if [E]. *)
Definition does {A} (b : meth A) (R : A -> Prop) (E : Prop) : Prop :=
  forall now c, run_spec b now c (fun x c' w =>
    keeps c c' w /\ match x with Ok a => R a | Err _ => E end).

(** It keeps the state and does not throw. *)
Abbreviation quiet b := (does b (fun _ => True) False).

Lemma does_bind {A B} (m : meth A) (f : A -> meth B) R1 R2 E :
  does m R1 E -> (forall a, R1 a -> does (f a) R2 E) -> does (m ≫= f) R2 E.
Proof.
  intros Hm Hf now c. apply spec_bind. eapply spec_weaken; [apply Hm|].
  intros [a|e] c1 w1 [H1 Ha]; [|done]. eapply spec_weaken; [by apply Hf|].
  intros x c2 w2 [H2 Hx]. split; [by eapply keeps_trans | done].
Qed.

Lemma does_weaken {A} (b : meth A) (R R' : A -> Prop) (E E' : Prop) :
  does b R E -> (forall a, R a -> R' a) -> (E -> E') -> does b R' E'.
Proof.
  intros H HR HE now c. eapply spec_weaken; [apply H|]. intros [a|e] ? ? [? ?]; auto.
Qed.

Lemma does_ret {A} (a : A) (R : A -> Prop) E : R a -> does (mret a) R E.
Proof. intros HR now c. apply spec_ret. split; [apply keeps_refl | done]. Qed.
Lemma does_throw {A} e (R : A -> Prop) (E : Prop) : E -> does (throw e) R E.
Proof. intros HE now c. apply spec_throw. split; [apply keeps_refl | done]. Qed.
Lemma quiet_gets {A} (f : connection_t -> A) : quiet (gets f).
Proof. intros now c. apply spec_gets. split; [apply keeps_refl | done]. Qed.
Lemma quiet_ask : quiet ask.
Proof. intros now c. apply spec_ask. split; [apply keeps_refl | done]. Qed.
Lemma quiet_emit e : is_read e = false -> is_write e = false -> quiet (emit e).
Proof.
  intros Hr Hw now c. apply spec_emit. split; [|done].
  split; unfold count; cbn; rewrite ?Hr, ?Hw; auto.
Qed.
Lemma quiet_modify f :
  (forall c, running (f c) = running c) ->
  (forall c, m_write_output_ctx (f c) = m_write_output_ctx c) ->
  (forall c, groups (f c) = groups c) ->
  (forall c, idle_timer c -> idle_timer (f c)) -> quiet (modify f).
Proof.
  intros H1 H2 H3 H4 now c. apply spec_modify. split; [|done].
  split; cbn; rewrite ?H1, ?H2, ?H3; auto.
Qed.
Lemma quiet_notify cs : quiet (notify cs).
Proof.
  intros now c. apply spec_emits. split; [|done].
  change (_ <$> cs) with (notified cs). by split; rewrite ?count_notified.
Qed.

(** ** The coordinator's groups *)

Lemma queued_set q i ctx :
  (queued (Coordinator.with_table q (Table.set (Coordinator.m_context_table q) i ctx)) +
     (if decide (i < length (Table.m_contexts (Coordinator.m_context_table q)))%nat
      then length (m_write_groups (Table.get (Coordinator.m_context_table q) i)) else 0) =
   queued q +
     (if decide (i < length (Table.m_contexts (Coordinator.m_context_table q)))%nat
      then length (m_write_groups ctx) else 0))%nat.
Proof.
  unfold queued, Table.set, Table.get; cbn.
  set (l := Table.m_contexts (Coordinator.m_context_table q)). destruct (decide _) as [Hi|Hi].
  - destruct (lookup_lt_is_Some_2 _ _ Hi) as [x Hx]. rewrite Hx; cbn.
    clear Hi. revert i Hx. induction l as [|a l IH]; intros [|i] Hx; [done..| |].
    + injection Hx as <-. cbn. lia.
    + specialize (IH i Hx). cbn. rewrite <- !Nat.add_assoc. f_equal. exact IH.
  - rewrite list_insert_ge by lia. lia.
Qed.

Lemma add_group_length wgs wg : (length (Spec.add_group wgs wg) <= length wgs + 1)%nat.
Proof.
  unfold Spec.add_group. destruct (last wgs) as [back|] eqn:E; [|cbn; lia].
  apply last_Some in E as [l ->]. case_match; [|rewrite !length_app; cbn; lia].
  rewrite removelast_last, !length_app. cbn. lia.
Qed.

Lemma queued_append q id flags wg q' cs :
  Coordinator.append_response cb_throws q id flags wg = (Ok q', cs) ->
  (queued q' <= queued q + 1)%nat.
Proof.
  unfold Coordinator.append_response. repeat (case_match; [done|]).
  destruct (Table.get_by_req_id _ _) as [i|]; [|done].
  case_bool_decide; [done|]. rewrite enqueue_group_eq. intros [= <- <-].
  match goal with |- context [Table.set _ i ?x] => pose proof (queued_set q i x) as Hq end.
  cbn in Hq |- *. pose proof (add_group_length
    (m_write_groups (Table.get (Coordinator.m_context_table q) i)) wg).
  destruct (decide _); lia.
Qed.

Lemma queued_register q id q' :
  Coordinator.register_new_request q = Ok (id, q') -> queued q' = queued q.
Proof.
  unfold Coordinator.register_new_request, Table.push_response_context.
  destruct (Table.table_is_full _); [done|].
  set (tb := Coordinator.m_context_table q). set (i := (_ mod _)%nat). intros [= <- <-].
  pose proof (queued_set q i (reinit (Table.get tb i) (Coordinator.m_request_id_counter q))) as Hq.
  change (m_write_groups (reinit ?x _)) with (m_write_groups x) in Hq.
  fold tb in Hq.
  match type of Hq with (?x + ?d = _)%nat =>
    match goal with |- ?y = _ => change y with x end; generalize dependent d end.
  intros d Hq. lia.
Qed.

Lemma queued_pop q r q' cs :
  Coordinator.pop_ready_buffers cb_throws q = (Ok (r, q'), cs) ->
  (queued q' + match r with Some _ => 1 | None => 0 end = queued q)%nat.
Proof.
  unfold Coordinator.pop_ready_buffers. destruct (Coordinator.closed q); [done|].
  destruct (Table.table_empty _); [intros [= <- <- <-]; lia|].
  rewrite dequeue_group_eq. set (tb := Coordinator.m_context_table q). unfold Table.front.
  set (i := Table.m_first_element_index tb).
  destruct (m_write_groups (Table.get tb i)) as [|wg wgs] eqn:Eg; [intros [= <- <- <-]; lia|].
  pose proof (queued_set q i (with_groups (Table.get tb i) wgs)) as Hq. fold tb in Hq.
  rewrite Eg in Hq. cbn [with_groups m_write_groups length] in Hq.
  assert (Hi : (i < length (Table.m_contexts tb))%nat).
  { destruct (lookup_lt_is_Some (Table.m_contexts tb) i) as [Hl _]. apply Hl.
    unfold Table.get in Eg. destruct (Table.m_contexts tb !! i); [by eexists | done]. }
  rewrite !decide_True in Hq by done.
  assert (Hq1 : (queued (Coordinator.with_table q (Table.set tb i (with_groups (Table.get tb i) wgs)))
                  + 1 = queued q)%nat) by lia.
  destruct (is_complete _).
  - unfold Table.pop_response_context. destruct (Table.table_empty _); [done|].
    intros [= <- <- <-]. exact Hq1.
  - intros [= <- <- <-]. exact Hq1.
Qed.

Lemma queued_drain fuel : forall ctx ctx' cs,
  Coordinator.drain_groups cb_throws fuel ctx = (ctx', cs) ->
  (length (m_write_groups ctx') <= length (m_write_groups ctx))%nat.
Proof.
  induction fuel as [|fuel IH]; intros ctx ctx' cs; cbn [Coordinator.drain_groups];
    [by intros [= <- _]|].
  rewrite dequeue_group_eq. destruct (m_write_groups ctx) eqn:E; [intros [= <- _]; by rewrite E|].
  destruct (invoke_after_write_notificator_if_exists _ _ _) as [[? ?] ?].
  destruct (Coordinator.drain_groups _ _ _) as [ctx2 cs2] eqn:Hd. intros [= <- _].
  apply IH in Hd. cbn in *. lia.
Qed.

Lemma queued_reset_loop q fuel : forall tb tb' cs,
  Coordinator.reset_loop cb_throws fuel tb = (tb', cs) ->
  (queued (Coordinator.with_table q tb') <= queued (Coordinator.with_table q tb))%nat.
Proof.
  induction fuel as [|fuel IH]; intros tb tb' cs; cbn [Coordinator.reset_loop]; [by intros [= <- _]|].
  destruct (Table.table_empty tb); [by intros [= <- _]|].
  destruct (Coordinator.drain_groups _ _ _) as [ctx cs0] eqn:Hd. apply queued_drain in Hd.
  destruct (Coordinator.reset_loop _ _ _) as [tb1 cs1] eqn:Hl. intros [= <- _].
  apply IH in Hl. unfold Table.front in Hd.
  pose proof (queued_set (Coordinator.with_table q tb) (Table.m_first_element_index tb) ctx) as Hq.
  unfold queued in *. cbn in *. destruct (decide _); lia.
Qed.

Lemma queued_reset q : (queued (Coordinator.reset cb_throws q).1 <= queued q)%nat.
Proof.
  unfold Coordinator.reset. destruct (Coordinator.reset_loop _ _ _) as [tb cs] eqn:Hl.
  apply (queued_reset_loop q) in Hl. by destruct q.
Qed.

(** ** The calls of the coordinator *)

Lemma keeps_coordinator c q w :
  (queued q <= groups c)%nat -> count is_read w = 0%nat -> count is_write w = 0%nat ->
  keeps c (set_coordinator q c) w.
Proof. intros Hq Hr Hw. split; cbn; auto. by rewrite Hr. Qed.

Lemma count_did p out cs :
  p (CoordinatorDid out) = false -> (forall n ec, p (Notified n ec) = false) ->
  count p ([] ++ [] ++ [CoordinatorDid out] ++ notified cs ++ []) = 0%nat.
Proof.
  intros H1 H2. rewrite app_nil_r. cbn [app]. unfold count. cbn. rewrite H1.
  by apply count_notified.
Qed.

(** The outcome of one operation, with the operation's own facts. *)
Lemma spec_coordinator op now c (Q : result exception_t coord_out -> connection_t -> list effect -> Prop) :
  (forall q' out cs w,
     run_op (Q := coordinator_queue cb_throws) (m_response_coordinator c) op = (q', out, cs) ->
     count is_read w = 0%nat -> count is_write w = 0%nat ->
     Q (Ok out) (set_coordinator q' c) w) ->
  run_spec (coordinator cb_throws op) now c Q.
Proof.
  intros H. unfold coordinator. apply spec_bind, spec_gets.
  destruct (run_op _ _) as [[q' out] cs] eqn:E.
  apply spec_bind, spec_modify, spec_bind, spec_emit, spec_bind, spec_emits, spec_ret.
  change (_ <$> cs) with (notified cs). eapply H; [done | by apply count_did..].
Qed.

Lemma quiet_reset : quiet (coordinator cb_throws OReset).
Proof.
  intros now c. apply spec_coordinator. intros q' out cs w E Hr Hw. split; [|done].
  apply keeps_coordinator; [|done..]. cbn in E.
  pose proof (queued_reset (m_response_coordinator c)) as Hq.
  destruct (Coordinator.reset _ _). by injection E as <- _ _.
Qed.

Lemma does_register : does (register_new_request cb_throws) (fun _ => True) True.
Proof.
  intros now c. apply spec_bind, spec_coordinator. intros q' out cs w E Hr Hw. cbn in E.
  assert (Hk : keeps c (set_coordinator q' c) w).
  { apply keeps_coordinator; [|done..]. unfold groups.
    destruct (Coordinator.register_new_request _) as [[id q1]|e] eqn:Hg; injection E as <- _ _; [|done].
    apply queued_register in Hg. lia. }
  destruct out; cbn; rewrite ?app_nil_r; done.
Qed.

Lemma spec_append id flags wg now c :
  run_spec (append_response cb_throws id flags wg) now c (fun x c' w =>
    exists q', c' = set_coordinator q' c /\ (queued q' <= groups c + 1)%nat /\
      count is_read w = 0%nat /\ count is_write w = 0%nat).
Proof.
  apply spec_bind, spec_coordinator. intros q' out cs w E Hr Hw. cbn in E.
  assert (Hq : (queued q' <= groups c + 1)%nat).
  { unfold groups. destruct (Coordinator.append_response _ _ _ _ _) as [[q1|e] cs1] eqn:Hg;
      injection E as <- _ _; [by apply queued_append in Hg | lia]. }
  destruct out; cbn; rewrite ?app_nil_r; by exists q'.
Qed.

Lemma spec_pop now c :
  run_spec (pop_ready_buffers cb_throws) now c (fun x c' w =>
    exists q', c' = set_coordinator q' c /\
      count is_read w = 0%nat /\ count is_write w = 0%nat /\
      match x with
      | Ok (Some _) => (queued q' + 1 = groups c)%nat
      | _ => (queued q' <= groups c)%nat
      end).
Proof.
  apply spec_bind, spec_coordinator. intros q' out cs w E Hr Hw. cbn in E.
  assert (Hq : match out with
               | Popped (Some _) => (queued q' + 1 = groups c)%nat
               | _ => (queued q' <= groups c)%nat end).
  { unfold groups. destruct (Coordinator.pop_ready_buffers _ _) as [[[r q1]|e] cs1] eqn:Hg;
      injection E as <- <- _; [|lia]. apply queued_pop in Hg. destruct r; lia. }
  destruct out as [| |[r|]| |]; cbn; rewrite ?app_nil_r; by exists q'.
Qed.

(** ** The methods that only keep *)

Create HintDb quiet.
#[local] Hint Resolve quiet_gets quiet_ask quiet_notify quiet_reset does_register : quiet.

Lemma does_quiet {A} (b : meth A) (E : Prop) : quiet b -> does b (fun _ => True) E.
Proof. intros H. eapply does_weaken; [exact H | auto | intros []]. Qed.

Ltac does_known :=
  first [ solve [eauto with quiet nocore]
        | apply does_quiet; solve [eauto with quiet nocore]
        | solve [eapply does_weaken; [solve [eauto with quiet nocore] | intros ? HR; exact HR | auto]] ].
Ltac does_prim :=
  lazymatch goal with
  | |- does (emit _) _ _ => apply does_quiet, quiet_emit; reflexivity
  | |- does (modify _) _ _ =>
      apply does_quiet, quiet_modify; intros; first [reflexivity | assumption]
  | |- does (mret _) _ _ => apply does_ret; first [exact I | idtac]
  | |- does (throw _) _ _ => apply does_throw; first [exact I | assumption]
  | |- does (gets _) _ _ => apply does_quiet, quiet_gets
  | |- does ask _ _ => apply does_quiet, quiet_ask
  | |- does _ _ _ => does_known
  end.
Ltac does_step :=
  lazymatch goal with
  | |- does (_ ≫= _) _ _ => eapply does_bind; [| intros ? ?; cbn beta]
  | |- does (if ?b then _ else _) _ _ => destruct b
  | |- does (match ?x with _ => _ end) _ _ => let E := fresh "E" in destruct x eqn:E
  | |- does _ _ _ => does_prim
  end.
Ltac does_all := repeat does_step.
Tactic Notation "quiet_method" reference(m) := unfold m; does_all.

Lemma quiet_cancel_timeout : quiet cancel_timeout_checking.
Proof.
  intros now c. unfold cancel_timeout_checking. spec_steps. split; [|done].
  split; cbn; auto. unfold idle_timer; cbn. by intros ->.
Qed.
Lemma quiet_schedule t cb : quiet (schedule_operation_timeout_callback t cb).
Proof. quiet_method schedule_operation_timeout_callback. Qed.
#[local] Hint Resolve quiet_cancel_timeout quiet_schedule : quiet.
Lemma quiet_guard_read : quiet (guard_read_operation st).
Proof. quiet_method guard_read_operation. Qed.
Lemma quiet_guard_handling : quiet (guard_request_handling_operation st).
Proof. quiet_method guard_request_handling_operation. Qed.
Lemma quiet_guard_write : quiet (guard_write_operation st).
Proof. quiet_method guard_write_operation. Qed.
Lemma quiet_guard_sendfile t : quiet (guard_sendfile_operation st t).
Proof. quiet_method guard_sendfile_operation. Qed.
#[local] Hint Resolve quiet_guard_read quiet_guard_handling quiet_guard_write quiet_guard_sendfile : quiet.
Lemma quiet_close : quiet (close cb_throws).
Proof. quiet_method close. Qed.
#[local] Hint Resolve quiet_close : quiet.
Lemma quiet_trigger e : quiet (trigger_error_and_close cb_throws e).
Proof. quiet_method trigger_error_and_close. Qed.
#[local] Hint Resolve quiet_trigger : quiet.

Lemma quiet_consume_message : quiet consume_message.
Proof.
  intros now c. unfold consume_message. spec_steps; (split; [|done]); split; cbn; auto;
    unfold running; rewrite negb_true_iff in *; by rewrite E.
Qed.
#[local] Hint Resolve quiet_consume_message : quiet.
Lemma does_throw_other cs : does (throw_other cs) (fun _ => True) True.
Proof. unfold throw_other. does_all. Qed.
#[local] Hint Resolve does_throw_other : quiet.
Lemma does_invoke_with_error wg : does (invoke_after_write_cb_with_error cb_throws wg) (fun _ => True) True.
Proof. unfold invoke_after_write_cb_with_error. does_all. Qed.
Lemma quiet_nothing_to_write : quiet (handle_nothing_to_write st cb_throws).
Proof. quiet_method handle_nothing_to_write. Qed.
Lemma quiet_move : quiet move_upgrade_internals.
Proof. quiet_method move_upgrade_internals. Qed.
#[local] Hint Resolve does_invoke_with_error quiet_nothing_to_write quiet_move : quiet.

(** ** Frames *)

(** A frame of a method that may throw what a [try] catches must lie above one. *)
Definition throws (f : frame) : bool :=
  match f with
  | FRequestMessageComplete | FHandler _ _ | FWriteResponsePartsImpl _ _ _
  | FAppendResponse _ _ _ | FInitWriteIfNecessary | FCurrentWriteCtx => true
  | _ => false
  end.
Definition is_try (f : frame) : bool := match f with FTry => true | _ => false end.
Fixpoint covered (under : bool) (fs : list frame) : bool :=
  match fs with
  | [] => true
  | f :: rest => (negb (throws f) || existsb is_try rest || under) && covered under rest
  end.

(** A frame that is about to start, or has just started, a write. *)
Definition writing (f : frame) : nat :=
  match f with FCurrentWriteCtx | FSendfileStarted => 1 | _ => 0 end.
Definition writing_all (fs : list frame) : nat := sum_list_with writing fs.

(** How much work a frame can still cause; a queued group is worth ten. *)
Definition weight (f : frame) : nat :=
  match f with
  | FTry | FResetSendfile | FRequestMessageComplete | FInitWriteIfNecessary => 1
  | FConsumeData _ => 3
  | FWaitForHttpMessage => 4
  | FCurrentWriteCtx => 6
  | FAppendResponse _ _ _ => 11
  | FWriteResponsePartsImpl _ _ _ => 16
  | FHandler _ _ | FSendfileStarted => 0
  end.
Definition weights (fs : list frame) : nat := sum_list_with weight fs.

Lemma covered_app under fs rest :
  covered under (fs ++ rest) = covered (existsb is_try rest || under) fs && covered under rest.
Proof.
  induction fs as [|f fs IH]; [done|]. cbn [app covered]. rewrite IH, existsb_app.
  generalize (covered (existsb is_try rest || under) fs) (covered under rest).
  intros [] []; by destruct (throws f), (existsb is_try fs), (existsb is_try rest), under.
Qed.

Lemma writing_app fs fs' : writing_all (fs ++ fs') = (writing_all fs + writing_all fs')%nat.
Proof. unfold writing_all. induction fs; cbn; lia. Qed.
Lemma weights_app fs fs' : weights (fs ++ fs') = (weights fs + weights fs')%nat.
Proof. unfold weights. induction fs; cbn; lia. Qed.

(** What running a method does to the invariants: [k] is 1 when it takes over
    the write in progress, [wt] bounds the work it leaves, and [under] tells
    whether it runs below a [try]. *)
Record outcome (k wt : nat) (under : bool) (c : connection_t)
    (x : result exception_t (list frame)) (c' : connection_t) (w : list effect) : Prop := {
  o_running : (count is_read w + Nat.b2n (running c) = Nat.b2n (running c'))%nat;
  o_writing : (count is_write w + match x with Ok fs => writing_all fs | Err _ => 0 end +
                 Nat.b2n (transmitting c) <= Nat.b2n (transmitting c') + k)%nat;
  o_weight : (10 * groups c' + match x with Ok fs => weights fs | Err _ => 0 end <
                10 * groups c + wt)%nat;
  o_timer : idle_timer c -> idle_timer c';
  o_covered : match x with Ok fs => covered under fs = true | Err e => derives_from_std e = true -> under = true end }.

Definition frame_ok (b : meth (list frame)) (k wt : nat) (under : bool) : Prop :=
  forall now c, (k <= Nat.b2n (transmitting c))%nat -> run_spec b now c (outcome k wt under c).

(** Frames a method that only keeps may return. *)
Definition light (wt : nat) (under : bool) (fs : list frame) : Prop :=
  writing_all fs = 0%nat /\ (weights fs < wt)%nat /\ covered under fs = true.

Lemma does_frame_ok b wt under :
  (0 < wt)%nat -> does b (light wt under) (under = true) -> frame_ok b 0 wt under.
Proof.
  intros Hwt Hb now c _. eapply spec_weaken; [apply Hb|]. intros x c' w [[] Hx].
  assert (Ht : transmitting c' = transmitting c) by (unfold transmitting; congruence).
  destruct x as [fs|e].
  - destruct Hx as (? & ? & ?). split; rewrite ?Ht; lia || done.
  - split; rewrite ?Ht; lia || done.
Qed.

Ltac is_light := repeat split; cbn; lia || reflexivity.
Ltac keeping_frame := apply does_frame_ok; [lia|]; does_all; try is_light.

Lemma does_call_handler id up E : does (call_handler id up) (light 1 true) E.
Proof. unfold call_handler. does_all; is_light. Qed.
#[local] Hint Resolve does_call_handler : quiet.
Lemma does_handle_upgrade : does (handle_upgrade_request cb_throws) (light 1 true) True.
Proof. unfold handle_upgrade_request. does_all. Qed.
#[local] Hint Resolve does_handle_upgrade : quiet.

Lemma wait_ok under : frame_ok (wait_for_http_message st http_method_get) 0 4 under.
Proof. unfold wait_for_http_message. keeping_frame. Qed.
Lemma consume_data_ok len under : frame_ok (consume_data cb_throws len) 0 3 under.
Proof. unfold consume_data. keeping_frame. Qed.
Lemma on_request_ok : frame_ok (on_request_message_complete st cb_throws) 0 1 true.
Proof. unfold on_request_message_complete. keeping_frame. Qed.
Lemma after_handler_ok id s : frame_ok (after_handler id s) 0 17 true.
Proof. unfold after_handler. keeping_frame. Qed.
Lemma after_upgrade_handler_ok id s : frame_ok (after_upgrade_handler id s) 0 17 true.
Proof. unfold after_upgrade_handler. keeping_frame. Qed.
Lemma move_ok under : frame_ok (move_upgrade_internals;; mret []) 0 1 under.
Proof. keeping_frame. Qed.
Lemma write_parts_ok id flags wg :
  frame_ok (write_response_parts_impl cb_throws id flags wg) 0 16 true.
Proof. unfold write_response_parts_impl. keeping_frame. Qed.
Lemma return_ok wt under : (0 < wt)%nat -> frame_ok (mret []) 0 wt under.
Proof. intros Hwt. apply does_frame_ok; [done|]. apply does_ret. repeat split; done || cbn; lia. Qed.

(** *** Writing *)

Definition b2n_transmitting_out (o : OutputCtx.t) : nat := Nat.b2n (OutputCtx.transmitting o).

(** An operation of the output context, by what it makes of the context. *)
Lemma spec_output {A} (f : OutputCtx.t -> result OutputCtx.output_error A * OutputCtx.t * calls)
    now c (Q : result exception_t A -> connection_t -> list effect -> Prop) :
  (forall r o' cs w, f (m_write_output_ctx c) = (r, o', cs) ->
     count is_read w = 0%nat -> count is_write w = 0%nat ->
     Q (match r with Ok a => Ok a | Err e => Err (output_exception e) end) (set_output o' c) w) ->
  run_spec (output f) now c Q.
Proof.
  intros H. unfold output, output_result. apply spec_bind, spec_bind, spec_gets.
  destruct (f _) as [[r o'] cs] eqn:E.
  apply spec_bind, spec_modify, spec_bind, spec_emits, spec_ret.
  specialize (H r o' cs (notified cs) eq_refl (count_notified is_read cs (fun _ _ => eq_refl))
    (count_notified is_write cs (fun _ _ => eq_refl))).
  change (_ <$> cs) with (notified cs).
  destruct r; cbn; rewrite ?app_nil_r; exact H.
Qed.

(** The same for one that calls a notificator, whose exception may pass every handler. *)
Lemma spec_output_notifying {A} (f : OutputCtx.t -> result OutputCtx.output_error A * OutputCtx.t * calls)
    now c (Q : result exception_t (result OutputCtx.output_error A) -> connection_t -> list effect -> Prop) :
  (forall r o' cs w, f (m_write_output_ctx c) = (r, o', cs) ->
     count is_read w = 0%nat -> count is_write w = 0%nat ->
     Q (Ok r) (set_output o' c) w /\ Q (Err other_exception) (set_output o' c) w) ->
  run_spec (output_notifying f) now c Q.
Proof.
  intros H. unfold output_notifying, throw_other. apply spec_bind, spec_gets.
  destruct (f _) as [[r o'] cs] eqn:E. apply spec_bind, spec_modify, spec_bind, spec_emits, spec_bind.
  destruct (H r o' cs (notified cs) eq_refl (count_notified is_read cs (fun _ _ => eq_refl))
    (count_notified is_write cs (fun _ _ => eq_refl))) as [H1 H2].
  change (_ <$> cs) with (notified cs).
  destruct (existsb _ cs); [apply spec_throw | apply spec_ret, spec_ret]; cbn; rewrite ?app_nil_r; done.
Qed.

(** Reduces the members of an updated connection. *)
Ltac conn_simpl :=
  unfold groups, transmitting, running, idle_timer, weights, writing_all in *;
  cbn [set_output set_init_read set_coordinator set_socket set_input set_timeout set_timer
       m_response_coordinator m_write_output_ctx m_input m_timer_guard
       OutputCtx.transmitting OutputCtx.m_current_wg sum_list_with weight writing] in *.

Ltac outcome_simpl :=
  split; rewrite ?app_nil_r; cbn [app]; rewrite ?count_app, ?count_nil; conn_simpl; try lia; auto.
Ltac outcome_by H :=
  split; rewrite ?app_nil_r; cbn [app]; rewrite ?count_app, ?count_nil, ?H; conn_simpl; try lia; auto.

Lemma init_write_ok now c :
  transmitting c = false -> run_spec (init_write st cb_throws) now c (outcome 0 1 true c).
Proof.
  intros Ht. unfold init_write. spec_steps. eapply spec_weaken; [apply spec_pop|].
  intros [[[wg id]|]|e] c' w (q' & -> & Hr & Hw & Hq).
  - spec_steps. apply spec_output. intros r o' cs w' E Hr' Hw'. injection E as <- <- _.
    spec_steps. split; rewrite ?app_nil_r; cbn [app]; rewrite ?count_app.
    + rewrite Hr, Hr'. reflexivity.
    + rewrite Hw, Hw', Ht. cbn. lia.
    + conn_simpl; lia.
    + auto.
    + reflexivity.
  - spec_steps. eapply spec_weaken; [apply quiet_nothing_to_write|].
    intros [u|] c' w' [[] ?]; [|done]. spec_steps.
    assert (Ht' : transmitting c' = transmitting c) by (unfold transmitting; by rewrite k_output0).
    outcome_by Ht'.
  - outcome_simpl.
Qed.

Lemma init_write_if_ok wt : (1 <= wt)%nat -> frame_ok (init_write_if_necessary st cb_throws) 0 wt true.
Proof.
  intros Hwt now c _. unfold init_write_if_necessary.
  assert (Hw : forall w, count is_read w = 0%nat -> count is_write w = 0%nat ->
    run_spec (t ← gets transmitting; if negb t then init_write st cb_throws else mret []) now c
      (fun x c' w' => outcome 0 wt true c x c' (w ++ w'))).
  { intros w Hr0 Hw0. spec_steps; apply negb_true_iff in E || apply negb_false_iff in E.
    - eapply spec_weaken; [by apply init_write_ok|]. intros x c' w' []. cbn [app].
      split; rewrite ?count_app; destruct x; auto; lia.
    - outcome_simpl. }
  apply spec_bind, spec_gets, spec_bind. destruct (closed c); [apply spec_emit | apply spec_ret].
  - eapply spec_weaken; [by apply (Hw [AssertionFailed])|]. auto.
  - eapply spec_weaken; [by apply (Hw [])|]. auto.
Qed.

Lemma append_and_write_ok id flags wg : frame_ok (append_and_write st cb_throws id flags wg) 0 11 true.
Proof.
  intros now c _. unfold append_and_write. spec_steps.
  - eapply spec_weaken; [apply spec_append|]. intros x c1 w1 (q' & -> & Hq & Hr & Hw).
    destruct x as [u|e].
    + eapply spec_weaken; [apply (init_write_if_ok 1); cbn; lia|].
      intros x c2 w2 []. cbn [app]. cbn in *.
      destruct x; outcome_simpl.
    + outcome_simpl.
  - eapply spec_weaken; [apply does_invoke_with_error|]. intros [u|] c1 w1 [[] ?];
      assert (Ht' : transmitting c1 = transmitting c) by (unfold transmitting; by rewrite k_output0);
      [spec_steps|]; outcome_by Ht'.
Qed.

(** *** The write in progress *)

Lemma handle_upgrade_ok : frame_ok (handle_upgrade_request cb_throws) 0 1 true.
Proof. apply does_frame_ok; [lia|]. does_all. Qed.

(** A method that keeps, before one that does not. *)
Lemma frame_ok_after {A} (m : meth A) (f : A -> meth (list frame)) k wt under now c :
  quiet m ->
  (forall a c', transmitting c' = transmitting c -> run_spec (f a) now c' (outcome k wt under c')) ->
  run_spec (m ≫= f) now c (outcome k wt under c).
Proof.
  intros Hm Hf. apply spec_bind. eapply spec_weaken; [apply Hm|].
  intros [a|e] c1 w1 [[] H1]; [|done].
  assert (Ht : transmitting c1 = transmitting c) by (unfold transmitting; by rewrite k_output0).
  eapply spec_weaken; [by apply Hf|]. intros x c2 w2 [].
  split; rewrite ?count_app; rewrite ?Ht in *; destruct x; try lia; auto.
Qed.

Lemma quiet_cancel_reading : quiet cancel_reading_if_closed.
Proof. quiet_method cancel_reading_if_closed. Qed.

Lemma trivial_ok bufs : frame_ok (handle_trivial_write_operation st bufs) 1 6 true.
Proof.
  intros now c Hc. apply frame_ok_after; [apply quiet_cancel_reading|]. intros _ c1 Ht1.
  rewrite <- Ht1 in Hc. apply spec_bind, spec_emit, spec_bind.
  eapply spec_weaken; [apply quiet_guard_write|]. intros [u|] c2 w2 [[] ?]; [|done].
  apply spec_ret. cbn [app].
  assert (Ht' : transmitting c2 = transmitting c1) by (unfold transmitting; by rewrite k_output0).
  split; rewrite ?app_nil_r; cbn [app]; rewrite ?Ht'; auto;
    change (AsyncWrite bufs :: w2) with ([AsyncWrite bufs] ++ w2); rewrite ?count_app;
    change (count is_read [AsyncWrite bufs]) with 0%nat;
    change (count is_write [AsyncWrite bufs]) with 1%nat; conn_simpl; lia.
Qed.

Lemma file_ok sf : frame_ok (handle_file_write_operation st sf) 1 6 true.
Proof.
  intros now c Hc. apply frame_ok_after; [apply quiet_cancel_reading|]. intros _ c1 Ht1.
  apply frame_ok_after; [apply quiet_guard_sendfile|]. intros _ c2 Ht2.
  rewrite <- Ht1, <- Ht2 in Hc. clear Ht1 Ht2 c c1. rename c2 into c.
  apply spec_bind, spec_gets. unfold OutputCtx.start_sendfile_operation.
  destruct (negb (sf_is_valid sf)).
  - apply spec_throw. outcome_simpl.
  - apply spec_bind, spec_modify, spec_bind, spec_emit, spec_ret.
    split; cbn [app]; conn_simpl; auto;
      unfold count, OutputCtx.transmitting; cbn; lia.
Qed.

Lemma finish_not_transmitting o r o' cs :
  OutputCtx.finish_write_group cb_throws o = (r, o', cs) -> OutputCtx.transmitting o' = false.
Proof.
  unfold OutputCtx.finish_write_group, OutputCtx.invoke_after_write_notificator_if_necessary.
  destruct (OutputCtx.m_current_wg o) as [wg|] eqn:E.
  - destruct (invoke_after_write_notificator_if_exists _ _ _) as [[wg' cs'] []];
      by intros [= <- <- <-].
  - intros [= <- <- <-]. unfold OutputCtx.transmitting. by rewrite E.
Qed.

Lemma fail_not_transmitting o ec r o' cs :
  OutputCtx.fail_write_group cb_throws o ec = (r, o', cs) -> OutputCtx.transmitting o' = false.
Proof.
  unfold OutputCtx.fail_write_group, OutputCtx.invoke_after_write_notificator_if_necessary.
  destruct (OutputCtx.m_current_wg o) as [wg|] eqn:E.
  - destruct (invoke_after_write_notificator_if_exists _ _ _) as [[wg' cs'] []];
      by intros [= <- <- <-].
  - intros [= <- <- <-]. unfold OutputCtx.transmitting. by rewrite E.
Qed.

(** What follows the end of a group, when nothing is being written. *)
Lemma after_finish_ok :
  frame_ok (is_closed ← gets closed;
    if negb is_closed then
      s ← gets stage;
      if bool_decide (stage_none = s) then
        init_read ← gets m_init_read_after_this_write;
        mret ((if init_read : bool then [FWaitForHttpMessage] else []) ++ [FInitWriteIfNecessary])
      else
        empty ← gets is_empty;
        if empty : bool then handle_upgrade_request cb_throws
        else init_write_if_necessary st cb_throws
    else close cb_throws;; mret []) 0 6 true.
Proof.
  intros now c Hc. apply frame_ok_after; [apply quiet_gets|]. intros is_closed c1 _.
  destruct (negb is_closed).
  - apply frame_ok_after; [apply quiet_gets|]. intros s c2 _. case_bool_decide.
    + apply frame_ok_after; [apply quiet_gets|]. intros [] c3 _; apply spec_ret; outcome_simpl.
    + apply frame_ok_after; [apply quiet_gets|]. intros [] c3 _.
      * eapply spec_weaken; [apply handle_upgrade_ok; lia|]. intros x c' w [].
        destruct x; outcome_simpl.
      * apply init_write_if_ok; lia.
  - apply frame_ok_after; [apply quiet_close|]. intros u c2 _. apply spec_ret. outcome_simpl.
Qed.

Lemma finish_ok : frame_ok (finish_handling_current_write_ctx st cb_throws) 1 6 true.
Proof.
  intros now c Hc. unfold finish_handling_current_write_ctx.
  apply spec_bind, spec_output_notifying. intros r o' cs w E Hr Hw. apply finish_not_transmitting in E.
  assert (Ht : transmitting (set_output o' c) = false) by exact E.
  assert (Hthrown : forall e, outcome 1 6 true c (Err e) (set_output o' c) w).
  { intros e. split; rewrite ?Ht; conn_simpl; try lia; auto.
    destruct (OutputCtx.transmitting (m_write_output_ctx c)); cbn in *; lia. }
  split; [|apply Hthrown].
  apply spec_bind. destruct r as [u|e]; [apply spec_ret | apply spec_throw; rewrite app_nil_r; apply Hthrown].
  eapply spec_weaken; [apply after_finish_ok; lia|]. intros x c2 w2 []. cbn [app].
  split; rewrite ?count_app; rewrite ?Ht in *; destruct x; conn_simpl; try lia; auto;
    destruct (OutputCtx.transmitting (m_write_output_ctx c)); cbn in *; lia.
Qed.

Lemma extract_transmitting o wo o' :
  OutputCtx.extract_next_write_operation asio_max_iov_len o = Ok (wo, o') ->
  OutputCtx.transmitting o' = OutputCtx.transmitting o.
Proof.
  unfold OutputCtx.extract_next_write_operation, OutputCtx.prepare_trivial_buffers_wo,
    OutputCtx.prepare_sendfile_wo, OutputCtx.transmitting. intros H.
  destruct (OutputCtx.m_current_wg o) as [wg|] eqn:Ew; [|done].
  destruct (m_items wg !! _) as [[data|sf]|]; simplify_eq; cbn; rewrite ?Ew; auto.
  destruct (OutputCtx.gather_loop _ _ _ _ _ _) as [[i b] t]. simplify_eq. cbn. by rewrite ?Ew.
Qed.

Lemma current_write_ctx_ok :
  frame_ok (handle_current_write_ctx st cb_throws asio_max_iov_len) 1 6 true.
Proof.
  intros now c Hc. unfold handle_current_write_ctx. apply spec_bind, spec_output.
  intros r o' cs w E Hr Hw.
  assert (Ht : transmitting (set_output o' c) = transmitting c).
  { unfold transmitting. cbn. destruct (OutputCtx.extract_next_write_operation _ _) as [[wo o1]|e] eqn:Ex;
      simplify_eq; [by eapply extract_transmitting | done]. }
  destruct r as [wo|e].
  - assert (Hrest : run_spec (match wo with
        | OutputCtx.none_write_operation => finish_handling_current_write_ctx st cb_throws
        | OutputCtx.trivial_write_operation bufs _ => handle_trivial_write_operation st bufs
        | OutputCtx.file_write_operation sf => handle_file_write_operation st sf
        end) now (set_output o' c) (outcome 1 6 true (set_output o' c))).
    { rewrite <- Ht in Hc. destruct wo; [by apply finish_ok | by apply trivial_ok | by apply file_ok]. }
    eapply spec_weaken; [exact Hrest|]. intros x c2 w2 []. rewrite Ht in *.
    change (groups (set_output o' c)) with (groups c) in *.
    change (running (set_output o' c)) with (running c) in *.
    split; rewrite ?count_app; destruct x; try lia; auto.
  - split; rewrite ?Ht; conn_simpl; try lia; auto.
Qed.

(** [k] is not needed: the write has completed. *)
Lemma after_write_ok ec under : frame_ok (after_write cb_throws operation_aborted ec) 1 8 under.
Proof.
  intros now c Hc. unfold after_write. case_bool_decide; [apply spec_ret; outcome_simpl|].
  assert (Hfail : forall c, run_spec
    (_ ← output_notifying (fun o => OutputCtx.fail_write_group cb_throws o ec); mret []) now c
    (outcome 1 8 under c)).
  { clear c Hc. intros c. apply spec_bind, spec_output_notifying. intros r o' cs w E Hr Hw.
    apply fail_not_transmitting in E.
    assert (Ht : transmitting (set_output o' c) = false) by exact E.
    split; [apply spec_ret|]; (split; rewrite ?app_nil_r, ?Hr, ?Hw, ?Ht; [done | | | auto | done]);
      change (groups (set_output o' c)) with (groups c); destruct (transmitting c); cbn; lia. }
  apply frame_ok_after; [|by intros].
  destruct (negb _); [apply quiet_trigger | by apply does_ret].
Qed.

Lemma sendfile_done_ok ec under :
  frame_ok (on_sendfile_done cb_throws operation_aborted ec) 1 9 under.
Proof.
  intros now c Hc. unfold on_sendfile_done. apply spec_bind.
  eapply spec_weaken; [by apply after_write_ok|]. intros [fs|e] c1 w1 [].
  - apply spec_ret. rewrite app_nil_r. split; rewrite ?writing_app, ?weights_app; auto.
    + cbn. lia.
    + cbn. lia.
    + rewrite covered_app. cbn. by rewrite o_covered0.
  - by split; try lia.
Qed.

Lemma run_frame_ok f under :
  (throws f = true -> under = true) -> f <> FSendfileStarted -> (forall id up, f <> FHandler id up) ->
  frame_ok (run_frame st http_method_get cb_throws asio_max_iov_len f) (writing f) (weight f) under.
Proof.
  intros Hu Hs Hh. destruct f; cbn [run_frame writing weight throws] in *;
    try rewrite (Hu eq_refl); try congruence.
  - apply wait_ok.
  - apply consume_data_ok.
  - apply on_request_ok.
  - apply write_parts_ok.
  - apply append_and_write_ok.
  - by apply init_write_if_ok.
  - apply current_write_ctx_ok.
  - intros now c Hc. apply spec_bind, spec_modify, spec_ret.
    split; [done | | unfold groups; cbn; lia | done | done].
    unfold transmitting, OutputCtx.transmitting, count; cbn. lia.
  - apply return_ok. lia.
Qed.

Lemma after_read_ok ec data under :
  frame_ok (after_read cb_throws operation_aborted eof ec data) 0 5 under.
Proof. unfold after_read. keeping_frame. Qed.

(** ** What is thrown *)

Section OnlyStd.
Hypothesis no_others : forall n ec, throws_other n ec = false.

(** Apart from notificators, methods throw exceptions of the library only. *)
Definition std_only {A} (b : meth A) : Prop :=
  forall now c, run_spec b now c (fun x _ _ => match x with Ok _ => True | Err e => derives_from_std e = true end).

Lemma std_bind {A B} (m : meth A) (f : A -> meth B) : std_only m -> (forall a, std_only (f a)) -> std_only (m ≫= f).
Proof.
  intros Hm Hf now c. apply spec_bind. eapply spec_weaken; [apply Hm|]. intros [a|e] c1 w1 H1; [|done].
  eapply spec_weaken; [apply Hf|]. by intros.
Qed.
Lemma std_quiet {A} (b : meth A) : quiet b -> std_only b.
Proof. intros H now c. eapply spec_weaken; [apply H|]. by intros [a|e] ? ? [? ?]. Qed.
Ltac std_prim :=
  intros ? ?;
  first [by apply spec_ret | by apply spec_gets | by apply spec_modify | by apply spec_emit | by apply spec_emits
        | by apply spec_throw | by apply spec_ask].
Lemma std_throw_other cs : std_only (throw_other cs).
Proof.
  unfold throw_other. destruct (existsb _ cs) eqn:E; [|std_prim].
  apply existsb_exists in E as (x & _ & Hx). by rewrite no_others in Hx.
Qed.
Lemma std_coordinator op : std_only (coordinator cb_throws op).
Proof. intros now c. by apply spec_coordinator. Qed.

Ltac std_all := repeat lazymatch goal with
  | |- std_only (_ ≫= _) => apply std_bind; [|intros ?; cbn beta]
  | |- std_only (if ?b then _ else _) => destruct b
  | |- std_only (let '(_, _) := ?x in _) => destruct x
  | |- std_only (match ?x with _ => _ end) => destruct x
  | |- std_only _ => first [apply std_throw_other | apply std_coordinator | std_prim]
  end.

Lemma std_output_notifying {A} (f : OutputCtx.t -> result OutputCtx.output_error A * OutputCtx.t * calls) :
  std_only (output_notifying f).
Proof. unfold output_notifying. std_all. Qed.
Lemma std_init_write_if : std_only (init_write_if_necessary st cb_throws).
Proof.
  unfold init_write_if_necessary, init_write, pop_ready_buffers, output, output_result. std_all.
  apply std_quiet, quiet_nothing_to_write.
Qed.
Lemma std_invoke_with_error wg : std_only (invoke_after_write_cb_with_error cb_throws wg).
Proof. unfold invoke_after_write_cb_with_error. std_all. Qed.
Lemma std_upgrade : std_only (handle_upgrade_request cb_throws).
Proof.
  unfold handle_upgrade_request, register_new_request, call_handler. std_all; apply std_quiet, quiet_cancel_timeout.
Qed.

Lemma std_finish : std_only (finish_handling_current_write_ctx st cb_throws).
Proof.
  unfold finish_handling_current_write_ctx. std_all;
    first [apply std_output_notifying | apply std_upgrade | apply std_init_write_if | apply std_quiet, quiet_close].
Qed.
Lemma std_after_write ec : std_only (after_write cb_throws operation_aborted ec).
Proof. unfold after_write. std_all; first [apply std_output_notifying | apply std_quiet, quiet_trigger]. Qed.

Lemma std_run_frame f : std_only (run_frame st http_method_get cb_throws asio_max_iov_len f).
Proof.
  destruct f; cbn [run_frame]; unfold wait_for_http_message, consume_data, on_request_message_complete, register_new_request,
    call_handler, write_response_parts_impl, append_and_write, append_response, handle_current_write_ctx, output, output_result,
    handle_trivial_write_operation, handle_file_write_operation, cancel_reading_if_closed; std_all;
    first [apply std_finish | apply std_upgrade | apply std_init_write_if | apply std_invoke_with_error
          | apply std_quiet; eauto with quiet nocore].
Qed.
Ltac std_quiet_all := std_all; first [apply std_after_write | apply std_quiet; eauto with quiet nocore].
Lemma std_on_read ec data : std_only (on_read cb_throws operation_aborted eof ec data).
Proof. unfold on_read, after_read. std_quiet_all. Qed.
Lemma std_sendfile_done ec : std_only (on_sendfile_done cb_throws operation_aborted ec).
Proof. unfold on_sendfile_done. std_quiet_all. Qed.
Lemma std_check_timeout : std_only (check_timeout cb_throws).
Proof. unfold check_timeout, check_timeout_impl, init_next_timeout_checking, handle_xxx_timeout. std_quiet_all. Qed.
Lemma std_move : std_only (move_upgrade_internals;; mret (M := meth) ([] : list frame)).
Proof. unfold move_upgrade_internals. std_all. Qed.
Lemma std_after_handlers id status :
  std_only (after_handler id status) /\ std_only (after_upgrade_handler id status).
Proof. unfold after_handler, after_upgrade_handler. split; std_all. Qed.
Lemma std_thrown {A} : std_only (throw (A := A) handler_exception).
Proof. std_prim. Qed.
End OnlyStd.

(** ** The machine *)

Lemma enter_ext (b b' : meth (list frame)) rest (m : machine) :
  b (clock m) (conn m) = b' (clock m) (conn m) ->
  enter cb_throws b rest m = enter cb_throws b' rest m.
Proof. intros H. unfold enter. by rewrite H. Qed.

Lemma enter_modify f (b : meth (list frame)) rest (m : machine) :
  enter cb_throws (modify f;; b) rest m = enter cb_throws b rest (with_conn m (f (conn m))).
Proof.
  unfold enter, mbind, act_bind, modify. cbn. by destruct (b _ _) as [[[fs|e] c] es].
Qed.

(** The timer handler closes, starts the timer again, or does nothing. *)
Lemma enter_check_timeout rest (m : machine) :
  enter cb_throws (check_timeout cb_throws) rest m = enter cb_throws (close cb_throws;; mret []) rest m \/
  enter cb_throws (check_timeout cb_throws) rest m = enter cb_throws (mret []) rest m \/
  enter cb_throws (check_timeout cb_throws) rest m =
    enter cb_throws (mret []) rest
      (with_conn m (set_timer (mk_timer true (t_queued (m_timer_guard (conn m)))) (conn m))).
Proof.
  destruct (m_current_timeout_after (conn m) <? clock m) eqn:E;
    [destruct (m_current_timeout_cb (conn m)) eqn:E2|].
  - left. apply enter_ext.
    unfold check_timeout, check_timeout_impl, mbind, act_bind, ask, gets. rewrite E, E2.
    unfold handle_xxx_timeout. destruct (close cb_throws _ _) as [[[u|e] c] es]; [|done].
    cbn. done.
  - right; left. apply enter_ext.
    unfold check_timeout, check_timeout_impl, mbind, act_bind, ask, gets. by rewrite E, E2.
  - right; right. rewrite <- enter_modify. apply enter_ext.
    unfold check_timeout, check_timeout_impl, mbind, act_bind, ask, gets. by rewrite E.
Qed.

(** What has left the connection is no [std::exception]. *)
Definition only_other (ex : option exception_t) : Prop := forall e, ex = Some e -> derives_from_std e = false.

Record safe_inv (m : machine) : Prop := {
  si_uncaught : only_other (uncaught m);
  si_covered : covered false (stack m) = true;
  si_reads : reads m = Nat.b2n (running (conn m));
  si_writes : (writes m + sendfiles m + writing_all (stack m) <=
                 Nat.b2n (transmitting (conn m)))%nat }.

Lemma unwind_below fs rest cs caught :
  unwind cb_throws fs = (rest, cs, caught) ->
  caught = existsb is_try fs /\ (writing_all rest <= writing_all fs)%nat /\
  (weights rest <= weights fs)%nat /\ (covered false fs = true -> covered false rest = true).
Proof.
  revert rest cs caught; induction fs as [|f fs IH]; intros rest cs caught; cbn [unwind].
  { by intros [= <- <- <-]. }
  destruct (unwind cb_throws fs) as [[rest' cs'] caught'] eqn:E.
  specialize (IH _ _ _ eq_refl) as (-> & H1 & H2 & H3).
  unfold writing_all, weights in *. cbn [sum_list_with existsb covered].
  destruct f; intros [= <- <- <-]; cbn [is_try]; repeat split; try lia; try done;
    rewrite andb_true_iff; intros [_ ?]; auto.
Qed.

(** What [enter] leaves, for any method with a known outcome. *)
Lemma enter_outcome (b : meth (list frame)) k wt rest (m : machine) :
  frame_ok b k wt (existsb is_try rest) -> (k <= Nat.b2n (transmitting (conn m)))%nat ->
  covered false rest = true ->
  exists c' fs w ex, enter cb_throws b rest m = record m c' fs w ex /\ only_other ex /\
    (count is_read w + Nat.b2n (running (conn m)) = Nat.b2n (running c'))%nat /\
    (count is_write w + writing_all fs + Nat.b2n (transmitting (conn m)) <=
       Nat.b2n (transmitting c') + k + writing_all rest)%nat /\
    (10 * groups c' + weights fs < 10 * groups (conn m) + wt + weights rest)%nat /\
    (idle_timer (conn m) -> idle_timer c') /\ covered false fs = true.
Proof.
  intros Hb Hk Hc. specialize (Hb (clock m) (conn m) Hk). revert Hb. unfold run_spec, enter.
  destruct (b (clock m) (conn m)) as [[[fs|ex] c1] w1]; intros [].
  - do 4 eexists. split; [done|]. split; [done|]. rewrite writing_app, weights_app, covered_app.
    rewrite orb_false_r. repeat split; auto; try lia. by rewrite o_covered0.
  - destruct (unwind cb_throws rest) as [[rest' cs] caught] eqn:Eu.
    apply unwind_below in Eu as (-> & H1 & H2 & H3).
    destruct (derives_from_std ex) eqn:Ex; cbn [negb].
    2: { do 4 eexists. split; [done|]. split; [by intros ? [= <-]|]. repeat split; auto; lia. }
    rewrite o_covered0 by done.
    pose proof (quiet_trigger (unexpected_exception ex) (clock m) c1) as Ht. revert Ht.
    unfold run_spec. destruct (trigger_error_and_close _ _ _ _) as [[x c2] w2].
    intros [[] _]. do 4 eexists. split; [done|]. split; [done|].
    assert (Ht' : transmitting c2 = transmitting c1) by (unfold transmitting; by rewrite k_output0).
    rewrite !count_app, !count_notified, Ht' by done. repeat split; auto; lia.
Qed.

Lemma enter_safe (b : meth (list frame)) k wt rest (m : machine) :
  frame_ok b k wt (existsb is_try rest) -> covered false rest = true ->
  reads m = Nat.b2n (running (conn m)) ->
  (writes m + sendfiles m + writing_all rest + k <= Nat.b2n (transmitting (conn m)))%nat ->
  safe_inv (enter cb_throws b rest m).
Proof.
  intros Hb Hc Hr Hw.
  destruct (enter_outcome b k wt rest m Hb ltac:(lia) Hc) as (c' & fs & w & ex & -> & Hex & H1 & H2 & _ & _ & H3).
  split; cbn [record reads writes sendfiles stack conn uncaught]; [done | done | lia | lia].
Qed.

Lemma close_ok under : frame_ok (close cb_throws;; mret []) 0 1 under.
Proof. keeping_frame. Qed.

Ltac enter_cbn :=
  cbn [with_ops with_conn with_stack with_clock write_response_parts
       conn stack reads writes sendfiles uncaught destroyed clock] in *.
Ltac enter_side :=
  enter_cbn;
  repeat match goal with
  | |- context [transmitting (set_timer ?a ?b)] =>
      change (transmitting (set_timer a b)) with (transmitting b)
  | |- context [running (set_timer ?a ?b)] => change (running (set_timer a b)) with (running b)
  end;
  unfold writing_all in *; cbn [sum_list_with writing] in *; lia.

Lemma outside_safe m e m' :
  safe_inv m -> stack m = [] -> outside st cb_throws operation_aborted eof m e = Some m' -> safe_inv m'.
Proof.
  intros [Hu Hc Hr Hw] Hs. rewrite Hs in Hw. cbn in Hw.
  destruct e; cbn [outside]; intros H; repeat case_match; simplify_eq;
    rewrite ?andb_true_iff, ?Nat.ltb_lt, ?Nat.eqb_eq in *; destruct_and?.
  - unfold on_read. rewrite enter_modify.
    eapply enter_safe; [apply after_read_ok | done | |]; enter_cbn.
    + destruct (running (conn m)); cbn in *; lia.
    + change (transmitting (set_running false (conn m))) with (transmitting (conn m)). enter_side.
  - eapply enter_safe; [apply after_write_ok | done | done |]; enter_side.
  - eapply enter_safe; [apply sendfile_done_ok | done | done |]; enter_side.
  - split; enter_cbn; rewrite ?Hs; auto; enter_side.
  - match goal with |- safe_inv (enter _ _ _ ?m0) =>
      destruct (enter_check_timeout [FTry] m0) as [-> | [-> | ->]] end.
    + eapply enter_safe; [apply close_ok | done | done |]; enter_side.
    + eapply enter_safe; [apply (return_ok 1); lia | done | done |]; enter_side.
    + eapply enter_safe; [apply (return_ok 1); lia | done | done |]; enter_side.
  - split; enter_cbn; rewrite ?Hs; auto; enter_side.
  - split; enter_cbn; rewrite ?Hs; auto; enter_side.
  - eapply enter_safe; [apply move_ok | done | done |]; enter_side.
  - split; enter_cbn; auto; enter_side.
Qed.

Lemma step_safe m e m' :
  safe_inv m -> step st http_method_get cb_throws asio_max_iov_len operation_aborted eof m e = Some m' ->
  safe_inv m'.
Proof.
  intros Hm. pose proof Hm as [Hu Hc Hr Hw]. unfold step.
  destruct (destroyed m || _); [done|].
  destruct (stack m) as [|f rest] eqn:Hs; [by apply outside_safe|].
  unfold writing_all in Hw. cbn [covered sum_list_with] in Hc, Hw.
  apply andb_true_iff in Hc as [Hf Hc]. rewrite orb_false_r in Hf.
  assert (Hthrow : throws f = true -> existsb is_try rest = true).
  { intros Ht. by rewrite Ht in Hf. }
  assert (Hrun : f <> FSendfileStarted -> (forall id up, f <> FHandler id up) ->
    safe_inv (enter cb_throws (run_frame st http_method_get cb_throws asio_max_iov_len f) rest
                (with_stack m rest))).
  { intros H1 H2. eapply enter_safe; [by apply run_frame_ok | done | done|].
    cbn. unfold writing_all. lia. }
  destruct f; destruct e; intros H; simplify_eq; try (by apply Hrun); try done.
  - split; enter_cbn; [done | | done |]; rewrite Hs; [|enter_side].
    cbn [covered throws]. by rewrite Hthrow, Hc.
  - eapply enter_safe; [apply move_ok | | done | enter_side].
    cbn [covered throws]. by rewrite Hthrow, Hc.
  - eapply (enter_safe _ 0 17); [|done | done | enter_side]. rewrite Hthrow by done.
    destruct for_upgrade; [apply after_upgrade_handler_ok | apply after_handler_ok].
  - eapply (enter_safe _ 0 1); [|done | done | enter_side]. rewrite Hthrow by done.
    apply does_frame_ok; [lia|]. by apply does_throw.
  - eapply (enter_safe _ 0 1); [|done | done | enter_side]. rewrite Hthrow by done.
    apply does_frame_ok; [lia|]. by apply does_throw.
  - destruct ec as [ec|]; simplify_eq.
    + eapply enter_safe; [apply sendfile_done_ok | done | done | enter_side].
    + split; enter_cbn; auto. enter_side.
Qed.

Lemma start_safe now : safe_inv (start st http_method_get cb_throws now).
Proof. by split; cbn; auto. Qed.

Lemma reachable_safe now m :
  reachable st http_method_get cb_throws asio_max_iov_len operation_aborted eof now m -> safe_inv m.
Proof. induction 1; [apply start_safe | by eapply step_safe]. Qed.

(** *** Ends of the program *)

Lemma enter_contained (b : meth (list frame)) rest (m : machine) :
  std_only b -> only_other (uncaught (enter cb_throws b rest m)) -> uncaught (enter cb_throws b rest m) = None.
Proof.
  intros Hb. specialize (Hb (clock m) (conn m)). revert Hb. unfold run_spec, enter.
  destruct (b _ _) as [[[fs|ex] c] es]; [done|]. intros Hex. rewrite Hex. cbn [negb].
  destruct (unwind _ _) as [[rest' cs] []]; [by destruct (trigger_error_and_close _ _ _ _) as [[? ?] ?]|].
  intros H. specialize (H ex eq_refl). congruence.
Qed.

Lemma step_contained m e m' : (forall n ec, throws_other n ec = false) -> e <> EHandlerThrowsOther ->
  safe_inv m -> step st http_method_get cb_throws asio_max_iov_len operation_aborted eof m e = Some m' -> uncaught m' = None.
Proof.
  intros Hno He Hm Hs. pose proof (si_uncaught _ (step_safe _ _ _ Hm Hs)) as Ho. revert Hs. unfold step.
  destruct (uncaught m) eqn:Hu; [by rewrite orb_true_r|]. destruct (destroyed m); [done|]. cbn [orb bool_decide].
  assert (Hdone : forall b rest m0, std_only b -> m' = enter cb_throws b rest m0 -> uncaught m' = None).
  { intros b rest m0 Hb ->. by apply enter_contained. }
  destruct (stack m) as [|f rest] eqn:Hf.
  - destruct e; cbn [outside]; intros H; repeat case_match; simplify_eq; try done;
      (eapply Hdone; [|reflexivity]); first [by apply std_after_write | by apply std_on_read | by apply std_sendfile_done | by apply std_check_timeout | apply std_move].
  - destruct f; destruct e; intros H; repeat case_match; simplify_eq; try done;
      (eapply Hdone; [|reflexivity]); first [by apply (std_run_frame Hno) | by apply std_sendfile_done | apply std_move | apply std_thrown
        | by apply (std_after_handlers request_id status)].
Qed.

(** *** Work *)

Definition work (m : machine) : nat := (10 * groups (conn m) + weights (stack m))%nat.

(** Every frame that runs leaves less work. *)
Lemma step_work m m' :
  safe_inv m -> step st http_method_get cb_throws asio_max_iov_len operation_aborted eof m ERun = Some m' ->
  (work m' < work m)%nat.
Proof.
  intros [Hu Hc Hr Hw]. unfold step, work. destruct (destroyed m || _); [done|].
  destruct (stack m) as [|f rest] eqn:Hs; [done|].
  unfold writing_all, weights in *. cbn [covered sum_list_with] in *.
  apply andb_true_iff in Hc as [Hf Hc]. rewrite orb_false_r in Hf.
  assert (Hrun : f <> FSendfileStarted -> (forall id up, f <> FHandler id up) ->
    (work (enter cb_throws (run_frame st http_method_get cb_throws asio_max_iov_len f) rest
             (with_stack m rest)) < 10 * groups (conn m) + (weight f + weights rest))%nat).
  { intros H1 H2.
    destruct (enter_outcome (run_frame st http_method_get cb_throws asio_max_iov_len f)
      (writing f) (weight f) rest (with_stack m rest)) as (c' & fs & w & ex & -> & _ & _ & _ & H & _ & _).
    - apply run_frame_ok; [|done..]. intros Ht. by rewrite Ht in Hf.
    - cbn. lia.
    - done.
    - unfold work. cbn [record conn stack with_stack] in *. lia. }
  unfold work, weights in Hrun. destruct f; intros H; simplify_eq; apply Hrun; done.
Qed.

(** Where only user code, or the outside, can go on, or nothing, since the program was ended. *)
Definition at_rest (m : machine) : Prop :=
  is_Some (uncaught m) \/
  match stack m with
  | [] | FHandler _ _ :: _ | FSendfileStarted :: _ => True
  | _ => False
  end.

Lemma settle_at_rest fuel : forall m,
  safe_inv m -> destroyed m = false -> (work m < fuel)%nat ->
  at_rest (settle st http_method_get cb_throws asio_max_iov_len operation_aborted eof fuel m).
Proof.
  induction fuel as [|fuel IH]; intros m Hm Hd Hf; [lia|]. cbn [settle].
  destruct (step _ _ _ _ _ _ m ERun) as [m'|] eqn:E.
  - apply IH; [by eapply step_safe | | by apply step_work in E; [lia|]].
    revert E. unfold step. rewrite Hd. case_bool_decide; [done|]. cbn [orb].
    assert (He : forall b rest (m0 : machine), destroyed (enter cb_throws b rest m0) = destroyed m0).
    { intros b rest m0. unfold enter. destruct (b _ _) as [[[]]]; [done|].
      destruct (unwind _ _) as [[? ?] []]; destruct (negb _); try done.
      by destruct (trigger_error_and_close _ _ _ _) as [[? ?] ?]. }
    destruct (stack m) as [|[]]; intros [= <-]; rewrite ?He; done.
  - revert E. unfold step, at_rest. rewrite Hd. destruct (uncaught m); [by left|]. cbn.
    right. by destruct (stack m) as [|[]].
Qed.

(** *** The timer *)

Lemma enter_idle (b : meth (list frame)) k wt rest (m : machine) :
  frame_ok b k wt (existsb is_try rest) -> (k <= Nat.b2n (transmitting (conn m)))%nat ->
  covered false rest = true -> idle_timer (conn m) -> idle_timer (conn (enter cb_throws b rest m)).
Proof.
  intros Hb Hk Hc Hi.
  destruct (enter_outcome b k wt rest m Hb Hk Hc) as (c' & fs & w & ex & -> & _ & _ & _ & _ & H & _). by apply H.
Qed.

Lemma outside_idle m e m' :
  safe_inv m -> stack m = [] -> idle_timer (conn m) ->
  outside st cb_throws operation_aborted eof m e = Some m' -> idle_timer (conn m').
Proof.
  intros [Hu Hc Hr Hw] Hs Hi. rewrite Hs in Hw.
  pose proof Hi as Hi'. unfold idle_timer in Hi'.
  destruct e; cbn [outside]; rewrite ?Hi'; cbn [t_waiting t_queued]; intros H;
    repeat case_match; simplify_eq; try done;
    rewrite ?andb_true_iff, ?Nat.ltb_lt, ?Nat.eqb_eq in *; destruct_and?.
  - unfold on_read. rewrite enter_modify.
    eapply enter_idle; [apply after_read_ok | enter_side | done | exact Hi].
  - eapply enter_idle; [apply after_write_ok | enter_side | done | exact Hi].
  - eapply enter_idle; [apply sendfile_done_ok | enter_side | done | exact Hi].
Qed.

Lemma step_idle m e m' :
  safe_inv m -> idle_timer (conn m) ->
  step st http_method_get cb_throws asio_max_iov_len operation_aborted eof m e = Some m' ->
  idle_timer (conn m').
Proof.
  intros Hm Hi. pose proof Hm as [Hu Hc Hr Hw]. unfold step.
  destruct (destroyed m || _); [done|].
  destruct (stack m) as [|f rest] eqn:Hs; [by apply outside_idle|].
  unfold writing_all in Hw. cbn [covered sum_list_with] in Hc, Hw.
  apply andb_true_iff in Hc as [Hf Hc]. rewrite orb_false_r in Hf.
  assert (Hthrow : throws f = true -> existsb is_try rest = true).
  { intros Ht. by rewrite Ht in Hf. }
  assert (Hrun : f <> FSendfileStarted -> (forall id up, f <> FHandler id up) ->
    idle_timer (conn (enter cb_throws (run_frame st http_method_get cb_throws asio_max_iov_len f) rest
                (with_stack m rest)))).
  { intros H1 H2. eapply enter_idle; [by apply run_frame_ok | enter_side | done | done]. }
  destruct f; destruct e; intros H; simplify_eq; try (by apply Hrun); try done.
  - eapply (enter_idle _ 0 17); [| enter_side | done | done]. rewrite Hthrow by done.
    destruct for_upgrade; [apply after_upgrade_handler_ok | apply after_handler_ok].
  - eapply (enter_idle _ 0 1); [| enter_side | done | done]. rewrite Hthrow by done.
    apply does_frame_ok; [lia|]. by apply does_throw.
  - eapply (enter_idle _ 0 1); [| enter_side | done | done]. rewrite Hthrow by done.
    apply does_frame_ok; [lia|]. by apply does_throw.
  - destruct ec as [ec|]; simplify_eq; [|done].
    eapply enter_idle; [apply sendfile_done_ok | enter_side | done | done].
Qed.

Lemma run_events_idle es : forall m m',
  safe_inv m -> idle_timer (conn m) ->
  run_events st http_method_get cb_throws asio_max_iov_len operation_aborted eof m es = Some m' ->
  idle_timer (conn m').
Proof.
  induction es as [|e es IH]; intros m m' Hm Hi; cbn [run_events]; [by intros [= <-]|].
  destruct (step _ _ _ _ _ _ m e) as [m1|] eqn:E; [|done].
  apply IH; [by eapply step_safe | by eapply step_idle].
Qed.

End Safety.

(** ** Theorems *)

Section Theorems.
Context {P : Type} `{HP : HttpParser P} {Other : OtherExceptions}.
Context (st : settings_t) (http_method_get : Z).
Context (cb_throws : notificator -> error_code -> bool) (asio_max_iov_len : Z).
Context (operation_aborted eof : error_code) (now : Z).
Abbreviation reachable := (reachable st http_method_get cb_throws asio_max_iov_len operation_aborted eof now).

(** C4 (safety). No exception that is derived from [std::exception] leaves the connection's completion
    handlers, which are noexcept and would end the program: whatever of that kind the user's handler, the
    coordinator, the notificators or the output context throw, a [try] of the
    connection catches it. Only the user's code can throw another exception, which nothing catches, so the program ends
    in a step only if the handler throws such an exception in it, or some notificator throws such ones. *)
Theorem no_exception_escapes (m : @machine P) (Hm : reachable m) :
  (forall ex, uncaught m = Some ex -> derives_from_std ex = false) /\
  (forall e m', step st http_method_get cb_throws asio_max_iov_len operation_aborted eof m e = Some m' ->
     e <> EHandlerThrowsOther -> (forall n ec, throws_other n ec = false) -> uncaught m' = None).
Proof.
  pose proof (reachable_safe _ _ _ _ _ _ _ _ Hm) as Hs. split; [apply (si_uncaught _ Hs)|].
  intros e m' H He Hno. by eapply step_contained.
Qed.

(** C3 (safety). At most one read and at most one write or sendfile are in
    progress on the socket; a read exactly while the flag says so, and a write
    only while a group is current. *)
Theorem one_operation_each_way (m : @machine P) (Hm : reachable m) :
  (reads m <= 1)%nat /\
  (reads m = 1%nat <-> running (conn m) = true) /\
  (writes m + sendfiles m <= 1)%nat /\
  ((0 < writes m + sendfiles m)%nat -> transmitting (conn m) = true).
Proof.
  destruct (reachable_safe _ _ _ _ _ _ _ _ Hm) as [_ _ Hr Hw].
  unfold running, transmitting in *.
  destruct (m_read_operation_is_running _), (OutputCtx.transmitting _); cbn in *;
    repeat split; intros; try lia; done.
Qed.

(** C7 (termination). An activation ends: from every reachable state, the
    methods that are running come to an end or to a call of user code after a
    number of steps bounded by the queued groups and the frames on the stack. *)
Theorem activation_terminates (m : @machine P) (Hm : reachable m) (Hd : destroyed m = false) :
  at_rest (settle st http_method_get cb_throws asio_max_iov_len operation_aborted eof
             (S (10 * groups (conn m) + weights (stack m))) m).
Proof.
  apply settle_at_rest; [exact (reachable_safe _ _ _ _ _ _ _ _ Hm) | done | unfold work; lia].
Qed.

(** Timeouts do not survive an upgrade request: the call of its
    handler cancels the timer, and nothing but the timer itself schedules it
    again. Once the timer is idle it stays so in every continuation, however the
    request is answered and however long the connection lives, while members
    such as the read timeout are still set. *)
Theorem idle_timer_forever (m m' : @machine P) es (Hm : reachable m)
  (Hi : idle_timer (conn m))
  (Hr : run_events st http_method_get cb_throws asio_max_iov_len operation_aborted eof m es = Some m') :
  idle_timer (conn m') /\
  (forall e, e = ETimerExpires \/ e = ECheckTimeout ->
     step st http_method_get cb_throws asio_max_iov_len operation_aborted eof m' e = None).
Proof.
  pose proof (run_events_idle _ _ _ _ _ _ es m m' (reachable_safe _ _ _ _ _ _ _ _ Hm) Hi Hr) as Hi'.
  split; [exact Hi'|]. unfold idle_timer in Hi'. intros e He. unfold step.
  destruct (destroyed m' || _); [done|].
  destruct (stack m') as [|[]]; destruct He as [-> | ->]; cbn; rewrite ?Hi'; done.
Qed.

End Theorems.

(** ** Witnesses *)

#[local] Existing Instance no_other_exceptions.

(** The handler of the first of two pipelined requests runs. *)
Definition handler_runs : list event := [EReadDone no_error (line "a" ++ line "b")].

Abbreviation example_step := (step example_settings 1 no_throw 64 example_aborted example_eof).

Lemma throwing_run :
  exists m m', example_script handler_runs = Some m /\ example_step m EHandlerThrows = Some m' /\
    LogError (unexpected_exception handler_exception) ∈ log m'.
Proof. vm_compute. do 2 eexists. split; [reflexivity|]. split; [reflexivity|]. repeat constructor. Qed.

Lemma no_exception_escapes_witness :
  exists m m', example_script handler_runs = Some m /\ example_step m EHandlerThrows = Some m' /\
    LogError (unexpected_exception handler_exception) ∈ log m' /\ uncaught m' = None.
Proof.
  destruct throwing_run as (m & m' & Hr & Hs & Hl). exists m, m'.
  split; [exact Hr|]. split; [exact Hs|]. split; [exact Hl|].
  exact (proj2 (no_exception_escapes _ _ _ _ _ _ _ m (example_script_reachable handler_runs m Hr)) _ _ Hs
    ltac:(discriminate) (fun _ _ => eq_refl)).
Defined.

(** The same handler throws an exception of a type of its own: the program is terminated. *)
Lemma other_exception_ends_program :
  exists m m', example_script handler_runs = Some m /\ example_step m EHandlerThrowsOther = Some m' /\
    uncaught m' = Some other_exception.
Proof. vm_compute. do 2 eexists. split; [reflexivity|]. split; reflexivity. Qed.

(** A request answered at once: its response is written while the next is read. *)
Definition both_ways_events : list event :=
  [EReadDone no_error (line "a");
   EHandlerWrites 0 (response connection_keepalive) (text_group "first" (Some 7%nat));
   EHandlerReturns accepted].

Lemma both_ways_run :
  exists m, example_script both_ways_events = Some m /\ reads m = 1%nat /\ writes m = 1%nat.
Proof. vm_compute. eexists. split; [reflexivity|]. split; reflexivity. Qed.

Lemma one_operation_each_way_witness :
  exists m, example_script both_ways_events = Some m /\
    m_read_operation_is_running (m_input (conn m)) = true /\
    OutputCtx.transmitting (m_write_output_ctx (conn m)) = true.
Proof.
  destruct both_ways_run as (m & Hr & H1 & H2). exists m. split; [exact Hr|].
  destruct (one_operation_each_way _ _ _ _ _ _ _ m (example_script_reachable both_ways_events m Hr))
    as (_ & Hread & _ & Hwrite).
  split; [exact (proj1 Hread H1) | apply Hwrite; rewrite H2; lia].
Defined.

Lemma activation_terminates_witness :
  at_rest (settle example_settings 1 no_throw 64 example_aborted example_eof 5 example_start).
Proof.
  exact (activation_terminates example_settings 1 no_throw 64 example_aborted example_eof 0
    example_start (reach_start _ _ _ _ _ _ _) eq_refl).
Defined.

(** An upgrade request answered as an ordinary one; then a long time passes. *)
Definition upgrade_events : list event :=
  [EReadDone no_error (line "U");
   EHandlerWrites 0 (response connection_keepalive) (text_group "no" (Some 7%nat));
   EHandlerReturns accepted].

Lemma upgrade_timer_run :
  exists m, example_script upgrade_events = Some m /\
    m_timer_guard (conn m) = mk_timer false 0 /\
    m_current_timeout_cb (conn m) = Some handle_write_response_timeout /\
    exists m', run_events example_settings 1 no_throw 64 example_aborted example_eof m
                 [ETick 1000] = Some m'.
Proof.
  vm_compute. eexists. split; [reflexivity|]. split; [reflexivity|]. split; [reflexivity|].
  by eexists.
Qed.

Lemma idle_timer_forever_witness :
  exists m m', example_script upgrade_events = Some m /\
    m_current_timeout_cb (conn m) = Some handle_write_response_timeout /\
    run_events example_settings 1 no_throw 64 example_aborted example_eof m [ETick 1000] = Some m' /\
    m_timer_guard (conn m') = mk_timer false 0.
Proof.
  destruct upgrade_timer_run as (m & Hr & Ht & Hcb & m' & Hm'). exists m, m'.
  split; [exact Hr|]. split; [exact Hcb|]. split; [exact Hm'|].
  exact (proj1 (idle_timer_forever _ _ _ _ _ _ _ m m' [ETick 1000]
    (example_script_reachable upgrade_events m Hr) Ht Hm')).
Defined.
