(* ===== verification/ConnOrder.v ===== *)
(** * The order of what a connection writes

    The coordinator ([RespCoord]), the output context ([OutputCtx]) and the
    connection together: the operations started on the socket carry the responses
    in the order of their requests. *)

From S2P Require Import Prelude Effects Handlers InputBuffer Sendfile WriteGroup OutputCtx RespCoord Headers.
From S2P Require Import ParserCallbacks Connection ConnSafety.

(** What the log says: the operations of the coordinator and the items written. *)
Definition outs (es : list effect) : list coord_out :=
  es ≫= fun e => match e with CoordinatorDid o => [o] | _ => [] end.

Definition written (es : list effect) : list writable_item_t :=
  es ≫= fun e => match e with
                 | AsyncWrite bufs => TrivialItem <$> bufs
                 | StartSendfile sf => [FileItem sf]
                 | _ => []
                 end.

(** No write is aborted: asio aborts the writes of a socket that is closed,
    cancelled, or taken over by the user. *)
Definition not_aborted (operation_aborted : error_code) (e : event) : Prop :=
  match e with
  | EWriteDone ec | ESendfileDone ec | ESendfileReports (Some ec) => ec <> operation_aborted
  | _ => True
  end.

Lemma outs_app es es' : outs (es ++ es') = outs es ++ outs es'.
Proof. apply bind_app. Qed.
Lemma written_app es es' : written (es ++ es') = written es ++ written es'.
Proof. apply bind_app. Qed.
Lemma popped_items_app os os' : popped_items (os ++ os') = popped_items os ++ popped_items os'.
Proof. apply bind_app. Qed.
Lemma outs_notified cs : outs (notified cs) = [].
Proof. by induction cs. Qed.
Lemma written_notified cs : written (notified cs) = [].
Proof. by induction cs. Qed.

(** Runs of the coordinator one after the other. *)
Lemma coordinator_run_app {T} `{ResponseQueue T} ops ops' : forall s : T,
  run s (ops ++ ops') =
    ((run s ops).1 ++ (run (run s ops).2 ops').1, (run (run s ops).2 ops').2).
Proof.
  induction ops as [|op ops IH]; intros s; [by apply surjective_pairing|]. cbn [app run].
  destruct (run_op s op) as [[s' out] cs]. rewrite IH. by destruct (run s' ops).
Qed.

Section Order.
Context {P : Type} `{HP : HttpParser P} {Other : OtherExceptions}.
Context (st : settings_t) (http_method_get : Z).
Context (cb_throws : notificator -> error_code -> bool) (asio_max_iov_len : Z).
Context (operation_aborted eof : error_code).
Abbreviation connection_t := (@connection_t P).
Abbreviation meth := (act Z connection_t effect exception_t).
Abbreviation machine := (@machine P).
#[local] Existing Instance coordinator_queue.

(** What is left of the group being written. *)
Definition unwritten (c : connection_t) : list writable_item_t :=
  let o := m_write_output_ctx c in
  from_option (fun wg => drop (OutputCtx.m_next_writable_item_index o) (m_items wg)) []
    (OutputCtx.m_current_wg o).

(** Between groups, the next one will be written from its first item on. *)
Definition index_reset (c : connection_t) : Prop :=
  let o := m_write_output_ctx c in
  OutputCtx.m_current_wg o = None -> OutputCtx.m_next_writable_item_index o = 0%nat.

(** Operations of the coordinator that are not resets, with what they gave;
    items taken from it are written or are still to be written. *)
Record advances (c c' : connection_t) (w : list effect) : Prop := {
  adv_ops : exists ops, Forall (fun op => op <> OReset) ops /\
    (run (Q := coordinator_queue cb_throws) (m_response_coordinator c) ops).1.*1 = outs w /\
    (run (Q := coordinator_queue cb_throws) (m_response_coordinator c) ops).2 = m_response_coordinator c';
  adv_items : unwritten c ++ popped_items (outs w) = written w ++ unwritten c';
  adv_index : index_reset c' }.

Lemma advances_quiet c c' w :
  m_response_coordinator c' = m_response_coordinator c ->
  m_write_output_ctx c' = m_write_output_ctx c ->
  outs w = [] -> written w = [] -> index_reset c -> advances c c' w.
Proof.
  intros Hq Ho H1 H2 Hi. split.
  - exists []. by rewrite H1, Hq.
  - unfold unwritten. rewrite H1, H2, Ho. apply app_nil_r.
  - unfold index_reset in *. by rewrite Ho.
Qed.

Lemma advances_trans c c1 c2 w1 w2 :
  advances c c1 w1 -> advances c1 c2 w2 -> advances c c2 (w1 ++ w2).
Proof.
  intros [(ops1 & Hr1 & Ho1 & Hq1) Hi1 _] [(ops2 & Hr2 & Ho2 & Hq2) Hi2 Hz]. split; [| |done].
  - exists (ops1 ++ ops2). rewrite coordinator_run_app. cbn [fst snd]. rewrite Hq1, fmap_app, Ho1, Ho2, outs_app.
    split; [by apply Forall_app | done].
  - rewrite outs_app, written_app, popped_items_app, app_assoc, Hi1, <- !app_assoc. by f_equal.
Qed.

(** Whatever the method does, the connection is closed or goes on in order. *)
Definition goes_on {A} (c : connection_t) (x : result exception_t A) (c' : connection_t)
    (w : list effect) : Prop :=
  Closed ∈ w \/ match x with Ok _ => advances c c' w | Err _ => True end.
Definition orders {A} (b : meth A) : Prop :=
  forall now c, index_reset c -> run_spec b now c (goes_on c).

(** Once it is closed, whatever follows. *)
Lemma closed_goes_on {A} (b : meth A) now c c1 w1 :
  Closed ∈ w1 -> run_spec b now c1 (fun x c2 w2 => goes_on c x c2 (w1 ++ w2)).
Proof.
  intros Hcl. unfold run_spec. destruct (b now c1) as [[x c2] w2]. left.
  apply elem_of_app. by left.
Qed.

Lemma orders_bind {A B} (m : meth A) (f : A -> meth B) :
  orders m -> (forall a, orders (f a)) -> orders (m ≫= f).
Proof.
  intros Hm Hf now c Hc. apply spec_bind. eapply spec_weaken; [by apply Hm|].
  intros [a|e] c1 w1 [Hcl | H1]; try (by left); try (by right).
  - by apply closed_goes_on.
  - eapply spec_weaken; [by apply Hf, H1|]. intros x c2 w2 [Hcl | H2].
    + left. apply elem_of_app. by right.
    + right. destruct x; [|done]. by eapply advances_trans.
Qed.

Lemma orders_quiet {A} (b : meth A) :
  (forall now c, run_spec b now c (fun _ c' w =>
     m_response_coordinator c' = m_response_coordinator c /\
     m_write_output_ctx c' = m_write_output_ctx c /\ outs w = [] /\ written w = [])) -> orders b.
Proof.
  intros H now c Hc. eapply spec_weaken; [apply H|]. intros [] c' w (? & ? & ? & ?); right; [|done].
  by apply advances_quiet.
Qed.

Lemma orders_ret {A} (a : A) : orders (mret a).
Proof. by apply orders_quiet. Qed.
Lemma orders_throw {A} e : orders (throw (A := A) e).
Proof. intros now c Hc. apply spec_throw. by right. Qed.
Lemma orders_gets {A} (f : connection_t -> A) : orders (gets f).
Proof. by apply orders_quiet. Qed.
Lemma orders_ask : orders ask.
Proof. by apply orders_quiet. Qed.
Lemma orders_notify cs : orders (notify cs).
Proof.
  apply orders_quiet. intros now c. apply spec_emits. change (_ <$> cs) with (notified cs).
  by rewrite outs_notified, written_notified.
Qed.
Lemma orders_emit e : outs [e] = [] -> written [e] = [] -> orders (emit e).
Proof. intros H1 H2. apply orders_quiet. intros now c. by apply spec_emit. Qed.
Lemma orders_modify f :
  (forall c, m_response_coordinator (f c) = m_response_coordinator c) ->
  (forall c, m_write_output_ctx (f c) = m_write_output_ctx c) -> orders (modify f).
Proof. intros H1 H2. apply orders_quiet. intros now c. by apply spec_modify. Qed.

(** *** The coordinator *)

(** One operation that is not a reset, and takes no group out. *)
Lemma advances_op c op q' out cs :
  run_op (Q := coordinator_queue cb_throws) (m_response_coordinator c) op = (q', out, cs) ->
  op <> OReset -> match out with Popped (Some _) => False | _ => True end -> index_reset c ->
  advances c (set_coordinator q' c) ([CoordinatorDid out] ++ notified cs).
Proof.
  intros E Hop Hout Hc. split; [| |done].
  - exists [op]. cbn [run]. rewrite E, outs_app, outs_notified. repeat constructor; done.
  - rewrite outs_app, written_app, outs_notified, written_notified, !app_nil_r.
    change (unwritten (set_coordinator q' c)) with (unwritten c).
    cbn. by destruct out as [| | [[]|] | |]; rewrite ?app_nil_r.
Qed.

Lemma spec_op op now c (Q : result exception_t coord_out -> connection_t -> list effect -> Prop) :
  (forall q' out cs,
     run_op (Q := coordinator_queue cb_throws) (m_response_coordinator c) op = (q', out, cs) ->
     Q (Ok out) (set_coordinator q' c) ([CoordinatorDid out] ++ notified cs)) ->
  run_spec (coordinator cb_throws op) now c Q.
Proof.
  intros H. unfold coordinator. apply spec_bind, spec_gets.
  destruct (run_op _ _) as [[q' out] cs] eqn:E.
  apply spec_bind, spec_modify, spec_bind, spec_emit, spec_bind, spec_emits, spec_ret.
  rewrite app_nil_r. by apply H.
Qed.

Lemma orders_register_op : orders (coordinator cb_throws ORegister).
Proof.
  intros now c Hc. apply spec_op. intros q' out cs E. right. apply (advances_op c ORegister); try done.
  cbn in E. by destruct (Coordinator.register_new_request _) as [[]|]; simplify_eq.
Qed.

Lemma orders_append_op id flags wg : orders (coordinator cb_throws (OAppend id flags wg)).
Proof.
  intros now c Hc. apply spec_op. intros q' out cs E. right.
  apply (advances_op c (OAppend id flags wg)); try done.
  cbn in E. by destruct (Coordinator.append_response _ _ _ _ _) as [[]]; simplify_eq.
Qed.

(** *** Closing *)

Lemma close_closes now (c : connection_t) :
  run_spec (close cb_throws) now c (fun _ _ w => Closed ∈ w).
Proof.
  unfold close, cancel_timeout_checking, coordinator, notify. spec_steps.
  rewrite !elem_of_app, !list_elem_of_singleton. tauto.
Qed.

Lemma trigger_closes e now (c : connection_t) :
  run_spec (trigger_error_and_close cb_throws e) now c (fun _ _ w => Closed ∈ w).
Proof.
  apply spec_bind, spec_emit. eapply spec_weaken; [apply close_closes|].
  intros x c1 w1 Hcl. apply elem_of_app. by right.
Qed.

Lemma orders_close : orders (close (P := P) cb_throws).
Proof. intros now c _. eapply spec_weaken; [apply close_closes|]. by left. Qed.

Lemma orders_throw_other cs : orders (throw_other (P := P) cs).
Proof. unfold throw_other. destruct (existsb _ cs); [apply orders_throw | apply orders_ret]. Qed.

Create HintDb orders.
#[local] Hint Resolve orders_throw_other : orders.
#[local] Hint Resolve orders_ask orders_notify orders_close orders_register_op orders_append_op : orders.

Ltac orders_step :=
  lazymatch goal with
  | |- orders (_ ≫= _) => apply orders_bind; [| intros ?; cbn beta]
  | |- orders (if ?b then _ else _) => destruct b
  | |- orders (match ?x with _ => _ end) => destruct x
  | |- orders (emit _) => apply orders_emit; reflexivity
  | |- orders (modify _) => apply orders_modify; reflexivity
  | |- orders (mret _) => apply orders_ret
  | |- orders (throw _) => apply orders_throw
  | |- orders (gets _) => apply orders_gets
  | |- orders _ => solve [eauto with orders nocore]
  end.
Ltac orders_all := repeat orders_step.
Tactic Notation "orders_method" reference(m) := unfold m; orders_all.

Lemma orders_register : orders (register_new_request cb_throws).
Proof. orders_method register_new_request. Qed.
Lemma orders_append id flags wg : orders (append_response cb_throws id flags wg).
Proof. orders_method append_response. Qed.
Lemma orders_cancel_timeout : orders cancel_timeout_checking.
Proof. orders_method cancel_timeout_checking. Qed.
Lemma orders_schedule t cb : orders (schedule_operation_timeout_callback t cb).
Proof. orders_method schedule_operation_timeout_callback. Qed.
#[local] Hint Resolve orders_register orders_append orders_cancel_timeout orders_schedule : orders.
Lemma orders_guard_read : orders (guard_read_operation st).
Proof. orders_method guard_read_operation. Qed.
Lemma orders_guard_handling : orders (guard_request_handling_operation st).
Proof. orders_method guard_request_handling_operation. Qed.
Lemma orders_guard_write : orders (guard_write_operation st).
Proof. orders_method guard_write_operation. Qed.
Lemma orders_guard_sendfile t : orders (guard_sendfile_operation st t).
Proof. orders_method guard_sendfile_operation. Qed.
Lemma orders_trigger e : orders (trigger_error_and_close cb_throws e).
Proof. orders_method trigger_error_and_close. Qed.
#[local] Hint Resolve orders_guard_read orders_guard_handling orders_guard_write
  orders_guard_sendfile orders_trigger : orders.
Lemma orders_check_timeout : orders (check_timeout cb_throws).
Proof. unfold check_timeout, check_timeout_impl, handle_xxx_timeout, init_next_timeout_checking. orders_all. Qed.
Lemma orders_consume_message : orders (consume_message (P := P)).
Proof. orders_method consume_message. Qed.
#[local] Hint Resolve orders_consume_message : orders.
Lemma orders_wait : orders (wait_for_http_message st http_method_get).
Proof. orders_method wait_for_http_message. Qed.
Lemma orders_on_read ec data : orders (on_read cb_throws operation_aborted eof ec data).
Proof. unfold on_read, after_read. orders_all. Qed.
Lemma orders_consume_data len : orders (consume_data cb_throws len).
Proof. orders_method consume_data. Qed.
Lemma orders_call_handler id up : orders (call_handler (P := P) id up).
Proof. orders_method call_handler. Qed.
#[local] Hint Resolve orders_call_handler : orders.
Lemma orders_upgrade : orders (handle_upgrade_request cb_throws).
Proof. orders_method handle_upgrade_request. Qed.
#[local] Hint Resolve orders_upgrade : orders.
Lemma orders_on_request : orders (on_request_message_complete st cb_throws).
Proof. orders_method on_request_message_complete. Qed.
Lemma orders_after_handler id s : orders (after_handler (P := P) id s).
Proof. orders_method after_handler. Qed.
Lemma orders_after_upgrade_handler id s : orders (after_upgrade_handler (P := P) id s).
Proof. orders_method after_upgrade_handler. Qed.
Lemma orders_move : orders (move_upgrade_internals (P := P)).
Proof. orders_method move_upgrade_internals. Qed.
Lemma orders_invoke_with_error wg : orders (invoke_after_write_cb_with_error (P := P) cb_throws wg).
Proof. orders_method invoke_after_write_cb_with_error. Qed.
#[local] Hint Resolve orders_invoke_with_error orders_move : orders.
Lemma orders_write_parts id flags wg : orders (write_response_parts_impl cb_throws id flags wg).
Proof. orders_method write_response_parts_impl. Qed.
Lemma orders_nothing_to_write : orders (handle_nothing_to_write st cb_throws).
Proof. orders_method handle_nothing_to_write. Qed.
Lemma orders_cancel_reading : orders (cancel_reading_if_closed (P := P)).
Proof. orders_method cancel_reading_if_closed. Qed.
#[local] Hint Resolve orders_nothing_to_write orders_cancel_reading : orders.

(** *** Writing *)

Lemma not_transmitting (c : connection_t) :
  transmitting c = false -> OutputCtx.m_current_wg (m_write_output_ctx c) = None.
Proof. unfold transmitting, OutputCtx.transmitting. by destruct (OutputCtx.m_current_wg _). Qed.

(** The group popped becomes the current one, to be written from its first item. *)
Lemma init_write_goes_on now c :
  index_reset c -> transmitting c = false -> run_spec (init_write st cb_throws) now c (goes_on c).
Proof.
  intros Hc Ht%not_transmitting. unfold init_write, pop_ready_buffers.
  apply spec_bind, spec_gets, spec_bind, spec_bind, spec_op. intros q' out cs E.
  pose proof E as E'. cbn in E'.
  destruct out as [| |r| |e]; try (destruct (Coordinator.pop_ready_buffers _ _) as [[[? ?]|?] ?]; by simplify_eq).
  - destruct r as [[wg id]|].
    + unfold output, output_result, notify. spec_steps; unfold OutputCtx.start_next_write_group in *; simplify_eq.
      change (m_write_output_ctx (set_init_read _ _)) with (m_write_output_ctx c).
      rewrite Ht, app_nil_r, !app_nil_l. change (from_option _ _ None) with (@nil (notificator * error_code)).
      cbn [fmap list_fmap]. rewrite !app_nil_r. right. split; [| |done].
      * exists [OPop]. cbn [run]. rewrite E, outs_app, outs_notified. repeat constructor; done.
      * rewrite outs_app, written_app, outs_notified, written_notified.
        unfold unwritten. cbn. by rewrite Ht, (Hc Ht), !app_nil_r, drop_0.
    + assert (Ha : advances c (set_coordinator q' c) ([CoordinatorDid (Popped None)] ++ notified cs))
        by by apply (advances_op c OPop).
      spec_steps. eapply spec_weaken; [apply orders_nothing_to_write, Ha|].
      intros [u|e] c2 w2 [Hcl | H2]; try by right.
      * spec_steps. left. rewrite !elem_of_app. tauto.
      * spec_steps. right. rewrite !app_nil_r, !app_nil_l. by eapply advances_trans.
  - spec_steps. by right.
Qed.

Lemma orders_init_write_if : orders (init_write_if_necessary st cb_throws).
Proof.
  unfold init_write_if_necessary. orders_step; [orders_step|]. orders_step; [orders_all|].
  intros now c Hc. apply spec_bind, spec_gets.
  destruct (transmitting c) eqn:Ht; [by apply orders_ret|].
  eapply spec_weaken; [by apply init_write_goes_on | done].
Qed.
#[local] Hint Resolve orders_init_write_if : orders.

Lemma orders_append_and_write id flags wg : orders (append_and_write st cb_throws id flags wg).
Proof. orders_method append_and_write. Qed.

(** The connection is as it was, apart from the timer and the sendfile operation,
    and [items] have been written. *)
Record wrote (items : list writable_item_t) (c c' : connection_t) (w : list effect) : Prop := {
  wr_coordinator : m_response_coordinator c' = m_response_coordinator c;
  wr_unwritten : unwritten c' = unwritten c;
  wr_index : index_reset c -> index_reset c';
  wr_outs : outs w = [];
  wr_written : written w = items }.

Lemma spec_trivial bufs now c :
  run_spec (handle_trivial_write_operation st bufs) now c
    (fun _ c' w => wrote (TrivialItem <$> bufs) c c' w).
Proof.
  unfold handle_trivial_write_operation, cancel_reading_if_closed, guard_write_operation,
    schedule_operation_timeout_callback.
  spec_steps; split; try done; cbn; by rewrite app_nil_r.
Qed.

Lemma spec_file sf now c :
  run_spec (handle_file_write_operation st sf) now c
    (fun x c' w => match x with Ok _ => wrote [FileItem sf] c c' w | Err _ => True end).
Proof.
  unfold handle_file_write_operation, cancel_reading_if_closed, guard_sendfile_operation,
    schedule_operation_timeout_callback, OutputCtx.start_sendfile_operation.
  destruct (sf_is_valid sf); cbn [negb]; spec_steps; simplify_eq; done.
Qed.

Lemma wrote_advances items c c0 c' w :
  m_response_coordinator c0 = m_response_coordinator c -> index_reset c0 ->
  unwritten c = items ++ unwritten c0 -> wrote items c0 c' w -> advances c c' w.
Proof.
  intros Hq Hi Hu []. split; [| |auto].
  - exists []. by rewrite wr_outs0, wr_coordinator0, Hq.
  - rewrite wr_outs0, wr_written0, wr_unwritten0, Hu. apply app_nil_r.
Qed.

(** The end of a group of which nothing is left. *)
Lemma finish_goes_on now c :
  index_reset c -> unwritten c = [] ->
  run_spec (finish_handling_current_write_ctx st cb_throws) now c (goes_on c).
Proof.
  intros Hc Hu. unfold finish_handling_current_write_ctx.
  assert (Hfin : run_spec (output_notifying (OutputCtx.finish_write_group cb_throws)) now c (fun x c' w =>
    match x with Ok (Ok _) => advances c c' w | _ => True end)).
  { unfold output_notifying. apply spec_bind, spec_gets.
    destruct (OutputCtx.finish_write_group _ _) as [[r o'] cs] eqn:E.
    apply spec_bind, spec_modify, spec_bind, spec_emits, spec_bind. unfold throw_other.
    destruct (existsb _ cs); [done|]. apply spec_ret, spec_ret.
    change (_ <$> cs) with (notified cs). destruct r as [u|e]; [|done].
    rewrite !app_nil_r, !app_nil_l.
    assert (Hr : OutputCtx.m_current_wg o' = None /\ OutputCtx.m_next_writable_item_index o' = 0%nat).
    { revert E. unfold OutputCtx.finish_write_group.
      destruct (OutputCtx.invoke_after_write_notificator_if_necessary _ _ _) as [[[?|?] ?] ?]; [|done].
      by intros [= <- <-]. }
    destruct Hr as [Hr1 Hr2]. split; [| |by intros _].
    - exists []. by rewrite outs_notified.
    - rewrite outs_notified, written_notified, Hu. unfold unwritten. cbn. by rewrite Hr1. }
  apply spec_bind. eapply spec_weaken; [exact Hfin|]. intros [[u|e]|e] c1 w1 H1; [|by spec_steps; right|by right].
  apply spec_bind, spec_ret. rewrite ?app_nil_l.
  assert (Hrest : orders (is_closed ← gets closed;
    if negb is_closed then
      s ← gets stage;
      if bool_decide (stage_none = s) then
        init_read ← gets m_init_read_after_this_write;
        mret ((if init_read : bool then [FWaitForHttpMessage] else []) ++ [FInitWriteIfNecessary])
      else
        empty ← gets is_empty;
        if empty : bool then handle_upgrade_request cb_throws
        else init_write_if_necessary st cb_throws
    else close cb_throws;; mret [])) by orders_all.
  eapply spec_weaken; [apply Hrest, H1|]. intros x c2 w2 [Hcl | H2].
  - left. apply elem_of_app. by right.
  - right. destruct x; [by eapply advances_trans | done].
Qed.

(** The next operation carries the first items left of the group. *)
Lemma extract_unwritten o wo o' :
  1 <= asio_max_iov_len ->
  OutputCtx.extract_next_write_operation asio_max_iov_len o = Ok (wo, o') ->
  exists wg, OutputCtx.m_current_wg o = Some wg /\ OutputCtx.m_current_wg o' = Some wg /\
    drop (OutputCtx.m_next_writable_item_index o) (m_items wg) =
      items_of_op wo ++ drop (OutputCtx.m_next_writable_item_index o') (m_items wg) /\
    (wo = OutputCtx.none_write_operation ->
     drop (OutputCtx.m_next_writable_item_index o') (m_items wg) = []).
Proof.
  intros Hmax E. destruct (OutputCtx.m_current_wg o) as [wg|] eqn:Ewg.
  - destruct (extract_spec asio_max_iov_len Hmax o wg Ewg) as (op & o1 & E1 & Hwg & Hd & Hop).
    rewrite E in E1. injection E1 as <- <-. exists wg. split_and!; auto.
    intros ->. destruct Hop as [-> Hlen]. by apply drop_ge.
  - unfold OutputCtx.extract_next_write_operation in E. by rewrite Ewg in E.
Qed.

Context (Hmax : 1 <= asio_max_iov_len).

Lemma orders_current_write_ctx : orders (handle_current_write_ctx st cb_throws asio_max_iov_len).
Proof.
  intros now c Hc. unfold handle_current_write_ctx, output, output_result.
  apply spec_bind, spec_bind, spec_bind, spec_gets.
  destruct (OutputCtx.extract_next_write_operation _ _) as [[wo o']|e] eqn:E.
  - apply extract_unwritten in E as (wg & H1 & H2 & Hd & Hnone); [|done].
    apply spec_bind, spec_modify, spec_bind, spec_emits, spec_ret. cbn [app fmap list_fmap].
    apply spec_ret. cbn [app].
    set (c1 := set_output o' c).
    assert (Hi : index_reset c1) by (unfold index_reset; cbn; by rewrite H2).
    assert (Hu : unwritten c = items_of_op wo ++ unwritten c1).
    { unfold unwritten. cbn. by rewrite H1, H2. }
    destruct wo as [|bufs n|sf].
    + assert (Hu1 : unwritten c1 = []) by (unfold unwritten; cbn; rewrite H2; by apply Hnone).
      eapply spec_weaken; [by apply (finish_goes_on now c1)|]. intros x c2 w2 [Hcl | H3]; [by left|].
      right. destruct x; [|done]. rewrite Hu1 in *. eapply (advances_trans _ c1 _ []); [|done].
      split; [by exists [] | by rewrite Hu, Hu1 | done].
    + eapply spec_weaken; [apply spec_trivial|]. intros [] c2 w2 Hw; right; [|done].
      by apply (wrote_advances (TrivialItem <$> bufs) c c1).
    + eapply spec_weaken; [apply spec_file|]. intros [] c2 w2 Hw; right; [|done].
      by apply (wrote_advances [FileItem sf] c c1).
  - spec_steps. by right.
Qed.

Lemma orders_after_write ec :
  ec <> operation_aborted -> orders (after_write cb_throws operation_aborted ec).
Proof.
  intros Hec. unfold after_write. case_bool_decide; [apply orders_ret|].
  rewrite bool_decide_eq_false_2 by done. cbn [negb]. intros now c Hc.
  apply spec_bind. eapply spec_weaken; [apply trigger_closes|].
  intros [u|e] c1 w1 Hcl; [by apply closed_goes_on | by left].
Qed.

Lemma orders_sendfile_done ec :
  ec <> operation_aborted -> orders (on_sendfile_done cb_throws operation_aborted ec).
Proof.
  intros Hec. unfold on_sendfile_done. apply orders_bind; [by apply orders_after_write|].
  intros fs. apply orders_ret.
Qed.

Lemma orders_reset_sendfile :
  orders (modify (fun c => set_output (OutputCtx.reset_sendfile_operation (m_write_output_ctx c)) c)).
Proof.
  intros now c Hc. apply spec_modify. right. split; [by exists [] | apply app_nil_r | done].
Qed.
#[local] Hint Resolve orders_wait orders_consume_data orders_on_request orders_write_parts
  orders_append_and_write orders_current_write_ctx orders_reset_sendfile orders_on_read
  orders_after_handler orders_after_upgrade_handler orders_check_timeout : orders.

Lemma orders_frame f : orders (run_frame st http_method_get cb_throws asio_max_iov_len f).
Proof.
  destruct f; cbn [run_frame];
    first [ apply orders_ret | solve [eauto with orders nocore]
          | apply orders_bind; [apply orders_reset_sendfile | intros u; apply orders_ret] ].
Qed.

(** ** The machine *)

Definition in_order (m : machine) : Prop :=
  Closed ∈ log m \/ advances (connection_create st http_method_get) (conn m) (log m).

Lemma in_order_later m c w (x : result exception_t unit) :
  in_order m -> (Closed ∈ w \/ advances (conn m) c w) ->
  Closed ∈ log m ++ w \/ advances (connection_create st http_method_get) c (log m ++ w).
Proof.
  intros [Hm | Hm] [Hw | Hw]; rewrite elem_of_app; try tauto. right. by eapply advances_trans.
Qed.

Lemma in_order_index m : in_order m -> Closed ∈ log m \/ index_reset (conn m).
Proof. intros [? | []]; auto. Qed.

Lemma enter_in_order (b : meth (list frame)) rest m :
  orders b -> in_order m -> uncaught (enter cb_throws b rest m) = None ->
  in_order (enter cb_throws b rest m).
Proof.
  intros Hb Hm Hu. destruct (in_order_index m Hm) as [Hcl | Hi].
  { left. unfold enter. destruct (b _ _) as [[[fs|ex] c] es]; [by apply elem_of_app; left|].
    destruct (unwind _ _) as [[rest' cs] caught]. destruct (negb _); [by apply elem_of_app; left|].
    destruct caught; [|by apply elem_of_app; left].
    destruct (trigger_error_and_close _ _ _ _) as [[? ?] ?]. apply elem_of_app. by left. }
  specialize (Hb (clock m) (conn m) Hi). revert Hb Hu. unfold run_spec, enter.
  destruct (b _ _) as [[[fs|ex] c] es].
  - intros Hb _. unfold in_order. cbn. by apply (in_order_later m c es (Ok tt)).
  - intros _. destruct (unwind _ _) as [[rest' cs] caught]. destruct (negb _); [done|].
    destruct caught; [|done]. intros _.
    pose proof (trigger_closes (unexpected_exception ex) (clock m) c) as Hcl. revert Hcl.
    unfold run_spec. destruct (trigger_error_and_close _ _ _ _) as [[x c2] w2].
    intros Hcl. left. cbn. rewrite !elem_of_app. tauto.
Qed.

Lemma stay_in_order m m' :
  in_order m -> log m' = log m -> m_response_coordinator (conn m') = m_response_coordinator (conn m) ->
  m_write_output_ctx (conn m') = m_write_output_ctx (conn m) -> in_order m'.
Proof.
  intros [Hcl | [(ops & Hr & Ho & Hq) Hi Hz]] Hl Hc Hw; [left; by rewrite Hl|]. right.
  split; [| |unfold index_reset in *; by rewrite Hw].
  - exists ops. by rewrite Hl, Hc.
  - unfold unwritten in *. by rewrite Hl, Hw.
Qed.

Lemma outside_in_order m e m' :
  in_order m -> not_aborted operation_aborted e ->
  outside st cb_throws operation_aborted eof m e = Some m' -> uncaught m' = None -> in_order m'.
Proof.
  intros Hm He. destruct e; cbn [outside not_aborted] in *; intros H Hu; repeat case_match; simplify_eq;
    try (apply enter_in_order; [| | done]); try (by apply (stay_in_order m)).
  - apply orders_on_read.
  - by apply orders_after_write.
  - by apply orders_sendfile_done.
  - apply orders_check_timeout.
  - orders_all.
  - unfold in_order. cbn. destruct Hm as [Hcl | Ha]; [left; apply elem_of_app; by left|]. right.
    eapply advances_trans; [exact Ha|].
    apply advances_quiet; rewrite ?outs_notified, ?written_notified; done || apply Ha.
Qed.

Lemma step_in_order m e m' :
  in_order m -> not_aborted operation_aborted e ->
  step st http_method_get cb_throws asio_max_iov_len operation_aborted eof m e = Some m' ->
  uncaught m' = None -> in_order m'.
Proof.
  intros Hm He. unfold step. destruct (destroyed m || _); [done|].
  destruct (stack m) as [|f rest]; [by apply outside_in_order|].
  assert (Hrun : uncaught (enter cb_throws (run_frame st http_method_get cb_throws asio_max_iov_len f) rest
                             (with_stack m rest)) = None ->
    in_order (enter cb_throws (run_frame st http_method_get cb_throws asio_max_iov_len f) rest
                (with_stack m rest))).
  { intros. apply enter_in_order; [apply orders_frame | by apply (stay_in_order m) | done]. }
  destruct f; destruct e as [| | | | | | | | i fl g | | s | | | [ec|] | |]; intros H Hu; simplify_eq;
    try (by apply Hrun); try (by apply (stay_in_order m));
    (apply enter_in_order; [|by apply (stay_in_order m) | done]).
  - orders_all.
  - destruct for_upgrade; eauto with orders nocore.
  - apply orders_throw.
  - apply orders_throw.
  - by apply orders_sendfile_done.
Qed.

Lemma start_in_order now : in_order (start st http_method_get cb_throws now).
Proof. right. split; [by exists [] | done | done]. Qed.

Lemma run_in_order es : forall m m',
  (uncaught m = None -> in_order m) -> Forall (not_aborted operation_aborted) es ->
  run_events st http_method_get cb_throws asio_max_iov_len operation_aborted eof m es = Some m' ->
  uncaught m' = None -> in_order m'.
Proof.
  induction es as [|e es IH]; intros m m' Hm Hes; cbn [run_events]; [by intros [= <-]|].
  inversion_clear Hes as [|? ? He Hes']. destruct (step _ _ _ _ _ _ m e) as [m1|] eqn:E; [|done].
  apply IH; [|done]. intros Hu. eapply step_in_order; [apply Hm | exact He | exact E | exact Hu].
  revert E. unfold step. by destruct (uncaught m), (destroyed m).
Qed.

End Order.

(** C1 (invariant). Pipelining, through the whole connection. As long as the connection is open, no
    write has been aborted, fewer than 2^32 requests have been received on it (their identifiers have 32 bits)
    and no exception has ended the program, the items of all write operations started so
    far, followed by what is left of the current group, are the complete
    responses to the first [n] requests, in the order in which the requests
    were received, each with its final parts, followed by the beginning of the
    next response. Under these conditions this holds for every interleaving of reads, writes, timers
    and responses given by the handler, from other threads, in any order, and for every positive number of
    buffers a write may gather. *)
Theorem connection_pipelined {P} `{HttpParser P} {Other : OtherExceptions} st http_method_get cb_throws asio_max_iov_len
    operation_aborted eof now es (m : @machine P)
  (Hmax : 1 <= asio_max_iov_len)
  (Hrun : run_events st http_method_get cb_throws asio_max_iov_len operation_aborted eof
            (start st http_method_get cb_throws now) es = Some m)
  (Hes : Forall (not_aborted operation_aborted) es) (Hopen : Closed ∉ log m)
  (Hreg : registered (outs (log m)) < 2 ^ 32) (Hended : uncaught m = None) :
  exists n part, 0 <= n /\
    written (log m) ++ unwritten (conn m) =
      (seqZ 0 n ≫= fun id => RespCoord.given id (outs (log m))) ++ part /\
    part `prefix_of` RespCoord.given n (outs (log m)) /\
    forall id, 0 <= id < n -> finalized id (outs (log m)).
Proof.
  destruct (run_in_order st http_method_get cb_throws asio_max_iov_len operation_aborted eof Hmax es
    _ m (fun _ => start_in_order _ _ _ _) Hes Hrun Hended) as [? | [Hops Hi _]]; [done|].
  destruct Hops as (ops & Hnr & Ho & _). cbn in Hi, Ho. rewrite <- Hi, <- Ho.
  destruct (order_inv_coordinator cb_throws ops (Coordinator.create (m_max_pipelined_requests st))
    (Spec.spec_create (m_max_pipelined_requests st)) []) as [s Hs];
    [apply simulates_create | done | apply order_inv_create | by rewrite Ho |].
  by apply (order_inv_stream _ s).
Qed.

#[local] Existing Instance no_other_exceptions.

(** Two requests in one segment; the second is answered first. *)
Definition pipelined_settings : settings_t :=
  {| m_buffer_size := 64; m_incoming_http_msg_limits := mk_limits 100 100 100 100 100;
     m_read_next_http_message_timelimit := 60; m_write_http_response_timelimit := 5;
     m_handle_request_timeout := 10; m_max_pipelined_requests := 3 |}.

Definition pipelined_events : list event :=
  [ERun; EReadDone no_error (line "a" ++ line "b"); ERun; ERun;
   EHandlerReturns accepted; ERun; ERun; ERun;
   EHandlerWrites 1 (response connection_keepalive) (text_group "second" None); ERun; ERun; ERun;
   EHandlerReturns accepted; ERun; ERun; ERun; ERun;
   EResponse 0 (response connection_keepalive) (text_group "first" None); ERun; ERun; ERun; ERun; ERun;
   EWriteDone no_error; ERun; ERun; ERun; ERun].

Lemma pipelined_run :
  exists m, run_events pipelined_settings 1 no_throw 64 example_aborted example_eof
      (start (P := line_parser) pipelined_settings 1 no_throw 0) pipelined_events = Some m /\
    (Closed ∉ log m) /\ registered (outs (log m)) = 2 /\
    uncaught m = None /\ written (log m) = [TrivialItem (str "first"); TrivialItem (str "second")].
Proof.
  eexists. split; [vm_compute; reflexivity|]. split; [|done].
  cbn [log]. rewrite !not_elem_of_cons. repeat split; try discriminate. apply not_elem_of_nil.
Qed.

Lemma pipelined_not_aborted : Forall (not_aborted example_aborted) pipelined_events.
Proof. repeat constructor. discriminate. Qed.

Lemma connection_pipelined_witness :
  exists m : example_machine, written (log m) = [TrivialItem (str "first"); TrivialItem (str "second")] /\
    exists n part, 0 <= n /\
      written (log m) ++ unwritten (conn m) =
        (seqZ 0 n ≫= fun id => RespCoord.given id (outs (log m))) ++ part /\
      part `prefix_of` RespCoord.given n (outs (log m)) /\
      forall id, 0 <= id < n -> finalized id (outs (log m)).
Proof.
  destruct pipelined_run as (m & Hrun & Hopen & Hreg & Hended & Hw). exists m. split; [exact Hw|].
  eapply (connection_pipelined pipelined_settings 1 no_throw 64 example_aborted example_eof 0
    pipelined_events m); [lia | exact Hrun | exact pipelined_not_aborted | exact Hopen | rewrite Hreg; lia | exact Hended].
Defined.
