(* ===== verification/ConnFaults.v ===== *)
(** * Where a connection does not do what it means to

    Runs and laws of [Connection] that show behaviour the comments of
    [restinio/impl/connection.hpp] do not expect: an upgrade request that was
    answered is handled again after every response, a flag kept from an
    earlier write registers a request that has no place, an assertion fails,
    and a message that has been read half is forgotten. The runs use the small
    parser of [Connection]; the settings are the defaults, one request at a time. *)

From S2P Require Import Prelude Effects Handlers InputBuffer Sendfile WriteGroup OutputCtx RespCoord Headers.
From S2P Require Import ParserCallbacks Connection ConnSafety.

Section Faults.
Context {P : Type} `{HP : HttpParser P} {Other : OtherExceptions}.
Context (st : settings_t) (http_method_get : Z).
Context (cb_throws : notificator -> error_code -> bool) (asio_max_iov_len : Z).
Context (operation_aborted eof : error_code).

Hypothesis no_others : forall n ec, throws_other n ec = false.

Lemma throw_other_nothing cs : throw_other (P := P) cs = mret tt.
Proof.
  unfold throw_other. destruct (existsb _ cs) eqn:E; [|done].
  apply existsb_exists in E as (x & _ & Hx). by rewrite no_others in Hx.
Qed.

(** The request a handler is given, made of the parser context. *)
Definition request_of (id : Z) (ctx : http_parser_ctx_t) : request_t :=
  {| r_request_id := id; r_target := m_target ctx; r_header := m_header ctx;
     r_method := m_header_method ctx; r_connection := m_header_connection ctx;
     r_body := m_body ctx;
     r_chunked_input_info := (make_chunked_input_info_if_necessary ctx).1 |}.

(** The stage of an upgrade never goes back: when the response to an
    upgrade request has been written and no other request is waiting, the end
    of the write registers a request again and calls the handler again, with
    whatever the parser context holds, although no request was received; nothing is read. *)
Theorem answered_upgrade_is_handled_again now (c : @connection_t P) wg id q
  (Hwg : OutputCtx.m_current_wg (m_write_output_ctx c) = Some wg)
  (Hok : forall n, cb_throws n no_error = false)
  (Hstage : stage c <> stage_none) (Hopen : closed c = false) (Hempty : is_empty c = true)
  (Hreg : Coordinator.register_new_request (m_response_coordinator c) = Ok (id, q)) :
  exists c', finish_handling_current_write_ctx st cb_throws now c =
    (Ok [FHandler id true], c',
     notified ((fun n => (n, no_error)) <$> pending wg) ++
     [CoordinatorDid (Registered id); CallHandler (request_of id (m_parser_ctx (m_input c)))]) /\
  stage c' = wait_for_upgrade_handling_result_or_nothing /\
  m_init_read_after_this_write c' = m_init_read_after_this_write c.
Proof.
  unfold finish_handling_current_write_ctx, output_notifying, mbind, act_bind, gets, notify, emits,
    modify, mret, act_ret.
  rewrite (finish_write_group_eq cb_throws _ wg) by done.
  replace (existsb _ (pending wg)) with false
    by (unfold pending; destruct (m_after_write_notificator wg); cbn; by rewrite ?Hok).
  rewrite throw_other_nothing. unfold mret, act_ret. cbn [fst snd app].
  change (closed (set_output _ c)) with (closed c). rewrite Hopen. cbn [negb].
  change (stage (set_output _ c)) with (stage c).
  rewrite bool_decide_eq_false_2 by congruence.
  change (is_empty (set_output _ c)) with (is_empty c). rewrite Hempty.
  unfold handle_upgrade_request, register_new_request, coordinator, mbind, act_bind, gets, modify, emit,
    notify, emits, mret, act_ret. cbn [run_op q_register coordinator_queue].
  change (m_response_coordinator (set_output _ c)) with (m_response_coordinator c). rewrite Hreg.
  unfold cancel_timeout_checking, call_handler, mbind, act_bind, gets, modify, emit, mret, act_ret.
  destruct (make_chunked_input_info_if_necessary _) as [chunked ctx'] eqn:Ech.
  eexists. split; [|split].
  - unfold request_of. cbn. change (m_parser_ctx (m_input c)) with (m_parser_ctx (m_input c)) in Ech.
    cbn in Ech. rewrite Ech. cbn. rewrite !app_nil_r. reflexivity.
  - reflexivity.
  - reflexivity.
Qed.

(** What a group that is refused is told. *)
Definition refused (wg : write_group_t) : list effect :=
  notified ((fun n => (n, restinio_error write_was_not_executed)) <$> pending wg).

Lemma write_refused id flags wg now (c : @connection_t P) :
  m_socket_is_open c = false ->
  write_response_parts_impl cb_throws id flags wg now c =
    (Ok [], c, refused wg).
Proof.
  intros Hc. unfold write_response_parts_impl, refused, invoke_after_write_cb_with_error, notify, emits,
    mbind, act_bind, gets. rewrite Hc.
  destruct (invoke_after_write_notificator_if_exists _ wg _) as [[wg' cs] threw] eqn:E.
  apply invoke_calls in E as (-> & Hp & _). rewrite (wg_destroy_clean _ _ Hp).
  rewrite throw_other_nothing. cbn. by rewrite !app_nil_r.
Qed.

(** A response given after the socket was closed is refused: its
    notificator is called at once with [write_was_not_executed], and neither
    the connection nor the operations in progress change. *)
Theorem closed_connection_refuses (m : @machine P) id flags wg
  (Hs : stack m = []) (Hd : destroyed m = false) (Hu : uncaught m = None)
  (Hclosed : m_socket_is_open (conn m) = false) :
  exists m', run_events st http_method_get cb_throws asio_max_iov_len operation_aborted eof m
      [EResponse id flags wg; ERun; ERun] = Some m' /\
    stack m' = [] /\ conn m' = conn m /\ uncaught m' = None /\
    log m' = log m ++ refused wg /\
    (reads m', writes m', sendfiles m') = (reads m, writes m, sendfiles m).
Proof.
  assert (Hidle : forall m : @machine P, destroyed m = false -> uncaught m = None ->
    destroyed m || bool_decide (is_Some (uncaught m)) = false).
  { intros m0 -> ->. by rewrite bool_decide_eq_false_2 by (by intros []). }
  cbn [run_events]. unfold step at 1. rewrite (Hidle m), Hs by done. cbn [outside].
  unfold step at 1. rewrite Hidle by done. cbn [write_response_parts stack run_frame].
  unfold enter at 1. cbn [with_stack write_response_parts conn clock].
  rewrite write_refused by done. cbn [app].
  unfold step at 1. rewrite Hidle by done.
  cbn [record stack]. eexists. split; [reflexivity|]. cbn.
  unfold refused. rewrite Hs, !count_notified, app_nil_r, !Nat.add_0_r by done. done.
Qed.

End Faults.

(** ** Runs *)

#[local] Existing Instance no_other_exceptions.

Definition answer (id : Z) (c : response_connection_attr_t) (s : string) : event :=
  EHandlerWrites id (response c) (text_group s None).

(** The targets of the requests the handler was called with. *)
Definition targets (es : list effect) : list bytes :=
  es ≫= fun e => match e with CallHandler r => [Target.m_request_target (r_target r)] | _ => [] end.
Definition texts (es : list effect) : list (list bytes) :=
  es ≫= fun e => match e with AsyncWrite bufs => [bufs] | _ => [] end.
Definition asserted (es : list effect) : bool :=
  existsb (fun e => match e with AssertionFailed => true | _ => false end) es.
Definition errors (es : list effect) : list connection_error_t :=
  es ≫= fun e => match e with LogError e => [e] | _ => [] end.

(** One upgrade request is received and answered; its handler is called again
    after every response, with an empty request. *)
Example upgrade_run :
  exists m, example_script
      [EReadDone no_error (line "U"); answer 0 connection_keepalive "r0"; EHandlerReturns accepted;
       EWriteDone no_error; answer 1 connection_keepalive "r1"; EHandlerReturns accepted;
       EWriteDone no_error] = Some m /\
    targets (log m) = [str "U"; []; []] /\ texts (log m) = [[str "r0"]; [str "r1"]] /\ errors (log m) = [].
Proof. vm_compute. eexists. split; [reflexivity|]. repeat split. Qed.

(** Three requests in one segment, answered by their handlers. The flag that asks
    for a read after the first write is still set when that write ends,
    although the second request has been read: the third request is registered while
    the table is full, the connection is closed and the second response lost. *)
Example third_request_closes :
  exists m, example_script
      [EReadDone no_error (line "a" ++ line "b" ++ line "c");
       answer 0 connection_keepalive "r0"; EHandlerReturns accepted;
       answer 1 connection_keepalive "r1"; EHandlerReturns accepted; EWriteDone no_error] = Some m /\
    targets (log m) = [str "a"; str "b"] /\ texts (log m) = [[str "r0"]] /\
    errors (log m) = [unexpected_exception (coordinator_exception context_table_is_full)] /\
    m_socket_is_open (conn m) = false.
Proof. vm_compute. eexists. split; [reflexivity|]. repeat split. Qed.

(** The response to the first request comes late; the end of its write reads the
    second request, whose handler answers with [connection_close] at once, and
    [init_write_if_necessary] is entered with a closed coordinator. *)
Example closed_coordinator_asserted :
  exists m, example_script
      [EReadDone no_error (line "a" ++ line "b"); EHandlerReturns accepted;
       EResponse 0 (response connection_keepalive) (text_group "r0" None); EWriteDone no_error;
       answer 1 connection_close "r1"; EHandlerReturns accepted] = Some m /\
    asserted (log m) = true.
Proof. vm_compute. eexists. by split. Qed.

(** The second request arrives in two parts, the first while the first response is
    being written: the end of the write resets the parser, and the handler is
    given the target [c] instead of [bc]. *)
Example half_read_request_is_cut :
  exists m, example_script
      [EReadDone no_error (line "a"); answer 0 connection_keepalive "r0"; EHandlerReturns accepted;
       EReadDone no_error (str "b"); EWriteDone no_error; EReadDone no_error (line "c")] = Some m /\
    targets (log m) = [str "a"; str "c"] /\ errors (log m) = [].
Proof. vm_compute. eexists. split; [reflexivity|]. repeat split. Qed.

(** The upgrade request has been answered, the response is being written. *)
Lemma answered_upgrade_state :
  exists m wg q, example_script [EReadDone no_error (line "U"); answer 0 connection_keepalive "r0";
      EHandlerReturns accepted] = Some m /\
    OutputCtx.m_current_wg (m_write_output_ctx (conn m)) = Some wg /\
    stage (conn m) = wait_for_upgrade_handling_result_or_nothing /\
    closed (conn m) = false /\ is_empty (conn m) = true /\
    Coordinator.register_new_request (m_response_coordinator (conn m)) = Ok (1, q).
Proof.
  do 3 eexists. split; [vm_compute; reflexivity|]. vm_compute. repeat split.
Qed.

Lemma answered_upgrade_is_handled_again_witness :
  exists (m : example_machine) c',
    (finish_handling_current_write_ctx example_settings no_throw 0 (conn m)).1 = (Ok [FHandler 1 true], c').
Proof.
  destruct answered_upgrade_state as (m & wg & q & _ & Hwg & Hs & Hc & He & Hr). exists m.
  destruct (answered_upgrade_is_handled_again (Other := no_other_exceptions) example_settings no_throw
    (fun _ _ => eq_refl) 0 (conn m) wg 1 q Hwg
    (fun _ => eq_refl) ltac:(rewrite Hs; discriminate) Hc He Hr) as (c' & -> & _).
  by exists c'.
Defined.

(** The handler has not answered in time. *)
Lemma closed_state :
  exists m, example_script [EReadDone no_error (line "a"); EHandlerReturns accepted;
      ETick 11; ETimerExpires; ECheckTimeout] = Some m /\
    stack m = [] /\ destroyed m = false /\ uncaught m = None /\ m_socket_is_open (conn m) = false.
Proof. vm_compute. eexists. split; [reflexivity|]. repeat split. Qed.

Lemma closed_connection_refuses_witness :
  exists (m m' : example_machine),
    run_events example_settings 1 no_throw 64 example_aborted example_eof m
      [EResponse 0 (response connection_keepalive) (text_group "late" (Some 7%nat)); ERun; ERun] = Some m' /\
    log m' = log m ++ [Notified 7%nat (restinio_error write_was_not_executed)].
Proof.
  destruct closed_state as (m & _ & Hs & Hd & Hu & Hc). exists m.
  destruct (closed_connection_refuses (Other := no_other_exceptions) example_settings 1 no_throw 64 example_aborted
    example_eof (fun _ _ => eq_refl) m 0
    (response connection_keepalive) (text_group "late" (Some 7%nat)) Hs Hd Hu Hc) as (m' & H & _ & _ & _ & Hl & _).
  exists m'. split; [exact H | exact Hl].
Defined.
