(* ===== verification/WsConnection.v ===== *)
(** * The WebSocket connection

    [ws_connection_t] of [restinio/websocket/impl/ws_connection.hpp] and the
    handle [ws_t] with [upgrade] of [restinio/websocket/websocket.hpp]: reading
    frames over the parser and the validator, giving messages to the user's
    handler, the outgoing queue, the close handshake, timeouts.

    As in [Connection], methods are written in the monad of [Effects] and return
    the [frame]s still to run, and a [machine] keeps the frames, so that a
    handler that calls back into the handle, and exceptions, happen where they do
    in the code. Completions, timers and the user are the events of the machine.
    Log messages of level trace and warning are left out. The longest string the
    standard library allows is a parameter, and which notificators throw. The [try] blocks
    catch [const std::exception &] only: an exception of the user that is not derived from
    it ends the program, unless it is thrown where [trigger_error_and_close] suppresses all. *)

From S2P Require Import Prelude Effects InputBuffer Sendfile WriteGroup OutputCtx Headers Sha1 Base64.
From S2P Require Import WsParser WsValidator.

Module Ws.

(** ** State *)

(*@ websocket/impl/ws_connection.hpp 1381-1387 ws_connection_t::write_state_t *)
Inductive write_state_t : Type := write_enabled | write_disabled.

(*@ websocket/impl/ws_connection.hpp 1393-1401 ws_connection_t::read_state_t *)
Inductive read_state_t : Type := read_any_frame | read_only_close_frame | read_nothing.

#[global] Instance write_state_eq_dec : EqDecision write_state_t.
Proof. solve_decision. Defined.
#[global] Instance read_state_eq_dec : EqDecision read_state_t.
Proof. solve_decision. Defined.

(*@ websocket/message.hpp 85-98 status_code_t *)
Definition normal_closure : Z := 1000.
Definition protocol_error : Z := 1002.
Definition connection_lost : Z := 1006.
Definition invalid_message_data : Z := 1007.
Definition unexpected_condition : Z := 1011.

(** The operation that [async_read_some] was started for: a part of a header,
    or of the payload, at a position of its memory. *)
Inductive read_op : Type :=
| ReadHeader
| ReadPayload (offset length_remaining : nat) (do_validate_payload_and_call_msg_handler : bool).

Inductive exception_t : Type :=
| parser_exception (e : ws_exception)
| output_exception (e : OutputCtx.output_error)
| length_error
| sendfile_not_implemented
| other_exception.

(** All exceptions of the library are; [other_exception] is one of the user's code that is not. *)
Definition derives_from_std (e : exception_t) : bool :=
  match e with other_exception => false | _ => true end.

(** Why [trigger_error_and_close] was called. *)
Inductive close_reason : Type :=
| read_error (ec : error_code)
| write_error (ec : error_code)
| exception_caught (e : exception_t).

Inductive effect : Type :=
| AsyncRead (op : read_op)
| AsyncWrite (bufs : list bytes)
| Appended (wg : write_group_t) (is_close_frame : bool)
| SocketShutdown
| SocketClose
| CallHandler (m : message_t)
| Notified (n : notificator) (ec : error_code)
| LogError (r : close_reason)
| LogNotificatorError
| LogHandlerError
| LogSuppressed
| SendRefused
| AssertionFailed.

(** What is still to be done by the methods that have not returned. [FTry] ends a
    [try] block whose handler calls [trigger_error_and_close], [FLogTry] one whose
    handler only logs; [FSuppress] ends a block of [suppress_exceptions]. *)
Inductive frame : Type :=
| FTry
| FLogTry
| FSuppress
| FHandler
| FStartReadHeader
| FSkipPayload (offset next_length_remaining : nat)
| FInitWriteIfNecessary
| FCurrentWriteCtx
| FDisableWrites
| FStartWaitingCloseFrameOnly
| FCallCloseHandler (status : Z)
| FCloseImpl
| FSetReadNothing
| FDeliver
| FReadNext
| FFailWriteGroup (ec : error_code).

(** The clock, and whether the user still has the [ws_t]. *)
Record env : Type := mk_env { now : Z; ws_exists : bool }.

(*@ websocket/impl/ws_connection.hpp 88-113 connection_input_t *)
Record connection_input_t : Type := mk_input {
  m_parser : ws_parser_t;
  m_buf : FixedBuffer.fixed_buffer_t;
  m_payload : bytes }.

(** A [one_shot_action_t] is whether it has not been executed yet;
    [time_point::max()] is [None]. *)
(*@ websocket/impl/ws_connection.hpp 1358-1439 ws_connection_t *)
Record ws_connection_t : Type := mk_connection {
  m_socket_is_open : bool;
  m_input : connection_input_t;
  m_protocol_validator : ws_protocol_validator_t;
  m_write_output_ctx : OutputCtx.t;
  m_outgoing_data : list write_group_t;
  m_websocket_weak_handle : bool;
  m_write_state : write_state_t;
  m_read_state : read_state_t;
  m_close_frame_to_user : bool;
  m_close_frame_to_peer : bool;
  m_close_impl : bool;
  m_write_operation_timeout_after : Z;
  m_close_frame_from_peer_timeout_after : option Z;
  m_timer_guard : timer_guard_t }.

Section Setters.
Implicit Types c : ws_connection_t.

Definition set_socket b c :=
  mk_connection b (m_input c) (m_protocol_validator c) (m_write_output_ctx c) (m_outgoing_data c)
    (m_websocket_weak_handle c) (m_write_state c) (m_read_state c) (m_close_frame_to_user c)
    (m_close_frame_to_peer c) (m_close_impl c) (m_write_operation_timeout_after c)
    (m_close_frame_from_peer_timeout_after c) (m_timer_guard c).
Definition set_input i c :=
  mk_connection (m_socket_is_open c) i (m_protocol_validator c) (m_write_output_ctx c) (m_outgoing_data c)
    (m_websocket_weak_handle c) (m_write_state c) (m_read_state c) (m_close_frame_to_user c)
    (m_close_frame_to_peer c) (m_close_impl c) (m_write_operation_timeout_after c)
    (m_close_frame_from_peer_timeout_after c) (m_timer_guard c).
Definition set_validator v c :=
  mk_connection (m_socket_is_open c) (m_input c) v (m_write_output_ctx c) (m_outgoing_data c)
    (m_websocket_weak_handle c) (m_write_state c) (m_read_state c) (m_close_frame_to_user c)
    (m_close_frame_to_peer c) (m_close_impl c) (m_write_operation_timeout_after c)
    (m_close_frame_from_peer_timeout_after c) (m_timer_guard c).
Definition set_output o c :=
  mk_connection (m_socket_is_open c) (m_input c) (m_protocol_validator c) o (m_outgoing_data c)
    (m_websocket_weak_handle c) (m_write_state c) (m_read_state c) (m_close_frame_to_user c)
    (m_close_frame_to_peer c) (m_close_impl c) (m_write_operation_timeout_after c)
    (m_close_frame_from_peer_timeout_after c) (m_timer_guard c).
Definition set_outgoing q c :=
  mk_connection (m_socket_is_open c) (m_input c) (m_protocol_validator c) (m_write_output_ctx c) q
    (m_websocket_weak_handle c) (m_write_state c) (m_read_state c) (m_close_frame_to_user c)
    (m_close_frame_to_peer c) (m_close_impl c) (m_write_operation_timeout_after c)
    (m_close_frame_from_peer_timeout_after c) (m_timer_guard c).
Definition set_weak_handle b c :=
  mk_connection (m_socket_is_open c) (m_input c) (m_protocol_validator c) (m_write_output_ctx c)
    (m_outgoing_data c) b (m_write_state c) (m_read_state c) (m_close_frame_to_user c)
    (m_close_frame_to_peer c) (m_close_impl c) (m_write_operation_timeout_after c)
    (m_close_frame_from_peer_timeout_after c) (m_timer_guard c).
Definition set_write_state w c :=
  mk_connection (m_socket_is_open c) (m_input c) (m_protocol_validator c) (m_write_output_ctx c)
    (m_outgoing_data c) (m_websocket_weak_handle c) w (m_read_state c) (m_close_frame_to_user c)
    (m_close_frame_to_peer c) (m_close_impl c) (m_write_operation_timeout_after c)
    (m_close_frame_from_peer_timeout_after c) (m_timer_guard c).
Definition set_read_state r c :=
  mk_connection (m_socket_is_open c) (m_input c) (m_protocol_validator c) (m_write_output_ctx c)
    (m_outgoing_data c) (m_websocket_weak_handle c) (m_write_state c) r (m_close_frame_to_user c)
    (m_close_frame_to_peer c) (m_close_impl c) (m_write_operation_timeout_after c)
    (m_close_frame_from_peer_timeout_after c) (m_timer_guard c).
(** [disable()], and what [run_if_first] does before the action. *)
Definition user_done c :=
  mk_connection (m_socket_is_open c) (m_input c) (m_protocol_validator c) (m_write_output_ctx c)
    (m_outgoing_data c) (m_websocket_weak_handle c) (m_write_state c) (m_read_state c) false
    (m_close_frame_to_peer c) (m_close_impl c) (m_write_operation_timeout_after c)
    (m_close_frame_from_peer_timeout_after c) (m_timer_guard c).
Definition peer_done c :=
  mk_connection (m_socket_is_open c) (m_input c) (m_protocol_validator c) (m_write_output_ctx c)
    (m_outgoing_data c) (m_websocket_weak_handle c) (m_write_state c) (m_read_state c)
    (m_close_frame_to_user c) false (m_close_impl c) (m_write_operation_timeout_after c)
    (m_close_frame_from_peer_timeout_after c) (m_timer_guard c).
Definition close_done c :=
  mk_connection (m_socket_is_open c) (m_input c) (m_protocol_validator c) (m_write_output_ctx c)
    (m_outgoing_data c) (m_websocket_weak_handle c) (m_write_state c) (m_read_state c)
    (m_close_frame_to_user c) (m_close_frame_to_peer c) false (m_write_operation_timeout_after c)
    (m_close_frame_from_peer_timeout_after c) (m_timer_guard c).
Definition set_write_timeout t c :=
  mk_connection (m_socket_is_open c) (m_input c) (m_protocol_validator c) (m_write_output_ctx c)
    (m_outgoing_data c) (m_websocket_weak_handle c) (m_write_state c) (m_read_state c)
    (m_close_frame_to_user c) (m_close_frame_to_peer c) (m_close_impl c) t
    (m_close_frame_from_peer_timeout_after c) (m_timer_guard c).
Definition set_close_timeout t c :=
  mk_connection (m_socket_is_open c) (m_input c) (m_protocol_validator c) (m_write_output_ctx c)
    (m_outgoing_data c) (m_websocket_weak_handle c) (m_write_state c) (m_read_state c)
    (m_close_frame_to_user c) (m_close_frame_to_peer c) (m_close_impl c)
    (m_write_operation_timeout_after c) t (m_timer_guard c).
Definition set_timer t c :=
  mk_connection (m_socket_is_open c) (m_input c) (m_protocol_validator c) (m_write_output_ctx c)
    (m_outgoing_data c) (m_websocket_weak_handle c) (m_write_state c) (m_read_state c)
    (m_close_frame_to_user c) (m_close_frame_to_peer c) (m_close_impl c)
    (m_write_operation_timeout_after c) (m_close_frame_from_peer_timeout_after c) t.

Definition set_parser p c := set_input (mk_input p (m_buf (m_input c)) (m_payload (m_input c))) c.
Definition set_buf b c := set_input (mk_input (m_parser (m_input c)) b (m_payload (m_input c))) c.
Definition set_payload d c := set_input (mk_input (m_parser (m_input c)) (m_buf (m_input c)) d) c.
End Setters.

Definition transmitting (c : ws_connection_t) : bool := OutputCtx.transmitting (m_write_output_ctx c).

Section Connection.
Context (st : Z * Z) (string_max_size : Z).
Context (cb_throws : notificator -> error_code -> bool) {Other : OtherExceptions} (asio_max_iov_len : Z).

(** The members of [connection_settings_t] it reads. *)
Abbreviation m_write_http_response_timelimit := (fst st).
Abbreviation m_read_next_http_message_timelimit := (snd st).

Abbreviation meth := (act env ws_connection_t effect exception_t).

(*@ websocket/impl/ws_connection.hpp 40-45 websocket_header_max_size *)
Definition websocket_header_max_size : nat := 14.

(*@ websocket/impl/ws_connection.hpp 142-183 ws_connection_t::ws_connection_t *)
Definition connection_create : ws_connection_t :=
  {| m_socket_is_open := true;
     m_input := mk_input parser_reset (FixedBuffer.buffer_create websocket_header_max_size) [];
     m_protocol_validator := new_validator true;
     m_write_output_ctx := OutputCtx.create; m_outgoing_data := [];
     m_websocket_weak_handle := false; m_write_state := write_enabled; m_read_state := read_nothing;
     m_close_frame_to_user := true; m_close_frame_to_peer := true; m_close_impl := true;
     m_write_operation_timeout_after := 0; m_close_frame_from_peer_timeout_after := None;
     m_timer_guard := mk_timer false 0 |}.

Definition notify (cs : calls) : meth unit := emits ((fun c => Notified (fst c) (snd c)) <$> cs).

(** One operation of the output context, and the same as a call that throws. *)
Definition output_result {A} (f : OutputCtx.t -> result OutputCtx.output_error A * OutputCtx.t * calls)
    : meth (result OutputCtx.output_error A) :=
  o ← gets m_write_output_ctx;
  let '(r, o', cs) := f o in
  modify (set_output o');; notify cs;; mret r.
Definition output {A} (f : OutputCtx.t -> result OutputCtx.output_error A * OutputCtx.t * calls) : meth A :=
  r ← output_result f;
  match r with Ok a => mret a | Err e => throw (output_exception e) end.

(** An operation that calls a notificator outside of a destructor: what is not derived from
    [std::exception] goes through all of its handlers. *)
Definition throw_other (cs : calls) : meth unit :=
  if existsb (fun c => throws_other (fst c) (snd c)) cs then throw other_exception else mret tt.
Definition output_notifying {A} (f : OutputCtx.t -> result OutputCtx.output_error A * OutputCtx.t * calls)
    : meth (result OutputCtx.output_error A) :=
  o ← gets m_write_output_ctx;
  let '(r, o', cs) := f o in
  modify (set_output o');; notify cs;; throw_other cs;; mret r.

(** [one_shot_action_t::run_if_first] *)
(*@ websocket/impl/ws_connection.hpp 1408-1431 ws_connection_t::one_shot_action_t::run_if_first *)
Definition run_if_first (first : ws_connection_t -> bool) (done : ws_connection_t -> ws_connection_t)
    (action : meth (list frame)) : meth (list frame) :=
  not_executed_yet ← gets first;
  if not_executed_yet : bool then modify done;; action else mret [].

(** ** The outgoing queue *)

(*@ websocket/impl/ws_connection.hpp 59-64 ws_outgoing_data_t::append *)
Definition append (wg : write_group_t) (is_close_frame : bool) : meth unit :=
  modify (fun c => set_outgoing (m_outgoing_data c ++ [wg]) c);; emit (Appended wg is_close_frame).

(*@ websocket/impl/ws_connection.hpp 66-78 ws_outgoing_data_t::pop_ready_buffers *)
Definition pop_ready_buffers : meth (option write_group_t) :=
  q ← gets m_outgoing_data;
  match q with
  | [] => mret None
  | wg :: q => modify (set_outgoing q);; mret (Some wg)
  end.

(** ** Timeouts *)

(*@ websocket/impl/ws_connection.hpp 1337-1341 ws_connection_t::init_next_timeout_checking *)
Definition init_next_timeout_checking : meth unit :=
  modify (fun c => set_timer (timer_schedule (m_timer_guard c)) c).

(*@ websocket/impl/ws_connection.hpp 1344-1349 ws_connection_t::guard_write_operation *)
Definition guard_write_operation : meth unit :=
  e ← ask; modify (set_write_timeout (now e + m_write_http_response_timelimit)).

(*@ websocket/impl/ws_connection.hpp 1351-1356 ws_connection_t::guard_close_frame_from_peer_operation *)
Definition guard_close_frame_from_peer_operation : meth unit :=
  e ← ask; modify (set_close_timeout (Some (now e + m_read_next_http_message_timelimit))).

(** ** Closing *)

(*@ websocket/impl/ws_connection.hpp 370-401 ws_connection_t::close_impl *)
Definition close_impl : meth (list frame) :=
  run_if_first m_close_impl close_done
    (emit SocketShutdown;; modify (set_socket false);; emit SocketClose;; mret []).

(*@ websocket/impl/ws_connection.hpp 404-409 ws_connection_t::start_waiting_close_frame_only *)
Definition start_waiting_close_frame_only : meth (list frame) :=
  modify (set_read_state read_only_close_frame);; guard_close_frame_from_peer_operation;; mret [].

(** The end of the method is [FDisableWrites]. *)
(*@ websocket/impl/ws_connection.hpp 423-442 ws_connection_t::send_close_frame_to_peer *)
Definition send_close_frame_to_peer (payload : bytes) : meth (list frame) :=
  append (write_group
    [TrivialItem (write_message_details_of final_frame connection_close_frame (Z.of_nat (length payload)));
     TrivialItem payload]) true;;
  mret [FInitWriteIfNecessary; FDisableWrites].

(*@ websocket/impl/ws_connection.hpp 445-451 ws_connection_t::send_close_frame_to_peer *)
Definition send_close_code_to_peer (code : Z) : meth (list frame) :=
  send_close_frame_to_peer (status_code_to_bin code).

(*@ websocket/impl/ws_connection.hpp 412-420 ws_connection_t::graceful_close *)
Definition graceful_close : meth (list frame) :=
  run_if_first m_close_frame_to_peer peer_done
    (fs ← send_close_code_to_peer normal_closure; mret (fs ++ [FStartWaitingCloseFrameOnly])).

(** The handler runs as the frame [FHandler]; what it throws is logged. *)
(*@ websocket/impl/ws_connection.hpp 815-836 ws_connection_t::call_message_handler *)
Definition call_message_handler (m : message_t) : meth (list frame) :=
  e ← ask; assigned ← gets m_websocket_weak_handle;
  if (assigned : bool) && ws_exists e then emit (CallHandler m);; mret [FHandler] else mret [].

(*@ websocket/impl/ws_connection.hpp 1002-1013 ws_connection_t::call_close_handler_if_necessary *)
Definition call_close_handler_if_necessary (status : Z) : meth (list frame) :=
  run_if_first m_close_frame_to_user user_done
    (call_message_handler (mk_message final_frame connection_close_frame (status_code_to_bin status))).

(** Whatever the call of the handler throws is suppressed. *)
(*@ websocket/impl/ws_connection.hpp 461-480 ws_connection_t::trigger_error_and_close *)
Definition trigger_error_and_close (status : Z) (r : close_reason) : meth (list frame) :=
  emit (LogError r);; mret [FCallCloseHandler status; FSuppress; FCloseImpl].

(*@ websocket/impl/ws_connection.hpp 207-241 ws_connection_t::shutdown *)
Definition shutdown : meth (list frame) := modify user_done;; graceful_close.

(*@ websocket/impl/ws_connection.hpp 243-280 ws_connection_t::kill *)
Definition kill : meth (list frame) := modify user_done;; modify peer_done;; close_impl.

(** ** Reading *)

(*@ websocket/impl/ws_connection.hpp 282-317 ws_connection_t::init_read *)
Definition init_read : meth (list frame) :=
  init_next_timeout_checking;;
  modify (set_weak_handle true);;
  modify (set_read_state read_any_frame);;
  mret [FStartReadHeader].

(*@ websocket/impl/ws_connection.hpp 509-542 ws_connection_t::consume_header_from_socket *)
Definition consume_header_from_socket : meth (list frame) := emit (AsyncRead ReadHeader);; mret [].

(*@ websocket/impl/ws_connection.hpp 545-558 ws_connection_t::handle_read_error *)
Definition handle_read_error (ec : error_code) : meth (list frame) :=
  trigger_error_and_close connection_lost (read_error ec).

(** The part [0 .. length) of the payload from [offset] on. *)
Definition payload_part (c : ws_connection_t) (offset length : nat) : bytes :=
  take length (drop offset (m_payload (m_input c))).
Definition store (offset : nat) (data : bytes) (c : ws_connection_t) : ws_connection_t :=
  let p := m_payload (m_input c) in
  set_payload (take offset p ++ data ++ drop (offset + length data) p) c.

(*@ websocket/impl/ws_connection.hpp 702-744 ws_connection_t::start_read_payload *)
Definition start_read_payload (offset length_remaining : nat) (do_validate : bool) : meth (list frame) :=
  emit (AsyncRead (ReadPayload offset length_remaining do_validate));; mret [].

(*@ websocket/impl/ws_connection.hpp 882-932 ws_connection_t::handle_invalid_payload *)
Definition handle_invalid_payload (validation_result : validation_state_t) : meth (list frame) :=
  rs ← gets m_read_state;
  if bool_decide (invalid_close_code = validation_result) then
    if bool_decide (read_any_frame = rs) then
      fs ← run_if_first m_close_frame_to_peer peer_done (send_close_code_to_peer protocol_error);
      mret (fs ++ [FCallCloseHandler protocol_error])
    else if bool_decide (read_only_close_frame = rs) then close_impl
    else mret []
  else if bool_decide (read_any_frame = rs) then
    fs ← run_if_first m_close_frame_to_peer peer_done
           (fs ← send_close_code_to_peer invalid_message_data; mret (fs ++ [FStartWaitingCloseFrameOnly]));
    mret (fs ++ [FCallCloseHandler invalid_message_data])
  else mret [].

(** Whether the part is valid, and what is left to be done when it is not. *)
(*@ websocket/impl/ws_connection.hpp 839-879 ws_connection_t::validate_payload_part *)
Definition validate_payload_part (offset length next_length_remaining : nat) : meth (bool * list frame) :=
  c ← gets id;
  '(validation_result, data, v) ←
    match process_and_unmask_next_payload_part (m_protocol_validator c) (payload_part c offset length) with
    | Ok r => mret r
    | Err e => throw (parser_exception e)
    end;
  modify (fun c => set_validator v (store offset data c));;
  if negb (bool_decide (payload_part_is_valid = validation_result)) then
    fs ← handle_invalid_payload validation_result;
    if bool_decide (incorrect_utf8_data = validation_result)
    then mret (false, fs ++ [FSkipPayload (offset + length) next_length_remaining])
    else mret (false, fs)
  else mret (true, []).

(** The payload moved into a message leaves an empty string. *)
Definition deliver : meth (list frame) :=
  c ← gets id;
  let md := current_message (m_parser (m_input c)) in
  modify (set_payload []);;
  call_message_handler
    (mk_message (if m_final_flag md then final_frame else not_final_frame) (m_opcode md) (m_payload (m_input c))).

(*@ websocket/impl/ws_connection.hpp 934-1000 ws_connection_t::call_handler_on_current_message *)
Definition call_handler_on_current_message : meth (list frame) :=
  c ← gets id;
  let md := current_message (m_parser (m_input c)) in
  let '(validation_result, v) := finish_frame (m_protocol_validator c) in
  modify (set_validator v);;
  if bool_decide (frame_is_valid = validation_result) then
    rs ← gets m_read_state;
    if bool_decide (read_any_frame = rs) then
      if connection_close_frame =? m_opcode md then
        modify user_done;;
        payload ← gets (fun c => m_payload (m_input c));
        fs ← run_if_first m_close_frame_to_peer peer_done (send_close_frame_to_peer payload);
        mret (fs ++ [FSetReadNothing; FDeliver; FReadNext])
      else
        fs ← deliver; mret (fs ++ [FReadNext])
    else
      (if bool_decide (read_only_close_frame = rs) then mret tt else emit AssertionFailed);;
      if connection_close_frame =? m_opcode md then
        modify (fun c => set_timer (timer_cancel (m_timer_guard c)) c);; close_impl
      else mret [FStartReadHeader]
  else handle_invalid_payload validation_result.

(** After a part of the payload: the next one, or the end. *)
Definition after_part (offset length next_length_remaining : nat) : meth (list frame) :=
  '(valid, fs) ← validate_payload_part offset length next_length_remaining;
  if (valid : bool) then
    if (0 =? next_length_remaining)%nat then call_handler_on_current_message
    else start_read_payload (offset + length) next_length_remaining true
  else mret fs.

(*@ websocket/impl/ws_connection.hpp 650-699 ws_connection_t::handle_parsed_and_valid_header *)
Definition handle_parsed_and_valid_header (md : message_details_t) : meth (list frame) :=
  let payload_length := payload_len md in
  if string_max_size <? payload_length then throw length_error
  else
    let payload_length := Z.to_nat payload_length in
    modify (fun c => set_payload (take payload_length (m_payload (m_input c)) ++
              replicate (payload_length - length (m_payload (m_input c))) 0) c);;
    if (payload_length =? 0)%nat then call_handler_on_current_message
    else
      b ← gets (fun c => m_buf (m_input c));
      let payload_part_size := Nat.min (Z.to_nat (FixedBuffer.m_ready_length b)) payload_length in
      modify (store 0 (take payload_part_size (FixedBuffer.bytes_from b)));;
      modify (set_buf (FixedBuffer.consumed_bytes b (Z.of_nat payload_part_size)));;
      after_part 0 payload_part_size (payload_length - payload_part_size).

(*@ websocket/impl/ws_connection.hpp 604-647 ws_connection_t::handle_parsed_header *)
Definition handle_parsed_header (md : message_details_t) : meth (list frame) :=
  c ← gets id;
  match process_new_frame (m_protocol_validator c) md with
  | Err e => throw (parser_exception e)
  | Ok (validation_result, v) =>
      modify (set_validator v);;
      if negb (bool_decide (frame_header_is_valid = validation_result)) then
        if bool_decide (read_any_frame = m_read_state c) then
          fs ← run_if_first m_close_frame_to_peer peer_done (send_close_code_to_peer protocol_error);
          mret (fs ++ [FCallCloseHandler protocol_error])
        else if bool_decide (read_only_close_frame = m_read_state c) then close_impl
        else mret []
      else handle_parsed_and_valid_header md
  end.

(** [length] bytes from the first unconsumed one on. *)
(*@ websocket/impl/ws_connection.hpp 585-601 ws_connection_t::consume_header_from_buffer *)
Definition consume_header_from_buffer (length : nat) : meth (list frame) :=
  i ← gets m_input;
  match parser_execute (m_parser i) (take length (FixedBuffer.bytes_from (m_buf i))) with
  | Err e => throw (parser_exception e)
  | Ok (nparsed, p) =>
      modify (set_parser p);;
      modify (set_buf (FixedBuffer.consumed_bytes (m_buf i) (Z.of_nat nparsed)));;
      if header_parsed p then handle_parsed_header (current_message p)
      else
        (if (nparsed =? length)%nat then mret tt else emit AssertionFailed);;
        consume_header_from_socket
  end.

(*@ websocket/impl/ws_connection.hpp 484-506 ws_connection_t::start_read_header *)
Definition start_read_header : meth (list frame) :=
  modify (set_parser parser_reset);; modify (set_payload []);;
  length ← gets (fun c => FixedBuffer.m_ready_length (m_buf (m_input c)));
  if 0 =? length then consume_header_from_socket
  else consume_header_from_buffer (Z.to_nat length).

(** The data is what the operation put into the buffer. *)
(*@ websocket/impl/ws_connection.hpp 561-582 ws_connection_t::after_read_header *)
Definition after_read_header (ec : error_code) (data : bytes) : meth (list frame) :=
  if bool_decide (ec = no_error) then
    modify (fun c => set_buf (FixedBuffer.fill (m_buf (m_input c)) data) c);;
    modify (fun c => set_buf (FixedBuffer.obtained_bytes (m_buf (m_input c)) (Z.of_nat (length data))) c);;
    consume_header_from_buffer (length data)
  else handle_read_error ec.

(*@ websocket/impl/ws_connection.hpp 747-812 ws_connection_t::after_read_payload *)
Definition after_read_payload (offset length_remaining : nat) (do_validate : bool) (ec : error_code)
    (data : bytes) : meth (list frame) :=
  if bool_decide (ec = no_error) then
    modify (store offset data);;
    let next_length_remaining := (length_remaining - length data)%nat in
    if do_validate then after_part offset (length data) next_length_remaining
    else if (0 =? next_length_remaining)%nat then mret [FStartReadHeader]
    else start_read_payload (offset + length data) next_length_remaining do_validate
  else handle_read_error ec.

(** The end of [validate_payload_part] for a frame whose text is not UTF-8. *)
(*@ websocket/impl/ws_connection.hpp 852-874 ws_connection_t::validate_payload_part *)
Definition skip_payload (offset next_length_remaining : nat) : meth (list frame) :=
  modify (fun c => set_validator (WsValidator.reset (m_protocol_validator c)) c);;
  if (0 =? next_length_remaining)%nat then start_read_header
  else start_read_payload offset next_length_remaining false.

(** ** Writing *)

(** A group that is refused is destroyed with the lambda. *)
(*@ websocket/impl/ws_connection.hpp 1016-1060 ws_connection_t::write_data_impl *)
Definition write_data_impl (wg : write_group_t) (is_close_frame : bool) : meth (list frame) :=
  is_open ← gets m_socket_is_open;
  if is_open : bool then
    (if is_close_frame then
       modify peer_done;; modify user_done;; modify (set_write_state write_disabled);;
       _ ← start_waiting_close_frame_only; mret tt
     else mret tt);;
    append wg is_close_frame;; mret [FInitWriteIfNecessary]
  else
    let '(wg, cs, _) := invoke_after_write_notificator_if_exists cb_throws wg
                          (restinio_error write_was_not_executed) in
    notify cs;; notify (wg_destroy cb_throws wg);; mret [].

(*@ websocket/impl/ws_connection.hpp 319-363 ws_connection_t::write_data *)
Definition write_data (wg : write_group_t) (is_close_frame : bool) : meth (list frame) :=
  ws ← gets m_write_state;
  if bool_decide (write_enabled = ws) then write_data_impl wg is_close_frame
  else notify (wg_destroy cb_throws wg);; mret [].

(*@ websocket/impl/ws_connection.hpp 1074-1098 ws_connection_t::init_write *)
Definition init_write : meth (list frame) :=
  next_write_group ← pop_ready_buffers;
  match next_write_group with
  | Some wg =>
      output (fun o => let '(o, cs) := OutputCtx.start_next_write_group cb_throws o (Some wg) in (Ok tt, o, cs));;
      mret [FCurrentWriteCtx; FTry]
  | None => mret []
  end.

(*@ websocket/impl/ws_connection.hpp 1064-1071 ws_connection_t::init_write_if_necessary *)
Definition init_write_if_necessary : meth (list frame) :=
  t ← gets transmitting; if negb t then init_write else mret [].

(*@ websocket/impl/ws_connection.hpp 1139-1193 ws_connection_t::handle_trivial_write_operation *)
Definition handle_trivial_write_operation (bufs : list bytes) : meth (list frame) :=
  guard_write_operation;; emit (AsyncWrite bufs);; mret [].

(*@ websocket/impl/ws_connection.hpp 1196-1212 ws_connection_t::finish_handling_current_write_ctx *)
Definition finish_handling_current_write_ctx : meth (list frame) :=
  r ← output_notifying (OutputCtx.finish_write_group cb_throws);
  match r with Ok _ => mret tt | Err e => throw (output_exception e) end;;
  mret [FInitWriteIfNecessary].

(** The body of the [try] block; the block is [[FCurrentWriteCtx; FTry]]. *)
(*@ websocket/impl/ws_connection.hpp 1105-1137 ws_connection_t::handle_current_write_ctx *)
Definition handle_current_write_ctx : meth (list frame) :=
  wo ← output (fun o =>
    match OutputCtx.extract_next_write_operation asio_max_iov_len o with
    | Ok (wo, o') => (Ok wo, o', [])
    | Err e => (Err e, o, [])
    end);
  match wo with
  | OutputCtx.trivial_write_operation bufs _ => handle_trivial_write_operation bufs
  | OutputCtx.none_write_operation => finish_handling_current_write_ctx
  | OutputCtx.file_write_operation _ => throw sendfile_not_implemented
  end.

(*@ websocket/impl/ws_connection.hpp 1215-1247 ws_connection_t::after_write *)
Definition after_write (ec : error_code) : meth (list frame) :=
  if bool_decide (ec = no_error) then mret [FCurrentWriteCtx; FTry]
  else fs ← trigger_error_and_close connection_lost (write_error ec); mret (fs ++ [FFailWriteGroup ec]).

(** The end of [after_write]: what the notificator throws is logged. *)
Definition fail_write_group (ec : error_code) : meth (list frame) :=
  r ← output_notifying (fun o => OutputCtx.fail_write_group cb_throws o ec);
  match r with Ok _ => mret tt | Err _ => emit LogNotificatorError end;;
  mret [].

(** ** The timer *)

(*@ websocket/impl/ws_connection.hpp 1306-1334 ws_connection_t::check_timeout_impl *)
Definition check_timeout_impl : meth (list frame) :=
  e ← ask; c ← gets id;
  if transmitting c && (m_write_operation_timeout_after c <? now e) then
    modify peer_done;; mret [FCallCloseHandler unexpected_condition; FCloseImpl]
  else if (match m_close_frame_from_peer_timeout_after c with Some t => t <? now e | None => false end)
  then close_impl
  else init_next_timeout_checking;; mret [].

(*@ websocket/impl/ws_connection.hpp 1270-1298 ws_connection_t::check_timeout *)
Definition check_timeout : meth (list frame) := check_timeout_impl.

(** ** The machine *)

(** [reads] are the read operations that have not completed, [writes] how many
    write operations; [m_ws_connection_handle] tells whether the user's [ws_t]
    still has its pointer to the connection. *)
Record machine : Type := mk_machine {
  conn : ws_connection_t;
  stack : list frame;
  log : list effect;
  reads : list read_op;
  writes : nat;
  clock : Z;
  ws_alive : bool;
  m_ws_connection_handle : bool;
  activated : bool;
  given : list notificator;
  uncaught : option exception_t;
  destroyed : bool }.

Inductive event : Type :=
| EReadDone (ec : error_code) (data : bytes)
| EWriteDone (ec : error_code)
| ETimerExpires
| ECheckTimeout
| ETick (d : Z)
| EActivate
| ESendMessage (final_flag : final_frame_flag_t) (opcode : Z) (payload : writable_item_t) (wscb : option notificator)
| EShutdown
| EKill
| EDrop
| EHandlerReturns
| EHandlerThrows
| EHandlerThrowsOther
| ERun
| EDestroy.

Definition run_frame (f : frame) : meth (list frame) :=
  match f with
  | FStartReadHeader => start_read_header
  | FSkipPayload offset next => skip_payload offset next
  | FInitWriteIfNecessary => init_write_if_necessary
  | FCurrentWriteCtx => handle_current_write_ctx
  | FDisableWrites => modify (set_write_state write_disabled);; mret []
  | FStartWaitingCloseFrameOnly => start_waiting_close_frame_only
  | FCallCloseHandler status => call_close_handler_if_necessary status
  | FCloseImpl => close_impl
  | FSetReadNothing => modify (set_read_state read_nothing);; mret []
  | FDeliver => deliver
  | FReadNext =>
      rs ← gets m_read_state;
      if negb (bool_decide (read_nothing = rs)) then start_read_header else mret []
  | FFailWriteGroup ec => fail_write_group ec
  | FTry | FLogTry | FSuppress | FHandler => mret []
  end.

(** What is done about an exception that is caught. *)
Inductive catch_t : Type := closing | logging | suppressing.

(** The innermost handler. *)
Fixpoint unwind (fs : list frame) : option (catch_t * list frame) :=
  match fs with
  | [] => None
  | FTry :: rest => Some (closing, rest)
  | FLogTry :: rest => Some (logging, rest)
  | FSuppress :: rest => Some (suppressing, rest)
  | _ :: rest => unwind rest
  end.

(** Blocks that close or log catch [const std::exception &]. A method reaches such a block only
    inside a [noexcept] function, and between it and the block there is no other that
    suppresses, so that an exception of another kind is the end of the program. *)
Definition catches (k : catch_t) (ex : exception_t) : bool :=
  match k with suppressing => true | closing | logging => derives_from_std ex end.
Definition catch_frames (k : catch_t) : list frame :=
  match k with closing => [FCallCloseHandler unexpected_condition; FSuppress; FCloseImpl] | _ => [] end.
Definition catch_log (k : catch_t) (ex : exception_t) : effect :=
  match k with suppressing => LogSuppressed | _ => LogError (exception_caught ex) end.

Definition reads_of (es : list effect) : list read_op :=
  omap (fun e => match e with AsyncRead op => Some op | _ => None end) es.
Definition is_write (e : effect) : bool := match e with AsyncWrite _ => true | _ => false end.
Definition count (p : effect -> bool) (es : list effect) : nat := length (List.filter p es).

Definition record (m : machine) (c : ws_connection_t) (fs : list frame) (es : list effect)
    (ex : option exception_t) : machine :=
  {| conn := c; stack := fs; log := log m ++ es; reads := reads m ++ reads_of es;
     writes := writes m + count is_write es; clock := clock m; ws_alive := ws_alive m;
     m_ws_connection_handle := m_ws_connection_handle m; activated := activated m;
     given := given m; uncaught := ex; destroyed := destroyed m |}.

Definition env_of (m : machine) : env := mk_env (clock m) (ws_alive m).

(** Runs a method on top of the frames [rest]. *)
Definition enter (b : meth (list frame)) (rest : list frame) (m : machine) : machine :=
  match b (env_of m) (conn m) with
  | (Ok fs, c, es) => record m c (fs ++ rest) es None
  | (Err ex, c, es) =>
      match unwind rest with
      | Some (k, rest') =>
          if catches k ex then record m c (catch_frames k ++ rest') (es ++ [catch_log k ex]) None
          else record m c rest es (Some ex)
      | None => record m c [] es (Some ex)
      end
  end.

Definition with_stack (m : machine) (fs : list frame) : machine :=
  {| conn := conn m; stack := fs; log := log m; reads := reads m; writes := writes m; clock := clock m;
     ws_alive := ws_alive m; m_ws_connection_handle := m_ws_connection_handle m;
     activated := activated m; given := given m; uncaught := uncaught m; destroyed := destroyed m |}.
Definition with_ops (m : machine) (r : list read_op) (w : nat) : machine :=
  {| conn := conn m; stack := stack m; log := log m; reads := r; writes := w; clock := clock m;
     ws_alive := ws_alive m; m_ws_connection_handle := m_ws_connection_handle m;
     activated := activated m; given := given m; uncaught := uncaught m; destroyed := destroyed m |}.
Definition with_conn (m : machine) (c : ws_connection_t) : machine :=
  {| conn := c; stack := stack m; log := log m; reads := reads m; writes := writes m; clock := clock m;
     ws_alive := ws_alive m; m_ws_connection_handle := m_ws_connection_handle m;
     activated := activated m; given := given m; uncaught := uncaught m; destroyed := destroyed m |}.
Definition with_clock (m : machine) (t : Z) : machine :=
  {| conn := conn m; stack := stack m; log := log m; reads := reads m; writes := writes m; clock := t;
     ws_alive := ws_alive m; m_ws_connection_handle := m_ws_connection_handle m;
     activated := activated m; given := given m; uncaught := uncaught m; destroyed := destroyed m |}.
Definition with_user (m : machine) (alive handle act : bool) (g : list notificator) : machine :=
  {| conn := conn m; stack := stack m; log := log m; reads := reads m; writes := writes m; clock := clock m;
     ws_alive := alive; m_ws_connection_handle := handle;
     activated := act; given := g; uncaught := uncaught m; destroyed := destroyed m |}.
Definition with_log (m : machine) (es : list effect) : machine :=
  {| conn := conn m; stack := stack m; log := log m ++ es; reads := reads m; writes := writes m;
     clock := clock m; ws_alive := ws_alive m; m_ws_connection_handle := m_ws_connection_handle m;
     activated := activated m; given := given m; uncaught := uncaught m; destroyed := destroyed m |}.

(** *** What the user can do with the handle, also while the handler runs *)

(*@ websocket/websocket.hpp 87-95 ws_t::shutdown *)
Definition ws_shutdown (m : machine) : machine :=
  if m_ws_connection_handle m then
    enter shutdown (FLogTry :: stack m) (with_user m (ws_alive m) false (activated m) (given m))
  else m.

(*@ websocket/websocket.hpp 99-107 ws_t::kill *)
Definition ws_kill (m : machine) : machine :=
  if m_ws_connection_handle m then
    enter kill (FLogTry :: stack m) (with_user m (ws_alive m) false (activated m) (given m))
  else m.

(** The last reference to the handle is gone. *)
(*@ websocket/websocket.hpp 64-72 ws_t::~ws_t *)
Definition ws_destroy (m : machine) : machine :=
  ws_shutdown (with_user m false (m_ws_connection_handle m) (activated m) (given m)).

(** The two exceptions for the user are the effect [SendRefused]. *)
(*@ websocket/websocket.hpp 110-168 ws_t::send_message *)
Definition ws_send_message (m : machine) (final_flag : final_frame_flag_t) (opcode : Z)
    (payload : writable_item_t) (wscb : option notificator) : machine :=
  if m_ws_connection_handle m then
    match payload with
    | TrivialItem data =>
        let wg := write_group
          [TrivialItem (write_message_details (details final_flag opcode (Z.of_nat (length data)))); payload] in
        let wg := match wscb with Some n => after_write_notificator wg (Some n) | None => wg end in
        let is_close_frame := connection_close_frame =? opcode in
        enter (write_data wg is_close_frame) (FTry :: stack m)
          (with_user m (ws_alive m) (negb is_close_frame) (activated m) (given m ++ pending wg))
    | FileItem _ => with_log m [SendRefused]
    end
  else with_log m [SendRefused].

(** Once, and before the handle has lost its pointer. *)
(*@ websocket/websocket.hpp 47-50 activate *)
Definition activate (m : machine) : option machine :=
  if m_ws_connection_handle m && negb (activated m) then
    Some (enter init_read (FTry :: stack m) (with_user m (ws_alive m) true true (given m)))
  else None.

Definition user_event (m : machine) (e : event) : option machine :=
  if ws_alive m then
    match e with
    | EActivate => activate m
    | ESendMessage f o p cb => Some (ws_send_message m f o p cb)
    | EShutdown => Some (ws_shutdown m)
    | EKill => Some (ws_kill m)
    | EDrop => Some (ws_destroy m)
    | _ => None
    end
  else None.

Definition read_capacity (op : read_op) : nat :=
  match op with ReadHeader => websocket_header_max_size | ReadPayload _ n _ => n end.

Definition on_read (op : read_op) (ec : error_code) (data : bytes) : meth (list frame) :=
  match op with
  | ReadHeader => after_read_header ec data
  | ReadPayload offset remaining do_validate => after_read_payload offset remaining do_validate ec data
  end.

(** The groups destroyed with the connection: the queue, then the current one. *)
Definition connection_destroy (c : ws_connection_t) : calls :=
  (m_outgoing_data c ≫= wg_destroy cb_throws) ++
  from_option (wg_destroy cb_throws) [] (OutputCtx.m_current_wg (m_write_output_ctx c)).

(** What the environment does between two activations of the connection. *)
Definition outside (m : machine) (e : event) : option machine :=
  match e with
  | EReadDone ec data =>
      match reads m with
      | op :: ops =>
          if (length data <=? read_capacity op)%nat
          then Some (enter (on_read op ec data) [FTry] (with_ops m ops (writes m))) else None
      | [] => None
      end
  | EWriteDone ec =>
      if (0 <? writes m)%nat
      then Some (enter (after_write ec) [FTry] (with_ops m (reads m) (writes m - 1))) else None
  | ETimerExpires =>
      let t := m_timer_guard (conn m) in
      if t_waiting t
      then Some (with_conn m (set_timer (mk_timer false (t_queued t + 1)) (conn m))) else None
  | ECheckTimeout =>
      let t := m_timer_guard (conn m) in
      if (0 <? t_queued t)%nat
      then Some (enter check_timeout [FTry]
                   (with_conn m (set_timer (mk_timer (t_waiting t) (t_queued t - 1)) (conn m))))
      else None
  | ETick d => if 0 <=? d then Some (with_clock m (clock m + d)) else None
  | EDestroy =>
      if bool_decide (reads m = []) && (writes m =? 0)%nat && negb (m_ws_connection_handle m)
      then Some {| conn := conn m; stack := [];
                   log := log m ++ ((fun c => Notified (fst c) (snd c)) <$> connection_destroy (conn m));
                   reads := []; writes := 0; clock := clock m; ws_alive := ws_alive m;
                   m_ws_connection_handle := false; activated := activated m; given := given m;
                   uncaught := uncaught m; destroyed := true |}
      else None
  | _ => user_event m e
  end.

Definition step (m : machine) (e : event) : option machine :=
  if destroyed m || bool_decide (is_Some (uncaught m)) then None
  else
    match stack m with
    | [] => outside m e
    | FHandler :: rest =>
        match e with
        | EHandlerReturns => Some (with_stack m rest)
        | EHandlerThrows => Some (with_log (with_stack m rest) [LogHandlerError])
        | EHandlerThrowsOther => Some (enter (throw other_exception) rest (with_stack m rest))
        | _ => user_event m e
        end
    | f :: rest =>
        match e with ERun => Some (enter (run_frame f) rest (with_stack m rest)) | _ => None end
    end.

Fixpoint run_events (m : machine) (es : list event) : option machine :=
  match es with
  | [] => Some m
  | e :: es' => match step m e with Some m' => run_events m' es' | None => None end
  end.

(** A connection just upgraded: the response is given to it to be written. *)
(*@ websocket/websocket.hpp 276-287 upgrade *)
Definition start (t : Z) (upgrade_response : bytes) : machine :=
  let wg := write_group [TrivialItem upgrade_response] in
  enter (write_data wg false) [FTry]
    {| conn := connection_create; stack := []; log := []; reads := []; writes := 0; clock := t;
       ws_alive := true; m_ws_connection_handle := true; activated := false; given := [];
       uncaught := None; destroyed := false |}.

Inductive reachable (t : Z) (response : bytes) : machine -> Prop :=
| reach_start : reachable t response (start t response)
| reach_step m e m' : reachable t response m -> step m e = Some m' -> reachable t response m'.

(** Runs frames until the stack is empty or the handler runs. *)
Fixpoint settle (fuel : nat) (m : machine) : machine :=
  match fuel with
  | O => m
  | S fuel' => match step m ERun with Some m' => settle fuel' m' | None => m end
  end.

Fixpoint script (fuel : nat) (m : machine) (es : list event) : option machine :=
  match es with
  | [] => Some m
  | e :: es' => match step m e with Some m' => script fuel (settle fuel m') es' | None => None end
  end.

End Connection.

(** ** The upgrade *)

(** The exceptions of [upgrade]. *)
Inductive upgrade_error : Type :=
| accept_field_is_mandatory
| connection_already_moved
| key_field_error (e : Fields.fields_error)
| key_too_long.

(** The fields of the response, before the connection is moved. *)
(*@ websocket/websocket.hpp 215-238 upgrade *)
Definition upgrade_fields (fields : http_header_fields_t) : result upgrade_error http_header_fields_t :=
  if negb (Fields.has_field fields (ById (field_id "sec_websocket_accept"))) then Err accept_field_is_mandatory
  else if negb (Fields.has_field fields (ById (field_id "upgrade")))
  then Ok (Fields.set_field fields (ById (field_id "upgrade")) (str "websocket"))
  else Ok fields.

Definition upgrade_response_header (fields : http_header_fields_t) : http_response_header_t :=
  {| m_fields := fields; m_http_major := 1; m_http_minor := 1; m_content_length := 0;
     m_connection := upgrade; m_status_code := 101; m_reason_phrase := str "Switching Protocols" |}.

(** [conn_ptr] is whether the request still has its connection. *)
(*@ websocket/websocket.hpp 240-274 upgrade *)
Definition upgrade_response (fields : http_header_fields_t) (conn_ptr : bool) : result upgrade_error bytes :=
  fields ← upgrade_fields fields;
  if negb conn_ptr then Err connection_already_moved
  else Ok (create_header_string (upgrade_response_header fields) skip_content_length).

(** The value of the Sec-WebSocket-Accept field for a key. *)
(*@ websocket/websocket.hpp 351-358 upgrade *)
Definition sec_websocket_accept (request_fields : http_header_fields_t) : result upgrade_error bytes :=
  match Fields.get_field request_fields (ById (field_id "sec_websocket_key")) with
  | Err e => Err (key_field_error e)
  | Ok key =>
      digest ← of_option key_too_long (make_digest (key ++ str "258EAFA5-E914-47DA-95CA-C5AB0DC85B11"));
      Ok (encode (to_string digest))
  end.

(*@ websocket/websocket.hpp 299-311 upgrade *)
Definition upgrade_with_accept (value : bytes) : http_header_fields_t :=
  Fields.set_field [] (ById (field_id "sec_websocket_accept")) value.
(*@ websocket/websocket.hpp 319-339 upgrade *)
Definition upgrade_with_protocol (value protocol : bytes) : http_header_fields_t :=
  Fields.set_field (upgrade_with_accept value) (ById (field_id "sec_websocket_protocol")) protocol.
(*@ websocket/websocket.hpp 342-371 upgrade *)
Definition upgrade_with_key (request_fields : http_header_fields_t) (conn_ptr : bool) : result upgrade_error bytes :=
  value ← sec_websocket_accept request_fields; upgrade_response (upgrade_with_accept value) conn_ptr.

(** The example of RFC 6455. *)
Example rfc_6455_accept :
  sec_websocket_accept (Fields.set_field [] (ById (field_id "sec_websocket_key")) (str "dGhlIHNhbXBsZSBub25jZQ=="))
    = Ok (str "s3pPLMBiTxaQ9kYGzzhZRbK+xOo=").
Proof. vm_compute. reflexivity. Qed.

End Ws.
