(* ===== verification/WsStream.v ===== *)
(** * The stream of frames

    However the bytes of a client's frames are cut into reads, the connection
    gives the handler exactly the messages they carry, unmasked and in order. *)

From S2P Require Import Prelude Effects InputBuffer Sendfile WriteGroup OutputCtx Headers.
From S2P Require Import WsParser WsValidator WsConnection.

Import Ws.

(** ** Frames of a client *)

(** A frame as it is sent: its details and its masked payload. *)
Abbreviation wire_frame := (message_details_t * bytes)%type.
Definition wire (f : wire_frame) : bytes := write_message_details f.1 ++ f.2.
Definition frame_wf (string_max_size : Z) (f : wire_frame) : Prop :=
  details_wf f.1 /\ payload_len f.1 = Z.of_nat (length f.2) /\ payload_len f.1 <= string_max_size.

(** What the validator says of one whole frame: its payload, unmasked, and the
    validator after it. *)
Definition receive (v : ws_protocol_validator_t) (f : wire_frame) : option (bytes * ws_protocol_validator_t) :=
  match process_new_frame v f.1 with
  | Ok (frame_header_is_valid, v) =>
      match process_parts v (match f.2 with [] => [] | raw => [raw] end) with
      | Ok (d, v) =>
          match finish_frame v with (frame_is_valid, v) => Some (d, v) | _ => None end
      | Err _ => None
      end
  | _ => None
  end.

Definition message_of (f : wire_frame) (d : bytes) : message_t :=
  mk_message (if m_final_flag f.1 then final_frame else not_final_frame) (m_opcode f.1) d.

(** The messages of a sequence of valid frames without a close frame. *)
Fixpoint decode (v : ws_protocol_validator_t) (fs : list wire_frame) : option (list message_t) :=
  match fs with
  | [] => Some []
  | f :: fs =>
      if connection_close_frame =? m_opcode f.1 then None
      else '(d, v) ← receive v f; ms ← decode v fs; Some (message_of f d :: ms)
  end.

Definition messages (es : list effect) : list message_t :=
  omap (fun e => match e with CallHandler m => Some m | _ => None end) es.

(** ** The input buffer *)

(** The unconsumed bytes of a buffer. *)
Record holds (b : FixedBuffer.fixed_buffer_t) (data : bytes) : Prop := {
  h_size : length (FixedBuffer.m_buf b) = websocket_header_max_size;
  h_length : FixedBuffer.m_ready_length b = Z.of_nat (length data);
  h_pos : 0 <= FixedBuffer.m_ready_pos b;
  h_end : FixedBuffer.m_ready_pos b + Z.of_nat (length data) <= 14;
  h_data : take (length data) (FixedBuffer.bytes_from b) = data }.

Lemma holds_take b data n : holds b data -> (n <= length data)%nat ->
  take n (FixedBuffer.bytes_from b) = take n data.
Proof. intros [] Hn. rewrite <- h_data0, take_take. f_equal. lia. Qed.

Lemma ws_wrap_small z : 0 <= z < 2 ^ 64 -> wrap 64 z = z.
Proof. apply Z.mod_small. Qed.

Lemma holds_consumed b data n : holds b data -> (n <= length data)%nat ->
  holds (FixedBuffer.consumed_bytes b (Z.of_nat n)) (drop n data).
Proof.
  intros [] Hn. unfold FixedBuffer.consumed_bytes.
  rewrite !ws_wrap_small by lia.
  split; cbn [FixedBuffer.m_buf FixedBuffer.m_ready_pos FixedBuffer.m_ready_length]; rewrite ?length_drop; try lia.
  unfold FixedBuffer.bytes_from in *. cbn [FixedBuffer.m_buf FixedBuffer.m_ready_pos].
  rewrite Z2Nat.inj_add, Nat2Z.id by lia. rewrite <- drop_drop.
  rewrite take_drop_commute. f_equal. by replace (n + (length data - n))%nat with (length data) by lia.
Qed.

Lemma holds_obtained b data : length (FixedBuffer.m_buf b) = websocket_header_max_size ->
  (length data <= websocket_header_max_size)%nat ->
  holds (FixedBuffer.obtained_bytes (FixedBuffer.fill b data) (Z.of_nat (length data))) data.
Proof.
  intros Hb Hd. unfold websocket_header_max_size in *.
  split; cbn [FixedBuffer.obtained_bytes FixedBuffer.fill FixedBuffer.m_buf FixedBuffer.m_ready_pos FixedBuffer.m_ready_length]; try lia.
  - rewrite length_app, length_drop. unfold websocket_header_max_size. lia.
  - change (take (length data) (data ++ drop (length data) (FixedBuffer.m_buf b)) = data). by rewrite take_app_length.
Qed.

Lemma holds_create : holds (FixedBuffer.buffer_create websocket_header_max_size) [].
Proof. by split. Qed.

(** ** Headers in pieces *)

Section Parser.
Context (md : message_details_t) (Hmd : details_wf md).
Abbreviation header := (write_message_details md).

(** The parser has read [pre], and the header is not complete. *)
Definition read_part (pre : bytes) (p : ws_parser_t) : Prop :=
  parser_execute parser_reset pre = Ok (length pre, p) /\ header_parsed p = false.

Lemma parse_whole rest : exists p,
  parser_execute parser_reset (header ++ rest) = Ok (length header, p) /\
  header_parsed p = true /\ current_message p = md.
Proof. destruct (parse_write md rest Hmd) as (e & E). by eexists. Qed.
End Parser.

Lemma read_part_nil : read_part [] parser_reset.
Proof. done. Qed.

Lemma read_part_short md pre rest : details_wf md -> pre ++ rest = write_message_details md -> rest <> [] ->
  exists p, read_part pre p.
Proof.
  intros Hmd E Hr. destruct (parse_whole md Hmd []) as (q & Hq & _). rewrite app_nil_r, <- E in Hq.
  rewrite parser_execute_app in Hq.
  destruct (parser_execute_ok parser_reset pre parser_reset_ok) as (k & p & Hp & _ & Hk & Hall).
  rewrite Hp in Hq. unfold read_part. rewrite Hp.
  destruct (header_parsed p) eqn:Eh; [|exists p; by rewrite Hall].
  injection Hq as -> _. rewrite length_app in Hk. destruct rest; [done|cbn in Hk; lia].
Qed.

Lemma read_part_more pre p data : read_part pre p ->
  parser_execute parser_reset (pre ++ data) = add_parsed (length pre) (parser_execute p data).
Proof. intros [H Hh]. by rewrite parser_execute_app, H, Hh. Qed.

(** The next bytes do not complete the header. *)
Lemma read_part_continue md pre p data rest : details_wf md -> read_part pre p ->
  pre ++ data ++ rest = write_message_details md -> rest <> [] ->
  exists p', parser_execute p data = Ok (length data, p') /\ read_part (pre ++ data) p'.
Proof.
  intros Hmd Hp E Hr. destruct (read_part_short md (pre ++ data) rest Hmd) as (p' & H & Hh); [by rewrite <- app_assoc|done|].
  exists p'. split; [|done]. pose proof H as H'. rewrite (read_part_more pre p) in H' by done.
  unfold add_parsed in H'. destruct (parser_execute p data) as [[k q]|e]; [|done]. cbn [mbind result_bind] in H'.
  injection H' as Hk ->. rewrite length_app in Hk. f_equal. f_equal. lia.
Qed.

(** They do. *)
Lemma read_part_complete md pre p data rest : details_wf md -> read_part pre p ->
  pre ++ data = write_message_details md ++ rest ->
  exists p', parser_execute p data = Ok ((length (write_message_details md) - length pre)%nat, p') /\
    header_parsed p' = true /\ current_message p' = md /\ (length pre < length (write_message_details md))%nat.
Proof.
  intros Hmd Hp E. destruct (parse_whole md Hmd rest) as (q & Hq & Hh & Hc).
  rewrite <- E, (read_part_more pre p) in Hq by done. unfold add_parsed in Hq.
  destruct (parser_execute p data) as [[k q']|e] eqn:Ek; [|done]. cbn [mbind result_bind] in Hq.
  assert (Hk : (length pre + k)%nat = length (write_message_details md)) by congruence.
  assert (q' = q) as -> by congruence.
  assert (Hk0 : (0 < k)%nat).
  { destruct k; [|lia]. exfalso. destruct Hp as [_ Hp]. destruct data as [|b data]; cbn [parser_execute] in Ek.
    - injection Ek as ->. congruence.
    - rewrite bool_decide_eq_false_2 in Ek by (unfold header_parsed in Hp; by apply bool_decide_eq_false in Hp).
      destruct (process_byte p b); [|done]. cbn in Ek. destruct (parser_execute _ data) as [[k' ?]|]; [|done].
      cbn in Ek. by injection Ek. }
  exists q. split; [f_equal; f_equal; lia|]. do 2 (split; [done|]). lia.
Qed.

(** ** Payloads in pieces *)

Abbreviation unmask_part := process_and_unmask_next_payload_part.

Lemma unmask_part_outcome v x st d v' : unmask_part v x = Ok (st, d, v') ->
  length d = length x /\ st = m_validation_state v' /\
  (is_state_still_valid v' = true -> st = payload_part_is_valid) /\
  (is_state_still_valid v = false -> v' = v).
Proof.
  unfold unmask_part. case_bool_decide; [done|]. destruct (is_state_still_valid v) eqn:E.
  - destruct (payload_loop_frame (set_validation_state v payload_part_is_valid) x eq_refl)
      as (d1 & v1 & -> & _ & Hl & Hs). intros [= <- <- <-]. do 2 (split; [done|]). split; [|done].
    intros Hv. destruct Hs as [Hs|Hs]; [done|congruence].
  - intros [= <- <- <-]. do 2 (split; [done|]). split; [congruence | done].
Qed.

Lemma unmask_part_split v x y st d v2 : unmask_part v (x ++ y) = Ok (st, d, v2) -> is_state_still_valid v2 = true ->
  exists d1 v1 d2, unmask_part v x = Ok (payload_part_is_valid, d1, v1) /\
    unmask_part v1 y = Ok (payload_part_is_valid, d2, v2) /\ d = d1 ++ d2.
Proof.
  rewrite process_parts_app. destruct (unmask_part v x) as [[[st1 d1] v1]|e] eqn:E1; [|done].
  cbn [mbind result_bind]. destruct (unmask_part v1 y) as [[[st2 d2] v2']|e] eqn:E2; [|done].
  cbn [mbind result_bind]. intros [= <- <- <-] Hv.
  apply unmask_part_outcome in E1 as (_ & _ & H1 & _). pose proof E2 as E2'.
  apply unmask_part_outcome in E2' as (_ & _ & H2 & H3).
  assert (Hv1 : is_state_still_valid v1 = true).
  { destruct (is_state_still_valid v1) eqn:E; [done|]. rewrite H3 in Hv by done. congruence. }
  rewrite H1 by done. exists d1, v1, d2. split; [done|]. by rewrite E2, H2.
Qed.

Lemma receive_inv v f d v' : receive v f = Some (d, v') ->
  exists v0, process_new_frame v f.1 = Ok (frame_header_is_valid, v0) /\
    (f.2 = [] /\ d = [] /\ finish_frame v0 = (frame_is_valid, v') \/
     f.2 <> [] /\ exists v1, unmask_part v0 f.2 = Ok (payload_part_is_valid, d, v1) /\
       finish_frame v1 = (frame_is_valid, v')).
Proof.
  unfold receive. destruct (process_new_frame v f.1) as [[[] v0]|e]; try done. intros H. exists v0. split; [done|].
  destruct f.2 as [|b raw] eqn:Ef.
  - left. cbn [process_parts] in H. destruct (finish_frame v0) as [[] v2]; try done. by injection H as <- <-.
  - right. split; [done|]. cbn [process_parts] in H.
    destruct (unmask_part v0 (b :: raw)) as [[[st d1] v1]|e] eqn:E; [|done]. cbn [mbind result_bind] in H.
    rewrite app_nil_r in H. destruct (finish_frame v1) as [st2 v2] eqn:Ev. destruct st2; try done.
    injection H as <- <-. exists v1. split; [|done].
    pose proof (proj1 (finish_verdict v1)) as Hv. rewrite Ev in Hv. destruct (Hv eq_refl) as [Hv1 _].
    apply unmask_part_outcome in E as (_ & _ & Hs & _). by rewrite Hs.
Qed.

(** *** What the payloads are *)

Lemma check_utf8_unmasker v b : m_unmasker (check_utf8_byte v b) = m_unmasker v.
Proof. unfold check_utf8_byte. by destruct (Utf8.process_byte _ b) as [[] u]. Qed.

Lemma close_code_unmasker v c : m_unmasker (validate_close_code v c) = m_unmasker v.
Proof. unfold validate_close_code. by repeat case_match. Qed.

Lemma byte_unmasked v b b' v' : m_unmask_flag v = true -> process_payload_byte v b = Ok (b', v') ->
  unmask_byte (m_unmasker v) b = (b', m_unmasker v').
Proof.
  intros Hf. unfold process_payload_byte. rewrite Hf. destruct (unmask_byte (m_unmasker v) b) as [b1 u].
  cbv zeta. destruct ((_ || _) : bool); [intros [= <- <-]; by rewrite check_utf8_unmasker|].
  destruct (_ =? connection_close_frame); [|by intros [= <- <-]].
  destruct (negb _); [|intros [= <- <-]; by rewrite check_utf8_unmasker].
  destruct (add_byte_and_check_size _ _) as [[l e]|er]; [|done]. cbn [mbind result_bind]. intros [= <- <-].
  destruct l; [by rewrite close_code_unmasker | done].
Qed.

Lemma loop_unmasks data : forall v d v', m_unmask_flag v = true ->
  payload_loop v data = Ok (d, v') -> m_validation_state v' = payload_part_is_valid ->
  d = fst (unmask_all (m_unmasker v) data).
Proof.
  induction data as [|b data IH]; intros v d v' Hf; cbn [payload_loop unmask_all]; [by intros [= <- <-]|].
  destruct (process_payload_byte v b) as [[b' v1]|e] eqn:E; [|done]. cbn [mbind result_bind].
  destruct (process_payload_byte_frame v b) as (b2 & v2 & E2 & Hs & _). rewrite E in E2. injection E2 as <- <-.
  rewrite (byte_unmasked v b b' v1 Hf E). case_bool_decide as Hv; cbn [negb]; [|intros [= <- <-]; congruence].
  destruct (payload_loop v1 data) as [[rest v3]|e] eqn:El; [|done]. cbn [mbind result_bind]. intros [= <- <-] Hv'.
  destruct Hs as (_ & _ & _ & Hs). rewrite (IH v1 rest v3 ltac:(congruence) El Hv'). by destruct (unmask_all _ data).
Qed.

(** The message of a frame. *)
Definition plain (f : wire_frame) : message_t := message_of f (mask_unmask_payload (m_masking_key f.1) f.2).

Lemma new_frame_unmasker v f v0 : m_unmask_flag v = true -> process_new_frame v f = Ok (frame_header_is_valid, v0) ->
  m_unmask_flag v0 = true /\ m_unmasker v0 = unmasker_reset (m_masking_key f).
Proof.
  intros Hf. unfold process_new_frame. case_bool_decide; [|done]. cbn [negb].
  assert (Hs : forall v1, m_unmask_flag v1 = true ->
    m_unmask_flag (start_frame v1 f) = true /\ m_unmasker (start_frame v1 f) = unmasker_reset (m_masking_key f)).
  { intros v1 H1. unfold start_frame. cbv zeta. repeat case_match; cbn in *; try done; congruence. }
  unfold validate_frame_header. cbv zeta. case_bool_decide as Hv.
  2: { intros E. injection E as E <-. rewrite E in Hv. done. }
  unfold check_previous_frame_type. repeat case_match; simplify_eq/=; intros ?; simplify_eq/=; by apply Hs.
Qed.

Lemma receive_plain v f d v' : m_unmask_flag v = true -> receive v f = Some (d, v') ->
  d = mask_unmask_payload (m_masking_key f.1) f.2 /\ m_unmask_flag v' = true.
Proof.
  intros Hf H. destruct (receive_inv _ _ _ _ H) as (v0 & Hn & Hr).
  destruct (new_frame_unmasker _ _ _ Hf Hn) as [Hf0 Hu].
  assert (Hfin : forall w, m_unmask_flag w = true -> finish_frame w = (frame_is_valid, v') -> m_unmask_flag v' = true).
  { intros w Hw E. unfold finish_frame in E. cbv zeta in E. injection E as _ <-. by repeat case_match. }
  destruct Hr as [(Ef & -> & E)|(_ & v1 & E & E1)]; [split; [by rewrite Ef | by eapply Hfin]|].
  unfold process_and_unmask_next_payload_part in E. case_bool_decide; [done|].
  destruct (is_state_still_valid v0) eqn:Ev.
  - destruct (payload_loop_frame (set_validation_state v0 payload_part_is_valid) f.2 eq_refl)
      as (d1 & v2 & El & Hs & _). rewrite El in E. cbn [mbind result_bind] in E. injection E as E <- <-.
    apply loop_unmasks in El; [|done..]. cbn [set_validation_state m_unmasker] in El. rewrite Hu, unmask_reset in El.
    split; [done|]. eapply Hfin; [|exact E1]. destruct Hs as (_ & _ & _ & Hs). by rewrite Hs.
  - injection E as E <- <-. unfold is_state_still_valid in Ev. by rewrite E in Ev.
Qed.

Lemma decode_plain fs : forall v ms, m_unmask_flag v = true -> decode v fs = Some ms -> ms = plain <$> fs.
Proof.
  induction fs as [|f fs IH]; intros v ms Hf; cbn [decode]; [by intros [= <-]|].
  destruct (connection_close_frame =? m_opcode f.1); [done|].
  destruct (receive v f) as [[d v']|] eqn:E; [|done]. cbn [mbind option_bind].
  destruct (decode v' fs) as [ms'|] eqn:E'; [|done]. intros [= <-].
  destruct (receive_plain _ _ _ _ Hf E) as [-> Hf']. cbn. by rewrite (IH v' ms' Hf' E').
Qed.

(** ** The methods on the reading side *)

Section Reading.
Context (st : Z * Z) (string_max_size : Z).
Context (cb_throws : notificator -> error_code -> bool) {Other : OtherExceptions} (asio_max_iov_len : Z).
Implicit Types c : ws_connection_t.
Implicit Types v : ws_protocol_validator_t.

Definition buffered c (b : bytes) : Prop := holds (m_buf (m_input c)) b.
Definition listening c v : Prop :=
  m_read_state c = read_any_frame /\ m_websocket_weak_handle c = true /\ m_protocol_validator c = v.

(** Waiting for more of a header, of which [pre] has been read. *)
Definition at_header c v (pre : bytes) : Prop :=
  listening c v /\ buffered c [] /\ read_part pre (m_parser (m_input c)) /\ m_payload (m_input c) = [].

(** The validator [v1] goes on where [v0] has unmasked [x] to [d]. *)
Definition goes_on (v0 v1 : ws_protocol_validator_t) (x d : bytes) : Prop :=
  length d = length x /\
  forall y, unmask_part v0 (x ++ y) = ('(st, d', v') ← unmask_part v1 y; Ok (st, d ++ d', v')).

(** The payload of [f] has been read up to [x], and unmasked to [d]. *)
Definition part_of c v (f : wire_frame) (x d : bytes) : Prop :=
  exists v0, process_new_frame v f.1 = Ok (frame_header_is_valid, v0) /\
    current_message (m_parser (m_input c)) = f.1 /\
    exists v1, goes_on v0 v1 x d /\ listening c v1.

Definition at_payload c v (f : wire_frame) (x : bytes) : Prop :=
  buffered c [] /\ exists d y z, part_of c v f x d /\ f.2 = x ++ y /\ y <> [] /\
    m_payload (m_input c) = d ++ z /\ length z = length y.

(** Between two frames, with [b] already read. *)
Definition at_next c v (b : bytes) : Prop := listening c v /\ buffered c b.

(** What a reading method comes to after the bytes [x] of the frames [fs]. *)
Inductive outcome v (fs : list wire_frame) (x : bytes) : list frame -> ws_connection_t -> list effect -> Prop :=
| out_header c : at_header c v x -> outcome v fs x [] c [AsyncRead ReadHeader]
| out_payload c f fs' x' : fs = f :: fs' -> x = write_message_details f.1 ++ x' -> at_payload c v f x' ->
    outcome v fs x [] c [AsyncRead (ReadPayload (length x') (length f.2 - length x') true)]
| out_message c f fs' d v' b : fs = f :: fs' -> receive v f = Some (d, v') -> x = wire f ++ b -> at_next c v' b ->
    outcome v fs x [FHandler; FReadNext] c [CallHandler (message_of f d)].

(** The writing side is left alone. *)
Definition same_writing c c' : Prop :=
  m_write_output_ctx c' = m_write_output_ctx c /\ m_outgoing_data c' = m_outgoing_data c /\
  m_close_frame_from_peer_timeout_after c' = m_close_frame_from_peer_timeout_after c.

Definition comes_to (m : act env ws_connection_t effect exception_t (list frame)) e c v fs x : Prop :=
  run_spec m e c (fun r c' w => (exists fr, r = Ok fr /\ outcome v fs x fr c' w) /\ same_writing c c').

Lemma comes_to_from m e c c1 v fs x : comes_to m e c1 v fs x -> same_writing c c1 ->
  run_spec m e c1 (fun r c' w => (exists fr, r = Ok fr /\ outcome v fs x fr c' w) /\ same_writing c c').
Proof.
  intros H (H1 & H2 & H5). eapply spec_weaken; [exact H|]. intros r c' w [Hr (H3 & H4 & H6)].
  split; [done|]. split_and!; congruence.
Qed.

Lemma finish_comes_to e c v v1 v' f fs d b :
  ws_exists e = true -> (connection_close_frame =? m_opcode f.1) = false ->
  receive v f = Some (d, v') -> finish_frame v1 = (frame_is_valid, v') ->
  listening c v1 -> current_message (m_parser (m_input c)) = f.1 -> m_payload (m_input c) = d -> buffered c b ->
  comes_to call_handler_on_current_message e c v (f :: fs) (wire f ++ b).
Proof.
  intros He Ho Hr Hf (Hrs & Hw & Hv) Hm Hp Hb. unfold comes_to, call_handler_on_current_message.
  apply spec_bind, spec_gets. cbv zeta. change (id c) with c. rewrite Hv, Hf.
  apply spec_bind, spec_modify. cbn [app]. rewrite bool_decide_eq_true_2 by done.
  apply spec_bind, spec_gets. change (m_read_state (set_validator v' c)) with (m_read_state c).
  rewrite Hrs, bool_decide_eq_true_2 by done. rewrite Hm, Ho.
  apply spec_bind. unfold deliver. apply spec_bind, spec_gets.
  cbv zeta. change (id ?x) with x. apply spec_bind, spec_modify. unfold call_message_handler.
  apply spec_bind, spec_ask, spec_bind, spec_gets.
  change (m_websocket_weak_handle _) with (m_websocket_weak_handle c). rewrite Hw, He. cbn [andb].
  apply spec_bind, spec_emit, spec_ret, spec_ret. cbn [app].
  split; [|done]. exists [FHandler; FReadNext]. split; [done|].
  change (current_message _) with (current_message (m_parser (m_input c))).
  change (m_payload (m_input (set_validator v' c))) with (m_payload (m_input c)).
  rewrite Hm, Hp. by apply (out_message _ _ _ _ f fs d v' b).
Qed.

(** A chunk of the payload that is already in its memory. *)
Lemma part_comes_to e c v v' f fs x d0 chunk y z d b :
  ws_exists e = true -> (connection_close_frame =? m_opcode f.1) = false ->
  receive v f = Some (d, v') -> f.2 = x ++ chunk ++ y -> f.2 <> [] -> part_of c v f x d0 ->
  m_payload (m_input c) = d0 ++ chunk ++ z -> length z = length y -> buffered c b -> (y <> [] -> b = []) ->
  comes_to (after_part (length x) (length chunk) (length y)) e c v (f :: fs)
    (write_message_details f.1 ++ x ++ chunk ++ b).
Proof.
  intros He Ho Hr Hf Hne (v0 & Hn & Hm & v1 & (Hl0 & Hx) & Hrs & Hw & Hv) Hp Hz Hb Hby.
  destruct (receive_inv _ _ _ _ Hr) as (v0' & Hn' & [(E & _)|(_ & v2 & Hd & Hfin)]); [done|].
  rewrite Hn in Hn'. injection Hn' as <-.
  assert (Hv2 : is_state_still_valid v2 = true).
  { pose proof (proj1 (finish_verdict v2)) as H. rewrite Hfin in H. by apply H. }
  rewrite Hf, Hx in Hd. destruct (unmask_part v1 (chunk ++ y)) as [[[st1 d1] v2']|e'] eqn:Hd1; [|done].
  cbn [mbind result_bind] in Hd. injection Hd as -> <- ->.
  apply unmask_part_split in Hd1 as (dc & v3 & d2 & Hc & Hd2 & ->); [|done].
  pose proof (unmask_part_outcome _ _ _ _ _ Hd2) as (_ & _ & _ & Hback2).
  assert (Hv3 : is_state_still_valid v3 = true).
  { destruct (is_state_still_valid v3) eqn:E; [done|]. rewrite Hback2 in Hv2 by done. congruence. }
  pose proof (unmask_part_outcome _ _ _ _ _ Hc) as (Hlc & _).
  unfold comes_to, after_part, validate_payload_part. apply spec_bind, spec_bind, spec_gets.
  change (id c) with c. unfold payload_part. rewrite Hp, <- Hl0, drop_app_length, take_app_length, Hv, Hc.
  apply spec_bind, spec_ret, spec_bind, spec_modify. rewrite bool_decide_eq_true_2 by done. cbn [negb].
  apply spec_ret. cbn [app].
  set (c1 := set_validator v3 (store (length d0) dc c)).
  assert (Hp1 : m_payload (m_input c1) = (d0 ++ dc) ++ z).
  { unfold c1, store. cbn. rewrite Hp, take_app_length, Hlc, <- app_assoc. do 2 f_equal.
    by rewrite <- drop_drop, !drop_app_length. }
  assert (Hc1 : goes_on v0 v3 (x ++ chunk) (d0 ++ dc)).
  { split; [rewrite !length_app; lia|]. intros y'. rewrite <- app_assoc, Hx, process_parts_app, Hc.
    cbn [mbind result_bind]. destruct (unmask_part v3 y') as [[[st' d'] v'']|e']; [|done].
    cbn [mbind result_bind]. by rewrite app_assoc. }
  destruct y as [|b0 y].
  - destruct z; [|done]. rewrite app_nil_r in Hf, Hp1. cbn [length Nat.eqb].
    cbn in Hd2. assert (d2 = []) as -> by (apply nil_length_inv; by apply unmask_part_outcome in Hd2 as (-> & _)).
    rewrite app_nil_r in Hr.
    replace (write_message_details f.1 ++ x ++ chunk ++ b) with (wire f ++ b)
      by (unfold wire; rewrite Hf, <- !app_assoc; done).
    (* an empty part changes nothing that the end of the frame looks at *)
    assert (Hfin3 : finish_frame v3 = (frame_is_valid, v')).
    { rewrite <- Hfin. unfold unmask_part in Hd2. case_bool_decide; [done|]. rewrite Hv3 in Hd2.
      cbn in Hd2. injection Hd2 as <-. destruct v3 as [[] ? ? ? ? ? ? ?]; done. }
    eapply comes_to_from; [by eapply finish_comes_to | done].
  - cbn [length Nat.eqb]. specialize (Hby ltac:(done)). subst b. rewrite app_nil_r.
    unfold start_read_payload. apply spec_bind, spec_emit, spec_ret. cbn [app].
    split; [|done]. exists []. split; [done|].
    replace (length d0 + length chunk)%nat with (length (x ++ chunk)) by (rewrite length_app; lia).
    replace (S (length y)) with (length f.2 - length (x ++ chunk))%nat
      by (rewrite Hf, !length_app; cbn; lia).
    eapply out_payload; [done|done|]. split; [done|].
    exists (d0 ++ dc), (b0 :: y), z. split; [|by rewrite Hf, <- app_assoc].
    exists v0. split; [done|]. split; [done|]. exists v3. done.
Qed.

Lemma decode_cons v f fs ms : decode v (f :: fs) = Some ms ->
  (connection_close_frame =? m_opcode f.1) = false /\
  exists d v' ms', receive v f = Some (d, v') /\ decode v' fs = Some ms' /\ ms = message_of f d :: ms'.
Proof.
  cbn [decode]. destruct (connection_close_frame =? m_opcode f.1); [done|]. split; [done|].
  destruct (receive v f) as [[d v']|] eqn:E; [|done]. cbn [mbind option_bind] in H.
  destruct (decode v' fs) as [ms'|] eqn:E'; [|done]. exists d, v', ms'. by injection H as <-.
Qed.

(** Where the stream is cut: a prefix of two texts that begin the same. *)
Lemma prefix_split (x a b : bytes) : x `prefix_of` a ++ b ->
  (exists r, a = x ++ r /\ r <> []) \/ (exists y, x = a ++ y /\ y `prefix_of` b).
Proof.
  intros [k E]. destruct (decide (length x < length a)%nat) as [H|H].
  - left. exists (drop (length x) a). split.
    + rewrite <- (take_drop (length x) a) at 1. f_equal.
      apply (f_equal (take (length x))) in E. by rewrite take_app_le, take_app_length in E by lia.
    + intros Hd%(f_equal length). rewrite length_drop in Hd. cbn in Hd. lia.
  - right. exists (drop (length a) x). split.
    + rewrite <- (take_drop (length a) x) at 1. f_equal.
      apply (f_equal (take (length a))) in E. by rewrite take_app_length, take_app_le in E by lia.
    + exists k. apply (f_equal (drop (length a))) in E. by rewrite drop_app_length, drop_app_le in E by lia.
Qed.

(** The payload of a header that has just been parsed, of which the buffer holds
    the beginning. *)
Lemma payload_comes_to e c v v0 f fs ms b :
  ws_exists e = true -> decode v (f :: fs) = Some ms -> frame_wf string_max_size f ->
  process_new_frame v f.1 = Ok (frame_header_is_valid, v0) -> listening c v0 ->
  current_message (m_parser (m_input c)) = f.1 -> m_payload (m_input c) = [] ->
  buffered c b -> b `prefix_of` f.2 ++ mjoin (wire <$> fs) ->
  comes_to (handle_parsed_and_valid_header string_max_size f.1) e c v (f :: fs) (write_message_details f.1 ++ b).
Proof.
  intros He (Ho & d & v' & _ & Hr & _ & _)%decode_cons (_ & Hl & Hmax) Hn Hv Hm Hp Hb Hpre.
  unfold comes_to, handle_parsed_and_valid_header. cbv zeta. rewrite (proj2 (Z.ltb_ge _ _)) by lia.
  rewrite Hl, Nat2Z.id. apply spec_bind, spec_modify. cbn [app]. rewrite Hp, take_nil, Nat.sub_0_r. cbn [app].
  destruct (Nat.eqb_spec (length f.2) 0) as [E0|E0].
  - apply nil_length_inv in E0.
    destruct (receive_inv _ _ _ _ Hr) as (v0' & Hn' & [(_ & -> & Hfin)|(Hne & _)]); [|done].
    rewrite Hn in Hn'. injection Hn' as <-.
    replace (write_message_details f.1 ++ b) with (wire f ++ b) by (unfold wire; by rewrite E0, app_nil_r).
    eapply comes_to_from; [|done]. eapply finish_comes_to; try done. cbn. by rewrite E0.
  - apply spec_bind, spec_gets. cbn [app]. change (m_buf (m_input (set_payload _ c))) with (m_buf (m_input c)).
    rewrite (h_length _ _ Hb), Nat2Z.id. set (k := Nat.min (length b) (length f.2)).
    apply spec_bind, spec_modify. cbn [app]. apply spec_bind, spec_modify. cbn [app].
    rewrite (holds_take _ b) by (done || lia). set (chunk := take k b).
    assert (Hk : length chunk = k) by (unfold chunk; rewrite length_take; lia).
    assert (Hf : f.2 = chunk ++ drop k f.2).
    { rewrite <- (take_drop k f.2) at 1. f_equal. destruct Hpre as [r Er]. apply (f_equal (take k)) in Er.
      rewrite !take_app_le in Er by (unfold k; lia). done. }
    assert (Hd : drop k f.2 <> [] -> drop k b = []).
    { intros Hd. apply drop_ge. destruct (decide (length f.2 <= length b)%nat); [|unfold k; lia].
      exfalso. apply Hd, drop_ge. unfold k. lia. }
    assert (Hch : chunk ++ drop k b = b) by apply take_drop.
    assert (Hkb : (k <= length b)%nat) by lia. clearbody chunk k.
    lazymatch goal with |- run_spec _ _ ?c2 _ =>
      assert (H : comes_to (after_part (length (A := Z) []) (length chunk) (length (drop k f.2))) e c2 v (f :: fs)
        (write_message_details f.1 ++ [] ++ chunk ++ drop k b)) end.
    { eapply (part_comes_to e _ v v' f fs [] [] chunk (drop k f.2) (replicate (length (drop k f.2)) 0) d (drop k b)); try done.
      + intros E. by rewrite E in E0.
      + exists v0. do 2 (split; [done|]). exists v0. split; [|done]. split; [done|]. intros y. cbn [app].
        by destruct (unmask_part v0 y) as [[[? ?] ?]|].
      + cbn. rewrite take_0. cbn [app]. f_equal. by rewrite Hk, drop_replicate, length_drop.
      + by rewrite length_replicate.
      + unfold buffered. cbn. apply holds_consumed; [done | lia]. }
    rewrite Hk, length_drop in H. cbn [app] in H. rewrite Hch in H. by eapply comes_to_from.
Qed.

Lemma drop_consumed (pre data h x : bytes) : pre ++ data = h ++ x -> (length pre <= length h)%nat ->
  drop (length h - length pre) data = x /\ (length h - length pre <= length data)%nat.
Proof.
  intros E Hl. pose proof (f_equal length E) as El. rewrite !length_app in El. split; [|lia].
  apply (f_equal (drop (length h))) in E. by rewrite drop_app_ge, drop_app_length in E by lia.
Qed.

(** Parsing what the buffer holds. *)
Lemma consume_comes_to e c v fs ms pre data :
  ws_exists e = true -> decode v fs = Some ms -> Forall (frame_wf string_max_size) fs ->
  listening c v -> buffered c data -> read_part pre (m_parser (m_input c)) -> m_payload (m_input c) = [] ->
  pre ++ data `prefix_of` mjoin (wire <$> fs) ->
  comes_to (consume_header_from_buffer string_max_size (length data)) e c v fs (pre ++ data).
Proof.
  intros He Hms Hwf Hv Hb Hpre Hp Hs.
  assert (Hshort : forall p', parser_execute (m_parser (m_input c)) data = Ok (length data, p') ->
    read_part (pre ++ data) p' -> comes_to (consume_header_from_buffer string_max_size (length data)) e c v fs (pre ++ data)).
  { intros p' E Hp'. unfold comes_to, consume_header_from_buffer.
    apply spec_bind, spec_gets. rewrite (h_data _ _ Hb), E.
    apply spec_bind, spec_modify, spec_bind, spec_modify. cbn [app]. rewrite (proj2 Hp'), Nat.eqb_refl.
    apply spec_bind, spec_ret, spec_bind, spec_emit, spec_ret. cbn [app].
    split; [|done]. exists []. split; [done|]. apply out_header. split; [done|]. split; [|done].
    unfold buffered. cbn. pose proof (holds_consumed _ _ (length data) Hb ltac:(lia)) as H. by rewrite drop_all in H. }
  destruct fs as [|f fs].
  { apply prefix_nil_inv, app_nil in Hs as [-> ->]. destruct Hpre as [H1 H2].
    exact (Hshort (m_parser (m_input c)) eq_refl (conj H1 H2)). }
  cbn [fmap list_fmap mjoin list_join] in Hs. unfold wire in Hs at 1. rewrite <- app_assoc in Hs.
  apply Forall_cons in Hwf as [Hf Hwf].
  apply prefix_split in Hs as [(r & E & Hr)|(x & E & Hx)].
  - rewrite <- app_assoc in E. destruct (read_part_continue f.1 pre _ data r (proj1 Hf) Hpre (eq_sym E) Hr) as (p' & E1 & E2).
    exact (Hshort p' E1 E2).
  - destruct (read_part_complete f.1 pre _ data x (proj1 Hf) Hpre E) as (p' & E1 & E2 & E3 & E4).
    unfold comes_to, consume_header_from_buffer. apply spec_bind, spec_gets. rewrite (h_data _ _ Hb), E1.
    destruct (drop_consumed _ _ _ _ E) as [Ed En]; [lia|].
    apply spec_bind, spec_modify, spec_bind, spec_modify. cbn [app]. rewrite E2, E3.
    destruct (decode_cons _ _ _ _ Hms) as (_ & d & v' & _ & Hr & _ & _).
    destruct (receive_inv _ _ _ _ Hr) as (v0 & Hn & _).
    unfold handle_parsed_header. apply spec_bind, spec_gets. change (id ?c) with c.
    change (m_protocol_validator _) with (m_protocol_validator c). rewrite (proj2 (proj2 Hv)), Hn.
    apply spec_bind, spec_modify. rewrite bool_decide_eq_true_2 by done. cbn [negb app]. rewrite E.
    eapply comes_to_from; [eapply (payload_comes_to e _ v v0 f fs ms x); try done|done].
    + destruct Hv as (H1 & H2 & _). by split_and!.
    + unfold buffered. cbn. pose proof (holds_consumed _ _ _ Hb En) as H. by rewrite Ed in H.
Qed.

Lemma start_read_comes_to e c v fs ms b :
  ws_exists e = true -> decode v fs = Some ms -> Forall (frame_wf string_max_size) fs -> at_next c v b ->
  b `prefix_of` mjoin (wire <$> fs) -> comes_to (start_read_header string_max_size) e c v fs b.
Proof.
  intros He Hms Hwf ((H1 & H2 & H3) & Hb) Hs. unfold comes_to, start_read_header.
  apply spec_bind, spec_modify, spec_bind, spec_modify, spec_bind, spec_gets. cbn [app].
  change (m_buf _) with (m_buf (m_input c)). rewrite (h_length _ _ Hb).
  destruct (Z.eqb_spec 0 (Z.of_nat (length b))) as [E|E].
  - destruct b; [|done]. apply spec_bind, spec_emit, spec_ret. split; [|done]. exists []. split; [done|].
    apply out_header. by split_and!.
  - rewrite Nat2Z.id. eapply comes_to_from; [by eapply (consume_comes_to e _ v fs ms [] b) | done].
Qed.

Lemma read_header_comes_to e c v fs ms pre data :
  ws_exists e = true -> decode v fs = Some ms -> Forall (frame_wf string_max_size) fs -> at_header c v pre ->
  (length data <= websocket_header_max_size)%nat -> pre ++ data `prefix_of` mjoin (wire <$> fs) ->
  comes_to (after_read_header string_max_size no_error data) e c v fs (pre ++ data).
Proof.
  intros He Hms Hwf ((H1 & H2 & H3) & Hb & Hp & Hpl) Hd Hs. unfold comes_to, after_read_header.
  rewrite bool_decide_eq_true_2 by done. apply spec_bind, spec_modify, spec_bind, spec_modify. cbn [app].
  eapply comes_to_from; [|done]. eapply (consume_comes_to e _ v fs ms pre data); try done. apply holds_obtained; [apply Hb | done].
Qed.

Lemma read_payload_comes_to e c v f fs ms x data :
  ws_exists e = true -> decode v (f :: fs) = Some ms -> at_payload c v f x ->
  (length data <= length f.2 - length x)%nat -> x ++ data `prefix_of` f.2 ->
  comes_to (after_read_payload (length x) (length f.2 - length x) true no_error data) e c v (f :: fs)
    (write_message_details f.1 ++ x ++ data).
Proof.
  intros He (Ho & d & v' & _ & Hr & _ & _)%decode_cons (Hb & d0 & y & z & Hpart & Hf & Hy & Hp & Hz) Hd Hs.
  assert (exists y', y = data ++ y') as [y' ->].
  { destruct Hs as [k Ek]. rewrite Hf, <- app_assoc in Ek. apply app_inv_head in Ek. by exists k. }
  unfold comes_to, after_read_payload. rewrite bool_decide_eq_true_2 by done.
  apply spec_bind, spec_modify. cbn [app].
  replace (length f.2 - length x - length data)%nat with (length y') by (rewrite Hf, !length_app; lia).
  assert (Hl : length d0 = length x) by (destruct Hpart as (? & _ & _ & ? & [? _] & _); done).
  rewrite length_app in Hz.
  lazymatch goal with |- run_spec _ _ ?c2 _ =>
    assert (H : comes_to (after_part (length x) (length data) (length y')) e c2 v (f :: fs)
      (write_message_details f.1 ++ x ++ data ++ [])) end.
  { eapply (part_comes_to e _ v v' f fs x d0 data y' (drop (length data) z) d []); try done.
    - rewrite Hf. intros E. apply app_nil in E as [_ E]. done.
    - cbn. rewrite Hp, <- Hl, take_app_length. by rewrite <- drop_drop, drop_app_length.
    - rewrite length_drop. lia. }
  rewrite app_nil_r in H. by eapply comes_to_from.
Qed.

(** ** The methods on the writing side *)

Context (Hcb : forall n ec, cb_throws n ec = false) (Hothers : forall n ec, throws_other n ec = false).

Definition trivial_item (i : writable_item_t) : Prop := match i with TrivialItem _ => True | FileItem _ => False end.
Definition trivial_group (wg : write_group_t) : Prop := Forall trivial_item (m_items wg).
Definition trivial_groups c : Prop :=
  Forall trivial_group (m_outgoing_data c) /\
  forall wg, OutputCtx.m_current_wg (m_write_output_ctx c) = Some wg -> trivial_group wg.

(** What they leave to the reading side. *)
Definition same_reading c c' : Prop :=
  m_input c' = m_input c /\ m_protocol_validator c' = m_protocol_validator c /\
  m_read_state c' = m_read_state c /\ m_websocket_weak_handle c' = m_websocket_weak_handle c /\
  m_close_frame_from_peer_timeout_after c' = m_close_frame_from_peer_timeout_after c.
Definition calm (w : list effect) : Prop := messages w = [] /\ reads_of w = [].

Definition notified (cs : calls) : list effect := (fun x => Notified (fst x) (snd x)) <$> cs.

Lemma calm_notified cs : calm (notified cs) /\ count is_write (notified cs) = 0%nat.
Proof. unfold notified, calm, messages, reads_of, count. induction cs; [done|]. cbn. tauto. Qed.

Lemma transmitting_current c : transmitting c = true <-> exists wg, OutputCtx.m_current_wg (m_write_output_ctx c) = Some wg.
Proof. unfold transmitting, OutputCtx.transmitting. rewrite bool_decide_eq_true. done. Qed.

Lemma init_write_quiet e c : trivial_groups c ->
  run_spec (init_write_if_necessary cb_throws) e c (fun r c' w => same_reading c c' /\ calm w /\ trivial_groups c' /\
    count is_write w = 0%nat /\
    (r = Ok [] /\ transmitting c' = transmitting c /\ m_outgoing_data c' = m_outgoing_data c \/
     r = Ok [FCurrentWriteCtx; FTry] /\ transmitting c = false /\ transmitting c' = true /\
     length (m_outgoing_data c) = S (length (m_outgoing_data c')))).
Proof.
  intros [Hq Hc]. unfold init_write_if_necessary. apply spec_bind, spec_gets.
  destruct (transmitting c) eqn:Et; cbn [negb]; [apply spec_ret; cbn; by split_and!; [..|left]|].
  unfold init_write, pop_ready_buffers. apply spec_bind, spec_bind, spec_gets.
  destruct (m_outgoing_data c) as [|wg q] eqn:Eq.
  - apply spec_ret, spec_ret. cbn. split_and!; try done; [split; by rewrite ?Eq | by left].
  - apply spec_bind, spec_modify, spec_ret. cbn [app]. unfold output, output_result.
    apply spec_bind, spec_bind, spec_bind, spec_gets. unfold OutputCtx.start_next_write_group.
    change (m_write_output_ctx (set_outgoing q c)) with (m_write_output_ctx c).
    assert (En : OutputCtx.m_current_wg (m_write_output_ctx c) = None).
    { destruct (OutputCtx.m_current_wg (m_write_output_ctx c)) as [wg'|] eqn:E; [|done].
      rewrite (proj2 (transmitting_current c)) in Et by (by exists wg'). done. }
    rewrite En. cbn [from_option].
    apply spec_bind, spec_modify, spec_bind, spec_emits, spec_ret, spec_ret, spec_ret. cbn.
    apply Forall_cons in Hq as [Hwg Hq].
    split_and!; try done; [split; [done | by intros ? [= <-]] | right; by split_and!].
Qed.

Lemma output_quiet {A} (f : OutputCtx.t -> result OutputCtx.output_error A * OutputCtx.t * calls) e c
    (Q : result exception_t A -> ws_connection_t -> list effect -> Prop) a o cs :
  f (m_write_output_ctx c) = (Ok a, o, cs) ->
  Q (Ok a) (set_output o c) (notified cs) -> run_spec (output f) e c Q.
Proof.
  intros E H. unfold output, output_result. apply spec_bind, spec_bind, spec_gets. rewrite E.
  apply spec_bind, spec_modify, spec_bind, spec_emits, spec_ret, spec_ret. cbn [app]. by rewrite !app_nil_r.
Qed.

Lemma output_notifying_quiet {A} (f : OutputCtx.t -> result OutputCtx.output_error A * OutputCtx.t * calls) e c
    (Q : result exception_t (result OutputCtx.output_error A) -> ws_connection_t -> list effect -> Prop) a o cs :
  f (m_write_output_ctx c) = (Ok a, o, cs) ->
  Q (Ok (Ok a)) (set_output o c) (notified cs) -> run_spec (output_notifying f) e c Q.
Proof.
  intros E H. unfold output_notifying. apply spec_bind, spec_gets. rewrite E.
  apply spec_bind, spec_modify, spec_bind, spec_emits, spec_bind. unfold throw_other.
  destruct (existsb _ cs) eqn:Ex.
  { apply existsb_exists in Ex as (x & _ & Hx). by rewrite Hothers in Hx. }
  apply spec_ret, spec_ret. cbn [app]. by rewrite !app_nil_r.
Qed.

Lemma finish_group_ok o wg : OutputCtx.m_current_wg o = Some wg ->
  exists o' cs, OutputCtx.finish_write_group cb_throws o = (Ok tt, o', cs) /\ OutputCtx.m_current_wg o' = None.
Proof.
  intros E. unfold OutputCtx.finish_write_group, OutputCtx.invoke_after_write_notificator_if_necessary. rewrite E.
  destruct (invoke_after_write_notificator_if_exists cb_throws wg no_error) as [[wg' cs] threw] eqn:Ei.
  assert (threw = false) as ->.
  { unfold invoke_after_write_notificator_if_exists in Ei. case_match; injection Ei as _ _ <-; [apply Hcb | done]. }
  cbn. by do 2 eexists.
Qed.

Lemma current_write_quiet e c : trivial_groups c -> transmitting c = true ->
  run_spec (handle_current_write_ctx st cb_throws asio_max_iov_len) e c (fun r c' w =>
    same_reading c c' /\ calm w /\ trivial_groups c' /\
    m_outgoing_data c' = m_outgoing_data c /\
    (r = Ok [] /\ count is_write w = 1%nat /\ transmitting c' = true \/
     r = Ok [FInitWriteIfNecessary] /\ count is_write w = 0%nat)).
Proof.
  intros [Hq Hc] (wg & Ewg)%transmitting_current. unfold handle_current_write_ctx. apply spec_bind.
  destruct (OutputCtx.extract_next_write_operation asio_max_iov_len (m_write_output_ctx c)) as [[wo o]|er] eqn:E;
    unfold OutputCtx.extract_next_write_operation in E; rewrite Ewg in E.
  2: { destruct (m_items wg !! _) as [[]|]; discriminate E. }
  eapply output_quiet.
  { unfold OutputCtx.extract_next_write_operation. rewrite Ewg. rewrite E. reflexivity. }
  cbn [fmap list_fmap app].
  destruct (m_items wg !! OutputCtx.m_next_writable_item_index (m_write_output_ctx c)) as [[data|sf]|] eqn:Ei.
  - unfold OutputCtx.prepare_trivial_buffers_wo in E. destruct (OutputCtx.gather_loop _ _ _ _ _ _) as [[index bufs] total].
    injection E as <- <-. unfold handle_trivial_write_operation, guard_write_operation.
    apply spec_bind, spec_bind, spec_ask, spec_modify, spec_bind, spec_emit, spec_ret. cbn.
    split_and!; try done. left. split_and!; [done..|]. apply transmitting_current. by exists wg.
  - exfalso. specialize (Hc wg Ewg). unfold trivial_group in Hc. rewrite Forall_lookup in Hc. by apply Hc in Ei.
  - injection E as <- <-. unfold finish_handling_current_write_ctx. apply spec_bind.
    destruct (finish_group_ok (m_write_output_ctx c) wg Ewg) as (o' & cs & Ef & En).
    eapply output_notifying_quiet; [exact Ef|]. apply spec_bind, spec_ret, spec_ret. cbn [app]. rewrite !app_nil_r.
    destruct (calm_notified cs) as [H1 H2]. split_and!; try done.
    + split; [done|]. cbn. congruence.
    + right. done.
Qed.

Lemma write_data_quiet e c wg : trivial_groups c -> trivial_group wg ->
  run_spec (write_data st cb_throws wg false) e c (fun r c' w => same_reading c c' /\ calm w /\ trivial_groups c' /\
    count is_write w = 0%nat /\ transmitting c' = transmitting c /\
    (r = Ok [] \/ r = Ok [FInitWriteIfNecessary])).
Proof.
  intros [Hq Hc] Hwg. unfold write_data. apply spec_bind, spec_gets.
  destruct (bool_decide (write_enabled = m_write_state c)).
  - unfold write_data_impl. apply spec_bind, spec_gets. destruct (m_socket_is_open c).
    + apply spec_bind, spec_ret, spec_bind, spec_bind, spec_modify, spec_emit, spec_ret. cbn.
      split_and!; try done; [split; [by apply Forall_app; split; [|constructor] | done] | by right].
    + destruct (invoke_after_write_notificator_if_exists _ _ _) as [[wg' cs] threw].
      apply spec_bind, spec_emits, spec_bind, spec_emits, spec_ret. cbn [app]. rewrite app_nil_r.
      assert (H : calm (notified cs ++ notified (wg_destroy cb_throws wg')) /\
                  count is_write (notified cs ++ notified (wg_destroy cb_throws wg')) = 0%nat).
      { destruct (calm_notified cs) as [[H1 H2] H3], (calm_notified (wg_destroy cb_throws wg')) as [[H4 H5] H6].
        unfold calm, messages, reads_of, count in *. by rewrite !omap_app, List.filter_app, length_app, H1, H2, H3, H4, H5, H6. }
      destruct H. by split_and!; [..|left].
  - apply spec_bind, spec_emits, spec_ret. rewrite app_nil_r. cbn [app].
    destruct (calm_notified (wg_destroy cb_throws wg)) as [H1 H2]. by split_and!; [..|left].
Qed.

(** ** The machine *)

Implicit Types m : machine.
Abbreviation step := (step st string_max_size cb_throws asio_max_iov_len).
Abbreviation run_events := (run_events st string_max_size cb_throws asio_max_iov_len).

(** What may happen meanwhile: the peer sends, writes complete, the handler
    returns or throws, the timeouts are checked, the user activates the websocket and sends messages. *)
Definition benign (ev : event) : Prop :=
  match ev with
  | EReadDone ec _ | EWriteDone ec => ec = no_error
  | ESendMessage _ opcode _ _ => opcode <> connection_close_frame
  | EActivate | EHandlerReturns | EHandlerThrows | ETick _ | ETimerExpires | ECheckTimeout | ERun => True
  | _ => False
  end.

(** No check of the timeouts finds a write that has lasted too long. *)
Definition write_timed_out m : bool :=
  transmitting (conn m) && (m_write_operation_timeout_after (conn m) <? clock m).
Definition in_time m (ev : event) : bool :=
  match ev with ECheckTimeout => negb (write_timed_out m) | _ => true end.
Fixpoint timely m (es : list event) : bool :=
  match es with
  | [] => true
  | ev :: es => in_time m ev && match step m ev with Some m' => timely m' es | None => true end
  end.

(** The bytes that have arrived. *)
Definition arrived (ev : event) : bytes := match ev with EReadDone _ data => data | _ => [] end.

Definition write_frame (f : frame) : bool :=
  match f with FInitWriteIfNecessary | FCurrentWriteCtx | FTry => true | _ => false end.
Definition is_current (f : frame) : bool := match f with FCurrentWriteCtx => true | _ => false end.
Definition currents (fs : list frame) : nat := length (List.filter is_current fs).

(** The write side is in order. *)
Record writing m : Prop := {
  w_alive : ws_alive m = true;
  w_live : destroyed m = false /\ uncaught m = None;
  w_groups : trivial_groups (conn m);
  w_not_closing : m_close_frame_from_peer_timeout_after (conn m) = None;
  w_one : (writes m + currents (stack m) <= 1)%nat;
  w_transmitting : (writes m + currents (stack m) = 1)%nat -> transmitting (conn m) = true }.

(** Where reading is, [x] being the bytes of the frames [fs] already read. *)
Inductive phase m v (fs : list wire_frame) (x : bytes) : Prop :=
| ph_idle : activated m = false -> x = [] -> reads m = [] -> Forall (fun f => write_frame f = true) (stack m) ->
    buffered (conn m) [] -> m_protocol_validator (conn m) = v -> phase m v fs x
| ph_header : activated m = true -> reads m = [ReadHeader] -> Forall (fun f => write_frame f = true) (stack m) ->
    at_header (conn m) v x -> phase m v fs x
| ph_payload f fs' x' : activated m = true -> Forall (fun f => write_frame f = true) (stack m) ->
    fs = f :: fs' -> x = write_message_details f.1 ++ x' -> at_payload (conn m) v f x' ->
    reads m = [ReadPayload (length x') (length f.2 - length x') true] -> phase m v fs x
| ph_next ws base : activated m = true -> reads m = [] -> stack m = ws ++ base ->
    Forall (fun f => write_frame f = true) ws ->
    base ∈ [[FHandler; FReadNext; FTry]; [FReadNext; FTry]; [FStartReadHeader; FTry]] ->
    at_next (conn m) v x -> phase m v fs x.

Lemma currents_app l1 l2 : currents (l1 ++ l2) = (currents l1 + currents l2)%nat.
Proof. unfold currents. by rewrite List.filter_app, length_app. Qed.

Lemma currents_base base :
  base ∈ [[FHandler; FReadNext; FTry]; [FReadNext; FTry]; [FStartReadHeader; FTry]] -> currents base = 0%nat.
Proof. rewrite !elem_of_cons, elem_of_nil. by intros [-> | [-> | [-> | []]]]. Qed.

(** The phase looks only at the reading side of the connection. *)
Lemma phase_same m m' v fs x :
  phase m v fs x -> same_reading (conn m) (conn m') -> activated m' = activated m -> reads m' = reads m ->
  (exists ws, stack m' = ws ++ stack m /\ Forall (fun f => write_frame f = true) ws) -> phase m' v fs x.
Proof.
  intros H (Hi & Hv & Hr & Hw & _) Ha Hrd (ws & Hs & Hws).
  destruct H as [H1 H2 H3 H4 H5 H6|H1 H3 H4 H5|f fs' x' H1 H4 H5 H6 H7 H8|ws0 base H1 H2 H3 H4 H5 H6].
  - apply ph_idle; rewrite ?Ha, ?Hrd, ?Hs; unfold buffered in *; rewrite ?Hi, ?Hv; try done. by apply Forall_app.
  - apply ph_header; rewrite ?Ha, ?Hrd, ?Hs; try done; [by apply Forall_app|].
    unfold at_header, listening, buffered in *. by rewrite Hi, Hv, Hr, Hw.
  - eapply ph_payload; rewrite ?Ha, ?Hrd, ?Hs; try done; [by apply Forall_app|].
    unfold at_payload, part_of, listening, buffered in *. by rewrite Hi, Hv, Hr, Hw.
  - apply (ph_next _ _ _ _ (ws ++ ws0) base); rewrite ?Ha, ?Hrd; try done; [by rewrite Hs, H3, app_assoc | by apply Forall_app|].
    unfold at_next, listening, buffered in *. by rewrite Hi, Hv, Hr, Hw.
Qed.

(** A finished method of the writing side. *)
Lemma phase_pop m v fs x f rest : phase m v fs x -> stack m = f :: rest -> write_frame f = true ->
  phase (with_stack m rest) v fs x.
Proof.
  intros H Es Hf. destruct H as [H1 H2 H3 H4 H5 H6|H1 H3 H4 H5|g fs' x' H1 H4 H5 H6 H7 H8|ws base H1 H2 H3 H4 H5 H6].
  - apply ph_idle; try done. rewrite Es in H4. by apply Forall_cons in H4 as [_ H4].
  - apply ph_header; try done. rewrite Es in H4. by apply Forall_cons in H4 as [_ H4].
  - eapply ph_payload; try done. rewrite Es in H4. by apply Forall_cons in H4 as [_ H4].
  - rewrite Es in H3. destruct ws as [|w ws].
    + exfalso. cbn in H3. rewrite !elem_of_cons, elem_of_nil in H5.
      destruct H5 as [-> | [-> | [-> | []]]]; by injection H3 as -> ->.
    + injection H3 as -> ->. apply Forall_cons in H4 as [_ H4]. by apply (ph_next _ _ _ _ ws base).
Qed.

Lemma ws_run_app es1 : forall m es2, run_events m (es1 ++ es2) = (m ← run_events m es1; run_events m es2).
Proof.
  induction es1 as [|e es1 IH]; intros m es2; [done|]. cbn [app WsConnection.Ws.run_events].
  destruct (step m e); [apply IH | done].
Qed.

(** What a step keeps when it gives no message. *)
Definition kept m m' v fs x : Prop :=
  phase m' v fs x /\ writing m' /\ messages (log m') = messages (log m).

Lemma messages_app w1 w2 : messages (w1 ++ w2) = messages w1 ++ messages w2.
Proof. apply omap_app. Qed.
Lemma reads_of_app w1 w2 : reads_of (w1 ++ w2) = reads_of w1 ++ reads_of w2.
Proof. apply omap_app. Qed.

Lemma enter_quiet m b rest v fs x :
  ws_alive m = true -> destroyed m = false -> m_close_frame_from_peer_timeout_after (conn m) = None ->
  phase (with_stack m rest) v fs x ->
  run_spec b (env_of m) (conn m) (fun r c' w => same_reading (conn m) c' /\ calm w /\ trivial_groups c' /\
    exists fr, r = Ok fr /\ Forall (fun f => write_frame f = true) fr /\
      (writes m + count is_write w + currents (fr ++ rest) <= 1)%nat /\
      ((writes m + count is_write w + currents (fr ++ rest) = 1)%nat -> transmitting c' = true)) ->
  kept m (enter b rest m) v fs x.
Proof.
  intros Ha Hd Hcl Hp H. unfold run_spec in H. unfold enter. destruct (b (env_of m) (conn m)) as [[r c'] w].
  destruct H as (H1 & [H2 H3] & H4 & fr & -> & H5 & H6 & H7).
  split_and!.
  - eapply phase_same; [exact Hp | done | done | cbn; by rewrite H3, app_nil_r | by exists fr].
  - destruct H1 as (_ & _ & _ & _ & H1). split; try done. cbn. by rewrite H1.
  - cbn. by rewrite messages_app, H2, app_nil_r.
Qed.

Lemma currents_cons f fs : currents (f :: fs) = (Nat.b2n (is_current f) + currents fs)%nat.
Proof. unfold currents. cbn. by destruct (is_current f). Qed.

Lemma write_frame_step m m' v fs x f rest : writing m -> phase m v fs x -> stack m = f :: rest ->
  write_frame f = true -> step m ERun = Some m' -> kept m m' v fs x.
Proof.
  intros [Ha [Hd Hu] Hg Hcl Ho Ht] Hp Es Hf. unfold WsConnection.Ws.step. rewrite Hd, Hu, Es. cbn [orb].
  rewrite bool_decide_eq_false_2 by (by intros [? ?]).
  pose proof (phase_pop _ _ _ _ _ _ Hp Es Hf) as Hp'. rewrite Es, currents_cons in Ho, Ht.
  assert (Hk : forall b, run_spec b (env_of m) (conn m) (fun r c' w => same_reading (conn m) c' /\ calm w /\ trivial_groups c' /\
    exists fr, r = Ok fr /\ Forall (fun f => write_frame f = true) fr /\
      (writes m + count is_write w + currents (fr ++ rest) <= 1)%nat /\
      ((writes m + count is_write w + currents (fr ++ rest) = 1)%nat -> transmitting c' = true)) ->
    kept m (enter b rest (with_stack m rest)) v fs x).
  { intros b Hb. by apply (enter_quiet (with_stack m rest)). }
  destruct f; try done; intros [= <-]; apply Hk; clear Hk.
  - apply spec_ret. split_and!; [done..|]. exists []. cbn in *. by rewrite Nat.add_0_r.
  - eapply spec_weaken; [by apply init_write_quiet|]. intros r c' w (H1 & H2 & H3 & H4 & H5). split_and!; [done..|].
    cbn in Ho, Ht. destruct H5 as [(-> & E & _)|(-> & E & E' & _)].
    + exists []. cbn. rewrite H4, Nat.add_0_r, E. by split_and!.
    + exists [FCurrentWriteCtx; FTry]. split; [done|]. split; [by repeat constructor|]. rewrite H4, Nat.add_0_r.
      rewrite !currents_app in *. cbn. assert (writes m + currents rest <> 1)%nat by (intros Hx; rewrite Ht in E by done; done).
      split; [lia | done].
  - assert (Hone : writes m = 0%nat /\ currents rest = 0%nat) by (cbn in Ho; lia). destruct Hone as [Hw0 Hc0].
    eapply spec_weaken; [apply current_write_quiet; [done | apply Ht; cbn; lia]|].
    intros r c' w (H1 & H2 & H3 & _ & [(-> & H4 & H5)|(-> & H4)]); split_and!; try done.
    + exists []. change (writes (with_stack m rest)) with (writes m). cbn [app]. rewrite H4, Hw0, Hc0. by split_and!.
    + exists [FInitWriteIfNecessary]. split; [done|]. split; [by repeat constructor|]. cbn [app]. rewrite currents_cons, H4, Nat.add_0_r.
      change (writes (with_stack m rest)) with (writes m). cbn [is_current Nat.b2n]. lia.
Qed.
(** ** Progress *)

(** The state after the frames before [fs], of whose bytes [x] have been read:
    [given] messages were given, and [ms] are to come. *)
Definition stands m v fs x (given ms : list message_t) : Prop :=
  phase m v fs x /\ writing m /\ messages (log m) = given /\ decode v fs = Some ms /\
  Forall (frame_wf string_max_size) fs /\ x `prefix_of` mjoin (wire <$> fs).

(** One step further, with the bytes [data]: nothing is delivered, or the next
    message. *)
Definition advances m fs x data given ms v : Prop :=
  stands m v fs (x ++ data) given ms \/
  exists f fs' v' x' d ms', fs = f :: fs' /\ x ++ data = wire f ++ x' /\ ms = message_of f d :: ms' /\
    stands m v' fs' x' (given ++ [message_of f d]) ms'.

Lemma enter_reads m b v fs x data given ms :
  writing (with_stack m [FTry]) -> reads m = [] -> activated m = true -> messages (log m) = given ->
  decode v fs = Some ms -> Forall (frame_wf string_max_size) fs -> x ++ data `prefix_of` mjoin (wire <$> fs) ->
  comes_to b (env_of m) (conn m) v fs (x ++ data) -> advances (enter b [FTry] m) fs x data given ms v.
Proof.
  intros [Ha Hd [Hg1 Hg2] Hcl Ho Ht] Hr Hact Hl Hms Hwf Hx H. unfold comes_to, run_spec in H. unfold enter.
  destruct (b (env_of m) (conn m)) as [[r c'] w]. destruct H as ((fr & -> & Hout) & Hw1 & Hw2 & Hw3).
  assert (Hgr : trivial_groups c') by (unfold trivial_groups; rewrite Hw1, Hw2; done).
  assert (Htr : transmitting c' = transmitting (conn m)) by (unfold transmitting; by rewrite Hw1).
  assert (Hc : count is_write w = 0%nat /\ currents fr = 0%nat) by (by destruct Hout). destruct Hc as [Hc1 Hc2].
  assert (Hwr : writing (record m c' (fr ++ [FTry]) w None)).
  { split; [done | by destruct Hd | done | cbn [record conn]; by rewrite Hw3 | ..]; cbn [record writes stack conn]; rewrite currents_app, Hc1, Hc2, Nat.add_0_r; [done|].
    intros E. rewrite Htr. by apply Ht. }
  assert (Hlog : messages (log (record m c' (fr ++ [FTry]) w None)) = given ++ messages w)
    by (cbn [record log]; by rewrite messages_app, Hl).
  revert Hwr Hlog. inversion Hout; subst; intros Hwr Hlog; cbn [messages omap list_omap] in Hlog.
  - left. rewrite app_nil_r in Hlog. split_and!; try done.
    apply ph_header; try done; [cbn; by rewrite Hr | by repeat constructor].
  - left. rewrite app_nil_r in Hlog. split_and!; try done.
    eapply ph_payload; try done; [by repeat constructor | cbn; by rewrite Hr].
  - right. apply decode_cons in Hms as (Hop & d' & v'' & ms' & Hrec & Hms' & ->).
    assert (d' = d /\ v'' = v') as [-> ->] by (split; congruence).
    exists f, fs', v', b0, d, ms'. do 3 (split; [done|]). apply Forall_cons in Hwf as [_ Hwf].
    split_and!; try done.
    + apply (ph_next _ _ _ _ [] [FHandler; FReadNext; FTry]); try done; [cbn; by rewrite Hr|]. apply list_elem_of_here.
    + rewrite H1 in Hx. destruct Hx as [k E]. exists k. cbn [fmap list_fmap mjoin list_join] in E.
      rewrite <- app_assoc in E. by apply app_inv_head in E.
Qed.

Lemma kept_advances m m' v fs x given ms : stands m v fs x given ms -> kept m m' v fs x ->
  advances m' fs x [] given ms v.
Proof. intros (Hp & Hw & Hl & Hr) (Hp' & Hw' & Hl'). left. rewrite app_nil_r. split_and!; try done; [congruence|tauto..]. Qed.
Lemma phase_idle_stack m v fs x f rest : phase m v fs x -> stack m = f :: rest -> write_frame f = false ->
  activated m = true /\ reads m = [] /\ at_next (conn m) v x /\
  f :: rest ∈ [[FHandler; FReadNext; FTry]; [FReadNext; FTry]; [FStartReadHeader; FTry]].
Proof.
  intros H Es Hf.
  destruct H as [H1 H2 H3 H4 H5 H6|H1 H3 H4 H5|g fs' x' H1 H4 H5 H6 H7 H8|ws base H1 H2 H3 H4 H5 H6].
  1-3: rewrite Es in H4; apply Forall_cons in H4 as [H4 _]; congruence.
  rewrite Es in H3. destruct ws as [|w ws]; [by rewrite H3|].
  injection H3 as -> ->. apply Forall_cons in H4 as [H4 _]. congruence.
Qed.

(** An event that runs no method. *)
Lemma kept_quiet m m' v fs x :
  writing m -> phase m v fs x -> conn m' = conn m -> stack m' = stack m -> reads m' = reads m -> writes m' = writes m ->
  ws_alive m' = ws_alive m -> activated m' = activated m -> destroyed m' = destroyed m -> uncaught m' = uncaught m ->
  messages (log m') = messages (log m) -> kept m m' v fs x.
Proof.
  intros [Ha Hd Hg Hcl Ho Ht] Hp E1 E2 E3 E4 E5 E6 E7 E8 E9. split_and!; [| |done].
  - eapply phase_same; try done; [by rewrite E1|]. exists []. by split; [|constructor].
  - split; rewrite ?E1, ?E2, ?E4, ?E5, ?E7, ?E8; done.
Qed.

Lemma send_step m v fs x f o p cb : writing m -> phase m v fs x -> o <> connection_close_frame ->
  kept m (ws_send_message st cb_throws m f o p cb) v fs x.
Proof.
  intros Hw Hp Ho. unfold ws_send_message. destruct (m_ws_connection_handle m).
  2: { apply kept_quiet; try done. cbn. by rewrite messages_app, app_nil_r. }
  destruct p as [data|sf]; [|apply kept_quiet; try done; cbn; by rewrite messages_app, app_nil_r].
  rewrite (proj2 (Z.eqb_neq _ _)) by congruence. pose proof Hw as [Ha [Hd Hu] Hg Hcl Hone Ht].
  set (wg := match cb with Some _ => _ | None => _ end).
  assert (Hwg : trivial_group wg) by (subst wg; by destruct cb; repeat constructor).
  clearbody wg. eapply (enter_quiet (with_user m _ _ _ _)); [done | done | done | |].
  - eapply phase_same; try done. exists [FTry]. by repeat constructor.
  - eapply spec_weaken; [by apply write_data_quiet|].
    intros r c' w (H1 & H2 & H3 & H4 & H5 & H6). split_and!; [done..|].
    exists (match r with Ok fr => fr | Err _ => [] end). cbn [with_user writes]. rewrite H4, Nat.add_0_r, H5.
    destruct H6 as [-> | ->]; split_and!; first [done | by repeat constructor].
Qed.

Lemma activate_step m v fs x m' : writing m -> phase m v fs x -> activate m = Some m' -> stack m = [] ->
  kept m m' v fs x.
Proof.
  intros [Ha [Hd Hu] Hg Hcl Hone Ht] Hp. unfold activate.
  destruct (m_ws_connection_handle m && negb (activated m)) eqn:E; [|done]. intros [= <-] Hs.
  apply andb_true_iff in E as [_ Eact]. apply negb_true_iff in Eact.
  destruct Hp as [H1 H2 H3 H4 H5 H6|H1 H3 H4 H5|g fs' x' H1 H4 H5 H6 H7 H8|ws base H1 H2 H3 H4 H5 H6]; [|congruence..].
  unfold enter, init_read, init_next_timeout_checking. cbn. rewrite Hs in *. split_and!.
  - apply (ph_next _ _ _ _ [] [FStartReadHeader; FTry]); try done; [change (reads m ++ [] = []); by rewrite H3 | | by subst x].
    apply list_elem_of_further, list_elem_of_further, list_elem_of_here.
  - split; try done; change (writes (enter _ _ _)) with (writes m + 0)%nat; by rewrite Nat.add_0_r.
  - change (messages (log m ++ []) = messages (log m)). by rewrite app_nil_r.
Qed.

Lemma user_step m ev m' v fs x : writing m -> phase m v fs x -> benign ev -> user_event st cb_throws m ev = Some m' ->
  (stack m = [] \/ activated m = true) -> kept m m' v fs x.
Proof.
  intros Hw Hp Hb E Hs. unfold user_event in E. rewrite (w_alive _ Hw) in E.
  destruct ev; try done.
  - destruct Hs as [Hs|Hs]; [by eapply activate_step|]. unfold activate in E. rewrite Hs, andb_false_r in E. done.
  - injection E as <-. by apply send_step.
Qed.

(** *** One step *)

Lemma stack_step m ev m' v fs x given ms f rest :
  stands m v fs x given ms -> benign ev -> stack m = f :: rest -> step m ev = Some m' ->
  arrived ev = [] /\ advances m' fs x [] given ms v.
Proof.
  intros H Hb Es E. pose proof H as (Hp & Hw & Hl & Hms & Hwf & Hx). pose proof Hw as [Ha [Hd Hu] Hg Hcl Hone Ht].
  destruct (write_frame f) eqn:Ef.
  { assert (ev = ERun) as ->.
    { unfold WsConnection.Ws.step in E. rewrite Hd, Hu, Es in E. cbn [orb] in E.
      rewrite bool_decide_eq_false_2 in E by (by intros [? ?]). by destruct f, ev. }
    split; [done|]. eapply kept_advances; [done|]. by eapply write_frame_step. }
  destruct (phase_idle_stack _ _ _ _ _ _ Hp Es Ef) as (Hact & Hr & Hat & Hbase).
  unfold WsConnection.Ws.step in E. rewrite Hd, Hu, Es in E. cbn [orb] in E.
  rewrite bool_decide_eq_false_2 in E by (by intros [? ?]).
  assert (Hread : forall b, rest = [FTry] -> comes_to b (env_of m) (conn m) v fs x ->
    advances (enter b [FTry] (with_stack m [FTry])) fs x [] given ms v).
  { intros b -> Hcb'. eapply enter_reads; try done; [|by rewrite app_nil_r|by rewrite app_nil_r].
    rewrite Es, currents_cons in Hone, Ht. split; try done; cbn in *; by destruct f. }
  assert (Hstart : comes_to (start_read_header string_max_size) (env_of m) (conn m) v fs x)
    by (by eapply start_read_comes_to).
  rewrite !elem_of_cons, elem_of_nil in Hbase.
  destruct Hbase as [[= -> ->] | [[= -> ->] | [[= -> ->] | []]]].
  - assert (Hnext : forall m1, kept m m1 v fs x -> advances m1 fs x [] given ms v) by (intros; by eapply kept_advances).
    assert (Hpop : kept m (with_stack m [FReadNext; FTry]) v fs x).
    { split_and!; [|rewrite Es in Hone, Ht; by split|done].
      apply (ph_next _ _ _ _ [] [FReadNext; FTry]); try done. apply list_elem_of_further, list_elem_of_here. }
    assert (Huser : user_event st cb_throws m ev = Some m' -> kept m m' v fs x) by (intros E'; eapply user_step; eauto).
    unfold user_event in *. rewrite Ha in *.
    destruct ev; try done; (split; [done|]); apply Hnext; try (by apply Huser); injection E as <-; [done|].
    destruct Hpop as (H1 & H2 & H3). split_and!; [| |cbn; by rewrite messages_app, app_nil_r].
    + eapply phase_same; try done. exists []. by split; [|constructor].
    + by destruct H2.
  - destruct ev; try done. injection E as <-. split; [done|]. apply Hread; [done|].
    unfold comes_to, run_frame. apply spec_bind, spec_gets. rewrite (proj1 (proj1 Hat)).
    rewrite bool_decide_eq_false_2 by done. exact Hstart.
  - destruct ev; try done. injection E as <-. split; [done|]. by apply Hread.
Qed.
Lemma prefix_short {A} (x y z : list A) : x `prefix_of` y ++ z -> (length x <= length y)%nat -> x `prefix_of` y.
Proof.
  intros [k E] H. exists (drop (length x) y). apply (f_equal (take (length y))) in E.
  rewrite take_app_length, take_app_ge in E by lia.
  set (w := take (length y - length x) k) in E. clearbody w. subst y. by rewrite drop_app_length.
Qed.

Lemma read_step m data m' v fs x given ms :
  stands m v fs x given ms -> stack m = [] -> outside st string_max_size cb_throws m (EReadDone no_error data) = Some m' ->
  x ++ data `prefix_of` mjoin (wire <$> fs) -> advances m' fs x data given ms v.
Proof.
  intros H Es E Hpre. pose proof H as (Hp & Hw & Hl & Hms & Hwf & _). unfold outside in E.
  destruct (reads m) as [|op ops] eqn:Er; [done|]. destruct (length data <=? read_capacity op)%nat eqn:El; [|done].
  apply Nat.leb_le in El. injection E as <-. pose proof Hw as [Ha Hd Hg Hcl Hone Ht]. rewrite Es in Hone, Ht.
  assert (Hw' : forall ops, writing (with_stack (with_ops m ops (writes m)) [FTry])) by (intros; by split).
  destruct Hp as [H1 H2 H3 H4 H5 H6|H1 H3 H4 H5|f fs' x' H1 H4 H5 H6 H7 H8|ws base H1 H2 H3 H4 H5 H6]; [congruence|..].
  - assert (op = ReadHeader /\ ops = []) as [-> ->] by (split; congruence).
    eapply enter_reads; try done. cbn [on_read]. by eapply read_header_comes_to.
  - assert (op = ReadPayload (length x') (length f.2 - length x') true /\ ops = []) as [-> ->] by (split; congruence).
    subst fs x. cbn [read_capacity] in El. eapply enter_reads; try done. cbn [on_read].
    rewrite <- app_assoc. eapply read_payload_comes_to; try done.
    cbn [fmap list_fmap mjoin list_join] in Hpre. unfold wire in Hpre at 1. rewrite <- !app_assoc in Hpre.
    apply prefix_app_inv in Hpre. eapply prefix_short; [exact Hpre|].
    destruct H7 as (_ & d & y & z & _ & Hf & _). rewrite Hf, !length_app in *. lia.
  - rewrite Er in H2. done.
Qed.

Lemma write_step m m' v fs x given ms :
  stands m v fs x given ms -> stack m = [] -> outside st string_max_size cb_throws m (EWriteDone no_error) = Some m' ->
  advances m' fs x [] given ms v.
Proof.
  intros H Es E. eapply kept_advances; [done|]. destruct H as (Hp & [Ha [Hd Hu] Hg Hcl Hone Ht] & _).
  unfold outside in E. destruct (Nat.ltb_spec 0 (writes m)) as [E0|]; [|done]. injection E as <-.
  rewrite Es in Hone, Ht. cbn in Hone, Ht.
  change (kept (with_ops m (reads m) (writes m - 1)) (enter (after_write no_error) [FTry] (with_ops m (reads m) (writes m - 1))) v fs x).
  eapply enter_quiet; [done | done | done | |].
  - eapply phase_same; try done. exists [FTry]. cbn. rewrite Es. by repeat constructor.
  - unfold after_write. rewrite bool_decide_eq_true_2 by done. apply spec_ret. split_and!; try done.
    exists [FCurrentWriteCtx; FTry]. cbn. split_and!; [done|by repeat constructor|lia|intros _; apply Ht; lia].
Qed.

Lemma check_step m m' v fs x given ms :
  stands m v fs x given ms -> stack m = [] -> write_timed_out m = false ->
  outside st string_max_size cb_throws m ECheckTimeout = Some m' -> advances m' fs x [] given ms v.
Proof.
  intros H Es Hin E. eapply kept_advances; [done|]. destruct H as (Hp & [Ha [Hd Hu] Hg Hcl Hone Ht] & _).
  unfold outside in E. destruct (0 <? t_queued _)%nat; [|done]. injection E as <-.
  set (m1 := with_conn m _). rewrite Es in Hone, Ht.
  change (kept m1 (enter check_timeout [FTry] m1) v fs x). eapply enter_quiet; [done | done | done | |].
  - eapply phase_same; try done. exists [FTry]. cbn. rewrite Es. by repeat constructor.
  - unfold check_timeout, check_timeout_impl, init_next_timeout_checking.
    apply spec_bind, spec_ask, spec_bind, spec_gets.
    change (transmitting (id (conn m1)) && _) with (write_timed_out m). rewrite Hin.
    change (m_close_frame_from_peer_timeout_after (id (conn m1))) with (m_close_frame_from_peer_timeout_after (conn m)).
    rewrite Hcl. apply spec_bind, spec_modify, spec_ret. split_and!; try done. exists []. cbn in *.
    by rewrite !Nat.add_0_r in *.
Qed.

(** One step of the machine. *)
Lemma step_advances m ev m' v fs x given ms :
  stands m v fs x given ms -> benign ev -> in_time m ev = true -> step m ev = Some m' -> x ++ arrived ev `prefix_of` mjoin (wire <$> fs) ->
  advances m' fs x (arrived ev) given ms v.
Proof.
  intros H Hb Hin E Hpre. destruct (stack m) as [|f rest] eqn:Es.
  2: { by destruct (stack_step m ev m' v fs x given ms f rest H Hb Es E) as [-> ?]. }
  pose proof H as (Hp & Hw & _). pose proof Hw as [Ha [Hd Hu] Hg Hcl Hone Ht].
  unfold WsConnection.Ws.step in E. rewrite Hd, Hu, Es in E. cbn [orb] in E.
  rewrite bool_decide_eq_false_2 in E by (by intros [? ?]).
  assert (Huser : user_event st cb_throws m ev = Some m' -> advances m' fs x [] given ms v)
    by (intros E'; eapply kept_advances; [done|]; eapply user_step; eauto).
  destruct ev; try (cbn [benign] in Hb; by destruct Hb); try (by apply Huser).
  - cbn [benign] in Hb. subst ec. by eapply read_step.
  - cbn [benign] in Hb. subst ec. by eapply write_step.
  - cbn [outside] in E. destruct (t_waiting _); [|done]. injection E as <-. eapply kept_advances; [done|].
    split_and!; [|by split|done]. eapply phase_same; try done. exists []. by split; [|constructor].
  - eapply check_step; try done. cbn [in_time] in Hin. by apply negb_true_iff in Hin.
  - cbn [outside] in E. destruct (0 <=? d); [|done]. injection E as <-. eapply kept_advances; [done|]. by apply kept_quiet.
Qed.
(** *** Runs *)

Definition stream (fs : list wire_frame) : bytes := mjoin (wire <$> fs).
Definition arrivals (es : list event) : bytes := mjoin (arrived <$> es).

Lemma run_advances es : forall m m' v fs x given ms,
  stands m v fs x given ms -> Forall benign es -> timely m es = true -> run_events m es = Some m' ->
  x ++ arrivals es `prefix_of` stream fs ->
  exists k v' x', x ++ arrivals es = stream (take k fs) ++ x' /\
    stands m' v' (drop k fs) x' (given ++ take k ms) (drop k ms).
Proof.
  induction es as [|e es IH]; intros m m' v fs x given ms H Hb Hin E Hpre.
  - injection E as <-. exists 0%nat, v, x. unfold arrivals. cbn [fmap list_fmap mjoin list_join]. by rewrite !app_nil_r.
  - apply Forall_cons in Hb as [Hb Hbs]. cbn [WsConnection.Ws.run_events timely] in E, Hin.
    apply andb_true_iff in Hin as [Hin Hins]. destruct (step m e) as [m1|] eqn:Es; [|done].
    change (arrivals (e :: es)) with (arrived e ++ arrivals es) in *. rewrite app_assoc in Hpre |- *.
    assert (Hpre1 : x ++ arrived e `prefix_of` mjoin (wire <$> fs)) by (etrans; [|exact Hpre]; by eexists).
    destruct (step_advances m e m1 v fs x given ms H Hb Hin Es Hpre1) as [H1|(f & fs' & v1 & x1 & d & ms' & -> & Ex & -> & H1)].
    + destruct (IH _ _ _ _ _ _ _ H1 Hbs Hins E Hpre) as (k & v' & x' & E' & H'). by exists k, v', x'.
    + rewrite Ex, <- app_assoc in Hpre |- *. change (stream (f :: fs')) with (wire f ++ stream fs') in Hpre.
      apply prefix_app_inv in Hpre. destruct (IH _ _ _ _ _ _ _ H1 Hbs Hins E Hpre) as (k & v' & x' & E' & H').
      exists (S k), v', x'. rewrite E', app_assoc.
      split; [done|]. by rewrite <- app_assoc in H'.
Qed.

Lemma start_stands t response fs ms : decode (new_validator true) fs = Some ms -> Forall (frame_wf string_max_size) fs ->
  stands (start st cb_throws t response) (new_validator true) fs [] [] ms.
Proof.
  intros Hms Hwf. split_and!; try done; [| |by eexists].
  - apply ph_idle; try done; first [apply holds_create | by repeat constructor].
  - split; [done|done| |done|exact (Nat.le_0_l 1)|intros E; discriminate E]. split; [by repeat constructor|done].
Qed.

(** *** Draining the stack *)

(** How many steps the methods on the stack can still make, with [q] groups in
    the queue and [r] bytes in the buffer. *)
Definition weight (q r : nat) (f : frame) : nat :=
  match f with
  | FTry | FHandler => 1
  | FInitWriteIfNecessary => 4 * q + 2
  | FCurrentWriteCtx => 4 * q + 4
  | FReadNext | FStartReadHeader => 3 * r + 3
  | _ => 0
  end.
Definition weights q r (fs : list frame) : nat := sum_list (weight q r <$> fs).
Definition mass m : nat :=
  weights (length (m_outgoing_data (conn m))) (Z.to_nat (FixedBuffer.m_ready_length (m_buf (m_input (conn m))))) (stack m).

Lemma ws_weights_app q r l1 l2 : weights q r (l1 ++ l2) = (weights q r l1 + weights q r l2)%nat.
Proof. unfold weights. by rewrite fmap_app, sum_list_with_app. Qed.

Lemma weights_le q q' r fs : (q' <= q)%nat -> (weights q' r fs <= weights q r fs)%nat.
Proof. intros H. unfold weights. induction fs as [|f fs IH]; cbn; [lia|]. destruct f; cbn [weight]; lia. Qed.

Lemma enter_mass b rest m (Q : list frame -> ws_connection_t -> Prop) :
  run_spec b (env_of m) (conn m) (fun r c' w => exists fr, r = Ok fr /\ Q fr c') ->
  exists fr c', Q fr c' /\ conn (enter b rest m) = c' /\ stack (enter b rest m) = fr ++ rest.
Proof.
  unfold run_spec, enter. destruct (b (env_of m) (conn m)) as [[r c'] w]. intros (fr & -> & H). by exists fr, c'.
Qed.

Lemma write_frame_mass m f rest : writing m -> stack m = f :: rest -> write_frame f = true ->
  exists m', step m ERun = Some m' /\ (mass m' < mass m)%nat.
Proof.
  intros [Ha [Hd Hu] Hg Hcl Ho Ht] Es Hf. unfold WsConnection.Ws.step. rewrite Hd, Hu, Es. cbn [orb].
  rewrite bool_decide_eq_false_2 by (by intros [? ?]).
  set (c := conn m) in *. set (q := length (m_outgoing_data c)).
  set (r := Z.to_nat (FixedBuffer.m_ready_length (m_buf (m_input c)))).
  assert (Hk : forall b, run_spec b (env_of m) c (fun res c' w => exists fr, res = Ok fr /\ m_input c' = m_input c /\
      (length (m_outgoing_data c') <= q)%nat /\ (weights (length (m_outgoing_data c')) r fr < weight q r f)%nat) ->
    exists m', Some (enter b rest (with_stack m rest)) = Some m' /\ (mass m' < mass m)%nat).
  { intros b Hb. eexists. split; [done|]. destruct (enter_mass b rest (with_stack m rest) _ Hb)
      as (fr & c' & (Hi & Hq & Hw) & Ec & Est).
    unfold mass. rewrite Ec, Est, Es, Hi, ws_weights_app. fold c q r.
    pose proof (weights_le q (length (m_outgoing_data c')) r rest Hq).
    change (weights q r (f :: rest)) with (weight q r f + weights q r rest)%nat. lia. }
  destruct f; try done; apply Hk; clear Hk.
  - apply spec_ret. exists []. cbn. split_and!; try done; lia.
  - eapply spec_weaken; [by apply init_write_quiet|]. intros res c' w (H1 & _ & _ & _ & H5).
    destruct H1 as (Hi & _). fold q in H5. destruct H5 as [(-> & _ & E)|(-> & _ & _ & E)].
    + exists []. rewrite E. cbn. split_and!; try done; lia.
    + exists [FCurrentWriteCtx; FTry]. cbn. fold q in E. split_and!; try done; lia.
  - rewrite Es, currents_cons in Ht, Ho. eapply spec_weaken; [apply current_write_quiet; [done | apply Ht; cbn in *; lia]|].
    intros res c' w ((Hi & _) & _ & _ & E & [(-> & _)|(-> & _)]); rewrite E.
    + exists []. cbn. split_and!; try done; lia.
    + exists [FInitWriteIfNecessary]. cbn. fold q. split_and!; try done; lia.
Qed.

Lemma outcome_mass v fs x fr c c' w : outcome v fs x fr c' w -> same_writing c c' -> buffered c x ->
  let r c := Z.to_nat (FixedBuffer.m_ready_length (m_buf (m_input c))) in
  (weights (length (m_outgoing_data c')) (r c') (fr ++ [FTry]) <
   weights (length (m_outgoing_data c)) (r c) [FReadNext; FTry])%nat.
Proof.
  intros H (_ & Eq & _) Hb. cbv zeta. rewrite Eq, (h_length _ _ Hb), Nat2Z.id. unfold weights.
  destruct H as [c' H|c' f fs' x' -> -> H|c' f fs' d v' b -> Hr -> [_ Hb']]; [cbn; lia..|].
  rewrite (h_length _ _ Hb'), Nat2Z.id, length_app. cbn. unfold wire. rewrite length_app.
  assert (length (write_message_details f.1) <> 0)%nat; [|lia].
  unfold write_message_details. cbv zeta. rewrite !length_app. cbn. lia.
Qed.

(** Steps the connection and its handler make by themselves. *)
Definition internal (ev : event) : Prop := ev = ERun \/ ev = EHandlerReturns.

Lemma internal_benign ev : internal ev -> benign ev /\ arrived ev = [] /\ forall m, in_time m ev = true.
Proof. by intros [-> | ->]. Qed.

Lemma timely_internal es1 : forall es2 m, timely m es1 = true -> Forall internal es2 -> timely m (es1 ++ es2) = true.
Proof.
  induction es1 as [|ev es1 IH]; intros es2 m; cbn [timely app].
  - intros _. intros Hi. revert m. induction Hi as [|ev es2 H _ IH2]; intros m; [done|]. cbn [timely].
    apply internal_benign in H as (_ & _ & ->). destruct (step m ev); [apply IH2 | done].
  - intros [-> H]%andb_true_iff Hi. destruct (step m ev); [by apply IH | done].
Qed.

Lemma internal_run es : Forall internal es -> Forall benign es /\ arrivals es = [].
Proof.
  induction 1 as [|ev es H _ [IH1 IH2]]; [done|]. apply internal_benign in H as (H1 & H2 & _). split; [by constructor|].
  change (arrivals (ev :: es)) with (arrived ev ++ arrivals es). by rewrite H2, IH2.
Qed.

Lemma stack_mass m v fs x given ms f rest : stands m v fs x given ms -> stack m = f :: rest ->
  exists ev m', step m ev = Some m' /\ internal ev /\ (mass m' < mass m)%nat.
Proof.
  intros (Hp & Hw & Hl & Hms & Hwf & Hx) Es. destruct (write_frame f) eqn:Ef.
  { destruct (write_frame_mass m f rest Hw Es Ef) as (m' & E & H). exists ERun, m'. split_and!; [done|by left|done]. }
  destruct (phase_idle_stack _ _ _ _ _ _ Hp Es Ef) as (Hact & Hr & Hat & Hbase).
  pose proof Hw as [Ha [Hd Hu] Hg Hcl Hone Ht].
  assert (Hstart : comes_to (start_read_header string_max_size) (env_of m) (conn m) v fs x)
    by (by eapply start_read_comes_to).
  assert (Hread : forall b, rest = [FTry] -> weight 0 0 f = 3%nat ->
    (forall q r, weight q r f = weight q r FReadNext) -> comes_to b (env_of m) (conn m) v fs x ->
    (mass (enter b [FTry] (with_stack m [FTry])) < mass m)%nat).
  { intros b Er _ Hf Hb. eapply spec_weaken in Hb.
    - apply (enter_mass b [FTry] (with_stack m [FTry]) (fun fr c' => exists w, outcome v fs x fr c' w /\ same_writing (conn m) c')) in Hb.
      destruct Hb as (fr & c' & (w & Ho & Hs) & Ec & Est). unfold mass. rewrite Ec, Est, Es, Er.
      pose proof (outcome_mass v fs x fr (conn m) c' w Ho Hs (proj2 Hat)) as H. cbv zeta in H.
      unfold weights in *. cbn [fmap list_fmap sum_list sum_list_with] in *. rewrite Hf. exact H.
    - intros r c' w ((fr & -> & Ho) & Hs). exists fr. split; [done|]. by exists w. }
  unfold WsConnection.Ws.step. rewrite Hd, Hu, Es. cbn [orb]. rewrite bool_decide_eq_false_2 by (by intros [? ?]).
  rewrite !elem_of_cons, elem_of_nil in Hbase. destruct Hbase as [[= -> ->] | [[= -> ->] | [[= -> ->] | []]]].
  - exists EHandlerReturns. eexists. split_and!; [done|by right|]. unfold mass. rewrite Es. cbn. lia.
  - exists ERun. eexists. split_and!; [done|by left|]. apply Hread; [done..|].
    unfold comes_to, run_frame. apply spec_bind, spec_gets. rewrite (proj1 (proj1 Hat)).
    rewrite bool_decide_eq_false_2 by done. exact Hstart.
  - exists ERun. eexists. split_and!; [done|by left|]. by apply Hread.
Qed.

(** From any state on the way, the connection comes to wait for the network
    again, if the handler returns. *)
Lemma drains n : forall m v fs x given ms, stands m v fs x given ms -> (mass m <= n)%nat ->
  exists es m', run_events m es = Some m' /\ stack m' = [] /\ Forall internal es /\ (length es <= n)%nat.
Proof.
  induction n as [|n IH]; intros m v fs x given ms H Hn; (destruct (stack m) as [|f rest] eqn:Es;
    [exists [], m; split_and!; try done; cbn; lia|]);
    destruct (stack_mass _ _ _ _ _ _ _ _ H Es) as (ev & m1 & E & Hi & Hm); [lia|].
  assert (Hs : exists v fs x given ms, stands m1 v fs x given ms).
  { destruct (internal_benign _ Hi) as (Hb & Har & Hin).
    pose proof H as (_ & _ & _ & _ & _ & Hx). rewrite <- (app_nil_r x), <- Har in Hx.
    destruct (step_advances m ev m1 v fs x given ms H Hb (Hin m) E Hx) as [H1|(g & fs' & v' & x' & d & ms' & _ & _ & _ & H1)];
      by do 5 eexists. }
  destruct Hs as (v1 & fs1 & x1 & given1 & ms1 & H1).
  destruct (IH m1 v1 fs1 x1 given1 ms1 H1 ltac:(lia)) as (es & m' & E' & Es' & Hbs & Hl).
  exists (ev :: es), m'. cbn [WsConnection.Ws.run_events]. rewrite E. split_and!; try done; [by constructor | cbn; lia].
Qed.


(** No whole frame is left unread when the connection waits. *)
Lemma waiting_is_partial m v f fs x : phase m v (f :: fs) x -> stack m = [] -> details_wf f.1 -> ~ wire f `prefix_of` x.
Proof.
  intros H Es Hmd [k E]. unfold wire in E. rewrite <- app_assoc in E.
  assert (Hh : forall p, ~ read_part x p).
  { intros p [Hp Hf]. destruct (parse_whole f.1 Hmd (f.2 ++ k)) as (q & Hq & Hh & _).
    rewrite <- E, Hp in Hq. injection Hq as _ ->. congruence. }
  destruct H as [H1 -> H3 H4 H5 H6|H1 H3 H4 H5|g fs' x' H1 H4 H5 H6 H7 H8|ws base H1 H2 H3 H4 H5 H6].
  - exact (Hh _ read_part_nil).
  - destruct H5 as (_ & _ & Hp & _). by eapply Hh.
  - injection H5 as <- <-. rewrite H6 in E. apply app_inv_head in E.
    destruct H7 as (_ & d & y & z & _ & Hf & Hy & _). rewrite Hf, <- app_assoc in E.
    apply (f_equal length) in E. rewrite !length_app in E. destruct y; [done|]. cbn in E. lia.
  - rewrite Es in H3. symmetry in H3. apply app_eq_nil in H3 as (-> & ->). rewrite !elem_of_cons, elem_of_nil in H5.
    by destruct H5 as [? | [? | [? | []]]].
Qed.
(** The state after a run, seen from the start. *)
Lemma stream_state t response fs es m : is_Some (decode (new_validator true) fs) ->
  Forall (frame_wf string_max_size) fs -> Forall benign es -> timely (start st cb_throws t response) es = true ->
  arrivals es `prefix_of` stream fs -> run_events (start st cb_throws t response) es = Some m ->
  uncaught m = None /\ (exists v fs x given ms, stands m v fs x given ms) /\
  exists k x, arrivals es = stream (take k fs) ++ x /\ messages (log m) = plain <$> take k fs /\
    (stack m = [] -> forall f, fs !! k = Some f -> ~ wire f `prefix_of` x).
Proof.
  intros [ms Hms] Hwf Hb Hin Hpre E.
  destruct (run_advances es _ m _ fs [] [] ms (start_stands t response fs ms Hms Hwf) Hb Hin E Hpre)
    as (k & v' & x & Ex & H). pose proof H as (Hp & Hw & Hl & _ & Hwf' & _).
  split; [apply Hw|]. split; [by do 5 eexists|]. exists k, x. split; [done|]. split.
  { pose proof (decode_plain fs (new_validator true) ms eq_refl Hms) as ->. by rewrite Hl, <- fmap_take. }
  intros Es f Hf. rewrite (drop_S _ _ _ Hf) in Hp, Hwf'. apply Forall_cons in Hwf' as [[Hmd _] _].
  by eapply waiting_is_partial.
Qed.
End Reading.

Section Claims.
Context (st : Z * Z) (string_max_size : Z).
Context (cb_throws : notificator -> error_code -> bool) {Other : OtherExceptions} (asio_max_iov_len : Z) (t : Z) (response : bytes).
Abbreviation run := (run_events st string_max_size cb_throws asio_max_iov_len).
Abbreviation upgraded := (start st cb_throws t response).

(** C5 (functional). Let a client send frames [fs] that the validator accepts
    and of which none is a close frame, and let their bytes reach the connection
    in reads of any size, interleaved with completed writes, with messages the
    user sends, with timer ticks and with runs of [check_timeout], none of which finds a write that has
    lasted longer than it may. Suppose that the user does not close the websocket, that no notificator of the user
    throws, and that what the handler throws is derived from [std::exception]. Then, at every moment, no exception has
    left the connection and the messages given to the handler are those of the
    first [k] frames, unmasked and in order; all the other bytes that have
    arrived, [x], are of the frames that follow, and when the connection waits
    for the network they do not contain a whole frame. *)
Theorem stream_is_delivered fs es m (Hcb : forall n ec, cb_throws n ec = false) (Hothers : forall n ec, throws_other n ec = false)
    (Hms : is_Some (decode (new_validator true) fs)) (Hwf : Forall (frame_wf string_max_size) fs)
    (Hb : Forall benign es) (Hin : timely st string_max_size cb_throws asio_max_iov_len upgraded es = true)
    (Hpre : arrivals es `prefix_of` stream fs) (E : run upgraded es = Some m) :
  uncaught m = None /\
  exists k x, arrivals es = stream (take k fs) ++ x /\ messages (log m) = plain <$> take k fs /\
    (stack m = [] -> forall f, fs !! k = Some f -> ~ wire f `prefix_of` x).
Proof.
  by destruct (stream_state st string_max_size cb_throws asio_max_iov_len Hcb Hothers t response fs es m) as (H1 & _ & H2).
Qed.

(** C6 (liveness). Under the same conditions (no operation fails, no check of the timeouts finds a write that has lasted too
    long, no notificator throws, the user does not close the websocket and the handler throws nothing but a
    [std::exception]), once all the bytes of such frames have arrived, a bounded
    number of steps of the connection and of its handler, of which none needs the
    network, the timer or the user, delivers every message. *)
Theorem every_message_is_delivered fs es m (Hcb : forall n ec, cb_throws n ec = false) (Hothers : forall n ec, throws_other n ec = false)
    (Hms : is_Some (decode (new_validator true) fs)) (Hwf : Forall (frame_wf string_max_size) fs)
    (Hb : Forall benign es) (Hin : timely st string_max_size cb_throws asio_max_iov_len upgraded es = true)
    (Hall : arrivals es = stream fs) (E : run upgraded es = Some m) :
  exists es' m', Forall internal es' /\ (length es' <= mass m)%nat /\ run m es' = Some m' /\ stack m' = [] /\
    messages (log m') = plain <$> fs.
Proof.
  destruct (stream_state st string_max_size cb_throws asio_max_iov_len Hcb Hothers t response fs es m) as
    (_ & (v & fs1 & x1 & given & ms & H) & _); [done..|by rewrite Hall|done|].
  destruct (drains st string_max_size cb_throws asio_max_iov_len Hcb Hothers (mass m) m v fs1 x1 given ms H (Nat.le_refl _))
    as (es' & m' & E' & Es & Hi & Hl).
  exists es', m'. split_and!; [done..|]. destruct (internal_run es' Hi) as [Hb' Ha'].
  assert (Hall' : arrivals (es ++ es') = stream fs) by (unfold arrivals in *; by rewrite fmap_app, join_app, Ha', app_nil_r).
  destruct (stream_state st string_max_size cb_throws asio_max_iov_len Hcb Hothers t response fs (es ++ es') m')
    as (_ & _ & k & x & Ek & Em & Hk); [done..|by apply Forall_app|by apply timely_internal|by rewrite Hall'|by rewrite ws_run_app, E|].
  rewrite Em. specialize (Hk Es). rewrite Hall' in Ek. destruct (fs !! k) as [f|] eqn:Ef.
  - exfalso. apply (Hk f eq_refl). rewrite <- (take_drop k fs), (drop_S _ _ _ Ef) in Ek at 1.
    unfold stream in Ek. rewrite fmap_app, join_app in Ek. apply app_inv_head in Ek. rewrite <- Ek. by eexists.
  - by rewrite take_ge by (by apply lookup_ge_None).
Qed.
End Claims.

(** A client's frame with a payload. *)
Definition masked_frame (final_flag : final_frame_flag_t) (opcode key : Z) (payload : bytes) : wire_frame :=
  (details_masked final_flag opcode (Z.of_nat (length payload)) key, mask_unmask_payload key payload).

Definition example_frames : list wire_frame :=
  [masked_frame not_final_frame text_frame 0x01020304 (str "Hel"); masked_frame final_frame ping_frame 0x0A0B0C0D [];
   masked_frame final_frame continuation_frame 0x11223344 (str "lo, world, lo, world, lo")].

Section Example.
#[local] Existing Instance no_other_exceptions.
Abbreviation settings := (5, 60).
Abbreviation never := (fun (_ : notificator) (_ : error_code) => false).

(** The first read ends inside a header, the third and the fourth inside a
    payload; a message is sent between them, and the timeouts are checked when the write may end just in time. *)
Definition example_events (last : nat) : list event :=
  let bs := stream example_frames in
  [ERun; ERun; ERun; ERun; EActivate; ERun; ERun; EReadDone no_error (take 14 bs); EHandlerReturns; ERun; ERun;
   ESendMessage final_frame text_frame (TrivialItem (str "hi")) None; ERun; ERun;
   EReadDone no_error (take 10 (drop 14 bs)); EHandlerReturns; ERun; ERun; ETick 5; ETimerExpires; ECheckTimeout; ERun; EWriteDone no_error;
   ERun; ERun; ERun;
   ERun; ERun; ERun; EReadDone no_error (take 5 (drop 24 bs)); ERun; EReadDone no_error (take last (drop 29 bs))].

Lemma example_frames_wf : Forall (frame_wf 1000) example_frames.
Proof.
  unfold example_frames. repeat (apply Forall_cons; split; [|]); [..|constructor];
    (split; [unfold details_wf; vm_compute; intuition congruence | split; [vm_compute; reflexivity | vm_compute; congruence]]).
Qed.

Lemma example_events_benign last : Forall benign (example_events last).
Proof. unfold example_events. repeat constructor; cbn; lia || done. Qed.

Lemma stream_is_delivered_witness : exists m,
  run_events settings 1000 never 64 (start settings never 0 (str "101")) (example_events 10) = Some m /\ uncaught m = None /\
  exists k x, arrivals (example_events 10) = stream (take k example_frames) ++ x /\
    messages (log m) = plain <$> take k example_frames /\
    (stack m = [] -> forall f, example_frames !! k = Some f -> ~ wire f `prefix_of` x).
Proof.
  eexists. split; [vm_compute; reflexivity|].
  apply (stream_is_delivered settings 1000 never 64 0 (str "101") example_frames (example_events 10)).
  - done.
  - done.
  - vm_compute. by eexists.
  - exact example_frames_wf.
  - apply example_events_benign.
  - vm_compute. reflexivity.
  - exists (drop 10 (drop 29 (stream example_frames))). vm_compute. reflexivity.
  - vm_compute. reflexivity.
Defined.

Lemma every_message_is_delivered_witness : exists m,
  run_events settings 1000 never 64 (start settings never 0 (str "101")) (example_events 16) = Some m /\
  exists es' m', Forall internal es' /\ (length es' <= mass m)%nat /\ run_events settings 1000 never 64 m es' = Some m' /\
    stack m' = [] /\ messages (log m') = plain <$> example_frames.
Proof.
  eexists. split; [vm_compute; reflexivity|].
  apply (every_message_is_delivered settings 1000 never 64 0 (str "101") example_frames (example_events 16)).
  - done.
  - done.
  - vm_compute. by eexists.
  - exact example_frames_wf.
  - apply example_events_benign.
  - vm_compute. reflexivity.
  - vm_compute. reflexivity.
  - vm_compute. reflexivity.
Defined.
End Example.

