(* ===== verification/WsFaults.v ===== *)
(** * Runs of the WebSocket connection that do not do what they are meant to

    Each is a whole run of the machine of [WsConnection], from the upgrade on. *)

From S2P Require Import Prelude Effects InputBuffer Sendfile WriteGroup OutputCtx Headers.
From S2P Require Import WsParser WsValidator WsConnection WsStream.

Import Ws.

Section Runs.
#[local] Existing Instance no_other_exceptions.
Abbreviation settings := (5, 60).
Abbreviation never := (fun (_ : notificator) (_ : error_code) => false).

(** The events in order; after each, the connection runs until it waits for one. *)
Definition drive (es : list event) : option machine :=
  script settings 1000 never 64 50 (settle settings 1000 never 64 50 (start settings never 0 (str "101"))) es.

Definition from_client (op : Z) (payload : bytes) : event :=
  EReadDone no_error (wire (masked_frame final_frame op 0x01020304 payload)).

Definition observe (m : option machine) : option (list frame * list read_op * list effect) :=
  m ← m; Some (stack m, reads m, log m).

(** The messages a run gives to the handler after the first events of the log. *)
Definition handled (m : option machine) : option (list message_t) := m ← m; Some (messages (log m)).

Definition close_sent : effect := Appended (write_group [TrivialItem [136; 2]; TrivialItem [3; 239]]) true.
Definition close_given : effect := CallHandler (mk_message final_frame connection_close_frame [3; 239]).
Definition opening : list effect :=
  [Appended (write_group [TrivialItem (str "101")]) false; AsyncWrite [str "101"]; AsyncRead ReadHeader].

(** A text message that ends inside a symbol is refused when its frame is
    finished. The close frame is sent, the connection waits for the client's, and
    reads no more: only the timeout can end it. *)
Fact unfinished_text_stops_reading :
  observe (drive [EActivate; from_client text_frame [0xE2]; EHandlerReturns])
  = Some ([], [], opening ++ [close_sent; close_given]).
Proof. vm_compute. reflexivity. Qed.

(** The same text with a byte that is never part of UTF-8 makes it read on. *)
Fact invalid_text_reads_on :
  observe (drive [EActivate; from_client text_frame [0xFF]; EHandlerReturns])
  = Some ([], [ReadHeader], opening ++ [close_sent; close_given; AsyncRead ReadHeader]).
Proof. vm_compute. reflexivity. Qed.

(** But then the client's answer, a close frame with code 1000 and a reason, is
    taken for invalid text, because the checker was not repaired by the reset of
    the validator: the connection is not closed, it waits for another frame. *)
Fact answer_with_reason_is_refused :
  observe (drive [EActivate; from_client text_frame [0xFF]; EHandlerReturns;
                  from_client connection_close_frame ([3; 232] ++ str "bye")])
  = Some ([], [ReadHeader], opening ++ [close_sent; close_given; AsyncRead ReadHeader; AsyncRead ReadHeader]).
Proof. vm_compute. reflexivity. Qed.

(** A close frame may be the frame whose text is invalid: the validator is reset
    and the rest of the frame skipped also for it. *)
Fact invalid_reason_reads_on :
  observe (drive [EActivate; from_client connection_close_frame ([3; 232] ++ [0xFF])])
  = Some ([FHandler; FSkipPayload 3 0; FTry], [], opening ++ [close_sent; close_given]).
Proof. vm_compute. reflexivity. Qed.

(** Two frames arrive together; the handler of the first message kills the
    connection, and gets the second one all the same. *)
Fact message_after_kill :
  handled (drive [EActivate; EReadDone no_error (wire (masked_frame final_frame text_frame 1 []) ++
                                                 wire (masked_frame final_frame text_frame 2 [])); EKill; EHandlerReturns])
  = Some [mk_message final_frame text_frame []; mk_message final_frame text_frame []].
Proof. vm_compute. reflexivity. Qed.

(** A failed write closes the connection and gives the handler a close message;
    a close frame that had been read by then gives it a second one. And the answer
    to it, started after the failure, lacks its first item, the header, because
    the index of the failed group is not reset. *)
Fact two_close_messages :
  observe (drive [EActivate; EWriteDone (network_error 104); EHandlerReturns;
                  from_client connection_close_frame [3; 232]; EHandlerReturns])
  = Some ([], [], opening ++
      [LogError (write_error (network_error 104));
       CallHandler (mk_message final_frame connection_close_frame [3; 238]); SocketShutdown; SocketClose;
       Appended (write_group [TrivialItem [136; 2]; TrivialItem [3; 232]]) true; AsyncWrite [[3; 232]];
       CallHandler (mk_message final_frame connection_close_frame [3; 232])]).
Proof. vm_compute. reflexivity. Qed.
(** The handler throws an exception that is not derived from [std::exception]: it leaves the completion handler of the
    read, which is [noexcept]. *)
Fact message_handler_ends_program :
  (m ← drive [EActivate; from_client text_frame (str "a"); EHandlerThrowsOther]; Some (uncaught m)) = Some (Some other_exception).
Proof. vm_compute. reflexivity. Qed.

(** The same exception is only logged when the handler is told that the connection is lost. *)
Fact close_handler_does_not :
  (m ← drive [EActivate; EReadDone (network_error 104) []; EHandlerThrowsOther]; Some (uncaught m, stack m, drop 4 (log m)))
  = Some (None, [], [CallHandler (mk_message final_frame connection_close_frame [3; 238]); LogSuppressed;
                     SocketShutdown; SocketClose]).
Proof. vm_compute. reflexivity. Qed.
End Runs.
