(* ===== verification/EasyParser.v ===== *)
(** * The easy parser

    [restinio/helpers/easy_parser.hpp]: a recursive-descent parser made of
    producers, which read a value from the input, clauses, which read
    something and change a target object, consumers and transformers. A
    producer is a function on the input stream that returns a value or an
    error together with the stream it leaves, a clause one that also carries
    the target; the class templates of the C++ code are combinators on such
    functions, and the tuple of subitems of a template is a list. *)

From S2P Require Import Prelude IntAcc Headers.

(** ** Errors, the input stream *)

(*@ helpers/easy_parser.hpp 51-81 error_reason_t *)
Inductive error_reason_t : Type :=
| unexpected_character
| unexpected_eof
| no_appropriate_alternative
| pattern_not_found
| unconsumed_input
| illegal_value_found
| force_only_this_alternative_failed.

#[global] Instance error_reason_eq_dec : EqDecision error_reason_t.
Proof. solve_decision. Defined.

(*@ helpers/easy_parser.hpp 92-118 parse_error_t *)
Record parse_error_t : Type := mk_error { position : nat; reason : error_reason_t }.

#[global] Instance parse_error_eq_dec : EqDecision parse_error_t.
Proof. solve_decision. Defined.

(*@ helpers/easy_parser.hpp 592-596 character_t *)
Record character_t : Type := mk_char { m_eof : bool; m_ch : Z }.

(*@ helpers/easy_parser.hpp 617-617 SP *)
Definition SP : Z := 32.
(*@ helpers/easy_parser.hpp 623-623 HTAB *)
Definition HTAB : Z := 9.

(*@ helpers/easy_parser.hpp 633-638 is_space *)
Definition is_space (ch : Z) : bool := (ch =? SP) || (ch =? HTAB).

(*@ helpers/easy_parser.hpp 667-672 is_digit *)
Definition is_digit (ch : Z) : bool := (chr "0" <=? ch) && (ch <=? chr "9").

(*@ helpers/easy_parser.hpp 700-707 is_hexdigit *)
Definition is_hexdigit (ch : Z) : bool :=
  ((chr "0" <=? ch) && (ch <=? chr "9")) || ((chr "A" <=? ch) && (ch <=? chr "F")) ||
  ((chr "a" <=? ch) && (ch <=? chr "f")).

(*@ helpers/easy_parser.hpp 739-758 source_t *)
Record source_t : Type := mk_source { m_data : bytes; m_index : nat }.

Definition source (data : bytes) : source_t := mk_source data 0.

(*@ helpers/easy_parser.hpp 763-773 source_t::getch *)
Definition getch (s : source_t) : character_t * source_t :=
  match m_data s !! m_index s with
  | Some ch => (mk_char false ch, mk_source (m_data s) (m_index s + 1))
  | None => (mk_char true 0, s)
  end.

(*@ helpers/easy_parser.hpp 776-781 source_t::putback *)
Definition putback (s : source_t) : source_t :=
  if (0 <? m_index s)%nat then mk_source (m_data s) (m_index s - 1) else s.

(*@ helpers/easy_parser.hpp 784-788 source_t::current_position *)
Definition current_position (s : source_t) : nat := m_index s.

(*@ helpers/easy_parser.hpp 793-798 source_t::backto *)
Definition backto (s : source_t) (pos : nat) : source_t :=
  if (pos <=? length (m_data s))%nat then mk_source (m_data s) pos else s.

(*@ helpers/easy_parser.hpp 801-806 source_t::eof *)
Definition eof (s : source_t) : bool := (length (m_data s) <=? m_index s)%nat.

(** The destructor: what was not committed is returned. *)
(*@ helpers/easy_parser.hpp 848-890 source_t::content_consumer_t *)
Definition end_consumer (started_at : nat) (consumed : bool) (s : source_t) : source_t :=
  if consumed then s else backto s started_at.
#[global] Arguments end_consumer : simpl never.

(** ** Entities *)

Definition producer (A : Type) : Type := source_t -> result parse_error_t A * source_t.
Definition clause (T : Type) : Type := source_t -> T -> option parse_error_t * source_t * T.
Definition consumer (T A : Type) : Type := T -> A -> T.

(** The value of [Target_Type tmp_value{}]. *)
Class Default (T : Type) : Type := default_value : T.
#[global] Instance default_bytes : Default bytes := [].
#[global] Instance default_list {A} : Default (list A) := [].
#[global] Instance default_option {A} : Default (option A) := None.
#[global] Instance default_bool : Default bool := false.
#[global] Instance default_Z : Default Z := 0.
#[global] Instance default_unit : Default unit := tt.
#[global] Instance default_prod {A B} `{Default A} `{Default B} : Default (A * B) :=
  (default_value, default_value).

(** [result_value_wrapper<T>::to_container]; the one of [std::array] and
    [std::map] are not used by the parsers of the library, apart from an array
    of three characters that is as good as a string. *)
Class Container (C A : Type) : Type := add_to_container : C -> A -> C.
(*@ helpers/easy_parser.hpp 252-278 result_value_wrapper *)
#[global] Instance vector_container {A} : Container (list A) A := fun to what => to ++ [what].
(*@ helpers/easy_parser.hpp 384-390 result_value_wrapper *)
#[global] Instance string_container : Container bytes bytes := fun to what => to ++ what.

(** *** Transformers and consumers *)

Section Entities.
Context {A B T : Type}.

(*@ helpers/easy_parser.hpp 1177-1220 transformed_value_producer_t *)
Definition transformed_value_producer (p : producer A) (transform : A -> B) : producer B :=
  fun source =>
    match p source with
    | (Ok v, source) => (Ok (transform v), source)
    | (Err e, source) => (Err e, source)
    end.

(** A transformer that may fail. *)
(*@ helpers/easy_parser.hpp 1067-1088 transformer_invoker *)
Definition checked_value_producer (p : producer A) (transform : A -> result error_reason_t B)
    : producer B :=
  fun source =>
    match p source with
    | (Ok v, source) =>
        match transform v with
        | Ok b => (Ok b, source)
        | Err e => (Err (mk_error (current_position source) e), source)
        end
    | (Err e, source) => (Err e, source)
    end.

(*@ helpers/easy_parser.hpp 1472-1502 consume_value_clause_t *)
Definition consume_value_clause (p : producer A) (consume : consumer T A) : clause T :=
  fun from target =>
    match p from with
    | (Ok v, from) => (None, from, consume target v)
    | (Err e, from) => (Some e, from, target)
    end.

(*@ helpers/easy_parser.hpp 2842-2847 any_value_skipper_t *)
Definition skip : consumer T A := fun target _ => target.

(*@ helpers/easy_parser.hpp 2890-2924 just_result_consumer_t *)
Definition just_result (v : T) : consumer T A := fun _ _ => v.

(*@ helpers/easy_parser.hpp 2938-2954 custom_consumer_t *)
Definition custom_consumer (c : T -> A -> T) : consumer T A := c.

(*@ helpers/easy_parser.hpp 2967-2989 field_setter_consumer_t *)
Definition field_setter (assign : T -> A -> T) : consumer T A := fun to value => assign to value.

(*@ helpers/easy_parser.hpp 4540-4550 to_container_consumer_t *)
Definition to_container `{Container T A} : consumer T A := add_to_container.

(*@ helpers/easy_parser.hpp 3144-3162 just_value_transformer_t *)
Definition just (v : B) : A -> B := fun _ => v.

End Entities.

(*@ helpers/easy_parser.hpp 2869-2878 as_result_consumer_t *)
Definition as_result {T} : consumer T T := fun _ v => v.

(*@ helpers/easy_parser.hpp 3049-3067 to_lower_transformer_t *)
Definition to_lower (input : bytes) : bytes := to_lower_case <$> input.

(*@ helpers/easy_parser.hpp 3172-3208 convert_transformer_t *)
Definition convert {A B} (converter : A -> B) : A -> B := converter.

(*@ helpers/easy_parser.hpp 4608-4610 to_lower *)
Definition lowered (p : producer bytes) : producer bytes := transformed_value_producer p to_lower.

(** *** Clauses *)

(** [tuple_algorithms::all_of]: up to the first subitem that fails. *)
(*@ utils/tuple_algorithms.hpp 35-49 all_of *)
Fixpoint all_of {T} (subitems : list (clause T)) : clause T :=
  fun from target =>
    match subitems with
    | [] => (None, from, target)
    | one :: rest =>
        match one from target with
        | (None, from, target) => all_of rest from target
        | (Some e, from, target) => (Some e, from, target)
        end
    end.

(** The lambda of [any_of] for one alternative, then the next ones; [last] is
    [actual_parse_error] so far. *)
(*@ helpers/easy_parser.hpp 1655-1679 alternatives_clause_t::try_process *)
Fixpoint any_of {T} (subitems : list (clause T)) (last : option parse_error_t)
    (from : source_t) (target : T) : bool * option parse_error_t * source_t * T :=
  match subitems with
  | [] => (false, last, from, target)
  | one :: rest =>
      let started_at := current_position from in
      match one from target with
      | (None, from, tmp_value) => (true, None, from, tmp_value)
      | (Some e, from, _) =>
          let from := end_consumer started_at false from in
          if bool_decide (force_only_this_alternative_failed = reason e)
          then (true, Some e, from, target)
          else any_of rest (Some e) from target
      end
  end.

(*@ helpers/easy_parser.hpp 1633-1689 alternatives_clause_t *)
Definition alternatives {T} (subitems : list (clause T)) : clause T :=
  fun from target =>
    let starting_pos := current_position from in
    let '(success, actual_parse_error, from, target) := any_of subitems None from target in
    if negb success || bool_decide (is_Some actual_parse_error)
    then (Some (mk_error starting_pos no_appropriate_alternative), from, target)
    else (None, from, target).

(*@ helpers/easy_parser.hpp 1714-1751 maybe_clause_t *)
Definition maybe {T} (subitems : list (clause T)) : clause T :=
  fun from target =>
    let started_at := current_position from in
    match all_of subitems from target with
    | (None, from, tmp_value) => (None, end_consumer started_at true from, tmp_value)
    | (Some _, from, _) => (None, end_consumer started_at false from, target)
    end.

(*@ helpers/easy_parser.hpp 1777-1819 not_clause_t *)
Definition not_clause {T} `{Default T} (subitems : list (clause T)) : clause T :=
  fun from target =>
    let started_at := current_position from in
    match all_of subitems from default_value with
    | (None, from, _) =>
        (Some (mk_error started_at pattern_not_found), end_consumer started_at false from, target)
    | (Some _, from, _) => (None, end_consumer started_at false from, target)
    end.

(*@ helpers/easy_parser.hpp 1845-1881 and_clause_t *)
Definition and_clause {T} `{Default T} (subitems : list (clause T)) : clause T :=
  fun from target =>
    let started_at := current_position from in
    match all_of subitems from default_value with
    | (None, from, _) => (None, end_consumer started_at false from, target)
    | (Some _, from, _) =>
        (Some (mk_error started_at pattern_not_found), end_consumer started_at false from, target)
    end.

(*@ helpers/easy_parser.hpp 1906-1945 sequence_clause_t *)
Definition sequence {T} (subitems : list (clause T)) : clause T :=
  fun from target =>
    let started_at := current_position from in
    match all_of subitems from target with
    | (None, from, tmp_value) => (None, end_consumer started_at true from, tmp_value)
    | (Some e, from, _) => (Some e, end_consumer started_at false from, target)
    end.

(*@ helpers/easy_parser.hpp 1959-1989 forced_alternative_clause_t *)
Definition force_only_this_alternative {T} (subitems : list (clause T)) : clause T :=
  fun from target =>
    let starting_pos := current_position from in
    match sequence subitems from target with
    | (Some _, from, target) =>
        (Some (mk_error starting_pos force_only_this_alternative_failed), from, target)
    | (None, from, target) => (None, from, target)
    end.

(*@ helpers/easy_parser.hpp 2006-2045 produce_t *)
Definition produce (T : Type) `{Default T} (subitems : list (clause T)) : producer T :=
  fun from =>
    match all_of subitems from default_value with
    | (None, from, tmp_value) => (Ok tmp_value, from)
    | (Some e, from, _) => (Err e, from)
    end.

(** A loop with at most [n] iterations that a [false] of its body ends. *)
Fixpoint loop {S} (n : positive) (body : S -> S * bool) (s : S) : S * bool :=
  match n with
  | xH => body s
  | xO n => match loop n body s with (s, true) => loop n body s | r => r end
  | xI n =>
      match body s with
      | (s, true) => match loop n body s with (s, true) => loop n body s | r => r end
      | r => r
      end
  end.

(** The special marker that means infinite repetitions: the maximum of [size_t]. *)
(*@ helpers/easy_parser.hpp 455-455 N *)
Definition N_ : N := 18446744073709551615%N.

(** One turn of the loop over [(count, from, dest)]; [false] when the item failed. *)
(*@ helpers/easy_parser.hpp 2086-2102 repeat_clause_t::try_process *)
Definition repeat_item {T} (subitems : list (clause T)) (st : N * source_t * T)
    : (N * source_t * T) * bool :=
  let '(count, from, dest) := st in
  let started_at := current_position from in
  match all_of subitems from dest with
  | (None, from, dest) => ((count + 1)%N, end_consumer started_at true from, dest, true)
  | (Some _, from, dest) => (count, end_consumer started_at false from, dest, false)
  end.

(** What a failed item did to the target stays. *)
(*@ helpers/easy_parser.hpp 2058-2117 repeat_clause_t *)
Definition repeat {T} (min_occurences max_occurences : N) (subitems : list (clause T)) : clause T :=
  fun from dest =>
    let started_at := current_position from in
    let '(count, from, dest) :=
      match max_occurences with
      | N0 => (0%N, from, dest)
      | Npos n => (loop n (repeat_item subitems) (0%N, from, dest)).1
      end in
    if (min_occurences <=? count)%N then (None, end_consumer started_at true from, dest)
    else (Some (mk_error (current_position from) pattern_not_found),
          end_consumer started_at false from, dest).

(** ** Symbols *)

(*@ helpers/easy_parser.hpp 2128-2165 symbol_producer_template_t *)
Definition symbol_producer (predicate : Z -> bool) : producer Z :=
  fun from =>
    let '(ch, from) := getch from in
    if negb (m_eof ch) then
      if predicate (m_ch ch) then (Ok (m_ch ch), from)
      else
        let from := putback from in
        (Err (mk_error (current_position from) unexpected_character), from)
    else (Err (mk_error (current_position from) unexpected_eof), from).

(** A [char] as the signed number it is. *)
Definition schar (ch : Z) : Z := if ch <? 128 then ch else ch - 256.

(*@ helpers/easy_parser.hpp 3934-3940 any_symbol_p *)
Definition any_symbol_p : producer Z := symbol_producer (fun _ => true).
(*@ helpers/easy_parser.hpp 2197-2207 particular_symbol_predicate_t *)
Definition symbol_p (expected : Z) : producer Z := symbol_producer (fun actual => expected =? actual).
(*@ helpers/easy_parser.hpp 2218-2228 not_particular_symbol_predicate_t *)
Definition any_symbol_if_not_p (sentinel : Z) : producer Z :=
  symbol_producer (fun actual => negb (sentinel =? actual)).
(*@ helpers/easy_parser.hpp 2239-2253 caseless_particular_symbol_predicate_t *)
Definition caseless_symbol_p (v : Z) : producer Z :=
  let expected := to_lower_case v in symbol_producer (fun actual => expected =? to_lower_case actual).
(*@ helpers/easy_parser.hpp 2266-2277 symbol_from_range_predicate_t *)
Definition symbol_from_range_p (left right : Z) : producer Z :=
  symbol_producer (fun actual => (schar left <=? schar actual) && (schar actual <=? schar right)).
(*@ helpers/easy_parser.hpp 4092-4097 space_p *)
Definition space_p : producer Z := symbol_producer is_space.
(*@ helpers/easy_parser.hpp 4131-4136 digit_p *)
Definition digit_p : producer Z := symbol_producer is_digit.
(*@ helpers/easy_parser.hpp 4170-4175 hexdigit_p *)
Definition hexdigit_p : producer Z := symbol_producer is_hexdigit.

Section SymbolClauses.
Context {T : Type}.
(*@ helpers/easy_parser.hpp 4030-4035 symbol *)
Definition symbol (expected : Z) : clause T := consume_value_clause (symbol_p expected) skip.
(*@ helpers/easy_parser.hpp 4053-4058 caseless_symbol *)
Definition caseless_symbol (expected : Z) : clause T :=
  consume_value_clause (caseless_symbol_p expected) skip.
(*@ helpers/easy_parser.hpp 4074-4079 symbol_from_range *)
Definition symbol_from_range (left right : Z) : clause T :=
  consume_value_clause (symbol_from_range_p left right) skip.
(*@ helpers/easy_parser.hpp 4113-4118 space *)
Definition space : clause T := consume_value_clause space_p skip.
(*@ helpers/easy_parser.hpp 4152-4157 digit *)
Definition digit : clause T := consume_value_clause digit_p skip.
(*@ helpers/easy_parser.hpp 4191-4196 hexdigit *)
Definition hexdigit : clause T := consume_value_clause hexdigit_p skip.
End SymbolClauses.

(** ** Numbers *)

(** [underlying_int_t] is [int_fast8_t], eight bits wide. *)
(*@ helpers/easy_parser.hpp 466-531 digits_to_consume_t *)
Record digits_to_consume_t : Type := expected_digits { dl_min : Z; dl_max : Z }.

(*@ helpers/easy_parser.hpp 514-520 digits_to_consume_t::unlimited_max *)
Definition unlimited_max : Z := 127.
(*@ helpers/easy_parser.hpp 522-530 digits_to_consume_t::from_one_to_max *)
Definition from_one_to_max : digits_to_consume_t := expected_digits 1 unlimited_max.

Definition int_fast8 (z : Z) : Z := schar (wrap 8 z).

Section Numbers.
Context (T : int_type).

(** How the loop over digits ends: with too large a value, or with the count of
    digits and the accumulator. [fuel] exceeds the number of characters left. *)
Fixpoint digits_loop (multiplier : Z) (ext : extremum_type) (to_digit : Z -> option Z)
    (fuel : nat) (max : Z) (from : source_t) (acc : accumulator) (symbols_processed : Z)
    : option (accumulator * Z) * source_t :=
  match fuel with
  | O => (Some (acc, symbols_processed), from)
  | S fuel' =>
      let '(ch, from) := getch from in
      if m_eof ch then (Some (acc, symbols_processed), from)
      else
        match to_digit (m_ch ch) with
        | Some d =>
            let acc := next_digit T multiplier ext acc (wrap (it_width T) d) in
            if overflow_detected acc then (None, from)
            else
              let symbols_processed := int_fast8 (symbols_processed + 1) in
              if symbols_processed =? max then (Some (acc, symbols_processed), from)
              else digits_loop multiplier ext to_digit fuel' max from acc symbols_processed
        | None => (Some (acc, symbols_processed), putback from)
        end
  end.

Definition parse_digits (multiplier : Z) (ext : extremum_type) (to_digit : Z -> option Z)
    (digits_limit : digits_to_consume_t) : producer Z :=
  fun from =>
    let started_at := current_position from in
    match digits_loop multiplier ext to_digit (S (length (m_data from))) (dl_max digits_limit)
            from acc_init 0 with
    | (None, from) =>
        (Err (mk_error started_at illegal_value_found), end_consumer started_at false from)
    | (Some (acc, symbols_processed), from) =>
        if symbols_processed <? dl_min digits_limit
        then (Err (mk_error (current_position from) pattern_not_found),
              end_consumer started_at false from)
        else (Ok (value T acc), end_consumer started_at true from)
    end.

(*@ helpers/easy_parser.hpp 2435-2480 try_parse_digits_with_digits_limit *)
Definition try_parse_digits_with_digits_limit (ext : extremum_type)
    (digits_limit : digits_to_consume_t) : producer Z :=
  parse_digits 10 ext (fun ch => if is_digit ch then Some (ch - chr "0") else None) digits_limit.

(*@ helpers/easy_parser.hpp 2506-2515 try_parse_hexdigits_with_digits_limit *)
Definition ch_to_digit (ch : Z) : option Z :=
  if (chr "0" <=? ch) && (ch <=? chr "9") then Some (ch - chr "0")
  else if (chr "A" <=? ch) && (ch <=? chr "F") then Some (10 + (ch - chr "A"))
  else if (chr "a" <=? ch) && (ch <=? chr "f") then Some (10 + (ch - chr "a"))
  else None.

(*@ helpers/easy_parser.hpp 2499-2557 try_parse_hexdigits_with_digits_limit *)
Definition try_parse_hexdigits_with_digits_limit (digits_limit : digits_to_consume_t) : producer Z :=
  parse_digits 16 check_positive_extremum ch_to_digit digits_limit.

(*@ helpers/easy_parser.hpp 2569-2582 non_negative_decimal_number_producer_t *)
Definition non_negative_decimal_number_p : producer Z :=
  try_parse_digits_with_digits_limit check_positive_extremum from_one_to_max.
(*@ helpers/easy_parser.hpp 2597-2618 non_negative_decimal_number_producer_with_digits_limit_t *)
Definition non_negative_decimal_number_limited_p (l : digits_to_consume_t) : producer Z :=
  try_parse_digits_with_digits_limit check_positive_extremum l.
(*@ helpers/easy_parser.hpp 2631-2647 hexadecimal_number_producer_t *)
Definition hexadecimal_number_p : producer Z := try_parse_hexdigits_with_digits_limit from_one_to_max.
(*@ helpers/easy_parser.hpp 2662-2683 hexadecimal_number_producer_with_digits_limit_t *)
Definition hexadecimal_number_limited_p (l : digits_to_consume_t) : producer Z :=
  try_parse_hexdigits_with_digits_limit l.

(** A value of a signed type, as the conversion of the negated number makes it. *)
Definition signed (z : Z) : Z :=
  let z := wrap (it_width T) z in if z <? 2 ^ (it_width T - 1) then z else z - 2 ^ it_width T.

(*@ helpers/easy_parser.hpp 2746-2792 decimal_number_producer_t::try_parse_with_this_first_symbol *)
Definition try_parse_with_this_first_symbol (first_symbol : Z) (digits_limit : digits_to_consume_t)
    : producer Z :=
  fun from =>
    if chr "-" =? first_symbol then
      match try_parse_digits_with_digits_limit check_negative_extremum digits_limit from with
      | (Ok r, from) => (Ok (signed (- r)), from)
      | (Err e, from) => (Err e, from)
      end
    else if chr "+" =? first_symbol then
      try_parse_digits_with_digits_limit check_positive_extremum digits_limit from
    else if is_digit first_symbol then
      try_parse_digits_with_digits_limit check_positive_extremum digits_limit (putback from)
    else (Err (mk_error (current_position from) pattern_not_found), from).

(*@ helpers/easy_parser.hpp 2716-2743 decimal_number_producer_t::try_parse_impl *)
Definition decimal_number_limited_p (digits_limit : digits_to_consume_t) : producer Z :=
  fun from =>
    let started_at := current_position from in
    let '(sign_ch, from) := getch from in
    if negb (m_eof sign_ch) then
      let '(r, from) := try_parse_with_this_first_symbol (m_ch sign_ch) digits_limit from in
      (r, end_consumer started_at (is_ok r) from)
    else (Err (mk_error (current_position from) pattern_not_found), end_consumer started_at false from).

(*@ helpers/easy_parser.hpp 2704-2714 decimal_number_producer_t::try_parse *)
Definition decimal_number_p : producer Z := decimal_number_limited_p from_one_to_max.

End Numbers.

(** ** Fragments *)

(** [same] compares the fragment's character with the one read. *)
Fixpoint fragment_loop (same : Z -> Z -> bool) (started_at : nat) (fragment : bytes)
    (from : source_t) : result parse_error_t bool * source_t :=
  match fragment with
  | [] => (Ok true, end_consumer started_at true from)
  | expected :: fragment' =>
      let '(ch, from) := getch from in
      if m_eof ch then
        (Err (mk_error started_at unexpected_eof), end_consumer started_at false from)
      else if negb (same expected (m_ch ch)) then
        (Err (mk_error started_at pattern_not_found), end_consumer started_at false from)
      else fragment_loop same started_at fragment' from
  end.

(** The fragment is not empty: the constructor of the producer throws. *)
(*@ helpers/easy_parser.hpp 3310-3339 try_parse_exact_fragment *)
Definition try_parse_exact_fragment (fragment : bytes) : producer bool :=
  fun from => fragment_loop (fun b ch => ch =? b) (current_position from) fragment from.

(*@ helpers/easy_parser.hpp 3416-3445 try_parse_caseless_exact_fragment *)
Definition try_parse_caseless_exact_fragment (fragment : bytes) : producer bool :=
  fun from => fragment_loop (fun b ch => to_lower_case ch =? b) (current_position from) fragment from.

(*@ helpers/easy_parser.hpp 3353-3376 exact_fixed_size_fragment_producer_t *)
Definition exact_p (fragment : bytes) : producer bool := try_parse_exact_fragment fragment.
(*@ helpers/easy_parser.hpp 3387-3408 exact_fragment_producer_t *)
Definition exact_fragment_producer (fragment : bytes) : option (producer bool) :=
  match fragment with [] => None | _ => Some (try_parse_exact_fragment fragment) end.
(*@ helpers/easy_parser.hpp 3461-3490 caseless_exact_fixed_size_fragment_producer_t *)
Definition caseless_exact_p (fragment : bytes) : producer bool :=
  try_parse_caseless_exact_fragment (to_lower fragment).
(*@ helpers/easy_parser.hpp 3503-3528 caseless_exact_fragment_producer_t *)
Definition caseless_exact_fragment_producer (fragment : bytes) : option (producer bool) :=
  match fragment with [] => None | _ => Some (try_parse_caseless_exact_fragment (to_lower fragment)) end.

Section FragmentClauses.
Context {T : Type}.
(*@ helpers/easy_parser.hpp 4869-4874 exact *)
Definition exact (fragment : bytes) : clause T := consume_value_clause (exact_p fragment) skip.
(*@ helpers/easy_parser.hpp 4998-5003 caseless_exact *)
Definition caseless_exact (fragment : bytes) : clause T :=
  consume_value_clause (caseless_exact_p fragment) skip.
End FragmentClauses.

(** ** The top level *)

(** [fuel] exceeds the number of characters left. *)
Fixpoint no_remaining_loop (fuel : nat) (from : source_t) : option parse_error_t * source_t :=
  match fuel with
  | O => (None, from)
  | S fuel' =>
      if eof from then (None, from)
      else
        let '(ch, from) := getch from in
        if negb (is_space (m_ch ch)) then
          let from := putback from in
          (Some (mk_error (current_position from) unconsumed_input), from)
        else no_remaining_loop fuel' from
  end.

(*@ helpers/easy_parser.hpp 1564-1582 ensure_no_remaining_content *)
Definition ensure_no_remaining_content (from : source_t) : option parse_error_t * source_t :=
  no_remaining_loop (S (length (m_data from))) from.

(** The size of what is left when the spaces at the end are dropped. *)
(*@ helpers/easy_parser.hpp 1592-1600 remove_trailing_spaces *)
Fixpoint trimmed_size (from : bytes) (s : nat) : nat :=
  match s with
  | O => O
  | S s' => if is_space (nth s' from 0) then trimmed_size from s' else s
  end.
(*@ helpers/easy_parser.hpp 1592-1600 remove_trailing_spaces *)
Definition remove_trailing_spaces (from : bytes) : bytes := take (trimmed_size from (length from)) from.

(*@ helpers/easy_parser.hpp 5040-5064 try_parse *)
Definition try_parse {A} (from : bytes) (p : producer A) : result parse_error_t A :=
  let from := remove_trailing_spaces from in
  let '(r, src) := p (source from) in
  match r with
  | Ok v =>
      match ensure_no_remaining_content src with
      | (Some e, _) => Err e
      | (None, _) => Ok v
      end
  | Err e => Err e
  end.

(** ** What is left of the input *)

Definition remaining (s : source_t) : bytes := drop (m_index s) (m_data s).
Definition valid (s : source_t) : Prop := (m_index s <= length (m_data s))%nat.
Definition advance (n : nat) (s : source_t) : source_t := mk_source (m_data s) (m_index s + n).

Lemma valid_source data : valid (source data).
Proof. unfold valid. cbn. lia. Qed.

Lemma remaining_source data : remaining (source data) = data.
Proof. done. Qed.

Lemma advance_0 s : advance 0 s = s.
Proof. destruct s. unfold advance. cbn. by rewrite Nat.add_0_r. Qed.

Lemma advance_add n k s : advance k (advance n s) = advance (n + k) s.
Proof. unfold advance. cbn. f_equal. lia. Qed.

Lemma remaining_advance s x r : remaining s = x ++ r -> remaining (advance (length x) s) = r.
Proof.
  unfold remaining, advance. cbn. intros H. by rewrite <- drop_drop, H, drop_app_length.
Qed.

Lemma remaining_advance_1 s c r : remaining s = c :: r -> remaining (advance 1 s) = r.
Proof. apply (remaining_advance s [c]). Qed.

Lemma remaining_valid s c r : remaining s = c :: r -> (m_index s < length (m_data s))%nat.
Proof.
  unfold remaining. intros H. destruct (decide (m_index s < length (m_data s))%nat); [done|].
  rewrite drop_ge in H by lia. done.
Qed.

Lemma remaining_length s : length (remaining s) = (length (m_data s) - m_index s)%nat.
Proof. apply length_drop. Qed.

Lemma getch_cons s c r : remaining s = c :: r -> getch s = (mk_char false c, advance 1 s).
Proof.
  unfold getch, remaining. intros H.
  assert (Hl : m_data s !! m_index s = Some c).
  { by rewrite <- (Nat.add_0_r (m_index s)), <- lookup_drop, H. }
  by rewrite Hl.
Qed.

Lemma getch_nil s : remaining s = [] -> getch s = (mk_char true 0, s).
Proof.
  unfold getch, remaining. intros H.
  assert (Hl : m_data s !! m_index s = None).
  { by rewrite <- (Nat.add_0_r (m_index s)), <- lookup_drop, H. }
  by rewrite Hl.
Qed.

Lemma putback_advance s : putback (advance 1 s) = s.
Proof.
  destruct s as [d i]. unfold putback, advance. cbn [m_index m_data].
  destruct (Nat.ltb_spec 0 (i + 1)); [|lia]. by rewrite Nat.add_sub.
Qed.

Lemma end_consumer_commit n s : end_consumer n true s = s.
Proof. done. Qed.

Lemma end_consumer_back s s' :
  valid s -> m_data s' = m_data s -> end_consumer (current_position s) false s' = s.
Proof.
  unfold valid, end_consumer, backto, current_position. intros Hv ->.
  destruct (Nat.leb_spec (m_index s) (length (m_data s))); [by destruct s | lia].
Qed.

(** ** Staying inside the input *)

Definition inside (s s' : source_t) : Prop :=
  m_data s' = m_data s /\ (m_index s <= m_index s' <= length (m_data s))%nat.

Lemma inside_refl s : valid s -> inside s s.
Proof. unfold inside, valid. split; [done | lia]. Qed.
Lemma inside_trans s s1 s2 : inside s s1 -> inside s1 s2 -> inside s s2.
Proof. unfold inside. intros [H1 ?] [H2 ?]. rewrite H1 in *. split; [congruence | lia]. Qed.
Lemma inside_valid s s' : inside s s' -> valid s'.
Proof. unfold inside, valid. intros [-> ?]. lia. Qed.
Lemma inside_data s s' : inside s s' -> m_data s' = m_data s.
Proof. by intros []. Qed.

Lemma inside_advance_1 s c r : remaining s = c :: r -> inside s (advance 1 s).
Proof. intros E%remaining_valid. unfold inside, advance. cbn. split; [done | lia]. Qed.

(** What every producer and clause of the library promises to those made of it:
    it keeps to the input, and a clause or producer that restores it leaves
    the position as it was when it fails. *)
Class Inside {A} (p : producer A) : Prop :=
  p_inside : forall s, valid s -> inside s (p s).2.
Class Restores {A} (p : producer A) : Prop :=
  p_restores : forall s, valid s -> forall e, (p s).1 = Err e -> (p s).2 = s.
Class CInside {T} (c : clause T) : Prop :=
  c_inside : forall s t, valid s -> inside s (c s t).1.2.
Class CRestores {T} (c : clause T) : Prop :=
  c_restores : forall s t, valid s -> forall e, (c s t).1.1 = Some e -> (c s t).1.2 = s /\ (c s t).2 = t.
Class AllInside {T} (cs : list (clause T)) : Prop := all_inside : Forall CInside cs.

#[global] Instance all_inside_nil {T} : AllInside (T := T) [].
Proof. constructor. Qed.
#[global] Instance all_inside_cons {T} (c : clause T) cs : CInside c -> AllInside cs -> AllInside (c :: cs).
Proof. by constructor. Qed.

Lemma all_of_inside {T} (cs : list (clause T)) : AllInside cs -> CInside (all_of cs).
Proof.
  induction 1 as [|c cs Hc Hcs IH]; intros s t Hs; cbn [all_of]; [by apply inside_refl|].
  pose proof (c_inside (c := c) s t Hs) as H1. destruct (c s t) as [[[e|] s1] t1]; cbn in *; [done|].
  eapply inside_trans; [exact H1|]. apply IH. by eapply inside_valid.
Qed.

Ltac all_of_cases cs s t :=
  let H := fresh "Hin" in
  pose proof (all_of_inside cs ltac:(assumption) s t ltac:(assumption)) as H;
  destruct (all_of cs s t) as [[[?|] ?] ?]; cbn in H |- *.

#[global] Instance transformed_inside {A B} (p : producer A) (f : A -> B) :
  Inside p -> Inside (transformed_value_producer p f).
Proof.
  intros Hp s Hs. unfold transformed_value_producer. specialize (Hp s Hs).
  by destruct (p s) as [[] ?].
Qed.
#[global] Instance transformed_restores {A B} (p : producer A) (f : A -> B) :
  Restores p -> Restores (transformed_value_producer p f).
Proof.
  intros Hp s Hs e. unfold transformed_value_producer. specialize (Hp s Hs).
  destruct (p s) as [[] ?]; cbn; [done|]. intros _. by eapply Hp.
Qed.
#[global] Instance lowered_inside (p : producer bytes) : Inside p -> Inside (lowered p).
Proof. apply transformed_inside. Qed.
#[global] Instance lowered_restores (p : producer bytes) : Restores p -> Restores (lowered p).
Proof. apply transformed_restores. Qed.

#[global] Instance consume_inside {A T} (p : producer A) (c : consumer T A) :
  Inside p -> CInside (consume_value_clause p c).
Proof.
  intros Hp s t Hs. unfold consume_value_clause. specialize (Hp s Hs).
  by destruct (p s) as [[] ?].
Qed.
#[global] Instance consume_restores {A T} (p : producer A) (c : consumer T A) :
  Restores p -> CRestores (consume_value_clause p c).
Proof.
  intros Hp s t Hs e. unfold consume_value_clause. specialize (Hp s Hs).
  destruct (p s) as [[] ?]; cbn; [done|]. intros _. split; [by eapply Hp | done].
Qed.

#[global] Instance symbol_inside pred : Inside (symbol_producer pred).
Proof.
  intros s Hs. unfold symbol_producer. destruct (remaining s) as [|c r] eqn:E.
  - rewrite (getch_nil s) by done. by apply inside_refl.
  - rewrite (getch_cons s c r) by done. cbn.
    destruct (pred c); cbn; [by eapply inside_advance_1|].
    rewrite putback_advance. by apply inside_refl.
Qed.
#[global] Instance symbol_restores pred : Restores (symbol_producer pred).
Proof.
  intros s Hs e. unfold symbol_producer. destruct (remaining s) as [|c r] eqn:E.
  - by rewrite (getch_nil s).
  - rewrite (getch_cons s c r) by done. cbn. destruct (pred c); cbn; [done|].
    by rewrite putback_advance.
Qed.

(** *** Clauses *)

Lemma any_of_inside {T} (cs : list (clause T)) : AllInside cs -> forall last s t, valid s ->
  inside s (any_of cs last s t).1.2 /\
  (forall e, (any_of cs last s t).1.1.2 = Some e ->
     (any_of cs last s t).1.2 = s /\ (any_of cs last s t).2 = t) /\
  ((any_of cs last s t).1.1.1 = false -> (any_of cs last s t).1.2 = s /\ (any_of cs last s t).2 = t).
Proof.
  induction 1 as [|c cs Hc Hcs IH]; intros last s t Hs; cbn [any_of].
  { split; [by apply inside_refl | done]. }
  pose proof (c_inside (c := c) s t Hs) as H1. destruct (c s t) as [[[e|] s1] t1]; cbn in *.
  - rewrite end_consumer_back by (done || by apply inside_data).
    case_bool_decide; cbn; [|by apply IH]. split; [by apply inside_refl | done].
  - split; [done | split; done].
Qed.

#[global] Instance alternatives_inside {T} (cs : list (clause T)) : AllInside cs -> CInside (alternatives cs).
Proof.
  intros Hcs s t Hs. unfold alternatives. destruct (any_of_inside cs Hcs None s t Hs) as (H1 & _).
  destruct (any_of cs None s t) as [[[b o] s1] t1]. cbn in *. by destruct (negb b || _).
Qed.
#[global] Instance alternatives_restores {T} (cs : list (clause T)) : AllInside cs -> CRestores (alternatives cs).
Proof.
  intros Hcs s t Hs e. unfold alternatives. destruct (any_of_inside cs Hcs None s t Hs) as (_ & H2 & H3).
  destruct (any_of cs None s t) as [[[b o] s1] t1]. cbn in *.
  destruct b; cbn; [|by intros; apply H3].
  case_bool_decide as Ho; cbn; [|done]. destruct Ho as [e' ->]. intros _. by eapply H2.
Qed.

#[global] Instance maybe_inside {T} (cs : list (clause T)) : AllInside cs -> CInside (maybe cs).
Proof.
  intros Hcs s t Hs. unfold maybe. all_of_cases cs s t; [|done].
  rewrite end_consumer_back by (done || by apply inside_data). by apply inside_refl.
Qed.
#[global] Instance maybe_restores {T} (cs : list (clause T)) : CRestores (maybe cs).
Proof. intros s t Hs e. unfold maybe. by destruct (all_of cs s t) as [[[]]]. Qed.

#[global] Instance not_inside {T} `{Default T} (cs : list (clause T)) : AllInside cs -> CInside (not_clause cs).
Proof.
  intros Hcs s t Hs. unfold not_clause. all_of_cases cs s (default_value (T := T));
    rewrite end_consumer_back by (done || by apply inside_data); by apply inside_refl.
Qed.
#[global] Instance not_restores {T} `{Default T} (cs : list (clause T)) :
  AllInside cs -> CRestores (not_clause cs).
Proof.
  intros Hcs s t Hs e. unfold not_clause. all_of_cases cs s (default_value (T := T)); [done|].
  by rewrite end_consumer_back by (done || by apply inside_data).
Qed.

#[global] Instance and_inside {T} `{Default T} (cs : list (clause T)) : AllInside cs -> CInside (and_clause cs).
Proof.
  intros Hcs s t Hs. unfold and_clause. all_of_cases cs s (default_value (T := T));
    rewrite end_consumer_back by (done || by apply inside_data); by apply inside_refl.
Qed.
#[global] Instance and_restores {T} `{Default T} (cs : list (clause T)) :
  AllInside cs -> CRestores (and_clause cs).
Proof.
  intros Hcs s t Hs e. unfold and_clause. all_of_cases cs s (default_value (T := T)); [|done].
  by rewrite end_consumer_back by (done || by apply inside_data).
Qed.

#[global] Instance sequence_inside {T} (cs : list (clause T)) : AllInside cs -> CInside (sequence cs).
Proof.
  intros Hcs s t Hs. unfold sequence. all_of_cases cs s t; [|done].
  rewrite end_consumer_back by (done || by apply inside_data). by apply inside_refl.
Qed.
#[global] Instance sequence_restores {T} (cs : list (clause T)) : AllInside cs -> CRestores (sequence cs).
Proof.
  intros Hcs s t Hs e. unfold sequence. all_of_cases cs s t; [|done].
  by rewrite end_consumer_back by (done || by apply inside_data).
Qed.

#[global] Instance forced_inside {T} (cs : list (clause T)) :
  AllInside cs -> CInside (force_only_this_alternative cs).
Proof.
  intros Hcs s t Hs. unfold force_only_this_alternative.
  pose proof (c_inside (c := sequence cs) s t Hs) as H1. by destruct (sequence cs s t) as [[[]]].
Qed.
#[global] Instance forced_restores {T} (cs : list (clause T)) :
  AllInside cs -> CRestores (force_only_this_alternative cs).
Proof.
  intros Hcs s t Hs e. unfold force_only_this_alternative.
  pose proof (c_restores (c := sequence cs) s t Hs) as H1.
  destruct (sequence cs s t) as [[[e'|] s1] t1]; cbn in *; [|done]. intros _. by eapply H1.
Qed.

#[global] Instance produce_inside {T} `{Default T} (cs : list (clause T)) : AllInside cs -> Inside (produce T cs).
Proof.
  intros Hcs s Hs. unfold produce. by all_of_cases cs s (default_value (T := T)).
Qed.

(** *** Repetition *)

Section Loop.
Context {S : Type} (body : S -> S * bool).

(** The loop, one turn at a time. *)
Fixpoint turns (k : nat) (s : S) : S * bool :=
  match k with
  | O => (s, true)
  | Datatypes.S k' => match body s with (s, true) => turns k' s | r => r end
  end.

Lemma turns_add a b : forall s,
  turns (a + b) s = match turns a s with (s, true) => turns b s | r => r end.
Proof.
  induction a as [|a IH]; intros s; [done|]. cbn [Nat.add turns].
  destruct (body s) as [s1 []]; [apply IH | done].
Qed.

Lemma loop_turns n : forall s, loop n body s = turns (Pos.to_nat n) s.
Proof.
  induction n as [n IH|n IH|]; intros s.
  - rewrite Pos2Nat.inj_xI. change (Datatypes.S (2 * Pos.to_nat n)) with (1 + 2 * Pos.to_nat n)%nat.
    replace (2 * Pos.to_nat n)%nat with (Pos.to_nat n + Pos.to_nat n)%nat by lia.
    cbn [loop Nat.add turns]. destruct (body s) as [s1 []]; [|done]. rewrite IH, turns_add.
    destruct (turns _ s1) as [s2 []]; [apply IH | done].
  - rewrite Pos2Nat.inj_xO. replace (2 * Pos.to_nat n)%nat with (Pos.to_nat n + Pos.to_nat n)%nat by lia.
    cbn [loop]. rewrite IH, turns_add. destruct (turns _ s) as [s2 []]; [apply IH | done].
  - change (Pos.to_nat 1) with 1%nat. cbn [loop turns]. by destruct (body s) as [s1 []].
Qed.

Lemma loop_invariant (Inv : S -> Prop) n : forall s,
  (forall s, Inv s -> Inv (body s).1) -> Inv s -> Inv (loop n body s).1.
Proof.
  intros s Hb Hs. rewrite loop_turns. revert s Hs.
  induction (Pos.to_nat n) as [|k IH]; intros s Hs; [done|]. cbn [turns].
  specialize (Hb s Hs) as Hs1. destruct (body s) as [s1 []]; [by apply IH | done].
Qed.
End Loop.

#[global] Instance repeat_inside {T} min max (cs : list (clause T)) :
  AllInside cs -> CInside (repeat min max cs).
Proof.
  intros Hcs s t Hs. unfold repeat.
  set (r := match max with N0 => _ | Npos n => _ end).
  assert (Hr : inside s r.1.2).
  { unfold r. destruct max as [|n]; [by apply inside_refl|].
    apply (loop_invariant _ (fun st : N * source_t * T => inside s st.1.2)); [|by apply inside_refl].
    intros [[k s1] t1] H1. cbn in *. unfold repeat_item. apply inside_valid in H1 as Hs1.
    all_of_cases cs s1 t1; [|by eapply inside_trans].
    by rewrite end_consumer_back by (done || by apply inside_data). }
  destruct r as [[k s1] t1]. cbn in *. destruct (min <=? k)%N; cbn; [done|].
  rewrite end_consumer_back by (done || by apply inside_data). by apply inside_refl.
Qed.

(** The position is restored; the target is not. *)
Lemma repeat_restores_input {T} min max (cs : list (clause T)) s t e :
  AllInside cs -> valid s -> (repeat min max cs s t).1.1 = Some e -> (repeat min max cs s t).1.2 = s.
Proof.
  intros Hcs Hs. unfold repeat.
  set (r := match max with N0 => _ | Npos n => _ end).
  assert (Hr : inside s r.1.2).
  { unfold r. destruct max as [|n]; [by apply inside_refl|].
    apply (loop_invariant _ (fun st : N * source_t * T => inside s st.1.2)); [|by apply inside_refl].
    intros [[k s1] t1] H1. cbn in *. unfold repeat_item. apply inside_valid in H1 as Hs1.
    all_of_cases cs s1 t1; [|by eapply inside_trans].
    by rewrite end_consumer_back by (done || by apply inside_data). }
  destruct r as [[k s1] t1]. cbn in *. destruct (min <=? k)%N; cbn; [done|].
  intros _. by rewrite end_consumer_back by (done || by apply inside_data).
Qed.

(** *** Numbers and fragments *)

Lemma digits_loop_inside T mul ext to_digit max fuel : forall s acc k, valid s ->
  inside s (digits_loop T mul ext to_digit fuel max s acc k).2.
Proof.
  induction fuel as [|fuel IH]; intros s acc k Hs; cbn [digits_loop]; [by apply inside_refl|].
  destruct (remaining s) as [|c r] eqn:E.
  - rewrite (getch_nil s) by done. by apply inside_refl.
  - rewrite (getch_cons s c r) by done. cbn [m_eof m_ch].
    assert (H1 : inside s (advance 1 s)) by (by eapply inside_advance_1).
    destruct (to_digit c); [|rewrite putback_advance; by apply inside_refl].
    destruct (overflow_detected _); [done|]. case_match; [done|].
    eapply inside_trans; [exact H1|]. apply IH. by eapply inside_valid.
Qed.

Lemma parse_digits_inside_restores T mul ext to_digit l :
  Inside (parse_digits T mul ext to_digit l) /\ Restores (parse_digits T mul ext to_digit l).
Proof.
  assert (H : forall s, valid s -> inside s (parse_digits T mul ext to_digit l s).2 /\
    forall e, (parse_digits T mul ext to_digit l s).1 = Err e -> (parse_digits T mul ext to_digit l s).2 = s).
  { intros s Hs. unfold parse_digits.
    pose proof (digits_loop_inside T mul ext to_digit (dl_max l) (S (length (m_data s))) s acc_init 0 Hs) as H1.
    destruct (digits_loop _ _ _ _ _ _ _ _ _) as [[[acc k]|] s1]; cbn in *;
      [destruct (k <? dl_min l); cbn|]; rewrite ?end_consumer_commit; try done;
      rewrite end_consumer_back by (done || by apply inside_data); (split; [by apply inside_refl | done]). }
  split; intros s Hs; apply H; done.
Qed.
#[global] Instance parse_digits_inside T mul ext d l : Inside (parse_digits T mul ext d l).
Proof. apply parse_digits_inside_restores. Qed.
#[global] Instance parse_digits_restores T mul ext d l : Restores (parse_digits T mul ext d l).
Proof. apply parse_digits_inside_restores. Qed.
#[global] Instance number_inside T : Inside (non_negative_decimal_number_p T).
Proof. apply parse_digits_inside. Qed.
#[global] Instance number_restores T : Restores (non_negative_decimal_number_p T).
Proof. apply parse_digits_restores. Qed.

Lemma fragment_loop_inside same start fragment : forall s,
  valid start -> inside start s ->
  inside start (fragment_loop same (current_position start) fragment s).2 /\
  forall e, (fragment_loop same (current_position start) fragment s).1 = Err e ->
    (fragment_loop same (current_position start) fragment s).2 = start.
Proof.
  induction fragment as [|b fragment IH]; intros s Hst Hs; cbn [fragment_loop]; [done|].
  assert (Hback : forall s, inside start s ->
    end_consumer (current_position start) false s = start).
  { intros s' Hs'. apply end_consumer_back; [done | by apply inside_data]. }
  destruct (remaining s) as [|c r] eqn:E.
  - rewrite (getch_nil s) by done. cbn. rewrite Hback by done. split; [by apply inside_refl | done].
  - rewrite (getch_cons s c r) by done. cbn [m_eof m_ch].
    assert (H1 : inside start (advance 1 s)) by (eapply inside_trans; [exact Hs | by eapply inside_advance_1]).
    destruct (negb (same b c)); [|by apply IH]. cbn. rewrite Hback by done.
    split; [by apply inside_refl | done].
Qed.
#[global] Instance exact_inside f : Inside (exact_p f).
Proof. intros s Hs. by apply fragment_loop_inside, inside_refl. Qed.
#[global] Instance exact_restores f : Restores (exact_p f).
Proof. intros s Hs. by apply fragment_loop_inside, inside_refl. Qed.
#[global] Instance caseless_exact_inside f : Inside (caseless_exact_p f).
Proof. intros s Hs. by apply fragment_loop_inside, inside_refl. Qed.
#[global] Instance caseless_exact_restores f : Restores (caseless_exact_p f).
Proof. intros s Hs. by apply fragment_loop_inside, inside_refl. Qed.

#[global] Instance symbol_clause_inside {T} c : CInside (symbol (T := T) c).
Proof. apply consume_inside. apply _. Qed.
#[global] Instance caseless_symbol_clause_inside {T} c : CInside (caseless_symbol (T := T) c).
Proof. apply consume_inside. apply _. Qed.
#[global] Instance space_clause_inside {T} : CInside (space (T := T)).
Proof. apply consume_inside. apply _. Qed.
#[global] Instance exact_clause_inside {T} f : CInside (exact (T := T) f).
Proof. apply consume_inside. apply _. Qed.
#[global] Instance any_symbol_inside : Inside any_symbol_p.
Proof. apply symbol_inside. Qed.
#[global] Instance symbol_p_inside c : Inside (symbol_p c).
Proof. apply symbol_inside. Qed.
#[global] Instance symbol_range_inside a b : Inside (symbol_from_range_p a b).
Proof. apply symbol_inside. Qed.
#[global] Instance digit_inside : Inside digit_p.
Proof. apply symbol_inside. Qed.
#[global] Instance hexdigit_inside : Inside hexdigit_p.
Proof. apply symbol_inside. Qed.

(** ** The clauses are parsing expressions

    The reference: parsing expressions over one character and their meaning on
    an input, success with the number of characters read, or failure. As in the code, every operator has a
    sequence of subexpressions, and a repetition a least and a greatest number of turns, of which
    [N_] means that there is no greatest. *)

Inductive pexpr : Type :=
| Sym (pred : Z -> bool)
| Cat (es : list pexpr)
| Choice (es : list pexpr)
| Opt (es : list pexpr)
| Rep (min max : N) (es : list pexpr)
| Neg (es : list pexpr)
| Look (es : list pexpr).

(** The greatest number of turns. *)
Definition turns_limit (max : N) : option nat := if (max =? N_)%N then None else Some (N.to_nat max).

(** One expression; some after each other; the first of some that succeeds; and [k] turns of some after each other, which
    end at the limit or with a turn that fails. Without a limit every turn reads something. *)
Inductive peg : pexpr -> bytes -> option nat -> Prop :=
| peg_sym pred c x : pred c = true -> peg (Sym pred) (c :: x) (Some 1%nat)
| peg_sym_no pred c x : pred c = false -> peg (Sym pred) (c :: x) None
| peg_sym_eof pred : peg (Sym pred) [] None
| peg_cat es x r : peg_all es x r -> peg (Cat es) x r
| peg_choice es x r : peg_first es x r -> peg (Choice es) x r
| peg_opt es x n : peg_all es x (Some n) -> peg (Opt es) x (Some n)
| peg_opt_no es x : peg_all es x None -> peg (Opt es) x (Some 0%nat)
| peg_rep min max es x k n : peg_times es (turns_limit max) x k n -> (min <= N.of_nat k)%N -> peg (Rep min max es) x (Some n)
| peg_rep_no min max es x k n : peg_times es (turns_limit max) x k n -> (N.of_nat k < min)%N -> peg (Rep min max es) x None
| peg_neg es x : peg_all es x None -> peg (Neg es) x (Some 0%nat)
| peg_neg_no es x n : peg_all es x (Some n) -> peg (Neg es) x None
| peg_look es x n : peg_all es x (Some n) -> peg (Look es) x (Some 0%nat)
| peg_look_no es x : peg_all es x None -> peg (Look es) x None
with peg_all : list pexpr -> bytes -> option nat -> Prop :=
| all_nil x : peg_all [] x (Some 0%nat)
| all_cons e es x n k : peg e x (Some n) -> peg_all es (drop n x) (Some k) -> peg_all (e :: es) x (Some (n + k)%nat)
| all_head e es x : peg e x None -> peg_all (e :: es) x None
| all_tail e es x n : peg e x (Some n) -> peg_all es (drop n x) None -> peg_all (e :: es) x None
with peg_first : list pexpr -> bytes -> option nat -> Prop :=
| first_nil x : peg_first [] x None
| first_here e es x n : peg e x (Some n) -> peg_first (e :: es) x (Some n)
| first_later e es x r : peg e x None -> peg_first es x r -> peg_first (e :: es) x r
with peg_times : list pexpr -> option nat -> bytes -> nat -> nat -> Prop :=
| times_limit es x : peg_times es (Some 0%nat) x 0 0
| times_end es limit x : limit <> Some 0%nat -> peg_all es x None -> peg_times es limit x 0 0
| times_turn es limit x n k l : limit <> Some 0%nat -> peg_all es x (Some n) -> (limit = None -> 0 < n)%nat ->
    peg_times es (pred <$> limit) (drop n x) k l -> peg_times es limit x (S k) (n + l).

Scheme peg_mut := Minimality for peg Sort Prop
with peg_all_mut := Minimality for peg_all Sort Prop
with peg_first_mut := Minimality for peg_first Sort Prop
with peg_times_mut := Minimality for peg_times Sort Prop.
Combined Scheme peg_mutind from peg_mut, peg_all_mut, peg_first_mut, peg_times_mut.

(** The clause of an expression. *)
Fixpoint clause_of (e : pexpr) : clause unit :=
  match e with
  | Sym pred => consume_value_clause (symbol_producer pred) skip
  | Cat es => sequence (clause_of <$> es)
  | Choice es => alternatives (clause_of <$> es)
  | Opt es => maybe (clause_of <$> es)
  | Rep min max es => repeat min max (clause_of <$> es)
  | Neg es => not_clause (clause_of <$> es)
  | Look es => and_clause (clause_of <$> es)
  end.

(** Induction with the property for all subexpressions. *)
Section Induction.
Context (P : pexpr -> Prop).
Context (Hsym : forall pred, P (Sym pred)) (Hcat : forall es, Forall P es -> P (Cat es))
  (Hchoice : forall es, Forall P es -> P (Choice es)) (Hopt : forall es, Forall P es -> P (Opt es))
  (Hrep : forall min max es, Forall P es -> P (Rep min max es)) (Hneg : forall es, Forall P es -> P (Neg es))
  (Hlook : forall es, Forall P es -> P (Look es)).

Fixpoint pexpr_induction (e : pexpr) : P e :=
  let fix all (es : list pexpr) : Forall P es :=
    match es with [] => Forall_nil_2 P | e :: es => Forall_cons_2 P e es (pexpr_induction e) (all es) end in
  match e with
  | Sym pred => Hsym pred
  | Cat es => Hcat es (all es)
  | Choice es => Hchoice es (all es)
  | Opt es => Hopt es (all es)
  | Rep min max es => Hrep min max es (all es)
  | Neg es => Hneg es (all es)
  | Look es => Hlook es (all es)
  end.
End Induction.

Lemma all_inside_clauses es : Forall (fun e => CInside (clause_of e)) es -> AllInside (clause_of <$> es).
Proof. intros H. by apply Forall_fmap. Qed.

#[global] Instance clause_of_inside e : CInside (clause_of e).
Proof. induction e using pexpr_induction; cbn [clause_of]; try apply all_inside_clauses in H; apply _. Qed.

#[global] Instance clauses_of_inside es : AllInside (clause_of <$> es).
Proof. apply all_inside_clauses, Forall_forall. intros e _. apply _. Qed.

Lemma remaining_advance_drop n s : remaining (advance n s) = drop n (remaining s).
Proof. unfold remaining, advance. cbn. by rewrite drop_drop. Qed.

(** What is read is there. *)
Lemma peg_bounds :
  (forall e x r, peg e x r -> forall n, r = Some n -> (n <= length x)%nat) /\
  (forall es x r, peg_all es x r -> forall n, r = Some n -> (n <= length x)%nat) /\
  (forall es x r, peg_first es x r -> forall n, r = Some n -> (n <= length x)%nat) /\
  (forall es limit x k n, peg_times es limit x k n -> (n <= length x)%nat).
Proof.
  apply peg_mutind; intros; simplify_eq/=; try lia; eauto;
    repeat match goal with H : forall n, Some _ = Some n -> _ |- _ => specialize (H _ eq_refl) end;
    rewrite length_drop in *; lia.
Qed.

(** The clauses do what the expressions mean. *)
Definition agrees (e : pexpr) (x : bytes) (r : option nat) : Prop :=
  forall s, valid s -> remaining s = x ->
  match r with
  | Some n => clause_of e s tt = (None, advance n s, tt)
  | None => exists err, clause_of e s tt = (Some err, s, tt) /\ reason err <> force_only_this_alternative_failed
  end.

(** Some after each other leave the position anywhere when they fail. *)
Definition all_agree (es : list pexpr) (x : bytes) (r : option nat) : Prop :=
  forall s, valid s -> remaining s = x ->
  match r with
  | Some n => all_of (clause_of <$> es) s tt = (None, advance n s, tt)
  | None => exists err s', all_of (clause_of <$> es) s tt = (Some err, s', tt) /\ m_data s' = m_data s /\
      reason err <> force_only_this_alternative_failed
  end.

Definition first_agrees (es : list pexpr) (x : bytes) (r : option nat) : Prop :=
  forall last s, valid s -> remaining s = x ->
  match r with
  | Some n => any_of (clause_of <$> es) last s tt = (true, None, advance n s, tt)
  | None => exists last', any_of (clause_of <$> es) last s tt = (false, last', s, tt)
  end.

(** A loop without a limit is ended by a turn that fails, when it is allowed as many turns as there are characters and one more. *)
Definition times_agree (es : list pexpr) (limit : option nat) (x : bytes) (k n : nat) : Prop :=
  forall c s, valid s -> remaining s = x ->
  match limit with
  | Some m => exists b, turns (repeat_item (clause_of <$> es)) m (c, s, tt) = (((c + N.of_nat k)%N, advance n s, tt), b)
  | None => forall m, (length x < m)%nat ->
      turns (repeat_item (clause_of <$> es)) m (c, s, tt) = (((c + N.of_nat k)%N, advance n s, tt), false)
  end.

Lemma agrees_valid e x n s : agrees e x (Some n) -> valid s -> remaining s = x -> valid (advance n s).
Proof.
  intros H Hs Hx. pose proof (c_inside (c := clause_of e) s tt Hs) as Hi. rewrite (H s Hs Hx) in Hi.
  by eapply inside_valid.
Qed.

Lemma all_agree_valid es x n s : all_agree es x (Some n) -> valid s -> remaining s = x -> valid (advance n s).
Proof.
  intros H Hs Hx. pose proof (all_of_inside (clause_of <$> es) _ s tt Hs) as Hi. rewrite (H s Hs Hx) in Hi.
  by eapply inside_valid.
Qed.

Lemma repetition_agrees min max es x k n : Z.of_nat (length x) < 2 ^ 64 - 1 -> times_agree es (turns_limit max) x k n ->
  forall s, valid s -> remaining s = x ->
  repeat min max (clause_of <$> es) s tt =
    if (min <=? N.of_nat k)%N then (None, advance n s, tt) else (Some (mk_error (current_position (advance n s)) pattern_not_found), s, tt).
Proof.
  intros Hlen Ht s Hs Hx. unfold repeat.
  assert (Hl : match max with N0 => (0%N, s, tt) | Npos m => (loop m (repeat_item (clause_of <$> es)) (0%N, s, tt)).1 end
    = (N.of_nat k, advance n s, tt)).
  { specialize (Ht 0%N s Hs Hx). unfold turns_limit in Ht. destruct (N.eqb_spec max N_) as [->|Hne].
    - unfold N_. rewrite loop_turns, Ht by lia. by rewrite N.add_0_l.
    - destruct Ht as [b Ht]. rewrite N.add_0_l in Ht. destruct max as [|m]; [change (N.to_nat 0) with 0%nat in Ht; cbn [turns] in Ht; congruence|].
      rewrite loop_turns. change (Pos.to_nat m) with (N.to_nat (Npos m)). by rewrite Ht. }
  rewrite Hl. destruct (min <=? N.of_nat k)%N; [by rewrite end_consumer_commit | by rewrite end_consumer_back].
Qed.

Lemma turn_fails es x c s : all_agree es x None -> valid s -> remaining s = x ->
  repeat_item (clause_of <$> es) (c, s, tt) = (c, s, tt, false).
Proof.
  intros Ha Hs Hx. destruct (Ha s Hs Hx) as (err & s' & E & Hd & _). unfold repeat_item. by rewrite E, end_consumer_back.
Qed.

Lemma turn_reads es x n c s : all_agree es x (Some n) -> valid s -> remaining s = x ->
  repeat_item (clause_of <$> es) (c, s, tt) = ((c + 1)%N, advance n s, tt, true).
Proof. intros Ha Hs Hx. unfold repeat_item. by rewrite (Ha s Hs Hx), end_consumer_commit. Qed.

Lemma times_agree_end es limit x : limit <> Some 0%nat -> all_agree es x None -> times_agree es limit x 0 0.
Proof.
  intros Hl Ha c s Hs Hx. rewrite N.add_0_r, advance_0. pose proof (turn_fails es x c s Ha Hs Hx) as E.
  destruct limit as [[|m]|]; [done| |intros [|m] Hm; [lia|]]; cbn [turns]; rewrite E; [by eexists | done].
Qed.

Lemma times_agree_turn es limit x n k l : limit <> Some 0%nat -> all_agree es x (Some n) -> (limit = None -> 0 < n)%nat ->
  (n <= length x)%nat -> times_agree es (pred <$> limit) (drop n x) k l -> times_agree es limit x (S k) (n + l).
Proof.
  intros Hl Ha Hn Hb Ht c s Hs Hx. pose proof (turn_reads es x n c s Ha Hs Hx) as E.
  specialize (Ht (c + 1)%N (advance n s) (all_agree_valid _ _ _ _ Ha Hs Hx)).
  rewrite remaining_advance_drop, Hx, advance_add in Ht. specialize (Ht eq_refl).
  replace (c + 1 + N.of_nat k)%N with (c + N.of_nat (S k))%N in Ht by lia.
  destruct limit as [[|m]|]; [done| |intros [|m] Hm; [lia|]]; cbn [turns]; rewrite E.
  - destruct Ht as [b Ht]. cbn in Ht. rewrite Ht. by eexists.
  - cbn in Ht. apply Ht. rewrite length_drop. specialize (Hn eq_refl). lia.
Qed.

(** One lemma per operator. *)
Ltac peg_clause H s Hs Hx :=
  intros s Hs Hx; cbn [clause_of]; unfold sequence, maybe, not_clause, and_clause; change (default_value (T := unit)) with tt;
  specialize (H s Hs Hx).

Lemma sequence_agrees es x r : all_agree es x r -> agrees (Cat es) x r.
Proof.
  intros H. peg_clause H s Hs Hx. destruct r as [n|]; [by rewrite H, end_consumer_commit|].
  destruct H as (err & s' & -> & Hd & Hr). exists err. by rewrite end_consumer_back.
Qed.

Lemma alternatives_agree es x r : first_agrees es x r -> agrees (Choice es) x r.
Proof.
  intros H s Hs Hx. cbn [clause_of]. unfold alternatives. specialize (H None s Hs Hx). destruct r as [n|]; [by rewrite H|].
  destruct H as (last & ->). by eexists.
Qed.

Lemma maybe_agrees es x r : all_agree es x r -> agrees (Opt es) x (Some (default 0%nat r)).
Proof.
  intros H. peg_clause H s Hs Hx. destruct r as [n|]; [by rewrite H, end_consumer_commit|].
  destruct H as (err & s' & -> & Hd & _). by rewrite end_consumer_back, advance_0.
Qed.

Lemma not_agrees es x r : all_agree es x r -> agrees (Neg es) x (match r with Some _ => None | None => Some 0%nat end).
Proof.
  intros H. peg_clause H s Hs Hx. destruct r as [n|].
  - rewrite H, end_consumer_back by done. by eexists.
  - destruct H as (err & s' & -> & Hd & _). by rewrite end_consumer_back, advance_0.
Qed.

Lemma and_agrees es x r : all_agree es x r -> agrees (Look es) x (match r with Some _ => Some 0%nat | None => None end).
Proof.
  intros H. peg_clause H s Hs Hx. destruct r as [n|].
  - by rewrite H, end_consumer_back, advance_0.
  - destruct H as (err & s' & -> & Hd & _). rewrite end_consumer_back by done. by eexists.
Qed.

Lemma symbol_agrees pred x : agrees (Sym pred) x (match x with c :: _ => if pred c then Some 1%nat else None | [] => None end).
Proof.
  intros s Hs Hx. cbn [clause_of]. unfold consume_value_clause, symbol_producer. destruct x as [|c x].
  - rewrite (getch_nil s) by done. by eexists.
  - rewrite (getch_cons s c x) by done. cbn. destruct (pred c); [done|]. cbn. rewrite putback_advance. by eexists.
Qed.

Lemma all_agree_cons e es x n r : agrees e x (Some n) -> all_agree es (drop n x) r ->
  all_agree (e :: es) x (match r with Some k => Some (n + k)%nat | None => None end).
Proof.
  intros He Hes s Hs Hx. cbn [fmap list_fmap all_of]. rewrite (He s Hs Hx).
  specialize (Hes (advance n s) (agrees_valid _ _ _ _ He Hs Hx)). rewrite remaining_advance_drop, Hx in Hes. specialize (Hes eq_refl).
  destruct r as [k|]; [by rewrite Hes, advance_add|]. destruct Hes as (err & s' & -> & Hd & Hr). by exists err, s'.
Qed.

Lemma all_agree_head e es x : agrees e x None -> all_agree (e :: es) x None.
Proof.
  intros He s Hs Hx. cbn [fmap list_fmap all_of]. destruct (He s Hs Hx) as (err & -> & Hr). by exists err, s.
Qed.

Lemma first_agrees_here e es x n : agrees e x (Some n) -> first_agrees (e :: es) x (Some n).
Proof. intros He last s Hs Hx. cbn [fmap list_fmap any_of]. by rewrite (He s Hs Hx). Qed.

Lemma first_agrees_later e es x r : agrees e x None -> first_agrees es x r -> first_agrees (e :: es) x r.
Proof.
  intros He Hes last s Hs Hx. cbn [fmap list_fmap any_of]. destruct (He s Hs Hx) as (err & -> & Hr).
  rewrite bool_decide_eq_false_2, end_consumer_back by done. by apply Hes.
Qed.

Lemma peg_agrees :
  (forall e x r, peg e x r -> Z.of_nat (length x) < 2 ^ 64 - 1 -> agrees e x r) /\
  (forall es x r, peg_all es x r -> Z.of_nat (length x) < 2 ^ 64 - 1 -> all_agree es x r) /\
  (forall es x r, peg_first es x r -> Z.of_nat (length x) < 2 ^ 64 - 1 -> first_agrees es x r) /\
  (forall es limit x k n, peg_times es limit x k n -> Z.of_nat (length x) < 2 ^ 64 - 1 -> times_agree es limit x k n).
Proof.
  apply peg_mutind.
  - intros pred c x Hp _. replace (Some 1%nat) with (if pred c then Some 1%nat else None) by by rewrite Hp. apply (symbol_agrees pred (c :: x)).
  - intros pred c x Hp _. replace None with (if pred c then Some 1%nat else None) by by rewrite Hp. apply (symbol_agrees pred (c :: x)).
  - intros pred _. apply (symbol_agrees pred []).
  - intros es x r _ IH Hlen. by apply sequence_agrees, IH.
  - intros es x r _ IH Hlen. by apply alternatives_agree, IH.
  - intros es x n _ IH Hlen. by apply (maybe_agrees es x (Some n)), IH.
  - intros es x _ IH Hlen. by apply (maybe_agrees es x None), IH.
  - intros min max es x k n _ IH Hk Hlen s Hs Hx. cbn [clause_of]. rewrite (repetition_agrees min max es x k n) by auto.
    by rewrite (proj2 (N.leb_le _ _) Hk).
  - intros min max es x k n _ IH Hk Hlen s Hs Hx. cbn [clause_of]. rewrite (repetition_agrees min max es x k n) by auto.
    rewrite (proj2 (N.leb_gt _ _) Hk). by eexists.
  - intros es x _ IH Hlen. by apply (not_agrees es x None), IH.
  - intros es x n _ IH Hlen. by apply (not_agrees es x (Some n)), IH.
  - intros es x n _ IH Hlen. by apply (and_agrees es x (Some n)), IH.
  - intros es x _ IH Hlen. by apply (and_agrees es x None), IH.
  - intros x _ s Hs Hx. by rewrite advance_0.
  - intros e es x n k _ IHe _ IHes Hlen. apply (all_agree_cons e es x n (Some k)); [by apply IHe|].
    apply IHes. rewrite length_drop. lia.
  - intros e es x _ IHe Hlen. by apply all_agree_head, IHe.
  - intros e es x n _ IHe _ IHes Hlen. apply (all_agree_cons e es x n None); [by apply IHe|].
    apply IHes. rewrite length_drop. lia.
  - intros x _ last s Hs Hx. by eexists.
  - intros e es x n _ IHe Hlen. by apply first_agrees_here, IHe.
  - intros e es x r _ IHe _ IHes Hlen. apply first_agrees_later; [by apply IHe | by apply IHes].
  - intros es x _ c s Hs Hx. cbn [turns]. rewrite N.add_0_r, advance_0. by eexists.
  - intros es limit x Hl _ IH Hlen. by apply times_agree_end; [|apply IH].
  - intros es limit x n k l Hl Ha IHa Hn _ IHt Hlen. apply times_agree_turn; [done | by apply IHa | done | |].
    + by apply (proj1 (proj2 peg_bounds) es x (Some n) Ha).
    + apply IHt. rewrite length_drop. lia.
Qed.

(** Expressions that can succeed without reading, and those whose repetitions
    without a limit repeat something that cannot. *)
Fixpoint nullable (e : pexpr) : bool :=
  match e with
  | Sym _ => false
  | Cat es => forallb nullable es
  | Choice es => existsb nullable es
  | Rep min _ es => (min =? 0)%N || forallb nullable es
  | Opt _ | Neg _ | Look _ => true
  end.
Fixpoint well_formed (e : pexpr) : bool :=
  match e with
  | Sym _ => true
  | Cat es | Choice es | Opt es | Neg es | Look es => forallb well_formed es
  | Rep _ max es => negb ((max =? N_)%N && forallb nullable es) && forallb well_formed es
  end.

Lemma peg_nullable :
  (forall e x r, peg e x r -> r = Some 0%nat -> nullable e = true) /\
  (forall es x r, peg_all es x r -> r = Some 0%nat -> forallb nullable es = true) /\
  (forall es x r, peg_first es x r -> r = Some 0%nat -> existsb nullable es = true) /\
  (forall es limit x k n, peg_times es limit x k n -> n = 0%nat -> k = 0%nat \/ forallb nullable es = true).
Proof.
  apply peg_mutind; intros; simplify_eq/=; try done; auto.
  - destruct (H0 eq_refl) as [->| ->]; [|apply orb_true_r]. by rewrite (proj2 (N.eqb_eq min 0)) by lia.
  - assert (n = 0%nat /\ k = 0%nat) as [-> ->] by lia. by rewrite H0, H2.
  - by rewrite H0.
  - rewrite H2 by done. apply orb_true_r.
  - right. apply H1. f_equal. lia.
Qed.

(** Every expression that is well formed means something on every input. *)
Definition total (e : pexpr) : Prop := forall x, exists r, peg e x r.

Lemma peg_all_total es : Forall total es -> forall x, exists r, peg_all es x r.
Proof.
  induction 1 as [|e es He _ IH]; intros x; [eexists; constructor|].
  destruct (He x) as [[n|] Hx]; [|eexists; by apply all_head].
  destruct (IH (drop n x)) as [[k|] Hk]; eexists; [by eapply all_cons | by eapply all_tail].
Qed.

Lemma peg_first_total es : Forall total es -> forall x, exists r, peg_first es x r.
Proof.
  induction 1 as [|e es He _ IH]; intros x; [eexists; constructor|].
  destruct (He x) as [[n|] Hx]; [eexists; by apply first_here|]. destruct (IH x) as [r Hr]. eexists. by apply first_later.
Qed.

Lemma peg_times_limited es : (forall x, exists r, peg_all es x r) -> forall m x, exists k n, peg_times es (Some m) x k n.
Proof.
  intros Ha. induction m as [|m IH]; intros x; [by do 2 eexists; constructor|].
  destruct (Ha x) as [[n|] Hx]; [|by do 2 eexists; apply times_end].
  destruct (IH (drop n x)) as (k & l & Ht). do 2 eexists. by apply times_turn.
Qed.

Lemma peg_times_unlimited es : forallb nullable es = false -> (forall x, exists r, peg_all es x r) ->
  forall x, exists k n, peg_times es None x k n.
Proof.
  intros Hn Ha x. remember (length x) as j eqn:Hj. revert x Hj.
  induction (lt_wf j) as [j _ IH]; intros x ->. destruct (Ha x) as [[n|] Hx]; [|by do 2 eexists; apply times_end].
  assert (0 < n)%nat.
  { destruct n; [|lia]. apply (proj1 (proj2 peg_nullable)) in Hx; [|done]. by rewrite Hn in Hx. }
  pose proof (proj1 (proj2 peg_bounds) _ _ _ Hx n eq_refl) as Hb.
  destruct (IH (length (drop n x))) with (drop n x) as (k & l & Ht); [rewrite length_drop; lia | done |].
  do 2 eexists. by apply times_turn.
Qed.

Lemma well_formed_all es : Forall (fun e => well_formed e = true -> total e) es -> forallb well_formed es = true -> Forall total es.
Proof. induction 1; cbn [forallb]; [constructor|]. intros [? ?]%andb_true_iff. constructor; auto. Qed.

Lemma peg_total e : well_formed e = true -> total e.
Proof.
  induction e as [pred|es IH|es IH|es IH|min max es IH|es IH|es IH] using pexpr_induction; cbn [well_formed]; intros Hw x.
  - destruct x as [|c x]; [by eexists; apply peg_sym_eof|]. destruct (pred c) eqn:E; eexists; [by apply peg_sym | by apply peg_sym_no].
  - destruct (peg_all_total es (well_formed_all es IH Hw) x) as [r Hr]. eexists. by apply peg_cat.
  - destruct (peg_first_total es (well_formed_all es IH Hw) x) as [r Hr]. eexists. by apply peg_choice.
  - destruct (peg_all_total es (well_formed_all es IH Hw) x) as [[n|] Hr]; eexists; [by apply peg_opt | by apply peg_opt_no].
  - apply andb_true_iff in Hw as [Hn Hw]. pose proof (peg_all_total es (well_formed_all es IH Hw)) as Ha.
    assert (exists k n, peg_times es (turns_limit max) x k n) as (k & n & Ht).
    { unfold turns_limit. destruct (max =? N_)%N; [|by apply peg_times_limited].
      apply peg_times_unlimited; [|done]. by destruct (forallb nullable es). }
    destruct (N.le_gt_cases min (N.of_nat k)); eexists; [by eapply peg_rep | by eapply peg_rep_no].
  - destruct (peg_all_total es (well_formed_all es IH Hw) x) as [[n|] Hr]; eexists; [by eapply peg_neg_no | by apply peg_neg].
  - destruct (peg_all_total es (well_formed_all es IH Hw) x) as [[n|] Hr]; eexists; [by eapply peg_look | by apply peg_look_no].
Qed.

(** C37 (equivalence). The clauses are parsing expressions: a clause built from
    symbols with sequence, alternatives, maybe, repeat, not_clause and and_clause, each of any number of
    subclauses and the repetition with any least and greatest number of turns, in which nothing that is repeated
    without a limit can succeed without reading, reads from any input (shorter than 2^64 - 1) exactly
    what the expression it stands for means there, and fails, leaving the position where it was, exactly where that fails. *)
Theorem clauses_are_peg e x s
  (Hw : well_formed e = true) (Hlen : Z.of_nat (length x) < 2 ^ 64 - 1)
  (Hs : valid s) (Hx : remaining s = x) :
  exists r, peg e x r /\
    match r with
    | Some n => clause_of e s tt = (None, advance n s, tt)
    | None => exists err, clause_of e s tt = (Some err, s, tt)
    end.
Proof.
  destruct (peg_total e Hw x) as [r Hp]. exists r. split; [done|].
  pose proof (proj1 peg_agrees e x r Hp Hlen s Hs Hx) as H.
  destruct r; [done|]. destruct H as (err & H & _). by exists err.
Qed.

(** Backtracking is safe: whatever clauses of the library a clause
    is made of, it stays inside the input and never goes back behind its
    start; when it fails, the position and, for all but the repetition, the
    target are as they were; and a lookahead consumes nothing even when it succeeds. *)
Theorem clauses_restore_input {T} `{Default T} (cs : list (clause T)) min max s t
  (Hcs : AllInside cs) (Hs : valid s) :
  (forall c, c ∈ [alternatives cs; maybe cs; sequence cs; not_clause cs; and_clause cs;
                  force_only_this_alternative cs; repeat min max cs] ->
     inside s (c s t).1.2 /\
     forall e, (c s t).1.1 = Some e -> (c s t).1.2 = s) /\
  (forall c, c ∈ [alternatives cs; maybe cs; sequence cs; not_clause cs; and_clause cs;
                  force_only_this_alternative cs] ->
     forall e, (c s t).1.1 = Some e -> (c s t).2 = t) /\
  (forall c, c ∈ [not_clause cs; and_clause cs] -> (c s t).1.2 = s /\ (c s t).2 = t).
Proof.
  split; [|split].
  - assert (Hc : forall c, CInside c -> CRestores c ->
      inside s (c s t).1.2 /\ forall e, (c s t).1.1 = Some e -> (c s t).1.2 = s).
    { intros c H1 H2. split; [by apply H1 | intros e He; by eapply H2]. }
    intros c Hin. repeat (apply elem_of_cons in Hin as [-> | Hin]; [try (by apply Hc; apply _)|]);
      [|by apply not_elem_of_nil in Hin].
    split; [by apply repeat_inside | intros e He; by eapply repeat_restores_input].
  - intros c Hin. repeat (apply elem_of_cons in Hin as [-> | Hin]; [by intros e He; eapply c_restores|]).
    by apply not_elem_of_nil in Hin.
  - intros c Hin. repeat (apply elem_of_cons in Hin as [-> | Hin]);
      [| |by apply not_elem_of_nil in Hin]; unfold not_clause, and_clause;
      all_of_cases cs s (default_value (T := T));
      by rewrite end_consumer_back by (done || by apply inside_data).
Qed.

(** [(ab){2,3}c] on [xababc], from the second character on. *)
Definition example_expression : pexpr :=
  Cat [Rep 2 3 [Sym (Z.eqb 97); Sym (Z.eqb 98)]; Sym (Z.eqb 99)].

Lemma clauses_are_peg_witness :
  exists r, peg example_expression [97; 98; 97; 98; 99] r /\
    match r with
    | Some n => clause_of example_expression (mk_source [120; 97; 98; 97; 98; 99] 1) tt
                = (None, advance n (mk_source [120; 97; 98; 97; 98; 99] 1), tt)
    | None => exists err, clause_of example_expression
                (mk_source [120; 97; 98; 97; 98; 99] 1) tt = (Some err, mk_source [120; 97; 98; 97; 98; 99] 1, tt)
    end.
Proof.
  apply (clauses_are_peg example_expression [97; 98; 97; 98; 99] (mk_source [120; 97; 98; 97; 98; 99] 1)).
  - reflexivity.
  - reflexivity.
  - unfold valid. cbn. lia.
  - reflexivity.
Defined.

(** Too few turns, enough, and one more than is wanted. *)
Example repetition_counts :
  (fun x => (clause_of example_expression (source x) tt).1) <$> [[97; 98; 99]; [97; 98; 97; 98; 99]; [97; 98; 97; 98; 97; 98; 97; 98; 99]] =
    [(Some (mk_error 2 pattern_not_found), source [97; 98; 99]); (None, mk_source [97; 98; 97; 98; 99] 5);
     (Some (mk_error 6 unexpected_character), source [97; 98; 97; 98; 97; 98; 97; 98; 99])].
Proof. reflexivity. Qed.

(** The repetition [ab ab ...] on [abac]: the half item is given back. *)
Lemma clauses_restore_input_witness :
  let item := [symbol (T := bytes) 97; symbol 98] in
  inside (source [97; 98; 97; 99]) (repeat 1 N_ item (source [97; 98; 97; 99]) []).1.2 /\
  repeat 1 N_ item (source [97; 98; 97; 99]) [] = (None, mk_source [97; 98; 97; 99] 2, []).
Proof.
  intros item. split; [|vm_compute; reflexivity].
  destruct (clauses_restore_input item 1 N_ (source [97; 98; 97; 99]) []) as (H & _).
  - unfold item. apply _.
  - apply valid_source.
  - apply H. do 6 (apply list_elem_of_further). apply list_elem_of_here.
Defined.
