(* ===== verification/EasyRules.v ===== *)
(** * Rules for the easy parser

    What producers and clauses of [EasyParser] read, as rules that follow the
    structure of the parser: [reads] and [creads] say what is read from every
    input that starts with a given text and goes on in an admitted way,
    [fails] and [cfails] on which inputs nothing is read, and [triple] what a
    target satisfies afterwards whatever the input is. *)

From S2P Require Import Prelude IntAcc Headers.
From S2P Require Import EasyParser.

(** The producer reads [x] from any input that goes on with something [F] admits. *)
Definition reads {A} (p : producer A) (F : bytes -> Prop) (x : bytes) (v : A) : Prop :=
  forall s r, valid s -> remaining s = x ++ r -> F r -> p s = (Ok v, advance (length x) s).
Definition creads {T} (c : clause T) (F : bytes -> Prop) (x : bytes) (f : T -> T) : Prop :=
  forall s r t, valid s -> remaining s = x ++ r -> F r -> c s t = (None, advance (length x) s, f t).

(** They fail, without forcing, on every input of the class; [cfails] also
    says that the target is not touched. *)
Definition fails {A} (p : producer A) (F : bytes -> Prop) : Prop :=
  forall s, valid s -> F (remaining s) -> exists e s', p s = (Err e, s') /\
    m_data s' = m_data s /\ reason e <> force_only_this_alternative_failed.
Definition cfails {T} (c : clause T) (F : bytes -> Prop) : Prop :=
  forall s t, valid s -> F (remaining s) -> exists e s', c s t = (Some e, s', t) /\
    m_data s' = m_data s /\ reason e <> force_only_this_alternative_failed.
Definition cfails_loosely {T} (c : clause T) (F : bytes -> Prop) : Prop :=
  forall s t, valid s -> F (remaining s) -> exists e s' t', c s t = (Some e, s', t') /\
    m_data s' = m_data s /\ reason e <> force_only_this_alternative_failed.

(** ** What may follow *)

Definition anything (r : bytes) : Prop := True.
(** What comes next is not a character of the class. *)
Definition stops (pred : Z -> bool) (r : bytes) : Prop :=
  match r with [] => True | c :: _ => pred c = false end.
Definition at_end (r : bytes) : Prop := r = [].
(** The text [x], then something of [F]. *)
Definition followed (x : bytes) (F : bytes -> Prop) (r : bytes) : Prop := exists y, r = x ++ y /\ F y.

Lemma followed_nil F r : F r -> followed [] F r.
Proof. intros H. by exists r. Qed.
Lemma followed_app x y F r : followed x (followed y F) r <-> followed (x ++ y) F r.
Proof.
  split.
  - intros (z & -> & w & -> & H). exists w. by rewrite app_assoc.
  - intros (w & -> & H). exists (y ++ w). rewrite app_assoc. split; [done|]. by exists w.
Qed.
Lemma followed_mono x (F G : bytes -> Prop) r : (forall r, F r -> G r) -> followed x F r -> followed x G r.
Proof. intros HF (y & -> & H). exists y. auto. Qed.
Lemma stops_followed pred c x F r : pred c = false -> followed (c :: x) F r -> stops pred r.
Proof. intros Hc (y & -> & _). done. Qed.
Lemma stops_at_end pred r : at_end r -> stops pred r.
Proof. by intros ->. Qed.

#[export] Hint Resolve followed_nil stops_at_end : restinio.
#[export] Hint Unfold anything : restinio.

Lemma valid_advance s x r : valid s -> remaining s = x ++ r -> valid (advance (length x) s).
Proof.
  intros Hs E. apply (f_equal length) in E. rewrite remaining_length, length_app in E.
  unfold valid, advance in *. cbn. lia.
Qed.

(** ** The top level *)

Lemma trimmed_clean x c : is_space c = false -> remove_trailing_spaces (x ++ [c]) = x ++ [c].
Proof.
  intros Hc. unfold remove_trailing_spaces. rewrite length_app, Nat.add_1_r. cbn [trimmed_size].
  rewrite nth_middle, Hc. apply firstn_all2. rewrite length_app. cbn. lia.
Qed.

(** The input has no spaces at its end. *)
Definition trimmed (x : bytes) : Prop := match last x with Some c => is_space c = false | None => True end.

Lemma trimmed_id x : trimmed x -> remove_trailing_spaces x = x.
Proof.
  unfold trimmed. destruct (last x) as [c|] eqn:E.
  - apply last_Some in E as [y ->]. apply trimmed_clean.
  - by apply last_None in E as ->.
Qed.

Lemma trimmed_app x y : y <> [] -> trimmed y -> trimmed (x ++ y).
Proof.
  unfold trimmed. rewrite last_app. destruct (last y) eqn:E; [done|].
  by apply last_None in E.
Qed.

(** It has an end, and no spaces there. *)
Definition ends_well (y : bytes) : Prop := y <> [] /\ trimmed y.

Lemma ends_well_app x y : ends_well y -> ends_well (x ++ y).
Proof. intros [Hn Ht]. split; [by destruct x | by apply trimmed_app]. Qed.

Lemma trimmed_Forall (pred : Z -> bool) x :
  (forall c, pred c = true -> is_space c = false) -> Forall (fun c => pred c = true) x -> trimmed x.
Proof.
  intros Hp Hx. unfold trimmed. destruct (last x) as [c|] eqn:E; [|done].
  apply last_Some in E as [y ->]. apply Hp. by apply Forall_app in Hx as [_ Hc%Forall_inv].
Qed.

Lemma no_remaining_at_end s : remaining s = [] -> ensure_no_remaining_content s = (None, s).
Proof.
  intros H. unfold ensure_no_remaining_content. cbn [no_remaining_loop].
  assert (He : eof s = true); [|by rewrite He].
  unfold eof. apply Nat.leb_le. apply (f_equal length) in H. rewrite remaining_length in H. cbn in H. lia.
Qed.

Lemma try_parse_reads {A} (p : producer A) x v :
  trimmed x -> reads p at_end x v -> try_parse x p = Ok v.
Proof.
  intros Ht Hp. unfold try_parse. rewrite trimmed_id by done.
  rewrite (Hp (source x) []); [|apply valid_source | by rewrite app_nil_r | done].
  rewrite no_remaining_at_end; [done|]. rewrite remaining_advance_drop, remaining_source.
  apply drop_all.
Qed.

Lemma try_parse_fails {A} (p : producer A) x :
  trimmed x -> fails p (fun r => r = x) -> exists e, try_parse x p = Err e.
Proof.
  intros Ht Hp. unfold try_parse. rewrite trimmed_id by done.
  destruct (Hp (source x)) as (e & s' & -> & _); [apply valid_source | done | by exists e].
Qed.

(** ** Rules of reading *)

Section Weaken.
Context {A T : Type}.
Lemma reads_weaken (p : producer A) (F F' : bytes -> Prop) x v :
  reads p F x v -> (forall r, F' r -> F r) -> reads p F' x v.
Proof. intros Hp HF s r Hs Hx Hr. by apply (Hp s r), HF. Qed.
Lemma creads_weaken (c : clause T) (F F' : bytes -> Prop) x f :
  creads c F x f -> (forall r, F' r -> F r) -> creads c F' x f.
Proof. intros Hp HF s r t Hs Hx Hr. by apply (Hp s r), HF. Qed.
Lemma fails_weaken (p : producer A) (F F' : bytes -> Prop) : fails p F -> (forall r, F' r -> F r) -> fails p F'.
Proof. intros Hp HF s Hs Hx. by apply Hp, HF. Qed.
Lemma cfails_weaken (c : clause T) (F F' : bytes -> Prop) : cfails c F -> (forall r, F' r -> F r) -> cfails c F'.
Proof. intros Hp HF s t Hs Hx. by apply Hp, HF. Qed.
Lemma cfails_loosely_weaken (c : clause T) (F F' : bytes -> Prop) :
  cfails_loosely c F -> (forall r, F' r -> F r) -> cfails_loosely c F'.
Proof. intros Hp HF s t Hs Hx. by apply Hp, HF. Qed.
Lemma cfails_to_loosely (c : clause T) F : cfails c F -> cfails_loosely c F.
Proof. intros Hp s t Hs Hx. destruct (Hp s t Hs Hx) as (e & s' & H). by exists e, s', t. Qed.
Lemma creads_ext (c : clause T) F x f g : creads c F x f -> (forall t, f t = g t) -> creads c F x g.
Proof. intros Hc Hf s r t Hs Hx Hr. by rewrite <- Hf, (Hc s r t). Qed.
End Weaken.

Section Reads.
Context {A B T : Type}.

Lemma reads_symbol pred c : pred c = true -> reads (symbol_producer pred) anything [c] c.
Proof. intros Hc s r _ Hx _. unfold symbol_producer. rewrite (getch_cons s c r) by done. cbn. by rewrite Hc. Qed.

Lemma reads_transformed (p : producer A) (f : A -> B) F x v :
  reads p F x v -> reads (transformed_value_producer p f) F x (f v).
Proof. intros Hp s r Hs Hx Hr. unfold transformed_value_producer. by rewrite (Hp s r). Qed.

Lemma creads_consume (p : producer A) (c : consumer T A) F x v :
  reads p F x v -> creads (consume_value_clause p c) F x (fun t => c t v).
Proof. intros Hp s r t Hs Hx Hr. unfold consume_value_clause. by rewrite (Hp s r). Qed.

Lemma reads_produce `{Default T} (cs : list (clause T)) F x f :
  creads (all_of cs) F x f -> reads (produce T cs) F x (f default_value).
Proof. intros Hc s r Hs Hx Hr. unfold produce. by rewrite (Hc s r). Qed.

Lemma reads_make `{Default T} (cs : list (clause T)) F x f v :
  creads (all_of cs) F x f -> f default_value = v -> reads (produce T cs) F x v.
Proof. intros Hc <-. by apply reads_produce. Qed.

Lemma creads_nil F : creads (T := T) (all_of []) F [] (fun t => t).
Proof. intros s r t Hs Hx _. cbn. by rewrite advance_0. Qed.

Lemma creads_cons (c : clause T) cs F G x y f g :
  creads c F x f -> creads (all_of cs) G y g -> (forall r, followed y G r -> F r) ->
  creads (all_of (c :: cs)) G (x ++ y) (fun t => g (f t)).
Proof.
  intros Hc Hcs HF s r t Hs Hx Hr. rewrite <- app_assoc in Hx. cbn [all_of].
  rewrite (Hc s (y ++ r)); [|done..|apply HF; by exists r].
  rewrite (Hcs _ r); [|by eapply valid_advance|by apply remaining_advance|done].
  by rewrite advance_add, length_app.
Qed.

(** The last clause of a list. *)
Lemma creads_last (c : clause T) F x f : creads c F x f -> creads (all_of [c]) F x f.
Proof. intros Hc s r t Hs Hx Hr. cbn [all_of]. by rewrite (Hc s r t). Qed.

Lemma creads_sequence (cs : list (clause T)) F x f : creads (all_of cs) F x f -> creads (sequence cs) F x f.
Proof. intros H s r t Hs Hx Hr. unfold sequence. by rewrite (H s r). Qed.

Lemma creads_maybe (cs : list (clause T)) F x f : creads (all_of cs) F x f -> creads (maybe cs) F x f.
Proof. intros H s r t Hs Hx Hr. unfold maybe. by rewrite (H s r). Qed.

Lemma creads_maybe_not (cs : list (clause T)) F :
  cfails_loosely (all_of cs) F -> creads (maybe cs) F [] (fun t => t).
Proof.
  intros H s r t Hs Hx Hr. unfold maybe. destruct (H s t Hs) as (e & s' & t' & -> & H1 & _).
  { by rewrite Hx. }
  by rewrite end_consumer_back, advance_0 by done.
Qed.

Lemma creads_not `{Default T} (cs : list (clause T)) F :
  cfails_loosely (all_of cs) F -> creads (not_clause cs) F [] (fun t => t).
Proof.
  intros H0 s r t Hs Hx Hr. unfold not_clause.
  destruct (H0 s default_value Hs) as (e & s' & t' & -> & H1 & _).
  { by rewrite Hx. }
  by rewrite end_consumer_back, advance_0 by done.
Qed.

Lemma creads_forced (cs : list (clause T)) F x f :
  creads (all_of cs) F x f -> creads (force_only_this_alternative cs) F x f.
Proof. intros H s r t Hs Hx Hr. unfold force_only_this_alternative, sequence. by rewrite (H s r). Qed.

Lemma creads_first (c : clause T) cs F x f :
  creads c F x f -> creads (alternatives (c :: cs)) F x f.
Proof. intros Hc s r t Hs Hx Hr. unfold alternatives. cbn [any_of]. by rewrite (Hc s r). Qed.

Lemma any_of_last (cs : list (clause T)) e s t : cs <> [] -> any_of cs (Some e) s t = any_of cs None s t.
Proof. by destruct cs. Qed.

(** A later alternative, when the first one fails. *)
Lemma creads_next (c : clause T) cs F x f :
  cfails_loosely c (followed x F) -> creads (alternatives cs) F x f ->
  creads (alternatives (c :: cs)) F x f.
Proof.
  intros Hc Hcs s r t Hs Hx Hr. unfold alternatives. cbn [any_of].
  destruct (Hc s t Hs) as (e & s' & t' & -> & H1 & H2); [rewrite Hx; by exists r|].
  rewrite bool_decide_eq_false_2, end_consumer_back by done.
  specialize (Hcs s r t Hs Hx Hr). unfold alternatives in Hcs.
  destruct cs as [|c' cs]; [done|]. by rewrite any_of_last.
Qed.

End Reads.

Lemma creads_symbol {T} c : creads (T := T) (symbol c) anything [c] (fun t => t).
Proof. apply (creads_consume (symbol_p c) skip anything [c] c), reads_symbol, Z.eqb_refl. Qed.

(** ** Rules of failing *)

Section Fails.
Context {A B T : Type}.

Lemma fails_symbol pred : fails (symbol_producer pred) (stops pred).
Proof.
  intros s Hs Hx. unfold symbol_producer. destruct (remaining s) as [|c r] eqn:E.
  - rewrite (getch_nil s) by done. by do 2 eexists.
  - rewrite (getch_cons s c r) by done. cbn in *. rewrite Hx. cbn. rewrite putback_advance. by do 2 eexists.
Qed.

Lemma fails_transformed (p : producer A) (f : A -> B) F : fails p F -> fails (transformed_value_producer p f) F.
Proof.
  intros Hp s Hs Hx. unfold transformed_value_producer. destruct (Hp s Hs Hx) as (e & s' & -> & H1 & H2).
  by do 2 eexists.
Qed.

Lemma fails_produce `{Default T} (cs : list (clause T)) F : cfails_loosely (all_of cs) F -> fails (produce T cs) F.
Proof.
  intros Hc s Hs Hx. unfold produce. destruct (Hc s default_value Hs Hx) as (e & s' & t' & -> & H1 & H2).
  by do 2 eexists.
Qed.

Lemma cfails_consume (p : producer A) (c : consumer T A) F : fails p F -> cfails (consume_value_clause p c) F.
Proof.
  intros Hp s t Hs Hx. unfold consume_value_clause. destruct (Hp s Hs Hx) as (e & s' & -> & H1 & H2).
  by do 2 eexists.
Qed.

Lemma cfails_head (c : clause T) cs F : cfails c F -> cfails (all_of (c :: cs)) F.
Proof.
  intros Hc s t Hs Hx. cbn [all_of]. destruct (Hc s t Hs Hx) as (e & s' & -> & H1 & H2).
  by do 2 eexists.
Qed.

Lemma cfails_head_loosely (c : clause T) cs F : cfails_loosely c F -> cfails_loosely (all_of (c :: cs)) F.
Proof.
  intros Hc s t Hs Hx. cbn [all_of]. destruct (Hc s t Hs Hx) as (e & s' & t' & -> & H1 & H2).
  by do 3 eexists.
Qed.

(** A clause reads [x] and a later one fails on what follows it. *)
Lemma cfails_tail (c : clause T) cs F G x :
  creads c F x (fun t => t) -> cfails (all_of cs) G -> (forall r, G r -> F r) ->
  cfails (all_of (c :: cs)) (followed x G).
Proof.
  intros Hc Hcs HF s t Hs (r & Hx & Hr). cbn [all_of]. rewrite (Hc s r) by auto.
  destruct (Hcs (advance (length x) s) t) as (e & s' & -> & H1 & H2).
  - by eapply valid_advance.
  - by erewrite remaining_advance.
  - by do 2 eexists.
Qed.

Lemma cfails_tail_loosely (c : clause T) cs F G x f :
  creads c F x f -> cfails_loosely (all_of cs) G -> (forall r, G r -> F r) ->
  cfails_loosely (all_of (c :: cs)) (followed x G).
Proof.
  intros Hc Hcs HF s t Hs (r & Hx & Hr). cbn [all_of]. rewrite (Hc s r) by auto.
  destruct (Hcs (advance (length x) s) (f t)) as (e & s' & t' & -> & H1 & H2).
  - by eapply valid_advance.
  - by erewrite remaining_advance.
  - by do 3 eexists.
Qed.

Lemma cfails_sequence (cs : list (clause T)) F : cfails_loosely (all_of cs) F -> cfails (sequence cs) F.
Proof.
  intros Hc s t Hs Hx. unfold sequence. destruct (Hc s t Hs Hx) as (e & s' & t' & -> & H1 & H2).
  do 2 eexists. by rewrite end_consumer_back.
Qed.

Lemma any_of_fails (cs : list (clause T)) F last s t :
  Forall (fun c => cfails_loosely c F) cs -> valid s -> F (remaining s) ->
  exists last', any_of cs last s t = (false, last', s, t).
Proof.
  intros Hcs Hs HF. revert last. induction Hcs as [|c cs Hc Hcs IH]; intros last; cbn [any_of]; [by eexists|].
  destruct (Hc s t Hs HF) as (e & s' & t' & -> & H1 & H2).
  rewrite bool_decide_eq_false_2, end_consumer_back by done. apply IH.
Qed.

Lemma cfails_alternatives (cs : list (clause T)) F :
  Forall (fun c => cfails_loosely c F) cs -> cfails (alternatives cs) F.
Proof.
  intros Hcs s t Hs HF. unfold alternatives. destruct (any_of_fails cs F None s t) as [l ->]; [done..|].
  by do 2 eexists.
Qed.

Lemma cfails_not `{Default T} (cs : list (clause T)) F x f :
  creads (all_of cs) F x f -> cfails (not_clause cs) (followed x F).
Proof.
  intros Hc s t Hs (r & Hx & Hr). unfold not_clause. rewrite (Hc s r) by done.
  do 2 eexists. by rewrite end_consumer_back.
Qed.

End Fails.

Lemma cfails_symbol {T} c : cfails (T := T) (symbol c) (stops (fun a => c =? a)).
Proof. apply cfails_consume, fails_symbol. Qed.

(** ** Repetition *)

Definition texts {T} (items : list (bytes * (T -> T))) : bytes := mjoin (fst <$> items).
Definition apply_all {T} (items : list (bytes * (T -> T))) (t : T) : T :=
  foldl (fun t i => snd i t) t items.

(** Each item is read when the others follow it. *)
Definition items_read {T} (cs : list (clause T)) (F : bytes -> Prop) (items : list (bytes * (T -> T))) : Prop :=
  forall pre x f post, items = pre ++ (x, f) :: post ->
    creads (all_of cs) (followed (texts post) F) x f.

Section Repeat.
Context {T : Type} (cs : list (clause T)) (F : bytes -> Prop).

Lemma items_read_tail i items : items_read cs F (i :: items) -> items_read cs F items.
Proof. intros H pre x f post ->. by apply (H (i :: pre)). Qed.

Lemma turns_read items : items_read cs F items -> forall k c s r t,
  valid s -> remaining s = texts items ++ r -> F r -> k = length items ->
  turns (repeat_item cs) k (c, s, t) =
    (((c + N.of_nat (length items))%N, advance (length (texts items)) s, apply_all items t), true).
Proof.
  induction items as [|[x f] items IH]; intros Hr k c s r t Hs Hx HF ->; cbn [length turns].
  - by rewrite N.add_0_r, advance_0.
  - unfold texts in Hx. cbn [fmap list_fmap mjoin fst] in Hx. fold (texts items) in Hx.
    assert (Hx' : remaining s = x ++ texts items ++ r).
    { rewrite Hx. cbn. by rewrite <- app_assoc. }
    unfold repeat_item at 1. rewrite (Hr [] x f items eq_refl s (texts items ++ r)); [|done..|by exists r].
    rewrite end_consumer_commit. cbn. rewrite (IH (items_read_tail _ _ Hr) _ _ _ r); [|..|done|done].
    + rewrite advance_add. unfold texts. cbn. rewrite length_app.
      by replace (c + 1 + N.of_nat (length items))%N with (c + N.pos (Pos.of_succ_nat (length items)))%N by lia.
    + by eapply valid_advance.
    + by apply remaining_advance.
Qed.

Lemma creads_repeat_fewer min max items :
  items_read cs F items -> cfails (all_of cs) F ->
  (min <= N.of_nat (length items) < max)%N ->
  creads (repeat min max cs) F (texts items) (apply_all items).
Proof.
  intros Hi Hf Hn s r t Hs Hx Hr. unfold repeat. destruct max as [|n]; [lia|]. rewrite loop_turns.
  replace (Pos.to_nat n) with (length items + S (Pos.to_nat n - length items - 1))%nat by lia.
  rewrite turns_add, (turns_read items Hi _ 0%N s r t) by done. cbn [turns].
  unfold repeat_item at 1.
  destruct (Hf (advance (length (texts items)) s) (apply_all items t)) as (e & s' & -> & H1 & _).
  - by eapply valid_advance.
  - by erewrite remaining_advance.
  - cbn [fst]. rewrite end_consumer_back; [|by eapply valid_advance | done].
    destruct (N.leb_spec min (0 + N.of_nat (length items))); [by rewrite end_consumer_commit | lia].
Qed.

(** Fewer items than are needed. *)
Lemma cfails_repeat min max items :
  items_read cs F items -> cfails_loosely (all_of cs) F ->
  (N.of_nat (length items) < min)%N -> (N.of_nat (length items) < max)%N ->
  cfails_loosely (repeat min max cs) (followed (texts items) F).
Proof.
  intros Hi Hf Hmin Hmax s t Hs (r & Hx & Hr). unfold repeat. destruct max as [|n]; [lia|]. rewrite loop_turns.
  replace (Pos.to_nat n) with (length items + S (Pos.to_nat n - length items - 1))%nat by lia.
  rewrite turns_add, (turns_read items Hi _ 0%N s r t) by done. cbn [turns].
  unfold repeat_item at 1.
  destruct (Hf (advance (length (texts items)) s) (apply_all items t)) as (e & s' & t' & -> & H1 & _).
  - by eapply valid_advance.
  - by erewrite remaining_advance.
  - cbn [fst]. rewrite end_consumer_back; [|by eapply valid_advance | done].
    destruct (N.leb_spec min (0 + N.of_nat (length items))); [lia|].
    do 3 eexists. by rewrite end_consumer_back.
Qed.

(** As many items as are allowed. *)
Lemma creads_repeat_all min max items :
  items_read cs F items -> (min <= N.of_nat (length items))%N -> max = N.of_nat (length items) ->
  creads (repeat min max cs) F (texts items) (apply_all items).
Proof.
  intros Hi Hn -> s r t Hs Hx Hr. unfold repeat.
  destruct (N.of_nat (length items)) as [|n] eqn:E.
  - destruct items; [|done]. cbn. rewrite advance_0. destruct (N.leb_spec min 0); [done | lia].
  - rewrite loop_turns. rewrite (turns_read items Hi _ 0%N s r t) by (done || lia). cbn [fst].
    rewrite E. destruct (N.leb_spec min (0 + N.pos n)); [by rewrite end_consumer_commit | lia].
Qed.

Lemma creads_repeat min max items :
  items_read cs F items -> (N.of_nat (length items) = max \/ cfails (all_of cs) F) ->
  (min <= N.of_nat (length items) <= max)%N ->
  creads (repeat min max cs) F (texts items) (apply_all items).
Proof.
  intros Hi Hf Hn. destruct (N.eq_dec (N.of_nat (length items)) max) as [E|E].
  - apply creads_repeat_all; [done | lia | done].
  - apply creads_repeat_fewer; [done | by destruct Hf | lia].
Qed.
End Repeat.

(** A run of characters of a class, each given to a consumer. *)
Definition run_items {T} (k : consumer T Z) (x : bytes) : list (bytes * (T -> T)) :=
  (fun c => ([c], fun t => k t c)) <$> x.

Lemma texts_run {T} (k : consumer T Z) x : texts (run_items k x) = x.
Proof. induction x as [|c x IH]; [done|]. change (c :: texts (run_items k x) = c :: x). by rewrite IH. Qed.
Lemma apply_run {T} (k : consumer T Z) x t : apply_all (run_items k x) t = foldl k t x.
Proof. revert t. induction x as [|c x IH]; intros t; [done|]. apply IH. Qed.

Lemma creads_run_with {T} (k : consumer T Z) pred min max x :
  Forall (fun c => pred c = true) x -> (min <= N.of_nat (length x) <= max)%N ->
  creads (repeat min max [consume_value_clause (symbol_producer pred) k]) (stops pred) x (fun t => foldl k t x).
Proof.
  intros Hx Hn.
  assert (Hi : items_read [consume_value_clause (symbol_producer pred) k] (stops pred) (run_items k x)).
  { intros pre y f post E.
    assert (Hyf : (y, f) ∈ run_items k x) by (rewrite E; apply elem_of_app; right; apply list_elem_of_here).
    unfold run_items in Hyf. apply list_elem_of_fmap in Hyf as (c & [= -> ->] & Hc).
    apply creads_last. rewrite Forall_forall in Hx. apply (creads_weaken _ anything); [|done].
    by apply creads_consume, reads_symbol, Hx. }
  pose proof (creads_repeat _ (stops pred) min max (run_items k x) Hi) as H.
  rewrite texts_run in H. eapply creads_ext; [apply H | intros; apply apply_run].
  - right. apply cfails_head, cfails_consume, fails_symbol.
  - unfold run_items. by rewrite length_fmap.
Qed.

(** Collected in a string. *)
Lemma creads_run pred min max x :
  Forall (fun c => pred c = true) x -> (min <= N.of_nat (length x) <= max)%N ->
  creads (repeat min max [consume_value_clause (symbol_producer pred) to_container]) (stops pred) x (fun t => t ++ x).
Proof.
  intros Hx Hn. eapply creads_ext; [by apply creads_run_with|]. intros t. cbn. revert t. clear Hx Hn.
  induction x as [|c x IH]; intros t; cbn; [by rewrite app_nil_r|]. rewrite IH. unfold to_container, add_to_container.
  unfold vector_container. by rewrite <- app_assoc.
Qed.

(** Skipped. *)
Lemma creads_skip_run {T} pred min max x :
  Forall (fun c => pred c = true) x -> (min <= N.of_nat (length x) <= max)%N ->
  creads (T := T) (repeat min max [consume_value_clause (symbol_producer pred) skip]) (stops pred) x (fun t => t).
Proof.
  intros Hx Hn. eapply creads_ext; [by apply creads_run_with|]. intros t. clear Hx Hn. by induction x.
Qed.

(** ** What a target satisfies, whatever the input *)

Definition triple {T} (P : T -> Prop) (c : clause T) (Q E : T -> Prop) : Prop :=
  forall s t, P t -> match c s t with (None, _, t') => Q t' | (Some _, _, t') => E t' end.
Definition yields {A} (p : producer A) (P : A -> Prop) : Prop :=
  forall s v s', p s = (Ok v, s') -> P v.

Section Triples.
Context {A B T : Type}.

Lemma triple_weaken (P P' Q Q' E E' : T -> Prop) c :
  triple P c Q E -> (forall t, P' t -> P t) -> (forall t, Q t -> Q' t) -> (forall t, E t -> E' t) ->
  triple P' c Q' E'.
Proof. intros H HP HQ HE s t Ht. specialize (H s t (HP t Ht)). destruct (c s t) as [[[]]]; auto. Qed.

Lemma triple_consume (p : producer A) (k : consumer T A) R P Q :
  yields p R -> (forall t v, P t -> R v -> Q (k t v)) -> triple P (consume_value_clause p k) Q P.
Proof.
  intros Hp Hk s t Ht. unfold consume_value_clause. specialize (Hp s).
  destruct (p s) as [[v|e] s']; [|done]. apply Hk; [done | by eapply Hp].
Qed.

Lemma triple_nil (P E : T -> Prop) : triple P (all_of []) P E.
Proof. by intros s t Ht. Qed.

Lemma triple_cons (c : clause T) cs P Q R E :
  triple P c Q E -> triple Q (all_of cs) R E -> triple P (all_of (c :: cs)) R E.
Proof.
  intros Hc Hcs s t Ht. cbn [all_of]. specialize (Hc s t Ht).
  destruct (c s t) as [[[e|] s1] t1]; [done | by apply Hcs].
Qed.

(** The last clause decides. *)
Lemma triple_decides (cs : list (clause T)) c Q :
  triple (fun _ => True) c Q (fun _ => True) -> triple (fun _ => True) (all_of (cs ++ [c])) Q (fun _ => True).
Proof.
  intros Hc. induction cs as [|d cs IH]; intros s t _; cbn [app all_of].
  - specialize (Hc s t I). by destruct (c s t) as [[[e|] s1] t1].
  - destruct (d s t) as [[[e|] s1] t1]; [done | by apply IH].
Qed.

Lemma triple_sequence (cs : list (clause T)) P Q : triple P (all_of cs) Q (fun _ => True) -> triple P (sequence cs) Q P.
Proof. intros H s t Ht. unfold sequence. specialize (H s t Ht). by destruct (all_of cs s t) as [[[]]]. Qed.

Lemma triple_maybe (cs : list (clause T)) P Q E : triple P (all_of cs) Q (fun _ => True) ->
  (forall t, P t -> Q t) -> triple P (maybe cs) Q E.
Proof. intros H HP s t Ht. unfold maybe. specialize (H s t Ht). destruct (all_of cs s t) as [[[]]]; auto. Qed.

Lemma triple_not `{Default T} (cs : list (clause T)) P : triple P (not_clause cs) P P.
Proof. intros s t Ht. unfold not_clause. by destruct (all_of cs s _) as [[[]]]. Qed.

Lemma triple_forced (cs : list (clause T)) P Q :
  triple P (all_of cs) Q (fun _ => True) -> triple P (force_only_this_alternative cs) Q P.
Proof.
  intros H s t Ht. unfold force_only_this_alternative, sequence.
  specialize (H s t Ht). by destruct (all_of cs s t) as [[[]]].
Qed.

Lemma triple_alternatives (cs : list (clause T)) P Q :
  Forall (fun c => triple P c Q (fun _ => True)) cs -> triple P (alternatives cs) Q P.
Proof.
  intros Hcs s t Ht. unfold alternatives.
  assert (H : forall last s, match any_of cs last s t with
    | (true, None, _, t') => Q t' | (_, _, _, t') => P t' end).
  { induction Hcs as [|c cs Hc _ IH]; intros last s1; cbn [any_of]; [done|]. specialize (Hc s1 t Ht).
    destruct (c s1 t) as [[[e|] s2] t2]; [|done]. case_bool_decide; [done | apply IH]. }
  specialize (H None s). destruct (any_of cs None s t) as [[[[] [e|]] s1] t1]; cbn; try done.
Qed.

Lemma triple_repeat min max (cs : list (clause T)) P :
  triple P (all_of cs) P P -> triple P (repeat min max cs) P P.
Proof.
  intros H s t Ht. unfold repeat. set (r := match max with N0 => _ | Npos n => _ end).
  assert (Hr : P r.2).
  { unfold r. destruct max as [|n]; [done|].
    apply (loop_invariant _ (fun st : N * source_t * T => P st.2)); [|done].
    intros [[k s1] t1] H1. cbn in *. unfold repeat_item. specialize (H s1 t1 H1).
    by destruct (all_of cs s1 t1) as [[[]]]. }
  destruct r as [[k s1] t1]. by destruct (min <=? k)%N.
Qed.

Lemma yields_produce `{Default T} (cs : list (clause T)) Q E :
  triple (fun t => t = default_value) (all_of cs) Q E -> yields (produce T cs) Q.
Proof.
  intros H0 s v s'. unfold produce. specialize (H0 s default_value eq_refl).
  destruct (all_of cs s default_value) as [[[]]]; [done|]. by intros [= -> _].
Qed.

Lemma yields_transformed (p : producer A) (f : A -> B) R Q :
  yields p R -> (forall v, R v -> Q (f v)) -> yields (transformed_value_producer p f) Q.
Proof.
  intros Hp Hf s v s'. unfold transformed_value_producer. specialize (Hp s).
  destruct (p s) as [[a|e] s1]; [|done]. intros [= <- _]. by eapply Hf, Hp.
Qed.

Lemma yields_weaken (p : producer A) (R Q : A -> Prop) : yields p R -> (forall v, R v -> Q v) -> yields p Q.
Proof. intros Hp HR s v s' E. by eapply HR, Hp. Qed.

Lemma yields_any (p : producer A) : yields p (fun _ => True).
Proof. done. Qed.

Lemma yields_symbol pred : yields (symbol_producer pred) (fun c => pred c = true).
Proof.
  intros s v s'. unfold symbol_producer. destruct (getch s) as [[[] ch] s1]; cbn; [done|].
  destruct (pred ch) eqn:E; [|done]. by intros [= <- _].
Qed.

End Triples.

Lemma try_parse_yields {A} (p : producer A) P x v : yields p P -> try_parse x p = Ok v -> P v.
Proof.
  unfold try_parse. intros Hp. specialize (Hp (source (remove_trailing_spaces x))).
  destruct (p _) as [[a|e] s']; [|done]. destruct (ensure_no_remaining_content s') as [[e|] ?]; [done|].
  intros [= <-]. by eapply Hp.
Qed.

(** ** Numbers *)

Section NumberRules.
Context (T : int_type) (mul : Z) (ext : extremum_type) (to_digit : Z -> option Z).
Context (Hw : 0 < it_width T) (Hmul : 1 <= mul <= 2 ^ it_width T)
  (Hext : it_signed T = false -> ext = check_positive_extremum).

Definition digits_of (x : bytes) (ds : list Z) : Prop :=
  Forall2 (fun c d => to_digit c = Some d /\ digit_ok mul d) x ds.
Definition no_digit (r : bytes) : Prop := stops (fun c => bool_decide (is_Some (to_digit c))) r.

Lemma digits_loop_reads max x ds : digits_of x ds -> forall fuel s r acc k,
  remaining s = x ++ r -> no_digit r -> (length x < fuel)%nat ->
  0 <= k -> k + Z.of_nat (length x) < max <= 127 ->
  0 <= m_current acc -> m_overflow_detected acc = false ->
  fold_left (fun n d => n * mul + d) ds (m_current acc) <= extremum_value T ext ->
  digits_loop T mul ext to_digit fuel max s acc k =
    (Some (mk_acc (fold_left (fun n d => n * mul + d) ds (m_current acc)) false, k + Z.of_nat (length x)),
     advance (length x) s).
Proof using Hw Hmul Hext.
  induction 1 as [|c d x ds [Hc Hd] Hx IH]; intros fuel s r acc k Hs Hr Hf Hk Hm Ha Ho Hv;
    (destruct fuel as [|fuel]; [cbn in Hf; lia|]); cbn [digits_loop length].
  - rewrite advance_0, Z.add_0_r. cbn in Hs. destruct acc as [cur b]. cbn in *. subst b.
    destruct r as [|c r]; [by rewrite (getch_nil s)|]. rewrite (getch_cons s c r) by done.
    cbn [m_eof m_ch]. cbn in Hr. apply bool_decide_eq_false_1 in Hr. destruct (to_digit c); [by destruct Hr|].
    by rewrite putback_advance.
  - cbn [app length fold_left] in *. rewrite (getch_cons s c (x ++ r)) by done. cbn [m_eof m_ch]. rewrite Hc.
    assert (Hcur : m_current acc * mul + d <= extremum_value T ext).
    { etransitivity; [|exact Hv]. apply fold_digits_mono; [lia | unfold digit_ok in Hd; nia |].
      eapply Forall2_Forall_r; [exact Hx|]. apply Forall_true. by intros ?? []. }
    unfold digit_ok in Hd. rewrite wrap_small by lia. rewrite next_digit_exact by (done || lia).
    cbn [overflow_detected m_overflow_detected]. rewrite Ho.
    assert (Hi : int_fast8 (k + 1) = k + 1).
    { unfold int_fast8, schar. rewrite wrap_small by lia. destruct (Z.ltb_spec (k + 1) 128); lia. }
    rewrite Hi. destruct (Z.eqb_spec (k + 1) max); [lia|].
    rewrite (IH fuel _ r); cbn [m_current m_overflow_detected];
      [| by apply (remaining_advance s [c]) | done | lia | lia | lia | nia | done | done].
    rewrite advance_add. do 3 f_equal. lia.
Qed.

Lemma parse_digits_reads l x ds :
  digits_of x ds -> dl_min l <= Z.of_nat (length x) < dl_max l -> dl_max l <= 127 ->
  digits_value mul ds <= extremum_value T ext ->
  reads (parse_digits T mul ext to_digit l) no_digit x (value T (mk_acc (digits_value mul ds) false)).
Proof using Hw Hmul Hext.
  intros Hx Hl Hm Hv s r Hs Hr HF. unfold parse_digits.
  rewrite (digits_loop_reads (dl_max l) x ds Hx _ s r); cbn; try done; try lia.
  - destruct (Z.ltb_spec (0 + Z.of_nat (length x)) (dl_min l)); [lia | done].
  - apply (f_equal length) in Hr. rewrite remaining_length, length_app in Hr. lia.
Qed.
End NumberRules.

Lemma parse_digits_fails T mul ext to_digit l :
  0 < dl_min l -> fails (parse_digits T mul ext to_digit l) (no_digit to_digit).
Proof.
  intros Hl s Hs Hr. unfold parse_digits. cbn [digits_loop].
  assert (E : (let '(ch, from) := getch s in if m_eof ch then (Some (acc_init, 0), from)
    else match to_digit (m_ch ch) with
         | Some d => (None, s) | None => (Some (acc_init, 0), putback from) end) = (Some (acc_init, 0), s)).
  { destruct (remaining s) as [|c r] eqn:E; [by rewrite (getch_nil s)|].
    rewrite (getch_cons s c r) by done. cbn in *. apply bool_decide_eq_false_1 in Hr.
    destruct (to_digit c); [by destruct Hr|]. by rewrite putback_advance. }
  destruct (getch s) as [ch s1]. destruct (m_eof ch).
  - injection E as ->. destruct (Z.ltb_spec 0 (dl_min l)); [|lia]. do 2 eexists.
    by rewrite end_consumer_back.
  - destruct (to_digit (m_ch ch)); [done|]. injection E as ->. destruct (Z.ltb_spec 0 (dl_min l)); [|lia].
    do 2 eexists. by rewrite end_consumer_back.
Qed.

Lemma no_digit_stops r : stops is_digit r -> no_digit (fun ch => if is_digit ch then Some (ch - chr "0") else None) r.
Proof. destruct r as [|c r]; [done|]. cbn. by intros ->. Qed.

Lemma digits_of_decimal x : Forall (fun c => is_digit c = true) x ->
  digits_of 10 (fun ch => if is_digit ch then Some (ch - chr "0") else None) x ((fun c => c - 48) <$> x).
Proof.
  intros H. unfold digits_of. induction H as [|c x Hc Hx IH]; cbn; constructor; [|done].
  rewrite Hc. unfold is_digit in Hc. change (chr "0") with 48 in *. change (chr "9") with 57 in *. to_prop.
  unfold digit_ok. split; [done | lia].
Qed.

Lemma digits_value_decimal x : digits_value 10 ((fun c => c - 48) <$> x) = decimal x.
Proof.
  unfold digits_value, decimal. generalize 0. induction x as [|c x IH]; intros n; [done|]. apply IH.
Qed.

(** A number without a sign, of a type with no sign. *)
Lemma reads_number w x : 0 < w -> 10 <= 2 ^ w ->
  Forall (fun c => is_digit c = true) x -> (1 <= length x < 127)%nat -> decimal x < 2 ^ w ->
  reads (non_negative_decimal_number_p (mk_int_type w false)) (stops is_digit) x (decimal x).
Proof.
  intros Hw Hm Hx Hl Hv.
  pose proof (parse_digits_reads (mk_int_type w false) 10 check_positive_extremum
    (fun ch => if is_digit ch then Some (ch - chr "0") else None) Hw ltac:(cbn; lia) ltac:(done)
    from_one_to_max x _ (digits_of_decimal x Hx)) as H.
  rewrite digits_value_decimal in H. cbn in H.
  eapply reads_weaken; [apply H; change unlimited_max with 127; lia | apply no_digit_stops].
Qed.

Lemma fails_number T : fails (non_negative_decimal_number_p T) (stops is_digit).
Proof. eapply fails_weaken; [apply parse_digits_fails; done | apply no_digit_stops]. Qed.

Lemma print_llu_loop_digits fuel : forall n, 0 <= n -> Forall (fun c => is_digit c = true) (print_llu_loop fuel n).
Proof.
  assert (Hd : forall d, 0 <= d < 10 -> is_digit (48 + d) = true).
  { intros d Hd. unfold is_digit. change (chr "0") with 48. change (chr "9") with 57.
    apply andb_true_iff. rewrite !Z.leb_le. lia. }
  induction fuel as [|fuel IH]; intros n Hn; cbn [print_llu_loop]; [done|].
  destruct (Z.ltb_spec n 10).
  - constructor; [apply Hd; lia | done].
  - apply Forall_app. split; [apply IH; div_lia | constructor; [apply Hd; div_lia | done]].
Qed.

Lemma reads_print_llu w n : 0 < w <= 64 -> 10 <= 2 ^ w -> 0 <= n < 2 ^ w ->
  reads (non_negative_decimal_number_p (mk_int_type w false)) (stops is_digit) (print_llu n) n.
Proof.
  intros Hw Hm Hn. assert (Hn' : n < 10 ^ Z.of_nat 20).
  { pose proof (Z.pow_le_mono_r 2 w 64). lia. }
  assert (E : decimal (print_llu n) = n) by (apply print_llu_loop_decimal; lia).
  rewrite <- E at 2. apply reads_number; [lia | done | apply print_llu_loop_digits; lia | | lia].
  pose proof (print_llu_loop_length 20 n). unfold print_llu.
  split; [|lia]. cbn [print_llu_loop]. destruct (n <? 10); [done|]. rewrite length_app. cbn. lia.
Qed.

(** ** Values collected in a vector *)

Definition value_items {A} (l : list (bytes * A)) : list (bytes * (list A -> list A)) :=
  (fun xv => (xv.1, fun t => t ++ [xv.2])) <$> l.

Lemma texts_values {A} (l : list (bytes * A)) : texts (value_items l) = mjoin l.*1.
Proof. unfold texts, value_items. by rewrite <- list_fmap_compose. Qed.
Lemma apply_values {A} (l : list (bytes * A)) t : apply_all (value_items l) t = t ++ l.*2.
Proof.
  revert t. induction l as [|[x v] l IH]; intros t; [cbn; by rewrite app_nil_r|].
  change (apply_all (value_items l) (t ++ [v]) = t ++ v :: l.*2). by rewrite IH, <- app_assoc.
Qed.

Lemma creads_many {A} (p : producer A) F min (l : list (bytes * A)) :
  (forall pre x v post, l = pre ++ (x, v) :: post -> reads p (followed (mjoin post.*1) F) x v) ->
  fails p F -> (min <= N.of_nat (length l) < N_)%N ->
  creads (T := list A) (repeat min N_ [consume_value_clause p to_container]) F (mjoin l.*1) (fun t => t ++ l.*2).
Proof.
  intros Hl Hf Hn. eapply creads_ext; [|intros; apply apply_values]. rewrite <- texts_values.
  apply creads_repeat.
  - intros pre x f post E. apply fmap_app_inv in E as (l1 & l2 & -> & E2 & ->).
    destruct l2 as [|[y v] l2]; [done|]. injection E2 as -> -> Ep. apply creads_last.
    assert (Et : texts post = mjoin l2.*1) by (rewrite Ep; apply texts_values). rewrite Et.
    by apply (creads_consume (T := list A) p (@to_container A (list A) vector_container)), Hl with l1.
  - right. by apply cfails_head, cfails_consume.
  - unfold value_items. rewrite length_fmap. lia.
Qed.

(** ** Fragments *)

Lemma fragment_loop_reads same start : forall fragment x s r,
  Forall2 (fun b c => same b c = true) fragment x -> remaining s = x ++ r ->
  fragment_loop same start fragment s = (Ok true, advance (length x) s).
Proof.
  induction fragment as [|b fragment IH]; intros x s r Hx E; apply Forall2_cons_inv_l in Hx || apply Forall2_nil_inv_l in Hx.
  - subst x. cbn. by rewrite end_consumer_commit, advance_0.
  - destruct Hx as (c & y & Hc & Hy & ->). cbn [fragment_loop].
    rewrite (getch_cons s c (y ++ r)) by done. cbn [m_eof m_ch]. rewrite Hc. cbn [negb].
    rewrite (IH y (advance 1 s) r Hy) by (by apply (remaining_advance s [c])). by rewrite advance_add.
Qed.

Lemma reads_exact f : reads (exact_p f) anything f true.
Proof.
  intros s r Hs E _. unfold exact_p, try_parse_exact_fragment. apply (fragment_loop_reads _ _ f f s r); [|done].
  apply Forall2_same_length_lookup. split; [done|]. intros i b c -> [= ->]. apply Z.eqb_refl.
Qed.

Lemma creads_exact {T} f : creads (T := T) (exact f) anything f (fun t => t).
Proof. eapply creads_ext; [by eapply creads_consume, reads_exact | done]. Qed.

Lemma reads_caseless_exact f x : to_lower x = to_lower f -> reads (caseless_exact_p f) anything x true.
Proof.
  intros Hx s r Hs E _. unfold caseless_exact_p, try_parse_caseless_exact_fragment.
  rewrite <- Hx. apply (fragment_loop_reads _ _ (to_lower x) x s r); [|done]. unfold to_lower.
  apply Forall2_fmap_l, Forall2_same_length_lookup. split; [done|].
  intros i b c -> [= ->]. apply Z.eqb_refl.
Qed.
