(* ===== verification/HttpFields.v ===== *)
(** * Parsers of HTTP fields: the basic ones

    [restinio/helpers/http_field_parsers/basics.hpp]: tokens, quoted strings,
    comments, weights, comma-separated lists and parameters, from which the
    parsers of [FieldParsers] are made. *)

From S2P Require Import Prelude IntAcc Headers.
From S2P Require Import EasyParser EasyRules.

(** ** Weights *)

(** [qvalue_details::maximum] *)
Definition qvalue_maximum : Z := 1000.

(*@ helpers/http_field_parsers/basics.hpp 135-216 qvalue_t *)
Record qvalue_t : Type := mk_qvalue { as_uint : Z }.

#[global] Instance default_qvalue : Default qvalue_t := mk_qvalue 0.
#[global] Instance qvalue_eq_dec : EqDecision qvalue_t.
Proof. solve_decision. Defined.

(** [None] is the exception. *)
(*@ helpers/http_field_parsers/basics.hpp 63-77 qvalue_details::untrusted *)
Definition untrusted (value : Z) : option Z := if qvalue_maximum <? value then None else Some value.

(** The characters before the terminating zero. *)
(*@ helpers/http_field_parsers/basics.hpp 160-182 qvalue_t::make_char_array *)
Definition make_char_array (q : qvalue_t) : bytes :=
  if qvalue_maximum =? as_uint q then str "1.000"
  else
    let d2 := as_uint q mod 100 in
    let d3 := d2 mod 10 in
    [chr "0"; chr "."; wrap 8 (chr "0" + wrap 8 (as_uint q / 100)); wrap 8 (chr "0" + wrap 8 (d2 / 10));
     wrap 8 (chr "0" + wrap 8 d3)].

(** ** Classes of characters *)

(*@ helpers/http_field_parsers/basics.hpp 261-267 is_alpha *)
Definition is_alpha (ch : Z) : bool := ((65 <=? ch) && (ch <=? 90)) || ((97 <=? ch) && (ch <=? 122)).
(*@ helpers/http_field_parsers/basics.hpp 297-305 is_alphanum_predicate_t *)
Definition is_alphanum (ch : Z) : bool := is_alpha ch || is_digit ch.
(*@ helpers/http_field_parsers/basics.hpp 317-322 is_vchar *)
Definition is_vchar (ch : Z) : bool := (33 <=? ch) && (ch <=? 126).
(*@ helpers/http_field_parsers/basics.hpp 353-364 is_obs_text *)
Definition is_obs_text (ch : Z) : bool := (128 <=? ch) && (ch <=? 255).
(*@ helpers/http_field_parsers/basics.hpp 376-386 is_qdtext *)
Definition is_qdtext (ch : Z) : bool :=
  (ch =? SP) || (ch =? HTAB) || (ch =? chr "!") || ((35 <=? ch) && (ch <=? 91)) ||
  ((93 <=? ch) && (ch <=? 126)) || is_obs_text ch.
(*@ helpers/http_field_parsers/basics.hpp 398-408 is_ctext *)
Definition is_ctext (ch : Z) : bool :=
  (ch =? SP) || (ch =? HTAB) || ((33 <=? ch) && (ch <=? 39)) || ((42 <=? ch) && (ch <=? 91)) ||
  ((93 <=? ch) && (ch <=? 126)) || is_obs_text ch.
(*@ helpers/http_field_parsers/basics.hpp 436-466 is_token_char_predicate_t *)
Definition is_token_char (ch : Z) : bool :=
  is_alpha ch || is_digit ch || existsb (Z.eqb ch) (str "!#$%&'*+-.^_`|~").

(** What a backslash may precede. *)
Definition is_quotable (ch : Z) : bool := (SP =? ch) || (HTAB =? ch) || is_vchar ch || is_obs_text ch.

(*@ helpers/http_field_parsers/basics.hpp 786-792 alpha_symbol_p *)
Definition alpha_symbol_p : producer Z := symbol_producer is_alpha.
(*@ helpers/http_field_parsers/basics.hpp 808-814 alphanum_symbol_p *)
Definition alphanum_symbol_p : producer Z := symbol_producer is_alphanum.
(*@ helpers/http_field_parsers/basics.hpp 830-836 vchar_symbol_p *)
Definition vchar_symbol_p : producer Z := symbol_producer is_vchar.
(*@ helpers/http_field_parsers/basics.hpp 852-858 ctext_symbol_p *)
Definition ctext_symbol_p : producer Z := symbol_producer is_ctext.
(*@ helpers/http_field_parsers/basics.hpp 955-961 token_symbol_p *)
Definition token_symbol_p : producer Z := symbol_producer is_token_char.

(** ** Spaces and tokens *)

(** In these loops [fuel] exceeds the number of characters left. *)
Definition fuel_of (from : source_t) : nat := S (length (m_data from)).

Fixpoint ows_loop (fuel : nat) (from : source_t) (extracted_spaces : nat) : nat * source_t :=
  match fuel with
  | O => (extracted_spaces, from)
  | S fuel' =>
      let '(ch, from) := getch from in
      if negb (m_eof ch) && is_space (m_ch ch) then ows_loop fuel' from (S extracted_spaces)
      else (extracted_spaces, if negb (m_eof ch) then putback from else from)
  end.

(*@ helpers/http_field_parsers/basics.hpp 481-507 ows_producer_t *)
Definition ows_p : producer (option Z) :=
  fun from =>
    let '(extracted_spaces, from) := ows_loop (fuel_of from) from 0 in
    (Ok (if (0 <? extracted_spaces)%nat then Some SP else None), from).

(*@ helpers/http_field_parsers/basics.hpp 937-939 ows *)
Definition ows {T} : clause T := consume_value_clause ows_p skip.

(** [reason], [from] and [accumulator] after the loop. *)
Fixpoint token_loop (fuel : nat) (from : source_t) (accumulator : bytes) : error_reason_t * source_t * bytes :=
  match fuel with
  | O => (pattern_not_found, from, accumulator)
  | S fuel' =>
      let '(ch, from) := getch from in
      if m_eof ch then (unexpected_eof, from, accumulator)
      else if negb (is_token_char (m_ch ch)) then (unexpected_character, putback from, accumulator)
      else token_loop fuel' from (accumulator ++ [m_ch ch])
  end.

(*@ helpers/http_field_parsers/basics.hpp 522-577 token_producer_t *)
Definition token_p : producer bytes :=
  fun from =>
    let '(reason, from, accumulator) := token_loop (fuel_of from) from [] in
    match accumulator with
    | [] => (Err (mk_error (current_position from) reason), from)
    | _ => (Ok accumulator, from)
    end.

(** ** Quoted strings *)

Fixpoint quoted_loop (fuel : nat) (from : source_t) (accumulator : bytes)
    : result parse_error_t bytes * source_t :=
  match fuel with
  | O => (Err (mk_error (current_position from) pattern_not_found), from)
  | S fuel' =>
      let '(ch, from) := getch from in
      if m_eof ch then (Err (mk_error (current_position from) unexpected_eof), from)
      else if 34 =? m_ch ch then (Ok accumulator, from)
      else if chr "\" =? m_ch ch then
        let '(next, from) := getch from in
        if m_eof next then (Err (mk_error (current_position from) unexpected_eof), from)
        else if is_quotable (m_ch next) then quoted_loop fuel' from (accumulator ++ [m_ch next])
        else let from := putback from in (Err (mk_error (current_position from) unexpected_character), from)
      else if is_qdtext (m_ch ch) then quoted_loop fuel' from (accumulator ++ [m_ch ch])
      else let from := putback from in (Err (mk_error (current_position from) unexpected_character), from)
  end.

(*@ helpers/http_field_parsers/basics.hpp 592-686 quoted_string_producer_t *)
Definition quoted_string_p : producer bytes :=
  fun from =>
    let started_at := current_position from in
    let '(ch, from) := getch from in
    if negb (m_eof ch) then
      if 34 =? m_ch ch then
        let '(r, from) := quoted_loop (fuel_of from) from [] in
        (r, end_consumer started_at (is_ok r) from)
      else (Err (mk_error started_at unexpected_character), end_consumer started_at false from)
    else (Err (mk_error started_at unexpected_eof), end_consumer started_at false from).

(*@ helpers/http_field_parsers/basics.hpp 701-740 quoted_pair_producer_t *)
Definition quoted_pair_p : producer Z :=
  fun from =>
    let started_at := current_position from in
    let failed reason from :=
      (Err (mk_error (current_position from) reason), end_consumer started_at false from) in
    let '(ch, from) := getch from in
    if m_eof ch then failed unexpected_eof from
    else if chr "\" =? m_ch ch then
      let '(next, from) := getch from in
      if m_eof next then failed unexpected_eof from
      else if is_quotable (m_ch next) then (Ok (m_ch next), end_consumer started_at true from)
      else failed unexpected_character from
    else failed unexpected_character from.

(** ** Comments *)

(** The body of the producer, with the producer of the comments inside. *)
(*@ helpers/http_field_parsers/basics.hpp 1125-1143 comment_producer_t::try_parse *)
Definition comment_body (comment_p : producer bytes) : producer bytes :=
  produce bytes
    [sequence
      [symbol (chr "(");
       repeat 0 N_
         [alternatives
           [consume_value_clause ctext_symbol_p to_container;
            consume_value_clause quoted_pair_p to_container;
            consume_value_clause comment_p (custom_consumer (fun dest what => dest ++ what))]];
       symbol (chr ")")]].

(** Comments nested at most [depth] deep. *)
Fixpoint comment_at (depth : nat) : producer bytes :=
  match depth with
  | O => fun from => (Err (mk_error (current_position from) pattern_not_found), from)
  | S depth' => comment_body (comment_at depth')
  end.

(** Each level of nesting takes a character. *)
(*@ helpers/http_field_parsers/basics.hpp 762-768 comment_producer_t *)
Definition comment_p : producer bytes := fun from => comment_at (fuel_of from) from.

(*@ helpers/http_field_parsers/basics.hpp 1071-1078 expected_token_p *)
Definition expected_token_p (token : bytes) : producer bool :=
  produce bool
    [consume_value_clause (exact_p token) as_result;
     not_clause [consume_value_clause token_symbol_p skip]].

(*@ helpers/http_field_parsers/basics.hpp 1110-1117 expected_caseless_token_p *)
Definition expected_caseless_token_p (token : bytes) : producer bool :=
  produce bool
    [consume_value_clause (caseless_exact_p token) as_result;
     not_clause [consume_value_clause token_symbol_p skip]].

(** ** Reading a weight *)

(** [dest.m_value], a sixteen-bit number. *)
(*@ helpers/http_field_parsers/basics.hpp 1171-1188 qvalue_producer_t::digit_consumer_t *)
Definition digit_consumer (m_multiplier : Z) : consumer Z Z :=
  fun dest digit => wrap 16 (dest + wrap 16 (m_multiplier * wrap 16 (digit - chr "0"))).

(*@ helpers/http_field_parsers/basics.hpp 1191-1226 qvalue_producer_t::try_parse *)
Definition qvalue_p : producer qvalue_t :=
  transformed_value_producer
    (produce Z
      [alternatives
        [sequence
          [symbol (chr "0");
           maybe
             [symbol (chr ".");
              maybe
                [consume_value_clause digit_p (digit_consumer 100);
                 maybe
                   [consume_value_clause digit_p (digit_consumer 10);
                    maybe [consume_value_clause digit_p (digit_consumer 1)]]]]];
         sequence
          [consume_value_clause (symbol_p (chr "1")) (digit_consumer 1000);
           maybe
             [symbol (chr ".");
              maybe [symbol (chr "0"); maybe [symbol (chr "0"); maybe [symbol (chr "0")]]]]]]])
    mk_qvalue.

(*@ helpers/http_field_parsers/basics.hpp 1275-1287 weight_p *)
Definition weight_p : producer qvalue_t :=
  produce qvalue_t
    [ows; symbol (chr ";"); ows; caseless_symbol (chr "q"); symbol (chr "=");
     consume_value_clause qvalue_p as_result].

(** ** Comma-separated lists *)

Section Lists.
Context {C A : Type} `{Default C} `{Container C A} (m_element : producer A).

(** What an element is followed by. *)
Definition list_tail : clause C :=
  repeat 0 N_ [ows; symbol (chr ","); maybe [ows; consume_value_clause m_element to_container]].

(*@ helpers/http_field_parsers/basics.hpp 1313-1354 non_empty_comma_separated_list_producer_t *)
Definition non_empty_comma_separated_list_p : producer C :=
  fun from =>
    match sequence
            [repeat 0 N_ [symbol (chr ","); ows];
             consume_value_clause m_element to_container;
             list_tail] from default_value with
    | (None, from, tmp_value) => (Ok tmp_value, from)
    | (Some e, from, _) => (Err e, from)
    end.

(*@ helpers/http_field_parsers/basics.hpp 1377-1417 maybe_empty_comma_separated_list_producer_t *)
Definition maybe_empty_comma_separated_list_p : producer C :=
  fun from =>
    match maybe
            [alternatives [symbol (chr ","); consume_value_clause m_element to_container];
             list_tail] from default_value with
    | (None, from, tmp_value) => (Ok tmp_value, from)
    | (Some e, from, _) => (Err e, from)
    end.
End Lists.

(** ** Parameters *)

(*@ helpers/http_field_parsers/basics.hpp 1521-1521 parameter_with_mandatory_value_t *)
Definition parameter_with_mandatory_value_t : Type := bytes * bytes.
(*@ helpers/http_field_parsers/basics.hpp 1695-1696 parameter_with_optional_value_t *)
Definition parameter_with_optional_value_t : Type := bytes * option bytes.

#[global] Instance default_mandatory : Default parameter_with_mandatory_value_t := ([], []).
#[global] Instance default_optional : Default parameter_with_optional_value_t := ([], None).

(** [T::first], [T::second] *)
Definition set_first {A B} : consumer (A * B) A := field_setter (fun p a => (a, p.2)).
Definition set_second {A B} : consumer (A * B) B := field_setter (fun p b => (p.1, b)).
Definition set_second_opt {A B} : consumer (A * option B) B := field_setter (fun p b => (p.1, Some b)).

(** A token or a quoted string, whatever is done with it. *)
Definition value_clause {T} (k : consumer T bytes) : clause T :=
  alternatives [consume_value_clause token_p k; consume_value_clause quoted_string_p k].

Definition parameter_p : producer parameter_with_mandatory_value_t :=
  produce parameter_with_mandatory_value_t
    [ows; symbol (chr ";"); ows; consume_value_clause (lowered token_p) set_first; symbol (chr "=");
     value_clause set_second].

(*@ helpers/http_field_parsers/basics.hpp 1597-1619 params_with_value_producer_details::make_parser *)
Definition params_with_value_p : producer (list parameter_with_mandatory_value_t) :=
  produce (list parameter_with_mandatory_value_t)
    [repeat 0 N_ [consume_value_clause parameter_p to_container]].

Definition opt_parameter_p : producer parameter_with_optional_value_t :=
  produce parameter_with_optional_value_t
    [ows; symbol (chr ";"); ows; consume_value_clause (lowered token_p) set_first;
     maybe [symbol (chr "="); value_clause set_second_opt]].

(*@ helpers/http_field_parsers/basics.hpp 1773-1797 params_with_opt_value_producer_details::make_parser *)
Definition params_with_opt_value_p : producer (list parameter_with_optional_value_t) :=
  produce (list parameter_with_optional_value_t)
    [repeat 0 N_ [consume_value_clause opt_parameter_p to_container]].

(** *** Finding a parameter *)

(** Where the characters of a [string_view_t] are: in the element of the
    container with this index, or in a local variable of the function. *)
Inductive storage : Type := in_container (index : nat) | in_local_copy.
Record string_view_t : Type := mk_view { view_of : storage; view_text : bytes }.

(*@ helpers/http_field_parsers/basics.hpp 1542-1542 not_found_t *)
Inductive not_found_t : Type := not_found.

(*@ helpers/http_field_parsers/basics.hpp 1566-1580 find_first *)
Definition find_first (where_ : list parameter_with_mandatory_value_t) (what : bytes)
    : result not_found_t string_view_t :=
  match list_find (fun pair => is_equal_caseless pair.1 what = true) where_ with
  | Some (i, it) => Ok (mk_view (in_container i) it.2)
  | None => Err not_found
  end.

(** [opt] is a copy of the value. *)
(*@ helpers/http_field_parsers/basics.hpp 1736-1756 find_first *)
Definition find_first_opt (where_ : list parameter_with_optional_value_t) (what : bytes)
    : result not_found_t (option string_view_t) :=
  match list_find (fun pair => is_equal_caseless pair.1 what = true) where_ with
  | Some (_, it) =>
      match it.2 with
      | Some opt => Ok (Some (mk_view in_local_copy opt))
      | None => Ok None
      end
  | None => Err not_found
  end.

Example media_params : try_parse (str ";charset=utf-8 ; Q=1") params_with_value_p
  = Ok [(str "charset", str "utf-8"); (str "q", str "1")].
Proof. vm_compute. reflexivity. Qed.
Example nested_comment : try_parse (str "(a(b)c)") comment_p = Ok (str "abc").
Proof. vm_compute. reflexivity. Qed.
Example list_of_tokens : try_parse (str ", a ,, b") (non_empty_comma_separated_list_p (C := list bytes) token_p)
  = Ok [str "a"; str "b"].
Proof. vm_compute. reflexivity. Qed.
Example weight : try_parse (str "; q=0.25") weight_p = Ok (mk_qvalue 250).
Proof. vm_compute. reflexivity. Qed.

(** ** Staying inside the input *)

Lemma ows_loop_inside fuel : forall s n, valid s -> inside s (ows_loop fuel s n).2.
Proof.
  induction fuel as [|fuel IH]; intros s n Hs; cbn [ows_loop]; [by apply inside_refl|].
  destruct (remaining s) as [|c r] eqn:E.
  - rewrite (getch_nil s) by done. by apply inside_refl.
  - rewrite (getch_cons s c r) by done. cbn. apply inside_advance_1 in E.
    destruct (is_space c); cbn.
    + eapply inside_trans; [exact E|]. apply IH. by eapply inside_valid.
    + rewrite putback_advance. by apply inside_refl.
Qed.
#[global] Instance ows_p_inside : Inside ows_p.
Proof.
  intros s Hs. unfold ows_p. pose proof (ows_loop_inside (fuel_of s) s 0 Hs) as H.
  by destruct (ows_loop _ s 0).
Qed.
#[global] Instance ows_inside {T} : CInside (ows (T := T)).
Proof. apply consume_inside. apply _. Qed.

Lemma token_loop_inside fuel : forall s acc, valid s -> inside s (token_loop fuel s acc).1.2.
Proof.
  induction fuel as [|fuel IH]; intros s acc Hs; cbn [token_loop]; [by apply inside_refl|].
  destruct (remaining s) as [|c r] eqn:E.
  - rewrite (getch_nil s) by done. by apply inside_refl.
  - rewrite (getch_cons s c r) by done. cbn. apply inside_advance_1 in E.
    destruct (is_token_char c); cbn.
    + eapply inside_trans; [exact E|]. apply IH. by eapply inside_valid.
    + rewrite putback_advance. by apply inside_refl.
Qed.
#[global] Instance token_p_inside : Inside token_p.
Proof.
  intros s Hs. unfold token_p. pose proof (token_loop_inside (fuel_of s) s [] Hs) as H.
  by destruct (token_loop _ s []) as [[? ?] []].
Qed.

Lemma quoted_loop_inside fuel : forall s acc, valid s -> inside s (quoted_loop fuel s acc).2.
Proof.
  induction fuel as [|fuel IH]; intros s acc Hs; cbn [quoted_loop]; [by apply inside_refl|].
  destruct (remaining s) as [|c r] eqn:E.
  - rewrite (getch_nil s) by done. by apply inside_refl.
  - rewrite (getch_cons s c r) by done. cbn [m_eof m_ch]. pose proof (inside_advance_1 s c r E) as H1.
    destruct (34 =? c); [done|]. destruct (chr "\" =? c).
    + destruct (remaining (advance 1 s)) as [|d r'] eqn:E'.
      * by rewrite (getch_nil (advance 1 s)).
      * rewrite (getch_cons (advance 1 s) d r') by done. cbn [m_eof m_ch].
        pose proof (inside_trans _ _ _ H1 (inside_advance_1 _ d r' E')) as H2.
        destruct (is_quotable d); [|by rewrite putback_advance].
        eapply inside_trans; [exact H2|]. apply IH. by eapply inside_valid.
    + destruct (is_qdtext c); [|rewrite putback_advance; by apply inside_refl].
      eapply inside_trans; [exact H1|]. apply IH. by eapply inside_valid.
Qed.

(** The position is given back. *)
Ltac to_start := rewrite end_consumer_back by (done || by apply inside_data); by apply inside_refl.

#[global] Instance quoted_string_p_inside : Inside quoted_string_p.
Proof.
  intros s Hs. unfold quoted_string_p. destruct (remaining s) as [|c r] eqn:E.
  - rewrite (getch_nil s) by done. cbn. to_start.
  - rewrite (getch_cons s c r) by done. cbn [m_eof m_ch negb]. pose proof (inside_advance_1 s c r E) as H1.
    destruct (34 =? c); [|cbn; to_start].
    pose proof (quoted_loop_inside (fuel_of (advance 1 s)) (advance 1 s) [] (inside_valid _ _ H1)) as H2.
    apply (inside_trans _ _ _ H1) in H2.
    by destruct (quoted_loop _ _ _) as [[v|e] s2]; cbn in *; [rewrite end_consumer_commit | to_start].
Qed.
#[global] Instance quoted_pair_p_inside : Inside quoted_pair_p.
Proof.
  intros s Hs. unfold quoted_pair_p. destruct (remaining s) as [|c r] eqn:E.
  - rewrite (getch_nil s) by done. cbn. to_start.
  - rewrite (getch_cons s c r) by done. cbn [m_eof m_ch]. pose proof (inside_advance_1 s c r E) as H1.
    destruct (chr "\" =? c); [|cbn; to_start].
    destruct (remaining (advance 1 s)) as [|d r'] eqn:E'.
    + rewrite (getch_nil (advance 1 s)) by done. cbn. to_start.
    + rewrite (getch_cons (advance 1 s) d r') by done. cbn [m_eof m_ch].
      pose proof (inside_trans _ _ _ H1 (inside_advance_1 _ d r' E')) as H2.
      destruct (is_quotable d); cbn; [by rewrite end_consumer_commit | to_start].
Qed.
#[global] Instance ctext_symbol_inside : Inside ctext_symbol_p.
Proof. apply symbol_inside. Qed.
#[global] Instance comment_body_inside p : Inside p -> Inside (comment_body p).
Proof. intros. unfold comment_body. apply _. Qed.
#[global] Instance comment_at_inside depth : Inside (comment_at depth).
Proof. induction depth; [intros s Hs; by apply inside_refl | by apply comment_body_inside]. Qed.
#[global] Instance comment_p_inside : Inside comment_p.
Proof. intros s Hs. by apply comment_at_inside. Qed.

(** ** The depth given to comments is enough

    Clauses and producers that agree on the inputs they are given behind a
    position do so when the clauses are put together. *)

Definition pagrees {A} (s : source_t) (p q : producer A) : Prop := forall s', inside s s' -> p s' = q s'.
Definition cagrees {T} (s : source_t) (c d : clause T) : Prop := forall s' t, inside s s' -> c s' t = d s' t.

Lemma consume_agrees {A T} s (p q : producer A) (k : consumer T A) :
  pagrees s p q -> cagrees s (consume_value_clause p k) (consume_value_clause q k).
Proof. intros H s' t Hs. unfold consume_value_clause. by rewrite H. Qed.

Lemma all_of_agrees {T} s (cs ds : list (clause T)) :
  Forall2 (cagrees s) cs ds -> AllInside cs -> cagrees s (all_of cs) (all_of ds).
Proof.
  induction 1 as [|c d cs ds Hc _ IH]; intros Hin s' t Hs; cbn [all_of]; [done|].
  apply Forall_cons in Hin as [Hci Hin]. rewrite <- (Hc s' t Hs).
  pose proof (Hci s' t (inside_valid _ _ Hs)) as H1. destruct (c s' t) as [[[e|] s1] t1]; [done|].
  apply IH; [done|]. by eapply inside_trans.
Qed.

Lemma any_of_agrees {T} s (cs ds : list (clause T)) :
  Forall2 (cagrees s) cs ds -> AllInside cs -> forall last s' t, inside s s' ->
  any_of cs last s' t = any_of ds last s' t.
Proof.
  induction 1 as [|c d cs ds Hc _ IH]; intros Hin last s' t Hs; cbn [any_of]; [done|].
  apply Forall_cons in Hin as [Hci Hin]. rewrite <- (Hc s' t Hs).
  pose proof (Hci s' t (inside_valid _ _ Hs)) as H1. destruct (c s' t) as [[[e|] s1] t1]; [|done].
  rewrite end_consumer_back by (by eapply inside_valid || by apply inside_data).
  case_bool_decide; [done|]. by apply IH.
Qed.

Lemma alternatives_agrees {T} s (cs ds : list (clause T)) :
  Forall2 (cagrees s) cs ds -> AllInside cs -> cagrees s (alternatives cs) (alternatives ds).
Proof. intros H Hin s' t Hs. unfold alternatives. by rewrite (any_of_agrees s cs ds). Qed.

Lemma turns_agrees {T} s (cs ds : list (clause T)) :
  cagrees s (all_of cs) (all_of ds) -> AllInside cs -> forall n st, inside s st.1.2 ->
  turns (repeat_item cs) n st = turns (repeat_item ds) n st.
Proof.
  intros H Hin n. induction n as [|n IH]; intros [[k s'] t] Hs; cbn [turns]; [done|].
  assert (E : repeat_item ds (k, s', t) = repeat_item cs (k, s', t)).
  { unfold repeat_item. by rewrite <- H. }
  rewrite E. unfold repeat_item at 1 3.
  pose proof (all_of_inside cs Hin s' t (inside_valid _ _ Hs)) as H1.
  destruct (all_of cs s' t) as [[[e|] s1] t1]; [done|]. apply IH. cbn. by eapply inside_trans.
Qed.

Lemma repeat_agrees {T} s min max (cs ds : list (clause T)) :
  cagrees s (all_of cs) (all_of ds) -> AllInside cs -> cagrees s (repeat min max cs) (repeat min max ds).
Proof.
  intros H Hin s' t Hs. unfold repeat. destruct max as [|n]; [done|].
  by rewrite !loop_turns, (turns_agrees s cs ds).
Qed.

Lemma symbol_read {T} c s (t : T) e s' t' :
  valid s -> symbol c s t = (e, s', t') ->
  (e = None /\ s' = advance 1 s /\ (m_index s < length (m_data s))%nat) \/ e <> None.
Proof.
  intros Hs. unfold symbol, consume_value_clause, symbol_p, symbol_producer.
  destruct (remaining s) as [|a r] eqn:E.
  - rewrite (getch_nil s) by done. intros [= <- _ _]. by right.
  - rewrite (getch_cons s a r) by done. cbn. destruct (c =? a); intros [= <- <- _]; [left | by right].
    split; [done|]. split; [done|]. by eapply remaining_valid.
Qed.

Lemma comment_body_agrees s p q :
  valid s -> Inside p -> ((m_index s < length (m_data s))%nat -> pagrees (advance 1 s) p q) ->
  comment_body p s = comment_body q s.
Proof.
  intros Hs Hp Hpq. unfold comment_body, produce, sequence. cbn [all_of].
  destruct (symbol (chr "(") s default_value) as [[e s1] t1] eqn:Es.
  apply symbol_read in Es as [(-> & -> & Hi)|He]; [|by destruct e|done]. specialize (Hpq Hi).
  assert (H1 : inside s (advance 1 s)).
  { unfold inside, advance. cbn. split; [done | unfold valid in Hs; lia]. }
  erewrite (repeat_agrees (advance 1 s) 0 N_); [reflexivity| |apply _|apply inside_refl; by eapply inside_valid].
  apply all_of_agrees; [|apply _]. constructor; [|constructor].
  apply alternatives_agrees; [|apply _]. repeat constructor; try done. by apply consume_agrees.
Qed.

Lemma comment_at_enough depth : forall more s, valid s -> (length (remaining s) < depth)%nat ->
  comment_at (depth + more) s = comment_at depth s.
Proof.
  induction depth as [|depth IH]; intros more s Hs Hl; [lia|].
  apply comment_body_agrees; [done | apply _ |]. intros Hi s' Hs'. apply IH; [by eapply inside_valid|].
  rewrite remaining_length in *. destruct Hs' as [Hd Hi']. cbn in *. rewrite Hd. lia.
Qed.

(** The depth given to nested comments is always enough:
    from every position of every input the producer of comments does what its
    recursive definition in the code says, with itself as the producer of the
    comments inside. *)
Theorem comment_unfolds s (Hs : valid s) : comment_p s = comment_body comment_p s.
Proof.
  unfold comment_p at 1. unfold fuel_of.
  rewrite <- (comment_at_enough _ 1) by (done || rewrite remaining_length; lia). rewrite Nat.add_1_r.
  apply comment_body_agrees; [done | apply _ |].
  intros _ s' [Hd _]. unfold comment_p, fuel_of. cbn in Hd. by rewrite Hd.
Qed.

Lemma comment_unfolds_witness :
  comment_p (source (str "((x))")) = comment_body comment_p (source (str "((x))")) /\
  comment_p (source (str "((x))")) = (Ok (str "x"), mk_source (str "((x))") 5).
Proof.
  split; [|vm_compute; reflexivity]. apply (comment_unfolds (source (str "((x))"))). apply valid_source.
Defined.
