(* ===== verification/HttpGrammar.v ===== *)
(** * The grammar of the basic fields

    What the parsers of [HttpFields] accept, stated as grammars: a relation
    between a text and the value it stands for, for each of the rules that the
    comments of [basics.hpp] quote, and theorems that the parser reads every
    text of the grammar as that value. *)

From S2P Require Import Prelude IntAcc Headers.
From S2P Require Import EasyParser EasyRules HttpFields.

Abbreviation all_in pred := (Forall (fun c => pred c = true)).
Abbreviation spaces := (all_in is_space).

(** ** Spaces and tokens *)

Lemma ows_loop_reads x : spaces x -> forall fuel s r n,
  remaining s = x ++ r -> stops is_space r -> (length x < fuel)%nat ->
  ows_loop fuel s n = ((n + length x)%nat, advance (length x) s).
Proof.
  induction 1 as [|c x Hc Hx IH]; intros fuel s r n Hs Hr Hf; (destruct fuel as [|fuel]; [cbn in Hf; lia|]);
    cbn [ows_loop length].
  - rewrite Nat.add_0_r, advance_0. destruct r as [|c r]; [by rewrite (getch_nil s)|].
    rewrite (getch_cons s c r) by done. cbn in *. rewrite Hr. cbn. by rewrite putback_advance.
  - rewrite (getch_cons s c (x ++ r)) by done. cbn [m_eof m_ch negb andb]. rewrite Hc.
    rewrite (IH fuel _ r); [|by apply (remaining_advance s [c]) | done | cbn in Hf; lia].
    rewrite advance_add. f_equal. lia.
Qed.

Lemma fuel_enough s x r : remaining s = x ++ r -> (length x < fuel_of s)%nat.
Proof.
  intros E. apply (f_equal length) in E. rewrite remaining_length, length_app in E. unfold fuel_of. lia.
Qed.

Lemma reads_ows x : spaces x -> reads ows_p (stops is_space) x (if (0 <? length x)%nat then Some SP else None).
Proof.
  intros Hx s r Hs E Hr. unfold ows_p. by rewrite (ows_loop_reads x Hx _ s r) by (done || by eapply fuel_enough).
Qed.

Lemma creads_ows {T} x : spaces x -> creads (T := T) ows (stops is_space) x (fun t => t).
Proof. intros Hx. eapply creads_ext; [by eapply creads_consume, reads_ows | done]. Qed.

Lemma token_loop_reads x : all_in is_token_char x -> forall fuel s r acc,
  remaining s = x ++ r -> stops is_token_char r -> (length x < fuel)%nat ->
  exists reason, token_loop fuel s acc = (reason, advance (length x) s, acc ++ x).
Proof.
  induction 1 as [|c x Hc Hx IH]; intros fuel s r acc Hs Hr Hf; (destruct fuel as [|fuel]; [cbn in Hf; lia|]);
    cbn [token_loop length].
  - rewrite advance_0, app_nil_r. destruct r as [|c r]; [rewrite (getch_nil s) by done; by eexists|].
    rewrite (getch_cons s c r) by done. cbn in *. rewrite Hr. cbn. rewrite putback_advance. by eexists.
  - rewrite (getch_cons s c (x ++ r)) by done. cbn [m_eof m_ch]. rewrite Hc. cbn [negb].
    destruct (IH fuel (advance 1 s) r (acc ++ [c])) as [reason ->];
      [by apply (remaining_advance s [c]) | done | cbn in Hf; lia|].
    exists reason. by rewrite advance_add, <- app_assoc.
Qed.

(** token = 1*tchar *)
Definition token (x : bytes) : Prop := x <> [] /\ all_in is_token_char x.

Lemma reads_token x : token x -> reads token_p (stops is_token_char) x x.
Proof.
  intros [Hn Hx] s r Hs E Hr. unfold token_p.
  destruct (token_loop_reads x Hx (fuel_of s) s r []) as [reason ->]; [done|done|by eapply fuel_enough|].
  cbn. by destruct x.
Qed.

Lemma fails_token : fails token_p (stops is_token_char).
Proof.
  intros s Hs Hr. unfold token_p.
  destruct (token_loop_reads [] ltac:(constructor) (fuel_of s) s (remaining s) []) as [reason E];
    [done | done | unfold fuel_of; cbn; lia |].
  cbn [length app] in E. rewrite advance_0 in E.
  destruct (token_loop (fuel_of s) s []) as [[reason' s'] acc] eqn:Et. injection E as -> -> ->.
  do 2 eexists. split; [done|]. split; [done|]. cbn. unfold fuel_of in Et. cbn [token_loop] in Et.
  destruct (remaining s) as [|c r] eqn:Ec.
  - rewrite (getch_nil s) in Et by done. by injection Et as <-.
  - rewrite (getch_cons s c r) in Et by done. cbn in *. rewrite Hr in Et. by injection Et as <-.
Qed.

Lemma token_not_space c : is_token_char c = true -> is_space c = false.
Proof.
  unfold is_space. intros H. apply orb_false_iff. rewrite !Z.eqb_neq.
  split; intros ->; vm_compute in H; done.
Qed.

(** ** Quoted strings *)

(** *( qdtext / quoted-pair ), and the characters it stands for. *)
Inductive quoted_text : bytes -> bytes -> Prop :=
| qt_nil : quoted_text [] []
| qt_char c x v : is_qdtext c = true -> quoted_text x v -> quoted_text (c :: x) (c :: v)
| qt_pair c x v : is_quotable c = true -> quoted_text x v -> quoted_text (chr "\" :: c :: x) (c :: v).

Lemma qdtext_plain c : is_qdtext c = true -> (34 =? c) = false /\ (chr "\" =? c) = false.
Proof.
  intros H. rewrite !Z.eqb_neq. split; intros <-; vm_compute in H; done.
Qed.

Lemma quoted_loop_reads x v : quoted_text x v -> forall fuel s r acc,
  remaining s = x ++ 34 :: r -> (length x < fuel)%nat ->
  quoted_loop fuel s acc = (Ok (acc ++ v), advance (length x + 1) s).
Proof.
  induction 1 as [|c x v Hc _ IH|c x v Hc _ IH]; intros fuel s r acc Hs Hf;
    (destruct fuel as [|fuel]; [cbn in Hf; lia|]); cbn [quoted_loop].
  - rewrite (getch_cons s 34 r) by done. cbn. by rewrite app_nil_r.
  - rewrite (getch_cons s c (x ++ 34 :: r)) by done. cbn [m_eof m_ch].
    destruct (qdtext_plain c Hc) as [-> ->]. rewrite Hc.
    rewrite (IH fuel (advance 1 s) r); [|by apply (remaining_advance s [c]) | cbn in Hf; lia].
    by rewrite advance_add, <- app_assoc.
  - rewrite (getch_cons s (chr "\") (c :: x ++ 34 :: r)) by done. cbn [m_eof m_ch].
    change (34 =? chr "\") with false. rewrite Z.eqb_refl.
    rewrite (getch_cons (advance 1 s) c (x ++ 34 :: r)) by (by apply (remaining_advance s [chr "\"])).
    cbn [m_eof m_ch]. rewrite Hc.
    rewrite (IH fuel (advance 1 (advance 1 s)) r);
      [|rewrite advance_add; by apply (remaining_advance s [chr "\"; c]) | cbn in Hf; lia].
    by rewrite !advance_add, <- app_assoc.
Qed.

Lemma quoted_loop_sound fuel : forall s acc v s', valid s ->
  quoted_loop fuel s acc = (Ok v, s') ->
  exists x w r, remaining s = x ++ 34 :: r /\ s' = advance (length x + 1) s /\ v = acc ++ w /\ quoted_text x w.
Proof.
  induction fuel as [|fuel IH]; intros s acc v s' Hs; cbn [quoted_loop]; [done|].
  destruct (remaining s) as [|c r] eqn:E; [by rewrite (getch_nil s)|].
  rewrite (getch_cons s c r) by done. cbn [m_eof m_ch].
  pose proof (inside_valid _ _ (inside_advance_1 s c r E)) as Hs1.
  pose proof (remaining_advance_1 s c r E) as E1.
  destruct (Z.eqb_spec 34 c) as [<-|].
  { intros [= <- <-]. exists [], [], r. rewrite app_nil_r. by repeat constructor. }
  destruct (Z.eqb_spec (chr "\") c) as [<-|].
  - destruct r as [|d r]; [by rewrite (getch_nil (advance 1 s))|].
    rewrite (getch_cons (advance 1 s) d r) by done. cbn [m_eof m_ch].
    destruct (is_quotable d) eqn:Hd; [|done]. intros H.
    pose proof (inside_valid _ _ (inside_advance_1 _ d r E1)) as Hs2.
    apply IH in H as (x & w & r' & Hx & -> & -> & Hq); [|done].
    rewrite (remaining_advance_1 _ d r E1) in Hx. exists (chr "\" :: d :: x), (d :: w), r'.
    rewrite Hx, <- app_assoc, !advance_add. repeat (split; [done|]). by apply qt_pair.
  - destruct (is_qdtext c) eqn:Hc; [|done]. intros H.
    apply IH in H as (x & w & r' & Hx & -> & -> & Hq); [|done].
    rewrite E1 in Hx. exists (c :: x), (c :: w), r'. rewrite Hx, <- app_assoc, advance_add.
    repeat (split; [done|]). by apply qt_char.
Qed.

Lemma reads_quoted x v : quoted_text x v -> reads quoted_string_p anything (34 :: x ++ [34]) v.
Proof.
  intros H s r Hs E _. unfold quoted_string_p.
  assert (E' : remaining s = 34 :: x ++ 34 :: r) by (rewrite E; cbn; by rewrite <- app_assoc).
  rewrite (getch_cons s 34 _ E'). cbn [m_eof m_ch negb]. rewrite Z.eqb_refl.
  pose proof (remaining_advance_1 s _ _ E') as E1.
  rewrite (quoted_loop_reads x v H _ _ r) by (done || by eapply fuel_enough).
  cbn [is_ok]. rewrite end_consumer_commit, advance_add. cbn [length]. rewrite length_app. done.
Qed.

(** A quoted string is read exactly when the input starts
    with one in the sense of RFC 7230, a quote, qdtext characters and quoted
    pairs, and a quote: the value is then the one the grammar gives, the
    backslashes of the pairs removed, and the position is behind the second quote. *)
Theorem quoted_string_exact s v s' (Hs : valid s) :
  quoted_string_p s = (Ok v, s') <->
  exists x r, remaining s = 34 :: x ++ 34 :: r /\ s' = advance (length x + 2) s /\ quoted_text x v.
Proof.
  split.
  - unfold quoted_string_p. destruct (remaining s) as [|c r] eqn:E; [by rewrite (getch_nil s)|].
    rewrite (getch_cons s c r) by done. cbn [m_eof m_ch negb].
    destruct (Z.eqb_spec 34 c) as [<-|]; [|done].
    destruct (quoted_loop _ _ _) as [[w|e] s1] eqn:Eq; [|done].
    pose proof (inside_valid _ _ (inside_advance_1 s _ r E)) as Hs1.
    apply quoted_loop_sound in Eq as (x & u & r' & Hx & -> & -> & Hq); [|done]. cbn [is_ok].
    rewrite end_consumer_commit. intros [= <- <-].
    rewrite (remaining_advance_1 s _ r E) in Hx. subst r. exists x, r'. split; [done|].
    rewrite advance_add. split; [f_equal; lia | done].
  - intros (x & r & E & -> & Hq). rewrite (reads_quoted x v Hq s r Hs).
    + cbn. rewrite length_app. cbn. do 2 f_equal. lia.
    + rewrite E. cbn. by rewrite <- app_assoc.
    + done.
Qed.

(** An escaped quote in the text of the string. *)
Lemma quoted_string_exact_witness :
  quoted_string_p (source [34; 97; 92; 34; 34; 59]) = (Ok [97; 34], advance 5 (source [34; 97; 92; 34; 34; 59])).
Proof.
  apply (quoted_string_exact (source [34; 97; 92; 34; 34; 59]) [97; 34]
    (advance 5 (source [34; 97; 92; 34; 34; 59])) (valid_source _)).
  exists [97; 92; 34], [59]. split; [reflexivity|]. split; [reflexivity|].
  by repeat constructor.
Defined.

(** ** Parameters *)

(** Closes [forall r, followed (c :: _) _ r -> stops _ r] and the like. *)
Ltac follows := intros ? (? & -> & ?); try done.

(** token / quoted-string *)
Definition value_text (x v : bytes) : Prop :=
  (token x /\ v = x) \/ exists y, x = 34 :: y ++ [34] /\ quoted_text y v.

Lemma creads_value {T} (k : consumer T bytes) x v :
  value_text x v -> creads (value_clause k) (stops is_token_char) x (fun t => k t v).
Proof.
  intros [[Hx ->]|(y & -> & Hq)]; unfold value_clause.
  - by apply creads_first, creads_consume, reads_token.
  - apply creads_next.
    + apply cfails_to_loosely, cfails_consume. eapply fails_weaken; [apply fails_token | by follows].
    + apply creads_first, creads_consume. eapply reads_weaken; [by apply reads_quoted | done].
Qed.

Lemma token_head n F r : token n -> followed n F r -> stops is_space r.
Proof.
  intros [Hn Ht] (z & -> & _). destruct n as [|c n]; [done|]. cbn.
  apply token_not_space. by apply Forall_inv in Ht.
Qed.

(** OWS ";" OWS token "=" ( token / quoted-string ); the name is turned into
    lower case. *)
Definition param_text (x : bytes) (p : bytes * bytes) : Prop :=
  exists w1 w2 n y, x = w1 ++ [59] ++ w2 ++ n ++ [61] ++ y /\ spaces w1 /\ spaces w2 /\ token n /\
    value_text y p.2 /\ p.1 = to_lower n.

Lemma creads_ows_symbol {T} c (cs : list (clause T)) w F y f :
  is_space c = false -> spaces w -> creads (all_of cs) F y f ->
  creads (all_of (ows :: symbol c :: cs)) F (w ++ [c] ++ y) f.
Proof.
  intros Hc Hw Hcs.
  apply (creads_cons ows _ (stops is_space) _ _ _ (fun t => t)); [by apply creads_ows| |by follows].
  by apply (creads_cons _ _ anything _ _ _ (fun t => t)); [apply creads_symbol| |done].
Qed.

Lemma creads_ows_token {T} (cs : list (clause T)) (k : consumer T bytes) w n F y f :
  spaces w -> token n -> (forall r, followed y F r -> stops is_token_char r) -> creads (all_of cs) F y f ->
  creads (all_of (ows :: consume_value_clause (lowered token_p) k :: cs)) F (w ++ n ++ y)
    (fun t => f (k t (to_lower n))).
Proof.
  intros Hw Hn HF Hcs.
  apply (creads_cons ows _ (stops is_space) _ _ _ (fun t => t)); [by apply creads_ows| |].
  - apply (creads_cons _ _ (stops is_token_char) _ _ _ (fun t => k t (to_lower n))); [|done..].
    by apply creads_consume, reads_transformed, reads_token.
  - intros r Hr. apply followed_app in Hr. by eapply token_head.
Qed.

Lemma reads_param x p : param_text x p -> reads parameter_p (stops is_token_char) x p.
Proof.
  destruct p as [pn pv]. intros (w1 & w2 & n & y & -> & Hw1 & Hw2 & Hn & Hy & E). cbn in Hy, E. subst pn.
  apply (reads_produce _ _ _ (fun t => set_second (set_first t (to_lower n)) pv)).
  apply creads_ows_symbol; [done..|].
  apply (creads_ows_token _ set_first _ _ _ _ (fun t => set_second t pv)); [done|done|by follows|].
  apply (creads_cons _ _ anything _ _ _ (fun t => t)); [apply creads_symbol| |done].
  by apply creads_last, (creads_value set_second).
Qed.

(** What follows a list of parameters: not a semicolon, even behind spaces,
    and nothing that would belong to the last value. *)
Definition after_params (r : bytes) : Prop :=
  stops is_token_char r /\ exists w r', r = w ++ r' /\ spaces w /\ stops is_space r' /\ stops (Z.eqb 59) r'.

Lemma after_params_end r : at_end r -> after_params r.
Proof. intros ->. split; [done|]. exists [], []. by repeat constructor. Qed.

Lemma cfails_ows_symbol {T} c (cs : list (clause T)) w r :
  spaces w -> stops is_space r -> stops (Z.eqb c) r -> cfails (all_of (ows :: symbol c :: cs)) (eq (w ++ r)).
Proof.
  intros Hw Hr Hc. eapply cfails_weaken.
  - apply (cfails_tail _ _ (stops is_space) (fun r' => r' = r)); [by apply creads_ows| |by intros ? ->].
    apply cfails_head. eapply cfails_weaken; [apply cfails_symbol | by intros ? ->].
  - intros ? <-. by exists r.
Qed.

Lemma fails_param : fails parameter_p after_params.
Proof.
  intros s Hs (_ & w & r' & E & Hw & Hr & Hc).
  by apply (fails_produce _ _ (cfails_to_loosely _ _ (cfails_ows_symbol 59 _ w r' Hw Hr Hc))).
Qed.

Lemma params_stop l F r : Forall (fun xp => param_text xp.1 xp.2) l ->
  followed (mjoin l.*1) F r -> (forall r, F r -> stops is_token_char r) -> stops is_token_char r.
Proof.
  intros Hl (z & -> & Hz) HF. destruct Hl as [|[x p] l (w1 & w2 & n & y & E & Hw & _) _]; [by apply HF|].
  cbn in *. subst x. destruct Hw as [|c w Hc _]; cbn; [done|].
  unfold is_space in Hc. to_prop. by destruct Hc as [-> | ->].
Qed.

(** *( OWS ";" OWS parameter ) *)
Lemma reads_params l :
  Forall (fun xp => param_text xp.1 xp.2) l -> (N.of_nat (length l) < N_)%N ->
  reads params_with_value_p after_params (mjoin l.*1) l.*2.
Proof.
  intros Hl Hn. unfold params_with_value_p. eapply (reads_make _ _ _ (fun t => t ++ l.*2)); [|done].
  apply creads_last, creads_many; [|apply fails_param|lia].
  intros pre x v post ->. apply Forall_app in Hl as [_ Hl]. apply Forall_cons in Hl as [Hx Hl].
  eapply reads_weaken; [by apply reads_param|]. intros r Hr. eapply params_stop; [done..|]. by intros ? [].
Qed.

(** ** Weights *)

(** qvalue = ( "0" [ "." 0*3DIGIT ] ) / ( "1" [ "." 0*3("0") ] ), and the
    thousandths it stands for. *)
Inductive qvalue_text : bytes -> Z -> Prop :=
| qv_zero : qvalue_text (str "0") 0
| qv_one : qvalue_text (str "1") 1000
| qv_fraction ds : all_in is_digit ds -> (length ds <= 3)%nat ->
    qvalue_text (str "0." ++ ds) (decimal (ds ++ replicate (3 - length ds) 48))
| qv_unit k : (k <= 3)%nat -> qvalue_text (str "1." ++ replicate k 48) 1000.

(** What ends a weight. *)
Definition after_qvalue (r : bytes) : Prop := stops (fun c => is_digit c || (c =? 46)) r.

Lemma after_qvalue_digit r : after_qvalue r -> stops is_digit r.
Proof. destruct r; [done|]. cbn. by intros [? _]%orb_false_iff. Qed.
Lemma after_qvalue_dot r : after_qvalue r -> stops (Z.eqb 46) r.
Proof. destruct r; [done|]. cbn. rewrite Z.eqb_sym. by intros [_ ?]%orb_false_iff. Qed.
Lemma after_qvalue_zero r : after_qvalue r -> stops (Z.eqb 48) r.
Proof.
  destruct r as [|c r]; [done|]. intros [H _]%orb_false_iff. apply Z.eqb_neq. by intros <-.
Qed.

Lemma digit_consumer_exact c m t :
  is_digit c = true -> 0 <= m <= 1000 -> 0 <= t <= 2000 -> digit_consumer m t c = t + m * (c - 48).
Proof.
  unfold is_digit, digit_consumer. change (chr "0") with 48. change (chr "9") with 57. intros H Hm Ht. to_prop.
  rewrite (wrap_small 16 (c - 48)) by lia. rewrite (wrap_small 16 (m * (c - 48))) by nia.
  apply wrap_small. nia.
Qed.

(** The optional digits, each only when the ones before it are there. *)
Fixpoint optional_digits (ms : list Z) : list (clause Z) :=
  match ms with
  | [] => []
  | m :: ms => [maybe (consume_value_clause digit_p (digit_consumer m) :: optional_digits ms)]
  end.
Fixpoint optional_zeros (k : nat) : list (clause Z) :=
  match k with O => [] | S k => [maybe (symbol (chr "0") :: optional_zeros k)] end.

Lemma creads_optional_digits ms : forall ds, all_in is_digit ds -> (length ds <= length ms)%nat ->
  creads (all_of (optional_digits ms)) after_qvalue ds
    (fun t => foldl (fun t md => digit_consumer md.1 t md.2) t (zip ms ds)).
Proof.
  induction ms as [|m ms IH]; intros ds Hds Hl; cbn [optional_digits].
  - destruct ds; [apply creads_nil | cbn in Hl; lia].
  - apply creads_last. destruct Hds as [|d ds Hd Hds].
    + apply creads_maybe_not, cfails_to_loosely, cfails_head, cfails_consume.
      eapply fails_weaken; [apply fails_symbol | apply after_qvalue_digit].
    + apply creads_maybe.
      apply (creads_cons _ _ anything _ [d] _ (fun t => digit_consumer m t d)
        (fun t => foldl (fun t md => digit_consumer md.1 t md.2) t (zip ms ds))).
      * by apply creads_consume, reads_symbol.
      * apply IH; [done | cbn in Hl; lia].
      * done.
Qed.

Lemma creads_optional_zeros n : forall k, (k <= n)%nat ->
  creads (all_of (optional_zeros n)) after_qvalue (replicate k 48) (fun t => t).
Proof.
  induction n as [|n IH]; intros k Hk; cbn [optional_zeros].
  - replace k with O by lia. apply creads_nil.
  - apply creads_last. destruct k as [|k]; cbn [replicate].
    + apply creads_maybe_not, cfails_to_loosely, cfails_head.
      eapply cfails_weaken; [apply cfails_symbol | apply after_qvalue_zero].
    + apply creads_maybe, (creads_cons _ _ anything _ [48] _ (fun t => t) (fun t => t));
        [apply creads_symbol | apply IH; lia | done].
Qed.

(** The part behind the dot, or no dot. *)
Lemma creads_fraction (cs : list (clause Z)) x f :
  creads (all_of cs) after_qvalue x f -> creads (maybe (symbol (chr ".") :: cs)) after_qvalue (46 :: x) f.
Proof.
  intros H. apply creads_maybe, (creads_cons _ _ anything _ [46] _ (fun t => t) f); [apply creads_symbol | done | done].
Qed.
Lemma creads_no_fraction (cs : list (clause Z)) :
  creads (maybe (symbol (chr ".") :: cs)) after_qvalue [] (fun t => t).
Proof.
  apply creads_maybe_not, cfails_to_loosely, cfails_head.
  eapply cfails_weaken; [apply cfails_symbol | apply after_qvalue_dot].
Qed.

Lemma creads_zero_alternative x f rest :
  creads (maybe (symbol (chr ".") :: optional_digits [100; 10; 1])) after_qvalue x f ->
  creads (alternatives (sequence [symbol (chr "0"); maybe (symbol (chr ".") :: optional_digits [100; 10; 1])] :: rest))
    after_qvalue (48 :: x) f.
Proof.
  intros H. apply creads_first, creads_sequence.
  apply (creads_cons _ _ anything _ [48] _ (fun t => t) f); [apply creads_symbol | by apply creads_last | done].
Qed.

Lemma creads_one_alternative x c :
  cfails_loosely c (followed (49 :: x) after_qvalue) ->
  creads (maybe (symbol (chr ".") :: optional_zeros 3)) after_qvalue x (fun t => t) ->
  creads (alternatives [c; sequence [consume_value_clause (symbol_p (chr "1")) (digit_consumer 1000);
                                     maybe (symbol (chr ".") :: optional_zeros 3)]])
    after_qvalue (49 :: x) (fun t => digit_consumer 1000 t 49).
Proof.
  intros Hc H. apply creads_next; [done|]. apply creads_first, creads_sequence.
  apply (creads_cons _ _ anything _ [49] _ (fun t => digit_consumer 1000 t 49) (fun t => t));
    [by apply creads_consume, reads_symbol | by apply creads_last | done].
Qed.

Lemma fraction_value ds : all_in is_digit ds -> (length ds <= 3)%nat ->
  foldl (fun t md => digit_consumer md.1 t md.2) 0 (zip [100; 10; 1] ds)
  = decimal (ds ++ replicate (3 - length ds) 48).
Proof.
  intros Hds Hl.
  assert (Hd : forall c, is_digit c = true -> 0 <= c - 48 <= 9).
  { intros c. unfold is_digit. change (chr "0") with 48. change (chr "9") with 57. intros H. to_prop. lia. }
  destruct Hds as [|a ds Ha Hds]; [done|]. specialize (Hd a Ha) as Ha'.
  destruct Hds as [|b ds Hb Hds]; [|specialize (Hd b Hb) as Hb'; destruct Hds as [|c ds Hc Hds];
    [|specialize (Hd c Hc) as Hc'; destruct Hds as [|]; [|cbn in Hl; lia]]];
    cbn [zip_with foldl fst snd length Nat.sub replicate app];
    rewrite (digit_consumer_exact a) by (done || lia); try rewrite (digit_consumer_exact b) by (done || lia);
    try rewrite (digit_consumer_exact c) by (done || lia); unfold decimal; cbn [foldl app]; lia.
Qed.

Lemma reads_qvalue x n : qvalue_text x n -> reads qvalue_p after_qvalue x (mk_qvalue n).
Proof.
  intros H. unfold qvalue_p. apply reads_transformed.
  assert (Hone : forall y, cfails_loosely (T := Z)
    (sequence [symbol (chr "0"); maybe (symbol (chr ".") :: optional_digits [100; 10; 1])])
    (followed (49 :: y) after_qvalue)).
  { intros y. apply cfails_to_loosely, cfails_sequence, cfails_to_loosely, cfails_head.
    eapply cfails_weaken; [apply cfails_symbol | by follows]. }
  destruct H as [| |ds Hds Hl|k Hk].
  - eapply (reads_make _ _ _ (fun t => t)); [|done].
    apply creads_last, creads_zero_alternative, creads_no_fraction.
  - eapply (reads_make _ _ _ (fun t => digit_consumer 1000 t 49)); [|done].
    apply creads_last, creads_one_alternative; [apply Hone | apply creads_no_fraction].
  - eapply (reads_make _ _ _ (fun t => foldl (fun t md => digit_consumer md.1 t md.2) t (zip [100; 10; 1] ds)));
      [|by apply fraction_value].
    by apply creads_last, creads_zero_alternative, creads_fraction, creads_optional_digits.
  - eapply (reads_make _ _ _ (fun t => digit_consumer 1000 t 49)); [|done].
    apply creads_last, creads_one_alternative; [apply Hone|]. by apply creads_fraction, creads_optional_zeros.
Qed.

Lemma make_char_array_text n : 0 <= n <= 1000 -> qvalue_text (make_char_array (mk_qvalue n)) n.
Proof.
  intros Hn. unfold make_char_array. cbn [as_uint].
  destruct (Z.eqb_spec qvalue_maximum n) as [<-|Hne]; [apply (qv_unit 3); lia|].
  change qvalue_maximum with 1000 in Hne.
  assert (Hw : forall d, 0 <= d < 10 -> wrap 8 (chr "0" + wrap 8 d) = 48 + d).
  { intros d Hd. change (chr "0") with 48. rewrite (wrap_small 8 d), wrap_small by (change (2 ^ 8) with 256; lia). done. }
  rewrite !Hw by div_lia.
  pose proof (qv_fraction [48 + n / 100; 48 + n mod 100 / 10; 48 + (n mod 100) mod 10]) as H.
  assert (E : decimal ([48 + n / 100; 48 + n mod 100 / 10; 48 + (n mod 100) mod 10] ++ replicate (3 - 3) 48) = n).
  { unfold decimal. cbn [app foldl replicate Nat.sub]. div_lia. }
  cbn [length] in H. rewrite E in H. apply H; [|lia].
  unfold is_digit. change (chr "0") with 48. change (chr "9") with 57.
  repeat constructor; rewrite andb_true_iff, !Z.leb_le; div_lia.
Qed.

(** A weight written by [qvalue_t::as_string] is read back by
    [qvalue_p] as itself, for each of the 1001 weights, whatever follows the
    text that is not a digit or a dot. *)
Theorem qvalue_roundtrip n s r
  (Hn : 0 <= n <= 1000) (Hs : valid s) (Hr : remaining s = make_char_array (mk_qvalue n) ++ r)
  (Hf : after_qvalue r) :
  qvalue_p s = (Ok (mk_qvalue n), advance 5 s).
Proof.
  rewrite (reads_qvalue _ _ (make_char_array_text n Hn) s r Hs Hr Hf). do 2 f_equal.
  unfold make_char_array. by destruct (_ =? _).
Qed.

Lemma qvalue_roundtrip_witness :
  qvalue_p (source (str "0.901,")) = (Ok (mk_qvalue 901), advance 5 (source (str "0.901,"))).
Proof.
  apply (qvalue_roundtrip 901 (source (str "0.901,")) (str ",")).
  - lia.
  - apply valid_source.
  - vm_compute. reflexivity.
  - reflexivity.
Defined.

(** OWS ";" OWS ( "q" / "Q" ) "=" qvalue *)
Definition weight_text (x : bytes) (n : Z) : Prop :=
  exists w1 w2 q y, x = w1 ++ [59] ++ w2 ++ [q] ++ [61] ++ y /\ spaces w1 /\ spaces w2 /\
    to_lower_case q = chr "q" /\ qvalue_text y n.

Lemma not_space_of_lower q : to_lower_case q = chr "q" -> is_space q = false.
Proof. intros H. unfold is_space. apply orb_false_iff. rewrite !Z.eqb_neq. split; intros ->; vm_compute in H; done. Qed.

Lemma creads_caseless {T} c q : to_lower_case q = to_lower_case c ->
  creads (T := T) (caseless_symbol c) anything [q] (fun t => t).
Proof.
  intros H. eapply creads_ext; [|done]. apply (creads_consume (caseless_symbol_p c) skip anything [q] q).
  apply reads_symbol. rewrite H. apply Z.eqb_refl.
Qed.

Lemma reads_weight x n : weight_text x n -> reads weight_p after_qvalue x (mk_qvalue n).
Proof.
  intros (w1 & w2 & q & y & -> & Hw1 & Hw2 & Hq & Hy). unfold weight_p.
  eapply (reads_make _ _ _ (fun _ => mk_qvalue n)); [|done].
  apply creads_ows_symbol; [done..|].
  apply (creads_cons ows _ (stops is_space) _ _ _ (fun t => t)); [by apply creads_ows| |follows; by apply not_space_of_lower].
  apply (creads_cons _ _ anything _ [q] _ (fun t => t)); [by apply creads_caseless| |done].
  apply (creads_cons _ _ anything _ [61] _ (fun t => t)); [apply creads_symbol| |done].
  by apply creads_last, (creads_consume qvalue_p as_result), reads_qvalue.
Qed.

(** ** Weights are in range *)

Lemma triple_skip {A T} (p : producer A) (P : T -> Prop) : triple P (consume_value_clause p skip) P P.
Proof. by eapply triple_consume; [apply yields_any|]. Qed.
Lemma triple_symbol {T} c (P : T -> Prop) : triple P (symbol c) P P.
Proof. apply triple_skip. Qed.

Lemma triple_last {T} (c : clause T) P Q E : triple P c Q E -> triple P (all_of [c]) Q E.
Proof. intros H. eapply triple_cons; [exact H | apply triple_nil]. Qed.

Lemma triple_true {T} (P : T -> Prop) c Q E : triple P c Q E -> triple P c Q (fun _ => True).
Proof. intros H. by eapply triple_weaken. Qed.

Definition within (lo hi t : Z) : Prop := lo <= t <= hi.

Lemma triple_digit m b : 0 <= m <= 1000 -> 0 <= b <= 1000 ->
  triple (within 0 b) (consume_value_clause digit_p (digit_consumer m)) (within 0 (b + 9 * m)) (within 0 b).
Proof.
  intros Hm Hb. eapply triple_consume; [apply yields_symbol|]. intros t c Ht Hc. unfold within in *.
  rewrite digit_consumer_exact by (done || lia).
  unfold is_digit in Hc. change (chr "0") with 48 in *. change (chr "9") with 57 in *. to_prop. nia.
Qed.

Lemma triple_optional_digits ms : Forall (within 0 100) ms -> forall b, 0 <= b -> b + 9 * foldr Z.add 0 ms <= 1000 ->
  triple (within 0 b) (all_of (optional_digits ms)) (within 0 (b + 9 * foldr Z.add 0 ms)) (fun _ => True).
Proof.
  induction 1 as [|m ms Hm Hms IH]; intros b Hb Hs; cbn [optional_digits foldr] in *.
  { eapply triple_weaken; [apply (triple_nil (within 0 b) (fun _ => True))|done| |done]. unfold within. lia. }
  assert (Hpos : 0 <= foldr Z.add 0 ms).
  { clear -Hms. induction Hms as [|m ms [? _] _ IH]; cbn; lia. }
  destruct Hm as [Hm1 Hm2]. apply triple_last, triple_maybe; [|unfold within; lia].
  eapply triple_cons; [eapply triple_true, triple_digit; lia|].
  eapply triple_weaken; [apply (IH (b + 9 * m)); lia|done| |done]. unfold within. lia.
Qed.

Lemma triple_optional_zeros k :
  triple (fun t => t = 1000) (all_of (optional_zeros k)) (fun t => t = 1000) (fun _ => True).
Proof.
  induction k as [|k IH]; cbn [optional_zeros]; [apply triple_nil|].
  apply triple_last, triple_maybe; [|done]. eapply triple_cons; [eapply triple_true, triple_symbol | done].
Qed.

Lemma yields_qvalue_range : yields qvalue_p (fun q => 0 <= as_uint q <= 1000).
Proof.
  unfold qvalue_p. eapply (yields_transformed _ mk_qvalue (within 0 1000)); [|done].
    eapply yields_produce, triple_last, triple_alternatives. repeat constructor.
    - apply triple_true with (fun t : Z => t = default_value), triple_sequence.
      eapply triple_cons; [apply triple_true with (fun t : Z => t = default_value), triple_symbol|].
      apply triple_last, triple_maybe; [|intros t ->; done].
      eapply triple_cons; [eapply triple_true, triple_symbol|].
      eapply triple_weaken; [apply (triple_optional_digits [100; 10; 1]) with (b := 0); [|lia|cbn; lia]| | |done].
      + unfold within. repeat constructor; lia.
      + intros t ->. done.
      + unfold within. cbn. lia.
    - apply triple_true with (fun t : Z => t = default_value), triple_sequence.
      eapply (triple_cons _ _ _ (fun t => t = 1000)).
      + eapply triple_true, triple_consume; [apply yields_symbol|]. intros t c -> Hc.
        apply Z.eqb_eq in Hc. by subst c.
      + apply triple_last, triple_maybe; [|unfold within; intros t ->; lia].
        eapply triple_cons; [eapply triple_true, triple_symbol|].
        apply triple_weaken with (P := fun t => t = 1000) (Q := fun t => t = 1000) (E := fun _ => True);
          [|done|unfold within; intros t ->; lia|done].
        apply (triple_optional_zeros 3).
Qed.

Lemma yields_weight_range : yields weight_p (fun q => 0 <= as_uint q <= 1000).
Proof.
  unfold weight_p. eapply (yields_produce (T := qvalue_t) _ _ (fun _ => True)).
  apply (triple_weaken (fun _ => True) _ (fun q => 0 <= as_uint q <= 1000) _ (fun _ => True)); [|done..].
  apply (triple_decides [_; _; _; _; _]). eapply triple_true, triple_consume; [apply yields_qvalue_range | done].
Qed.

(** Whatever the input, what [qvalue_p] and [weight_p] return is a
    weight between 0 and 1000, the values that [qvalue_t::untrusted] admits
    and [as_string] can print. *)
Theorem weights_in_range s q s'
  (H : qvalue_p s = (Ok q, s') \/ weight_p s = (Ok q, s')) :
  0 <= as_uint q <= 1000 /\ untrusted (as_uint q) = Some (as_uint q) /\
  qvalue_text (make_char_array q) (as_uint q).
Proof.
  assert (Hr : 0 <= as_uint q <= 1000)
    by (destruct H as [H|H]; [by eapply yields_qvalue_range | by eapply yields_weight_range]).
  split; [done|]. split.
  - unfold untrusted, qvalue_maximum. destruct (Z.ltb_spec 1000 (as_uint q)); [lia | done].
  - destruct q as [n]. by apply make_char_array_text.
Qed.

Lemma weights_in_range_witness :
  0 <= as_uint (mk_qvalue 999) <= 1000 /\ untrusted (as_uint (mk_qvalue 999)) = Some (as_uint (mk_qvalue 999)) /\
  qvalue_text (make_char_array (mk_qvalue 999)) (as_uint (mk_qvalue 999)).
Proof.
  apply (weights_in_range (source (str ";q=0.9999")) (mk_qvalue 999) (mk_source (str ";q=0.9999") 8)).
  right. vm_compute. reflexivity.
Defined.

(** ** Comma-separated lists *)

(** The end of the input or a comma. *)
Definition no_element (r : bytes) : Prop := stops (fun c => negb (c =? 44)) r.
Definition after_element (r : bytes) : Prop := exists w r', r = w ++ r' /\ spaces w /\ no_element r'.

(** What a list asks of its elements: their texts are read when a list goes on
    or ends behind them, nothing is read where there is none, and they begin
    with something that is neither a space nor a comma. *)
Class ListElement {A} (p : producer A) (text : bytes -> A -> Prop) : Prop := {
  element_reads x v : text x v -> reads p after_element x v;
  element_fails : fails p no_element;
  element_starts x v : text x v -> exists c y, x = c :: y /\ is_space c = false /\ c <> 44;
}.

Lemma no_element_space r : no_element r -> stops is_space r.
Proof. destruct r as [|c r]; [done|]. intros H%negb_false_iff%Z.eqb_eq. by subst c. Qed.

Lemma after_element_stops pred r :
  (forall c, pred c = true -> is_space c = false /\ c <> 44) -> after_element r -> stops pred r.
Proof.
  intros Hp (w & r' & -> & Hw & Hr). destruct Hw as [|c w Hc _]; cbn.
  - destruct r' as [|c r']; [done|]. cbn in *. destruct (pred c) eqn:E; [|done].
    apply Hp in E as [_ E]. by apply negb_false_iff, Z.eqb_eq in Hr.
  - destruct (pred c) eqn:E; [|done]. apply Hp in E as [E _]. by rewrite E in Hc.
Qed.

Lemma token_not_element c : is_token_char c = true -> is_space c = false /\ c <> 44.
Proof. intros H. split; [by apply token_not_space|]. intros ->. vm_compute in H. done. Qed.

Lemma spaces_stop pred w r : (forall c, pred c = true -> is_space c = false) ->
  spaces w -> stops pred r -> stops pred (w ++ r).
Proof.
  intros Hp Hw Hr. destruct Hw as [|c w Hc _]; [done|]. cbn. destruct (pred c) eqn:E; [|done].
  apply Hp in E. by rewrite E in Hc.
Qed.

Section CommaLists.
Context {A : Type} (p : producer A) (text : bytes -> A -> Prop) `{!ListElement p text}.

(** OWS "," [ OWS element ] *)
Record tail_item : Type := mk_tail { before_comma : bytes; behind_comma : option (bytes * bytes * A) }.

Definition tail_item_ok (i : tail_item) : Prop :=
  spaces (before_comma i) /\
  match behind_comma i with Some (w, x, v) => spaces w /\ text x v | None => True end.
Definition tail_item_text (i : tail_item) : bytes :=
  before_comma i ++ [44] ++ match behind_comma i with Some (w, x, _) => w ++ x | None => [] end.
Definition tail_item_value (i : tail_item) : list A :=
  match behind_comma i with Some (_, _, v) => [v] | None => [] end.
Definition tail_text (l : list tail_item) : bytes := mjoin (tail_item_text <$> l).
Definition tail_values (l : list tail_item) : list A := mjoin (tail_item_value <$> l).

Lemma tail_after l r : Forall tail_item_ok l -> followed (tail_text l) at_end r -> after_element r.
Proof.
  intros Hl (y & -> & ->). rewrite app_nil_r. destruct Hl as [|i l [Hw _] _].
  - exists [], []. by repeat constructor.
  - exists (before_comma i), (44 :: match behind_comma i with Some (w, x, _) => w ++ x | None => [] end ++ tail_text l).
    split; [|done]. unfold tail_text. cbn. unfold tail_item_text. by rewrite <- app_assoc.
Qed.

Lemma cfails_element w r' (k : consumer (list A) A) : spaces w -> no_element r' ->
  cfails (all_of [ows; consume_value_clause p k]) (eq (w ++ r')).
Proof.
  intros Hw Hr. eapply cfails_weaken.
  - apply (cfails_tail _ _ (stops is_space) (fun r => r = r')); [by apply creads_ows| |by intros ? ->; apply no_element_space].
    apply cfails_head, cfails_consume. eapply fails_weaken; [apply element_fails | by intros ? ->].
  - intros ? <-. by exists r'.
Qed.

Lemma element_start x v F r : text x v -> followed x F r -> stops is_space r /\ stops (Z.eqb 44) r.
Proof.
  intros Hx (z & -> & _). apply element_starts in Hx as (c & y & -> & Hc & Hn). split; [done|].
  apply (Z.eqb_neq 44 c). congruence.
Qed.

Lemma creads_tail_item i l : tail_item_ok i -> Forall tail_item_ok l ->
  creads (all_of [ows; symbol (chr ","); maybe [ows; consume_value_clause p to_container]])
    (followed (tail_text l) at_end) (tail_item_text i) (fun t => t ++ tail_item_value i).
Proof.
  intros [Hw Hb] Hl. unfold tail_item_text, tail_item_value.
  destruct (behind_comma i) as [[[w x] v]|]; apply creads_ows_symbol; try done; apply creads_last.
  - destruct Hb as [Hw2 Hx]. apply creads_maybe.
    apply (creads_cons ows _ (stops is_space) _ _ _ (fun t => t)); [by apply creads_ows| |].
    + apply creads_last, (creads_consume (T := list A) p (@to_container A (list A) vector_container)).
      eapply reads_weaken; [by eapply element_reads|]. intros r. by apply tail_after.
    + intros r Hr. by eapply element_start.
  - apply (creads_ext _ _ _ (fun t => t)); [|intros; by rewrite app_nil_r]. apply creads_maybe_not, cfails_to_loosely.
    intros s t Hs Hr. destruct (tail_after l (remaining s) Hl Hr) as (w & r' & E & Hw' & Hr').
    by apply (cfails_element w r' to_container Hw' Hr').
Qed.

Lemma creads_list_tail l : Forall tail_item_ok l -> (N.of_nat (length l) < N_)%N ->
  creads (list_tail (C := list A) p) at_end (tail_text l) (fun t => t ++ tail_values l).
Proof.
  intros Hl Hn. set (items := (fun i => (tail_item_text i, fun t => t ++ tail_item_value i)) <$> l).
  assert (Ht : forall l, texts ((fun i => (tail_item_text i, fun t : list A => t ++ tail_item_value i)) <$> l) = tail_text l).
  { intros l'. unfold texts, tail_text. by rewrite <- list_fmap_compose. }
  assert (Ha : forall t, apply_all items t = t ++ tail_values l).
  { unfold items, tail_values. clear Hl Hn items. induction l as [|i l IH]; intros t; [cbn; by rewrite app_nil_r|].
    cbn. etransitivity; [apply IH|]. cbn. by rewrite <- app_assoc. }
  eapply creads_ext; [|exact Ha]. rewrite <- (Ht l). unfold list_tail.
  apply creads_repeat;
    [|right; eapply cfails_weaken; [by apply (cfails_ows_symbol (T := list A) 44 _ [] []) | by intros ? ->]|].
  - intros pre x f post E. apply fmap_app_inv in E as (l1 & l2 & -> & E2 & ->).
    destruct l2 as [|i l2]; [done|]. injection E2 as -> -> Ep.
    assert (Et : texts post = tail_text l2) by (rewrite Ep; apply Ht). rewrite Et.
    apply Forall_app in Hl as [_ Hl]. apply Forall_cons in Hl as [Hi Hl]. by apply creads_tail_item.
  - unfold items. rewrite length_fmap. lia.
Qed.

(** *( "," OWS ): the spaces behind each of the commas. *)
Definition leads_text (ws : list bytes) : bytes := mjoin ((fun w => 44 :: w) <$> ws).

Lemma creads_leads {T} ws x v F : Forall (Forall (fun c => is_space c = true)) ws -> text x v ->
  (N.of_nat (length ws) < N_)%N ->
  creads (T := T) (repeat 0 N_ [symbol (chr ","); ows]) (followed x F) (leads_text ws) (fun t => t).
Proof.
  intros Hw Hx Hn.
  assert (Ht : forall ws, texts ((fun w => (44 :: w, fun t : T => t)) <$> ws) = leads_text ws).
  { intros l'. unfold texts, leads_text. by rewrite <- list_fmap_compose. }
  assert (Ha : forall t, apply_all ((fun w => (44 :: w, fun t : T => t)) <$> ws) t = t).
  { clear Hw Hn. induction ws; [done|]. intros t. cbn. apply IHws. }
  eapply creads_ext; [|exact Ha]. rewrite <- (Ht ws). apply creads_repeat.
  - intros pre y f post E. apply fmap_app_inv in E as (l1 & l2 & -> & E2 & ->).
    destruct l2 as [|w l2]; [done|]. injection E2 as -> -> Ep.
    apply Forall_app in Hw as [_ Hw]. apply Forall_cons in Hw as [Hwi Hw].
    apply (creads_cons _ _ anything _ [44] _ (fun t => t) (fun t => t)); [apply creads_symbol| |done].
    apply creads_last. eapply creads_weaken; [by apply creads_ows|].
    intros r (z & -> & Hz). rewrite Ep. change (stops is_space (texts ((fun w => (44 :: w, fun t : T => t)) <$> l2) ++ z)).
    rewrite Ht. destruct l2 as [|w2 l2]; [|done]. by eapply element_start.
  - right. apply cfails_head. eapply cfails_weaken; [apply cfails_symbol|]. intros r Hr. by eapply element_start.
  - rewrite length_fmap. lia.
Qed.

(** The rule 1#element of RFC 7230 is read exactly as it is
    meant: any number of commas, an element, then elements and empty places
    separated by commas, with spaces around the commas, give the vector of the
    elements in their order, for every producer that keeps the contract of an element. *)
Theorem non_empty_list_reads ws x v l
  (Hws : Forall (Forall (fun c => is_space c = true)) ws) (Hx : text x v) (Hl : Forall tail_item_ok l)
  (Hn : (N.of_nat (length ws) < N_)%N /\ (N.of_nat (length l) < N_)%N) :
  reads (non_empty_comma_separated_list_p (C := list A) p) at_end
    (leads_text ws ++ x ++ tail_text l) (v :: tail_values l).
Proof.
  destruct Hn as [Hn1 Hn2]. intros s r Hs E Hr. unfold non_empty_comma_separated_list_p.
  assert (H : creads (T := list A) (sequence [repeat 0 N_ [symbol (chr ","); ows];
    consume_value_clause p to_container; list_tail p]) at_end
    (leads_text ws ++ x ++ tail_text l) (fun t => (t ++ [v]) ++ tail_values l)).
  { apply creads_sequence.
    apply (creads_cons _ _ (followed x (followed (tail_text l) at_end)) _ _ _ (fun t => t) (fun t => (t ++ [v]) ++ tail_values l));
      [by eapply creads_leads| |].
    - apply (creads_cons _ _ after_element _ _ _ (fun t => t ++ [v]) (fun t => t ++ tail_values l)).
      + by apply (creads_consume (T := list A) p (@to_container A (list A) vector_container)), element_reads.
      + apply creads_last, creads_list_tail; [done | lia].
      + intros r'. by apply tail_after.
    - intros r' Hr'. by apply followed_app. }
  by rewrite (H s r).
Qed.

(** #element: nothing, or a comma or an element and then the same. *)
Definition first_text (first : option (bytes * A)) : bytes := match first with Some (x, _) => x | None => [44] end.
Definition first_ok (first : option (bytes * A)) : Prop := match first with Some (x, v) => text x v | None => True end.
Definition first_values (first : option (bytes * A)) : list A := match first with Some (_, v) => [v] | None => [] end.

Lemma maybe_empty_list_reads first l :
  first_ok first -> Forall tail_item_ok l -> (N.of_nat (length l) < N_)%N ->
  reads (maybe_empty_comma_separated_list_p (C := list A) p) at_end
    (first_text first ++ tail_text l) (first_values first ++ tail_values l).
Proof.
  intros Hf Hl Hn s r Hs E Hr. unfold maybe_empty_comma_separated_list_p.
  assert (H : creads (T := list A) (maybe [alternatives [symbol (chr ","); consume_value_clause p to_container];
      list_tail p]) at_end (first_text first ++ tail_text l) (fun t => (t ++ first_values first) ++ tail_values l)).
  { apply creads_maybe.
    apply (creads_cons _ _ after_element _ _ _ (fun t => t ++ first_values first) (fun t => t ++ tail_values l)).
    - destruct first as [[x v]|]; cbn in *.
      + apply creads_next.
        * apply cfails_to_loosely. eapply cfails_weaken; [apply cfails_symbol|]. intros r'. by eapply element_start.
        * by apply creads_first, (creads_consume (T := list A) p (@to_container A (list A) vector_container)), element_reads.
      + apply creads_first. eapply creads_ext; [|intros t; symmetry; apply app_nil_r].
        eapply creads_weaken; [apply (creads_symbol 44) | done].
    - apply creads_last, creads_list_tail; [done | lia].
    - intros r'. by apply tail_after. }
  by rewrite (H s r).
Qed.

Lemma empty_list_reads : reads (maybe_empty_comma_separated_list_p (C := list A) p) at_end [] [].
Proof.
  intros s r Hs E Hr. unfold maybe_empty_comma_separated_list_p.
  assert (H : creads (T := list A) (maybe [alternatives [symbol (chr ","); consume_value_clause p to_container];
      list_tail p]) at_end [] (fun t => t)).
  { apply creads_maybe_not, cfails_to_loosely, cfails_head, cfails_alternatives.
    repeat constructor; apply cfails_to_loosely.
    - eapply cfails_weaken; [apply cfails_symbol | by intros ? ->].
    - apply cfails_consume. eapply fails_weaken; [apply element_fails | by intros ? ->]. }
  by rewrite (H s r).
Qed.
End CommaLists.

#[global] Instance token_element : ListElement token_p (fun x v => token x /\ v = x).
Proof.
  split.
  - intros x v [Hx ->]. eapply reads_weaken; [by apply reads_token|].
    intros r. apply after_element_stops, token_not_element.
  - eapply fails_weaken; [apply fails_token|]. intros [|c r]; [done|]. intros H%negb_false_iff%Z.eqb_eq. by subst c.
  - intros x v [[Hn Hx] _]. destruct Hx as [|c y Hc _]; [done|]. apply token_not_element in Hc as []. by exists c, y.
Qed.

Lemma non_empty_list_reads_witness :
  non_empty_comma_separated_list_p (C := list bytes) token_p (source (str ", ,a ,, b")) =
    (Ok [str "a"; str "b"], advance 9 (source (str ", ,a ,, b"))).
Proof.
  apply (non_empty_list_reads token_p (fun x v => token x /\ v = x) [[32]; []] (str "a") (str "a")
    [mk_tail [32] None; mk_tail [] (Some ([32], str "b", str "b"))]) with (r := []).
  - repeat constructor.
  - repeat constructor. done.
  - repeat constructor. done.
  - vm_compute. split; done.
  - apply valid_source.
  - reflexivity.
  - reflexivity.
Defined.

(** ** Finding a parameter *)

(** [find_first] returns a view of the value of the first parameter
    with that name, up to case, and the view points into the container. The
    one for parameters with optional values finds the same parameter, but a
    view it returns points into a local copy of the value, which is gone when
    the caller gets the view. *)
Theorem find_first_views params opt_params what :
  (forall v, find_first params what = Ok v ->
     exists i p, view_of v = in_container i /\ params !! i = Some p /\ view_text v = p.2 /\
       is_equal_caseless p.1 what = true /\
       forall j q, (j < i)%nat -> params !! j = Some q -> is_equal_caseless q.1 what = false) /\
  (forall v, find_first_opt opt_params what = Ok (Some v) ->
     view_of v = in_local_copy /\
     exists i p, opt_params !! i = Some p /\ p.2 = Some (view_text v) /\
       is_equal_caseless p.1 what = true).
Proof.
  split.
  - intros v. unfold find_first. case_match eqn:E; [|done]. destruct p as [i p].
    intros [= <-]. apply list_find_Some in E as (Hi & Hp & Hj). exists i, p. do 4 (split; [done|]).
    intros j q Hji Hq. apply not_true_iff_false. by eapply Hj.
  - intros v. unfold find_first_opt. case_match eqn:E; [|done]. destruct p as [i [n [y|]]]; [|done]. cbn. intros [= <-]. apply list_find_Some in E as (Hi & Hp & _). split; [done|]. by exists i, (n, Some y).
Qed.

(** "max-age=5" in a Cache-Control field. *)
Lemma find_first_views_witness :
  find_first_opt [(str "no-store", None); (str "max-age", Some (str "5"))] (str "Max-Age") =
    Ok (Some (mk_view in_local_copy (str "5"))) /\
  view_of (mk_view in_local_copy (str "5")) = in_local_copy.
Proof.
  assert (E : find_first_opt [(str "no-store", None); (str "max-age", Some (str "5"))] (str "Max-Age") =
    Ok (Some (mk_view in_local_copy (str "5")))) by (vm_compute; reflexivity).
  split; [exact E|]. exact (proj1 (proj2 (find_first_views [] _ (str "Max-Age")) _ E)).
Defined.
