(* ===== verification/FieldParsers.v ===== *)
(** * Parsers of HTTP fields

    [restinio/helpers/http_field_parsers/]: Accept, Accept-Charset,
    Accept-Encoding, Accept-Language, Authorization, Cache-Control,
    Connection, Content-Disposition, Content-Encoding, Content-Type, Range,
    Transfer-Encoding and User-Agent, and [try_parse_field]. A [variant_t] whose alternatives
    the code distinguishes is an inductive type; its value before it is
    assigned is the first alternative with its default value. *)

From S2P Require Import Prelude IntAcc Headers Base64.
From S2P Require Import EasyParser EasyRules HttpFields.

(** ** Weighted items *)

(** [item_t] of Accept-Charset, Accept-Encoding and Accept-Language. *)
(*@ helpers/http_field_parsers/accept-charset.hpp 42-46 accept_charset_value_t::item_t *)
Record weighted_item_t : Type := mk_item { item_name : bytes; item_weight : qvalue_t }.

#[global] Instance default_item : Default weighted_item_t := mk_item [] (mk_qvalue qvalue_maximum).

Definition set_name : consumer weighted_item_t bytes := field_setter (fun i v => mk_item v (item_weight i)).
Definition set_weight : consumer weighted_item_t qvalue_t := field_setter (fun i v => mk_item (item_name i) v).

(** A name, made by [name], and possibly a weight. *)
Definition weighted_p (name : producer bytes) : producer weighted_item_t :=
  produce weighted_item_t [consume_value_clause name set_name; maybe [consume_value_clause weight_p set_weight]].

(*@ helpers/http_field_parsers/accept-charset.hpp 57-69 accept_charset_value_t::make_parser *)
Definition accept_charset_p : producer (list weighted_item_t) :=
  produce (list weighted_item_t)
    [consume_value_clause (non_empty_comma_separated_list_p (C := list weighted_item_t) (weighted_p (lowered token_p)))
       as_result].

(*@ helpers/http_field_parsers/accept-encoding.hpp 58-70 accept_encoding_value_t::make_parser *)
Definition accept_encoding_p : producer (list weighted_item_t) :=
  produce (list weighted_item_t)
    [consume_value_clause (maybe_empty_comma_separated_list_p (C := list weighted_item_t) (weighted_p (lowered token_p)))
       as_result].

(*@ helpers/http_field_parsers/accept-language.hpp 28-39 make_language_tag_p *)
Definition language_tag_p : producer bytes :=
  produce bytes
    [repeat 1 8 [consume_value_clause alpha_symbol_p to_container];
     repeat 0 N_
       [consume_value_clause (symbol_p (chr "-")) to_container;
        repeat 1 8 [consume_value_clause alphanum_symbol_p to_container]]].

(*@ helpers/http_field_parsers/accept-language.hpp 41-51 make_language_range_p *)
Definition language_range_p : producer bytes :=
  produce bytes
    [alternatives
      [consume_value_clause (symbol_p (chr "*")) to_container;
       consume_value_clause language_tag_p as_result]].

(*@ helpers/http_field_parsers/accept-language.hpp 92-107 accept_language_value_t::make_parser *)
Definition accept_language_p : producer (list weighted_item_t) :=
  produce (list weighted_item_t)
    [consume_value_clause (non_empty_comma_separated_list_p (C := list weighted_item_t) (weighted_p language_range_p))
       as_result].

(** ** Lists of tokens, directives *)

(*@ helpers/http_field_parsers/connection.hpp 51-59 connection_value_t::make_parser *)
Definition connection_p : producer (list bytes) :=
  produce (list bytes)
    [consume_value_clause (non_empty_comma_separated_list_p (C := list bytes) (lowered token_p)) as_result].

(*@ helpers/http_field_parsers/content-encoding.hpp 52-61 content_encoding_value_t::make_parser *)
Definition content_encoding_p : producer (list bytes) :=
  produce (list bytes)
    [consume_value_clause (non_empty_comma_separated_list_p (C := list bytes) (lowered token_p)) as_result].

Definition directive_p : producer parameter_with_optional_value_t :=
  produce parameter_with_optional_value_t
    [consume_value_clause (lowered token_p) set_first;
     maybe [symbol (chr "="); value_clause set_second_opt]].

(*@ helpers/http_field_parsers/cache-control.hpp 55-73 cache_control_value_t::make_parser *)
Definition cache_control_p : producer (list parameter_with_optional_value_t) :=
  produce (list parameter_with_optional_value_t)
    [consume_value_clause
       (non_empty_comma_separated_list_p (C := list parameter_with_optional_value_t) directive_p) as_result].

(** ** Media types *)

(*@ helpers/http_field_parsers/media-type.hpp 41-49 media_type_value_t *)
Record media_type_value_t : Type := mk_media {
  m_type : bytes; m_subtype : bytes; m_parameters : list parameter_with_mandatory_value_t }.

#[global] Instance default_media : Default media_type_value_t := mk_media [] [] [].

Definition set_type : consumer media_type_value_t bytes :=
  field_setter (fun m v => mk_media v (m_subtype m) (m_parameters m)).
Definition set_subtype : consumer media_type_value_t bytes :=
  field_setter (fun m v => mk_media (m_type m) v (m_parameters m)).
Definition set_parameters : consumer media_type_value_t (list parameter_with_mandatory_value_t) :=
  field_setter (fun m v => mk_media (m_type m) (m_subtype m) v).

(*@ helpers/http_field_parsers/media-type.hpp 64-74 media_type_value_t::make_default_parser *)
Definition media_type_p : producer media_type_value_t :=
  produce media_type_value_t
    [consume_value_clause (lowered token_p) set_type; symbol (chr "/");
     consume_value_clause (lowered token_p) set_subtype;
     consume_value_clause params_with_value_p set_parameters].

Definition parameter_but_weight_p : producer parameter_with_mandatory_value_t :=
  produce parameter_with_mandatory_value_t
    [not_clause [consume_value_clause weight_p skip]; ows; symbol (chr ";"); ows;
     consume_value_clause (lowered token_p) set_first; symbol (chr "="); value_clause set_second].

(*@ helpers/http_field_parsers/media-type.hpp 91-116 media_type_value_t::make_weight_aware_parser *)
Definition weight_aware_media_type_p : producer media_type_value_t :=
  produce media_type_value_t
    [consume_value_clause (lowered token_p) set_type; symbol (chr "/");
     consume_value_clause (lowered token_p) set_subtype;
     consume_value_clause
       (produce (list parameter_with_mandatory_value_t)
         [repeat 0 N_ [consume_value_clause parameter_but_weight_p to_container]])
       set_parameters].

(*@ helpers/http_field_parsers/content-type.hpp 47-55 content_type_value_t::make_parser *)
Definition content_type_p : producer media_type_value_t :=
  produce media_type_value_t [consume_value_clause media_type_p as_result].

(*@ helpers/http_field_parsers/accept.hpp 53-62 accept_value_t::item_t *)
Record accept_item_t : Type := mk_accept {
  a_media_type : media_type_value_t; a_weight : option qvalue_t;
  a_params : list parameter_with_optional_value_t }.

#[global] Instance default_accept : Default accept_item_t := mk_accept default_value None [].

Definition accept_item_p : producer accept_item_t :=
  produce accept_item_t
    [consume_value_clause weight_aware_media_type_p (field_setter (fun i v => mk_accept v (a_weight i) (a_params i)));
     maybe
       [consume_value_clause weight_p (field_setter (fun i v => mk_accept (a_media_type i) (Some v) (a_params i)));
        consume_value_clause params_with_opt_value_p
          (field_setter (fun i v => mk_accept (a_media_type i) (a_weight i) v))]].

(*@ helpers/http_field_parsers/accept.hpp 73-90 accept_value_t::make_parser *)
Definition accept_p : producer (list accept_item_t) :=
  produce (list accept_item_t)
    [consume_value_clause (maybe_empty_comma_separated_list_p (C := list accept_item_t) accept_item_p) as_result].

(** ** Transfer-Encoding *)

(*@ helpers/http_field_parsers/transfer-encoding.hpp 50-94 transfer_encoding_value_t::value_t *)
Inductive transfer_coding_t : Type :=
| chunked
| compress
| deflate
| gzip
| transfer_extension (token : bytes) (transfer_parameters : list parameter_with_mandatory_value_t).

#[global] Instance default_coding : Default transfer_coding_t := chunked.

(** [transfer_extension_t] before it is put into the variant. *)
Definition transfer_extension_p : producer (bytes * list parameter_with_mandatory_value_t) :=
  produce (bytes * list parameter_with_mandatory_value_t)
    [consume_value_clause (lowered token_p) set_first; consume_value_clause params_with_value_p set_second].

Definition transfer_coding_p : producer transfer_coding_t :=
  produce transfer_coding_t
    [alternatives
      [consume_value_clause (expected_caseless_token_p (str "chunked")) (just_result chunked);
       consume_value_clause (expected_caseless_token_p (str "compress")) (just_result compress);
       consume_value_clause (expected_caseless_token_p (str "deflate")) (just_result deflate);
       consume_value_clause (expected_caseless_token_p (str "gzip")) (just_result gzip);
       consume_value_clause (expected_caseless_token_p (str "x-gzip")) (just_result gzip);
       consume_value_clause transfer_extension_p (fun _ e => transfer_extension e.1 e.2)]].

(*@ helpers/http_field_parsers/transfer-encoding.hpp 105-132 transfer_encoding_value_t::make_parser *)
Definition transfer_encoding_p : producer (list transfer_coding_t) :=
  produce (list transfer_coding_t)
    [consume_value_clause (non_empty_comma_separated_list_p (C := list transfer_coding_t) transfer_coding_p) as_result].

(** ** User-Agent *)

(*@ helpers/http_field_parsers/user-agent.hpp 48-59 user_agent_value_t::product_t *)
Definition product_t : Type := bytes * option bytes.
(*@ helpers/http_field_parsers/user-agent.hpp 54-59 user_agent_value_t::tail_item_t *)
Inductive agent_item_t : Type := product_item (p : product_t) | comment_item (c : bytes).
(*@ helpers/http_field_parsers/user-agent.hpp 61-62 user_agent_value_t *)
Definition user_agent_value_t : Type := product_t * list agent_item_t.

#[global] Instance default_product : Default product_t := ([], None).
#[global] Instance default_agent : Default user_agent_value_t := (([], None), []).

Definition product_p : producer product_t :=
  produce product_t
    [consume_value_clause token_p set_first;
     maybe [symbol (chr "/"); consume_value_clause token_p set_second_opt]].

(*@ helpers/http_field_parsers/user-agent.hpp 69-94 user_agent_value_t::make_parser *)
Definition user_agent_p : producer user_agent_value_t :=
  produce user_agent_value_t
    [consume_value_clause product_p set_first;
     consume_value_clause
       (produce (list agent_item_t)
         [repeat 0 N_
           [space; ows;
            alternatives
              [consume_value_clause product_p (fun to what => to ++ [product_item what]);
               consume_value_clause comment_p (fun to what => to ++ [comment_item what])]]])
       set_second].

(** ** Range *)

(*@ helpers/http_field_parsers/range.hpp 38-88 byte_range_spec_t *)
Inductive byte_range_spec_t : Type :=
| double_ended_range (first last : Z)
| open_ended_range (first : Z)
| suffix_length (length : Z).

(*@ helpers/http_field_parsers/range.hpp 114-128 value_t *)
Inductive range_value_t : Type :=
| byte_ranges_specifier (ranges : list byte_range_spec_t)
| other_ranges_specifier (range_unit range_set : bytes).

#[global] Instance default_range_spec : Default byte_range_spec_t := double_ended_range 0 0.
#[global] Instance default_range_value : Default range_value_t := byte_ranges_specifier [].

Section Range.
Context (T : int_type).

(** The members [first], [last] and [length] have no initial value; each is
    assigned before its structure is used. *)
(*@ helpers/http_field_parsers/range.hpp 149-175 make_byte_range_spec_parser *)
Definition byte_range_spec_p : producer byte_range_spec_t :=
  produce byte_range_spec_t
    [alternatives
      [consume_value_clause
         (produce (Z * Z)
           [consume_value_clause (non_negative_decimal_number_p T) set_first; symbol (chr "-");
            consume_value_clause (non_negative_decimal_number_p T) set_second])
         (fun _ r => double_ended_range r.1 r.2);
       consume_value_clause
         (produce Z [consume_value_clause (non_negative_decimal_number_p T) as_result; symbol (chr "-")])
         (fun _ first => open_ended_range first);
       consume_value_clause
         (produce Z [symbol (chr "-"); consume_value_clause (non_negative_decimal_number_p T) as_result])
         (fun _ length => suffix_length length)]].

(*@ helpers/http_field_parsers/range.hpp 182-187 make_bytes_prefix_parser *)
Definition bytes_prefix {U} : clause U := sequence [exact (str "bytes"); symbol (chr "=")].

(*@ helpers/http_field_parsers/range.hpp 209-222 make_byte_ranges_specifier_parser *)
Definition byte_ranges_specifier_p : producer (list byte_range_spec_t) :=
  produce (list byte_range_spec_t)
    [bytes_prefix;
     force_only_this_alternative
       [consume_value_clause
          (non_empty_comma_separated_list_p (C := list byte_range_spec_t) byte_range_spec_p) as_result]].

(*@ helpers/http_field_parsers/range.hpp 237-250 make_other_ranges_specifier_parser *)
Definition other_ranges_specifier_p : producer (bytes * bytes) :=
  produce (bytes * bytes)
    [consume_value_clause token_p set_first; symbol (chr "=");
     force_only_this_alternative
       [consume_value_clause
          (produce bytes [repeat 1 N_ [consume_value_clause vchar_symbol_p to_container]]) set_second]].

(*@ helpers/http_field_parsers/range.hpp 451-465 range_value_t::make_parser *)
Definition range_p : producer range_value_t :=
  produce range_value_t
    [alternatives
      [consume_value_clause byte_ranges_specifier_p (fun _ ranges => byte_ranges_specifier ranges);
       consume_value_clause other_ranges_specifier_p (fun _ o => other_ranges_specifier o.1 o.2)]].
End Range.

(** ** Content-Disposition *)

(*@ helpers/http_field_parsers/content-disposition.hpp 45-71 regular_token_producer_t *)
Definition regular_token_p : producer bytes :=
  fun from =>
    let started_at := current_position from in
    match token_p from with
    | (Ok result, from) =>
        if bool_decide (last result = Some (chr "*"))
        then (Err (mk_error (started_at + length result - 1) unexpected_character),
              end_consumer started_at false from)
        else (Ok result, end_consumer started_at true from)
    | (Err e, from) => (Err e, end_consumer started_at false from)
    end.

(*@ helpers/http_field_parsers/content-disposition.hpp 87-113 ext_token_producer_t *)
Definition ext_token_p : producer bytes :=
  fun from =>
    let started_at := current_position from in
    match token_p from with
    | (Ok result, from) =>
        if negb (bool_decide (last result = Some (chr "*")))
        then (Err (mk_error started_at pattern_not_found), end_consumer started_at false from)
        else (Ok result, end_consumer started_at true from)
    | (Err e, from) => (Err e, end_consumer started_at false from)
    end.

(*@ helpers/http_field_parsers/content-disposition.hpp 126-149 mime_charsetc_predicate_t *)
Definition is_mime_charsetc (ch : Z) : bool :=
  is_alpha ch || is_digit ch || existsb (Z.eqb ch) (str "!#$%&+-^_`{}~").
(*@ helpers/http_field_parsers/content-disposition.hpp 184-195 language_predicate_t *)
Definition is_language (ch : Z) : bool := is_alpha ch || is_digit ch || (chr "-" =? ch).
(*@ helpers/http_field_parsers/content-disposition.hpp 223-245 attr_char_predicate_t *)
Definition is_attr_char (ch : Z) : bool :=
  is_alpha ch || is_digit ch || existsb (Z.eqb ch) (str "!#$&+-.^_`|~").

(** An [std::array] of three characters is a string of three. *)
(*@ helpers/http_field_parsers/details/pct_encoded_symbols.hpp 55-64 pct_encoded_symbols_p *)
Definition pct_encoded_symbols_p : producer bytes :=
  produce bytes
    [consume_value_clause (symbol_p (chr "%")) to_container;
     consume_value_clause hexdigit_p to_container; consume_value_clause hexdigit_p to_container].

(*@ helpers/http_field_parsers/details/pct_encoded_symbols.hpp 78-86 pct_encoded_symbols_consumer_t *)
Definition pct_encoded_symbols_consumer : consumer bytes bytes := fun to from => to ++ from.

(*@ helpers/http_field_parsers/content-disposition.hpp 297-313 ext_parameter_value_p *)
Definition ext_parameter_value_p : producer bytes :=
  produce bytes
    [repeat 1 N_ [consume_value_clause (symbol_producer is_mime_charsetc) to_container];
     consume_value_clause (symbol_p 39) to_container;
     repeat 0 N_ [consume_value_clause (symbol_producer is_language) to_container];
     consume_value_clause (symbol_p 39) to_container;
     repeat 0 N_
       [alternatives
         [consume_value_clause (symbol_producer is_attr_char) to_container;
          consume_value_clause pct_encoded_symbols_p pct_encoded_symbols_consumer]]].

Definition disposition_parameter_p : producer parameter_with_mandatory_value_t :=
  produce parameter_with_mandatory_value_t
    [ows; symbol (chr ";"); ows;
     alternatives
       [sequence
         [consume_value_clause (lowered regular_token_p) set_first; symbol (chr "="); value_clause set_second];
        sequence
         [consume_value_clause (lowered ext_token_p) set_first; symbol (chr "=");
          consume_value_clause ext_parameter_value_p set_second]]].

(** [value] and [parameters] *)
(*@ helpers/http_field_parsers/content-disposition.hpp 350-386 content_disposition_value_t::make_parser *)
Definition content_disposition_p : producer (bytes * list parameter_with_mandatory_value_t) :=
  produce (bytes * list parameter_with_mandatory_value_t)
    [consume_value_clause (lowered token_p) set_first;
     consume_value_clause
       (produce (list parameter_with_mandatory_value_t)
         [repeat 0 N_ [consume_value_clause disposition_parameter_p to_container]])
       set_second].

(** ** Authorization *)

(*@ helpers/http_field_parsers/authorization.hpp 40-58 is_token68_char_predicate_t *)
Definition is_token68_char (ch : Z) : bool := is_alphanum ch || existsb (Z.eqb ch) (str "-._~+/").

(*@ helpers/http_field_parsers/authorization.hpp 96-106 token68_p *)
Definition token68_p : producer bytes :=
  produce bytes
    [consume_value_clause
       (produce bytes
         [repeat 1 N_ [consume_value_clause (symbol_producer is_token68_char) to_container];
          repeat 0 N_ [consume_value_clause (symbol_p (chr "=")) to_container]]) as_result].

(*@ helpers/http_field_parsers/authorization.hpp 135-141 authorization_value_t::value_form_t *)
Inductive value_form_t : Type := form_token | form_quoted_string.
(*@ helpers/http_field_parsers/authorization.hpp 144-159 authorization_value_t::param_t *)
Record param_t : Type := mk_param { p_name : bytes; p_value : bytes; p_form : value_form_t }.
(*@ helpers/http_field_parsers/authorization.hpp 161-168 authorization_value_t::auth_param_t *)
Inductive auth_param_t : Type := token68 (value : bytes) | auth_params (params : list param_t).
(*@ helpers/http_field_parsers/authorization.hpp 132-177 authorization_value_t *)
Record authorization_value_t : Type := mk_authorization { auth_scheme : bytes; auth_param : auth_param_t }.

#[global] Instance default_form : Default (bytes * value_form_t) := ([], form_token).
#[global] Instance default_param : Default param_t := mk_param [] [] form_token.
#[global] Instance default_auth_param : Default auth_param_t := token68 [].
#[global] Instance default_authorization : Default authorization_value_t := mk_authorization [] default_value.

Definition auth_param_p : producer param_t :=
  produce param_t
    [consume_value_clause (lowered token_p) (field_setter (fun p v => mk_param v (p_value p) (p_form p)));
     ows; symbol (chr "="); ows;
     consume_value_clause
       (produce (bytes * value_form_t)
         [alternatives
           [consume_value_clause (transformed_value_producer token_p (convert (fun v => (v, form_token)))) as_result;
            consume_value_clause
              (transformed_value_producer quoted_string_p (convert (fun v => (v, form_quoted_string)))) as_result]])
       (field_setter (fun p v => mk_param (p_name p) v.1 v.2))].

(*@ helpers/http_field_parsers/authorization.hpp 184-228 authorization_value_t::make_parser *)
Definition authorization_p : producer authorization_value_t :=
  produce authorization_value_t
    [consume_value_clause (lowered token_p) (field_setter (fun a v => mk_authorization v (auth_param a)));
     maybe
       [repeat 1 N_ [space];
        consume_value_clause
          (produce auth_param_t
            [alternatives
              [sequence
                [consume_value_clause token68_p (fun _ v => token68 v);
                 not_clause [consume_value_clause any_symbol_p skip]];
               consume_value_clause (maybe_empty_comma_separated_list_p (C := list param_t) auth_param_p)
                 (fun _ v => auth_params v)]])
          (field_setter (fun a v => mk_authorization (auth_scheme a) v))]].

(** ** Parsing a field of a message *)

(*@ helpers/http_field_parsers/try_parse_field.hpp 51-55 result_variant_t *)
Inductive field_result (A : Type) : Type :=
| parsed_field (v : A)
| field_not_found
| field_parse_error (e : parse_error_t).
Arguments parsed_field {A} v.
Arguments field_not_found {A}.
Arguments field_parse_error {A} e.

(*@ helpers/http_field_parsers/try_parse_field.hpp 81-103 try_extract_field_value_from *)
Definition try_extract_field_value_from {A} (p : producer A) (opt_value : option bytes) (default_value : bytes)
    : field_result A :=
  match opt_value, default_value with
  | None, [] => field_not_found
  | _, _ =>
      let content := match opt_value with Some v => v | None => default_value end in
      match try_parse content p with
      | Ok v => parsed_field v
      | Err e => field_parse_error e
      end
  end.

(*@ helpers/http_field_parsers/try_parse_field.hpp 148-166 try_parse_field *)
Definition try_parse_field {A} (p : producer A) (fields : http_header_fields_t) (field : field_key)
    (default_value : bytes) : field_result A :=
  try_extract_field_value_from p (Fields.opt_value_of fields field) default_value.
