(* ===== verification/BasicAuth.v ===== *)
(** * Basic authentication

    [restinio/helpers/http_field_parsers/basic_auth.hpp]: the credentials in an
    Authorization field, with every way their extraction fails. *)

From S2P Require Import Prelude IntAcc Headers Base64.
From S2P Require Import EasyParser EasyRules HttpFields FieldParsers.

Module Basic.
(*@ helpers/http_field_parsers/basic_auth.hpp 65-90 extraction_error_t *)
Inductive extraction_error_t : Type :=
| no_auth_http_field
| illegal_http_field_value
| not_basic_auth_scheme
| invalid_basic_auth_param
| token68_decode_error
| invalid_username_password_pair
| empty_username.

(*@ helpers/http_field_parsers/basic_auth.hpp 41-54 params_t *)
Record params_t : Type := mk_params { username : bytes; password : bytes }.

(*@ helpers/http_field_parsers/basic_auth.hpp 181-208 try_extract_params *)
Definition try_extract_params (http_field : authorization_value_t) : result extraction_error_t params_t :=
  match auth_param http_field with
  | auth_params _ => Err invalid_basic_auth_param
  | token68 value =>
      match try_decode value with
      | Err _ => Err token68_decode_error
      | Ok username_password =>
          match list_find (fun c => c = chr ":") username_password with
          | None => Err invalid_username_password_pair
          | Some (first_colon, _) =>
              if (first_colon =? 0)%nat then Err empty_username
              else Ok (mk_params (take first_colon username_password) (drop (first_colon + 1) username_password))
          end
      end
  end.

(*@ helpers/http_field_parsers/basic_auth.hpp 213-231 perform_extraction_attempt *)
Definition perform_extraction_attempt (opt_field_value : option bytes) : result extraction_error_t params_t :=
  match opt_field_value with
  | None => Err no_auth_http_field
  | Some value =>
      match try_parse value authorization_p with
      | Err _ => Err illegal_http_field_value
      | Ok parsed_value =>
          if negb (bool_decide (str "basic" = auth_scheme parsed_value)) then Err not_basic_auth_scheme
          else try_extract_params parsed_value
      end
  end.

(*@ helpers/http_field_parsers/basic_auth.hpp 260-269 try_extract_params *)
Definition try_extract_params_from (fields : http_header_fields_t) (auth_field : field_key)
    : result extraction_error_t params_t :=
  perform_extraction_attempt (Fields.opt_value_of fields auth_field).
End Basic.
