(* ===== verification/BearerAuth.v ===== *)
(** * Bearer authentication

    [restinio/helpers/http_field_parsers/bearer_auth.hpp]: the credentials in an
    Authorization field, with every way their extraction fails. *)

From S2P Require Import Prelude IntAcc Headers Base64.
From S2P Require Import EasyParser EasyRules HttpFields FieldParsers.

Module Bearer.
(*@ helpers/http_field_parsers/bearer_auth.hpp 57-72 extraction_error_t *)
Inductive extraction_error_t : Type :=
| no_auth_http_field
| illegal_http_field_value
| not_bearer_auth_scheme
| invalid_bearer_auth_param.

(** [params_t] has one field, the token. *)
(*@ helpers/http_field_parsers/bearer_auth.hpp 150-161 try_extract_params *)
Definition try_extract_params (http_field : authorization_value_t) : result extraction_error_t bytes :=
  match auth_param http_field with
  | auth_params _ => Err invalid_bearer_auth_param
  | token68 value => Ok value
  end.

(*@ helpers/http_field_parsers/bearer_auth.hpp 228-246 perform_extraction_attempt *)
Definition perform_extraction_attempt (opt_field_value : option bytes) : result extraction_error_t bytes :=
  match opt_field_value with
  | None => Err no_auth_http_field
  | Some value =>
      match try_parse value authorization_p with
      | Err _ => Err illegal_http_field_value
      | Ok parsed_value =>
          if negb (bool_decide (str "bearer" = auth_scheme parsed_value)) then Err not_bearer_auth_scheme
          else try_extract_params parsed_value
      end
  end.

(*@ helpers/http_field_parsers/bearer_auth.hpp 274-283 try_extract_params *)
Definition try_extract_params_from (fields : http_header_fields_t) (auth_field : field_key)
    : result extraction_error_t bytes :=
  perform_extraction_attempt (Fields.opt_value_of fields auth_field).
End Bearer.
