(* ===== verification/FieldGrammar.v ===== *)
(** * What the field parsers accept

    Theorems on the parsers of [FieldParsers]: credentials, ranges, weights
    and media types written in the form of the RFCs are read back, what they
    refuse, and where they differ from what their comments say. *)

From S2P Require Import Prelude IntAcc Headers Base64.
From S2P Require Import EasyParser EasyRules HttpFields HttpGrammar FieldParsers BasicAuth BearerAuth.

(** ** Credentials *)

(** token68 = 1*( ALPHA / DIGIT / "-" / "." / "_" / "~" / "+" / "/" ) *"=" *)
Definition token68_text (y : bytes) : Prop :=
  exists a k, y = a ++ replicate k (chr "=") /\ a <> [] /\ all_in is_token68_char a.

Lemma Forall_replicate {A} (P : A -> Prop) k a : P a -> Forall P (replicate k a).
Proof. intros H. induction k; cbn; by constructor. Qed.

Lemma token68_not_equals r k : at_end r -> stops is_token68_char (replicate k 61 ++ r).
Proof. intros ->. by destruct k. Qed.

Lemma reads_token68 y : token68_text y -> (N.of_nat (length y) < N_)%N -> reads token68_p at_end y y.
Proof.
  intros (a & k & -> & Ha & Hx) Hn. rewrite length_app, length_replicate in Hn.
  eapply (reads_make _ _ _ (fun t => a ++ replicate k (chr "="))); [|done].
  apply creads_last. apply (creads_consume (T := bytes) _ as_result).
  eapply (reads_make _ _ _ (fun t => (t ++ a) ++ replicate k (chr "="))); [|done].
  apply (creads_cons _ _ (stops is_token68_char) _ _ _ (fun t => t ++ a) (fun t => t ++ replicate k (chr "="))).
  - apply creads_run; [done|]. destruct a; [done|]. cbn [length] in *. lia.
  - apply creads_last. eapply creads_weaken.
    + apply (creads_run (fun c => chr "=" =? c)); [by apply Forall_replicate|]. rewrite length_replicate. lia.
    + intros r ->. done.
  - intros r (z & -> & Hz). by apply token68_not_equals.
Qed.

Lemma token68_not_space c : is_token68_char c = true -> is_space c = false.
Proof. intros H. unfold is_space. apply orb_false_iff. rewrite !Z.eqb_neq. split; intros ->; vm_compute in H; done. Qed.

Lemma token68_start y F r : token68_text y -> followed y F r -> stops is_space r.
Proof.
  intros (a & k & -> & Ha & Hx) (z & -> & _). destruct Hx as [|c a Hc _]; [done|]. cbn. by apply token68_not_space.
Qed.

Lemma token68_trimmed y : token68_text y -> trimmed y.
Proof.
  intros (a & k & -> & Ha & Hx). apply (trimmed_Forall (fun c => is_token68_char c || (c =? 61))).
  - intros c [H|H]%orb_true_iff; [by apply token68_not_space|]. apply Z.eqb_eq in H. by subst c.
  - apply Forall_app. split; [eapply Forall_impl; [exact Hx|]; cbn; intros c ->; done|].
    by apply Forall_replicate.
Qed.

(** credentials = auth-scheme 1*SP token68 *)
Lemma reads_authorization scheme sp y :
  token scheme -> spaces sp -> sp <> [] -> token68_text y -> (N.of_nat (length (sp ++ y)) < N_)%N ->
  reads authorization_p at_end (scheme ++ sp ++ y) (mk_authorization (to_lower scheme) (token68 y)).
Proof.
  intros Hs Hsp Hne Hy Hn. rewrite length_app in Hn.
  eapply reads_make; [eapply (creads_cons _ _ (stops is_token_char))|].
  - by eapply creads_consume, reads_transformed, reads_token.
  - apply creads_last, creads_maybe. eapply (creads_cons _ _ (stops is_space)).
    + apply creads_skip_run; [done|]. destruct sp; [done|]. cbn [length] in *. lia.
    + eapply creads_last, creads_consume.
      apply (reads_make (T := auth_param_t) _ _ _ (fun _ => token68 y)); [|done].
      apply creads_last, creads_first, creads_sequence. rewrite <- (app_nil_r y) at 1.
      apply (creads_cons _ _ at_end _ _ _ (fun _ => token68 y) (fun t => t)).
      * apply (creads_consume token68_p (fun _ v => token68 v)), reads_token68; [done | lia].
      * apply creads_last, creads_not, cfails_to_loosely, cfails_head, cfails_consume.
        eapply fails_weaken; [apply fails_symbol | by intros ? ->].
      * by intros r (z & -> & ->).
    + intros r Hr. by eapply token68_start.
  - intros r (z & -> & Hz). destruct Hsp as [|c sp Hc _]; [done|]. cbn.
    destruct (is_token_char c) eqn:E; [|done]. apply token_not_space in E. by rewrite E in Hc.
  - done.
Qed.

Lemma parse_credentials scheme sp y :
  token scheme -> spaces sp -> sp <> [] -> token68_text y -> (N.of_nat (length (sp ++ y)) < N_)%N ->
  try_parse (scheme ++ sp ++ y) authorization_p = Ok (mk_authorization (to_lower scheme) (token68 y)).
Proof.
  intros Hs Hsp Hne Hy Hn. apply try_parse_reads; [|by apply reads_authorization].
  rewrite app_assoc. apply trimmed_app; [|by apply token68_trimmed].
  destruct Hy as (a & k & -> & Ha & _). by destruct a.
Qed.

Lemma encode_token68 bs : bs <> [] -> token68_text (encode bs).
Proof.
  intros Hne. destruct (encode_shape (fun c => is_token68_char c = true) bs) as (a & k & E & Hx & Ha).
  - apply six_forall. vm_compute. reflexivity.
  - exists a, k. auto.
Qed.

Lemma basic_token : token (str "Basic").
Proof. split; [done | repeat constructor]. Qed.
Lemma bearer_token : token (str "Bearer").
Proof. split; [done | repeat constructor]. Qed.

Lemma first_colon user password : chr ":" ∉ user ->
  list_find (fun c => c = chr ":") (user ++ chr ":" :: password) = Some (length user, chr ":").
Proof.
  intros Hu. apply list_find_Some. split; [|split; [done|]].
  - by rewrite lookup_app_r, Nat.sub_diag.
  - intros j y Hj Hlt ->. rewrite lookup_app_l in Hj by done. by apply list_elem_of_lookup_2 in Hj.
Qed.

(** C38 (roundtrip). Basic authentication, from the message to the credentials:
    when the field of a request, found under any spelling of its name or its
    id, is "Basic" and the Base64 text of user ":" password, [try_extract_params]
    gives back that user and that password, for every non-empty user name
    without a colon and every password, colons included. *)
Theorem basic_auth_roundtrip fields k k' user password
  (Hf : wf_fields fields) (Hk : valid_key k /\ valid_key k' /\ caseless (key_name k) (key_name k'))
  (Hu : user <> [] /\ chr ":" ∉ user) (Hb : is_bytes user /\ is_bytes password)
  (Hlen : (N.of_nat (length (encode (user ++ chr ":" :: password))) < N_ - 1)%N) :
  Basic.try_extract_params_from
    (Fields.set_field fields k (str "Basic " ++ encode (user ++ chr ":" :: password))) k'
  = Ok (Basic.mk_params user password).
Proof.
  destruct Hk as (Hk & Hk' & Hc), Hu as [Hu Hcol], Hb as [Hbu Hbp].
  assert (Hne : user ++ chr ":" :: password <> []) by (by destruct user).
  unfold Basic.try_extract_params_from, Fields.opt_value_of.
  rewrite try_get_field_lookup, set_field_lookup, decide_True by (done || by apply set_field_wf).
  unfold Basic.perform_extraction_attempt.
  change (str "Basic " ++ encode (user ++ chr ":" :: password))
    with (str "Basic" ++ [32] ++ encode (user ++ chr ":" :: password)).
  rewrite parse_credentials;
    [|apply basic_token|by repeat constructor|done|by apply encode_token68|rewrite length_app; cbn [length]; lia].
  rewrite bool_decide_eq_true_2 by (vm_compute; reflexivity). cbn [negb].
  unfold Basic.try_extract_params. cbn [auth_param].
  rewrite try_decode_encode; [|by apply Forall_app; split; [|constructor]|done].
  rewrite first_colon by done. destruct (Nat.eqb_spec (length user) 0); [by destruct user|].
  rewrite take_app_length. f_equal. f_equal.
  change (user ++ chr ":" :: password) with (user ++ [chr ":"] ++ password). rewrite app_assoc.
  replace (length user + 1)%nat with (length (user ++ [chr ":"])) by (rewrite length_app; done).
  apply drop_app_length.
Qed.

Lemma basic_auth_roundtrip_witness :
  Basic.try_extract_params_from
    (Fields.set_field [] (ByName (str "authorization"))
      (str "Basic " ++ encode (str "Aladdin" ++ chr ":" :: str "open:sesame"))) (ByName (str "Authorization"))
  = Ok (Basic.mk_params (str "Aladdin") (str "open:sesame")).
Proof.
  apply (basic_auth_roundtrip [] (ByName (str "authorization")) (ByName (str "Authorization"))).
  - constructor.
  - repeat split.
  - split; [discriminate|]. apply (bool_decide_unpack (chr ":" ∉ str "Aladdin")). vm_compute. exact I.
  - split; apply is_bytes_str.
  - vm_compute. reflexivity.
Defined.

(** Bearer authentication gives back the token of a field
    "Bearer" SP token68, whatever it is; but a field that holds the scheme and
    no token at all is not refused as [invalid_bearer_auth_param], the error
    for it: the extraction succeeds with the empty token. *)
Theorem bearer_auth_token y
  (Hy : token68_text y) (Hlen : (N.of_nat (length y) < N_ - 1)%N) :
  Bearer.perform_extraction_attempt (Some (str "Bearer " ++ y)) = Ok y /\
  Bearer.perform_extraction_attempt (Some (str "Bearer")) = Ok [] /\
  ~ token68_text [].
Proof.
  split; [|split; [vm_compute; reflexivity|]].
  - unfold Bearer.perform_extraction_attempt.
    change (str "Bearer " ++ y) with (str "Bearer" ++ [32] ++ y).
    rewrite parse_credentials;
      [|apply bearer_token|by repeat constructor|done|done|rewrite length_app; cbn [length]; lia].
    rewrite bool_decide_eq_true_2 by (vm_compute; reflexivity). done.
  - intros (a & k & E & Ha & _). symmetry in E. by apply app_nil in E as [-> _].
Qed.

Lemma bearer_auth_token_witness :
  Bearer.perform_extraction_attempt (Some (str "Bearer " ++ str "mF_9.B5f-4.1JqM")) = Ok (str "mF_9.B5f-4.1JqM").
Proof.
  apply (bearer_auth_token (str "mF_9.B5f-4.1JqM")).
  - exists (str "mF_9.B5f-4.1JqM"), 0%nat. split; [vm_compute; reflexivity|]. split; [discriminate|].
    repeat constructor.
  - vm_compute. reflexivity.
Defined.

(** ** Weighted items *)

(** token [ weight ], 1000 when there is no weight *)
Definition weighted_text (x : bytes) (i : weighted_item_t) : Prop :=
  exists n w, x = n ++ w /\ token n /\ item_name i = to_lower n /\
    ((w = [] /\ item_weight i = mk_qvalue 1000) \/ exists q, weight_text w q /\ item_weight i = mk_qvalue q).

Lemma no_element_qvalue r : after_element r -> after_qvalue r.
Proof.
  apply after_element_stops. intros c H.
  assert (Hc : is_digit c = true \/ c = 46).
  { destruct (is_digit c); [by left | right]. by apply Z.eqb_eq. }
  unfold is_digit, is_space, SP, HTAB in *. change (chr "0") with 48 in *. change (chr "9") with 57 in *.
  split; [|intros ->; destruct Hc; done].
  apply orb_false_iff. rewrite !Z.eqb_neq. destruct Hc as [Hc| ->]; [to_prop; lia | lia].
Qed.

Lemma weight_head w q F r : weight_text w q -> followed w F r -> stops is_token_char r.
Proof.
  intros (w1 & w2 & c & y & -> & Hw & _) (z & -> & _). rewrite <- app_assoc.
  by apply spaces_stop; [intros ? ?%token_not_space| |].
Qed.

Lemma weight_not_empty w q : weight_text w q -> w <> [].
Proof. intros (w1 & w2 & c & y & -> & _). by destruct w1. Qed.

Lemma weight_absent r : after_element r -> forall T (k : consumer T qvalue_t),
  cfails_loosely (all_of [consume_value_clause weight_p k]) (eq r).
Proof.
  intros (w & r' & -> & Hw & Hr) T k. apply cfails_to_loosely, cfails_head, cfails_consume.
  apply fails_produce, cfails_to_loosely.
  apply cfails_ows_symbol; [done | by apply no_element_space |].
  destruct r' as [|c r']; [done|]. cbn in Hr. apply negb_false_iff, Z.eqb_eq in Hr. by subst c.
Qed.

#[global] Instance weighted_element : ListElement (weighted_p (lowered token_p)) weighted_text.
Proof.
  split.
  - intros x [n' q'] (n & w & -> & Hn & En & Hw). cbn in En, Hw. subst n'.
    eapply reads_make; [eapply (creads_cons _ _ (stops is_token_char))|].
    + by eapply creads_consume, reads_transformed, reads_token.
    + apply creads_last. instantiate (1 := fun i => if decide (w = []) then i else mk_item (item_name i) q').
      destruct Hw as [(-> & _)|(q & Hw & ->)].
      * apply (creads_ext _ _ _ (fun t => t)); [|intros t; by destruct (decide _)]. intros s r t Hs E Hr.
        by apply (creads_maybe_not _ (eq r) (weight_absent r Hr _ _) s r t Hs E).
      * apply (creads_ext _ _ _ (fun i => mk_item (item_name i) (mk_qvalue q)));
          [|intros t; cbn; by rewrite (decide_False (P := w = [])) by (by eapply weight_not_empty)].
        apply creads_maybe, creads_last, (creads_consume weight_p set_weight).
        eapply reads_weaken; [by apply reads_weight | apply no_element_qvalue].
    + intros r Hr. destruct Hw as [(-> & _)|(q & Hw & _)]; [|by eapply weight_head].
      destruct Hr as (z & -> & Hz). revert Hz. apply after_element_stops, token_not_element.
    + cbn. destruct Hw as [(-> & ->)|(q & Hw & ->)]; [done|].
      by rewrite (decide_False (P := w = [])) by (by eapply weight_not_empty).
  - apply fails_produce, cfails_to_loosely, cfails_head, cfails_consume, fails_transformed.
    eapply fails_weaken; [apply fails_token|]. intros [|c r]; [done|]. intros H%negb_false_iff%Z.eqb_eq. by subst c.
  - intros x i (n & w & -> & [Hne Hn] & _). destruct Hn as [|c n Hc _]; [done|].
    apply token_not_element in Hc as []. by exists c, (n ++ w).
Qed.

(** The list has no spaces behind its last element. *)
Lemma tail_text_nil {A} (l : list (tail_item (A := A))) : tail_text l = [] -> l = [].
Proof. destruct l as [|i l]; [done|]. unfold tail_text, tail_item_text. cbn. by destruct (before_comma i). Qed.

(** Accept-Encoding, Accept-Charset: a value made of codings
    or charsets, each possibly with a weight, separated by commas with any
    spaces and empty places, is parsed to the vector of the names in lower case
    with their weights in thousandths, and 1000 where no weight is given. *)
Theorem accept_encoding_parses x i l
  (Hx : weighted_text x i) (Hl : Forall (tail_item_ok weighted_text) l)
  (Ht : trimmed (x ++ tail_text l)) (Hn : (N.of_nat (length l) < N_)%N) :
  try_parse (x ++ tail_text l) accept_encoding_p = Ok (i :: tail_values l) /\
  try_parse (x ++ tail_text l) accept_charset_p = Ok (i :: tail_values l) /\
  try_parse [] accept_encoding_p = Ok [] /\
  exists e, try_parse [] accept_charset_p = Err e.
Proof.
  split; [|split; [|split]].
  - apply try_parse_reads; [done|].
    eapply (reads_make _ _ _ (fun _ => i :: tail_values l)); [|done].
    apply creads_last, (creads_consume _ as_result).
    by apply (maybe_empty_list_reads _ weighted_text (Some (x, i)) l).
  - apply try_parse_reads; [done|].
    eapply (reads_make _ _ _ (fun _ => i :: tail_values l)); [|done].
    apply creads_last, (creads_consume _ as_result).
    apply (non_empty_list_reads (weighted_p (lowered token_p)) weighted_text [] x i l); done.
  - vm_compute. reflexivity.
  - eexists. vm_compute. reflexivity.
Qed.

Lemma accept_encoding_parses_witness :
  try_parse (str "gzip;q=0.8, ,BR") accept_encoding_p =
    Ok [mk_item (str "gzip") (mk_qvalue 800); mk_item (str "br") (mk_qvalue 1000)].
Proof.
  apply (accept_encoding_parses (str "gzip;q=0.8") (mk_item (str "gzip") (mk_qvalue 800))
    [mk_tail [] None; mk_tail [32] (Some ([], str "BR", mk_item (str "br") (mk_qvalue 1000)))]).
  - exists (str "gzip"), (str ";q=0.8"). split; [reflexivity|]. split; [by split; [|repeat constructor]|].
    split; [reflexivity|]. right. exists 800. split; [|reflexivity].
    exists [], [], (chr "q"), (str "0.8"). split; [reflexivity|]. split; [constructor|]. split; [constructor|].
    split; [reflexivity|]. apply (qv_fraction (str "8")); [repeat constructor | cbn; lia].
  - repeat constructor. exists (str "BR"), []. split; [reflexivity|].
    split; [by split; [|repeat constructor]|]. split; [reflexivity | by left].
  - reflexivity.
  - reflexivity.
Defined.

(** ** Ranges *)

(** byte-range = first-byte-pos "-" [ last-byte-pos ],
    suffix-byte-range-spec = "-" suffix-length *)
Definition range_text (v : byte_range_spec_t) : bytes :=
  match v with
  | double_ended_range first last => print_llu first ++ [45] ++ print_llu last
  | open_ended_range first => print_llu first ++ [45]
  | suffix_length length => [45] ++ print_llu length
  end.
Definition range_fits (w : Z) (v : byte_range_spec_t) : Prop :=
  match v with
  | double_ended_range first last => 0 <= first < 2 ^ w /\ 0 <= last < 2 ^ w
  | open_ended_range n | suffix_length n => 0 <= n < 2 ^ w
  end.

Lemma print_llu_start n : 0 <= n -> exists c y, print_llu n = c :: y /\ is_digit c = true.
Proof.
  intros Hn. pose proof (print_llu_loop_digits 20 n Hn) as H. fold (print_llu n) in H.
  assert (Hne : print_llu n <> []).
  { unfold print_llu. change 20%nat with (S 19). cbn [print_llu_loop].
    destruct (n <? 10); [done|]. intros E%app_eq_nil. by destruct E. }
  destruct (print_llu n) as [|c y]; [done|]. exists c, y. split; [done|]. by apply Forall_inv in H.
Qed.

Section Ranges.
Context (w : Z) (Hw : 0 < w <= 64) (Hw10 : 10 <= 2 ^ w).
Let T := mk_int_type w false.

Lemma digit_not_element c : is_digit c = true -> is_space c = false /\ c <> 44.
Proof.
  unfold is_digit, is_space, SP, HTAB. change (chr "0") with 48. change (chr "9") with 57. intros H. to_prop.
  split; [|lia]. apply orb_false_iff. rewrite !Z.eqb_neq. lia.
Qed.

(** A number and a dash, whatever is done with the number. *)
Lemma creads_number_dash {U} (k : consumer U Z) (cs : list (clause U)) n F y f :
  0 <= n < 2 ^ w -> creads (all_of cs) F y f ->
  creads (all_of (consume_value_clause (non_negative_decimal_number_p T) k :: symbol (chr "-") :: cs)) F
    (print_llu n ++ [45] ++ y) (fun t => f (k t n)).
Proof using Hw Hw10.
  intros Hn Hcs. eapply (creads_cons _ _ (stops is_digit) _ _ _ (fun t => k t n) f).
  - by apply creads_consume, reads_print_llu.
  - by apply (creads_cons _ _ anything _ [45] _ (fun t => t) f); [apply creads_symbol| |].
  - by follows.
Qed.

(** The alternatives that begin with a number fail on a dash. *)
Lemma cfails_number_first {U V} (k : consumer U V) (q : consumer V Z) (cs : list (clause V)) `{Default V} F :
  (forall r, F r -> stops is_digit r) ->
  cfails_loosely (consume_value_clause (produce V (consume_value_clause (non_negative_decimal_number_p T) q :: cs)) k) F.
Proof.
  intros HF. apply cfails_to_loosely, cfails_consume, fails_produce, cfails_to_loosely, cfails_head, cfails_consume.
  eapply fails_weaken; [apply fails_number | done].
Qed.

Lemma reads_range_spec v : range_fits w v -> reads (byte_range_spec_p T) (stops is_digit) (range_text v) v.
Proof using Hw Hw10.
  intros Hv. apply (reads_make _ _ _ (fun _ => v)); [|done]. apply creads_last.
  destruct v as [first last|first|length]; cbn [range_text range_fits] in *.
  - destruct Hv as [Hf Hl]. apply creads_first.
    apply (creads_consume _ (fun _ r => double_ended_range r.1 r.2) _ _ (first, last)).
    eapply reads_make; [apply creads_number_dash; [done|]; by eapply creads_last, creads_consume, reads_print_llu | done].
  - apply creads_next.
    + apply cfails_to_loosely, cfails_consume, fails_produce.
      eapply cfails_loosely_weaken; [eapply (cfails_tail_loosely _ _ (stops is_digit))|intros r Hr; by apply followed_app].
      * by eapply creads_consume, reads_print_llu.
      * apply cfails_to_loosely.
        apply (cfails_tail _ _ anything (stops is_digit) [45]); [apply creads_symbol| |done].
        apply cfails_head, cfails_consume, fails_number.
      * by intros r (z & -> & _).
    + apply creads_first, (creads_consume _ (fun _ first => open_ended_range first)).
      eapply reads_make; [apply (creads_number_dash as_result [] first _ [] (fun t => t)); [done | apply creads_nil] | done].
  - apply creads_next; [apply cfails_number_first; by follows|].
    apply creads_next; [apply cfails_number_first; by follows|].
    apply creads_first, (creads_consume _ (fun _ length => suffix_length length)).
    eapply reads_make; [eapply (creads_cons _ _ anything); [apply creads_symbol| |done]|].
    + by eapply creads_last, creads_consume, reads_print_llu.
    + done.
Qed.

#[local] Instance range_element : ListElement (byte_range_spec_p T) (fun x v => range_fits w v /\ x = range_text v).
Proof using Hw Hw10.
  split.
  - intros x v [Hv ->]. eapply reads_weaken; [by apply reads_range_spec|].
    intros r. apply after_element_stops, digit_not_element.
  - assert (Hd : forall r, no_element r -> stops is_digit r).
    { intros [|c r]; [done|]. intros H%negb_false_iff%Z.eqb_eq. by subst c. }
    apply fails_produce, cfails_to_loosely, cfails_head, cfails_alternatives.
    constructor; [by apply cfails_number_first|]. constructor; [by apply cfails_number_first|]. constructor; [|done].
    apply cfails_to_loosely, cfails_consume, fails_produce, cfails_to_loosely, cfails_head.
    eapply cfails_weaken; [apply cfails_symbol|]. intros [|c r]; [done|]. intros H%negb_false_iff%Z.eqb_eq. by subst c.
  - intros x v [Hv ->]. destruct v as [first last|first|length]; cbn [range_text range_fits] in *.
    + destruct (print_llu_start first) as (c & y & -> & Hc); [lia|]. exists c, (y ++ 45 :: print_llu last).
      split; [done|]. by apply digit_not_element.
    + destruct (print_llu_start first) as (c & y & -> & Hc); [lia|]. exists c, (y ++ [45]).
      split; [done|]. by apply digit_not_element.
    + by exists 45, (print_llu length).
Qed.

Lemma parse_ranges ws v l :
  Forall (Forall (fun c => is_space c = true)) ws -> range_fits w v ->
  Forall (tail_item_ok (fun x v => range_fits w v /\ x = range_text v)) l ->
  (N.of_nat (length ws) < N_)%N /\ (N.of_nat (length l) < N_)%N ->
  trimmed (str "bytes=" ++ leads_text ws ++ range_text v ++ tail_text l) ->
  try_parse (str "bytes=" ++ leads_text ws ++ range_text v ++ tail_text l) (range_p T) =
    Ok (byte_ranges_specifier (v :: tail_values l)).
Proof using Hw Hw10.
  intros Hws Hv Hl Hn Ht. apply try_parse_reads; [done|].
  apply (reads_make _ _ _ (fun _ => byte_ranges_specifier (v :: tail_values l))); [|done].
  apply creads_last, creads_first, (creads_consume _ (fun _ ranges => byte_ranges_specifier ranges)).
  eapply reads_make; [eapply (creads_cons _ _ anything _ (str "bytes=")); [| |done]|].
  - apply creads_sequence.
    apply (creads_cons _ _ anything _ (str "bytes") (str "=") (fun t => t) (fun t => t)); [apply creads_exact| |done].
    apply creads_last, creads_symbol.
  - eapply creads_last, creads_forced, creads_last, creads_consume.
    by apply (non_empty_list_reads (byte_range_spec_p T) (fun x v => range_fits w v /\ x = range_text v)).
  - done.
Qed.
End Ranges.

(** Range: any non-empty set of byte ranges, written as RFC
    7233 writes them, "bytes=" and ranges first "-" last, first "-" and "-" length
    separated by commas with any spaces and empty places, is parsed to the
    vector of the same ranges in the same order, every bound being exact up to
    the largest value of the 64-bit type. *)
Theorem byte_ranges_roundtrip ws v l
  (Hws : Forall (Forall (fun c => is_space c = true)) ws) (Hv : range_fits 64 v)
  (Hl : Forall (tail_item_ok (fun x v => range_fits 64 v /\ x = range_text v)) l)
  (Hn : (N.of_nat (length ws) < N_)%N /\ (N.of_nat (length l) < N_)%N)
  (Ht : trimmed (str "bytes=" ++ leads_text ws ++ range_text v ++ tail_text l)) :
  try_parse (str "bytes=" ++ leads_text ws ++ range_text v ++ tail_text l) (range_p uint64_type) =
    Ok (byte_ranges_specifier (v :: tail_values l)).
Proof. by apply (parse_ranges 64). Qed.

Lemma byte_ranges_roundtrip_witness :
  try_parse (str "bytes=,0-499, -500") (range_p uint64_type) =
    Ok (byte_ranges_specifier [double_ended_range 0 499; suffix_length 500]).
Proof.
  apply (byte_ranges_roundtrip [[]] (double_ended_range 0 499)
    [mk_tail [] (Some ([32], str "-500", suffix_length 500))]).
  - repeat constructor.
  - cbn. lia.
  - repeat constructor; cbn; lia.
  - split; reflexivity.
  - reflexivity.
Defined.

(** A value that begins with "bytes=" is never taken for ranges of
    another unit: the parser either gives byte ranges or refuses it, whatever
    follows, because the alternative is forced once the prefix is read. *)
Theorem bytes_unit_is_committed T x
  (Ht : trimmed (str "bytes=" ++ x)) :
  match try_parse (str "bytes=" ++ x) (range_p T) with
  | Ok (byte_ranges_specifier _) => True
  | Ok (other_ranges_specifier _ _) => False
  | Err _ => True
  end.
Proof.
  unfold try_parse. rewrite trimmed_id by done.
  assert (Hp : forall U (t : U), bytes_prefix (source (str "bytes=" ++ x)) t =
    (None, advance 6 (source (str "bytes=" ++ x)), t)).
  { intros U t. assert (H : creads (T := U) bytes_prefix anything (str "bytes=") (fun t => t)).
    { apply creads_sequence.
      apply (creads_cons _ _ anything _ (str "bytes") (str "=") (fun t => t) (fun t => t)); [apply creads_exact| |done].
      apply creads_last, creads_symbol. }
    by apply (H _ x); [apply valid_source| |]. }
  unfold range_p, produce at 1. cbn [all_of]. unfold alternatives. cbn [any_of].
  unfold consume_value_clause at 1. unfold byte_ranges_specifier_p, produce. cbn [all_of]. rewrite Hp.
  unfold force_only_this_alternative. destruct (sequence _ _ _) as [[[e|] s1] t1]; cbn [all_of]; [done|].
  cbn -[ensure_no_remaining_content]. by destruct (ensure_no_remaining_content s1) as [[e|] s2].
Qed.

Lemma bytes_unit_is_committed_witness :
  match try_parse (str "bytes=a-b") (range_p uint64_type) with
  | Ok (byte_ranges_specifier _) => True
  | Ok (other_ranges_specifier _ _) => False
  | Err _ => True
  end /\
  try_parse (str "lines=a-b") (range_p uint64_type) = Ok (other_ranges_specifier (str "lines") (str "a-b")).
Proof.
  split; [|vm_compute; reflexivity].
  apply (bytes_unit_is_committed uint64_type (str "a-b")). reflexivity.
Defined.

(** ** Media types *)

Lemma params_follow_token l r : Forall (fun xp => param_text xp.1 xp.2) l ->
  followed (mjoin l.*1) after_params r -> stops is_token_char r.
Proof. intros Hl Hr. eapply params_stop; [done..|]. by intros ? []. Qed.

(** media-type = type "/" subtype *( OWS ";" OWS parameter ) *)
Lemma reads_media_type ty sub l :
  token ty -> token sub -> Forall (fun xp => param_text xp.1 xp.2) l -> (N.of_nat (length l) < N_)%N ->
  reads media_type_p after_params (ty ++ [47] ++ sub ++ mjoin l.*1) (mk_media (to_lower ty) (to_lower sub) l.*2).
Proof.
  intros Ht Hs Hl Hn. eapply reads_make; [eapply (creads_cons _ _ (stops is_token_char))|].
  - by eapply creads_consume, reads_transformed, reads_token.
  - eapply (creads_cons _ _ anything _ [47] _ (fun t => t)); [apply creads_symbol| |done].
    eapply (creads_cons _ _ (stops is_token_char)).
    + by eapply creads_consume, reads_transformed, reads_token.
    + by eapply creads_last, creads_consume, reads_params.
    + intros r. by apply params_follow_token.
  - by follows.
  - done.
Qed.

Lemma token_end n : token n -> ends_well n.
Proof. intros [Hn Hx]. split; [done|]. by apply (trimmed_Forall is_token_char); [apply token_not_space|]. Qed.

Lemma param_text_end x p : param_text x p -> ends_well x.
Proof.
  intros (w1 & w2 & n & y & -> & _ & _ & _ & Hy & _). do 5 apply ends_well_app.
  destruct Hy as [[Hn _]|(z & -> & _)]; [by apply token_end|].
  by apply (ends_well_app (34 :: z) [34]).
Qed.

Lemma params_end l : Forall (fun xp => param_text xp.1 xp.2) l -> l <> [] -> ends_well (mjoin l.*1).
Proof.
  induction 1 as [|[x p] l Hx Hl IH]; [done|]. intros _. apply param_text_end in Hx.
  change (mjoin ((x, p) :: l).*1) with (x ++ mjoin l.*1).
  destruct l as [|i l]; [cbn; by rewrite app_nil_r|]. by apply ends_well_app, IH.
Qed.

(** Content-Type: type "/" subtype and parameters, each a name
    and a token or quoted string, with any spaces around the semicolons, is
    parsed to the type and subtype in lower case and the parameters in their
    order, the names in lower case and the values exactly as the quoting means them. *)
Theorem content_type_roundtrip ty sub l
  (Ht : token ty) (Hs : token sub) (Hl : Forall (fun xp => param_text xp.1 xp.2) l)
  (Hn : (N.of_nat (length l) < N_)%N) :
  try_parse (ty ++ [47] ++ sub ++ mjoin l.*1) content_type_p = Ok (mk_media (to_lower ty) (to_lower sub) l.*2).
Proof.
  apply try_parse_reads.
  - do 2 apply ends_well_app. destruct l as [|i l]; [|by apply ends_well_app, params_end].
    cbn. rewrite app_nil_r. by apply token_end.
  - eapply (reads_make _ _ _ (fun _ => mk_media (to_lower ty) (to_lower sub) l.*2)); [|done].
    apply creads_last, (creads_consume media_type_p as_result).
    eapply reads_weaken; [by apply reads_media_type | apply after_params_end].
Qed.

(** A parameter name in capitals and a quoted value with an escaped quote. *)
Lemma content_type_roundtrip_witness :
  try_parse (str "Text/HTML ; CHARSET=" ++ [34; 97; 92; 34; 34]) content_type_p =
    Ok (mk_media (str "text") (str "html") [(str "charset", [97; 34])]).
Proof.
  apply (content_type_roundtrip (str "Text") (str "HTML")
    [(str " ; CHARSET=" ++ [34; 97; 92; 34; 34], (str "charset", [97; 34]))]).
  - split; [done | repeat constructor].
  - split; [done | repeat constructor].
  - constructor; [|constructor]. exists [32], [32], (str "CHARSET"), [34; 97; 92; 34; 34].
    split; [reflexivity|]. split; [repeat constructor|]. split; [repeat constructor|].
    split; [split; [done | repeat constructor]|]. split; [|reflexivity].
    right. exists [97; 92; 34]. split; [reflexivity|]. by repeat constructor.
  - reflexivity.
Defined.

(** ** What the fields hold, whatever the input *)

Lemma token_loop_sound fuel : forall s acc, all_in is_token_char acc ->
  all_in is_token_char (token_loop fuel s acc).2.
Proof.
  induction fuel as [|fuel IH]; intros s acc Ha; cbn [token_loop]; [done|].
  destruct (getch s) as [ch s1]. destruct (m_eof ch); [done|].
  destruct (is_token_char (m_ch ch)) eqn:E; [|done]. cbn [negb]. apply IH.
  apply Forall_app. split; [done | by constructor].
Qed.

Lemma yields_token : yields token_p token.
Proof.
  intros s v s'. unfold token_p. pose proof (token_loop_sound (fuel_of s) s [] ltac:(constructor)) as H.
  destruct (token_loop (fuel_of s) s []) as [[reason s1] acc]. cbn in H.
  destruct acc as [|c acc]; [done|]. by intros [= <- _].
Qed.

(** A name as the parsers make it: a token without capital letters. *)
Definition lower_token (n : bytes) : Prop := token n /\ to_lower n = n.

Lemma to_lower_char c : is_token_char c = true ->
  is_token_char (to_lower_case c) = true /\ to_lower_case (to_lower_case c) = to_lower_case c.
Proof.
  intros H. assert (Hb : is_byte c).
  { unfold is_token_char, is_alpha, is_digit in H. change (chr "0") with 48 in H. change (chr "9") with 57 in H.
    unfold is_byte. apply orb_prop in H as [H|H]; [to_prop; lia|].
    apply existsb_exists in H as (d & Hd & ->%Z.eqb_eq). revert d Hd.
    intros d Hd%list_elem_of_In. revert d Hd. apply Forall_forall, (is_bytes_str "!#$%&'*+-.^_`|~"). }
  revert c Hb H. assert (Hall : forall c, is_byte c -> negb (is_token_char c) ||
    (is_token_char (to_lower_case c) && (to_lower_case (to_lower_case c) =? to_lower_case c)) = true).
  { apply byte_forall. vm_compute. reflexivity. }
  intros c Hb H. specialize (Hall c Hb). rewrite H in Hall. cbn in Hall. by to_prop.
Qed.

Lemma lower_token_of n : token n -> lower_token (to_lower n).
Proof.
  intros [Hn Hx]. unfold lower_token, token, to_lower. split; [split|].
  - by destruct n.
  - apply Forall_fmap. eapply Forall_impl; [exact Hx|]. intros c Hc. by apply to_lower_char.
  - rewrite <- list_fmap_compose. apply list_fmap_ext. intros i c Hc.
    apply to_lower_char. by eapply Forall_lookup_1 in Hx.
Qed.

Lemma triple_list_tail {A} (p : producer A) (Q : A -> Prop) : yields p Q ->
  triple (Forall Q) (list_tail (C := list A) p) (Forall Q) (Forall Q).
Proof.
  intros Hp. apply triple_repeat.
  eapply triple_cons; [apply triple_skip|].
  eapply triple_cons; [apply triple_symbol|].
  apply triple_last, triple_maybe; [|done].
  eapply triple_cons; [eapply triple_true, triple_skip|].
  apply triple_last. eapply triple_true, triple_consume; [exact Hp|].
  intros t v Ht Hv. apply Forall_app. split; [done | by constructor].
Qed.

Lemma triple_element {A} (p : producer A) (Q : A -> Prop) : yields p Q ->
  triple (Forall Q) (consume_value_clause p (to_container (T := list A))) (Forall Q) (Forall Q).
Proof.
  intros Hp. eapply triple_consume; [exact Hp|]. intros t v Ht Hv. apply Forall_app. split; [done | by constructor].
Qed.

Lemma yields_non_empty_list {A} (p : producer A) (Q : A -> Prop) : yields p Q ->
  yields (non_empty_comma_separated_list_p (C := list A) p) (fun l => Forall Q l /\ l <> []).
Proof.
  intros Hp s l s'. unfold non_empty_comma_separated_list_p.
  assert (H : triple (fun t : list A => t = []) (sequence [repeat 0 N_ [symbol (chr ","); ows];
    consume_value_clause p to_container; list_tail p]) (fun l => Forall Q l /\ l <> []) (fun t => t = [])).
  { apply triple_sequence.
    eapply triple_cons; [eapply triple_true, triple_repeat|].
    { eapply triple_cons; [apply triple_symbol|]. apply triple_last. apply triple_skip. }
    apply (triple_cons _ _ _ (fun l => Forall Q l /\ l <> [])).
    - eapply triple_true, triple_consume; [exact Hp|]. intros t v -> Hv. split; [by constructor | done].
    - apply triple_last. apply triple_true with (fun l => Forall Q l /\ l <> []). intros s1 t [Ht Hn].
      assert (Hk : triple (fun t => Forall Q t /\ t <> []) (list_tail (C := list A) p)
        (fun t => Forall Q t /\ t <> []) (fun t => Forall Q t /\ t <> [])); [|by apply Hk].
      apply triple_repeat.
      eapply triple_cons; [apply triple_skip|].
      eapply triple_cons; [apply triple_symbol|].
      apply triple_last, triple_maybe; [|done].
      eapply triple_cons; [eapply triple_true, triple_skip|].
      apply triple_last. eapply triple_true, triple_consume; [exact Hp|].
      intros t' v [Ht' Hn'] Hv. split; [apply Forall_app; split; [done | by constructor] | by destruct t']. }
  specialize (H s default_value eq_refl). destruct (sequence _ s _) as [[[e|] s1] t1]; [done|].
  by intros [= <- _].
Qed.

Lemma yields_maybe_empty_list {A} (p : producer A) (Q : A -> Prop) : yields p Q ->
  yields (maybe_empty_comma_separated_list_p (C := list A) p) (Forall Q).
Proof.
  intros Hp s l s'. unfold maybe_empty_comma_separated_list_p.
  assert (H : triple (Forall Q) (maybe [alternatives [symbol (chr ","); consume_value_clause p to_container];
    list_tail p]) (Forall Q) (Forall Q)).
  { apply triple_maybe; [|done]. eapply triple_cons.
    - eapply triple_true, triple_alternatives. repeat constructor.
      + eapply triple_true, triple_symbol.
      + by eapply triple_true, triple_element.
    - by eapply triple_true, triple_last, triple_list_tail. }
  specialize (H s default_value ltac:(constructor)). destruct (maybe _ s _) as [[[e|] s1] t1]; [done|].
  by intros [= <- _].
Qed.

(** A weighted name as the code may rely on it. *)
Definition typed_item (i : weighted_item_t) : Prop := lower_token (item_name i) /\ 0 <= as_uint (item_weight i) <= 1000.

Lemma yields_weighted : yields (weighted_p (lowered token_p)) typed_item.
Proof.
  eapply yields_produce.
  apply (triple_cons _ _ _ (fun i => lower_token (item_name i) /\ item_weight i = mk_qvalue 1000)).
  - eapply triple_true, triple_consume; [eapply yields_transformed; [apply yields_token | apply lower_token_of]|].
    intros t v -> Hv. done.
  - apply triple_last, triple_maybe.
    + apply triple_last. eapply triple_true, triple_consume; [apply yields_weight_range|].
      intros t v [Ht _] Hv. done.
    + intros t [Ht E]. split; [done|]. rewrite E. cbn. lia.
Qed.

(** C40 (type). Whatever the bytes of the field, a value that the parsers of
    Accept-Encoding and Accept-Charset accept consists of names that are
    non-empty tokens in lower case and weights between 0 and 1000, and the
    list of charsets is not empty. *)
Theorem weighted_lists_typed x l :
  (try_parse x accept_encoding_p = Ok l -> Forall typed_item l) /\
  (try_parse x accept_charset_p = Ok l -> Forall typed_item l /\ l <> []).
Proof.
  split; intros H.
  - apply (try_parse_yields accept_encoding_p (Forall typed_item) x l); [|done].
    eapply yields_produce, triple_last, triple_true, triple_consume;
      [apply yields_maybe_empty_list, yields_weighted | done].
  - apply (try_parse_yields accept_charset_p (fun l => Forall typed_item l /\ l <> []) x l); [|done].
    eapply yields_produce, triple_last, triple_true, triple_consume;
      [apply yields_non_empty_list, yields_weighted | done].
Qed.

Lemma weighted_lists_typed_witness :
  Forall typed_item [mk_item (str "br") (mk_qvalue 10)].
Proof.
  exact (proj1 (weighted_lists_typed (str ",,BR; q=0.01") [mk_item (str "br") (mk_qvalue 10)])
    ltac:(vm_compute; reflexivity)).
Defined.

(** ** What is refused *)

(** The spaces around "=" that the rule of a transfer-parameter, quoted in
    [transfer-encoding.hpp], allows, and those behind "=" in the rule quoted for
    [params_with_value_p], are refused. *)
Theorem spaces_around_equals_refused :
  (exists e, try_parse (str "x;a = b") transfer_encoding_p = Err e) /\
  (exists e, try_parse (str ";a= b") params_with_value_p = Err e) /\
  (exists e, try_parse (str ";a= b") params_with_opt_value_p = Err e) /\
  try_parse (str "x;a=b") transfer_encoding_p = Ok [transfer_extension (str "x") [(str "a", str "b")]].
Proof. vm_compute. by repeat (eexists || split). Qed.

(** A number of more than 127 digits is not read to its end, although the
    limit is called [unlimited_max]. *)
Theorem digits_are_limited :
  try_parse (str "bytes=" ++ replicate 126 48 ++ str "1-") (range_p uint64_type)
    = Ok (byte_ranges_specifier [open_ended_range 1]) /\
  exists e, try_parse (str "bytes=" ++ replicate 127 48 ++ str "1-") (range_p uint64_type) = Err e.
Proof. vm_compute. split; [done | by eexists]. Qed.
