(* ===== verification/Host.v ===== *)
(** * The Host field

    [restinio/helpers/http_field_parsers/host.hpp]: a registered name, an IPv4
    address or an IPv6 address in brackets, possibly with a port. *)

From S2P Require Import Prelude IntAcc Headers.
From S2P Require Import EasyParser EasyRules HttpFields HttpGrammar FieldParsers FieldGrammar.

(*@ helpers/http_field_parsers/host.hpp 44-58 unreserved_predicate_t *)
Definition is_unreserved (ch : Z) : bool := is_alpha ch || is_digit ch || existsb (Z.eqb ch) (str "-._~").
(*@ helpers/http_field_parsers/host.hpp 88-107 sub_delims_predicate_t *)
Definition is_sub_delim (ch : Z) : bool := existsb (Z.eqb ch) (str "!$&'()*+,;=").

Definition collect (pred : Z -> bool) : clause bytes := consume_value_clause (symbol_producer pred) to_container.
(** [symbol_p(c)], [symbol_from_range_p(a, b)] *)
Definition this (c : Z) (ch : Z) : bool := c =? ch.
Definition between (a b : Z) (ch : Z) : bool := (schar a <=? schar ch) && (schar ch <=? schar b).

(** [dec_octet] of [ipv4_address_p] *)
Definition dec_octet : producer bytes :=
  produce bytes
    [alternatives
      [sequence [collect (this (chr "2")); collect (this (chr "5")); collect (between (chr "0") (chr "5"))];
       sequence [collect (this (chr "2")); collect (between (chr "0") (chr "4")); collect is_digit];
       sequence [collect (this (chr "1")); collect is_digit; collect is_digit];
       sequence [collect (between (chr "1") (chr "9")); collect is_digit];
       collect is_digit]].

(*@ helpers/http_field_parsers/host.hpp 147-185 ipv4_address_p *)
Definition ipv4_address_p : producer bytes :=
  produce bytes
    [consume_value_clause dec_octet to_container; collect (this (chr "."));
     consume_value_clause dec_octet to_container; collect (this (chr "."));
     consume_value_clause dec_octet to_container; collect (this (chr "."));
     consume_value_clause dec_octet to_container].

(** The parts of [ipv6_address_p]. *)
Definition h16 : producer bytes := produce bytes [repeat 1 4 [collect is_hexdigit]].
Definition h16_with_colon : clause bytes :=
  sequence [consume_value_clause h16 to_container; collect (this (chr ":")); not_clause [symbol (chr ":")]].
Definition ls32 : producer bytes :=
  produce bytes
    [alternatives
      [sequence [consume_value_clause h16 to_container; collect (this (chr ":")); consume_value_clause h16 to_container];
       consume_value_clause ipv4_address_p as_result]].
Definition double_colon : clause bytes :=
  consume_value_clause (transformed_value_producer (exact_p (str "::")) (just (str "::"))) to_container.

(*@ helpers/http_field_parsers/host.hpp 233-328 ipv6_address_p *)
Definition ipv6_address_p : producer bytes :=
  produce bytes
    [alternatives
      [sequence [repeat 6 6 [h16_with_colon]; consume_value_clause ls32 to_container];
       sequence [double_colon; repeat 5 5 [h16_with_colon]; consume_value_clause ls32 to_container];
       sequence [maybe [consume_value_clause h16 to_container]; double_colon; repeat 4 4 [h16_with_colon];
                 consume_value_clause ls32 to_container];
       sequence [maybe [repeat 0 1 [h16_with_colon]; consume_value_clause h16 to_container]; double_colon;
                 repeat 3 3 [h16_with_colon]; consume_value_clause ls32 to_container];
       sequence [maybe [repeat 0 2 [h16_with_colon]; consume_value_clause h16 to_container]; double_colon;
                 repeat 2 2 [h16_with_colon]; consume_value_clause ls32 to_container];
       sequence [maybe [repeat 0 3 [h16_with_colon]; consume_value_clause h16 to_container]; double_colon;
                 h16_with_colon; consume_value_clause ls32 to_container];
       sequence [maybe [repeat 0 4 [h16_with_colon]; consume_value_clause h16 to_container]; double_colon;
                 consume_value_clause ls32 to_container];
       sequence [maybe [repeat 0 5 [h16_with_colon]; consume_value_clause h16 to_container]; double_colon;
                 consume_value_clause h16 to_container];
       sequence [maybe [repeat 0 6 [h16_with_colon]; consume_value_clause h16 to_container]; double_colon]]].

(*@ helpers/http_field_parsers/host.hpp 351-365 reg_name_p *)
Definition reg_name_p : producer bytes :=
  produce bytes
    [repeat 1 N_
      [alternatives
        [collect is_unreserved;
         consume_value_clause pct_encoded_symbols_p pct_encoded_symbols_consumer;
         collect is_sub_delim]]].

(*@ helpers/http_field_parsers/host.hpp 389-488 raw_host_value_t::host_value_t *)
Inductive host_value_t : Type :=
| reg_name (v : bytes)
| ipv4_address (v : bytes)
| ipv6_address (v : bytes).

(*@ helpers/http_field_parsers/host.hpp 490-496 raw_host_value_t *)
Record raw_host_value_t : Type := mk_host { host : host_value_t; port : option Z }.

#[global] Instance default_host_value : Default host_value_t := reg_name [].
#[global] Instance default_host : Default raw_host_value_t := mk_host default_value None.

Definition uint16_type : int_type := mk_int_type 16 false.

(** The producer of [host_value_t]. *)
Definition host_value_p : producer host_value_t :=
  produce host_value_t
    [alternatives
      [consume_value_clause
         (produce bytes
           [symbol (chr "["); consume_value_clause (lowered ipv6_address_p) as_result; symbol (chr "]")])
         (fun _ v => ipv6_address v);
       consume_value_clause (produce bytes [consume_value_clause ipv4_address_p as_result]) (fun _ v => ipv4_address v);
       consume_value_clause (produce bytes [consume_value_clause (lowered reg_name_p) as_result])
         (fun _ v => reg_name v)]].

(*@ helpers/http_field_parsers/host.hpp 503-541 raw_host_value_t::make_parser *)
Definition host_p : producer raw_host_value_t :=
  produce raw_host_value_t
    [consume_value_clause host_value_p (field_setter (fun h v => mk_host v (port h)));
     maybe
       [symbol (chr ":");
        consume_value_clause (non_negative_decimal_number_p uint16_type) (field_setter (fun h v => mk_host (host h) (Some v)))]].

Example host_examples :
  try_parse (str "Example.COM:8080") host_p = Ok (mk_host (reg_name (str "example.com")) (Some 8080)) /\
  try_parse (str "[2001:DB8::1]:80") host_p = Ok (mk_host (ipv6_address (str "2001:db8::1")) (Some 80)) /\
  try_parse (str "[::ffff:10.0.0.255]") host_p = Ok (mk_host (ipv6_address (str "::ffff:10.0.0.255")) None) /\
  try_parse (str "[1:2:3:4:5:6:7::]") host_p = Ok (mk_host (ipv6_address (str "1:2:3:4:5:6:7::")) None).
Proof. vm_compute. done. Qed.

(** ** Runs of single characters *)

(** The input begins with characters of these classes. *)
Fixpoint prefix_ok (ps : list (Z -> bool)) (y : bytes) : bool :=
  match ps, y with
  | [], _ => true
  | p :: ps, c :: y => p c && prefix_ok ps y
  | _ :: _, [] => false
  end.

Lemma creads_collect p c : p c = true -> creads (collect p) anything [c] (fun t => t ++ [c]).
Proof.
  intros H. apply (creads_consume (T := bytes) (symbol_producer p) (@to_container Z bytes vector_container)).
  by apply reads_symbol.
Qed.

Lemma cfails_collect p : cfails (collect p) (stops p).
Proof. apply cfails_consume, fails_symbol. Qed.

Lemma creads_collects ps x : Forall2 (fun p c => p c = true) ps x ->
  creads (all_of (collect <$> ps)) anything x (fun t => t ++ x).
Proof.
  induction 1 as [|p c ps x Hc _ IH]; [eapply creads_ext; [apply creads_nil | intros; by rewrite app_nil_r]|].
  eapply creads_ext; [apply (creads_cons _ _ anything _ [c] x (fun t => t ++ [c]) (fun t => t ++ x))|].
  - by apply creads_collect.
  - done.
  - done.
  - intros t. cbn. by rewrite <- app_assoc.
Qed.

Lemma cfails_collects ps y : prefix_ok ps y = false -> cfails_loosely (all_of (collect <$> ps)) (eq y).
Proof.
  revert y. induction ps as [|p ps IH]; intros y; [done|]. cbn [prefix_ok fmap list_fmap]. intros H.
  destruct y as [|c y].
  - apply cfails_to_loosely, cfails_head. eapply cfails_weaken; [apply cfails_collect | by intros ? <-].
  - destruct (p c) eqn:Hc.
    + eapply cfails_loosely_weaken; [eapply (cfails_tail_loosely _ _ anything _ [c]); [by apply creads_collect|by apply IH|done]|].
      intros r <-. by exists y.
    + apply cfails_to_loosely, cfails_head. eapply cfails_weaken; [apply cfails_collect|]. by intros ? <-.
Qed.

(** What may come behind an octet: a dot, a colon, a bracket or nothing. *)
Definition octet_end (r : bytes) : Prop := stops (fun c => negb (existsb (Z.eqb c) (str ".:]"))) r.

(** Classes without these do not reach behind the octet. *)
Lemma prefix_ok_octet ps x r : Forall (fun p => existsb p (str ".:]") = false) ps ->
  octet_end r -> prefix_ok ps (x ++ r) = prefix_ok ps x.
Proof.
  intros Hp Hr. revert x. induction Hp as [|p ps Hp _ IH]; intros x; [done|]. destruct x as [|c x]; cbn [app prefix_ok].
  - destruct r as [|c r]; [done|]. cbn [octet_end stops] in Hr. apply negb_false_iff, existsb_exists in Hr as (d & Hd & Ed).
    apply Z.eqb_eq in Ed. subst d. destruct (p c) eqn:E; [|done]. exfalso.
    apply not_true_iff_false in Hp. apply Hp, existsb_exists. by exists c.
  - by rewrite IH.
Qed.

(** ** IPv4 addresses *)

Definition octet_classes : list (list (Z -> bool)) :=
  [[this 50; this 53; between 48 53]; [this 50; between 48 52; is_digit]; [this 49; is_digit; is_digit];
   [between 49 57; is_digit]; [is_digit]].

(** The length of the first alternative that matches. *)
Definition octet_length (y : bytes) : option nat :=
  length <$> List.find (fun ps => prefix_ok ps y) octet_classes.

Lemma octet_classes_end : Forall (Forall (fun p => existsb p (str ".:]") = false)) octet_classes.
Proof. repeat constructor. Qed.

Lemma octet_lengths n : 0 <= n < 256 -> octet_length (print_llu n) = Some (length (print_llu n)) /\
  Forall (fun c => is_digit c = true) (print_llu n).
Proof.
  intros Hn. split; [|apply print_llu_loop_digits; lia].
  assert (H : forall n, is_byte n -> bool_decide (octet_length (print_llu n) = Some (length (print_llu n))) = true).
  { apply byte_forall. vm_compute. reflexivity. }
  apply (bool_decide_eq_true_1 _ (H n Hn)).
Qed.

(** A clause that reads one character of each of the classes. *)
Definition acts_as (c : clause bytes) (ps : list (Z -> bool)) : Prop :=
  (forall x, Forall2 (fun p ch => p ch = true) ps x -> creads c anything x (fun t => t ++ x)) /\
  (forall y, prefix_ok ps y = false -> cfails_loosely c (eq y)).

Lemma sequence_acts ps : acts_as (sequence (collect <$> ps)) ps.
Proof.
  split.
  - intros x Hx. by apply creads_sequence, creads_collects.
  - intros y Hy. by apply cfails_to_loosely, cfails_sequence, cfails_collects.
Qed.

Lemma collect_acts p : acts_as (collect p) [p].
Proof.
  split.
  - intros x Hx. apply Forall2_cons_inv_l in Hx as (c & y & Hc & Hy%Forall2_nil_inv_l & ->). subst y.
    by apply creads_collect.
  - intros y H. apply cfails_to_loosely. eapply cfails_weaken; [apply cfails_collect|].
    intros ? <-. destruct y as [|c y]; [done|]. cbn in *. by rewrite andb_true_r in H.
Qed.

Lemma prefix_ok_Forall2 ps x r : prefix_ok ps (x ++ r) = true -> length ps = length x ->
  Forall2 (fun p c => p c = true) ps x.
Proof.
  revert x. induction ps as [|p ps IH]; intros [|c x] H Hl; try done.
  cbn in H. apply andb_true_iff in H as [Hc H]. constructor; [done|]. apply IH; [done | by injection Hl].
Qed.

Lemma creads_classes cs pss x r : Forall2 acts_as cs pss ->
  (exists ps, List.find (fun ps => prefix_ok ps (x ++ r)) pss = Some ps /\ length ps = length x) ->
  creads (alternatives cs) (eq r) x (fun t => t ++ x).
Proof.
  intros H. induction H as [|c ps cs pss [Hr Hf] _ IH]; cbn [List.find]; [by intros (? & ? & _)|].
  destruct (prefix_ok ps (x ++ r)) eqn:E; intros (ps' & Hp & Hl).
  - injection Hp as <-. apply creads_first. eapply creads_weaken; [by eapply Hr, prefix_ok_Forall2 | done].
  - apply creads_next; [|by apply IH; exists ps'].
    eapply cfails_loosely_weaken; [by apply Hf|]. by intros y (z & -> & <-).
Qed.

Lemma find_ext_in {A} (f g : A -> bool) l : (forall a, a ∈ l -> f a = g a) -> List.find f l = List.find g l.
Proof.
  induction l as [|a l IH]; intros H; [done|]. cbn. rewrite (H a) by apply list_elem_of_here.
  rewrite IH; [done|]. intros b Hb. by apply H, list_elem_of_further.
Qed.

(** The clauses of [dec_octet] and their classes. *)
Definition octet_clauses : list (clause bytes) :=
  [sequence [collect (this (chr "2")); collect (this (chr "5")); collect (between (chr "0") (chr "5"))];
   sequence [collect (this (chr "2")); collect (between (chr "0") (chr "4")); collect is_digit];
   sequence [collect (this (chr "1")); collect is_digit; collect is_digit];
   sequence [collect (between (chr "1") (chr "9")); collect is_digit];
   collect is_digit].

Lemma octet_clauses_act : Forall2 acts_as octet_clauses octet_classes.
Proof.
  repeat constructor; first [apply collect_acts | apply (sequence_acts [_; _; _]) | apply (sequence_acts [_; _])].
Qed.

Lemma octet_find x r : octet_end r ->
  List.find (fun ps => prefix_ok ps (x ++ r)) octet_classes = List.find (fun ps => prefix_ok ps x) octet_classes.
Proof.
  intros Hr. apply find_ext_in. intros ps Hps. apply prefix_ok_octet; [|done].
  pose proof octet_classes_end as H. rewrite Forall_forall in H. by apply H.
Qed.

Lemma reads_octet n : 0 <= n < 256 -> reads dec_octet octet_end (print_llu n) (print_llu n).
Proof.
  intros Hn. apply octet_lengths in Hn as [Hl Hd]. apply (reads_make _ _ _ (fun t => t ++ print_llu n)); [|done].
  apply creads_last. intros s r t Hs E Hr.
  eapply (creads_classes _ octet_classes (print_llu n) r) with (r := r) (t := t) (s := s);
    [apply octet_clauses_act| |exact Hs|exact E|done].
  rewrite octet_find by done. unfold octet_length in Hl.
  destruct (List.find _ _) as [ps|]; [|done]. injection Hl as Hl. by exists ps.
Qed.

Lemma classes_fail cs pss y : Forall2 acts_as cs pss ->
  List.find (fun ps => prefix_ok ps y) pss = None -> Forall (fun c => cfails_loosely c (eq y)) cs.
Proof.
  induction 1 as [|c ps cs pss [_ Hf] _ IH]; cbn [List.find]; [done|].
  destruct (prefix_ok ps y) eqn:E; [done|]. intros H. constructor; auto.
Qed.

Lemma prefix_ok_length ps y : prefix_ok ps y = true -> (length ps <= length y)%nat.
Proof.
  revert y. induction ps as [|p ps IH]; intros [|c y]; cbn; try done; [lia|].
  intros [_ H]%andb_true_iff. apply IH in H. lia.
Qed.

(** Whatever the input, an octet fails or reads the characters of one of the classes. *)
Lemma octet_outcome y :
  fails dec_octet (eq y) \/
  exists ps, ps ∈ octet_classes /\ prefix_ok ps y = true /\
    reads dec_octet (eq (drop (length ps) y)) (take (length ps) y) (take (length ps) y).
Proof.
  destruct (List.find (fun ps => prefix_ok ps y) octet_classes) as [ps|] eqn:E.
  - right. exists ps. pose proof (find_some _ _ E) as [Hin Hp]. split; [by apply list_elem_of_In|]. split; [done|].
    pose proof (prefix_ok_length ps y Hp) as Hl.
    eapply (reads_make _ _ _ (fun t => t ++ take (length ps) y)); [|done].
    apply creads_last, (creads_classes _ octet_classes); [apply octet_clauses_act|].
    exists ps. rewrite take_drop. split; [done|]. rewrite length_take. lia.
  - left. apply fails_produce, cfails_to_loosely, cfails_head, cfails_alternatives.
    by apply (classes_fail _ octet_classes); [apply octet_clauses_act|].
Qed.

(** dec-octet "." dec-octet "." dec-octet "." dec-octet *)
Definition ipv4_text (a b c d : Z) : bytes :=
  print_llu a ++ [46] ++ print_llu b ++ [46] ++ print_llu c ++ [46] ++ print_llu d.
Definition octet (n : Z) : Prop := 0 <= n < 256.

Lemma creads_octet n : octet n -> creads (consume_value_clause dec_octet to_container) octet_end
  (print_llu n) (fun t => t ++ print_llu n).
Proof.
  intros Hn. apply (creads_consume (T := bytes) dec_octet (@to_container bytes bytes string_container)).
  by apply reads_octet.
Qed.

Lemma creads_octet_dot n cs F y f : octet n -> creads (all_of cs) F y f ->
  creads (all_of (consume_value_clause dec_octet to_container :: collect (this (chr ".")) :: cs)) F
    (print_llu n ++ [46] ++ y) (fun t => f ((t ++ print_llu n) ++ [46])).
Proof.
  intros Hn Hcs. eapply (creads_cons _ _ octet_end _ _ _ (fun t => t ++ print_llu n) (fun t => f (t ++ [46]))).
  - by apply creads_octet.
  - by apply (creads_cons _ _ anything _ [46] _ (fun t => t ++ [46]) f); [apply creads_collect| |].
  - by follows.
Qed.

Lemma reads_ipv4 a b c d : octet a -> octet b -> octet c -> octet d ->
  reads ipv4_address_p octet_end (ipv4_text a b c d) (ipv4_text a b c d).
Proof.
  intros Ha Hb Hc Hd. eapply reads_make; [do 3 (apply creads_octet_dot; [done|]); by apply creads_last, creads_octet|].
  cbn. unfold ipv4_text. by rewrite <- !app_assoc.
Qed.

(** [:] port, or nothing *)
Definition port_text (p : option Z) : bytes := match p with Some n => 58 :: print_llu n | None => [] end.
Definition port_ok (p : option Z) : Prop := match p with Some n => 0 <= n < 2 ^ 16 | None => True end.

Lemma port_stops pred p F r : pred 58 = false -> F = at_end -> followed (port_text p) F r -> stops pred r.
Proof. intros Hp -> (z & -> & ->). by destruct p. Qed.

Lemma reads_host v x p F :
  port_ok p -> reads host_value_p F x v -> (forall r, followed (port_text p) at_end r -> F r) ->
  reads host_p at_end (x ++ port_text p) (mk_host v p).
Proof.
  intros Hp Hv HF. eapply reads_make; [eapply (creads_cons _ _ F)|].
  - by eapply creads_consume.
  - apply creads_last. instantiate (1 := fun h => match p with Some n => mk_host (host h) (Some n) | None => h end).
    destruct p as [n|]; cbn [port_text].
    + apply creads_maybe.
      apply (creads_cons _ _ anything _ [58] _ (fun t => t) (fun h => mk_host (host h) (Some n))); [apply creads_symbol| |done].
      apply creads_last, (creads_consume (non_negative_decimal_number_p uint16_type)
        (field_setter (fun h v => mk_host (host h) (Some v))) _ _ n).
      eapply reads_weaken; [by apply reads_print_llu|]. apply stops_at_end.
    + apply creads_maybe_not, cfails_to_loosely, cfails_head. eapply cfails_weaken; [apply cfails_symbol | by intros ? ->].
  - done.
  - by destruct p.
Qed.

Lemma print_llu_end n : 0 <= n -> ends_well (print_llu n).
Proof.
  intros Hn. destruct (print_llu_start n Hn) as (c & y & E & _). split; [by rewrite E|].
  apply (trimmed_Forall is_digit); [|by apply print_llu_loop_digits].
  intros d Hd. by apply digit_not_element.
Qed.

Lemma host_end x p : port_ok p -> ends_well x -> ends_well (x ++ port_text p).
Proof.
  intros Hp Hx. destruct p as [n|]; cbn; [|by rewrite app_nil_r].
  apply ends_well_app, (ends_well_app [58]), print_llu_end. cbn in Hp. lia.
Qed.

(** Where no IPv6 literal can begin. *)
Lemma cfails_bracket F : (forall r, F r -> stops (Z.eqb 91) r) ->
  cfails_loosely (consume_value_clause
    (produce bytes [symbol (chr "["); consume_value_clause (lowered ipv6_address_p) as_result; symbol (chr "]")])
    (fun (_ : host_value_t) v => ipv6_address v)) F.
Proof.
  intros HF. apply cfails_to_loosely, cfails_consume, fails_produce, cfails_to_loosely, cfails_head.
  eapply cfails_weaken; [apply cfails_symbol | done].
Qed.

(** Host with an IPv4 address: the four octets written in
    decimal with dots, for each of the 2^32 addresses, and possibly a port of
    sixteen bits, are parsed to an IPv4 address with that text and that port. *)
Theorem ipv4_host_roundtrip a b c d p
  (Ho : octet a /\ octet b /\ octet c /\ octet d) (Hp : port_ok p) :
  try_parse (ipv4_text a b c d ++ port_text p) host_p = Ok (mk_host (ipv4_address (ipv4_text a b c d)) p).
Proof.
  destruct Ho as (Ha & Hb & Hc & Hd). apply try_parse_reads.
  - apply host_end; [done|]. do 6 apply ends_well_app. apply print_llu_end. unfold octet in Hd. lia.
  - apply (reads_host _ _ _ octet_end); [done| |by intros r; apply port_stops].
    apply (reads_make _ _ _ (fun _ => ipv4_address (ipv4_text a b c d))); [|done].
    apply creads_last, creads_next.
    + apply cfails_bracket. intros r (z & -> & _). unfold ipv4_text.
      destruct (print_llu_start a) as (ch & y & -> & Hch); [unfold octet in Ha; lia|]. cbn -[Z.eqb].
      apply Z.eqb_neq. intros <-. done.
    + apply creads_first, (creads_consume _ (fun _ v => ipv4_address v)).
      apply (reads_make _ _ _ (fun _ => ipv4_text a b c d)); [|done].
      by apply creads_last, (creads_consume ipv4_address_p as_result), reads_ipv4.
Qed.

Lemma ipv4_host_roundtrip_witness :
  try_parse (str "192.168.0.255:65535") host_p = Ok (mk_host (ipv4_address (str "192.168.0.255")) (Some 65535)).
Proof.
  apply (ipv4_host_roundtrip 192 168 0 255 (Some 65535)).
  - unfold octet. lia.
  - cbn. lia.
Defined.

(** The alternatives of the host are ordered and a later one is not tried when
    an earlier one read something: a registered name that begins with an IPv4
    address, allowed by the grammar of RFC 3986 the comment before [reg_name_p]
    quotes, is refused. *)
Theorem name_with_ipv4_prefix_refused :
  is_ok (try_parse (str "1.2.3.4.nip.io") host_p) = false /\
  is_ok (try_parse (str "1.2.3.256") host_p) = false /\
  try_parse (str "1.2.3.x") host_p = Ok (mk_host (reg_name (str "1.2.3.x")) None).
Proof. vm_compute. done. Qed.

(** A port of five digits that does not fit in sixteen bits is accepted and
    wraps when the multiplication by ten stays in the range that the overflow
    check of the accumulator recognises. *)
Theorem port_wraps : try_parse (str "h:99999") host_p = Ok (mk_host (reg_name (str "h")) (Some 34463)).
Proof. vm_compute. done. Qed.
