(* ===== verification/HostIpv6.v ===== *)
(** * IPv6 literals

    The alternatives of [ipv6_address_p] of [Host], put in the order of their
    number of groups behind the double colon, read every literal: eight groups,
    or at most seven around a double colon. *)

From S2P Require Import Prelude IntAcc Headers.
From S2P Require Import EasyParser EasyRules HttpFields HttpGrammar FieldParsers FieldGrammar Host.

(** h16 = 1*4HEXDIG *)
Definition group (g : bytes) : Prop := all_in is_hexdigit g /\ (1 <= length g <= 4)%nat.

(** Groups separated by colons, and groups each with a colon behind it. *)
Fixpoint joined (gs : list bytes) : bytes :=
  match gs with
  | [] => []
  | [g] => g
  | g :: gs => g ++ [58] ++ joined gs
  end.
Definition with_colons (gs : list bytes) : bytes := mjoin ((fun g => g ++ [58]) <$> gs).

(** The bracket behind a literal, or the end. *)
Definition closed (r : bytes) : Prop := stops (fun c => negb (c =? 93)) r.

Lemma joined_cons g gs : gs <> [] -> joined (g :: gs) = g ++ [58] ++ joined gs.
Proof. by destruct gs. Qed.

Lemma joined_app gs1 gs2 : gs2 <> [] -> joined (gs1 ++ gs2) = with_colons gs1 ++ joined gs2.
Proof.
  intros Hn. induction gs1 as [|g gs1 IH]; [done|]. cbn [app].
  rewrite joined_cons by (by destruct gs1). rewrite IH. unfold with_colons. cbn. by rewrite <- !app_assoc.
Qed.

Lemma hex_not c d : is_hexdigit c = true -> is_hexdigit d = false -> (d =? c) = false.
Proof. intros Hc Hd. apply Z.eqb_neq. intros ->. congruence. Qed.

Lemma group_start g : group g -> exists c y, g = c :: y /\ is_hexdigit c = true.
Proof. intros [Hx Hl]. destruct Hx as [|c y Hc _]; [cbn in Hl; lia|]. by exists c, y. Qed.

Lemma group_stops g F r d : group g -> is_hexdigit d = false -> followed g F r -> stops (Z.eqb d) r.
Proof. intros Hg Hd (z & -> & _). apply group_start in Hg as (c & y & -> & Hc). by apply hex_not. Qed.

Lemma closed_stops pred r : pred 93 = false -> closed r -> stops pred r.
Proof. intros Hp. destruct r as [|c r]; [done|]. cbn. intros H%negb_false_iff%Z.eqb_eq. by subst c. Qed.

Abbreviation one_h16 := (consume_value_clause h16 to_container : clause bytes).
Abbreviation not_hex := (stops is_hexdigit).
Abbreviation not_colon := (stops (Z.eqb 58)).

Lemma reads_h16 g : group g -> reads h16 not_hex g g.
Proof.
  intros [Hx Hl]. apply (reads_make _ _ _ (fun t => t ++ g)); [|done].
  apply creads_last, creads_run; [done | lia].
Qed.

Lemma creads_h16 g : group g -> creads one_h16 not_hex g (fun t => t ++ g).
Proof.
  intros Hg. apply (creads_consume (T := bytes) h16 (@to_container bytes bytes string_container)). by apply reads_h16.
Qed.

Lemma cfails_h16 : cfails one_h16 not_hex.
Proof.
  apply cfails_consume, fails_produce, cfails_to_loosely, cfails_head.
  intros s t Hs Hr. unfold repeat. rewrite loop_turns. change (Pos.to_nat 4) with 4%nat. cbn [turns].
  unfold repeat_item at 1. destruct (cfails_head _ [] _ (cfails_collect is_hexdigit) s t Hs Hr) as (e & s' & -> & H1 & _).
  rewrite end_consumer_back by done. cbn. do 2 eexists. by rewrite end_consumer_back.
Qed.

(** *** A group with a colon behind it *)

Lemma creads_h16_with_colon g : group g -> creads h16_with_colon not_colon (g ++ [58]) (fun t => t ++ (g ++ [58])).
Proof.
  intros Hg. apply creads_sequence.
  eapply creads_ext; [apply (creads_cons _ _ not_hex _ g [58] (fun t => t ++ g) (fun t => t ++ [58]))|].
  - by apply creads_h16.
  - rewrite <- (app_nil_r [58]) at 1.
    apply (creads_cons _ _ anything _ [58] [] (fun t => t ++ [58]) (fun t => t)); [by apply creads_collect| |done].
    apply creads_last, creads_not, cfails_to_loosely, cfails_head, cfails_symbol.
  - by follows.
  - intros t. cbn. by rewrite <- app_assoc.
Qed.

Lemma cfails_h16_with_colon_start : cfails h16_with_colon not_hex.
Proof. apply cfails_sequence, cfails_to_loosely, cfails_head, cfails_h16. Qed.

(** A group and no colon behind it. *)
Lemma cfails_h16_with_colon_end g F : group g -> (forall r, F r -> not_hex r /\ not_colon r) ->
  cfails h16_with_colon (followed g F).
Proof.
  intros Hg HF. apply cfails_sequence, (cfails_tail_loosely _ _ not_hex _ _ (fun t => t ++ g)).
  - by apply creads_h16.
  - apply cfails_to_loosely, cfails_head. eapply cfails_weaken; [apply cfails_collect|]. intros r Hr. by apply HF.
  - intros r Hr. by apply HF.
Qed.

(** A group and two colons behind it. *)
Lemma cfails_h16_with_colon_double g : group g -> cfails h16_with_colon (followed g (followed [58; 58] anything)).
Proof.
  intros Hg. apply cfails_sequence, (cfails_tail_loosely _ _ not_hex _ _ (fun t => t ++ g)).
  - by apply creads_h16.
  - eapply cfails_loosely_weaken; [apply (cfails_tail_loosely _ _ anything (followed [58] anything) [58] (fun t => t ++ [58]))|].
    + by apply creads_collect.
    + apply cfails_to_loosely, cfails_head, (cfails_not [symbol (chr ":")] anything [58] (fun t => t)).
      apply creads_last, creads_symbol.
    + done.
    + intros r Hr. by apply (followed_app [58] [58]).
  - by follows.
Qed.

Lemma with_colons_start gs F r : Forall group gs -> followed (with_colons gs) F r ->
  (forall r, F r -> not_colon r) -> not_colon r.
Proof.
  intros Hg (z & -> & Hz) HF. destruct Hg as [|g gs Hg _]; [by apply HF|].
  apply (group_stops g anything); [done|done|]. unfold with_colons. cbn. rewrite <- !app_assoc. by eexists.
Qed.

Definition group_items (gs : list bytes) : list (bytes * (bytes -> bytes)) :=
  (fun g => (g ++ [58], fun t => t ++ (g ++ [58]))) <$> gs.

Lemma texts_groups gs : texts (group_items gs) = with_colons gs.
Proof. unfold texts, with_colons, group_items. by rewrite <- list_fmap_compose. Qed.
Lemma apply_groups gs t : apply_all (group_items gs) t = t ++ with_colons gs.
Proof.
  revert t. induction gs as [|g gs IH]; intros t; [cbn; by rewrite app_nil_r|].
  change (apply_all (group_items gs) (t ++ (g ++ [58])) = t ++ with_colons (g :: gs)).
  rewrite IH. unfold with_colons. cbn. by rewrite <- !app_assoc.
Qed.

Lemma group_items_read gs F : Forall group gs -> (forall r, F r -> not_colon r) ->
  items_read [h16_with_colon] F (group_items gs).
Proof.
  intros Hg HF pre x f post E. apply fmap_app_inv in E as (l1 & l2 & -> & E2 & ->).
  destruct l2 as [|g l2]; [done|]. injection E2 as -> -> Ep.
  assert (Et : texts post = with_colons l2) by (rewrite Ep; apply texts_groups). rewrite Et.
  apply Forall_app in Hg as [_ Hg]. apply Forall_cons in Hg as [Hg Hgs].
  apply creads_last. eapply creads_weaken; [by apply creads_h16_with_colon|].
  intros r Hr. by eapply with_colons_start.
Qed.

Lemma creads_groups min k gs F : Forall group gs -> (min <= N.of_nat (length gs) <= k)%N ->
  (N.of_nat (length gs) = k \/ cfails h16_with_colon F) -> (forall r, F r -> not_colon r) ->
  creads (repeat min k [h16_with_colon]) F (with_colons gs) (fun t => t ++ with_colons gs).
Proof.
  intros Hg Hn Hf HF. eapply creads_ext; [|apply apply_groups]. rewrite <- (texts_groups gs). apply creads_repeat.
  - by apply group_items_read.
  - destruct Hf as [Hf|Hf]; [left; unfold group_items; by rewrite length_fmap | right; by apply cfails_head].
  - unfold group_items. rewrite length_fmap. lia.
Qed.

Lemma cfails_groups k gs F : Forall group gs -> (N.of_nat (length gs) < k)%N ->
  cfails h16_with_colon F -> (forall r, F r -> not_colon r) ->
  cfails_loosely (repeat k k [h16_with_colon]) (followed (with_colons gs) F).
Proof.
  intros Hg Hn Hf HF. rewrite <- (texts_groups gs). apply cfails_repeat.
  - by apply group_items_read.
  - by apply cfails_to_loosely, cfails_head.
  - unfold group_items. by rewrite length_fmap.
  - unfold group_items. by rewrite length_fmap.
Qed.

(** The groups that are left when as many as possible are read with their colons. *)
Lemma last_group gs : Forall group gs -> gs <> [] ->
  exists ini g, gs = ini ++ [g] /\ Forall group ini /\ group g /\ joined gs = with_colons ini ++ g.
Proof.
  intros Hg Hn. destruct (exists_last Hn) as (ini & g & ->). apply Forall_app in Hg as [Hi Hg%Forall_inv].
  exists ini, g. do 3 (split; [done|]). by apply joined_app.
Qed.

(** *** Behind the double colon *)

(** The clauses read [n] groups, and fail on fewer. *)
Definition reads_right (n : nat) (cs : list (clause bytes)) : Prop :=
  (forall gs, Forall group gs -> length gs = n -> creads (all_of cs) closed (joined gs) (fun t => t ++ joined gs)) /\
  (forall gs, Forall group gs -> (length gs < n)%nat -> cfails_loosely (all_of cs) (followed (joined gs) closed)).

Abbreviation one_ls32 := (consume_value_clause ls32 to_container : clause bytes).

Lemma closed_hex r : closed r -> not_hex r.
Proof. by apply closed_stops. Qed.
Lemma closed_colon r : closed r -> not_colon r.
Proof. by apply closed_stops. Qed.

Lemma creads_ls32 g h : group g -> group h -> creads one_ls32 closed (joined [g; h]) (fun t => t ++ joined [g; h]).
Proof.
  intros Hg Hh. apply (creads_consume (T := bytes) ls32 (@to_container bytes bytes string_container)).
  apply (reads_make _ _ _ (fun t => t ++ joined [g; h])); [|done].
  apply creads_last, creads_first, creads_sequence. cbn [joined].
  eapply creads_ext; [apply (creads_cons _ _ not_hex _ g ([58] ++ h) (fun t => t ++ g) (fun t => (t ++ [58]) ++ h))|].
  - by apply creads_h16.
  - apply (creads_cons _ _ anything _ [58] h (fun t => t ++ [58]) (fun t => t ++ h)); [by apply creads_collect| |done].
    apply creads_last. eapply creads_weaken; [by apply creads_h16 | apply closed_hex].
  - by follows.
  - intros t. cbn. by rewrite <- !app_assoc.
Qed.

(** A group is not the beginning of an IPv4 address when no dot follows it. *)
Lemma fails_ipv4_hex g r : group g -> octet_end r -> stops (this 46) r ->
  fails ipv4_address_p (eq (g ++ r)).
Proof.
  intros [Hg _] He Hr. apply fails_produce.
  destruct (octet_outcome (g ++ r)) as [H|(ps & Hps & Hp & H)].
  { by apply cfails_to_loosely, cfails_head, cfails_consume. }
  assert (Hp' : prefix_ok ps g = true).
  { rewrite <- Hp. symmetry. apply prefix_ok_octet; [|done].
    pose proof octet_classes_end as Hc. rewrite Forall_forall in Hc. by apply Hc. }
  apply prefix_ok_length in Hp'. rewrite take_app_le, drop_app_le in H by done.
  eapply cfails_loosely_weaken; [eapply (cfails_tail_loosely _ _ _ (eq (drop (length ps) g ++ r)) _ (fun t => t ++ take (length ps) g))|].
  - apply (creads_consume (T := bytes) dec_octet (@to_container bytes bytes string_container)), H.
  - apply cfails_to_loosely, cfails_head. eapply cfails_weaken; [apply cfails_collect|]. intros ? <-.
    pose proof (Forall_drop _ (length ps) _ Hg) as Hd. destruct Hd as [|c y Hc _]; [done|]. by apply (hex_not c 46).
  - done.
  - intros ? <-. exists (drop (length ps) g ++ r). by rewrite app_assoc, take_drop.
Qed.

(** [ls32] on a single group. *)
Lemma cfails_ls32 g r : group g -> not_hex r -> not_colon r -> octet_end r -> stops (this 46) r ->
  cfails one_ls32 (eq (g ++ r)).
Proof.
  intros Hg Hh Hc He Hd. apply cfails_consume, fails_produce, cfails_to_loosely, cfails_head, cfails_alternatives.
  repeat constructor; apply cfails_to_loosely.
  - apply cfails_sequence.
    eapply cfails_loosely_weaken; [apply (cfails_tail_loosely _ _ not_hex (eq r) g (fun t => t ++ g))|].
    + by apply creads_h16.
    + apply cfails_to_loosely, cfails_head. eapply cfails_weaken; [apply cfails_collect | by intros ? <-].
    + by intros ? <-.
    + intros ? <-. by exists r.
  - by apply cfails_consume, fails_ipv4_hex.
Qed.

(** ... and two colons behind it. *)
Lemma cfails_ls32_double g r : group g -> cfails one_ls32 (eq (g ++ [58; 58] ++ r)).
Proof.
  intros Hg. apply cfails_consume, fails_produce, cfails_to_loosely, cfails_head, cfails_alternatives.
  repeat constructor; apply cfails_to_loosely.
  - apply cfails_sequence.
    eapply cfails_loosely_weaken; [apply (cfails_tail_loosely _ _ not_hex (followed [58] (eq (58 :: r))) g (fun t => t ++ g))|].
    + by apply creads_h16.
    + apply (cfails_tail_loosely _ _ anything (eq (58 :: r)) [58] (fun t => t ++ [58])); [by apply creads_collect| |done].
      apply cfails_to_loosely, cfails_head. eapply cfails_weaken; [apply cfails_h16 | by intros ? <-].
    + by follows.
    + intros ? <-. exists ([58; 58] ++ r). split; [done|]. by eexists.
  - by apply cfails_consume, fails_ipv4_hex.
Qed.

Lemma cfails_ls32_closed : cfails one_ls32 closed.
Proof.
  apply cfails_consume, fails_produce, cfails_to_loosely, cfails_head, cfails_alternatives.
  repeat constructor; apply cfails_to_loosely.
  - apply cfails_sequence, cfails_to_loosely, cfails_head. eapply cfails_weaken; [apply cfails_h16 | apply closed_hex].
  - apply cfails_consume, fails_produce, cfails_to_loosely, cfails_head, cfails_consume, fails_produce.
    apply cfails_to_loosely, cfails_head, cfails_alternatives.
    assert (H : forall r, closed r -> Forall (fun c => cfails_loosely c (eq r)) octet_clauses).
    { intros r Hr. apply (classes_fail _ octet_classes); [apply octet_clauses_act|].
      etransitivity; [apply (octet_find [] r); by apply closed_stops | done]. }
    rewrite Forall_forall. intros c Hc s t Hs Hr. specialize (H _ Hr). rewrite Forall_forall in H.
    by apply (H c Hc).
Qed.

(** ** The alternatives *)

Lemma joined_snoc gs g : joined (gs ++ [g]) = with_colons gs ++ g.
Proof. apply joined_app. done. Qed.

Lemma closed_ends r : closed r -> not_hex r /\ not_colon r /\ octet_end r /\ stops (this 46) r.
Proof. intros H. repeat split; by apply closed_stops. Qed.

(** [k] groups with colons and then clauses that read one or two groups. *)
Lemma right_fails k n cs gs :
  reads_right n cs -> Forall group gs -> (length gs < k + n)%nat ->
  cfails_loosely (all_of (repeat (N.of_nat k) (N.of_nat k) [h16_with_colon] :: cs)) (followed (joined gs) closed).
Proof.
  intros [_ Hcs] Hg Hl s t Hs Hr.
  destruct (decide (k < length gs \/ k = 0)%nat) as [Hk|Hk].
  - (* the groups are read, the rest fails *)
    assert (exists g1 g2, gs = g1 ++ g2 /\ length g1 = k /\ (length g2 < n)%nat /\ (g2 <> [] \/ k = 0%nat))
      as (g1 & g2 & -> & Hl1 & Hl2 & Hn).
    { exists (take k gs), (drop k gs). rewrite take_drop, length_take, length_drop.
      split; [done|]. split; [lia|]. split; [lia|]. destruct Hk as [Hk|Hk]; [left | by right].
      intros E%(f_equal length). rewrite length_drop in E. cbn in E. lia. }
    apply Forall_app in Hg as [Hg1 Hg2].
    assert (Ej : joined (g1 ++ g2) = with_colons g1 ++ joined g2).
    { destruct Hn as [Hn|Hn]; [by apply joined_app|]. subst k. by destruct g1. }
    eapply (cfails_tail_loosely _ _ (followed (joined g2) closed) _ _ (fun t => t ++ with_colons g1)); [| | |exact Hs|].
    + apply creads_groups; [done | lia | left; lia |].
      intros r Hr'. destruct Hg2 as [|g g2' Hg2 _]; [destruct Hr' as (z & -> & Hz); by apply closed_colon|].
      apply (group_stops g anything); [done|done|]. destruct Hr' as (z & -> & _).
      destruct g2' as [|h g2']; [by eexists|]. rewrite joined_cons by done. rewrite <- !app_assoc. by eexists.
    + by apply Hcs.
    + done.
    + rewrite Ej in Hr. by apply followed_app.
  - (* too few groups for the repetition *)
    apply cfails_head_loosely with (F := followed (joined gs) closed); [|done|done].
    destruct (decide (gs = [])) as [->|Hn].
    + eapply (cfails_loosely_weaken _ (followed (with_colons []) closed)); [|done].
      apply cfails_groups; [done | cbn in *; lia | | apply closed_colon].
      eapply cfails_weaken; [apply cfails_h16_with_colon_start | apply closed_hex].
    + destruct (last_group gs Hg Hn) as (ini & g & -> & Hi & Hgg & ->). rewrite length_app in Hk. cbn in Hk.
      eapply cfails_loosely_weaken; [apply (cfails_groups _ ini (followed g closed)); [done | lia | |] |].
      * apply cfails_h16_with_colon_end; [done|]. intros r0 Hr0. by apply closed_ends in Hr0 as (? & ? & _).
      * intros r0 Hr0. by eapply group_stops.
      * intros r. apply followed_app.
Qed.

Lemma right_0 : reads_right 0 [].
Proof.
  split; [|intros; lia]. intros [|g gs] _ Hl; [|done].
  eapply creads_ext; [apply creads_nil | intros; by rewrite app_nil_r].
Qed.

Lemma right_1 : reads_right 1 [one_h16].
Proof.
  split.
  - intros gs Hg Hl. destruct gs as [|g [|]]; [done| |done]. apply Forall_inv in Hg. apply creads_last.
    eapply creads_weaken; [by apply creads_h16 | apply closed_hex].
  - intros [|g gs] _ Hl; [|cbn in Hl; lia]. apply cfails_to_loosely, cfails_head.
    eapply cfails_weaken; [apply cfails_h16 | intros r (z & -> & Hz); by apply closed_hex].
Qed.

Lemma right_2 : reads_right 2 [one_ls32].
Proof.
  split.
  - intros gs Hg Hl. destruct gs as [|g [|h [|]]]; try done.
    apply Forall_cons in Hg as [Hg Hh%Forall_inv]. by apply creads_last, creads_ls32.
  - intros gs Hg Hl. apply cfails_to_loosely, cfails_head. destruct gs as [|g [|]]; [| |cbn in Hl; lia].
    + eapply cfails_weaken; [apply cfails_ls32_closed | by intros r (z & -> & Hz)].
    + apply Forall_inv in Hg. intros s t Hs (r & E & Hr). apply closed_ends in Hr as (H1 & H2 & H3 & H4).
      by apply (cfails_ls32 g r Hg H1 H2 H3 H4 s t Hs).
Qed.

Lemma right_repeat k n cs : (0 < n)%nat -> reads_right n cs ->
  reads_right (k + n) (repeat (N.of_nat k) (N.of_nat k) [h16_with_colon] :: cs).
Proof.
  intros Hn Hcs. split; [|intros gs; by apply right_fails].
  intros gs Hg Hl. pose proof (take_drop k gs) as E.
  assert (Hl1 : length (take k gs) = k) by (rewrite length_take; lia).
  assert (Hl2 : length (drop k gs) = n) by (rewrite length_drop; lia).
  revert E Hl1 Hl2. generalize (take k gs) (drop k gs). intros g1 g2 <- Hl1 Hl2.
  apply Forall_app in Hg as [Hg1 Hg2].
  rewrite joined_app by (intros ->; cbn in Hl2; lia).
  eapply creads_ext; [apply (creads_cons _ _ (followed (joined g2) closed) _ _ _
    (fun t => t ++ with_colons g1) (fun t => t ++ joined g2))|].
  - apply creads_groups; [done | lia | left; lia |]. intros r Hr.
    destruct Hg2 as [|g g2' Hg2 _]; [cbn in Hl2; lia|].
    apply (group_stops g anything); [done|done|]. destruct Hr as (z & -> & _).
    destruct g2' as [|h g2']; [by eexists|]. rewrite joined_cons by done. rewrite <- !app_assoc. by eexists.
  - by apply Hcs.
  - done.
  - intros t. cbn. by rewrite <- app_assoc.
Qed.

(** The alternative that has one group with a colon and no repetition. *)
Lemma right_3 : reads_right 3 [h16_with_colon; one_ls32].
Proof.
  split.
  - intros gs Hg Hl. destruct gs as [|g gs]; [done|]. apply Forall_cons in Hg as [Hg Hgs].
    rewrite joined_cons by (by destruct gs). rewrite app_assoc.
    eapply creads_ext; [apply (creads_cons _ _ not_colon _ (g ++ [58]) (joined gs) (fun t => t ++ (g ++ [58]))
      (fun t => t ++ joined gs))|].
    + by apply creads_h16_with_colon.
    + apply right_2; [done | cbn in Hl; lia].
    + intros r Hr. destruct Hgs as [|h gs Hh _]; [done|]. apply (group_stops h anything); [done|done|].
      destruct Hr as (z & -> & _). destruct gs as [|i gs]; [by cbn in Hl|].
      rewrite joined_cons by done. rewrite <- !app_assoc. by eexists.
    + intros t. cbn. by rewrite <- app_assoc.
  - intros gs Hg Hl. destruct gs as [|g gs].
    + apply cfails_to_loosely, cfails_head. eapply cfails_weaken; [apply cfails_h16_with_colon_start|].
      intros r (z & -> & Hz). by apply closed_hex.
    + apply Forall_cons in Hg as [Hg Hgs]. destruct Hgs as [|h gs Hh Hgs].
      * apply cfails_to_loosely, cfails_head. apply cfails_h16_with_colon_end; [done|].
        intros r Hr. by apply closed_ends in Hr as (? & ? & _).
      * destruct gs; [|cbn in Hl; lia]. cbn [joined]. rewrite app_assoc.
        eapply cfails_loosely_weaken; [apply (cfails_tail_loosely _ _ not_colon (followed h closed) (g ++ [58])
          (fun t => t ++ (g ++ [58])))|].
        -- by apply creads_h16_with_colon.
        -- apply (proj2 right_2 [h]); [by constructor | cbn; lia].
        -- intros r Hr. by eapply group_stops.
        -- intros r. apply followed_app.
Qed.

(** *** Before the double colon *)

Definition doubled : bytes -> Prop := followed [58; 58] anything.

Lemma creads_double_colon F : creads double_colon F [58; 58] (fun t => t ++ [58; 58]).
Proof.
  apply (creads_weaken _ anything); [|done].
  apply (creads_consume (T := bytes) _ (@to_container bytes bytes string_container) anything [58; 58] (str "::")).
  by apply (reads_transformed (exact_p (str "::")) (just (str "::")) anything [58; 58] true), (reads_exact [58; 58]).
Qed.

Lemma cfails_double_colon r : not_colon r -> cfails double_colon (fun y => y = r \/ y = 58 :: r).
Proof.
  intros Hr. apply cfails_consume, fails_transformed. intros s Hs Hy.
  unfold exact_p, try_parse_exact_fragment. change (str "::") with [58; 58]. cbn [fragment_loop].
  assert (Hback : forall s', m_data s' = m_data s -> end_consumer (current_position s) false s' = s)
    by (intros; by apply end_consumer_back).
  destruct Hy as [E|E].
  - destruct r as [|c r]; [rewrite (getch_nil s) by done | rewrite (getch_cons s c r) by done]; cbn [m_eof m_ch].
    + do 2 eexists. by rewrite Hback.
    + change ((58 =? c) = false) in Hr. rewrite Z.eqb_sym in Hr. rewrite Hr. do 2 eexists. by rewrite Hback.
  - rewrite (getch_cons s 58 r) by done. cbn [m_eof m_ch]. rewrite Z.eqb_refl. cbn [negb].
    apply remaining_advance_1 in E.
    destruct r as [|c r]; [rewrite (getch_nil (advance 1 s)) by done | rewrite (getch_cons (advance 1 s) c r) by done];
      cbn [m_eof m_ch].
    + do 2 eexists. by rewrite Hback.
    + change ((58 =? c) = false) in Hr. rewrite Z.eqb_sym in Hr. rewrite Hr. do 2 eexists. by rewrite Hback.
Qed.

(** The clauses read up to [k] groups before a double colon, and there is no
    double colon behind them when there are more. *)
Definition reads_left (k : nat) (cs : list (clause bytes)) : Prop :=
  (forall gs, Forall group gs -> (length gs <= k)%nat ->
     creads (all_of cs) doubled (joined gs) (fun t => t ++ joined gs)) /\
  (forall gs rest, Forall group gs -> (k < length gs)%nat ->
     cfails_loosely (all_of (cs ++ double_colon :: rest)) (followed (joined gs) doubled)).

Lemma joined_not_colon gs F r : Forall group gs -> gs <> [] -> followed (joined gs) F r -> not_colon r.
Proof.
  intros Hg Hn (z & -> & _). destruct Hg as [|g gs Hg _]; [done|].
  apply (group_stops g anything); [done|done|].
  destruct gs as [|h gs]; [by eexists|]. rewrite joined_cons by done. rewrite <- !app_assoc. by eexists.
Qed.

Lemma left_0 : reads_left 0 [].
Proof.
  split.
  - intros [|g gs] _ Hl; [|cbn in Hl; lia]. eapply creads_ext; [apply creads_nil | intros; by rewrite app_nil_r].
  - intros gs rest Hg Hl. apply cfails_to_loosely, cfails_head. intros s t Hs Hr.
    eapply (cfails_double_colon (remaining s)); [|done|by left].
    eapply joined_not_colon; [done | by destruct gs; cbn in Hl; [lia|] | done].
Qed.

(** Nothing but the double colon. *)
Lemma creads_no_groups k F : cfails h16_with_colon F -> creads (repeat 0 k [h16_with_colon]) F [] (fun t => t).
Proof.
  intros Hf. apply (creads_repeat _ F 0 k []); [| |cbn; lia].
  - by intros [].
  - right. by apply cfails_head.
Qed.

Lemma doubled_not_hex r : doubled r -> not_hex r.
Proof. by intros (z & -> & _). Qed.

Lemma left_maybe_none k : creads (maybe [repeat 0 k [h16_with_colon]; one_h16]) doubled [] (fun t => t).
Proof.
  apply creads_maybe_not.
  eapply cfails_loosely_weaken; [apply (cfails_tail_loosely _ _ doubled doubled [] (fun t => t))|].
  - apply creads_no_groups. eapply cfails_weaken; [apply cfails_h16_with_colon_start | apply doubled_not_hex].
  - apply cfails_to_loosely, cfails_head. eapply cfails_weaken; [apply cfails_h16 | apply doubled_not_hex].
  - done.
  - intros r Hr. by exists r.
Qed.

(** Groups up to the one with no colon of its own. *)
Lemma left_maybe_some k ini g (F : bytes -> Prop) : Forall group ini -> group g -> (length ini <= k)%nat ->
  (length ini = k \/ cfails h16_with_colon (followed g F)) -> (forall r, F r -> not_hex r) ->
  creads (maybe [repeat 0 (N.of_nat k) [h16_with_colon]; one_h16]) F (joined (ini ++ [g]))
    (fun t => t ++ joined (ini ++ [g])).
Proof.
  intros Hi Hg Hl Hf HF. apply creads_maybe. rewrite joined_snoc.
  eapply creads_ext; [apply (creads_cons _ _ (followed g F) _ _ _ (fun t => t ++ with_colons ini) (fun t => t ++ g))|].
  - apply creads_groups; [done | lia | destruct Hf; [left; lia | by right] |].
    intros r Hr. by eapply group_stops.
  - apply creads_last. eapply creads_weaken; [by apply creads_h16 | done].
  - done.
  - intros t. cbn. by rewrite <- app_assoc.
Qed.

(** One colon, and something else behind it. *)
Definition one_colon (r : bytes) : Prop := exists y, r = 58 :: y /\ not_colon y.

Lemma left_maybe k : reads_left (S k) [maybe [repeat 0 (N.of_nat k) [h16_with_colon]; one_h16]].
Proof.
  split.
  - intros gs Hg Hl. apply creads_last. destruct (decide (gs = [])) as [->|Hn].
    + eapply creads_ext; [apply left_maybe_none | intros; by rewrite app_nil_r].
    + destruct (exists_last Hn) as (ini & g & ->). rewrite length_app in Hl. cbn in Hl.
      apply Forall_app in Hg as [Hi Hg%Forall_inv].
      apply left_maybe_some; [done | done | lia | right | apply doubled_not_hex].
      by apply cfails_h16_with_colon_double.
  - intros gs rest Hg Hl. pose proof (take_drop (S k) gs) as E.
    assert (Hl1 : length (take (S k) gs) = S k) by (rewrite length_take; lia).
    assert (Hl2 : drop (S k) gs <> []).
    { intros H%(f_equal length). rewrite length_drop in H. cbn in H. lia. }
    revert E Hl1 Hl2. generalize (take (S k) gs) (drop (S k) gs). intros g1 g2 <- Hl1 Hn2.
    apply Forall_app in Hg as [Hg1 Hg2].
    destruct (exists_last (l := g1)) as (ini & g & ->); [by destruct g1|].
    rewrite length_app in Hl1. cbn in Hl1. apply Forall_app in Hg1 as [Hi Hg%Forall_inv].
    eapply cfails_loosely_weaken; [apply (cfails_tail_loosely _ _ one_colon one_colon (joined (ini ++ [g]))
      (fun t => t ++ joined (ini ++ [g])))|].
    + apply left_maybe_some; [done | done | lia | left; lia |]. by intros r (y & -> & _).
    + apply cfails_to_loosely, cfails_head. intros s t Hs (y & Ey & Hy).
      apply (cfails_double_colon y Hy s t Hs). by right.
    + done.
    + intros r (z & -> & Hz). exists (58 :: joined g2 ++ z). split.
      * rewrite joined_app, joined_snoc by done. unfold with_colons. rewrite fmap_app, join_app. cbn.
        by rewrite <- !app_assoc.
      * exists (joined g2 ++ z). split; [done|]. eapply (joined_not_colon g2 doubled); [done..|]. by exists z.
Qed.

(** *** The alternatives around a double colon *)

Lemma all_of_app {T} (cs1 cs2 : list (clause T)) s t :
  all_of (cs1 ++ cs2) s t =
    match all_of cs1 s t with (None, s', t') => all_of cs2 s' t' | r => r end.
Proof.
  revert s t. induction cs1 as [|c cs1 IH]; intros s t; [done|]. cbn [app all_of].
  destruct (c s t) as [[[e|] s'] t']; [done | apply IH].
Qed.

Lemma creads_app_all {T} (cs1 cs2 : list (clause T)) F G x y f g :
  creads (all_of cs1) F x f -> creads (all_of cs2) G y g -> (forall r, followed y G r -> F r) ->
  creads (all_of (cs1 ++ cs2)) G (x ++ y) (fun t => g (f t)).
Proof.
  intros H1 H2 HF s r t Hs Hx Hr. rewrite <- app_assoc in Hx. rewrite all_of_app.
  rewrite (H1 s (y ++ r)); [|done..|apply HF; by exists r].
  rewrite (H2 _ r); [|by eapply valid_advance|by apply remaining_advance|done].
  by rewrite advance_add, length_app.
Qed.

Lemma cfails_app_tail {T} (cs1 cs2 : list (clause T)) F G x f :
  creads (all_of cs1) F x f -> cfails_loosely (all_of cs2) G -> (forall r, G r -> F r) ->
  cfails_loosely (all_of (cs1 ++ cs2)) (followed x G).
Proof.
  intros H1 H2 HF s t Hs (r & Hx & Hr). rewrite all_of_app. rewrite (H1 s r) by auto.
  destruct (H2 (advance (length x) s) (f t)) as (e & s' & t' & -> & H3 & H4).
  - by eapply valid_advance.
  - by erewrite remaining_advance.
  - by do 3 eexists.
Qed.

(** The alternative with at most [7 - n] groups before the double colon and
    [n] behind it. *)
Record around : Type := mk_around { behind : nat; left_part : list (clause bytes); right_part : list (clause bytes) }.
Definition around_clause (a : around) : clause bytes := sequence (left_part a ++ double_colon :: right_part a).
Definition around_ok (a : around) : Prop :=
  (behind a <= 7)%nat /\ reads_left (7 - behind a) (left_part a) /\ reads_right (behind a) (right_part a).

Definition compressed (gs1 gs2 : list bytes) : bytes := joined gs1 ++ [58; 58] ++ joined gs2.

Lemma around_reads a gs1 gs2 : around_ok a -> Forall group gs1 -> Forall group gs2 ->
  (length gs1 + length gs2 <= 7)%nat -> length gs2 = behind a ->
  creads (around_clause a) closed (compressed gs1 gs2) (fun t => t ++ compressed gs1 gs2).
Proof.
  intros (Ha & [Hl _] & [Hr _]) H1 H2 Hn Hb. apply creads_sequence.
  eapply creads_ext; [apply (creads_app_all _ _ doubled _ (joined gs1) ([58; 58] ++ joined gs2)
    (fun t => t ++ joined gs1) (fun t => (t ++ [58; 58]) ++ joined gs2))|].
  - apply Hl; [done | lia].
  - apply (creads_cons _ _ anything _ [58; 58] (joined gs2) (fun t => t ++ [58; 58]) (fun t => t ++ joined gs2)); [|by apply Hr|done].
    apply creads_double_colon.
  - intros r (z & -> & _). exists (joined gs2 ++ z). by rewrite <- app_assoc.
  - intros t. unfold compressed. cbn. by rewrite <- !app_assoc.
Qed.

Lemma around_fails a gs1 gs2 : around_ok a -> Forall group gs1 -> Forall group gs2 ->
  (length gs1 + length gs2 <= 7)%nat -> (length gs2 < behind a)%nat ->
  cfails_loosely (around_clause a) (followed (compressed gs1 gs2) closed).
Proof.
  intros (Ha & [Hl Hl'] & [_ Hr]) H1 H2 Hn Hb. apply cfails_to_loosely, cfails_sequence.
  destruct (decide (length gs1 <= 7 - behind a)%nat) as [Hk|Hk].
  - eapply cfails_loosely_weaken;
      [apply (cfails_app_tail _ _ doubled (followed [58; 58] (followed (joined gs2) closed)) (joined gs1)
        (fun t => t ++ joined gs1)); [apply Hl; [done | lia] | |]|].
    + apply (cfails_tail_loosely _ _ anything _ [58; 58] (fun t => t ++ [58; 58])); [apply creads_double_colon|by apply Hr|done].
    + intros r (z & -> & _). by exists z.
    + intros r (z & -> & Hz). exists ([58; 58] ++ joined gs2 ++ z). unfold compressed.
      rewrite <- !app_assoc. split; [done|]. exists (joined gs2 ++ z). split; [done|]. by exists z.
  - eapply cfails_loosely_weaken; [apply Hl'; [exact H1 | lia]|].
    intros r (z & -> & _). unfold compressed. rewrite <- !app_assoc. eexists. split; [done|].
    by exists (joined gs2 ++ z).
Qed.

(** The first alternative whose number of groups behind fits is taken. *)
Lemma arounds_read l n gs1 gs2 : Forall around_ok l -> behind <$> l = rev (seq 0 (S n)) ->
  Forall group gs1 -> Forall group gs2 -> (length gs1 + length gs2 <= 7)%nat -> (length gs2 <= n)%nat ->
  creads (alternatives (around_clause <$> l)) closed (compressed gs1 gs2) (fun t => t ++ compressed gs1 gs2).
Proof.
  intros Hl. revert n. induction Hl as [|a l Ha _ IH]; intros n E H1 H2 Hn Hle.
  - apply (f_equal length) in E. by rewrite length_rev, length_seq in E.
  - rewrite seq_S, rev_app_distr in E. injection E as Ea E. cbn [fmap list_fmap].
    destruct (decide (length gs2 = n)) as [Eq|Hne]; [apply creads_first, around_reads; by rewrite ?Ea|].
    apply creads_next; [apply around_fails; rewrite ?Ea; done || lia|].
    destruct n as [|n]; [lia|]. apply (IH n); [done..|lia].
Qed.

(** *** The whole address *)

Lemma cfails_no_groups k F : (0 < k)%N -> cfails h16_with_colon F -> cfails_loosely (repeat k k [h16_with_colon]) F.
Proof.
  intros Hk Hf. eapply cfails_loosely_weaken; [apply (cfails_repeat _ F k k [])|].
  - by intros [].
  - by apply cfails_to_loosely, cfails_head.
  - done.
  - done.
  - intros r Hr. by exists r.
Qed.

(** [6( h16 ":" ) ls32] is not a prefix of an address with a double colon. *)
Lemma full_fails gs1 gs2 : Forall group gs1 -> Forall group gs2 -> (length gs1 + length gs2 <= 7)%nat ->
  cfails_loosely (sequence [repeat 6 6 [h16_with_colon]; one_ls32]) (followed (compressed gs1 gs2) closed).
Proof.
  intros H1 H2 Hn. apply cfails_to_loosely, cfails_sequence.
  destruct (decide (gs1 = [])) as [->|Hne].
  - apply cfails_head_loosely, cfails_no_groups; [done|].
    eapply cfails_weaken; [apply cfails_h16_with_colon_start | by intros r (z & -> & _)].
  - destruct (last_group gs1 H1 Hne) as (ini & g & -> & Hi & Hg & E). rewrite length_app in Hn. cbn in Hn.
    assert (Ht : forall r, followed (compressed (ini ++ [g]) gs2) closed r -> followed (with_colons ini) (followed g doubled) r).
    { intros r (z & -> & _). unfold compressed. rewrite E, <- !app_assoc. eexists. split; [done|]. eexists. split; [done|].
      by eexists. }
    destruct (decide (length ini < 6)%nat) as [Hl|Hl].
    + apply cfails_head_loosely. eapply cfails_loosely_weaken; [|exact Ht].
      apply (cfails_groups 6 ini); [done | lia | by apply cfails_h16_with_colon_double |].
      intros r Hr. by eapply group_stops.
    + eapply cfails_loosely_weaken; [apply (cfails_tail_loosely _ _ (followed g doubled) (followed g doubled)
        (with_colons ini) (fun t => t ++ with_colons ini))|exact Ht].
      * apply creads_groups; [done | lia | left; lia |]. intros r Hr. by eapply group_stops.
      * apply cfails_to_loosely, cfails_head. intros s t Hs (y & Ey & z & -> & _).
        by apply (cfails_ls32_double g z Hg s t Hs).
      * done.
Qed.

Lemma full_reads gs : Forall group gs -> length gs = 8%nat ->
  creads (sequence [repeat 6 6 [h16_with_colon]; one_ls32]) closed (joined gs) (fun t => t ++ joined gs).
Proof.
  intros Hg Hl. apply creads_sequence. apply (proj1 (right_repeat 6 2 [one_ls32] ltac:(lia) right_2)); done.
Qed.

Definition arounds : list around :=
  [mk_around 7 [] [repeat 5 5 [h16_with_colon]; one_ls32];
   mk_around 6 [maybe [repeat 0 0 [h16_with_colon]; one_h16]] [repeat 4 4 [h16_with_colon]; one_ls32];
   mk_around 5 [maybe [repeat 0 1 [h16_with_colon]; one_h16]] [repeat 3 3 [h16_with_colon]; one_ls32];
   mk_around 4 [maybe [repeat 0 2 [h16_with_colon]; one_h16]] [repeat 2 2 [h16_with_colon]; one_ls32];
   mk_around 3 [maybe [repeat 0 3 [h16_with_colon]; one_h16]] [h16_with_colon; one_ls32];
   mk_around 2 [maybe [repeat 0 4 [h16_with_colon]; one_h16]] [one_ls32];
   mk_around 1 [maybe [repeat 0 5 [h16_with_colon]; one_h16]] [one_h16];
   mk_around 0 [maybe [repeat 0 6 [h16_with_colon]; one_h16]] []].

Lemma arounds_ok : Forall around_ok arounds.
Proof.
  repeat (apply Forall_cons; split); [.. | by apply Forall_nil]; split; try (cbn; lia); split.
  all: cbn [behind left_part right_part Nat.sub].
  all: first [exact left_0 | exact (left_maybe 0) | exact (left_maybe 1) | exact (left_maybe 2) | exact (left_maybe 3)
    | exact (left_maybe 4) | exact (left_maybe 5) | exact (left_maybe 6) | exact right_0 | exact right_1 | exact right_2
    | exact right_3 | idtac].
  all: first [exact (right_repeat 5 2 _ (Nat.lt_0_succ 1) right_2) | exact (right_repeat 4 2 _ (Nat.lt_0_succ 1) right_2)
    | exact (right_repeat 3 2 _ (Nat.lt_0_succ 1) right_2) | exact (right_repeat 2 2 _ (Nat.lt_0_succ 1) right_2) | idtac].
Qed.

Lemma ipv6_address_p_arounds :
  ipv6_address_p =
    produce bytes [alternatives (sequence [repeat 6 6 [h16_with_colon]; one_ls32] :: (around_clause <$> arounds))].
Proof. reflexivity. Qed.

(** ** The property *)

(** Eight groups, or at most seven around a double colon, each of one to four
    hexadecimal digits. *)
Inductive ipv6_literal : bytes -> Prop :=
| full gs : Forall group gs -> length gs = 8%nat -> ipv6_literal (joined gs)
| short gs1 gs2 : Forall group gs1 -> Forall group gs2 -> (length gs1 + length gs2 <= 7)%nat ->
    ipv6_literal (compressed gs1 gs2).

Lemma reads_ipv6 x : ipv6_literal x -> reads ipv6_address_p closed x x.
Proof.
  intros H. rewrite ipv6_address_p_arounds. apply (reads_make _ _ _ (fun t => t ++ x)); [|done]. apply creads_last.
  destruct H as [gs Hg Hl|gs1 gs2 H1 H2 Hn].
  - by apply creads_first, full_reads.
  - apply creads_next; [by apply full_fails|]. apply (arounds_read _ 7); [apply arounds_ok | done.. | lia].
Qed.

Lemma ends_well_bracketed x : ends_well ([91] ++ x ++ [93]).
Proof. by do 2 apply ends_well_app. Qed.

(** Host with an IPv6 address: for every literal of eight
    groups, and of up to seven groups around a double colon wherever it
    stands, each group of one to four hexadecimal digits, the bracketed text,
    possibly with a port, is parsed to an IPv6 address with that text in lower
    case and that port: among the nine ordered alternatives the right one is
    taken, and the ones before it fail. *)
Theorem ipv6_host_roundtrip x p (Hx : ipv6_literal x) (Hp : port_ok p) :
  try_parse ([91] ++ x ++ [93] ++ port_text p) host_p = Ok (mk_host (ipv6_address (to_lower x)) p).
Proof.
  replace ([91] ++ x ++ [93] ++ port_text p) with (([91] ++ x ++ [93]) ++ port_text p) by (cbn; by rewrite <- app_assoc).
  apply try_parse_reads; [apply host_end; [done | apply ends_well_bracketed]|].
  apply (reads_host _ _ _ anything); [done| |done].
  apply (reads_make _ _ _ (fun _ => ipv6_address (to_lower x))); [|done].
  apply creads_last, creads_first, (creads_consume _ (fun _ v => ipv6_address v)).
  apply (reads_make _ _ _ (fun _ => to_lower x)); [|done].
  apply (creads_cons _ _ anything _ [91] (x ++ [93]) (fun t => t) (fun _ => to_lower x)); [apply creads_symbol| |done].
  apply (creads_cons _ _ closed _ x [93] (fun _ => to_lower x) (fun t => t)); [|apply creads_last, creads_symbol|].
  - apply (creads_consume (lowered ipv6_address_p) as_result).
    by apply (reads_transformed ipv6_address_p to_lower), reads_ipv6.
  - by intros r (z & -> & _).
Qed.

Lemma ipv6_host_roundtrip_witness :
  try_parse (str "[2001:DB8::8:800:200C:417A]:443") host_p =
    Ok (mk_host (ipv6_address (str "2001:db8::8:800:200c:417a")) (Some 443)).
Proof.
  apply (ipv6_host_roundtrip (compressed [str "2001"; str "DB8"] [str "8"; str "800"; str "200C"; str "417A"]) (Some 443)).
  - apply short; [| |cbn; lia]; repeat constructor; cbn; lia.
  - cbn. lia.
Defined.
