(* ===== verification/MethodMatcher.v ===== *)
(** * Methods, statuses, and the matchers of methods

    The tables of methods and statuses of [restinio/http_headers.hpp], and
    [restinio/router/method_matcher.hpp]: the matchers that routers ask whether
    the method of a request is one of a route's, and the holder that keeps a
    matcher of any type in a buffer of its own. *)

From S2P Require Import Prelude.

(** ** Tables *)

(*@ http_headers.hpp 1652-1692 RESTINIO_HTTP_METHOD_MAP *)
Definition http_methods : list (string * string * string) :=
  [("http_method_delete", "HTTP_DELETE", "DELETE"); ("http_method_get", "HTTP_GET", "GET");
   ("http_method_head", "HTTP_HEAD", "HEAD"); ("http_method_post", "HTTP_POST", "POST");
   ("http_method_put", "HTTP_PUT", "PUT"); ("http_method_connect", "HTTP_CONNECT", "CONNECT");
   ("http_method_options", "HTTP_OPTIONS", "OPTIONS"); ("http_method_trace", "HTTP_TRACE", "TRACE");
   ("http_method_copy", "HTTP_COPY", "COPY"); ("http_method_lock", "HTTP_LOCK", "LOCK");
   ("http_method_mkcol", "HTTP_MKCOL", "MKCOL"); ("http_method_move", "HTTP_MOVE", "MOVE");
   ("http_method_propfind", "HTTP_PROPFIND", "PROPFIND");
   ("http_method_proppatch", "HTTP_PROPPATCH", "PROPPATCH"); ("http_method_search", "HTTP_SEARCH", "SEARCH");
   ("http_method_unlock", "HTTP_UNLOCK", "UNLOCK"); ("http_method_bind", "HTTP_BIND", "BIND");
   ("http_method_rebind", "HTTP_REBIND", "REBIND"); ("http_method_unbind", "HTTP_UNBIND", "UNBIND");
   ("http_method_acl", "HTTP_ACL", "ACL"); ("http_method_report", "HTTP_REPORT", "REPORT");
   ("http_method_mkactivity", "HTTP_MKACTIVITY", "MKACTIVITY");
   ("http_method_checkout", "HTTP_CHECKOUT", "CHECKOUT"); ("http_method_merge", "HTTP_MERGE", "MERGE");
   ("http_method_msearch", "HTTP_MSEARCH", "M-SEARCH"); ("http_method_notify", "HTTP_NOTIFY", "NOTIFY");
   ("http_method_subscribe", "HTTP_SUBSCRIBE", "SUBSCRIBE");
   ("http_method_unsubscribe", "HTTP_UNSUBSCRIBE", "UNSUBSCRIBE");
   ("http_method_patch", "HTTP_PATCH", "PATCH"); ("http_method_purge", "HTTP_PURGE", "PURGE");
   ("http_method_mkcalendar", "HTTP_MKCALENDAR", "MKCALENDAR"); ("http_method_link", "HTTP_LINK", "LINK");
   ("http_method_unlink", "HTTP_UNLINK", "UNLINK")]%string.

(*@ http_headers.hpp 2040-2091 status_code *)
Definition rfc2616_status_codes : list (string * Z) :=
  [("continue_", 100); ("switching_protocols", 101); ("ok", 200); ("created", 201); ("accepted", 202);
   ("non_authoritative_information", 203); ("no_content", 204); ("reset_content", 205);
   ("partial_content", 206); ("multiple_choices", 300); ("moved_permanently", 301); ("found", 302);
   ("see_other", 303); ("not_modified", 304); ("use_proxy", 305); ("temporary_redirect", 307);
   ("bad_request", 400); ("unauthorized", 401); ("payment_required", 402); ("forbidden", 403);
   ("not_found", 404); ("method_not_allowed", 405); ("not_acceptable", 406);
   ("proxy_authentication_required", 407); ("request_time_out", 408); ("conflict", 409); ("gone", 410);
   ("length_required", 411); ("precondition_failed", 412); ("payload_too_large", 413); ("uri_too_long", 414);
   ("unsupported_media_type", 415); ("requested_range_not_satisfiable", 416); ("expectation_failed", 417);
   ("internal_server_error", 500); ("not_implemented", 501); ("bad_gateway", 502);
   ("service_unavailable", 503); ("gateway_time_out", 504); ("http_version_not_supported", 505)]%string.

(*@ http_headers.hpp 2099-2113 status_code *)
Definition additional_status_codes : list (string * Z) :=
  [("permanent_redirect", 308); ("processing", 102); ("multi_status", 207); ("unprocessable_entity", 422);
   ("locked", 423); ("failed_dependency", 424); ("insufficient_storage", 507); ("precondition_required", 428);
   ("too_many_requests", 429); ("request_header_fields_too_large", 431);
   ("network_authentication_required", 511)]%string.

(*@ http_headers.hpp 2169-2287 status_continue *)
Definition rfc2616_statuses : list (string * string * string) :=
  [("status_continue", "continue_", "Continue");
   ("status_switching_protocols", "switching_protocols", "Switching Protocols"); ("status_ok", "ok", "OK");
   ("status_created", "created", "Created"); ("status_accepted", "accepted", "Accepted");
   ("status_non_authoritative_information", "non_authoritative_information", "Non-Authoritative Information");
   ("status_no_content", "no_content", "No Content");
   ("status_reset_content", "reset_content", "Reset Content");
   ("status_partial_content", "partial_content", "Partial Content");
   ("status_multiple_choices", "multiple_choices", "Multiple Choices");
   ("status_moved_permanently", "moved_permanently", "Moved Permanently"); ("status_found", "found", "Found");
   ("status_see_other", "see_other", "See Other"); ("status_not_modified", "not_modified", "Not Modified");
   ("status_use_proxy", "use_proxy", "Use Proxy");
   ("status_temporary_redirect", "temporary_redirect", "Temporary Redirect");
   ("status_bad_request", "bad_request", "Bad Request");
   ("status_unauthorized", "unauthorized", "Unauthorized");
   ("status_payment_required", "payment_required", "Payment Required");
   ("status_forbidden", "forbidden", "Forbidden"); ("status_not_found", "not_found", "Not Found");
   ("status_method_not_allowed", "method_not_allowed", "Method Not Allowed");
   ("status_not_acceptable", "not_acceptable", "Not Acceptable");
   ("status_proxy_authentication_required", "proxy_authentication_required", "Proxy Authentication Required");
   ("status_request_time_out", "request_time_out", "Request Timeout");
   ("status_conflict", "conflict", "Conflict"); ("status_gone", "gone", "Gone");
   ("status_length_required", "length_required", "Length Required");
   ("status_precondition_failed", "precondition_failed", "Precondition Failed");
   ("status_payload_too_large", "payload_too_large", "Payload Too Large");
   ("status_uri_too_long", "uri_too_long", "URI Too Long");
   ("status_unsupported_media_type", "unsupported_media_type", "Unsupported Media Type");
   ("status_requested_range_not_satisfiable", "requested_range_not_satisfiable", "Requested Range Not Satisfiable");
   ("status_expectation_failed", "expectation_failed", "Expectation Failed");
   ("status_internal_server_error", "internal_server_error", "Internal Server Error");
   ("status_not_implemented", "not_implemented", "Not Implemented");
   ("status_bad_gateway", "bad_gateway", "Bad Gateway");
   ("status_service_unavailable", "service_unavailable", "Service Unavailable");
   ("status_gateway_time_out", "gateway_time_out", "Gateway Timeout");
   ("status_http_version_not_supported", "http_version_not_supported", "HTTP Version not supported")]%string.

(*@ http_headers.hpp 2295-2328 status_permanent_redirect *)
Definition additional_statuses : list (string * string * string) :=
  [("status_permanent_redirect", "permanent_redirect", "Permanent Redirect");
   ("status_processing", "processing", "Processing"); ("status_multi_status", "multi_status", "Multi-Status");
   ("status_unprocessable_entity", "unprocessable_entity", "Unprocessable Entity");
   ("status_locked", "locked", "Locked");
   ("status_failed_dependency", "failed_dependency", "Failed Dependency");
   ("status_insufficient_storage", "insufficient_storage", "Insufficient Storage");
   ("status_precondition_required", "precondition_required", "Precondition Required");
   ("status_too_many_requests", "too_many_requests", "Too Many Requests");
   ("status_request_header_fields_too_large", "request_header_fields_too_large", "Request Header Fields Too Large");
   ("status_network_authentication_required", "network_authentication_required", "Network Authentication Required")]%string.

(** ** Methods *)

(*@ http_headers.hpp 1743-1774 http_method_id_t *)
Record http_method_id_t : Type := mk_method { m_value : Z; m_name : string }.

(*@ http_headers.hpp 1749-1754 http_method_id_t::unknown_method *)
Definition unknown_method : Z := -1.
(*@ http_headers.hpp 1807-1811 http_method_unknown *)
Definition http_method_unknown : http_method_id_t := mk_method unknown_method "<undefined>".

(*@ http_headers.hpp 1776-1779 http_method_id_t::operator== *)
Definition method_eq (a b : http_method_id_t) : bool := m_value a =? m_value b.
(*@ http_headers.hpp 1786-1789 http_method_id_t::operator< *)
Definition method_lt (a b : http_method_id_t) : bool := m_value a <? m_value b.

Section Nodejs.
(** The numbers the parser has for its constants. *)
Context (nodejs_code : string -> Z).

(** The functions [http_method_delete], [http_method_get], ... *)
(*@ http_headers.hpp 1798-1805 RESTINIO_HTTP_METHOD_FUNC_GEN *)
Definition method_of_row (row : string * string * string) : http_method_id_t :=
  let '(_, code, name) := row in mk_method (nodejs_code code) name.
Definition http_method (func_name : string) : option http_method_id_t :=
  '(_, row) ← list_find (fun row => row.1.1 = func_name) http_methods; Some (method_of_row row).

(** The cases of the [switch] in their order. *)
(*@ http_headers.hpp 1833-1853 default_http_methods_t::from_nodejs *)
Definition from_nodejs (value : Z) : http_method_id_t :=
  match list_find (fun row => nodejs_code row.1.2 = value) http_methods with
  | Some (_, row) => method_of_row row
  | None => http_method_unknown
  end.
End Nodejs.

(** ** Matchers *)

(** What a router asks of any matcher, those of the user included. *)
(*@ router/method_matcher.hpp 38-59 method_matcher_t *)
Class MethodMatcher (M : Type) : Type := match_method : M -> http_method_id_t -> bool.

(*@ router/method_matcher.hpp 110-125 simple_matcher_t *)
Record simple_matcher_t : Type := mk_simple { m_method : http_method_id_t }.
#[export] Instance simple_matcher : MethodMatcher simple_matcher_t := fun m method => method_eq (m_method m) method.

(** The loop of [match] over the stored methods. *)
Definition any_of (methods : list http_method_id_t) (method : http_method_id_t) : bool :=
  existsb (fun m => method_eq m method) methods.

(** [m_methods] has as many elements as the matcher was made for. *)
(*@ router/method_matcher.hpp 138-169 fixed_size_any_of_matcher_t *)
Record fixed_size_any_of_matcher_t : Type := mk_fixed_any { fa_methods : list http_method_id_t }.
#[export] Instance fixed_size_any_of : MethodMatcher fixed_size_any_of_matcher_t := fun m => any_of (fa_methods m).

(*@ router/method_matcher.hpp 182-197 fixed_size_none_of_matcher_t *)
Record fixed_size_none_of_matcher_t : Type := mk_fixed_none { fn_base : fixed_size_any_of_matcher_t }.
#[export] Instance fixed_size_none_of : MethodMatcher fixed_size_none_of_matcher_t :=
  fun m method => negb (match_method (fn_base m) method).

(*@ router/method_matcher.hpp 414-420 any_of_methods *)
Definition any_of_methods (args : list http_method_id_t) : fixed_size_any_of_matcher_t := mk_fixed_any args.
(*@ router/method_matcher.hpp 446-452 none_of_methods *)
Definition none_of_methods (args : list http_method_id_t) : fixed_size_none_of_matcher_t := mk_fixed_none (mk_fixed_any args).

(*@ router/method_matcher.hpp 475-513 dynamic_any_of_methods_matcher_t *)
Record dynamic_any_of_methods_matcher_t : Type := mk_dynamic_any { da_methods : list http_method_id_t }.
#[export] Instance dynamic_any_of : MethodMatcher dynamic_any_of_methods_matcher_t := fun m => any_of (da_methods m).
(*@ router/method_matcher.hpp 493-498 dynamic_any_of_methods_matcher_t::add *)
Definition da_add (m : dynamic_any_of_methods_matcher_t) (method : http_method_id_t) : dynamic_any_of_methods_matcher_t :=
  mk_dynamic_any (da_methods m ++ [method]).

(** Its loop has its own early return. *)
Fixpoint none_of_loop (methods : list http_method_id_t) (method : http_method_id_t) : bool :=
  match methods with
  | [] => true
  | m :: methods => if method_eq m method then false else none_of_loop methods method
  end.
(*@ router/method_matcher.hpp 536-574 dynamic_none_of_methods_matcher_t *)
Record dynamic_none_of_methods_matcher_t : Type := mk_dynamic_none { dn_methods : list http_method_id_t }.
#[export] Instance dynamic_none_of : MethodMatcher dynamic_none_of_methods_matcher_t := fun m => none_of_loop (dn_methods m).
(*@ router/method_matcher.hpp 554-559 dynamic_none_of_methods_matcher_t::add *)
Definition dn_add (m : dynamic_none_of_methods_matcher_t) (method : http_method_id_t) : dynamic_none_of_methods_matcher_t :=
  mk_dynamic_none (dn_methods m ++ [method]).

(** ** The holder *)

(** A type of matchers: its objects, the size of one, and what a move leaves. *)
Record matcher_type : Type := mk_type {
  object : Type;
  type_size : Z;
  type_match : object -> http_method_id_t -> bool;
  moved_from : object -> object;
  owns_memory : object -> bool }.

Inductive fault : Type :=
| null_dereference
| use_after_destruction
| double_destruction
| object_abandoned.

Section Holder.
Context (T : matcher_type).

(** What is in the internal buffer: nothing yet, a matcher, the proxy of a matcher
    in dynamic memory ([None] after a move), or an object that was destroyed. *)
(*@ router/method_matcher.hpp 79-96 allocated_matcher_proxy_t *)
Inductive content : Type :=
| raw
| small (o : object T)
| proxy (o : option (object T))
| destroyed.

(** [true] is a pointer to the buffer or to the mover of what was assigned. *)
(*@ router/method_matcher.hpp 224-261 buffered_matcher_holder_t *)
Record buffered_matcher_holder_t : Type := mk_holder { m_matcher : bool; m_buffer : content; m_mover : bool }.

Definition holder_create : buffered_matcher_holder_t := mk_holder false raw false.

(** Size of [fixed_size_any_of_matcher_t<4>]: a table pointer and four methods. *)
(*@ router/method_matcher.hpp 226-228 buffered_matcher_holder_t::buffer_size *)
Definition buffer_size : Z := 8 + 4 * 16.

(** The pointer is left as it is. *)
(*@ router/method_matcher.hpp 263-267 buffered_matcher_holder_t::cleanup *)
Definition cleanup (h : buffered_matcher_holder_t) : result fault buffered_matcher_holder_t :=
  if m_matcher h then
    match m_buffer h with
    | small _ | proxy _ => Ok (mk_holder true destroyed (m_mover h))
    | raw | destroyed => Err double_destruction
    end
  else Ok h.

(** A new object over the memory of one that owns something abandons that. *)
Definition place (h : buffered_matcher_holder_t) (c : content) : result fault content :=
  match m_buffer h with
  | small o => if owns_memory T o then Err object_abandoned else Ok c
  | proxy (Some _) => Err object_abandoned
  | raw | destroyed | proxy None => Ok c
  end.

(** This holder and the other one, in which the object that was moved from stays
    without being destroyed. *)
(*@ router/method_matcher.hpp 269-280 buffered_matcher_holder_t::move_from *)
Definition move_from (h other : buffered_matcher_holder_t)
    : result fault (buffered_matcher_holder_t * buffered_matcher_holder_t) :=
  if m_matcher other then
    match m_buffer other with
    | small o =>
        c ← place h (small o);
        Ok (mk_holder true c (m_mover other), mk_holder false (small (moved_from T o)) false)
    | proxy o =>
        c ← place h (proxy o);
        Ok (mk_holder true c (m_mover other), mk_holder false (proxy None) false)
    | raw | destroyed => Err use_after_destruction
    end
  else Ok (h, other).

(*@ router/method_matcher.hpp 285-288 buffered_matcher_holder_t::~buffered_matcher_holder_t *)
Definition holder_destroy (h : buffered_matcher_holder_t) : result fault buffered_matcher_holder_t := cleanup h.

(*@ router/method_matcher.hpp 296-301 buffered_matcher_holder_t::buffered_matcher_holder_t *)
Definition move_construct (other : buffered_matcher_holder_t) := move_from holder_create other.

(** Of two different holders. *)
(*@ router/method_matcher.hpp 303-314 buffered_matcher_holder_t::operator= *)
Definition move_assign (h other : buffered_matcher_holder_t)
    : result fault (buffered_matcher_holder_t * buffered_matcher_holder_t) :=
  h ← cleanup h; move_from h other.

(*@ router/method_matcher.hpp 327-354 buffered_matcher_holder_t::assign *)
Definition assign (h : buffered_matcher_holder_t) (o : object T) : result fault buffered_matcher_holder_t :=
  h ← cleanup h;
  c ← place h (if type_size T <=? buffer_size then small o else proxy (Some o));
  Ok (mk_holder true c true).

(** [get()->match( method )]. *)
(*@ router/method_matcher.hpp 361-363 buffered_matcher_holder_t::operator-> *)
Definition holder_match (h : buffered_matcher_holder_t) (method : http_method_id_t) : result fault bool :=
  if m_matcher h then
    match m_buffer h with
    | small o | proxy (Some o) => Ok (type_match T o method)
    | proxy None => Err null_dereference
    | raw | destroyed => Err use_after_destruction
    end
  else Err null_dereference.
End Holder.

(** ** Theorems *)

Section Tables.
Context (nodejs_code : string -> Z).

(** The numbers of the parser's constants are different and not negative. *)
Definition codes : list string := (fun row => row.1.2) <$> http_methods.
Definition nodejs_wf : Prop :=
  (forall c c', c ∈ codes -> c' ∈ codes -> nodejs_code c = nodejs_code c' -> c = c') /\
  forall c, c ∈ codes -> 0 <= nodejs_code c.

Lemma codes_nodup : NoDup codes.
Proof. apply (bool_decide_unpack _). vm_compute. exact I. Qed.

(** Each method is found again under the parser's number, and any other number is
    the unknown method, which no known one equals. *)
Theorem from_nodejs_exact : nodejs_wf ->
  (forall row, row ∈ http_methods ->
     from_nodejs nodejs_code (nodejs_code row.1.2) = method_of_row nodejs_code row /\
     method_eq (method_of_row nodejs_code row) http_method_unknown = false) /\
  (forall value, (forall row, row ∈ http_methods -> nodejs_code row.1.2 <> value) ->
     from_nodejs nodejs_code value = http_method_unknown).
Proof.
  intros [Hinj Hpos]. split.
  - intros row Hrow. pose proof Hrow as Hc. apply (list_elem_of_fmap_2 (fun row => row.1.2)) in Hc. fold codes in Hc.
    split.
    + unfold from_nodejs. destruct (list_find _ http_methods) as [[i row']|] eqn:E.
      * apply list_find_Some in E as (Hi & E & _). assert (row' = row) as ->; [|done].
        apply list_elem_of_lookup in Hrow as [j Hj].
        assert (Hi' : codes !! i = Some row'.1.2) by (unfold codes; by rewrite list_lookup_fmap, Hi).
        assert (Hj' : codes !! j = Some row.1.2) by (unfold codes; by rewrite list_lookup_fmap, Hj).
        apply Hinj in E; [|by eapply list_elem_of_lookup_2|done]. rewrite E in Hi'.
        rewrite (NoDup_lookup codes i j row.1.2 codes_nodup Hi' Hj') in Hi. congruence.
      * exfalso. apply list_find_None in E. rewrite Forall_forall in E. by apply (E row Hrow).
    + destruct row as [[f c] n]. unfold method_eq. cbn. specialize (Hpos c Hc). unfold unknown_method. lia.
  - intros value H. unfold from_nodejs. destruct (list_find _ http_methods) as [[i row]|] eqn:E; [|done].
    apply list_find_Some in E as (Hi & E & _). exfalso. by eapply H; [eapply list_elem_of_lookup_2|].
Qed.
End Tables.

(** All status codes are different numbers of three digits, and every status has
    one of them. *)
Theorem statuses_are_codes :
  NoDup (snd <$> rfc2616_status_codes ++ additional_status_codes) /\
  Forall (fun c => 100 <= c < 600) (snd <$> rfc2616_status_codes ++ additional_status_codes) /\
  (fun s => s.1.2) <$> rfc2616_statuses ++ additional_statuses = fst <$> rfc2616_status_codes ++ additional_status_codes.
Proof.
  split; [apply (bool_decide_unpack _); vm_compute; exact I|].
  split; [|vm_compute; reflexivity]. apply (bool_decide_unpack _). vm_compute. exact I.
Qed.

(** The early return of the dynamic matcher is the negation of the other loop. *)
Lemma none_of_loop_spec methods method : none_of_loop methods method = negb (any_of methods method).
Proof. unfold any_of. induction methods as [|m methods IH]; cbn; [done|]. by destruct (method_eq m method). Qed.

Lemma any_of_spec methods method : any_of methods method = true <-> exists m, m ∈ methods /\ m_value m = m_value method.
Proof.
  unfold any_of. rewrite existsb_exists. unfold method_eq. split; intros (m & Hm & E); exists m;
    (split; [by apply list_elem_of_In | lia]).
Qed.

Section HolderTheorems.
Context (T : matcher_type) (Hmoved : forall o, owns_memory T (moved_from T o) = false).

(** A holder that points to its buffer has a matcher there, and else nothing that
    somebody has to give back. *)
Definition consistent (h : buffered_matcher_holder_t T) : Prop :=
  match m_buffer T h with
  | small _ o => m_matcher T h = true \/ owns_memory T o = false
  | proxy _ (Some _) => m_matcher T h = true
  | proxy _ None | raw _ | destroyed _ => m_matcher T h = false
  end.

(** The matcher of a holder. *)
Definition holds (h : buffered_matcher_holder_t T) (o : object T) : Prop :=
  m_matcher T h = true /\ (m_buffer T h = small T o \/ m_buffer T h = proxy T (Some o)).

Lemma consistent_create : consistent (holder_create T).
Proof. done. Qed.

Lemma holds_consistent h o : holds h o -> consistent h.
Proof. unfold consistent. intros [H [-> | ->]]; [by left | done]. Qed.

Lemma consistent_cases h : consistent h -> m_matcher T h = false \/ exists o, holds h o.
Proof.
  unfold consistent, holds. destruct h as [[] [|o|[o|]|] b]; cbn; intros H; try done; try (by left); right; exists o; tauto.
Qed.

Lemma cleanup_ok h : consistent h -> exists h', cleanup T h = Ok h' /\ m_matcher T h' = m_matcher T h /\
  forall c, place T h' c = Ok c.
Proof.
  unfold consistent, cleanup. destruct h as [[] [|o|[o|]|] b]; cbn; intros H; try done; eexists; split_and!; try done.
  intros c. unfold place. cbn. destruct H as [H|H]; [done | by rewrite H].
Qed.

Lemma move_from_ok h other o : (forall c, place T h c = Ok c) -> holds other o ->
  exists h' other', move_from T h other = Ok (h', other') /\ holds h' o /\ consistent other' /\ m_matcher T other' = false.
Proof.
  intros Hp [Hm Hb]. unfold move_from, holds, consistent. rewrite Hm.
  destruct Hb as [-> | ->]; rewrite Hp; cbn [mbind result_bind]; do 2 eexists; split_and!; try done;
    cbn; [by left | by right | by right].
Qed.

(** The holder answers for the matcher it was given last, wherever that is stored,
    and a matcher moves with all its answers; no operation on consistent holders
    destroys an object twice, uses a destroyed one or loses memory, with the
    exception of the theorem that follows. *)
Theorem holder_keeps_matcher h h2 o o2 : consistent h -> holds h2 o2 ->
  (exists h', assign T h o = Ok h' /\ holds h' o /\ forall method, holder_match T h' method = Ok (type_match T o method)) /\
  (exists h' h2', move_assign T h h2 = Ok (h', h2') /\ holds h' o2 /\ consistent h2' /\ m_matcher T h2' = false) /\
  (exists h' h2', move_construct T h2 = Ok (h', h2') /\ holds h' o2 /\ consistent h2' /\ m_matcher T h2' = false) /\
  (exists h', holder_destroy T h = Ok h').
Proof.
  intros Hc H2. destruct (cleanup_ok h Hc) as (h1 & E1 & Em & Hp). split_and!.
  - unfold assign. rewrite E1. cbn [mbind result_bind]. rewrite Hp. cbn [mbind result_bind].
    eexists. split; [done|]. unfold holds, holder_match. cbn. destruct (type_size T <=? buffer_size); cbn; tauto.
  - unfold move_assign. rewrite E1. cbn [mbind result_bind]. by apply move_from_ok.
  - by apply move_from_ok.
  - exists h1. exact E1.
Qed.

(** Assigned from an empty holder, a holder destroys its matcher but keeps the
    pointer to it: the next use is one of a destroyed object, and its own
    destructor destroys that a second time. *)
Theorem move_from_empty_dangles h o : holds h o ->
  exists h', move_assign T h (holder_create T) = Ok (h', holder_create T) /\
    (forall method, holder_match T h' method = Err use_after_destruction) /\
    holder_destroy T h' = Err double_destruction.
Proof.
  intros [Hm Hb]. unfold move_assign, cleanup. rewrite Hm. exists (mk_holder T true (destroyed T) (m_mover T h)).
  by destruct Hb as [-> | ->].
Qed.
End HolderTheorems.
