(* ===== verification/Regex.v ===== *)
(** * Regular expressions

    [std::regex] of the language's library, as the routers and the translation
    of routes use it: the ECMAScript grammar, the search for the leftmost match
    with backtracking, and the iterator over all matches. Escapes that no route
    of the sources needs (word boundaries, back references, codes in hexadecimal)
    and named classes are refused as [not_modelled]. *)

From S2P Require Import Prelude.

(** ** Expressions *)

(** Characters of some ranges, or all the others. *)
Record char_set : Type := mk_set { cs_negated : bool; cs_ranges : list (Z * Z) }.

Inductive regex : Type :=
| Eps
| Chars (s : char_set)
| Seq (r1 r2 : regex)
| Alt (r1 r2 : regex)
| Group (n : nat) (r : regex)
| Look (positive : bool) (r : regex)
| Rep (greedy : bool) (min : nat) (max : option nat) (r : regex)
| Bol
| Eol.

#[global] Instance char_set_eq_dec : EqDecision char_set.
Proof. solve_decision. Defined.
#[global] Instance regex_eq_dec : EqDecision regex.
Proof. solve_decision. Defined.

Definition single (c : Z) : regex := Chars (mk_set false [(c, c)]).

(** ** Matching *)

Definition in_ranges (rs : list (Z * Z)) (c : Z) : bool := existsb (fun '(lo, hi) => (lo <=? c) && (c <=? hi)) rs.

Definition lower (c : Z) : Z := if (65 <=? c) && (c <=? 90) then c + 32 else c.
Definition upper (c : Z) : Z := if (97 <=? c) && (c <=? 122) then c - 32 else c.

(** With [icase] a range has a character when it has one of its cases. *)
Definition in_set (icase : bool) (s : char_set) (c : Z) : bool :=
  xorb (cs_negated s)
    (if icase then in_ranges (cs_ranges s) (lower c) || in_ranges (cs_ranges s) (upper c)
     else in_ranges (cs_ranges s) c).

(** The bounds of each group that has taken part; group 0 is the whole match. *)
Abbreviation captures := (list (option (nat * nat))).
Abbreviation state := (nat * captures)%type.
Abbreviation continuation := (state -> option state).

Definition orelse {A} (x y : option A) : option A := match x with Some _ => x | None => y end.

Section Match.
Context (icase : bool) (text : bytes).

(** The iterations of a repetition; [n] is more than the bytes that are left. *)
Fixpoint iterate (body : state -> continuation -> option state) (greedy : bool) (n min : nat) (max : option nat)
    (st : state) (k : continuation) : option state :=
  match n with
  | O => None
  | S n' =>
      match min with
      | S min' => body st (fun st' => iterate body greedy n' min' (pred <$> max) st' k)
      | O =>
          if bool_decide (max = Some 0%nat) then k st
          else
            let again := body st (fun st' =>
              if (st'.1 =? st.1)%nat then None else iterate body greedy n' 0 (pred <$> max) st' k) in
            if greedy then orelse again (k st) else orelse (k st) again
      end
  end.

Fixpoint matches (r : regex) (st : state) (k : continuation) : option state :=
  match r with
  | Eps => k st
  | Chars s =>
      match text !! st.1 with
      | Some c => if in_set icase s c then k (S st.1, st.2) else None
      | None => None
      end
  | Seq r1 r2 => matches r1 st (fun st => matches r2 st k)
  | Alt r1 r2 => orelse (matches r1 st k) (matches r2 st k)
  | Group n r => matches r st (fun st' => k (st'.1, <[n := Some (st.1, st'.1)]> st'.2))
  | Look positive r =>
      match matches r st Some, positive with
      | Some st', true => k (st.1, st'.2)
      | None, false => k st
      | _, _ => None
      end
  | Rep greedy min max r =>
      iterate (matches r) greedy (S (S (min + (length text - st.1)))) min max st k
  | Bol => if (st.1 =? 0)%nat then k st else None
  | Eol => if (st.1 =? length text)%nat then k st else None
  end.

(** The leftmost match that begins at [pos] or later, of which [n] are tried. *)
Fixpoint search_from (r : regex) (groups n pos : nat) : option captures :=
  match n with
  | O => None
  | S n' =>
      match matches r (pos, replicate (S groups) None) Some with
      | Some (e, caps) => Some (<[0%nat := Some (pos, e)]> caps)
      | None => search_from r groups n' (S pos)
      end
  end.

Definition search (r : regex) (groups pos : nat) : option captures :=
  search_from r groups (S (length text - pos)) pos.

(** All matches from [pos] on. An iterator would go on after an empty match too;
    the sources iterate over an expression without empty matches. *)
Fixpoint all_matches (r : regex) (groups n pos : nat) : list captures :=
  match n with
  | O => []
  | S n' =>
      match search r groups pos with
      | Some caps =>
          match caps !! 0%nat with
          | Some (Some (b, e)) => if (e =? b)%nat then [caps] else caps :: all_matches r groups n' e
          | _ => [caps]
          end
      | None => []
      end
  end.
Definition regex_iterator (r : regex) (groups : nat) : list captures := all_matches r groups (S (length text)) 0.

Definition sub_match (caps : captures) (i : nat) : bytes :=
  match caps !! i with Some (Some (b, e)) => take (e - b) (drop b text) | _ => [] end.
End Match.

(** ** The grammar *)

Inductive regex_error : Type :=
| error_escape
| error_brack
| error_paren
| error_brace
| error_range
| error_badrepeat
| not_modelled.

Inductive group_kind : Type := Capture (n : nat) | NonCapture | LookAhead (positive : bool).

(** What has been read of a group: its finished alternatives, the terms of the
    present one, and the last atom, which a quantifier may follow. *)
Record frame : Type := mk_frame { f_kind : group_kind; f_alts : option regex; f_seq : regex }.

Inductive lex_state : Type :=
| L_normal
| L_quantified
| L_escape
| L_paren
| L_paren_question
| L_brace (min : option nat) (comma : bool) (max : option nat)
| L_class_start
| L_class (negated : bool) (ranges : list (Z * Z)) (last : option Z) (dash : bool)
| L_class_escape (negated : bool) (ranges : list (Z * Z)) (last : option Z) (dash : bool).

Record parser : Type := mk_parser {
  p_lex : lex_state;
  p_stack : list frame;
  p_alts : option regex;
  p_seq : regex;
  p_last : option regex;
  p_groups : nat }.

Definition flushed (p : parser) : regex := match p_last p with Some r => Seq (p_seq p) r | None => p_seq p end.
Definition with_lex (p : parser) (l : lex_state) : parser :=
  mk_parser l (p_stack p) (p_alts p) (p_seq p) (p_last p) (p_groups p).
Definition push_atom (p : parser) (r : regex) : parser :=
  mk_parser L_normal (p_stack p) (p_alts p) (flushed p) (Some r) (p_groups p).
Definition push_assertion (p : parser) (r : regex) : parser :=
  mk_parser L_normal (p_stack p) (p_alts p) (Seq (flushed p) r) None (p_groups p).
Definition disjunction (p : parser) : regex :=
  match p_alts p with Some r => Alt r (flushed p) | None => flushed p end.
Definition next_alternative (p : parser) : parser :=
  mk_parser L_normal (p_stack p) (Some (disjunction p)) Eps None (p_groups p).
Definition open_group (p : parser) (k : group_kind) : parser :=
  mk_parser L_normal (mk_frame k (p_alts p) (flushed p) :: p_stack p) None Eps None
    (match k with Capture _ => S (p_groups p) | _ => p_groups p end).
Definition close_group (p : parser) : result regex_error parser :=
  match p_stack p with
  | [] => Err error_paren
  | f :: fs =>
      let p' := mk_parser L_normal fs (f_alts f) (f_seq f) None (p_groups p) in
      Ok (match f_kind f with
          | Capture n => push_atom p' (Group n (disjunction p))
          | NonCapture => push_atom p' (disjunction p)
          | LookAhead b => push_assertion p' (Look b (disjunction p))
          end)
  end.
Definition quantify (p : parser) (min : nat) (max : option nat) : result regex_error parser :=
  match p_last p with
  | Some r => Ok (mk_parser L_quantified (p_stack p) (p_alts p) (p_seq p) (Some (Rep true min max r)) (p_groups p))
  | None => Err error_badrepeat
  end.
Definition make_lazy (p : parser) : parser :=
  mk_parser L_normal (p_stack p) (p_alts p)
    (Seq (p_seq p) (match p_last p with Some (Rep _ min max r) => Rep false min max r | Some r => r | None => Eps end))
    None (p_groups p).

Definition digits : list (Z * Z) := [(48, 57)].
Definition word : list (Z * Z) := [(48, 57); (65, 90); (95, 95); (97, 122)].
Definition spaces : list (Z * Z) := [(9, 13); (32, 32)].
Definition line_terminators : list (Z * Z) := [(10, 10); (13, 13)].

Definition is_word (c : Z) : bool := in_ranges word c.
Definition is_in (c : Z) (s : string) : bool := existsb (Z.eqb c) (str s).

(** The character after a backslash: a class, or one character. *)
Definition class_escape (c : Z) : option char_set :=
  if c =? chr "d" then Some (mk_set false digits) else if c =? chr "D" then Some (mk_set true digits)
  else if c =? chr "w" then Some (mk_set false word) else if c =? chr "W" then Some (mk_set true word)
  else if c =? chr "s" then Some (mk_set false spaces) else if c =? chr "S" then Some (mk_set true spaces)
  else None.
Definition character_escape (c : Z) : result regex_error Z :=
  if c =? chr "t" then Ok 9 else if c =? chr "n" then Ok 10 else if c =? chr "v" then Ok 11
  else if c =? chr "f" then Ok 12 else if c =? chr "r" then Ok 13 else if c =? chr "0" then Ok 0
  else if is_in c "123456789bBcxu" then Err not_modelled
  else if is_word c then Err error_escape else Ok c.

Definition normal_char (p : parser) (c : Z) : result regex_error parser :=
  let quantified := match p_lex p with L_quantified => true | _ => false end in
  if quantified && (c =? chr "?") then Ok (make_lazy p)
  else if c =? chr "^" then Ok (push_assertion p Bol)
  else if c =? chr "$" then Ok (push_assertion p Eol)
  else if c =? chr "\" then Ok (with_lex p L_escape)
  else if c =? chr "." then Ok (push_atom p (Chars (mk_set true line_terminators)))
  else if c =? chr "|" then Ok (next_alternative p)
  else if c =? chr "(" then Ok (with_lex p L_paren)
  else if c =? chr ")" then close_group p
  else if c =? chr "[" then Ok (with_lex p L_class_start)
  else if is_in c "*+?{" then
    if quantified then Err error_badrepeat
    else if c =? chr "*" then quantify p 0 None
    else if c =? chr "+" then quantify p 1 None
    else if c =? chr "?" then quantify p 0 (Some 1%nat)
    else match p_last p with Some _ => Ok (with_lex p (L_brace None false None)) | None => Err error_badrepeat end
  else if is_in c "]}" then Err not_modelled
  else Ok (push_atom p (single c)).

Definition add_digit (n : option nat) (c : Z) : option nat := Some (10 * default 0 n + Z.to_nat (c - 48))%nat.
Definition brace_char (p : parser) (min : option nat) (comma : bool) (max : option nat) (c : Z)
    : result regex_error parser :=
  if in_ranges digits c then
    Ok (with_lex p (if comma then L_brace min comma (add_digit max c) else L_brace (add_digit min c) comma max))
  else if (c =? chr ",") && negb comma then Ok (with_lex p (L_brace min true max))
  else if c =? chr "}" then
    match min, comma, max with
    | Some lo, false, _ => quantify p lo (Some lo)
    | Some lo, true, None => quantify p lo None
    | Some lo, true, Some hi => if (hi <? lo)%nat then Err error_brace else quantify p lo (Some hi)
    | None, _, _ => Err error_brace
    end
  else Err error_brace.

(** [last] is the last character, which a dash may make the beginning of a range. *)
Definition class_add (negated : bool) (ranges : list (Z * Z)) (last : option Z) (dash : bool) (c : Z)
    : result regex_error lex_state :=
  match last, dash with
  | Some lo, true => if c <? lo then Err error_range else Ok (L_class negated (ranges ++ [(lo, c)]) None false)
  | Some lo, false => Ok (L_class negated (ranges ++ [(lo, lo)]) (Some c) false)
  | None, _ => Ok (L_class negated ranges (Some c) false)
  end.
Definition class_flush (ranges : list (Z * Z)) (last : option Z) (dash : bool) : list (Z * Z) :=
  ranges ++ (match last with Some c => [(c, c)] | None => [] end) ++ (if dash then [(45, 45)] else []).
Definition class_char (p : parser) (negated : bool) (ranges : list (Z * Z)) (last : option Z) (dash : bool) (c : Z)
    : result regex_error parser :=
  if c =? chr "]" then Ok (push_atom p (Chars (mk_set negated (class_flush ranges last dash))))
  else if c =? chr "\" then Ok (with_lex p (L_class_escape negated ranges last dash))
  else if c =? chr "[" then Err not_modelled
  else if (c =? chr "-") && negb dash && bool_decide (is_Some last) then Ok (with_lex p (L_class negated ranges last true))
  else l ← class_add negated ranges last dash c; Ok (with_lex p l).
Definition class_escape_char (p : parser) (negated : bool) (ranges : list (Z * Z)) (last : option Z) (dash : bool) (c : Z)
    : result regex_error parser :=
  match class_escape c with
  | Some (mk_set false rs) =>
      if dash then Err error_range else Ok (with_lex p (L_class negated (class_flush ranges last dash ++ rs) None false))
  | Some _ => Err not_modelled
  | None => c ← character_escape c; l ← class_add negated ranges last dash c; Ok (with_lex p l)
  end.

Definition parse_char (p : parser) (c : Z) : result regex_error parser :=
  match p_lex p with
  | L_normal | L_quantified => normal_char p c
  | L_escape =>
      match class_escape c with
      | Some s => Ok (push_atom p (Chars s))
      | None => c ← character_escape c; Ok (push_atom p (single c))
      end
  | L_paren =>
      if c =? chr "?" then Ok (with_lex p L_paren_question)
      else normal_char (open_group p (Capture (S (p_groups p)))) c
  | L_paren_question =>
      if c =? chr ":" then Ok (open_group p NonCapture)
      else if c =? chr "=" then Ok (open_group p (LookAhead true))
      else if c =? chr "!" then Ok (open_group p (LookAhead false))
      else Err error_paren
  | L_brace min comma max => brace_char p min comma max c
  | L_class_start =>
      if c =? chr "^" then Ok (with_lex p (L_class true [] None false)) else class_char p false [] None false c
  | L_class negated ranges last dash => class_char p negated ranges last dash c
  | L_class_escape negated ranges last dash => class_escape_char p negated ranges last dash c
  end.

Definition parser_start : parser := mk_parser L_normal [] None Eps None 0.
Definition parser_finish (p : parser) : result regex_error (regex * nat) :=
  match p_lex p, p_stack p with
  | (L_normal | L_quantified), [] => Ok (disjunction p, p_groups p)
  | (L_normal | L_quantified | L_paren | L_paren_question), _ => Err error_paren
  | L_escape, _ => Err error_escape
  | L_brace _ _ _, _ => Err error_brace
  | _, _ => Err error_brack
  end.

(** The expression and the number of its groups. *)
Definition parse_regex (pattern : bytes) : result regex_error (regex * nat) :=
  p ← foldM parse_char parser_start pattern; parser_finish p.

(** ** Searching *)

Definition regex_search (icase : bool) (pattern text : bytes) : result regex_error (option captures) :=
  '(r, groups) ← parse_regex pattern; Ok (search icase text r groups 0).

Example search_leftmost :
  regex_search false (str "(a|ab)(c|bcd)(d*)") (str "xabcd")
  = Ok (Some [Some (1, 5); Some (1, 2); Some (2, 5); Some (5, 5)]%nat).
Proof. vm_compute. reflexivity. Qed.

Example search_lazy :
  regex_search true (str "^\/User-([^\/]+?)(?:\/)?$") (str "/uSER-x1/")
  = Ok (Some [Some (0, 9); Some (6, 8)]%nat).
Proof. vm_compute. reflexivity. Qed.

Example search_counted :
  regex_search false (str "([0-9a-f]{2,3}?)([+*?])?(?=z|$)") (str "1a2?")
  = Ok (Some [Some (0, 4); Some (0, 3); Some (3, 4)]%nat).
Proof. vm_compute. reflexivity. Qed.

(** ** What the matcher does *)

Section Facts.
Context (icase : bool) (text : bytes).
Implicit Types k : state -> option state.
Abbreviation run := (matches icase text).

Lemma drop_cons_inv (p : nat) c rest : drop p text = c :: rest -> text !! p = Some c /\ drop (S p) text = rest.
Proof.
  intros E. split.
  - rewrite <- (Nat.add_0_r p), <- lookup_drop, E. done.
  - replace (S p) with (p + 1)%nat by lia. rewrite <- drop_drop, E. done.
Qed.

Lemma drop_nil_inv (p : nat) : drop p text = [] -> text !! p = None.
Proof. intros E. rewrite <- (Nat.add_0_r p), <- lookup_drop, E. done. Qed.

Lemma drop_app_inv (p : nat) (w rest : bytes) : drop p text = w ++ rest -> drop (p + length w) text = rest.
Proof. intros E. by rewrite <- drop_drop, E, drop_app_length. Qed.

(** One character of a set. *)
Lemma run_chars s p caps k c rest : drop p text = c :: rest ->
  run (Chars s) (p, caps) k = if in_set icase s c then k (S p, caps) else None.
Proof. intros E. cbn. by rewrite (proj1 (drop_cons_inv _ _ _ E)). Qed.

Lemma run_chars_end s p caps k : drop p text = [] -> run (Chars s) (p, caps) k = None.
Proof. intros E. cbn. by rewrite (drop_nil_inv _ E). Qed.

(** Where the characters of [s] stop. *)
Definition stops (s : char_set) (rest : bytes) : Prop := match rest with [] => True | c :: _ => in_set icase s c = false end.

Lemma run_chars_stop s p caps k rest : drop p text = rest -> stops s rest -> run (Chars s) (p, caps) k = None.
Proof.
  intros E H. destruct rest as [|c rest]; [by apply run_chars_end|]. by rewrite (run_chars _ _ _ _ _ _ E), H.
Qed.

(** A lazy repetition goes on as long as what follows fails. *)
Lemma iterate_lazy s w : forall n p caps k rest, drop p text = w ++ rest -> Forall (fun c => in_set icase s c = true) w ->
  stops s rest -> (length w < n)%nat -> (forall j, (j < length w)%nat -> k ((p + j)%nat, caps) = None) ->
  iterate (run (Chars s)) false n 0 None (p, caps) k = k ((p + length w)%nat, caps).
Proof.
  induction w as [|c w IH]; intros [|n] p caps k rest E Hw Hs Hn Hk; cbn [length] in *; try lia.
  - rewrite Nat.add_0_r. cbn [iterate fmap option_fmap option_map]. rewrite bool_decide_eq_false_2 by done.
    rewrite (run_chars_stop s p caps _ rest E Hs). by destruct (k _).
  - apply Forall_cons in Hw as [Hc Hw]. cbn [iterate fmap option_fmap option_map]. rewrite bool_decide_eq_false_2 by done.
    pose proof (Hk 0%nat ltac:(lia)) as H0. rewrite Nat.add_0_r in H0. rewrite H0. cbn [orelse].
    rewrite (run_chars s p caps _ c (w ++ rest) E), Hc. cbn [fst].
    rewrite (proj2 (Nat.eqb_neq _ _)) by lia. rewrite (IH n (S p) caps k rest); [by rewrite Nat.add_succ_r| |done..|lia|].
    + by apply drop_cons_inv in E as [_ ->].
    + intros j Hj. rewrite <- (Hk (S j)) by lia. f_equal. f_equal. lia.
Qed.

(** A greedy one takes all it can when what follows accepts that. *)
Lemma iterate_greedy s w : forall n p caps k rest r, drop p text = w ++ rest -> Forall (fun c => in_set icase s c = true) w ->
  stops s rest -> (length w < n)%nat -> k ((p + length w)%nat, caps) = Some r ->
  iterate (run (Chars s)) true n 0 None (p, caps) k = Some r.
Proof.
  induction w as [|c w IH]; intros [|n] p caps k rest r E Hw Hs Hn Hk; cbn [length] in *; try lia.
  - rewrite Nat.add_0_r in Hk. cbn [iterate fmap option_fmap option_map]. rewrite bool_decide_eq_false_2 by done.
    by rewrite (run_chars_stop s p caps _ rest E Hs).
  - apply Forall_cons in Hw as [Hc Hw]. cbn [iterate fmap option_fmap option_map]. rewrite bool_decide_eq_false_2 by done.
    rewrite (run_chars s p caps _ c (w ++ rest) E), Hc. cbn [fst].
    rewrite (proj2 (Nat.eqb_neq _ _)) by lia. rewrite (IH n (S p) caps k rest r); [done| |done..|lia|].
    + by apply drop_cons_inv in E as [_ ->].
    + rewrite <- Hk. f_equal. f_equal. lia.
Qed.

Lemma run_rep greedy min max r st k :
  run (Rep greedy min max r) st k = iterate (run r) greedy (S (S (min + (length text - st.1)))) min max st k.
Proof. done. Qed.

(** At least one character. *)
Lemma run_plus_lazy s p caps k w rest : drop p text = w ++ rest -> Forall (fun c => in_set icase s c = true) w ->
  stops s rest -> (forall j, (0 < j < length w)%nat -> k ((p + j)%nat, caps) = None) ->
  run (Rep false 1 None (Chars s)) (p, caps) k = match w with [] => None | _ => k ((p + length w)%nat, caps) end.
Proof.
  intros E Hw Hs Hk. rewrite run_rep. remember (S (1 + (length text - (p, caps).1))) as n eqn:En. cbn [iterate fmap option_fmap option_map]. destruct w as [|c w].
  { by apply (run_chars_stop s p caps _ rest). }
  apply Forall_cons in Hw as [Hc Hw]. rewrite (run_chars s p caps _ c (w ++ rest) E), Hc.
  pose proof (f_equal length E) as El. rewrite length_drop in El. cbn in El. rewrite length_app in El.
  cbv beta. rewrite (iterate_lazy s w _ (S p) caps k rest); [f_equal; f_equal; cbn; lia| |done..|rewrite En; cbn; lia|].
  - by apply drop_cons_inv in E as [_ ->].
  - intros j Hj. rewrite <- (Hk (S j)) by (cbn; lia). f_equal. f_equal. lia.
Qed.

Lemma run_plus_greedy s p caps k w rest r : w <> [] -> drop p text = w ++ rest ->
  Forall (fun c => in_set icase s c = true) w -> stops s rest -> k ((p + length w)%nat, caps) = Some r ->
  run (Rep true 1 None (Chars s)) (p, caps) k = Some r.
Proof.
  intros Hne E Hw Hs Hk. rewrite run_rep. remember (S (1 + (length text - (p, caps).1))) as n eqn:En. cbn [iterate fmap option_fmap option_map]. destruct w as [|c w]; [done|].
  apply Forall_cons in Hw as [Hc Hw]. rewrite (run_chars s p caps _ c (w ++ rest) E), Hc.
  pose proof (f_equal length E) as El. rewrite length_drop in El. cbn in El. rewrite length_app in El.
  cbv beta. rewrite (iterate_greedy s w _ (S p) caps k rest r); [done| |done..|rewrite En; cbn; lia|].
  - by apply drop_cons_inv in E as [_ ->].
  - rewrite <- Hk. f_equal. f_equal. cbn. lia.
Qed.

Lemma run_eps st k : run Eps st k = k st. Proof. done. Qed.
Lemma run_seq r1 r2 st k : run (Seq r1 r2) st k = run r1 st (fun st => run r2 st k). Proof. done. Qed.
Lemma run_alt r1 r2 st k : run (Alt r1 r2) st k = orelse (run r1 st k) (run r2 st k). Proof. done. Qed.
Lemma run_group n r st k : run (Group n r) st k = run r st (fun st' => k (st'.1, <[n := Some (st.1, st'.1)]> st'.2)).
Proof. done. Qed.

Lemma run_optional r st k :
  run (Rep true 0 (Some 1%nat) r) st k
  = orelse (run r st (fun st' => if (st'.1 =? st.1)%nat then None else k st')) (k st).
Proof. done. Qed.

(** Terms one after the other. *)
Definition in_sequence (items : list regex) (r : regex) : regex := fold_left Seq items r.

Fixpoint run_items (items : list regex) (st : state) (k : state -> option state) : option state :=
  match items with
  | [] => k st
  | r :: items => run r st (fun st => run_items items st k)
  end.

Lemma run_sequence items : forall r st k, run (in_sequence items r) st k = run r st (fun st => run_items items st k).
Proof. unfold in_sequence. induction items as [|i items IH]; intros r st k; [done|]. cbn [fold_left]. by rewrite IH. Qed.

(** The matcher sees of its continuation only what it answers. *)
Lemma iterate_ext (body : state -> (state -> option state) -> option state) greedy n :
  (forall st k k', (forall st', k st' = k' st') -> body st k = body st k') ->
  forall min max st k k', (forall st', k st' = k' st') -> iterate body greedy n min max st k = iterate body greedy n min max st k'.
Proof.
  intros Hb. induction n as [|n IH]; intros min max st k k' Hk; [done|]. cbn [iterate]. destruct min as [|min].
  - case_bool_decide; [apply Hk|]. rewrite (Hk st).
    erewrite (Hb st); [done|]. intros st'. cbv beta. destruct (_ =? _)%nat; [done | by apply IH].
  - apply Hb. intros st'. by apply IH.
Qed.

Lemma run_ext r : forall st k k', (forall st', k st' = k' st') -> run r st k = run r st k'.
Proof.
  induction r as [|s|r1 IH1 r2 IH2|r1 IH1 r2 IH2|n r IH|b r IH|g mn mx r IH| |]; intros st k k' Hk; cbn [matches].
  - apply Hk.
  - destruct (text !! st.1); [|done]. by destruct (in_set icase s z).
  - apply IH1. intros st'. by apply IH2.
  - by rewrite (IH1 st k k'), (IH2 st k k').
  - apply IH. intros st'. apply Hk.
  - destruct (run r st Some), b; done || apply Hk.
  - by apply iterate_ext.
  - by destruct (st.1 =? 0)%nat.
  - by destruct (st.1 =? length text)%nat.
Qed.

Lemma run_items_app l1 l2 : forall st k, run_items (l1 ++ l2) st k = run_items l1 st (fun st => run_items l2 st k).
Proof. induction l1 as [|r l1 IH]; intros st k; [done|]. cbn. apply run_ext. intros st'. apply IH. Qed.

(** A text as a sequence of its characters. *)
Definition same_char (c c' : Z) : bool := in_set icase (mk_set false [(c, c)]) c'.
Definition same_text (w w' : bytes) : Prop := Forall2 (fun c c' => same_char c c' = true) w w'.

#[global] Instance same_text_dec w w' : Decision (same_text w w').
Proof. unfold same_text. apply _. Defined.

Lemma run_text w : forall p caps k rest, drop p text = rest ->
  run_items (single <$> w) (p, caps) k =
  if bool_decide (same_text w (take (length w) rest)) then k ((p + length w)%nat, caps) else None.
Proof.
  induction w as [|c w IH]; intros p caps k rest E.
  - rewrite Nat.add_0_r. cbn. by rewrite bool_decide_eq_true_2 by constructor.
  - cbn [fmap list_fmap run_items length]. unfold single at 1. destruct rest as [|c' rest].
    + rewrite run_chars_end by done. by rewrite bool_decide_eq_false_2 by (intros H; inversion H).
    + rewrite (run_chars _ _ _ _ _ _ E). fold (same_char c c'). cbn [take].
      destruct (same_char c c') eqn:Ec.
      * rewrite (IH _ _ _ rest) by apply (drop_cons_inv _ _ _ E). rewrite Nat.add_succ_r.
        case_bool_decide as H; [rewrite bool_decide_eq_true_2 by (by constructor); done|].
        rewrite bool_decide_eq_false_2; [done|]. intros H'. by inversion H'.
      * rewrite bool_decide_eq_false_2; [done|]. intros H'. inversion H'; congruence.
Qed.
End Facts.
