(* ===== verification/Path2Regex.v ===== *)
(** * Routes as regular expressions

    [restinio/path2regex/path2regex.hpp]: a route in the style of Express is cut
    into tokens by a regular expression of its own, and the tokens are put together
    to the expression that matches the paths of the route. *)

From S2P Require Import Prelude Regex.

(** ** Escaping *)

(*@ path2regex/path2regex.hpp 39-55 escape_group *)
Definition escape_group (group : bytes) : bytes :=
  group ≫= fun c => if is_in c "=!:$/()" then [chr "\"; c] else [c].

(*@ path2regex/path2regex.hpp 62-82 escape_string *)
Definition escape_string (group : bytes) : bytes :=
  group ≫= fun c => if is_in c ".+*?=^:${}()[]|\/" then [chr "\"; c] else [c].

(** ** Options *)

(*@ path2regex/path2regex.hpp 91-255 options_t *)
Record options_t : Type := mk_options {
  m_sensitive : bool;
  m_strict : bool;
  m_ending : bool;
  m_delimiter : bytes;
  m_delimiters : bytes;
  m_ends_with : list bytes }.

Definition default_options : options_t := mk_options false false true (str "/") (str "./") [].

(*@ path2regex/path2regex.hpp 170-179 options_t::make_delimiter *)
Definition make_delimiter (o : options_t) (d : bytes) : bytes := match d with [] => m_delimiter o | _ => d end.

(*@ path2regex/path2regex.hpp 219-235 options_t::make_ends_with *)
Definition make_ends_with (o : options_t) : bytes :=
  (m_ends_with o ≫= fun e => match e with [] => [] | _ => escape_string e ++ str "|" end) ++ str "$".

(** ** Appenders of parameters *)

(** The key of a named parameter is a view into the buffer of names. *)
(*@ path2regex/path2regex.hpp 278-300 make_param_setter *)
Inductive param_appender_t : Type := add_named_param (key_offset key_size : nat) | add_indexed_param.

(** ** Errors *)

Inductive route_error : Type :=
| may_be_unmatched_group_start (pos : nat)
| may_be_unmatched_group_finish (pos : nat)
| unable_to_insert_into_names_buffer
| too_many_parameters (groups max : N)
| bad_regex (e : regex_error).

(** The buffer of names with its capacity. *)
Record names_buffer_t : Type := mk_names { nb_capacity : nat; nb_data : bytes }.

(*@ path2regex/path2regex.hpp 323-347 string_view_buffer_storage_appender_t::append_name *)
Definition append_name (b : names_buffer_t) (name : option bytes) : result route_error (param_appender_t * names_buffer_t) :=
  match name with
  | Some name =>
      let n := length name in
      if (nb_capacity b - length (nb_data b) <? n)%nat then Err unable_to_insert_into_names_buffer
      else Ok (add_named_param (length (nb_data b)) n, mk_names (nb_capacity b) (nb_data b ++ name))
  | None => Ok (add_indexed_param, b)
  end.

(** ** Tokens *)

(*@ path2regex/path2regex.hpp 356-357 path_regex_str *)
Definition path_regex_str : bytes :=
  str "(\\.)|(?:\:(\w+)(?:\(((?:\\.|[^\\()])+)\))?|\(((?:\\.|[^\\()])+)\))([+*?])?".

(*@ path2regex/path2regex.hpp 404-433 plain_string_token_t *)
Record plain_string_token_t : Type := mk_plain { m_escaped_path : bytes; m_last_char : Z }.

(** The name is [None] for an indexed parameter. *)
(*@ path2regex/path2regex.hpp 449-471 parameter_token_t *)
Record parameter_token_t : Type := mk_parameter {
  m_name : option bytes;
  m_escaped_prefix : bytes;
  pt_delimiter : bytes;
  m_optional : bool;
  m_repeat : bool;
  m_partial : bool;
  m_pattern : bytes }.

(*@ path2regex/path2regex.hpp 359-363 token_type_t *)
Inductive token_t : Type := plain_string (t : plain_string_token_t) | capturing_token (t : parameter_token_t).

(** Only for texts that are not empty. *)
(*@ path2regex/path2regex.hpp 435-441 create_token *)
Definition create_plain (path : bytes) : token_t := plain_string (mk_plain (escape_string path) (List.last path 0)).

(*@ path2regex/path2regex.hpp 529-548 create_token *)
Definition create_parameter (name : option bytes) (prefix delimiter : bytes) (optional repeat partial : bool)
    (pattern : bytes) : token_t :=
  capturing_token (mk_parameter name (escape_string prefix) delimiter optional repeat partial pattern).

(*@ path2regex/path2regex.hpp 478-504 parameter_token_t::append_self_to *)
Definition capture_of (escaped_prefix : bytes) (optional repeat partial : bool) (pattern : bytes) : bytes :=
  let capture := str "(?:" ++ pattern ++ str ")" in
  let capture := if repeat then capture ++ str "(?:" ++ escaped_prefix ++ capture ++ str ")*" else capture in
  if optional then
    if negb partial then str "(?:" ++ escaped_prefix ++ str "(" ++ capture ++ str "))?"
    else escaped_prefix ++ str "(" ++ capture ++ str ")?"
  else escaped_prefix ++ str "(" ++ capture ++ str ")".

(** What [tokens2regexp] has put together: the route, the appenders, the names
    and the number of groups. *)
Record building : Type := mk_building {
  b_route : bytes;
  b_appenders : list param_appender_t;
  b_names : names_buffer_t;
  b_groups : N }.

(*@ path2regex/path2regex.hpp 412-421 plain_string_token_t::append_self_to *)
Definition append_plain (b : building) (t : plain_string_token_t) : building :=
  mk_building (b_route b ++ m_escaped_path t) (b_appenders b) (b_names b) (b_groups b).

(*@ path2regex/path2regex.hpp 473-512 parameter_token_t::append_self_to *)
Definition append_parameter (b : building) (t : parameter_token_t) : result route_error building :=
  let capture := capture_of (m_escaped_prefix t) (m_optional t) (m_repeat t) (m_partial t) (m_pattern t) in
  '(a, names) ← append_name (b_names b) (m_name t);
  Ok (mk_building (b_route b ++ capture) (b_appenders b ++ [a]) names (b_groups b)).

(** One round of the loop of [tokens2regexp]. *)
(*@ path2regex/path2regex.hpp 799-806 tokens2regexp *)
Definition append_self_to (b : building) (t : token_t) : result route_error building :=
  match t with
  | plain_string t => Ok (append_plain b t)
  | capturing_token t =>
      b ← append_parameter b t;
      Ok (mk_building (b_route b) (b_appenders b) (b_names b) (b_groups b + 1)%N)
  end.

(*@ path2regex/path2regex.hpp 423-427 plain_string_token_t::is_end_delimited *)
Definition is_end_delimited (t : token_t) (delimiters : bytes) : bool :=
  match t with plain_string t => bool_decide (m_last_char t ∈ delimiters) | capturing_token _ => false end.

(** ** Cutting a route into tokens *)

Definition index_of (c : Z) (s : bytes) : option nat := fst <$> list_find (eq c) s.

(*@ path2regex/path2regex.hpp 560-583 check_no_unescaped_brackets *)
Definition check_no_unescaped_brackets (strv : bytes) (base_pos : nat) : result route_error bytes :=
  match index_of (chr "(") strv with
  | Some pos => Err (may_be_unmatched_group_start (base_pos + pos))
  | None =>
      match index_of (chr ")") strv with
      | Some pos => Err (may_be_unmatched_group_finish (base_pos + pos))
      | None => Ok strv
      end
  end.

(** The path that has been read since the last token, whether it ends with an
    escaped character, and the tokens. *)
Record cutting : Type := mk_cutting { c_path : bytes; c_path_escaped : bool; c_result : list token_t }.

(** The character before a parameter is its prefix when it is a delimiter. *)
(*@ path2regex/path2regex.hpp 599-609 handle_param_token *)
Definition split_prefix (o : options_t) (path_escaped : bool) (path : bytes) : bytes * bytes :=
  if negb path_escaped && negb (bool_decide (path = [])) then
    let k := (length path - 1)%nat in
    if bool_decide (List.last path 0 ∈ m_delimiters o) then (take 1 (drop k path), take k path) else ([], path)
  else ([], path).

(*@ path2regex/path2regex.hpp 629-639 handle_param_token *)
Definition create_pattern (delimiter pattern : bytes) : bytes :=
  match pattern with
  | [] => str "[^" ++ escape_string delimiter ++ str "]+?"
  | _ => escape_group pattern
  end.

(** The groups of a match of the expression above. *)
Record param_match : Type := mk_param_match { g_name : bytes; g_capture : bytes; g_group : bytes; g_modifier : bytes; g_next : bytes }.

(*@ path2regex/path2regex.hpp 590-667 handle_param_token *)
Definition handle_param_token (o : options_t) (m : param_match) (c : cutting) : cutting :=
  let '(prefix, path) := split_prefix o (c_path_escaped c) (c_path c) in
  let '(path_escaped, result) :=
    match path with
    | [] => (c_path_escaped c, c_result c)
    | _ => (false, c_result c ++ [create_plain path])
    end in
  let partial := negb (bool_decide (prefix = [])) && negb (bool_decide (g_next m = [])) && negb (bool_decide (prefix = g_next m)) in
  let optional := bool_decide (g_modifier m = str "?") || bool_decide (g_modifier m = str "*") in
  let repeat := bool_decide (g_modifier m = str "+") || bool_decide (g_modifier m = str "*") in
  let delimiter := make_delimiter o prefix in
  mk_cutting [] path_escaped
    (result ++ [match g_name m with
                | [] => create_parameter None prefix delimiter optional repeat partial (create_pattern delimiter (g_group m))
                | name => create_parameter (Some name) prefix delimiter optional repeat partial
                            (create_pattern delimiter (g_capture m))
                end]).

Definition bounds (caps : captures) : nat * nat := match caps !! 0%nat with Some (Some be) => be | _ => (0, 0)%nat end.

Definition param_match_of (route : bytes) (caps : captures) : param_match :=
  mk_param_match (sub_match route caps 2) (sub_match route caps 3) (sub_match route caps 4) (sub_match route caps 5)
    (take 1 (drop (snd (bounds caps)) route)).

(** One round of the loop, after a match that ended at [last]. *)
(*@ path2regex/path2regex.hpp 699-733 parse *)
Definition parse_match (o : options_t) (route : bytes) (last : nat) (caps : captures) (is_last : bool) (c : cutting)
    : result route_error cutting :=
  let '(b, e) := bounds caps in
  prefix ← check_no_unescaped_brackets (take (b - last) (drop last route)) (b - (b - last));
  let c := mk_cutting (c_path c ++ prefix) (c_path_escaped c) (c_result c) in
  let c :=
    match sub_match route caps 1 with
    | [] => handle_param_token o (param_match_of route caps) c
    | escaped => mk_cutting (c_path c ++ take 1 (drop 1 escaped)) true (c_result c)
    end in
  if (is_last : bool) then
    suffix ← check_no_unescaped_brackets (drop e route) e;
    Ok (mk_cutting (c_path c ++ suffix) (c_path_escaped c) (c_result c))
  else Ok c.

Fixpoint parse_loop (o : options_t) (route : bytes) (last : nat) (ms : list captures) (c : cutting) : result route_error cutting :=
  match ms with
  | [] => Ok c
  | m :: ms' =>
      c ← parse_match o route last m (bool_decide (ms' = [])) c;
      parse_loop o route (snd (bounds m)) ms' c
  end.

(*@ path2regex/path2regex.hpp 674-741 parse *)
Definition parse (route : bytes) (o : options_t) : result route_error (list token_t) :=
  match parse_regex path_regex_str with
  | Err e => Err (bad_regex e)
  | Ok (main_path_regex, groups) =>
      let ms := regex_iterator false route main_path_regex groups in
      path ← match ms with [] => check_no_unescaped_brackets route 0 | _ => Ok [] end;
      c ← parse_loop o route 0 ms (mk_cutting path false []);
      Ok (c_result c ++ match c_path c with [] => [] | path => [create_plain path] end)
  end.

(** ** Engines *)

(** [Regex_Engine]: a compiled expression, and the bounds of the groups of a match. *)
Class RegexEngine : Type := {
  compiled_regex_t : Type;
  max_capture_groups : N;
  compile_regex : bytes -> bool -> result route_error compiled_regex_t;
  try_match : bytes -> compiled_regex_t -> option (list (nat * nat)) }.

(** A group that has not taken part has the end of the text for both its bounds. *)
(*@ router/std_regex_engine.hpp 27-89 std_regex_engine_t *)
Definition std_regex_engine_t : RegexEngine := {|
  compiled_regex_t := bool * (regex * nat);
  max_capture_groups := 18446744073709551615%N;
  compile_regex r is_case_sensative :=
    match parse_regex r with Ok c => Ok (negb is_case_sensative, c) | Err e => Err (bad_regex e) end;
  try_match target_path '(icase, (r, groups)) :=
    match search icase target_path r groups 0 with
    | Some caps => Some ((fun m => default (length target_path, length target_path) m) <$> caps)
    | None => None
    end |}.

Section Engine.
Context `{RegexEngine}.
(** The capacity of a string after [reserve]. *)
Context (reserve : nat -> nat).

(*@ path2regex/path2regex.hpp 748-771 route_regex_matcher_data_t *)
Record route_regex_matcher_data_t : Type := mk_matcher_data {
  m_regex : compiled_regex_t;
  m_named_params_buffer : bytes;
  m_param_appender_sequence : list param_appender_t }.

(** The end of the expression. *)
(*@ path2regex/path2regex.hpp 818-842 tokens2regexp *)
Definition route_end (o : options_t) (tokens : list token_t) : bytes :=
  let delimiter := escape_string (m_delimiter o) in
  let ends_with := make_ends_with o in
  if m_ending o then
    (if negb (m_strict o) then str "(?:" ++ delimiter ++ str ")?" else []) ++
    (if bool_decide (ends_with = str "$") then str "$" else str "(?=" ++ ends_with ++ str ")")
  else
    (if negb (m_strict o) then str "(?:" ++ delimiter ++ str "(?=" ++ ends_with ++ str "))?" else []) ++
    (match tokens with
     | [] => []
     | t :: ts => if negb (is_end_delimited (List.last ts t) (m_delimiters o))
                  then str "(?=" ++ delimiter ++ str "|" ++ ends_with ++ str ")" else []
     end).

(*@ path2regex/path2regex.hpp 778-852 tokens2regexp *)
Definition tokens2regexp (path : bytes) (tokens : list token_t) (o : options_t) : result route_error route_regex_matcher_data_t :=
  b ← foldM append_self_to (mk_building [] [] (mk_names (reserve (length path)) []) 1) tokens;
  if (max_capture_groups <? b_groups b)%N then Err (too_many_parameters (b_groups b) max_capture_groups)
  else
    r ← compile_regex (str "^" ++ b_route b ++ route_end o tokens) (m_sensitive o);
    Ok (mk_matcher_data r (nb_data (b_names b)) (b_appenders b)).

(*@ path2regex/path2regex.hpp 861-871 path2regex *)
Definition path2regex (path : bytes) (o : options_t) : result route_error route_regex_matcher_data_t :=
  tokens ← parse path o; tokens2regexp path tokens o.
End Engine.

