(* ===== verification/Express.v ===== *)
(** * The Express router

    [restinio/router/express.hpp] and [restinio/router/impl/target_path_holder.hpp]:
    the path of a request is normalized once, and the routes are tried in the
    order in which they were added; the first that matches gets the request with
    the parameters of its path. *)

From S2P Require Import Prelude Percent Headers MethodMatcher Regex Path2Regex.

(** ** The path of the request *)

(** The array with the path, [None] once it is given out, and its size. *)
(*@ router/impl/target_path_holder.hpp 43-113 target_path_holder_t *)
Record target_path_holder_t : Type := mk_path_holder { m_data : option bytes; m_size : nat }.

(** [new char[]] does not set the characters: they are [garbage]. *)
(*@ router/impl/target_path_holder.hpp 60-78 target_path_holder_t::target_path_holder_t *)
Definition target_path_holder (garbage : Z) (original_path : bytes) : result unescape_failure target_path_holder_t :=
  size ← estimate_required_capacity original_path;
  let data := replicate size garbage in
  if negb (size =? length original_path)%nat then
    let '(d, r) := normalize_to original_path data in
    _ ← r; Ok (mk_path_holder (Some (memory d)) size)
  else Ok (mk_path_holder (Some original_path) size).

(*@ router/impl/target_path_holder.hpp 86-90 target_path_holder_t::view *)
Definition holder_view (p : target_path_holder_t) : option bytes := take (m_size p) <$> m_data p.

(*@ router/impl/target_path_holder.hpp 98-104 target_path_holder_t::giveout_data *)
Definition giveout_data (p : target_path_holder_t) : option bytes * target_path_holder_t :=
  (m_data p, mk_path_holder None (m_size p)).

(** ** Parameters *)

(** A part of one of the two buffers: its beginning and its size. *)
Record view_t : Type := mk_view { v_begin : nat; v_size : nat }.
Definition part (buffer : bytes) (v : view_t) : bytes := take (v_size v) (drop (v_begin v) buffer).

(*@ router/express.hpp 57-189 route_params_t *)
Record route_params_t : Type := mk_params {
  m_request_target : bytes;
  m_key_names_buffer : bytes;
  m_match : view_t;
  m_named_parameters : list (view_t * view_t);
  m_indexed_parameters : list view_t }.

Definition no_params : route_params_t := mk_params [] [] (mk_view 0 0) [] [].

Inductive params_error : Type := invalid_parameter_name (key : bytes) | invalid_parameter_index (i : nat).

(*@ router/express.hpp 138-148 route_params_t::find_named_parameter *)
Definition find_named_parameter (p : route_params_t) (key : bytes) : option (view_t * view_t) :=
  snd <$> list_find (fun kv => key = part (m_key_names_buffer p) kv.1) (m_named_parameters p).

(*@ router/express.hpp 150-162 route_params_t::find_named_parameter_with_check *)
Definition find_named_parameter_with_check (p : route_params_t) (key : bytes) : result params_error (view_t * view_t) :=
  of_option (invalid_parameter_name key) (find_named_parameter p key).

(*@ router/express.hpp 96-100 route_params_t::operator[] *)
Definition param_by_name (p : route_params_t) (key : bytes) : result params_error bytes :=
  '(_, v) ← find_named_parameter_with_check p key; Ok (part (m_request_target p) v).

(*@ router/express.hpp 103-107 route_params_t::has *)
Definition has_param (p : route_params_t) (key : bytes) : bool := bool_decide (is_Some (find_named_parameter p key)).

(*@ router/express.hpp 111-119 route_params_t::get_param *)
Definition get_param (p : route_params_t) (key : bytes) : option bytes :=
  '(_, v) ← find_named_parameter p key; Some (part (m_request_target p) v).

(*@ router/express.hpp 122-129 route_params_t::operator[] *)
Definition param_by_index (p : route_params_t) (i : nat) : result params_error bytes :=
  match m_indexed_parameters p !! i with
  | Some v => Ok (part (m_request_target p) v)
  | None => Err (invalid_parameter_index i)
  end.

(** ** Matching a route *)

Inductive router_error : Type :=
| bad_target_path (e : unescape_failure)
| too_many_groups
| target_path_given_out.

(** The two containers a matcher fills. *)
(*@ router/express.hpp 240-270 route_params_appender_t *)
Record route_params_appender_t : Type := mk_appender {
  a_named_parameters : list (view_t * view_t);
  a_indexed_parameters : list view_t }.

(*@ router/express.hpp 255-265 route_params_appender_t::add_named_param *)
Definition append_param (to : route_params_appender_t) (setter : param_appender_t) (value : view_t) : route_params_appender_t :=
  match setter with
  | add_named_param off n => mk_appender (a_named_parameters to ++ [(mk_view off n, value)]) (a_indexed_parameters to)
  | add_indexed_param => mk_appender (a_named_parameters to) (a_indexed_parameters to ++ [value])
  end.

(** The two loops: setters of the groups of the match, then the others, which get
    empty values. *)
(*@ router/express.hpp 350-376 route_matcher_t::match_route *)
Fixpoint append_params (to : route_params_appender_t) (setters : list param_appender_t) (groups : list (nat * nat))
    : route_params_appender_t :=
  match setters, groups with
  | [], _ => to
  | s :: setters, (b, e) :: groups => append_params (append_param to s (mk_view b (e - b))) setters groups
  | s :: setters, [] => append_params (append_param to s (mk_view 0 0)) setters []
  end.

Section Router.
Context {RE : RegexEngine} (reserve : nat -> nat) (garbage : Z).
(** Handlers of routes, and those for requests no route matches. *)
Context {H NH : Type}.

(*@ router/express.hpp 327-391 route_matcher_t::match_route *)
Definition match_route (data : route_regex_matcher_data_t) (target_path : target_path_holder_t)
    : result router_error (option route_params_t * target_path_holder_t) :=
  view ← of_option target_path_given_out (holder_view target_path);
  match try_match view (m_regex data) with
  | Some matches =>
      if (length (m_param_appender_sequence data) + 1 <? length matches)%nat then Err too_many_groups
      else
        let '(captured_params, target_path) := giveout_data target_path in
        let captured_params := default [] captured_params in
        let whole := match matches with (b, e) :: _ => mk_view b (e - b) | [] => mk_view 0 0 end in
        let appender := append_params (mk_appender [] []) (m_param_appender_sequence data) (tail matches) in
        Ok (Some (mk_params captured_params (m_named_params_buffer data) whole
                    (a_named_parameters appender) (a_indexed_parameters appender)), target_path)
  | None => Ok (None, target_path)
  end.

(** [M] is the type of the matcher of methods. *)
(*@ router/express.hpp 472-563 generic_express_route_entry_t *)
Record route_entry_t : Type := mk_entry {
  e_method_matcher : http_method_id_t -> bool;
  e_data : route_regex_matcher_data_t;
  e_handler : H }.

(*@ router/express.hpp 393-401 route_matcher_t::operator() *)
Definition entry_match (e : route_entry_t) (method : http_method_id_t) (target_path : target_path_holder_t)
    : result router_error (option route_params_t * target_path_holder_t) :=
  if e_method_matcher e method then match_route (e_data e) target_path else Ok (None, target_path).

(*@ router/express.hpp 518-529 generic_express_route_entry_t::generic_express_route_entry_t *)
Definition make_entry {M} `{MethodMatcher M} (method_matcher : M) (route_path : bytes) (options : options_t) (handler : H)
    : result route_error route_entry_t :=
  data ← path2regex reserve route_path options;
  Ok (mk_entry (match_method method_matcher) data handler).

(*@ router/express.hpp 611-825 generic_express_router_t *)
Record express_router_t : Type := mk_router {
  m_handlers : list route_entry_t;
  m_non_matched_request_handler : option NH }.

(** Which user code gets the request. *)
Inductive routed : Type :=
| route_handler (h : H) (params : route_params_t)
| non_matched_handler (h : NH)
| request_not_handled.

(** The loop over the entries. *)
(*@ router/express.hpp 635-641 generic_express_router_t::operator() *)
Fixpoint try_entries (entries : list route_entry_t) (method : http_method_id_t) (target_path : target_path_holder_t)
    : result router_error (option (H * route_params_t)) :=
  match entries with
  | [] => Ok None
  | e :: entries =>
      '(params, target_path) ← entry_match e method target_path;
      match params with
      | Some params => Ok (Some (e_handler e, params))
      | None => try_entries entries method target_path
      end
  end.

(*@ router/express.hpp 629-653 generic_express_router_t::operator() *)
Definition route (r : express_router_t) (method : http_method_id_t) (target : Target.t) : result router_error routed :=
  match target_path_holder garbage (Target.path target) with
  | Err e => Err (bad_target_path e)
  | Ok target_path =>
      found ← try_entries (m_handlers r) method target_path;
      match found with
      | Some (h, params) => Ok (route_handler h params)
      | None =>
          Ok (match m_non_matched_request_handler r with
              | Some h => non_matched_handler h
              | None => request_not_handled
              end)
      end
  end.

(*@ router/express.hpp 671-684 generic_express_router_t::add_handler *)
Definition add_handler {M} `{MethodMatcher M} (r : express_router_t) (method_matcher : M) (route_path : bytes)
    (options : options_t) (handler : H) : result route_error express_router_t :=
  e ← make_entry method_matcher route_path options handler;
  Ok (mk_router (m_handlers r ++ [e]) (m_non_matched_request_handler r)).

(*@ router/express.hpp 657-669 generic_express_router_t::add_handler *)
Definition add_handler_by_default {M} `{MethodMatcher M} (r : express_router_t) (method_matcher : M) (route_path : bytes)
    (handler : H) : result route_error express_router_t :=
  add_handler r method_matcher route_path default_options handler.

(*@ router/express.hpp 807-812 generic_express_router_t::non_matched_request_handler *)
Definition set_non_matched (r : express_router_t) (nmrh : option NH) : express_router_t :=
  mk_router (m_handlers r) nmrh.

Section Shortcuts.
Context (nodejs_code : string -> Z).

(** A function [http_method_*] as a matcher. *)
Definition only (func_name : string) : simple_matcher_t :=
  mk_simple (default http_method_unknown (http_method nodejs_code func_name)).

(*@ router/express.hpp 697-708 generic_express_router_t::http_delete *)
Definition http_delete r path options handler := add_handler r (only "http_method_delete") path options handler.
(*@ router/express.hpp 721-732 generic_express_router_t::http_get *)
Definition http_get r path options handler := add_handler r (only "http_method_get") path options handler.
(*@ router/express.hpp 745-756 generic_express_router_t::http_head *)
Definition http_head r path options handler := add_handler r (only "http_method_head") path options handler.
(*@ router/express.hpp 769-780 generic_express_router_t::http_post *)
Definition http_post r path options handler := add_handler r (only "http_method_post") path options handler.
(*@ router/express.hpp 793-804 generic_express_router_t::http_put *)
Definition http_put r path options handler := add_handler r (only "http_method_put") path options handler.
End Shortcuts.
End Router.

(** The path of a request after normalization. *)
Lemma target_path_estimated garbage path n : estimate_required_capacity path = Ok n ->
  exists ts, Forall token_ok ts /\ path = print_tokens ts /\
    let t := print_tokens (normalize_token <$> ts) in target_path_holder garbage path = Ok (mk_path_holder (Some t) (length t)).
Proof.
  intros E. unfold target_path_holder. rewrite E. cbn [mbind result_bind].
  destruct (estimate_ok _ _ E) as (ts & Hts & Hv & -> & ->). exists ts. split_and!; [done..|]. cbv zeta.
  destruct (Nat.eqb_spec (length (print_tokens (normalize_token <$> ts))) (length (print_tokens ts))) as [Hl|Hl]; cbn [negb].
  - by rewrite normalized_same_length.
  - rewrite normalize_tokens by (done || by rewrite length_replicate). cbn [mbind result_bind memory].
    rewrite drop_replicate, Nat.sub_diag. cbn [replicate]. by rewrite app_nil_r.
Qed.
