(* ===== verification/RouteMatch.v ===== *)
(** * What a route of the Express router matches

    Routes made of fixed segments and of named parameters, through the whole of
    the translation: the expression that cuts the route into tokens, the text of
    the expression made of them, its parser, the search and the appenders. *)

From S2P Require Import Prelude Percent Headers MethodMatcher Regex Path2Regex Express.

(** ** Routes *)

Inductive segment : Type := Fixed (s : bytes) | Param (name : bytes).

Definition slash : Z := 47.
Definition seg_text (s : segment) : bytes :=
  slash :: match s with Fixed s => s | Param n => chr ":" :: n end.
Definition route_text (segs : list segment) : bytes := segs ≫= seg_text.

(** A fixed segment has no character with a meaning in a route; a name is a word. *)
Definition clean (c : Z) : bool := negb (is_in c "\:()").
Definition seg_wf (s : segment) : Prop :=
  match s with
  | Fixed s => Forall (fun c => clean c = true /\ c <> slash) s
  | Param n => n <> [] /\ Forall (fun c => is_word c = true) n
  end.
Abbreviation route_wf := (Forall seg_wf).

(** The paths of a route and their parameters: fixed segments are compared as the
    options say, a parameter is any text without a slash that is not empty, and a
    slash at the end does not matter unless the route is strict. *)
Inductive path_of (icase strict : bool) : list segment -> list (bytes * bytes) -> bytes -> Prop :=
| path_end : path_of icase strict [] [] []
| path_slash : strict = false -> path_of icase strict [] [] [slash]
| path_fixed s s' segs ps t :
    same_text icase s s' -> path_of icase strict segs ps t -> path_of icase strict (Fixed s :: segs) ps (slash :: s' ++ t)
| path_param n v segs ps t :
    v <> [] -> slash ∉ v -> path_of icase strict segs ps t ->
    path_of icase strict (Param n :: segs) ((n, v) :: ps) (slash :: v ++ t).

(** ** The matches of the expression for routes *)

Definition path_chars : regex :=
  Rep true 1 None
    (Alt (Seq (Seq Eps (single 92)) (Chars (mk_set true line_terminators)))
         (Seq Eps (Chars (mk_set true [(92, 92); (40, 40); (41, 41)])))).
Definition in_parens (n : nat) : regex := Seq (Seq (Seq Eps (single 40)) (Group n (Seq Eps path_chars))) (single 41).
Definition modifier_re : regex := Rep true 0 (Some 1%nat) (Group 5 (Seq Eps (Chars (mk_set false [(43, 43); (42, 42); (63, 63)])))).
Definition name_re : regex := Group 2 (Seq Eps (Rep true 1 None (Chars (mk_set false word)))).
Definition main_path_regex : regex :=
  Alt (Seq Eps (Group 1 (Seq (Seq Eps (single 92)) (Chars (mk_set true line_terminators)))))
      (Seq (Seq Eps
              (Alt (Seq (Seq (Seq Eps (single 58)) name_re) (Rep true 0 (Some 1%nat) (in_parens 3)))
                   (in_parens 4)))
           modifier_re).

Lemma path_regex_parses : parse_regex path_regex_str = Ok (main_path_regex, 5%nat).
Proof. vm_compute. reflexivity. Qed.

Section Cutting.
Context (text : bytes).
Abbreviation run := (matches false text).

Lemma in_single c c' : in_set false (mk_set false [(c, c)]) c' = (c' =? c).
Proof. unfold in_set, in_ranges. cbn. destruct (Z.eqb_spec c' c); lia. Qed.

Lemma run_single p caps k c c' rest : drop p text = c' :: rest ->
  run (single c) (p, caps) k = if c' =? c then k (S p, caps) else None.
Proof. intros E. unfold single. by rewrite (run_chars _ _ _ _ _ _ _ _ E), in_single. Qed.

Lemma run_single_end p caps k c : drop p text = [] -> run (single c) (p, caps) k = None.
Proof. apply run_chars_end. Qed.

Lemma run_single_not p caps k c rest : drop p text = rest -> hd 0 rest <> c -> run (single c) (p, caps) k = None.
Proof.
  intros E H. destruct rest as [|c' rest]; [by apply run_single_end|]. rewrite (run_single _ _ _ _ _ _ E).
  cbn in H. by destruct (Z.eqb_spec c' c).
Qed.

(** Nothing begins with another character. *)
Lemma main_at_other p caps k rest : drop p text = rest -> clean (hd 0 rest) = true -> run main_path_regex (p, caps) k = None.
Proof.
  intros E H. assert (H3 : hd 0 rest <> 92 /\ hd 0 rest <> 58 /\ hd 0 rest <> 40).
  { unfold clean, is_in in H. apply negb_true_iff in H. split_and!; intros Ec; rewrite Ec in H; vm_compute in H; done. }
  destruct H3 as (H1 & H2 & H3). unfold main_path_regex, in_parens. cbn [matches].
  rewrite !(run_single_not p caps _ _ rest) by done. done.
Qed.

(** Where a name ends in a route. *)
Definition ends_name (rest : bytes) : Prop := rest = [] \/ exists t, rest = slash :: t.

Lemma ends_name_hd rest : ends_name rest -> hd 0 rest = 0 \/ hd 0 rest = slash.
Proof. intros [-> | [t ->]]; cbn; tauto. Qed.

Lemma main_at_param p n rest : drop p text = chr ":" :: n ++ rest -> n <> [] -> Forall (fun c => is_word c = true) n ->
  ends_name rest ->
  run main_path_regex (p, replicate 6 None) Some =
    Some ((S p + length n)%nat, [None; None; Some (S p, (S p + length n)%nat); None; None; None]).
Proof.
  intros E Hne Hn Hrest. destruct (drop_cons_inv _ _ _ _ E) as [_ E1]. pose proof (drop_app_inv _ _ _ _ E1) as E2.
  assert (Hm : forall caps, run modifier_re ((S p + length n)%nat, caps) Some = Some ((S p + length n)%nat, caps)).
  { intros caps. unfold modifier_re. rewrite run_optional, run_group, run_seq, run_eps.
    rewrite (run_chars_stop false text _ _ _ _ rest E2) by (by destruct Hrest as [-> | [t ->]]). done. }
  unfold main_path_regex. rewrite run_alt, run_seq, run_eps, run_group, run_seq, run_seq, run_eps.
  rewrite (run_single_not p _ _ 92 (chr ":" :: n ++ rest) E) by done. cbn [orelse].
  rewrite run_seq, run_seq, run_eps, run_alt, run_seq, run_seq, run_seq, run_eps.
  rewrite (run_single p _ _ 58 _ _ E). change (chr ":" =? 58) with true. cbv iota.
  unfold name_re. rewrite run_group, run_seq, run_eps.
  erewrite (run_plus_greedy false text (mk_set false word) (S p) _ _ n rest); [reflexivity|done|done| | |].
  - eapply Forall_impl; [exact Hn|]. intros c Hc. unfold is_word in Hc. unfold in_set. cbn [cs_negated cs_ranges]. by rewrite Hc.
  - by destruct Hrest as [-> | [t ->]].
  - cbn [fst snd]. rewrite run_optional. unfold in_parens at 1. rewrite run_seq, run_seq, run_seq, run_eps.
    rewrite (run_single_not _ _ _ 40 rest E2) by (destruct (ends_name_hd _ Hrest) as [-> | ->]; done).
    cbn [orelse]. rewrite Hm. done.
Qed.
Lemma search_skip w : forall p n rest, drop p text = w ++ rest -> Forall (fun c => clean c = true) w ->
  search_from false text main_path_regex 5 (length w + n) p = search_from false text main_path_regex 5 n (p + length w).
Proof.
  induction w as [|c w IH]; intros p n rest E Hw; [by rewrite Nat.add_0_r|].
  apply Forall_cons in Hw as [Hc Hw]. cbn [length Nat.add search_from].
  rewrite (main_at_other p _ _ _ E Hc). rewrite (IH (S p) n rest); [by rewrite Nat.add_succ_r| |done].
  by apply drop_cons_inv in E as [_ ->].
Qed.

Lemma search_none w : forall p n, drop p text = w -> Forall (fun c => clean c = true) w ->
  search_from false text main_path_regex 5 n p = None.
Proof.
  induction w as [|c w IH]; intros p n E Hw.
  - revert p E. induction n as [|n IH]; intros p E; [done|]. cbn [search_from].
    rewrite (main_at_other p _ _ [] E) by done. apply IH. replace (S p) with (p + 1)%nat by lia.
    by rewrite <- drop_drop, E.
  - apply Forall_cons in Hw as [Hc Hw]. destruct n as [|n]; [done|]. cbn [search_from].
    rewrite (main_at_other p _ _ _ E Hc). apply IH; [|done]. by apply drop_cons_inv in E as [_ ->].
Qed.

(** The match of a parameter whose slash is at [p]. *)
Definition param_caps (p : nat) (n : bytes) : captures :=
  [Some (p + 1, p + 2 + length n); None; Some (p + 2, p + 2 + length n); None; None; None]%nat.

Fixpoint route_caps (p : nat) (segs : list segment) : list captures :=
  match segs with
  | [] => []
  | Fixed s :: segs => route_caps (p + 1 + length s) segs
  | Param n :: segs => param_caps p n :: route_caps (p + 2 + length n) segs
  end.

Lemma clean_slash : clean slash = true.
Proof. reflexivity. Qed.

Lemma route_ends_name segs : ends_name (route_text segs).
Proof. destruct segs as [|s segs]; [by left|right]. cbn. by eexists. Qed.

Lemma fixed_clean s : seg_wf (Fixed s) -> Forall (fun c => clean c = true) (slash :: s).
Proof. intros H. constructor; [done|]. eapply Forall_impl; [exact H|]. by intros c [? _]. Qed.

Lemma all_matches_route segs : forall w p n, route_wf segs -> drop p text = w ++ route_text segs ->
  Forall (fun c => clean c = true) w -> (length segs < n)%nat ->
  all_matches false text main_path_regex 5 n p = route_caps (p + length w) segs.
Proof.
  induction segs as [|[s|nm] segs IH]; intros w p n Hwf E Hw Hn.
  - destruct n as [|n]; [done|]. cbn [all_matches route_caps]. unfold search. cbn in E. rewrite app_nil_r in E.
    by rewrite (search_none w p _ E Hw).
  - apply Forall_cons in Hwf as [Hs Hwf]. cbn [route_caps]. rewrite (IH (w ++ slash :: s) p n); [|done| | |cbn in Hn; lia].
    + f_equal. rewrite length_app. cbn. lia.
    + rewrite E. cbn. by rewrite <- app_assoc.
    + apply Forall_app. split; [done | by apply fixed_clean].
  - apply Forall_cons in Hwf as [[Hne Hnm] Hwf]. destruct n as [|n]; [cbn in Hn; lia|]. cbn [all_matches route_caps].
    set (w1 := w ++ [slash]).
    assert (E1 : drop p text = w1 ++ chr ":" :: nm ++ route_text segs) by (subst w1; rewrite E, <- app_assoc; done).
    pose proof (drop_app_inv _ _ _ _ E1) as E2. pose proof (f_equal length E1) as El. rewrite length_drop, length_app in El.
    assert (Hl : length w1 = S (length w)) by (subst w1; rewrite length_app; cbn; lia).
    assert (Hsearch : search false text main_path_regex 5 p = Some (param_caps (p + length w) nm)).
    { unfold search. replace (S (length text - p)) with (length w1 + S (length text - p - length w1))%nat by lia.
      rewrite (search_skip w1 p _ _ E1) by (subst w1; apply Forall_app; by repeat constructor).
      cbn [search_from]. rewrite (main_at_param _ nm (route_text segs) E2 Hne Hnm (route_ends_name segs)).
      unfold param_caps. cbn [insert list_insert].
      replace (S (p + length w1)) with (p + length w + 2)%nat by lia.
      replace (p + length w1)%nat with (p + length w + 1)%nat by lia. done. }
    rewrite Hsearch. unfold param_caps at 1. cbn [lookup list_lookup].
    rewrite (proj2 (Nat.eqb_neq _ _)) by lia. f_equal.
    rewrite (IH [] (p + length w + 2 + length nm)%nat n Hwf); [by rewrite Nat.add_0_r| |by constructor|cbn in Hn; lia].
    replace (p + length w + 2 + length nm)%nat with (p + length w1 + S (length nm))%nat by lia.
    change (chr ":" :: nm ++ route_text segs) with ((chr ":" :: nm) ++ route_text segs) in E2.
    by apply drop_app_inv in E2.
Qed.
End Cutting.

(** ** The tokens of a route *)

Definition route_options (sensitive strict : bool) : options_t := mk_options sensitive strict true [slash] (str "./") [].

Definition plain_token (w : bytes) : list token_t := match w with [] => [] | _ => [create_plain w] end.
Definition param_token (n : bytes) : token_t :=
  create_parameter (Some n) [slash] [slash] false false false (str "[^\/]+?").

(** [w] is what has been read since the last token. *)
Fixpoint route_tokens (w : bytes) (segs : list segment) : list token_t :=
  match segs with
  | [] => plain_token w
  | Fixed s :: segs => route_tokens (w ++ slash :: s) segs
  | Param n :: segs => plain_token w ++ param_token n :: route_tokens [] segs
  end.

Lemma index_of_clean c w : clean c = false -> Forall (fun c => clean c = true) w -> index_of c w = None.
Proof.
  intros Hc Hw. unfold index_of. destruct (list_find _ w) as [[i x]|] eqn:E; [|done].
  apply list_find_Some in E as (Hx & <- & _). exfalso. rewrite Forall_lookup in Hw. apply Hw in Hx. congruence.
Qed.

Lemma check_clean w pos : Forall (fun c => clean c = true) w -> check_no_unescaped_brackets w pos = Ok w.
Proof. intros Hw. unfold check_no_unescaped_brackets. by rewrite !index_of_clean. Qed.

Lemma no_params p segs : route_caps p segs = [] -> route_wf segs ->
  Forall (fun c => clean c = true) (route_text segs) /\ forall w, route_tokens w segs = plain_token (w ++ route_text segs).
Proof.
  revert p. induction segs as [|[s|n] segs IH]; intros p H Hwf; [|..|done].
  - split; [constructor|]. intros w. cbn. by rewrite app_nil_r.
  - apply Forall_cons in Hwf as [Hs Hwf]. destruct (IH _ H Hwf) as [H1 H2]. split.
    + change (route_text (Fixed s :: segs)) with ((slash :: s) ++ route_text segs). apply Forall_app.
      split; [by apply fixed_clean | done].
    + intros w. cbn [route_tokens]. rewrite H2, <- app_assoc. done.
Qed.

Section Tokens.
Context (sensitive strict : bool) (text : bytes).
Abbreviation o := (route_options sensitive strict).

(** Where the match of a parameter after the text [w] puts its parts. *)
Lemma param_match_parts last w n rest : drop last text = w ++ slash :: chr ":" :: n ++ rest ->
  let caps := param_caps (last + length w) n in
  take (last + length w + 1 - last) (drop last text) = w ++ [slash] /\
  drop (last + length w + 2 + length n) text = rest /\
  param_match_of text caps = mk_param_match n [] [] [] (take 1 rest).
Proof.
  intros E caps. assert (Er : drop (last + length w + 2 + length n) text = rest).
  { replace (last + length w + 2 + length n)%nat with (last + length ((w ++ [slash; chr ":"]) ++ n))%nat
      by (rewrite !length_app; cbn; lia). apply drop_app_inv. by rewrite E, <- !app_assoc. }
  split_and!; [|done|].
  - replace (last + length w + 1 - last)%nat with (length (w ++ [slash])) by (rewrite length_app; cbn; lia).
    rewrite E. change (w ++ slash :: chr ":" :: n ++ rest) with (w ++ [slash] ++ chr ":" :: n ++ rest).
    by rewrite app_assoc, take_app_length.
  - unfold param_match_of, sub_match, bounds, caps, param_caps. cbn [lookup list_lookup snd].
    f_equal; [|by rewrite Er].
    replace (last + length w + 2 + length n - (last + length w + 2))%nat with (length n) by lia.
    replace (last + length w + 2)%nat with (last + length (w ++ [slash; chr ":"]))%nat by (rewrite length_app; cbn; lia).
    erewrite drop_app_inv; [apply take_app_length|]. by rewrite E, <- app_assoc.
Qed.

Lemma handle_param n w res rest : n <> [] -> ends_name rest ->
  handle_param_token o (mk_param_match n [] [] [] (take 1 rest)) (mk_cutting (w ++ [slash]) false res)
  = mk_cutting [] false (res ++ plain_token w ++ [param_token n]).
Proof.
  intros Hn Hrest. unfold handle_param_token. cbn [c_path c_path_escaped c_result].
  assert (Hs : split_prefix o false (w ++ [slash]) = ([slash], w)).
  { unfold split_prefix. cbn [negb andb]. rewrite bool_decide_eq_false_2 by (by destruct w). cbn [negb].
    rewrite last_last. rewrite bool_decide_eq_true_2 by (apply list_elem_of_further, list_elem_of_here).
    rewrite length_app. cbn [length]. rewrite Nat.add_sub, drop_app_length, take_app_length. done. }
  rewrite Hs. cbn [g_next g_modifier g_name g_capture].
  assert (Hp : negb (bool_decide ([slash] = [])) && negb (bool_decide (take 1 rest = [])) &&
    negb (bool_decide ([slash] = take 1 rest)) = false).
  { by destruct Hrest as [-> | [t ->]]. }
  cbv zeta. rewrite Hp.
  destruct n as [|c n]; [done|]. destruct w as [|b w]; cbn [plain_token]; by rewrite <- ?app_assoc.
Qed.

Lemma parse_loop_route segs : forall last w res, route_wf segs -> drop last text = w ++ route_text segs ->
  Forall (fun c => clean c = true) w -> route_caps (last + length w) segs <> [] ->
  exists path R, parse_loop o text last (route_caps (last + length w) segs) (mk_cutting [] false res) = Ok (mk_cutting path false R) /\
    R ++ plain_token path = res ++ route_tokens w segs.
Proof.
  induction segs as [|[s|n] segs IH]; intros last w res Hwf E Hw Hc; [done|..]; apply Forall_cons in Hwf as [Hs Hwf].
  - cbn [route_caps route_tokens] in *. replace (last + length w + 1 + length s)%nat with (last + length (w ++ slash :: s))%nat in *
      by (rewrite length_app; cbn; lia).
    apply IH; [done| |apply Forall_app; split; [done | by apply fixed_clean]|done].
    rewrite E. cbn. by rewrite <- app_assoc.
  - destruct Hs as [Hne Hnm]. cbn [route_caps route_tokens parse_loop]. clear Hc.
    destruct (param_match_parts last w n (route_text segs) E) as (E1 & E2 & E3). unfold parse_match.
    change (bounds (param_caps (last + length w) n)) with ((last + length w + 1)%nat, (last + length w + 2 + length n)%nat).
    cbv iota beta. rewrite E1, (check_clean (w ++ [slash])) by (apply Forall_app; by repeat constructor). cbn [mbind result_bind c_path c_path_escaped c_result app].
    change (sub_match text (param_caps (last + length w) n) 1) with (@nil Z). cbv iota.
    rewrite E3, handle_param by (done || apply route_ends_name). cbn [c_path c_path_escaped c_result app].
    case_bool_decide as Hlast.
    + destruct (no_params _ _ Hlast Hwf) as [H1 H2]. rewrite Hlast, E2, check_clean by done. cbn [mbind result_bind parse_loop].
      do 2 eexists. split; [done|]. rewrite H2. cbn [app]. by rewrite <- !app_assoc.
    + cbn [mbind result_bind snd].
      destruct (IH (last + length w + 2 + length n)%nat [] (res ++ plain_token w ++ [param_token n]) Hwf E2) as (path & R & H1 & H2);
        [constructor|by rewrite Nat.add_0_r|].
      rewrite Nat.add_0_r in H1. rewrite H1. do 2 eexists. split; [done|]. rewrite H2. by rewrite <- !app_assoc.
Qed.
End Tokens.

Lemma length_route segs : (length segs <= length (route_text segs))%nat.
Proof.
  induction segs as [|s segs IH]; [done|]. change (route_text (s :: segs)) with (seg_text s ++ route_text segs).
  rewrite length_app. destruct s; cbn in *; lia.
Qed.

(** The tokens of a route. *)
Lemma parse_route sensitive strict segs : route_wf segs ->
  parse (route_text segs) (route_options sensitive strict) = Ok (route_tokens [] segs).
Proof.
  intros Hwf. unfold parse. rewrite path_regex_parses. unfold regex_iterator.
  pose proof (length_route segs) as Hl.
  rewrite (all_matches_route (route_text segs) segs [] 0 _ Hwf) by (done || lia). cbn [length Nat.add].
  destruct (decide (route_caps 0 segs = [])) as [E|E].
  - rewrite E. destruct (no_params _ _ E Hwf) as [H1 H2]. rewrite check_clean by done. cbn [mbind result_bind parse_loop].
    rewrite H2. cbn [c_result c_path app]. by destruct (route_text segs).
  - destruct (parse_loop_route sensitive strict (route_text segs) segs 0 [] [] Hwf eq_refl) as (path & R & H1 & H2); [constructor|done|].
    cbn [length Nat.add app] in H1, H2. destruct (route_caps 0 segs) as [|m ms]; [done|]. cbn [mbind result_bind].
    rewrite H1. cbn [mbind result_bind c_result c_path]. rewrite <- H2. by destruct path.
Qed.

(** ** The expression of a route *)

Definition param_re : bytes := str "((?:[^\/]+?))".
Definition seg_re (s : segment) : bytes :=
  match s with Fixed s => escape_string (slash :: s) | Param _ => escape_string [slash] ++ param_re end.

Definition param_names (segs : list segment) : list bytes :=
  omap (fun s => match s with Fixed _ => None | Param n => Some n end) segs.

(** The setters of some names that begin at [off] in the buffer. *)
Fixpoint setters (off : nat) (names : list bytes) : list param_appender_t :=
  match names with
  | [] => []
  | n :: names => add_named_param off (length n) :: setters (off + length n) names
  end.

Definition building_after (b : building) (w : bytes) (segs : list segment) : building :=
  mk_building (b_route b ++ escape_string w ++ (segs ≫= seg_re))
    (b_appenders b ++ setters (length (nb_data (b_names b))) (param_names segs))
    (mk_names (nb_capacity (b_names b)) (nb_data (b_names b) ++ concat (param_names segs)))
    (b_groups b + N.of_nat (length (param_names segs)))%N.

Lemma escape_app x y : escape_string (x ++ y) = escape_string x ++ escape_string y.
Proof. apply bind_app. Qed.

Lemma build_plain w b : foldM append_self_to b (plain_token w) = Ok (building_after b w []).
Proof.
  unfold building_after. destruct b as [r a [cap d] g]. cbn. rewrite !app_nil_r, N.add_0_r.
  destruct w as [|c w]; cbn [plain_token foldM]; cbn; by rewrite ?app_nil_r.
Qed.

Lemma build_param n b : (length (nb_data (b_names b)) + length n <= nb_capacity (b_names b))%nat ->
  append_self_to b (param_token n) = Ok (building_after b [] [Param n]).
Proof.
  intros H. unfold param_token, create_parameter, append_self_to, append_parameter. cbn [m_name]. unfold append_name.
  rewrite (proj2 (Nat.ltb_ge _ _)) by lia. unfold building_after. destruct b as [r a [cap d] g]. cbn. by rewrite ?app_nil_r.
Qed.

Lemma build_tokens segs : forall w b,
  (length (nb_data (b_names b)) + length (concat (param_names segs)) <= nb_capacity (b_names b))%nat ->
  foldM append_self_to b (route_tokens w segs) = Ok (building_after b w segs).
Proof.
  induction segs as [|[s|n] segs IH]; intros w b Hcap; cbn [route_tokens].
  - apply build_plain.
  - rewrite IH by done. unfold building_after. cbn [mbind list_bind seg_re]. rewrite escape_app, <- app_assoc. done.
  - change (plain_token w ++ param_token n :: route_tokens [] segs) with (plain_token w ++ [param_token n] ++ route_tokens [] segs).
    rewrite foldM_app, build_plain. cbn [mbind result_bind]. rewrite foldM_app.
    set (b1 := building_after b w []). change (param_names (Param n :: segs)) with (n :: param_names segs) in Hcap. cbn [concat] in Hcap. rewrite length_app in Hcap.
    assert (Hb : foldM append_self_to b1 [param_token n] = Ok (building_after b1 [] [Param n])).
    { cbn [foldM]. rewrite build_param; [done|]. unfold b1. cbn. rewrite ?app_nil_r. lia. }
    rewrite Hb. cbn [mbind result_bind]. rewrite IH by (unfold b1; cbn; rewrite !app_nil_r, !length_app; lia).
    unfold b1, building_after. cbn [b_route b_appenders b_names b_groups nb_data nb_capacity].
    change (param_names (Param n :: segs)) with (n :: param_names segs). change (param_names [Param n]) with [n].
    change (param_names []) with (@nil bytes). cbn [concat setters mbind list_bind length app]. change (escape_string []) with (@nil Z).
    rewrite !app_nil_r. cbn [app]. rewrite !length_app, <- !app_assoc. do 2 f_equal. lia.
Qed.

(** ** Parsing the expression *)

(** [p'] is [p] with more terms, of which some are groups. *)
Record extends (p : parser) (items : list regex) (groups : nat) (p' : parser) : Prop := {
  e_lex : p_lex p' = L_normal;
  e_stack : p_stack p' = p_stack p;
  e_alts : p_alts p' = p_alts p;
  e_flushed : flushed p' = in_sequence items (flushed p);
  e_groups : p_groups p' = (p_groups p + groups)%nat }.

(** The terms of a text when [g] groups have been opened. *)
Definition parsed (text : bytes) (items : nat -> list regex) (n : nat) : Prop :=
  forall p, p_lex p = L_normal -> exists p', foldM parse_char p text = Ok p' /\ extends p (items (p_groups p)) n p'.

Lemma parsed_nil : parsed [] (fun _ => []) 0.
Proof. intros p H. exists p. split; [done|]. split; (done || lia). Qed.

Lemma parsed_app t1 t2 i1 i2 n1 n2 : parsed t1 i1 n1 -> parsed t2 i2 n2 ->
  parsed (t1 ++ t2) (fun g => i1 g ++ i2 (g + n1)%nat) (n1 + n2).
Proof.
  intros H1 H2 p H. destruct (H1 p H) as (p1 & E1 & [L1 S1 A1 F1 G1]). destruct (H2 p1 L1) as (p2 & E2 & [L2 S2 A2 F2 G2]).
  exists p2. rewrite foldM_app, E1. cbn [mbind result_bind]. split; [done|].
  split; [done|congruence|congruence| |lia]. rewrite F2, F1, G1. unfold in_sequence. by rewrite fold_left_app.
Qed.

Lemma parsed_ext t i i' n n' : parsed t i n -> (forall g, i g = i' g) -> n = n' -> parsed t i' n'.
Proof. intros H Hi <- p Hp. destruct (H p Hp) as (p' & E & Hx). exists p'. by rewrite <- Hi. Qed.

(** One term from an ordinary state. *)
Lemma parsed_atom t r n : (forall p, p_lex p = L_normal ->
    foldM parse_char p t = Ok (mk_parser L_normal (p_stack p) (p_alts p) (flushed p) (Some (r (p_groups p))) (p_groups p + n))) ->
  parsed t (fun g => [r g]) n.
Proof. intros H p Hp. eexists. split; [by apply H|]. by split. Qed.

Definition special (c : Z) : bool := is_in c ".+*?=^:${}()[]|\/".

Lemma push_atom_eq p r : push_atom p r = mk_parser L_normal (p_stack p) (p_alts p) (flushed p) (Some r) (p_groups p + 0).
Proof. by rewrite Nat.add_0_r. Qed.

Lemma not_in c s x : is_in c s = false -> is_in x s = true -> (c =? x) = false.
Proof. intros H1 H2. destruct (Z.eqb_spec c x) as [->|]; [congruence | done]. Qed.

Lemma is_in_false c s : (forall x, is_in x s = true -> (c =? x) = false) -> is_in c s = false.
Proof. intros H. destruct (is_in c s) eqn:E; [|done]. specialize (H c E). by rewrite Z.eqb_refl in H. Qed.

Lemma parsed_ordinary c : special c = false -> parsed [c] (fun _ => [single c]) 0.
Proof.
  intros H. apply parsed_atom. intros p Hp. cbn [foldM mbind result_bind]. unfold parse_char. rewrite Hp.
  unfold normal_char. rewrite Hp. cbn [andb].
  assert (Hq : forall x, is_in x ".+*?=^:${}()[]|\/" = true -> (c =? x) = false) by (intros x; by apply not_in).
  rewrite (Hq (chr "^")), (Hq (chr "$")), (Hq (chr "\")), (Hq (chr ".")), (Hq (chr "|")), (Hq (chr "(")),
    (Hq (chr ")")), (Hq (chr "[")) by done.
  rewrite (is_in_false c "*+?{"), (is_in_false c "]}");
    [by rewrite push_atom_eq|..]; intros x Hx; apply Hq; unfold is_in in Hx; apply existsb_exists in Hx as (y & Hy & ->%Z.eqb_eq);
    cbn in Hy; repeat (destruct Hy as [<- | Hy]; [reflexivity|]); done.
Qed.

Lemma parsed_special c : special c = true -> parsed [chr "\"; c] (fun _ => [single c]) 0.
Proof.
  intros H. apply parsed_atom. intros p Hp. unfold special, is_in in H. apply existsb_exists in H as (x & Hx & ->%Z.eqb_eq).
  destruct p as [l st al sq la gr]. cbn in Hp. subst l. cbn in Hx.
  repeat (destruct Hx as [<- | Hx]; [cbn; by rewrite ?Nat.add_0_r|]). done.
Qed.

Lemma escape_cons c s : escape_string (c :: s) = (if special c then [chr "\"; c] else [c]) ++ escape_string s.
Proof. unfold escape_string, special. cbn [mbind list_bind]. by destruct (is_in c _). Qed.

Lemma parsed_escaped s : parsed (escape_string s) (fun _ => single <$> s) 0.
Proof.
  induction s as [|c s IH]; [apply parsed_nil|]. rewrite escape_cons.
  assert (H : parsed (if special c then [chr "\"; c] else [c]) (fun _ => [single c]) 0)
    by (destruct (special c) eqn:E; [by apply parsed_special | by apply parsed_ordinary]).
  exact (parsed_app _ _ _ _ 0 0 H IH).
Qed.

Definition not_slash : char_set := mk_set true [(slash, slash)].
Definition param_group (n : nat) : regex := Group n (Seq Eps (Seq Eps (Rep false 1 None (Chars not_slash)))).
Definition optional_slash : regex := Rep true 0 (Some 1%nat) (Seq Eps (single slash)).

Lemma parsed_param : parsed param_re (fun g => [param_group (S g)]) 1.
Proof.
  apply parsed_atom. intros p Hp. destruct p as [l st al sq la gr]. cbn in Hp. subst l. rewrite Nat.add_1_r.
  by destruct la.
Qed.

(** The terms of a segment after [g] groups. *)
Definition seg_items (g : nat) (s : segment) : list regex :=
  match s with Fixed s => single <$> slash :: s | Param _ => [single slash; param_group (S g)] end.
Definition seg_groups (s : segment) : nat := match s with Fixed _ => 0 | Param _ => 1 end.
Fixpoint route_items (g : nat) (segs : list segment) : list regex :=
  match segs with [] => [] | s :: segs => seg_items g s ++ route_items (g + seg_groups s) segs end.

Lemma parsed_route segs : parsed (segs ≫= seg_re) (fun g => route_items g segs) (length (param_names segs)).
Proof.
  induction segs as [|s segs IH]; [apply parsed_nil|]. cbn [mbind list_bind route_items].
  replace (length (param_names (s :: segs))) with (seg_groups s + length (param_names segs))%nat by (by destruct s).
  assert (H : parsed (seg_re s) (fun g => seg_items g s) (seg_groups s)).
  { destruct s as [s|n]; [exact (parsed_escaped (slash :: s))|].
    eapply parsed_ext; [exact (parsed_app _ _ _ _ 0 1 (parsed_escaped [slash]) parsed_param)| |done].
    intros g. cbn [seg_items fmap list_fmap app]. by rewrite Nat.add_0_r. }
  exact (parsed_app _ _ _ _ _ _ H IH).
Qed.

(** The end of the expression. *)
Definition end_items (strict : bool) : list regex := if strict then [Eol] else [optional_slash; Eol].

Lemma route_end_eq (sensitive strict : bool) tokens :
  route_end (route_options sensitive strict) tokens = if strict then str "$" else str "(?:\/)?$".
Proof. by destruct strict. Qed.

Lemma parsed_end (strict : bool) : parsed (if strict then str "$" else str "(?:\/)?$") (fun _ => end_items strict) 0.
Proof.
  intros p Hp. destruct p as [l st al sq la gr]. cbn in Hp. subst l.
  destruct strict, la; (eexists; split; [reflexivity|]); (split; [done..|cbn; lia]).
Qed.

Lemma parse_route_regex sensitive strict tokens segs :
  parse_regex (str "^" ++ (segs ≫= seg_re) ++ route_end (route_options sensitive strict) tokens)
  = Ok (in_sequence (Bol :: route_items 0 segs ++ end_items strict) Eps, length (param_names segs)).
Proof.
  unfold parse_regex. rewrite route_end_eq. pose proof (parsed_app _ _ _ _ _ _ (parsed_route segs) (parsed_end strict)) as H.
  set (R := segs ≫= seg_re) in *. clearbody R. rewrite foldM_app.
  set (p0 := push_assertion parser_start Bol). change (foldM parse_char parser_start (str "^")) with (@Ok regex_error _ p0).
  cbn [mbind result_bind]. destruct (H p0 eq_refl) as (p' & -> & [L S A F G]).
  cbn [mbind result_bind]. unfold parser_finish. rewrite L, S. cbn [p_stack p0 push_assertion parser_start].
  unfold disjunction. rewrite A, F, G. cbn. by rewrite Nat.add_0_r.
Qed.

(** ** Matching a path *)

Section Paths.
Context (icase strict : bool).

(** Where the parameters of a path that begins at [p] are. *)
Fixpoint spans (segs : list segment) (p : nat) (t : bytes) : option (list (nat * nat)) :=
  match segs with
  | [] => match t with
          | [] => Some []
          | [c] => if negb strict && (c =? slash) then Some [] else None
          | _ => None
          end
  | s :: segs =>
      match t with
      | [] => None
      | c :: t =>
          if c =? slash then
            match s with
            | Fixed s =>
                if bool_decide (same_text icase s (take (length s) t))
                then spans segs (p + 1 + length s) (drop (length s) t) else None
            | Param _ =>
                let n := Target.memchr_helper slash t in
                if (n =? 0)%nat then None
                else bs ← spans segs (p + 1 + n) (drop n t); Some ((p + 1, p + 1 + n)%nat :: bs)
            end
          else None
      end
  end.

Fixpoint add_caps (g : nat) (bs : list (nat * nat)) (caps : captures) : captures :=
  match bs with [] => caps | b :: bs => add_caps (S g) bs (<[S g := Some b]> caps) end.

Lemma spans_not_slash segs p c t : c <> slash -> spans segs p (c :: t) = None.
Proof.
  intros H. destruct segs as [|s segs]; cbn [spans]; rewrite (proj2 (Z.eqb_neq _ _) H); [|done].
  rewrite andb_false_r. by destruct t.
Qed.

Lemma same_char_slash c : same_char icase slash c = (c =? slash).
Proof.
  unfold same_char, in_set, in_ranges, lower, upper, slash. cbn [cs_negated cs_ranges existsb]. rewrite xorb_false_l.
  destruct icase; repeat case_match; lia.
Qed.

Context (text : bytes).
Abbreviation run := (matches icase text).

Lemma run_slash p caps k c rest : drop p text = c :: rest ->
  run (single slash) (p, caps) k = if c =? slash then k (S p, caps) else None.
Proof. intros E. unfold single. rewrite (run_chars _ _ _ _ _ _ _ _ E). by rewrite <- same_char_slash. Qed.

Lemma run_end p caps : (p <= length text)%nat ->
  run_items icase text (end_items strict) (p, caps) Some =
  match spans [] p (drop p text) with Some _ => Some (length text, caps) | None => None end.
Proof.
  intros Hp. pose proof (length_drop text p) as Hl.
  assert (Heol : forall q, run Eol (q, caps) Some = if (q =? length text)%nat then Some (q, caps) else None) by done.
  unfold end_items. destruct (drop p text) as [|c t] eqn:E; cbn [length] in Hl.
  - assert (p = length text) as -> by lia. cbn [spans]. destruct strict eqn:Es; cbn [run_items].
    + by rewrite Heol, Nat.eqb_refl.
    + unfold optional_slash. rewrite run_optional, run_seq, run_eps. unfold single.
      rewrite run_chars_end by done. cbn [orelse]. by rewrite Heol, Nat.eqb_refl.
  - destruct strict eqn:Es; cbn [run_items].
    + rewrite Heol, (proj2 (Nat.eqb_neq _ _)) by lia. cbn [spans]. rewrite Es. cbn [negb andb]. by destruct t.
    + unfold optional_slash. rewrite run_optional, run_seq, run_eps, (run_slash _ _ _ _ _ E). cbn [fst].
      rewrite (proj2 (Nat.eqb_neq _ _)) by lia. rewrite !Heol. rewrite (proj2 (Nat.eqb_neq p _)) by lia.
      cbn [spans]. rewrite Es. cbn [negb andb]. destruct (c =? slash); [|by destruct t].
      destruct t as [|c' t]; cbn in Hl.
      * replace (S p) with (length text) by lia. by rewrite Nat.eqb_refl.
      * by rewrite (proj2 (Nat.eqb_neq _ _)) by lia.
Qed.

Lemma in_not_slash c : in_set icase not_slash c = negb (c =? slash).
Proof. rewrite <- same_char_slash. unfold same_char, in_set, not_slash. cbn [cs_negated cs_ranges]. by rewrite xorb_true_l, xorb_false_l. Qed.

Lemma run_route segs : forall g p caps, (p <= length text)%nat ->
  run_items icase text (route_items g segs ++ end_items strict) (p, caps) Some =
  match spans segs p (drop p text) with Some bs => Some (length text, add_caps g bs caps) | None => None end.
Proof.
  induction segs as [|s segs IH]; intros g p caps Hp.
  { cbn [route_items app]. rewrite run_end by done. destruct (spans [] p (drop p text)) as [bs|] eqn:E; [|done].
    assert (bs = []) as ->; [|done]. cbn [spans] in E. destruct (drop p text) as [|c [|]]; [congruence| |done].
    by destruct (negb strict && (c =? slash)); [injection E as <-|]. }
  cbn [route_items]. rewrite <- app_assoc, run_items_app. destruct (drop p text) as [|c t] eqn:E.
  { cbn [spans]. destruct s; cbn [seg_items fmap list_fmap run_items]; unfold single; by rewrite run_chars_end. }
  pose proof (f_equal length E) as El. rewrite length_drop in El. cbn in El. cbn [spans].
  destruct s as [s|n]; cbn [seg_items seg_groups].
  - rewrite (run_text _ _ _ _ _ _ _ E). cbn [length take].
    assert (Hd : bool_decide (same_text icase (slash :: s) (c :: take (length s) t))
      = (c =? slash) && bool_decide (same_text icase s (take (length s) t))).
    { rewrite <- same_char_slash. apply eq_true_iff_eq. rewrite andb_true_iff, !bool_decide_eq_true. unfold same_text.
      rewrite Forall2_cons. done. }
    rewrite Hd. destruct (c =? slash); [|done]. cbn [andb].
    destruct (decide (same_text icase s (take (length s) t))) as [Hs|Hs];
      [rewrite !bool_decide_eq_true_2 by done | rewrite !bool_decide_eq_false_2 by done; done].
    assert (Hle : (length s <= length t)%nat).
    { apply Forall2_length in Hs. rewrite length_take in Hs. lia. }
    rewrite IH, Nat.add_0_r by lia. replace (p + S (length s))%nat with (p + 1 + length s)%nat by lia.
    rewrite <- (drop_drop text _ (p + 1)). rewrite <- (drop_drop text 1 p), E. done.
  - cbn [run_items]. rewrite (run_slash _ _ _ _ _ E). destruct (c =? slash) eqn:Ec; [|done].
    destruct (drop_cons_inv _ _ _ _ E) as [_ Et]. destruct (memchr_cut slash t) as [Hn Hr].
    set (n' := Target.memchr_helper slash t) in *.
    assert (Hw : Forall (fun c => in_set icase not_slash c = true) (take n' t)).
    { apply Forall_forall. intros x Hx. rewrite in_not_slash. apply negb_true_iff, Z.eqb_neq. intros ->. done. }
    assert (Hst : stops icase not_slash (drop n' t)).
    { destruct Hr as [-> | [r ->]]; [done|]. change (in_set icase not_slash slash = false). by rewrite in_not_slash. }
    assert (Htd : drop (S p) text = take n' t ++ drop n' t) by (rewrite take_drop; done).
    unfold param_group. rewrite run_group, run_seq, run_eps, run_seq, run_eps.
    rewrite (run_plus_lazy icase text not_slash (S p) caps _ (take n' t) (drop n' t) Htd Hw Hst).
    2: { intros j [Hj1 Hj2]. cbn [fst snd]. rewrite IH by (rewrite length_take in Hj2; lia).
      replace (drop (S p + j) text) with (drop j (take n' t) ++ drop n' t)
        by (rewrite <- drop_drop, Htd, drop_app_le by lia; done).
      destruct (drop j (take n' t)) as [|x l] eqn:Ej; [apply (f_equal length) in Ej; rewrite length_drop in Ej; cbn in Ej; lia|].
      cbn [app]. rewrite spans_not_slash; [done|]. intros ->. apply Hn.
      rewrite <- (take_drop j (take n' t)), Ej. apply elem_of_app. right. apply list_elem_of_here. }
    destruct (take n' t) as [|x l] eqn:Etk.
    + assert (n' = 0%nat) as ->; [|done]. destruct t as [|y t']; [done|]. destruct n'; [done | discriminate].
    + assert (Hlen : length (x :: l) = n').
      { rewrite <- Etk, length_take. apply Nat.min_l, memchr_le. }
      assert (Hln : (n' <= length t)%nat) by (apply (f_equal length) in Etk; rewrite length_take, Hlen in Etk; lia).
      rewrite (proj2 (Nat.eqb_neq _ _)) by (rewrite <- Hlen; done). cbn [fst snd]. rewrite Hlen, IH by lia.
      rewrite <- (drop_drop text n' (S p)), Et. replace (S p + n')%nat with (p + 1 + n')%nat by lia.
      replace (S p) with (p + 1)%nat by lia. replace (g + 1)%nat with (S g) by lia.
      by destruct (spans segs _ _).
Qed.
End Paths.

(** ** The parameters *)

Definition value (text : bytes) (be : nat * nat) : bytes := take (be.2 - be.1) (drop be.1 text).

Lemma value_at text p v t : drop p text = v ++ t -> value text (p, p + length v)%nat = v.
Proof. intros E. unfold value. cbn [fst snd]. rewrite E. replace (p + length v - p)%nat with (length v) by lia. apply take_app_length. Qed.

Lemma path_begins icase strict segs ps t : path_of icase strict segs ps t -> t = [] \/ exists r, t = slash :: r.
Proof. intros H. destruct H; [by left | right; by eexists ..]. Qed.

(** Spans of the parameters are the same thing as a path of the route. *)
Lemma spans_path icase strict text segs : forall p bs t, drop p text = t -> spans icase strict segs p t = Some bs ->
  path_of icase strict segs (zip (param_names segs) (value text <$> bs)) t /\ length bs = length (param_names segs).
Proof.
  induction segs as [|s segs IH]; intros p bs t E H; cbn [spans] in H.
  - destruct t as [|c [|]]; [injection H as <-; by repeat constructor| |done].
    destruct strict eqn:Es; [done|]. destruct (Z.eqb_spec c slash) as [->|]; [|done]. injection H as <-. by repeat constructor.
  - destruct t as [|c t]; [done|]. destruct (Z.eqb_spec c slash) as [->|]; [|done].
    destruct (drop_cons_inv _ _ _ _ E) as [_ Et]. destruct s as [s|n].
    + case_bool_decide as Hs; [|done]. assert (Et' : drop (p + 1 + length s) text = drop (length s) t).
      { rewrite <- Et, drop_drop. f_equal. lia. }
      destruct (IH _ _ _ Et' H) as [H1 H2]. split; [|done]. rewrite <- (take_drop (length s) t). by constructor.
    + set (k := Target.memchr_helper slash t) in *. destruct (Nat.eqb_spec k 0) as [|Hk]; [done|].
      destruct (spans _ _ segs _ _) as [bs'|] eqn:Eb; [|done]. injection H as <-.
      destruct (memchr_cut slash t) as [Hn Hr]. fold k in Hn, Hr.
      assert (Hlen : length (take k t) = k).
      { rewrite length_take. apply Nat.min_l, memchr_le. }
      assert (Et' : drop (p + 1 + k) text = drop k t) by (rewrite <- Et, drop_drop; f_equal; lia).
      destruct (IH _ _ _ Et' Eb) as [H1 H2].
      change (param_names (Param n :: segs)) with (n :: param_names segs). cbn [fmap list_fmap zip_with length].
      assert (Hv : value text (p + 1, p + 1 + k)%nat = take k t).
      { rewrite <- Hlen at 1. apply (value_at text (p + 1) (take k t) (drop k t)). by rewrite take_drop, Nat.add_1_r. }
      rewrite Hv. split; [|by rewrite H2]. rewrite <- (take_drop k t) at 2. constructor; [|done|done].
      intros Hz. by rewrite Hz in Hlen.
Qed.

Lemma path_spans icase strict text segs ps t : path_of icase strict segs ps t -> forall p, drop p text = t ->
  exists bs, spans icase strict segs p t = Some bs /\ ps = zip (param_names segs) (value text <$> bs).
Proof.
  induction 1 as [|Hs|s s' segs ps t Hs Hp IH|n v segs ps t Hne Hv Hp IH]; intros p E.
  - by exists [].
  - exists []. cbn [spans]. by rewrite Hs.
  - pose proof (Forall2_length _ _ _ Hs) as Hl.
    assert (Et : drop (p + 1 + length s) text = t).
    { rewrite Hl. replace (p + 1 + length s')%nat with (p + length (slash :: s'))%nat by (cbn; lia). by apply drop_app_inv. }
    destruct (IH _ Et) as (bs & Hbs & ->). exists bs. cbn [spans]. change (slash =? slash) with true. cbv iota.
    rewrite Hl, take_app_length, bool_decide_eq_true_2 by done. rewrite drop_app_length, <- Hl. done.
  - assert (E1 : drop (p + 1) text = v ++ t) by (rewrite Nat.add_1_r; by apply drop_cons_inv in E as [_ ->]).
    pose proof (drop_app_inv _ _ _ _ E1) as Et. destruct (IH _ Et) as (bs & Hbs & ->).
    exists ((p + 1, p + 1 + length v)%nat :: bs). cbn [spans]. change (slash =? slash) with true. cbv iota.
    rewrite memchr_before by (done || by eapply path_begins). rewrite (proj2 (Nat.eqb_neq _ _)) by (by destruct v).
    rewrite drop_app_length, Hbs. split; [done|]. change (param_names (Param n :: segs)) with (n :: param_names segs).
    cbn [fmap list_fmap zip_with]. by rewrite (value_at _ _ _ _ E1).
Qed.

(** ** The search *)

Lemma search_anchored icase text items groups :
  let r := in_sequence (Bol :: items) Eps in
  search icase text r groups 0 =
  match run_items icase text items (0%nat, replicate (S groups) None) Some with
  | Some (e, caps) => Some (<[0%nat := Some (0, e)%nat]> caps)
  | None => None
  end.
Proof.
  intros r. assert (Hr : forall p caps, matches icase text r (p, caps) Some =
    if (p =? 0)%nat then run_items icase text items (p, caps) Some else None).
  { intros p caps. unfold r. rewrite run_sequence, run_eps. cbn [run_items matches fst]. done. }
  assert (Hs : forall n p, search_from icase text r groups n (S p) = None).
  { induction n as [|n IH]; intros p; [done|]. cbn [search_from]. rewrite Hr. apply IH. }
  unfold search. cbn [search_from]. rewrite Hr, Hs. done.
Qed.

Lemma add_caps_eq bs : forall g l, length l = S g ->
  add_caps g bs (l ++ replicate (length bs) None) = l ++ (Some <$> bs).
Proof.
  induction bs as [|b bs IH]; intros g l Hl; [done|]. cbn [add_caps length replicate fmap list_fmap].
  rewrite <- Hl, insert_app_r_alt by lia. rewrite Nat.sub_diag. cbn [insert list_insert].
  change (Some b :: replicate (length bs) None) with ([Some b] ++ replicate (length bs) None).
  rewrite app_assoc, IH by (rewrite length_app; cbn; lia). by rewrite <- app_assoc.
Qed.

Lemma search_route icase strict text segs groups : groups = length (param_names segs) ->
  search icase text (in_sequence (Bol :: route_items 0 segs ++ end_items strict) Eps) groups 0 =
  (fun bs => Some (0, length text)%nat :: (Some <$> bs)) <$> spans icase strict segs 0 text.
Proof.
  intros ->. rewrite search_anchored, run_route by lia. rewrite drop_0.
  destruct (spans icase strict segs 0 text) as [bs|] eqn:E; [|done]. cbn [fmap option_fmap option_map].
  destruct (spans_path icase strict text segs 0 bs text eq_refl E) as [_ <-].
  change (replicate (S (length bs)) None) with ([@None (nat * nat)] ++ replicate (length bs) None).
  by rewrite (add_caps_eq bs 0 [None]).
Qed.

(** ** The appenders *)

(** The parameters as the handler reads them. *)
Definition named_params (r : route_params_t) : list (bytes * bytes) :=
  (fun '(k, v) => (part (m_key_names_buffer r) k, part (m_request_target r) v)) <$> m_named_parameters r.

Definition span_view (be : nat * nat) : view_t := mk_view be.1 (be.2 - be.1).

Lemma append_setters names : forall off bs to, length bs = length names ->
  append_params to (setters off names) bs
  = mk_appender (a_named_parameters to ++ zip ((fun s => match s with add_named_param o n => mk_view o n | add_indexed_param => mk_view 0 0 end) <$> setters off names)
                   (span_view <$> bs)) (a_indexed_parameters to).
Proof.
  induction names as [|n names IH]; intros off [|[b e] bs] to Hl; try done.
  - cbn. rewrite app_nil_r. by destruct to.
  - injection Hl as Hl. cbn [setters append_params]. rewrite IH by done. cbn. by rewrite <- app_assoc.
Qed.

Lemma setters_names names : forall pre vs,
  (fun '(k, v) => (part (pre ++ concat names) k, v)) <$>
    zip ((fun s => match s with add_named_param o n => mk_view o n | add_indexed_param => mk_view 0 0 end) <$> setters (length pre) names) vs
  = zip names vs :> list (bytes * bytes).
Proof.
  induction names as [|n names IH]; intros pre [|v vs]; try done. cbn [setters fmap list_fmap zip_with concat]. f_equal.
  - unfold part. cbn [v_begin v_size]. by rewrite drop_app_length, take_app_length.
  - rewrite <- (IH (pre ++ n)), length_app, <- app_assoc. done.
Qed.

Lemma length_setters off names : length (setters off names) = length names.
Proof. revert off. induction names as [|n names IH]; intros off; [done|]. cbn. by rewrite IH. Qed.

Section Compiled.
Context (reserve : nat -> nat) (Hreserve : forall n, (n <= reserve n)%nat).

Lemma length_names segs : (length (concat (param_names segs)) <= length (route_text segs))%nat.
Proof.
  induction segs as [|[s|n] segs IH]; [done|..].
  - change (route_text (Fixed s :: segs)) with (seg_text (Fixed s) ++ route_text segs). rewrite length_app. change (param_names (Fixed s :: segs)) with (param_names segs). lia.
  - change (route_text (Param n :: segs)) with (seg_text (Param n) ++ route_text segs). rewrite length_app.
    change (param_names (Param n :: segs)) with (n :: param_names segs). cbn [concat]. rewrite length_app. cbn. lia.
Qed.

(** What a route is translated to. *)
Lemma route_translated sensitive strict segs : route_wf segs ->
  (N.of_nat (length (param_names segs)) < 2 ^ 64 - 1)%N ->
  @path2regex std_regex_engine_t reserve (route_text segs) (route_options sensitive strict)
  = Ok (@mk_matcher_data std_regex_engine_t
      (negb sensitive, (in_sequence (Bol :: route_items 0 segs ++ end_items strict) Eps, length (param_names segs)))
      (concat (param_names segs)) (setters 0 (param_names segs))).
Proof.
  intros Hwf Hn. unfold path2regex. rewrite parse_route by done. cbn [mbind result_bind]. unfold tokens2regexp.
  pose proof (length_names segs) as Hl. pose proof (Hreserve (length (route_text segs))) as Hr.
  rewrite build_tokens by (cbn; lia). cbn [mbind result_bind]. unfold building_after. cbn [b_groups b_route b_names b_appenders nb_data app length].
  rewrite (proj2 (N.ltb_ge _ _)) by (cbn [max_capture_groups std_regex_engine_t]; lia).
  cbn [compile_regex std_regex_engine_t]. change (escape_string []) with (@nil Z). cbn [app]. rewrite parse_route_regex. done.
Qed.
End Compiled.

Lemma part_value t v : part t (span_view v) = value t v.
Proof. done. Qed.

Lemma zip_fmap_r {A B C} (f : B -> C) (l : list A) (k : list B) : zip l (f <$> k) = (fun '(a, b) => (a, f b)) <$> zip l k.
Proof. revert k. induction l as [|a l IH]; intros [|b k]; try done. cbn. by rewrite IH. Qed.

Lemma zip_fmap_l {A B C} (f : A -> C) (l : list A) (k : list B) : zip (f <$> l) k = (fun '(a, b) => (f a, b)) <$> zip l k.
Proof. revert k. induction l as [|a l IH]; intros [|b k]; try done. cbn. by rewrite IH. Qed.

(** What a handler gets. *)
Definition route_result (segs : list segment) (t : bytes) (bs : list (nat * nat)) : route_params_t :=
  mk_params t (concat (param_names segs)) (mk_view 0 (length t))
    (a_named_parameters (append_params (mk_appender [] []) (setters 0 (param_names segs)) bs)) [].

Lemma route_result_params segs t bs : length bs = length (param_names segs) ->
  named_params (route_result segs t bs) = zip (param_names segs) (value t <$> bs).
Proof.
  intros Hl. unfold named_params, route_result. cbn [m_named_parameters m_key_names_buffer m_request_target].
  rewrite append_setters by done. cbn [a_named_parameters app].
  rewrite <- (setters_names (param_names segs) [] (value t <$> bs)). cbn [length app].
  rewrite !zip_fmap_r, <- !list_fmap_compose. apply list_fmap_ext. intros _ [k v] _. done.
Qed.

(** One route, one path. *)
Lemma match_translated segs icase strict t :
  @match_route std_regex_engine_t
    (@mk_matcher_data std_regex_engine_t
      (icase, (in_sequence (Bol :: route_items 0 segs ++ end_items strict) Eps, length (param_names segs)))
      (concat (param_names segs)) (setters 0 (param_names segs)))
    (mk_path_holder (Some t) (length t))
  = match spans icase strict segs 0 t with
    | Some bs => Ok (Some (route_result segs t bs), mk_path_holder None (length t))
    | None => Ok (None, mk_path_holder (Some t) (length t))
    end.
Proof.
  unfold match_route, holder_view. cbn [m_data m_size fmap option_fmap option_map]. rewrite take_ge by done.
  cbn [of_option mbind result_bind]. unfold try_match, std_regex_engine_t. cbn [m_regex].
  rewrite search_route by done. destruct (spans icase strict segs 0 t) as [bs|] eqn:E; [|done].
  destruct (spans_path icase strict t segs 0 bs t eq_refl E) as [_ Hl].
  cbn [fmap option_fmap option_map list_fmap m_param_appender_sequence m_named_params_buffer length default].
  rewrite <- list_fmap_compose.
  assert (Hid : (fun m => default (length t, length t) m) ∘ Some <$> bs = bs) by apply list_fmap_id.
  rewrite Hid, length_setters, Hl, Nat.add_1_r, Nat.ltb_irrefl. cbn [giveout_data m_data m_size default tail].
  unfold route_result. rewrite append_setters by done. cbv beta iota zeta delta [id]. by rewrite Nat.sub_0_r.
Qed.

(** C14 (functional). A route of fixed segments and named parameters is
    translated without an error, and it matches the paths made of its segments and
    no others: a fixed segment up to the case of its letters unless the route is
    sensitive, a parameter any text without a slash that is not empty, and one
    slash more at the end unless the route is strict. The handler finds each
    parameter under its name; when the route does not match, the path stays for the
    next one. *)
Theorem express_route_exact reserve (sensitive strict : bool) (segs : list segment) :
  (forall n, (n <= reserve n)%nat) -> route_wf segs -> (N.of_nat (length (param_names segs)) < 2 ^ 64 - 1)%N ->
  exists d, @path2regex std_regex_engine_t reserve (route_text segs) (route_options sensitive strict) = Ok d /\
  forall t, let h := mk_path_holder (Some t) (length t) in
    (exists r, @match_route std_regex_engine_t d h = Ok (Some r, mk_path_holder None (length t)) /\
       path_of (negb sensitive) strict segs (named_params r) t /\ m_indexed_parameters r = [] /\
       (forall ps, path_of (negb sensitive) strict segs ps t -> ps = named_params r)) \/
    (@match_route std_regex_engine_t d h = Ok (None, h) /\ forall ps, ~ path_of (negb sensitive) strict segs ps t).
Proof.
  intros Hr Hwf Hn. eexists. split; [by apply route_translated|]. intros t h. unfold h. rewrite match_translated.
  destruct (spans (negb sensitive) strict segs 0 t) as [bs|] eqn:E.
  - left. destruct (spans_path _ _ t segs 0 bs t eq_refl E) as [Hp Hl]. exists (route_result segs t bs).
    rewrite route_result_params by done. split_and!; try done. intros ps Hps.
    destruct (path_spans _ _ t _ _ _ Hps 0%nat eq_refl) as (bs' & E' & ->). congruence.
  - right. split; [done|]. intros ps Hps. destruct (path_spans _ _ t _ _ _ Hps 0%nat eq_refl) as (bs' & E' & _). congruence.
Qed.

Definition sample_route : list segment := [Fixed (str "users"); Param (str "id")].

Lemma sample_wf : route_wf sample_route.
Proof. repeat constructor; done. Qed.

Lemma express_route_exact_witness :
  exists d, @path2regex std_regex_engine_t id (str "/users/:id") (route_options false false) = Ok d /\
  exists r, @match_route std_regex_engine_t d (mk_path_holder (Some (str "/Users/42/")) 10) = Ok (Some r, mk_path_holder None 10) /\
    named_params r = [(str "id", str "42")].
Proof.
  destruct (express_route_exact id false false sample_route (fun n => le_n n) sample_wf ltac:(done)) as (d & Hd & Hm).
  exists d. split; [exact Hd|]. assert (Hp : path_of true false sample_route [(str "id", str "42")] (str "/Users/42/")).
  { apply (path_fixed true false (str "users") (str "Users") [Param (str "id")] [(str "id", str "42")] (str "/42/")); [by repeat constructor|].
    apply (path_param true false (str "id") (str "42") [] [] (str "/")); [done| |by constructor].
    apply (bool_decide_unpack _). reflexivity. }
  destruct (Hm (str "/Users/42/")) as [(r & Hr & _ & _ & Hps)|[_ Hno]]; [|by destruct (Hno _ Hp)].
  exists r. split; [exact Hr|]. symmetry. by apply Hps.
Defined.

(** ** The router *)

Section Router.
Context {M : Type} `{MethodMatcher M} {Hd NH : Type} (reserve : nat -> nat).

(** What the user adds. *)
Record route_spec : Type := mk_spec {
  r_matcher : M; r_segs : list segment; r_sensitive : bool; r_strict : bool; r_handler : Hd }.
Definition spec_ok (s : route_spec) : Prop :=
  route_wf (r_segs s) /\ (N.of_nat (length (param_names (r_segs s))) < 2 ^ 64 - 1)%N.

Abbreviation router := (@express_router_t std_regex_engine_t Hd NH).
Definition add_spec (r : router) (s : route_spec) : result route_error router :=
  @add_handler std_regex_engine_t reserve Hd NH M _ r (r_matcher s) (route_text (r_segs s))
    (route_options (r_sensitive s) (r_strict s)) (r_handler s).

(** The route is for this request, with these parameters. *)
Definition accepts (s : route_spec) (method : http_method_id_t) (t : bytes) (ps : list (bytes * bytes)) : Prop :=
  match_method (r_matcher s) method = true /\ path_of (negb (r_sensitive s)) (r_strict s) (r_segs s) ps t.

Definition entry_of (s : route_spec) : @route_entry_t std_regex_engine_t Hd :=
  @mk_entry std_regex_engine_t Hd (match_method (r_matcher s))
    (@mk_matcher_data std_regex_engine_t
      (negb (r_sensitive s), (in_sequence (Bol :: route_items 0 (r_segs s) ++ end_items (r_strict s)) Eps, length (param_names (r_segs s))))
      (concat (param_names (r_segs s))) (setters 0 (param_names (r_segs s))))
    (r_handler s).

Lemma add_specs specs (r : router) : (forall n, (n <= reserve n)%nat) -> Forall spec_ok specs ->
  foldM add_spec r specs = Ok (@mk_router std_regex_engine_t Hd NH (m_handlers r ++ (entry_of <$> specs)) (m_non_matched_request_handler r)).
Proof.
  intros Hr Hs. revert r. induction Hs as [|s specs [Hwf Hn] _ IH]; intros r; cbn [foldM fmap list_fmap].
  - rewrite app_nil_r. by destruct r.
  - unfold add_spec at 1, add_handler, make_entry. rewrite route_translated by done. cbn [mbind result_bind].
    rewrite IH. cbn [m_handlers m_non_matched_request_handler]. by rewrite <- app_assoc.
Qed.

Lemma try_specs specs method t :
  exists found, @try_entries std_regex_engine_t Hd (entry_of <$> specs) method (mk_path_holder (Some t) (length t)) = Ok found /\
  match found with
  | Some (h, r) => exists pre s post, specs = pre ++ s :: post /\ h = r_handler s /\ accepts s method t (named_params r) /\
      Forall (fun s => forall ps, ~ accepts s method t ps) pre
  | None => Forall (fun s => forall ps, ~ accepts s method t ps) specs
  end.
Proof.
  induction specs as [|s specs (found & Hf & IH)]; [by exists None|]. cbn [fmap list_fmap try_entries].
  assert (Hskip : (forall ps, ~ accepts s method t ps) ->
    match found with
    | Some (h, r) => exists pre s' post, s :: specs = pre ++ s' :: post /\ h = r_handler s' /\ accepts s' method t (named_params r) /\
        Forall (fun s => forall ps, ~ accepts s method t ps) pre
    | None => Forall (fun s => forall ps, ~ accepts s method t ps) (s :: specs)
    end).
  { intros Hno. destruct found as [[h r]|]; [|by constructor]. destruct IH as (pre & s' & post & -> & -> & Ha & Hpre).
    exists (s :: pre), s', post. split_and!; try done. by constructor. }
  unfold entry_match. cbn [entry_of e_method_matcher e_data e_handler].
  destruct (match_method (r_matcher s) method) eqn:Em.
  - rewrite match_translated. destruct (spans _ _ (r_segs s) 0 t) as [bs|] eqn:E; cbn [mbind result_bind].
    + eexists. split; [done|]. exists [], s, specs. destruct (spans_path _ _ t _ 0 bs t eq_refl E) as [Hp Hl].
      split_and!; [done..| |by constructor]. split; [done|]. by rewrite route_result_params.
    + exists found. split; [done|]. apply Hskip. intros ps [_ Hps].
      destruct (path_spans _ _ t _ _ _ Hps 0%nat eq_refl) as (bs' & E' & _). congruence.
  - cbn [mbind result_bind]. exists found. split; [done|]. apply Hskip. intros ps [Hm _]. congruence.
Qed.
End Router.

(** C13 (refinement). A router with the engine of the standard library's regular expressions, to which routes of fixed
    segments and named parameters were added (no patterns of the user, no optional or repeated parameters, fewer
    than 2^64 - 1 of them in a route), accepts all of them and gives a request to the
    first one, in that order, whose method matches and whose path is the
    normalized path of the request, with the parameters of that path; when there is
    none, to the handler of such requests, and without one the request is not
    handled. With such routes the only error left when a request is routed is a path that is not well escaped. *)
Theorem express_first_route {M} `{MethodMatcher M} {Hd NH : Type} reserve (specs : list (@route_spec M Hd)) (nmrh : option NH) :
  (forall n, (n <= reserve n)%nat) -> Forall spec_ok specs ->
  exists r, foldM (add_spec reserve) (@mk_router std_regex_engine_t Hd NH [] nmrh) specs = Ok r /\
  forall garbage method target,
    match estimate_required_capacity (Target.path target) with
    | Err e => route garbage r method target = Err (bad_target_path e)
    | Ok _ =>
        exists ts outcome, Forall token_ok ts /\ Target.path target = print_tokens ts /\
        route garbage r method target = Ok outcome /\
        let t := print_tokens (normalize_token <$> ts) in
        let refused (s : route_spec) := forall ps, ~ accepts s method t ps in
        match outcome with
        | route_handler h ps => exists pre s post, specs = pre ++ s :: post /\ h = r_handler s /\
            accepts s method t (named_params ps) /\ Forall refused pre
        | non_matched_handler h => nmrh = Some h /\ Forall refused specs
        | request_not_handled => nmrh = None /\ Forall refused specs
        end
    end.
Proof.
  intros Hr Hs. eexists. split; [by apply add_specs|]. intros garbage method target.
  destruct (estimate_required_capacity _) as [n|e] eqn:E; cbn [m_handlers m_non_matched_request_handler app].
  - destruct (target_path_estimated garbage _ _ E) as (ts & Hts & Hp & Hh). cbv zeta in Hh.
    set (t := print_tokens (normalize_token <$> ts)) in *.
    destruct (try_specs (Hd := Hd) specs method t) as (found & Hf & Hspec).
    exists ts. unfold route. rewrite Hh. cbn [m_handlers m_non_matched_request_handler]. rewrite Hf. cbn [mbind result_bind].
    destruct found as [[h ps]|]; [by eexists|]. destruct nmrh as [h|]; by eexists.
  - unfold route, target_path_holder. rewrite E. done.
Qed.

Definition sample_method : http_method_id_t := http_method_unknown.
Definition sample_spec : route_spec := mk_spec (mk_simple sample_method) sample_route false false 7.

Lemma express_first_route_witness :
  exists r, foldM (add_spec id) (@mk_router std_regex_engine_t Z Z [] (Some 9)) [sample_spec] = Ok r /\
  exists ps ts, route 0 r sample_method (Target.request_target (str "/users/%34%32?q=1")) = Ok (route_handler 7 ps) /\
    accepts sample_spec sample_method (print_tokens (normalize_token <$> ts)) (named_params ps).
Proof.
  destruct (express_first_route id [sample_spec] (Some 9) (fun n => le_n n)) as (r & Hr & Hroute).
  { constructor; [split; [exact sample_wf | done] | constructor]. }
  exists r. split; [exact Hr|]. specialize (Hroute 0 sample_method (Target.request_target (str "/users/%34%32?q=1"))).
  destruct Hroute as (ts & outcome & _ & _ & Ho & Hspec).
  assert (Hh : exists ps, outcome = route_handler 7 ps).
  { vm_compute in Hr. injection Hr as <-. vm_compute in Ho. injection Ho as <-. by eexists. }
  destruct Hh as [ps ->]. exists ps, ts. split; [exact Ho|].
  destruct Hspec as ([|s0 pre] & s & post & Es & _ & Ha & _); [by injection Es as <- _ | by destruct pre].
Defined.
