(* ===== verification/EasyRouter.v ===== *)
(** * The router based on the easy parser

    [restinio/router/easy_parser_router.hpp]: a route is a sequence of literals,
    clauses and producers, from which the types of the values and the clauses of a
    parser are computed; the first entry whose method and route match calls its
    handler with the values. *)

From S2P Require Import Prelude Percent Headers EasyParser MethodMatcher Regex Path2Regex Express EasyRules.

(** ** Producers that may throw

    A transformer that unescapes throws when it cannot, and the exception leaves
    the parser and the router. *)

Definition throwing (A : Type) : Type := source_t -> result unescape_failure (result parse_error_t A * source_t).
Definition throwing_clause (T : Type) : Type :=
  source_t -> T -> result unescape_failure (option parse_error_t * source_t * T).

Definition no_throw {A} (p : producer A) : throwing A := fun from => Ok (p from).
Definition no_throw_clause {T} (c : clause T) : throwing_clause T := fun from target => Ok (c from target).

(*@ router/easy_parser_router.hpp 168-181 unescape_transformer_t *)
Definition unescape (T : UnescapeTraits) (p : producer bytes) : throwing bytes := fun from =>
  match p from with
  | (Ok input, from) => output ← @unescape_percent_encoding T input; Ok (Ok output, from)
  | (Err e, from) => Ok (Err e, from)
  end.

(** The loop over the clauses of a tuple, and the producer made of it. *)
Fixpoint all_of_throwing {T} (subitems : list (throwing_clause T)) : throwing_clause T := fun from target =>
  match subitems with
  | [] => Ok (None, from, target)
  | one :: rest =>
      '(e, from, target) ← one from target;
      match e with None => all_of_throwing rest from target | Some e => Ok (Some e, from, target) end
  end.

Definition produce_throwing {T} (d : T) (subitems : list (throwing_clause T)) : throwing T := fun from =>
  '(e, from, tmp_value) ← all_of_throwing subitems from d;
  Ok (match e with None => Ok tmp_value | Some e => Err e end, from).

Definition try_parse_throwing {A} (from : bytes) (p : throwing A) : result unescape_failure (result parse_error_t A) :=
  '(r, src) ← p (source (remove_trailing_spaces from));
  Ok (match r with
      | Ok v => match ensure_no_remaining_content src with (Some e, _) => Err e | (None, _) => Ok v end
      | Err e => Err e
      end).

(** ** The language of routes *)

(** What the user gives: a literal of a fixed size, a string, something that
    produces a value, or a clause that has none. *)
Inductive dsl_arg : Type :=
| literal (fragment : bytes)
| text (value : bytes)
| no_value (c : forall T, clause T)
| value_of {A : Type} (d : Default A) (p : throwing A).

(** The types of the values. *)
(*@ router/easy_parser_router.hpp 296-361 dsl_details::detect_result_tuple *)
Fixpoint result_tuple (args : list dsl_arg) : Type :=
  match args with
  | [] => unit
  | @value_of A _ _ :: args => A * result_tuple args
  | _ :: args => result_tuple args
  end.

Fixpoint default_tuple (args : list dsl_arg) : result_tuple args :=
  match args with
  | [] => tt
  | @value_of A d _ :: args => (d, default_tuple args)
  | literal _ :: args => default_tuple args
  | text _ :: args => default_tuple args
  | no_value _ :: args => default_tuple args
  end.

(** An item of the tuple is set by its index: the first by the clause here, the
    others by those behind it. *)
(*@ router/easy_parser_router.hpp 192-220 special_produce_tuple_item_clause_t *)
Definition special_produce_tuple_item {A R} (p : throwing A) : throwing_clause (A * R) := fun from target =>
  '(r, from) ← p from;
  Ok (match r with Ok v => (None, from, (v, target.2)) | Err e => (Some e, from, target) end).

Definition next_items {A R} (c : throwing_clause R) : throwing_clause (A * R) := fun from target =>
  '(e, from, rest) ← c from target.2; Ok (e, from, (target.1, rest)).

(*@ router/easy_parser_router.hpp 235-253 special_exact_fixed_size_fragment_clause_t *)
Definition special_exact_fixed_size_fragment {T} (fragment : bytes) : throwing_clause T :=
  no_throw_clause (consume_value_clause (exact_p fragment) skip).

(** The producer is not made of an empty string: its constructor throws. *)
(*@ router/easy_parser_router.hpp 268-290 special_exact_fragment_clause_t *)
Definition special_exact_fragment {T} (value : bytes) : option (throwing_clause T) :=
  p ← exact_fragment_producer value; Some (no_throw_clause (consume_value_clause p skip)).

(*@ router/easy_parser_router.hpp 375-461 dsl_details::make_clauses_types *)
Fixpoint make_clauses (args : list dsl_arg) : option (list (throwing_clause (result_tuple args))) :=
  match args with
  | [] => Some []
  | literal fragment :: args =>
      cs ← make_clauses args; Some (special_exact_fixed_size_fragment fragment :: cs)
  | text value :: args =>
      c ← special_exact_fragment value; cs ← make_clauses args; Some (c :: cs)
  | no_value c :: args =>
      cs ← make_clauses args; Some (no_throw_clause (c (result_tuple args)) :: cs)
  | @value_of A d p :: args =>
      cs ← make_clauses args; Some (special_produce_tuple_item p :: (next_items <$> cs))
  end.

(*@ router/easy_parser_router.hpp 515-526 dsl_processor *)
Definition make_producer (args : list dsl_arg) : option (throwing (result_tuple args)) :=
  produce_throwing (default_tuple args) <$> make_clauses args.

(** ** Handlers *)

(** [Out] is what a handler does and answers; [Request] the request. *)
Section Router.
Context {Request Out : Type}.

(** The type of a handler with a parameter for each value. *)
Fixpoint params_handler (args : list dsl_arg) : Type :=
  match args with
  | [] => Out
  | @value_of A _ _ :: args => A -> params_handler args
  | _ :: args => params_handler args
  end.

(*@ router/easy_parser_router.hpp 565-606 path_to_params_details::call_with_tuple *)
Fixpoint call_with_tuple (args : list dsl_arg) : params_handler args -> result_tuple args -> Out :=
  match args with
  | [] => fun what _ => what
  | @value_of A _ _ :: args => fun what params => call_with_tuple args (what params.1) params.2
  | literal _ :: args => call_with_tuple args
  | text _ :: args => call_with_tuple args
  | no_value _ :: args => call_with_tuple args
  end.

(** A producer of a route with the way its handlers are called. *)
Record route_t (result_type handler_type : Type) : Type := mk_route {
  m_producer : throwing result_type;
  invoke_handler : Request -> handler_type -> result_type -> Out }.
#[global] Arguments mk_route {_ _}.
#[global] Arguments m_producer {_ _}.
#[global] Arguments invoke_handler {_ _}.

(*@ router/easy_parser_router.hpp 539-560 path_to_tuple_producer_t *)
Definition path_to_tuple_producer (args : list dsl_arg) (p : throwing (result_tuple args))
    : route_t (result_tuple args) (Request -> result_tuple args -> Out) :=
  mk_route p (fun req handler params => handler req params).

(*@ router/easy_parser_router.hpp 622-643 path_to_params_producer_t *)
Definition path_to_params_producer (args : list dsl_arg) (p : throwing (result_tuple args))
    : route_t (result_tuple args) (Request -> params_handler args) :=
  mk_route p (fun req handler params => call_with_tuple args (handler req) params).

(*@ router/easy_parser_router.hpp 691-707 path_to_tuple *)
Definition path_to_tuple (args : list dsl_arg) : option (route_t _ _) := path_to_tuple_producer args <$> make_producer args.

(*@ router/easy_parser_router.hpp 745-761 path_to_params *)
Definition path_to_params (args : list dsl_arg) : option (route_t _ _) := path_to_params_producer args <$> make_producer args.

(** ** The router *)

(*@ router/easy_parser_router.hpp 105-136 actual_router_entry_t *)
Record router_entry_t : Type := mk_router_entry {
  result_type : Type;
  handler_type : Type;
  m_method_matcher : http_method_id_t -> bool;
  m_route : route_t result_type handler_type;
  m_handler : handler_type }.

Context (method_of : Request -> http_method_id_t) (target_of : Request -> Target.t) (garbage : Z).

(** [None] is [no_match_t]. *)
(*@ router/easy_parser_router.hpp 138-156 actual_router_entry_t::try_handle *)
Definition try_handle (e : router_entry_t) (req : Request) (target_path : target_path_holder_t)
    : result unescape_failure (option Out) :=
  if m_method_matcher e (method_of req) then
    parse_result ← try_parse_throwing (default [] (holder_view target_path)) (m_producer (m_route e));
    match parse_result with
    | Ok v => Ok (Some (invoke_handler (m_route e) req (m_handler e) v))
    | Err _ => Ok None
    end
  else Ok None.

(*@ router/easy_parser_router.hpp 948-957 generic_easy_parser_router_t *)
Record easy_parser_router_t : Type := mk_easy_router {
  m_entries : list router_entry_t;
  m_non_matched : option (Request -> Out) }.

(** The loop over the entries. *)
(*@ router/easy_parser_router.hpp 979-986 generic_easy_parser_router_t::operator() *)
Fixpoint try_all (entries : list router_entry_t) (req : Request) (target_path : target_path_holder_t)
    : result unescape_failure (option Out) :=
  match entries with
  | [] => Ok None
  | e :: entries =>
      r ← try_handle e req target_path;
      match r with Some out => Ok (Some out) | None => try_all entries req target_path end
  end.

Definition strip_trailing_slash (path : bytes) : bytes :=
  if (1 <? length path)%nat && (List.last path 0 =? chr "/") then take (length path - 1) path else path.

(** [not_handled] is the answer of [request_not_handled]. *)
(*@ router/easy_parser_router.hpp 967-997 generic_easy_parser_router_t::operator() *)
Definition route_request (not_handled : Out) (r : easy_parser_router_t) (req : Request) : result unescape_failure Out :=
  target_path ← target_path_holder garbage (strip_trailing_slash (Target.path (target_of req)));
  found ← try_all (m_entries r) req target_path;
  match found with
  | Some out => Ok out
  | None => Ok (match m_non_matched r with Some nmrh => nmrh req | None => not_handled end)
  end.

(*@ router/easy_parser_router.hpp 999-1023 generic_easy_parser_router_t::add_handler *)
Definition add_route {M} `{MethodMatcher M} {A B} (r : easy_parser_router_t) (method_matcher : M) (route : route_t A B)
    (handler : B) : easy_parser_router_t :=
  mk_easy_router (m_entries r ++ [mk_router_entry A B (match_method method_matcher) route handler]) (m_non_matched r).

(*@ router/easy_parser_router.hpp 1090-1096 generic_easy_parser_router_t::non_matched_request_handler *)
Definition set_non_matched_handler (r : easy_parser_router_t) (nmrh : option (Request -> Out)) : easy_parser_router_t :=
  mk_easy_router (m_entries r) nmrh.

Section Shortcuts.
Context (nodejs_code : string -> Z) {A B : Type} (r : easy_parser_router_t) (route : route_t A B) (handler : B).
Abbreviation add_for f := (add_route r (only nodejs_code f) route handler).
(*@ router/easy_parser_router.hpp 1025-1036 generic_easy_parser_router_t::http_get *)
Definition route_get := add_for "http_method_get"%string.
(*@ router/easy_parser_router.hpp 1038-1049 generic_easy_parser_router_t::http_delete *)
Definition route_delete := add_for "http_method_delete"%string.
(*@ router/easy_parser_router.hpp 1051-1062 generic_easy_parser_router_t::http_head *)
Definition route_head := add_for "http_method_head"%string.
(*@ router/easy_parser_router.hpp 1064-1075 generic_easy_parser_router_t::http_post *)
Definition route_post := add_for "http_method_post"%string.
(*@ router/easy_parser_router.hpp 1077-1088 generic_easy_parser_router_t::http_put *)
Definition route_put := add_for "http_method_put"%string.
End Shortcuts.
End Router.

(** ** Producers for routes *)

(*@ router/easy_parser_router.hpp 803-810 path_fragment_p *)
Definition path_fragment_p (separator : Z) : producer bytes :=
  produce bytes [repeat 1 N_ [consume_value_clause (any_symbol_if_not_p separator) to_container]].

(** ** Routes of texts and fragments *)

(** A text, or a fragment up to a separator, which may be unescaped. *)
Inductive part : Type := Text (s : bytes) | Fragment (separator : Z) (unescaped : option UnescapeTraits).

Definition arg_of (p : part) : dsl_arg :=
  match p with
  | Text s => text s
  | Fragment sep None => value_of default_bytes (no_throw (path_fragment_p sep))
  | Fragment sep (Some T) => value_of default_bytes (unescape T (path_fragment_p sep))
  end.
Definition args_of (ps : list part) : list dsl_arg := arg_of <$> ps.

Definition unescaped (un : option UnescapeTraits) (v : bytes) : result unescape_failure bytes :=
  match un with None => Ok v | Some T => @unescape_percent_encoding T v end.

(** What the parts read of a text, and what they leave: the fragments, nothing, or
    the failure of an unescape. *)
Fixpoint scan (ps : list part) (t : bytes) : result unescape_failure (option (list bytes * bytes)) :=
  match ps with
  | [] => Ok (Some ([], t))
  | Text s :: ps => if bool_decide (s `prefix_of` t) then scan ps (drop (length s) t) else Ok None
  | Fragment sep un :: ps =>
      match Target.memchr_helper sep t with
      | O => Ok None
      | n =>
          v ← unescaped un (take n t);
          r ← scan ps (drop n t);
          Ok ('(vs, rest) ← r; Some (v :: vs, rest))
      end
  end.

(** The fragments of a path that the parts make up. *)
Definition fragments (ps : list part) (t : bytes) : result unescape_failure (option (list bytes)) :=
  r ← scan ps t;
  Ok (match r with Some (vs, []) => Some vs | _ => None end).

(** The values of a tuple; a handler with a parameter for each of them. *)
Fixpoint values (ps : list part) : result_tuple (args_of ps) -> list bytes :=
  match ps with
  | [] => fun _ => []
  | Text _ :: ps => values ps
  | Fragment _ None :: ps => fun t => t.1 :: values ps t.2
  | Fragment _ (Some _) :: ps => fun t => t.1 :: values ps t.2
  end.

Fixpoint with_params {Out} (ps : list part) (k : list bytes -> Out) : @params_handler Out (args_of ps) :=
  match ps with
  | [] => k []
  | Text _ :: ps => with_params ps k
  | Fragment _ None :: ps => fun v => with_params ps (fun vs => k (v :: vs))
  | Fragment _ (Some _) :: ps => fun v => with_params ps (fun vs => k (v :: vs))
  end.

Lemma call_with_params {Out} ps : forall (k : list bytes -> Out) t,
  call_with_tuple (args_of ps) (with_params ps k) t = k (values ps t).
Proof.
  induction ps as [|[s|sep [T|]] ps IH]; intros k t; [done|apply IH|..]; cbn [args_of fmap list_fmap arg_of call_with_tuple with_params values];
    apply (IH (fun vs => k (t.1 :: vs))).
Qed.

(** ** What the parts read *)

Lemma fragment_reads sep s t : valid s -> remaining s = t -> (N.of_nat (length t) <= N_)%N ->
  match Target.memchr_helper sep t with
  | O => exists e s', path_fragment_p sep s = (Err e, s')
  | n => path_fragment_p sep s = (Ok (take n t), advance n s)
  end.
Proof.
  intros Hs E Hn. destruct (memchr_cut sep t) as [Hw Hr]. pose proof (memchr_le sep t) as Hl.
  destruct (Target.memchr_helper sep t) as [|n] eqn:En.
  - rewrite drop_0 in Hr.
    assert (Hf : fails (path_fragment_p sep) (stops (fun actual => negb (sep =? actual)))).
    { apply fails_produce, cfails_head_loosely.
      pose proof (cfails_repeat (T := bytes) [consume_value_clause (any_symbol_if_not_p sep) to_container]
        (stops (fun actual => negb (sep =? actual))) 1 N_ []) as H.
      assert (Hi : items_read (T := bytes) [consume_value_clause (any_symbol_if_not_p sep) to_container]
        (stops (fun actual => negb (sep =? actual))) []) by (intros pre x f post Ep; by destruct pre).
      specialize (H Hi (cfails_to_loosely _ _ (cfails_head _ _ _ (cfails_consume _ _ _ (fails_symbol _)))) ltac:(done) ltac:(done)).
      intros s1 t1 H1 H2. apply (H s1 t1 H1). by apply followed_nil. }
    destruct (Hf s Hs) as (e & s' & H & _); [|by exists e, s']. rewrite E.
    destruct Hr as [-> | [r ->]]; [done|]. cbn. by rewrite Z.eqb_refl.
  - assert (Hx : Forall (fun c => negb (sep =? c) = true) (take (S n) t)).
    { apply Forall_forall. intros c Hc. apply negb_true_iff, Z.eqb_neq. intros <-. done. }
    assert (Hlen : length (take (S n) t) = S n) by (rewrite length_take; lia).
    assert (H : reads (path_fragment_p sep) (stops (fun actual => negb (sep =? actual))) (take (S n) t) (take (S n) t)).
    { set (x := take (S n) t) in *. clearbody x. refine (reads_produce _ _ _ (fun t => t ++ x) (creads_last _ _ _ _ (creads_run _ 1 N_ x Hx _))).
      rewrite Hlen. lia. }
    rewrite (H s (drop (S n) t)); [by rewrite Hlen|done|by rewrite take_drop|].
    destruct Hr as [-> | [r ->]]; [done|]. cbn. by rewrite Z.eqb_refl.
Qed.

Lemma fragment_loop_misses same start : forall fragment s r, remaining s = r ->
  ~ (exists x r', r = x ++ r' /\ Forall2 (fun b c => same b c = true) fragment x) ->
  exists e s', fragment_loop same start fragment s = (Err e, s').
Proof.
  induction fragment as [|b fragment IH]; intros s r E Hno.
  - destruct Hno. by exists [], r.
  - cbn [fragment_loop]. destruct r as [|c r].
    + rewrite (getch_nil s E). by do 2 eexists.
    + rewrite (getch_cons s c r E). cbn [m_eof m_ch]. destruct (same b c) eqn:Ec; cbn [negb]; [|by do 2 eexists].
      apply (IH (advance 1 s) r); [by eapply remaining_advance_1|]. intros (x & r' & -> & Hx). apply Hno.
      exists (c :: x), r'. split; [done | by constructor].
Qed.

Lemma text_reads f s t : valid s -> remaining s = t ->
  if bool_decide (f `prefix_of` t) then try_parse_exact_fragment f s = (Ok true, advance (length f) s)
  else exists e s', try_parse_exact_fragment f s = (Err e, s').
Proof.
  intros Hs E. case_bool_decide as Hp.
  - destruct Hp as [r ->]. by apply (reads_exact f s r).
  - apply (fragment_loop_misses _ _ f s t E). intros (x & r & -> & Hx). apply Hp. exists r. f_equal.
    clear -Hx. induction Hx as [|b c f x Hbc Hx IH]; [done|]. apply Z.eqb_eq in Hbc as ->. by rewrite IH.
Qed.

Lemma all_of_next {A R} (cs : list (throwing_clause R)) : forall s (t : A * R),
  all_of_throwing (next_items <$> cs) s t
  = '(e, s', rest) ← all_of_throwing cs s t.2; Ok (e, s', (t.1, rest)).
Proof.
  induction cs as [|c cs IH]; intros s [a r]; [done|]. cbn [fmap list_fmap all_of_throwing].
  change (next_items c s (a, r)) with ('(e, s', rest) ← c s r; Ok (e, s', (a, rest))). cbn [snd].
  destruct (c s r) as [[[[e|] s1] r1]|x]; cbn [mbind result_bind fst snd]; [done| |done]. by rewrite IH.
Qed.

Definition spec_result {T} (ps : list part) (read : T -> list bytes) (t : bytes) (r : result unescape_failure (option parse_error_t * source_t * T)) : Prop :=
  match scan ps t with
  | Err x => r = Err x
  | Ok None => exists e s' tgt', r = Ok (Some e, s', tgt')
  | Ok (Some (vs, rest)) => exists s' tgt', r = Ok (None, s', tgt') /\ read tgt' = vs /\ remaining s' = rest /\ valid s'
  end.

Lemma clauses_scan ps : forall cs, make_clauses (args_of ps) = Some cs -> forall s t tgt, valid s -> remaining s = t ->
  (N.of_nat (length t) <= N_)%N -> spec_result ps (values ps) t (all_of_throwing cs s tgt).
Proof.
  assert (Hadv : forall s t n, valid s -> remaining s = t -> (n <= length t)%nat ->
    valid (advance n s) /\ remaining (advance n s) = drop n t).
  { intros s t n Hs <- Hn. rewrite remaining_length in Hn. unfold valid, remaining, advance in *. cbn. rewrite drop_drop.
    split; [lia | f_equal; lia]. }
  assert (Hval : forall sep (p : throwing bytes) un ps' (cs : list (throwing_clause (result_tuple (args_of ps')))),
    (forall s, p s = match path_fragment_p sep s with (Ok v, s') => v' ← unescaped un v; Ok (Ok v', s') | (Err e, s') => Ok (Err e, s') end) ->
    (forall s t tgt, valid s -> remaining s = t -> (N.of_nat (length t) <= N_)%N -> spec_result ps' (values ps') t (all_of_throwing cs s tgt)) ->
    forall s t (tgt : bytes * result_tuple (args_of ps')), valid s -> remaining s = t -> (N.of_nat (length t) <= N_)%N ->
    spec_result (Fragment sep un :: ps') (fun tgt => tgt.1 :: values ps' tgt.2) t
      (all_of_throwing (special_produce_tuple_item p :: (next_items <$> cs)) s tgt)).
  { intros sep p un ps' cs Hp IH s t tgt Hs E Hn. unfold spec_result. cbn [scan all_of_throwing].
    change (special_produce_tuple_item p s tgt) with
      ('(r, from) ← p s; Ok (match r with Ok v => (None, from, (v, tgt.2)) | Err e => (Some e, from, tgt) end)).
    pose proof (fragment_reads sep s t Hs E Hn) as Hf. pose proof (memchr_le sep t) as Hl. rewrite Hp.
    destruct (Target.memchr_helper sep t) as [|n]; [destruct Hf as (e & s' & ->); by do 3 eexists|]. rewrite Hf.
    destruct (unescaped un (take (S n) t)) as [v|x]; [|done]. cbn [mbind result_bind]. rewrite all_of_next. cbn [fst snd].
    destruct (Hadv s t (S n) Hs E Hl) as [Hs1 E1]. assert (Hn1 : (N.of_nat (length (drop (S n) t)) <= N_)%N) by (rewrite length_drop; lia).
    specialize (IH _ _ tgt.2 Hs1 E1 Hn1). unfold spec_result in IH.
    destruct (scan ps' (drop (S n) t)) as [[[vs rest]|]|x]; cbn [mbind result_bind option_bind].
    - destruct IH as (s' & tgt' & -> & Hv & Hr & Hs'). do 2 eexists. split; [done|]. cbn [fst snd]. by rewrite Hv.
    - destruct IH as (e & s' & tgt' & ->). by do 3 eexists.
    - by rewrite IH. }
  induction ps as [|p ps IH]; intros cs Hcs s t tgt Hs E Hn.
  { injection Hcs as <-. by exists s, tgt. }
  destruct p as [f|sep un].
  - cbn [args_of fmap list_fmap arg_of make_clauses] in Hcs. destruct f as [|c f]; [done|].
    cbn [special_exact_fragment exact_fragment_producer mbind option_bind] in Hcs.
    destruct (make_clauses _) as [cs'|] eqn:Ecs; [|done]. injection Hcs as <-. unfold spec_result. cbn [scan all_of_throwing].
    pose proof (text_reads (c :: f) s t Hs E) as Ht.
    change (no_throw_clause (consume_value_clause (try_parse_exact_fragment (c :: f)) skip) s tgt) with
      (Ok (E := unescape_failure) (match try_parse_exact_fragment (c :: f) s with (Ok v, from) => (None, from, tgt) | (Err e, from) => (Some e, from, tgt) end)).
    case_bool_decide as Hp; [|destruct Ht as (e & s' & ->); by do 3 eexists].
    rewrite Ht. cbn [mbind result_bind]. destruct (Hadv s t (length (c :: f)) Hs E) as [Hs1 E1]; [by apply prefix_length|].
    apply (IH cs' eq_refl _ _ tgt Hs1 E1). rewrite length_drop. lia.
  - destruct un as [T|]; cbn [args_of fmap list_fmap arg_of make_clauses] in Hcs;
      (destruct (make_clauses _) as [cs'|] eqn:Ecs; [|done]); injection Hcs as <-.
    + refine (Hval sep _ (Some T) ps cs' _ (IH cs' eq_refl) s t tgt Hs E Hn). intros s1. done.
    + refine (Hval sep _ None ps cs' _ (IH cs' eq_refl) s t tgt Hs E Hn). intros s1. unfold no_throw.
      by destruct (path_fragment_p sep s1) as [[] ?].
Qed.

(** ** Matching a whole path *)

Lemma scan_suffix ps : forall t vs rest, scan ps t = Ok (Some (vs, rest)) -> exists x, t = x ++ rest.
Proof.
  induction ps as [|[s|sep un] ps IH]; intros t vs rest H; cbn [scan] in H.
  - injection H as _ <-. by exists [].
  - case_bool_decide as Hp; [|done]. destruct (IH _ _ _ H) as [x Hx]. exists (take (length s) t ++ x).
    by rewrite <- app_assoc, <- Hx, take_drop.
  - destruct (Target.memchr_helper sep t) as [|n]; [done|]. destruct (unescaped un _) as [v|]; [|done]. cbn [mbind result_bind] in H.
    destruct (scan ps (drop (S n) t)) as [[[vs' rest']|]|] eqn:E; try done. injection H as _ <-.
    destruct (IH _ _ _ E) as [x Hx]. exists (take (S n) t ++ x). by rewrite <- app_assoc, <- Hx, take_drop.
Qed.

Lemma trimmed_size_spec t n : (n <= length t)%nat ->
  match trimmed_size t n with O => True | S k => is_space (nth k t 0) = false /\ (S k <= n)%nat end.
Proof.
  induction n as [|n IH]; intros Hn; [done|]. cbn [trimmed_size]. destruct (is_space (nth n t 0)) eqn:E; [|by split].
  specialize (IH ltac:(lia)). destruct (trimmed_size t n); [done|]. split; [tauto|lia].
Qed.

Lemma trimmed_end t : remove_trailing_spaces t = [] \/ exists x c, remove_trailing_spaces t = x ++ [c] /\ is_space c = false.
Proof.
  unfold remove_trailing_spaces. pose proof (trimmed_size_spec t (length t) (le_n _)) as H.
  destruct (trimmed_size t (length t)) as [|k]; [by left|right]. destruct H as [Hc Hk].
  destruct (lookup_lt_is_Some_2 t k) as [c Hlk]; [lia|]. rewrite (nth_lookup_Some _ _ 0 _ Hlk) in Hc.
  exists (take k t), c. split; [by apply take_S_r | done].
Qed.

Lemma no_remaining_left r c : is_space c = false -> forall fuel s, remaining s = r ++ [c] -> (length r < fuel)%nat ->
  exists e s', no_remaining_loop fuel s = (Some e, s').
Proof.
  intros Hc. induction r as [|x r IH]; intros [|fuel] s E Hf; try (cbn in Hf; lia); cbn [no_remaining_loop];
    pose proof (remaining_valid _ _ _ E) as Hv; unfold eof; rewrite (proj2 (Nat.leb_gt _ _)) by done;
    rewrite (getch_cons _ _ _ E); cbn [m_ch].
  - rewrite Hc. by do 2 eexists.
  - destruct (is_space x); cbn [negb]; [|by do 2 eexists]. apply IH; [by eapply remaining_advance_1|cbn in Hf; lia].
Qed.

Lemma match_fragments ps p t : make_producer (args_of ps) = Some p -> (N.of_nat (length t) <= N_)%N ->
  match fragments ps (remove_trailing_spaces t) with
  | Err x => try_parse_throwing t p = Err x
  | Ok (Some vs) => exists v, try_parse_throwing t p = Ok (Ok v) /\ values ps v = vs
  | Ok None => exists e, try_parse_throwing t p = Ok (Err e)
  end.
Proof.
  intros Hp Hn. unfold make_producer in Hp. destruct (make_clauses (args_of ps)) as [cs|] eqn:E; [|done]. injection Hp as <-.
  unfold try_parse_throwing, produce_throwing. set (u := remove_trailing_spaces t).
  assert (Hu : (N.of_nat (length u) <= N_)%N) by (unfold u, remove_trailing_spaces; rewrite length_take; lia).
  pose proof (clauses_scan ps cs E (source u) u (default_tuple _) (valid_source u) eq_refl Hu) as H.
  unfold spec_result in H. unfold fragments. destruct (scan ps u) as [[[vs rest]|]|x] eqn:Es; cbn [mbind result_bind].
  - destruct H as (s' & v & -> & Hv & Hr & Hs'). cbn [mbind result_bind]. destruct rest as [|c rest].
    + rewrite no_remaining_at_end by done. by exists v.
    + destruct (scan_suffix _ _ _ _ Es) as [x Hx].
      destruct (trimmed_end t) as [He|(y & d & He & Hd)]; fold u in He; [by rewrite He in Hx; destruct x|].
      destruct (exists_last (l := c :: rest)) as (r' & d' & Hr'); [done|].
      assert (d' = d) as ->. { rewrite Hr', app_assoc, He in Hx. by apply app_inj_tail in Hx as [_ ->]. }
      destruct (no_remaining_left r' d Hd (S (length (EasyParser.m_data s'))) s') as (e & s'' & Hl); [by rewrite Hr, Hr'| |].
      { apply (f_equal length) in Hr. rewrite remaining_length, Hr', length_app in Hr. cbn in Hr. lia. }
      unfold ensure_no_remaining_content. rewrite Hl. by exists e.
  - destruct H as (e & s' & v & ->). by exists e.
  - by rewrite H.
Qed.

(** ** The router *)

Section Specification.
Context {M : Type} `{MethodMatcher M} {Request Out : Type}.
Context (method_of : Request -> http_method_id_t) (target_of : Request -> Target.t).

(** A route the user adds; its handler takes a tuple or separate parameters. *)
Record easy_spec : Type := mk_easy_spec {
  s_matcher : M; s_parts : list part; s_as_tuple : bool; s_handler : Request -> list bytes -> Out }.

Definition no_empty_text (s : easy_spec) : Prop := Forall (fun p => p <> Text []) (s_parts s).

Abbreviation router := (@easy_parser_router_t Request Out).
Definition add_easy (r : router) (s : easy_spec) : result unit router :=
  if s_as_tuple s then
    route ← of_option tt (path_to_tuple (args_of (s_parts s)));
    Ok (add_route r (s_matcher s) route (fun req params => s_handler s req (values (s_parts s) params)))
  else
    route ← of_option tt (path_to_params (args_of (s_parts s)));
    Ok (add_route r (s_matcher s) route (fun req => with_params (s_parts s) (s_handler s req))).

(** The first route, in their order, that is for the request. *)
Fixpoint first_match (specs : list easy_spec) (req : Request) (t : bytes) : result unescape_failure (option Out) :=
  match specs with
  | [] => Ok None
  | s :: specs =>
      if match_method (s_matcher s) (method_of req) then
        found ← fragments (s_parts s) t;
        match found with Some vs => Ok (Some (s_handler s req vs)) | None => first_match specs req t end
      else first_match specs req t
  end.

Lemma make_producer_some ps : Forall (fun p => p <> Text []) ps -> exists p, make_producer (args_of ps) = Some p.
Proof.
  intros Hps. assert (exists cs, make_clauses (args_of ps) = Some cs) as [cs Hcs]; [|unfold make_producer; rewrite Hcs; by eexists].
  induction Hps as [|p ps Hp _ [cs IH]]; [by eexists|].
  change (args_of (p :: ps)) with (arg_of p :: args_of ps).
  destruct p as [[|c f]|sep [T|]]; [done|..]; cbn [arg_of make_clauses]; rewrite IH; by eexists.
Qed.

(** The entry of a route does what its parts say. *)
Lemma entry_of_spec s (r : router) : no_empty_text s ->
  exists e, add_easy r s = Ok (mk_easy_router (m_entries r ++ [e]) (m_non_matched r)) /\
  forall req t, (N.of_nat (length t) <= N_)%N ->
    try_handle method_of e req (mk_path_holder (Some t) (length t)) =
    if match_method (s_matcher s) (method_of req) then
      found ← fragments (s_parts s) (remove_trailing_spaces t); Ok (match found with Some vs => Some (s_handler s req vs) | None => None end)
    else Ok None.
Proof.
  intros Hs. destruct (make_producer_some _ Hs) as [p Hp]. unfold add_easy, path_to_tuple, path_to_params. rewrite Hp.
  destruct (s_as_tuple s); cbn [fmap option_fmap option_map of_option mbind result_bind]; (eexists; split; [reflexivity|]); intros req t Hn;
    unfold try_handle; cbn [m_method_matcher m_route m_handler result_type handler_type];
    (destruct (match_method _ _); [|done]); unfold holder_view; cbn [Express.m_data m_size fmap option_fmap option_map default];
    rewrite (firstn_all t); change (id t) with t; cbn [path_to_tuple_producer path_to_params_producer m_producer invoke_handler];
    pose proof (match_fragments _ _ t Hp Hn) as Hm; destruct (fragments _ _) as [[vs|]|x]; cbn [mbind result_bind].
  - destruct Hm as (v & -> & <-). done.
  - destruct Hm as (e & ->). done.
  - by rewrite Hm.
  - destruct Hm as (v & -> & <-). cbn [mbind result_bind]. by rewrite call_with_params.
  - destruct Hm as (e & ->). done.
  - by rewrite Hm.
Qed.

Lemma add_all_specs specs : Forall no_empty_text specs -> forall r : router,
  exists es, foldM add_easy r specs = Ok (mk_easy_router (m_entries r ++ es) (m_non_matched r)) /\
  forall req t, (N.of_nat (length t) <= N_)%N ->
    try_all method_of es req (mk_path_holder (Some t) (length t)) = first_match specs req (remove_trailing_spaces t).
Proof.
  induction 1 as [|s specs Hs _ IH]; intros r.
  - exists []. rewrite app_nil_r. by destruct r.
  - destruct (entry_of_spec s r Hs) as (e & He & Htry). cbn [foldM]. rewrite He. cbn [mbind result_bind].
    destruct (IH (mk_easy_router (m_entries r ++ [e]) (m_non_matched r))) as (es & Hes & Hall).
    exists (e :: es). cbn [m_entries m_non_matched] in Hes. rewrite Hes, <- app_assoc. split; [done|].
    intros req t Hn. cbn [try_all first_match]. rewrite Htry, (Hall req t Hn) by done.
    destruct (match_method _ _); [|done]. by destruct (fragments _ _) as [[vs|]|x].
Qed.
End Specification.

(** C15 (equivalence). A router with routes of texts and fragments is equal to
    its specification: a path that is not well escaped is refused by an exception;
    otherwise one slash at its end and the spaces there are dropped from the
    normalized path, and the first route, in the order in which they were added,
    whose method matches and whose texts and fragments make up the path handles the
    request with the fragments, unescaped where the route says so - as a tuple or as
    separate parameters alike. The exception of a failed unescape ends the search.
    Without such a route it is the handler of non-matched requests, or else the
    request is not handled. *)
Theorem easy_router_exact {M} `{MethodMatcher M} {Request Out : Type} (method_of : Request -> http_method_id_t)
    (target_of : Request -> Target.t) (specs : list (@easy_spec M Request Out)) (nmrh : option (Request -> Out)) :
  Forall no_empty_text specs ->
  exists r, foldM add_easy (mk_easy_router [] nmrh) specs = Ok r /\
  forall garbage not_handled req,
    let path := strip_trailing_slash (Target.path (target_of req)) in
    (N.of_nat (length path) <= N_)%N ->
    match estimate_required_capacity path with
    | Err e => route_request method_of target_of garbage not_handled r req = Err e
    | Ok _ => exists ts, Forall token_ok ts /\ path = print_tokens ts /\
        route_request method_of target_of garbage not_handled r req =
          found ← first_match method_of specs req (remove_trailing_spaces (print_tokens (normalize_token <$> ts)));
          Ok (match found, nmrh with Some out, _ => out | None, Some nmrh => nmrh req | None, None => not_handled end)
    end.
Proof.
  intros Hs. destruct (add_all_specs method_of specs Hs (mk_easy_router [] nmrh)) as (es & Hes & Hall).
  eexists. split; [exact Hes|]. intros garbage not_handled req path Hn. unfold route_request. fold path.
  destruct (estimate_required_capacity path) as [n|e] eqn:E.
  - destruct (target_path_estimated garbage path n E) as (ts & Hts & Hp & Hh). cbv zeta in Hh. exists ts.
    split; [done|]. split; [done|]. rewrite Hh. cbn [mbind result_bind m_entries m_non_matched app].
    rewrite Hall; [by destruct (first_match _ _ _ _) as [[out|]|x], nmrh|].
    pose proof (normalized_shorter ts) as Hl. rewrite <- Hp in Hl. lia.
  - unfold target_path_holder. by rewrite E.
Qed.

Definition film_specs : list (@easy_spec simple_matcher_t (bytes * Target.t) (list bytes)) :=
  [mk_easy_spec (mk_simple http_method_unknown)
     [Text (str "/film/"); Fragment (chr "/") (Some restinio_default_unescape_traits); Text (str "/"); Fragment (chr "/") None]
     false (fun _ vs => str "film" :: vs)].

Lemma easy_router_exact_witness :
  exists r, foldM add_easy (mk_easy_router [] None) film_specs = Ok r /\
  exists ts, print_tokens ts = str "/film/A%20B/C%2f" /\
    (found ← first_match (fun _ => http_method_unknown) film_specs ([], Target.request_target (str "/film/A%20B/C%2f/?x"))
               (remove_trailing_spaces (print_tokens (normalize_token <$> ts)));
     Ok (default [] found)) = Ok [str "film"; str "A B"; str "C%2f"].
Proof.
  destruct (easy_router_exact (fun _ => http_method_unknown) snd film_specs None) as (r & Hr & Hroute).
  { by repeat constructor. }
  exists r. split; [exact Hr|].
  destruct (Hroute 0 [] ([], Target.request_target (str "/film/A%20B/C%2f/?x")) ltac:(done)) as (ts & Hts & Hp & Hq).
  exists ts. split; [symmetry; exact Hp|].
  assert (Hv : route_request (fun _ => http_method_unknown) snd 0 [] r ([], Target.request_target (str "/film/A%20B/C%2f/?x"))
    = Ok [str "film"; str "A B"; str "C%2f"]) by (injection Hr as <-; vm_compute; reflexivity).
  rewrite Hv in Hq. rewrite Hq. by destruct (first_match _ _ _ _) as [[out|]|x].
Defined.
