(* ===== verification/Builders.v ===== *)
(** * Builders of responses

    [restinio/message_builders.hpp], and [create_response] of
    [restinio/request_handler.hpp]: the three kinds of builders collect a header and
    a body and give groups of buffers to the connection. What they give is a list of
    calls of [write_response_parts]. *)

From S2P Require Import Prelude Sendfile WriteGroup RespCoord Headers.

(** ** The header *)

(*@ http_headers.hpp 1610-1614 http_header_common_t::should_keep_alive *)
Definition should_keep_alive (h : http_response_header_t) : bool :=
  match m_connection h with keep_alive => true | _ => false end.

Definition with_connection (h : http_response_header_t) (c : http_connection_header_t) : http_response_header_t :=
  mk_response_header (m_fields h) (m_http_major h) (m_http_minor h) (m_content_length h) c (m_status_code h) (m_reason_phrase h).

(*@ http_headers.hpp 1616-1622 http_header_common_t::should_keep_alive *)
Definition set_should_keep_alive (h : http_response_header_t) (b : bool) : http_response_header_t :=
  with_connection h (if b then keep_alive else close).

(*@ http_headers.hpp 1606-1608 http_header_common_t::content_length *)
Definition set_content_length (h : http_response_header_t) (l : Z) : http_response_header_t :=
  mk_response_header (m_fields h) (m_http_major h) (m_http_minor h) (wrap 64 l) (m_connection h) (m_status_code h) (m_reason_phrase h).

Definition with_fields (h : http_response_header_t) (fs : http_header_fields_t) : http_response_header_t :=
  mk_response_header fs (m_http_major h) (m_http_minor h) (m_content_length h) (m_connection h) (m_status_code h) (m_reason_phrase h).

(*@ http_headers.hpp 2345-2347 http_response_header_t::http_response_header_t *)
Definition response_header (status_code : Z) (reason_phrase : bytes) : http_response_header_t :=
  mk_response_header [] 1 1 0 close status_code reason_phrase.

(*@ common_types.hpp 112-119 response_connection_attr *)
Definition response_connection_attr (should_keep_alive : bool) : response_connection_attr_t :=
  if should_keep_alive then connection_keepalive else connection_close.

(** ** What the builders share *)

(** A call of [write_response_parts]. *)
Record written : Type := mk_written {
  w_request_id : Z; w_flags : response_output_flags_t; w_group : write_group_t }.

Inductive builder_failure : Type :=
| done_called_twice
| connection_already_moved
| bad_status_line (e : status_line_error)
| undefined_behaviour.

(** Whether the handle of the connection is there. *)
(*@ message_builders.hpp 217-220 base_response_builder_t *)
Record base_builder_t : Type := mk_base {
  m_header : http_response_header_t;
  m_connected : bool;
  m_request_id : Z }.

(*@ message_builders.hpp 70-79 base_response_builder_t::base_response_builder_t *)
Definition base_builder (status_code : Z) (reason_phrase : bytes) (request_id : Z) (keep : bool) : base_builder_t :=
  mk_base (set_should_keep_alive (response_header status_code reason_phrase) keep) true request_id.

Definition with_header (b : base_builder_t) (h : http_response_header_t) : base_builder_t :=
  mk_base h (m_connected b) (m_request_id b).
Definition disconnected (b : base_builder_t) : base_builder_t := mk_base (m_header b) false (m_request_id b).

(** The calls that change the header only. *)
Inductive header_op : Type :=
| H_append (k : field_key) (value : bytes)
| H_append_field (f : http_header_field_t)
| H_date (date : bytes)
| H_close
| H_keep_alive
| H_content_length (l : Z).

Definition date_field : http_field_t := field_id "date".
Definition transfer_encoding : http_field_t := field_id "transfer_encoding".

(*@ message_builders.hpp 97-207 base_response_builder_t::append_header *)
Definition change_header (b : base_builder_t) (op : header_op) : base_builder_t :=
  let h := m_header b in
  with_header b
    (match op with
     | H_append k value => with_fields h (Fields.add_field (m_fields h) k value)
     | H_append_field f => with_fields h (m_fields h ++ [f])
     | H_date date => with_fields h (Fields.set_field (m_fields h) (ById date_field) date)
     | H_close => set_should_keep_alive h false
     | H_keep_alive => set_should_keep_alive h true
     | H_content_length l => set_content_length h l
     end).

(*@ message_builders.hpp 210-215 base_response_builder_t::calculate_status_line_size *)
Definition calculate_status_line_size (b : base_builder_t) : Z :=
  8 + 1 + 3 + 1 + Z.of_nat (length (m_reason_phrase (m_header b))).

(** [write_group_t wg{...}; wg.status_line_size(...)] and the notificator. *)
Definition make_group (parts : list writable_item_t) (size : Z) (wscb : option notificator)
    : result builder_failure write_group_t :=
  match status_line_size (write_group parts) size with
  | Ok wg => Ok (match wscb with Some _ => after_write_notificator wg wscb | None => wg end)
  | Err e => Err (bad_status_line e)
  end.

(** The first element is for the header. *)
Definition reserve_first (parts : list writable_item_t) : list writable_item_t :=
  match parts with [] => [TrivialItem []] | _ => parts end.

(** ** Responses controlled by the library *)

Module Controlled.

(*@ message_builders.hpp 386-387 response_builder_t *)
Record controlled_t : Type := mk {
  base : base_builder_t;
  m_body_size : Z;
  m_response_parts : list writable_item_t }.

Definition create (b : base_builder_t) : controlled_t := mk b 0 [].

(*@ message_builders.hpp 344-362 response_builder_t::set_body_impl *)
Definition controlled_set_body (b : controlled_t) (body : writable_item_t) : controlled_t :=
  let size := item_size body in
  let parts := take 1 (reserve_first (m_response_parts b)) in
  mk (base b) size (if 0 <? size then parts ++ [body] else parts).

(*@ message_builders.hpp 363-375 response_builder_t::append_body_impl *)
Definition controlled_append_body (b : controlled_t) (part : writable_item_t) : controlled_t :=
  let size := item_size part in
  let parts := reserve_first (m_response_parts b) in
  if 0 <? size then mk (base b) (wrap 64 (m_body_size b + size)) (parts ++ [part]) else mk (base b) (m_body_size b) parts.

(*@ message_builders.hpp 303-341 response_builder_t::done *)
Definition controlled_done (b : controlled_t) (wscb : option notificator) : result builder_failure (list written * controlled_t) :=
  if m_connected (base b) then
    let flags := mk_flags final_parts (response_connection_attr (should_keep_alive (m_header (base b)))) in
    let base := with_header (base b) (set_content_length (m_header (base b)) (m_body_size b)) in
    let parts := <[0%nat := TrivialItem (create_header_string (m_header base) add_content_length)]> (reserve_first (m_response_parts b)) in
    wg ← make_group parts (calculate_status_line_size base) wscb;
    Ok ([mk_written (m_request_id base) flags wg], mk (disconnected base) (m_body_size b) [])
  else Err done_called_twice.

Inductive op : Type := Header (o : header_op) | SetBody (i : writable_item_t) | AppendBody (i : writable_item_t).
Definition apply (b : controlled_t) (o : op) : controlled_t :=
  match o with
  | Header o => mk (change_header (base b) o) (m_body_size b) (m_response_parts b)
  | SetBody i => controlled_set_body b i
  | AppendBody i => controlled_append_body b i
  end.

End Controlled.

(** ** Responses controlled by the user *)

Module User.

(*@ message_builders.hpp 602-619 response_builder_t *)
Record user_t : Type := mk {
  base : base_builder_t;
  m_header_was_sent : bool;
  m_keep_alive_when_sent : bool;
  m_response_parts : list writable_item_t }.

Definition create (b : base_builder_t) : user_t := mk b false true [].

(*@ message_builders.hpp 590-599 response_builder_t::if_neccessary_reserve_first_element_for_header *)
Definition reserve_if_necessary (b : user_t) : list writable_item_t :=
  if negb (m_header_was_sent b) then reserve_first (m_response_parts b) else m_response_parts b.

Definition with_parts (b : user_t) (parts : list writable_item_t) : user_t :=
  mk (base b) (m_header_was_sent b) (m_keep_alive_when_sent b) parts.

(*@ message_builders.hpp 560-579 response_builder_t::set_body_impl *)
Definition user_set_body (b : user_t) (body : writable_item_t) : user_t :=
  let parts := reserve_if_necessary b in
  let parts := if negb (m_header_was_sent b) then take 1 parts else [] in
  with_parts b (if 0 <? item_size body then parts ++ [body] else parts).

(*@ message_builders.hpp 447-456 response_builder_t::append_body *)
Definition user_append_body (b : user_t) (part : writable_item_t) : user_t :=
  if 0 =? item_size part then b else with_parts b (reserve_if_necessary b ++ [part]).

(*@ message_builders.hpp 514-558 response_builder_t::send_ready_data *)
Definition user_send_ready_data (b : user_t) (attr : response_parts_attr_t) (wscb : option notificator)
    : result builder_failure (list written * user_t) :=
  let '(b, status_line_size) :=
    if negb (m_header_was_sent b) then
      let parts := <[0%nat := TrivialItem (create_header_string (m_header (base b)) add_content_length)]> (reserve_if_necessary b) in
      (mk (base b) true (should_keep_alive (m_header (base b))) parts, calculate_status_line_size (base b))
    else (b, 0) in
  if negb (bool_decide (m_response_parts b = [])) || bool_decide (is_Some wscb) || bool_decide (final_parts = attr) then
    wg ← make_group (m_response_parts b) status_line_size wscb;
    Ok ([mk_written (m_request_id (base b)) (mk_flags attr (response_connection_attr (m_keep_alive_when_sent b))) wg],
        with_parts b [])
  else Ok ([], b).

(*@ message_builders.hpp 469-481 response_builder_t::flush *)
Definition user_flush (b : user_t) (wscb : option notificator) : result builder_failure (list written * user_t) :=
  if m_connected (base b) then user_send_ready_data b not_final_parts wscb else Ok ([], b).

(*@ message_builders.hpp 491-511 response_builder_t::done *)
Definition user_done (b : user_t) (wscb : option notificator) : result builder_failure (list written * user_t) :=
  if m_connected (base b) then
    user_send_ready_data (mk (disconnected (base b)) (m_header_was_sent b) (m_keep_alive_when_sent b) (m_response_parts b)) final_parts wscb
  else Err done_called_twice.

Inductive op : Type :=
| Header (o : header_op) | SetBody (i : writable_item_t) | AppendBody (i : writable_item_t) | Flush (wscb : option notificator).
Definition apply (st : list written * user_t) (o : op) : result builder_failure (list written * user_t) :=
  let '(ws, b) := st in
  match o with
  | Header o => Ok (ws, mk (change_header (base b) o) (m_header_was_sent b) (m_keep_alive_when_sent b) (m_response_parts b))
  | SetBody i => Ok (ws, user_set_body b i)
  | AppendBody i => Ok (ws, user_append_body b i)
  | Flush wscb => '(out, b) ← user_flush b wscb; Ok (ws ++ out, b)
  end.

End User.

(** ** Chunked responses *)

(** [std::string::find] finds something. *)
Fixpoint contains (what s : bytes) : bool :=
  bool_decide (what `prefix_of` s) || match s with [] => false | _ :: s => contains what s end.

Module Chunked.
Section Chunked.
(** What [fmt] makes of a size with the format [{:X}]. *)
Context (fmt_X : Z -> bytes).

(*@ message_builders.hpp 862-875 response_builder_t *)
Record chunked_t : Type := mk {
  base : base_builder_t;
  m_header_was_sent : bool;
  m_keep_alive_when_sent : bool;
  m_chunks : list writable_item_t }.

(*@ message_builders.hpp 639-651 response_builder_t::response_builder_t *)
Definition chunked_create (b : base_builder_t) : chunked_t := mk b false true [].

(*@ message_builders.hpp 656-666 response_builder_t::append_chunk *)
Definition append_chunk (b : chunked_t) (chunk : writable_item_t) : chunked_t :=
  if negb (0 =? item_size chunk) then mk (base b) (m_header_was_sent b) (m_keep_alive_when_sent b) (m_chunks b ++ [chunk]) else b.

(*@ message_builders.hpp 762-789 response_builder_t::prepare_header_for_sending *)
Definition prepare_header_for_sending (b : chunked_t) : chunked_t :=
  let h := m_header (base b) in
  let fs := m_fields h in
  let fs :=
    if negb (Fields.has_field fs (ById transfer_encoding)) then Fields.add_field fs (ById transfer_encoding) (str "chunked")
    else if negb (contains (str "chunked") (default [] (Fields.try_get_field fs (ById transfer_encoding))))
         then Fields.append_field fs (ById transfer_encoding) (str ",chunked")
         else fs in
  mk (with_header (base b) (with_fields h fs)) (m_header_was_sent b) (should_keep_alive h) (m_chunks b).

(** The loop over the chunks: the size is taken of the buffer, which a description
    of a file does not have. *)
(*@ message_builders.hpp 819-834 response_builder_t::create_bufs *)
Fixpoint chunk_bufs (first : bool) (chunks : list writable_item_t) : result builder_failure (list writable_item_t) :=
  match chunks with
  | [] => Ok []
  | TrivialItem data :: chunks =>
      bufs ← chunk_bufs false chunks;
      Ok (TrivialItem ((if first then [] else CRLF) ++ fmt_X (Z.of_nat (length data)) ++ CRLF) :: TrivialItem data :: bufs)
  | FileItem _ :: _ => Err undefined_behaviour
  end.

(*@ message_builders.hpp 791-855 response_builder_t::create_bufs *)
Definition create_bufs (b : chunked_t) (add_zero_chunk : bool) : result builder_failure (list writable_item_t * chunked_t) :=
  let bufs := if negb (m_header_was_sent b)
              then [TrivialItem (create_header_string (m_header (base b)) skip_content_length)] else [] in
  cs ← chunk_bufs true (m_chunks b);
  let ending_representation := CRLF ++ str "0" ++ CRLF ++ CRLF in
  let appendix_begin := if negb (bool_decide (m_chunks b = [])) then 0%nat else 2%nat in
  let appendix_end := if add_zero_chunk then 7%nat else 2%nat in
  let appendix :=
    if negb (appendix_begin =? appendix_end)%nat
    then [TrivialItem (take (appendix_end - appendix_begin) (drop appendix_begin ending_representation))] else [] in
  Ok (bufs ++ cs ++ appendix, mk (base b) (m_header_was_sent b) (m_keep_alive_when_sent b) []).

(*@ message_builders.hpp 723-760 response_builder_t::send_ready_data *)
Definition chunked_send_ready_data (b : chunked_t) (attr : response_parts_attr_t) (wscb : option notificator)
    : result builder_failure (list written * chunked_t) :=
  let '(b, status_line_size) :=
    if negb (m_header_was_sent b)
    then (prepare_header_for_sending b, calculate_status_line_size (base b)) else (b, 0) in
  '(bufs, b) ← create_bufs b (bool_decide (final_parts = attr));
  let b := mk (base b) true (m_keep_alive_when_sent b) (m_chunks b) in
  if negb (bool_decide (bufs = [])) || bool_decide (is_Some wscb) then
    wg ← make_group bufs status_line_size wscb;
    Ok ([mk_written (m_request_id (base b)) (mk_flags attr (response_connection_attr (m_keep_alive_when_sent b))) wg], b)
  else Ok ([], b).

(*@ message_builders.hpp 678-690 response_builder_t::flush *)
Definition chunked_flush (b : chunked_t) (wscb : option notificator) : result builder_failure (list written * chunked_t) :=
  if m_connected (base b) then chunked_send_ready_data b not_final_parts wscb else Ok ([], b).

(*@ message_builders.hpp 700-720 response_builder_t::done *)
Definition chunked_done (b : chunked_t) (wscb : option notificator) : result builder_failure (list written * chunked_t) :=
  if m_connected (base b) then
    chunked_send_ready_data (mk (disconnected (base b)) (m_header_was_sent b) (m_keep_alive_when_sent b) (m_chunks b)) final_parts wscb
  else Err done_called_twice.

Inductive op : Type := Header (o : header_op) | Chunk (i : writable_item_t) | Flush (wscb : option notificator).
Definition apply (st : list written * chunked_t) (o : op) : result builder_failure (list written * chunked_t) :=
  let '(ws, b) := st in
  match o with
  | Header o => Ok (ws, mk (change_header (base b) o) (m_header_was_sent b) (m_keep_alive_when_sent b) (m_chunks b))
  | Chunk i => Ok (ws, append_chunk b i)
  | Flush wscb => '(out, b) ← chunked_flush b wscb; Ok (ws ++ out, b)
  end.

End Chunked.
End Chunked.

(** ** Requests *)

(** A request gives its connection to the first builder made for it. *)
(*@ request_handler.hpp 402-415 generic_request_t *)
Record request_t : Type := mk_request { rq_id : Z; rq_keep_alive : bool; rq_connected : bool }.

(*@ request_handler.hpp 268-279 generic_request_t::create_response *)
Definition create_response (r : request_t) (status_code : Z) (reason_phrase : bytes)
    : result builder_failure (base_builder_t * request_t) :=
  if rq_connected r
  then Ok (base_builder status_code reason_phrase (rq_id r) (rq_keep_alive r), mk_request (rq_id r) (rq_keep_alive r) false)
  else Err connection_already_moved.

(** ** What is written *)

Definition item_bytes (i : writable_item_t) : bytes := match i with TrivialItem data => data | FileItem _ => [] end.
Definition stream (ws : list written) : bytes := ws ≫= fun w => m_items (w_group w) ≫= item_bytes.

(** The items of all groups; the notificators they carry. *)
Definition written_items (ws : list written) : list writable_item_t := ws ≫= fun w => m_items (w_group w).
Definition notificators (ws : list written) : list notificator := ws ≫= fun w => pending (w_group w).

Lemma stream_app a b : stream (a ++ b) = stream a ++ stream b.
Proof. apply bind_app. Qed.
Lemma notificators_app a b : notificators (a ++ b) = notificators a ++ notificators b.
Proof. apply bind_app. Qed.

(** A status line is inside of the header. *)
Lemma make_group_header b h presence rest wscb : m_reason_phrase h = m_reason_phrase (m_header b) ->
  make_group (TrivialItem (create_header_string h presence) :: rest) (calculate_status_line_size b) wscb
  = Ok (mk_write_group (TrivialItem (create_header_string h presence) :: rest) (calculate_status_line_size b) wscb).
Proof.
  intros Hr. unfold make_group, status_line_size, calculate_status_line_size. cbn [write_group m_items].
  set (n := 8 + 1 + 3 + 1 + _). assert (Hn : 0 <= n - 13) by lia.
  rewrite (proj2 (Z.eqb_neq _ _)) by lia. cbn [negb].
  change (is_trivial (TrivialItem (create_header_string h presence))) with true. cbn [negb item_size].
  assert (Hl : n <= Z.of_nat (length (create_header_string h presence))).
  { rewrite create_header_string_eq. unfold header_start, n. rewrite <- Hr, !length_app.
    change (length (str "HTTP/")) with 5%nat. change (length (str ".")) with 1%nat. change (length (str " ")) with 1%nat.
    change (length CRLF) with 2%nat. cbn [length]. lia. }
  rewrite (proj2 (Z.ltb_ge _ _)) by done. by destruct wscb.
Qed.

Lemma make_group_plain parts wscb : make_group parts 0 wscb = Ok (mk_write_group parts 0 wscb).
Proof. by destruct wscb. Qed.

(** ** The field Transfer-Encoding *)

Lemma contains_prefix w s : w `prefix_of` s -> contains w s = true.
Proof. intros H. destruct s; simpl; by rewrite bool_decide_eq_true_2. Qed.

Lemma contains_app w a b : contains w (a ++ w ++ b) = true.
Proof.
  induction a as [|c a IH]; cbn [app]; [by apply contains_prefix, prefix_app_r|]. simpl. by rewrite IH, orb_true_r.
Qed.

Lemma find_snoc k fs f : Fields.find k fs = None -> key_matches k f = true -> Fields.find k (fs ++ [f]) = Some (length fs).
Proof.
  intros Hn Hf. induction fs as [|g fs IH]; cbn [app Fields.find] in *; [by rewrite Hf|].
  destruct (key_matches k g); [done|]. destruct (Fields.find k fs); [done|]. by rewrite IH.
Qed.

Lemma find_alter k upd fs i : (forall f, key_matches k (upd f) = key_matches k f) -> Fields.find k fs = Some i ->
  Fields.find k (alter upd i fs) = Some i /\ exists f, fs !! i = Some f.
Proof.
  intros Hu. revert i. induction fs as [|g fs IH]; intros i H; cbn [Fields.find] in H; [done|].
  destruct (key_matches k g) eqn:Eg.
  - injection H as <-. change (alter upd 0%nat (g :: fs)) with (upd g :: fs). cbn [Fields.find]. rewrite Hu, Eg. split; [done|by exists g].
  - destruct (Fields.find k fs) as [j|]; [|done]. injection H as <-. destruct (IH j eq_refl) as [H1 H2].
    change (alter upd (S j) (g :: fs)) with (g :: alter upd j fs). cbn [Fields.find]. rewrite Eg, H1. done.
Qed.

Definition says_chunked (h : http_response_header_t) : bool :=
  contains (str "chunked") (default [] (Fields.try_get_field (m_fields h) (ById transfer_encoding))).

Lemma prepared_says_chunked b : says_chunked (m_header (Chunked.base (Chunked.prepare_header_for_sending b))) = true.
Proof.
  unfold says_chunked, Chunked.prepare_header_for_sending. cbn [Chunked.base m_header with_header with_fields m_fields].
  set (fs := m_fields (m_header (Chunked.base b))). unfold Fields.has_field.
  destruct (Fields.find (ById transfer_encoding) fs) as [i|] eqn:E.
  - rewrite bool_decide_eq_true_2 by done. cbn [negb].
    destruct (contains _ (default [] (Fields.try_get_field fs _))) eqn:Ec; cbn [negb]; [exact Ec|].
    destruct (find_alter (ById transfer_encoding) (fun f => append_value f (str ",chunked")) fs i (fun f => eq_refl) E) as (E' & f & Hf).
    unfold Fields.append_field. change (negb (field_unspecified =? transfer_encoding)) with true. cbv iota.
    rewrite E. cbn [Fields.update_or_add]. unfold Fields.try_get_field. change (key_usable (ById transfer_encoding)) with true. cbv iota.
    rewrite E', list_lookup_alter_eq, Hf.
    assert (Hc : contains (str "chunked") ((m_value f ++ str ",") ++ str "chunked" ++ []) = true) by apply contains_app.
    rewrite <- app_assoc in Hc. exact Hc.
  - rewrite bool_decide_eq_false_2 by (intros [? ?]; done). cbn [negb]. unfold Fields.add_field.
    change (negb (field_unspecified =? transfer_encoding)) with true. cbv iota. unfold Fields.try_get_field.
    change (key_usable (ById transfer_encoding)) with true. cbv iota. rewrite find_snoc by done.
    rewrite list_lookup_middle by done. reflexivity.
Qed.

(** ** Chunked bodies *)

Definition hex_value_of (c : Z) : option Z :=
  if (48 <=? c) && (c <=? 57) then Some (c - 48) else if (65 <=? c) && (c <=? 70) then Some (c - 55)
  else if (97 <=? c) && (c <=? 102) then Some (c - 87) else None.

(** The digits before the first other character, the number they stand for and how
    many they are. *)
Fixpoint read_hex (s : bytes) (acc : Z) (count : nat) : Z * nat * bytes :=
  match s with
  | c :: rest => match hex_value_of c with Some d => read_hex rest (acc * 16 + d) (S count) | None => (acc, count, s) end
  | [] => (acc, count, s)
  end.

Definition read_crlf (s : bytes) : option bytes :=
  match s with 13 :: 10 :: rest => Some rest | _ => None end.

(** A chunked body in the sense of RFC 7230, without extensions and trailers: the
    data of its chunks and what is behind it. *)
Fixpoint decode_chunked (fuel : nat) (s : bytes) : option (bytes * bytes) :=
  match fuel with
  | O => None
  | S fuel =>
      let '(n, count, s) := read_hex s 0 0 in
      if (count =? 0)%nat then None
      else
        s ← read_crlf s;
        if n =? 0 then s ← read_crlf s; Some ([], s)
        else if (length s <? Z.to_nat n)%nat then None
        else
          rest ← read_crlf (drop (Z.to_nat n) s);
          '(data, rest) ← decode_chunked fuel rest;
          Some (take (Z.to_nat n) s ++ data, rest)
  end.

(** What [fmt] documents for the format [{:X}] of an unsigned number: its digits. *)
Definition hex_format (fmt_X : Z -> bytes) : Prop :=
  forall n, 0 <= n < 2 ^ 64 -> fmt_X n <> [] /\ Forall (fun c => hex_value_of c <> None) (fmt_X n) /\
    (read_hex (fmt_X n) 0 0).1.1 = n.

Section Decoding.
Context (fmt_X : Z -> bytes) (Hfmt : hex_format fmt_X).

Lemma read_hex_app x : forall rest acc k, Forall (fun c => hex_value_of c <> None) x ->
  read_hex (x ++ 13 :: rest) acc k = ((read_hex x acc k).1.1, (k + length x)%nat, 13 :: rest).
Proof.
  induction x as [|c x IH]; intros rest acc k Hx; cbn [app read_hex length]; [by rewrite Nat.add_0_r|].
  apply Forall_cons in Hx as [Hc Hx]. destruct (hex_value_of c) as [d|]; [|done].
  rewrite IH by done. by rewrite Nat.add_succ_r.
Qed.

Definition chunk_text (d : bytes) : bytes := fmt_X (Z.of_nat (length d)) ++ CRLF ++ d ++ CRLF.
Definition last_chunk : bytes := str "0" ++ CRLF ++ CRLF.

Lemma read_size n rest : 0 <= n < 2 ^ 64 ->
  exists k, read_hex (fmt_X n ++ CRLF ++ rest) 0 0 = (n, S k, CRLF ++ rest).
Proof.
  intros Hn. destruct (Hfmt n Hn) as (Hne & Hx & Hv). exists (length (fmt_X n) - 1)%nat.
  change (CRLF ++ rest) with (13 :: 10 :: rest). rewrite read_hex_app, Hv by done.
  destruct (fmt_X n); [done|]. cbn [length]. do 2 f_equal. lia.
Qed.

Lemma decode_chunks ds : Forall (fun d => d <> [] /\ Z.of_nat (length d) < 2 ^ 64) ds -> forall fuel rest,
  (length ds < fuel)%nat ->
  decode_chunked fuel (concat (chunk_text <$> ds) ++ last_chunk ++ rest) = Some (concat ds, rest).
Proof.
  induction 1 as [|d ds [Hd Hl] _ IH]; intros [|fuel] rest Hf; cbn [length] in Hf; try lia; [done|].
  cbn [fmap list_fmap concat decode_chunked]. unfold chunk_text at 1. rewrite <- !app_assoc.
  destruct (read_size (Z.of_nat (length d)) (d ++ CRLF ++ concat (chunk_text <$> ds) ++ last_chunk ++ rest)) as [k ->]; [lia|].
  cbn [Nat.eqb]. change (read_crlf (CRLF ++ ?x)) with (Some x). cbn [mbind option_bind].
  rewrite (proj2 (Z.eqb_neq _ _)) by (destruct d; cbn; [done|lia]).
  rewrite Nat2Z.id. rewrite (proj2 (Nat.ltb_ge _ _)) by (rewrite length_app; lia).
  rewrite drop_app_length, take_app_length. change (read_crlf (CRLF ++ ?x)) with (Some x). cbn [mbind option_bind].
  rewrite IH by lia. done.
Qed.
End Decoding.

(** ** The chunked builder *)

Section ChunkedRun.
Context (fmt_X : Z -> bytes).
Import Chunked.

Definition item_text (its : list writable_item_t) : bytes := its ≫= item_bytes.

(** The loop puts the end of a chunk before the size of the next one. *)
Lemma chunk_bufs_text ds : forall first : bool, exists bufs, chunk_bufs fmt_X first (TrivialItem <$> ds) = Ok bufs /\
  item_text bufs ++ (if decide (ds = []) then [] else CRLF)
  = (if first then [] else if decide (ds = []) then [] else CRLF) ++ concat (chunk_text fmt_X <$> ds) /\ (bufs = [] <-> ds = []).
Proof.
  induction ds as [|d ds IH]; intros first; cbn [fmap list_fmap chunk_bufs].
  - exists []. split; [done|]. by destruct first.
  - destruct (IH false) as (bufs & Hb & Ht & He). rewrite Hb. cbn [mbind result_bind]. eexists. split; [done|]. split; [|done].
    destruct (decide (d :: ds = [])) as [|_]; [done|].
    unfold item_text in *. cbn [mbind list_bind item_bytes concat]. rewrite <- !app_assoc.
    assert (Hend : mbind item_bytes bufs ++ CRLF = CRLF ++ concat (chunk_text fmt_X <$> ds)).
    { destruct (decide (ds = [])) as [->|]; [|exact Ht]. destruct He as [_ He]. rewrite He by done. done. }
    unfold chunk_text at 1. rewrite <- !app_assoc. cbn [fmap list_fmap concat].
    transitivity ((if first then [] else CRLF) ++ fmt_X (Z.of_nat (length d)) ++ CRLF ++ d ++ (mbind item_bytes bufs ++ CRLF)).
    + done.
    + by rewrite Hend.
Qed.

(** The header as it is sent. *)
Definition prepared (h : http_response_header_t) : http_response_header_t :=
  m_header (base (prepare_header_for_sending (mk (mk_base h true 0) false true []))).

Lemma prepared_eq b : m_header (base (prepare_header_for_sending b)) = prepared (m_header (base b)).
Proof. done. Qed.

Definition header_text (b : chunked_t) : bytes :=
  if m_header_was_sent b then [] else create_header_string (prepared (m_header (base b))) skip_content_length.

Definition sent_base (b : chunked_t) : base_builder_t :=
  if m_header_was_sent b then base b else with_header (base b) (prepared (m_header (base b))).
Definition sent_keep (b : chunked_t) : bool :=
  if m_header_was_sent b then m_keep_alive_when_sent b else should_keep_alive (m_header (base b)).

Definition flags_are (id : Z) (f : response_output_flags_t) (w : written) : Prop := w_request_id w = id /\ w_flags w = f.

Lemma send_ready_data_exact b ds attr wscb : m_chunks b = TrivialItem <$> ds ->
  exists out, chunked_send_ready_data fmt_X b attr wscb = Ok (out, mk (sent_base b) true (sent_keep b) []) /\
    stream out = header_text b ++ concat (chunk_text fmt_X <$> ds) ++ (if decide (attr = final_parts) then last_chunk else []) /\
    notificators out = option_list wscb /\
    Forall (flags_are (m_request_id (base b)) (mk_flags attr (response_connection_attr (sent_keep b)))) out /\
    (attr = final_parts -> exists w, out = [w]).
Proof.
  intros Hc. destruct (chunk_bufs_text ds true) as (cs & Hcs & Ht & He).
  set (fin := bool_decide (final_parts = attr)).
  set (ending := if negb (bool_decide (ds = [])) then (if fin then CRLF ++ last_chunk else CRLF) else if fin then last_chunk else []).
  assert (Hend : item_text cs ++ ending = concat (chunk_text fmt_X <$> ds) ++ (if decide (attr = final_parts) then last_chunk else [])).
  { unfold ending, fin. cbn [app] in Ht. destruct (decide (ds = [])) as [->|Hds].
    - destruct He as [_ He]. rewrite He by done. rewrite bool_decide_eq_true_2 by done. by destruct attr.
    - rewrite <- Ht, bool_decide_eq_false_2 by done. cbn [negb]. destruct attr; cbn; rewrite <- ?app_assoc, ?app_nil_r; done. }
  assert (Hbufs : forall b', m_chunks b' = TrivialItem <$> ds -> exists bufs, create_bufs fmt_X b' fin
    = Ok (bufs, mk (base b') (m_header_was_sent b') (m_keep_alive_when_sent b') []) /\
    bufs = (if negb (m_header_was_sent b') then [TrivialItem (create_header_string (m_header (base b')) skip_content_length)] else []) ++ cs
           ++ (if decide (ending = []) then [] else [TrivialItem ending])).
  { intros b' Hc'. unfold create_bufs. rewrite Hc', Hcs. cbn [mbind result_bind]. eexists. split; [done|]. do 2 f_equal.
    assert (Hb : bool_decide (TrivialItem <$> ds = []) = bool_decide (ds = [])) by (by destruct ds).
    rewrite Hb. unfold ending. by destruct (bool_decide (ds = [])), fin. }
  assert (Htext : item_text (cs ++ (if decide (ending = []) then [] else [TrivialItem ending])) = item_text cs ++ ending).
  { unfold item_text. rewrite bind_app. f_equal. destruct (decide (ending = [])) as [->|]; [done|]. cbn. by rewrite app_nil_r. }
  unfold chunked_send_ready_data, header_text, sent_base, sent_keep. fold fin. destruct (m_header_was_sent b) eqn:Es; cbn [negb].
  - destruct (Hbufs b Hc) as (bufs & -> & Eb). rewrite Es in Eb. cbn [negb app] in Eb. cbn [mbind result_bind base m_keep_alive_when_sent m_chunks].
    destruct (_ || _) eqn:Ew.
    + rewrite make_group_plain. cbn [mbind result_bind]. eexists. split; [done|]. split_and!.
      * cbn [app]. rewrite <- Hend, <- Htext, <- Eb. unfold stream. cbn [mbind list_bind w_group m_items]. by rewrite app_nil_r.
      * unfold notificators. cbn. by destruct wscb.
      * by repeat constructor.
      * by eexists.
    + apply orb_false_iff in Ew as [Ew1 Ew2]. apply negb_false_iff, bool_decide_eq_true_1 in Ew1.
      assert (wscb = None) as -> by (destruct wscb; done). eexists. split; [done|]. split_and!; [|done|constructor|].
      * cbn [app]. rewrite <- Hend, <- Htext, <- Eb, Ew1. done.
      * intros ->. exfalso. rewrite Ew1 in Eb. symmetry in Eb. apply app_eq_nil in Eb as [_ Eb]. unfold ending, fin in Eb.
        destruct (negb _); discriminate Eb.
  - destruct (Hbufs (prepare_header_for_sending b) Hc) as (bufs & -> & Eb).
    change (m_header_was_sent (prepare_header_for_sending b)) with (m_header_was_sent b) in Eb. rewrite Es in Eb. cbn [negb] in Eb.
    rewrite prepared_eq in Eb. cbn [app] in Eb. cbn [mbind result_bind]. subst bufs. cbn [bool_decide negb orb].
    rewrite bool_decide_eq_false_2 by done. cbn [negb orb]. rewrite make_group_header by done. cbn [mbind result_bind].
    eexists. split; [done|]. split_and!.
    + rewrite <- Hend, <- Htext. unfold stream. cbn [mbind list_bind w_group m_items item_bytes]. by rewrite app_nil_r.
    + unfold notificators. cbn. by destruct wscb.
    + by repeat constructor.
    + by eexists.
Qed.

(** What a run has appended, called back and, until the first flush, put into the
    header. *)
Definition data_of (i : writable_item_t) : list bytes := match i with TrivialItem [] | FileItem _ => [] | TrivialItem d => [d] end.
Definition chunk_ok (o : op) : Prop :=
  match o with Chunk (TrivialItem d) => Z.of_nat (length d) < 2 ^ 64 | Chunk (FileItem _) => False | _ => True end.
Definition chunks_of (ops : list op) : list bytes := ops ≫= fun o => match o with Chunk i => data_of i | _ => [] end.
Definition callbacks_of (ops : list op) : list notificator := ops ≫= fun o => match o with Flush cb => option_list cb | _ => [] end.
Fixpoint header_sent (b : base_builder_t) (ops : list op) : http_response_header_t :=
  match ops with
  | [] | Flush _ :: _ => m_header b
  | Header o :: ops => header_sent (change_header b o) ops
  | Chunk _ :: ops => header_sent b ops
  end.

Definition text_sent (b : chunked_t) (ops : list op) : bytes :=
  if m_header_was_sent b then [] else create_header_string (prepared (header_sent (base b) ops)) skip_content_length.
Definition keep_sent (b : chunked_t) (ops : list op) : bool :=
  if m_header_was_sent b then m_keep_alive_when_sent b else should_keep_alive (header_sent (base b) ops).

Record ran (b : chunked_t) (pend : list bytes) (ops : list op) (ws : list written) (b' : chunked_t) (fl pend' : list bytes) : Prop := {
  ran_connected : m_connected (base b') = true;
  ran_id : m_request_id (base b') = m_request_id (base b);
  ran_pending : m_chunks b' = TrivialItem <$> pend';
  ran_chunks : fl ++ pend' = pend ++ chunks_of ops;
  ran_stream : stream ws ++ header_text b' = text_sent b ops ++ concat (chunk_text fmt_X <$> fl);
  ran_sent : m_header_was_sent b = true -> m_header_was_sent b' = true;
  ran_unsent : m_header_was_sent b' = false -> fl = [];
  ran_flags : Forall (flags_are (m_request_id (base b)) (mk_flags not_final_parts (response_connection_attr (keep_sent b ops)))) ws;
  ran_keep : sent_keep b' = keep_sent b ops;
  ran_calls : notificators ws = callbacks_of ops }.

Lemma run_ops ops : Forall chunk_ok ops -> forall ws b pend, m_connected (base b) = true -> m_chunks b = TrivialItem <$> pend ->
  exists ws' b' fl pend', foldM (apply fmt_X) (ws, b) ops = Ok (ws ++ ws', b') /\ ran b pend ops ws' b' fl pend'.
Proof.
  induction 1 as [|o ops Ho _ IH]; intros ws b pend Hcon Hc; cbn [foldM].
  - exists [], b, [], pend. rewrite app_nil_r. split; [done|].
    split; rewrite ?app_nil_r; done || by constructor.
  - destruct o as [o|i|cb]; cbn [apply].
    + set (b1 := mk (change_header (base b) o) (m_header_was_sent b) (m_keep_alive_when_sent b) (m_chunks b)).
      destruct (IH ws b1 pend Hcon Hc) as (ws' & b' & fl & pend' & H & []). exists ws', b', fl, pend'. split; [exact H|]. by split.
    + set (b1 := append_chunk b i). destruct i as [d|sf]; [|done].
      assert (Hb1 : m_chunks b1 = TrivialItem <$> (pend ++ data_of (TrivialItem d)) /\ base b1 = base b /\
        m_header_was_sent b1 = m_header_was_sent b /\ m_keep_alive_when_sent b1 = m_keep_alive_when_sent b).
      { unfold b1, append_chunk. destruct d as [|c d]; cbn [data_of].
        - rewrite app_nil_r. done.
        - rewrite fmap_app. cbn [m_chunks]. by rewrite <- Hc. }
      destruct Hb1 as (Hc1 & Hbase & Hs1 & Hk1).
      destruct (IH ws b1 (pend ++ data_of (TrivialItem d))) as (ws' & b' & fl & pend' & H & []); [by rewrite Hbase|done|].
      exists ws', b', fl, pend'. split; [exact H|]. unfold text_sent, keep_sent in *. rewrite Hs1, Hbase, ?Hk1 in *.
      split; try done. change (chunks_of (Chunk (TrivialItem d) :: ops)) with (data_of (TrivialItem d) ++ chunks_of ops). by rewrite app_assoc.
    + destruct (send_ready_data_exact b pend not_final_parts cb Hc) as (out & Hsend & Hst & Hcb & Hfl & _).
      unfold chunked_flush. rewrite Hcon, Hsend. cbn [mbind result_bind]. set (b1 := mk (sent_base b) true (sent_keep b) []).
      assert (Hb1 : m_connected (base b1) = true /\ m_request_id (base b1) = m_request_id (base b)) by (unfold b1, sent_base; cbn; by destruct (m_header_was_sent b)).
      destruct Hb1 as [Hcon1 Hid1]. destruct (IH (ws ++ out) b1 [] Hcon1 eq_refl) as (ws' & b' & fl & pend' & H & []).
      exists (out ++ ws'), b', (pend ++ fl), pend'. rewrite app_assoc. split; [exact H|].
      cbn [text_sent keep_sent m_header_was_sent b1 m_keep_alive_when_sent] in *.
      change (text_sent b (Flush cb :: ops)) with (header_text b). change (keep_sent b (Flush cb :: ops)) with (sent_keep b).
      split; try done.
      * congruence.
      * rewrite <- app_assoc, ran_chunks0. done.
      * change (text_sent b1 ops) with (@nil Z) in ran_stream0. cbn [app] in ran_stream0.
        rewrite stream_app, <- app_assoc, ran_stream0, Hst. rewrite decide_False, app_nil_r by done.
        by rewrite fmap_app, concat_app, <- app_assoc.
      * intros _. by apply ran_sent0.
      * rewrite ran_sent0 by done. done.
      * apply Forall_app. split; [done|]. rewrite <- Hid1. exact ran_flags0.
      * rewrite notificators_app, Hcb, ran_calls0. done.
Qed.
End ChunkedRun.

(** C16 (roundtrip). Whatever pieces of data, each shorter than 2^64 bytes and none of them the description of a file,
    are appended to a chunked response, and however often it is flushed, everything that is written, after the header as it was at
    the first flush, with a Transfer-Encoding that says chunked, is a body whose
    chunks, decoded as RFC 7230 says, give the appended bytes in their order and end
    exactly with it. Only the last group is final, all have the id of the request and
    the same connection attribute, every notificator is given once and in order, and
    [done] cannot be called again. *)
Theorem chunked_roundtrip fmt_X (Hfmt : hex_format fmt_X) code reason id keep (ops : list Chunked.op) cb :
  Forall chunk_ok ops ->
  let b0 := base_builder code reason id keep in
  let header := prepared (header_sent b0 ops) in
  exists ws b last b' body,
    foldM (Chunked.apply fmt_X) ([], Chunked.chunked_create b0) ops = Ok (ws, b) /\
    Chunked.chunked_done fmt_X b cb = Ok ([last], b') /\
    stream (ws ++ [last]) = create_header_string header skip_content_length ++ body /\
    says_chunked header = true /\
    (forall rest, decode_chunked (S (length body)) (body ++ rest) = Some (concat (chunks_of ops), rest)) /\
    Forall (flags_are id (mk_flags not_final_parts (response_connection_attr (should_keep_alive (header_sent b0 ops))))) ws /\
    flags_are id (mk_flags final_parts (response_connection_attr (should_keep_alive (header_sent b0 ops)))) last /\
    notificators (ws ++ [last]) = callbacks_of ops ++ option_list cb /\
    forall cb', Chunked.chunked_done fmt_X b' cb' = Err done_called_twice.
Proof.
  intros Hok b0 header. destruct (run_ops fmt_X ops Hok [] (Chunked.chunked_create b0) [] eq_refl eq_refl) as (ws & b & fl & pend & Hrun & []).
  set (b1 := Chunked.mk (disconnected (Chunked.base b)) (Chunked.m_header_was_sent b) (Chunked.m_keep_alive_when_sent b) (Chunked.m_chunks b)).
  destruct (send_ready_data_exact fmt_X b1 pend final_parts cb ran_pending0) as (out & Hsend & Hst & Hcb & Hfl & Hlast).
  destruct (Hlast eq_refl) as [last ->]. exists ws, b, last, (Chunked.mk (sent_base b1) true (sent_keep b1) []).
  cbn [app] in ran_chunks0. exists (concat (chunk_text fmt_X <$> chunks_of ops) ++ last_chunk).
  change (sent_keep b1) with (sent_keep b) in *. rewrite ran_keep0 in *. split_and!.
  - exact Hrun.
  - unfold Chunked.chunked_done. by rewrite ran_connected0.
  - rewrite stream_app, Hst, decide_True by done. change (header_text b1) with (header_text b).
    rewrite app_assoc, ran_stream0. unfold text_sent. cbn [Chunked.m_header_was_sent Chunked.chunked_create Chunked.base].
    rewrite <- ran_chunks0, fmap_app, concat_app, <- !app_assoc. done.
  - apply prepared_says_chunked.
  - intros rest. rewrite <- app_assoc. apply decode_chunks; [done| |].
    + clear -Hok. induction Hok as [|o ops Ho _ IH]; [constructor|]. destruct o as [o|[[|c d]|sf]|cb]; try exact IH.
      change (chunks_of (Chunked.Chunk (TrivialItem (c :: d)) :: ops)) with ((c :: d) :: chunks_of ops). by constructor.
    + rewrite length_app. enough (length (chunks_of ops) <= length (concat (chunk_text fmt_X <$> chunks_of ops)))%nat by lia.
      generalize (chunks_of ops). clear. intros ds. induction ds as [|d ds IH]; [done|]. cbn [fmap list_fmap concat length]. rewrite length_app.
      assert (2 <= length (chunk_text fmt_X d))%nat; [|lia]. unfold chunk_text. rewrite !length_app. change (length CRLF) with 2%nat. lia.
  - exact ran_flags0.
  - apply Forall_inv in Hfl. destruct Hfl as [H1 H2]. split; [|exact H2]. rewrite H1. exact ran_id0.
  - rewrite notificators_app, Hcb, ran_calls0. done.
  - intros cb'. unfold Chunked.chunked_done. cbn [Chunked.base]. unfold sent_base. by destruct (Chunked.m_header_was_sent b1).
Qed.

(** A format with the documented behaviour. *)
Fixpoint hex_loop (fuel : nat) (n : Z) : bytes :=
  match fuel with
  | O => []
  | S fuel => (if n <? 16 then [] else hex_loop fuel (n / 16)) ++ [nth (Z.to_nat (n mod 16)) (str "0123456789ABCDEF") 0]
  end.

Lemma hex_digit_value n : 0 <= n < 16 -> hex_value_of (nth (Z.to_nat n) (str "0123456789ABCDEF") 0) = Some n.
Proof.
  intros Hn. assert (Hall : forallb (fun i => bool_decide (hex_value_of (nth i (str "0123456789ABCDEF") 0) = Some (Z.of_nat i))) (seq 0 16) = true)
    by (vm_compute; done).
  rewrite forallb_forall in Hall. specialize (Hall (Z.to_nat n)). rewrite in_seq, bool_decide_eq_true, Z2Nat.id in Hall by lia.
  apply Hall. lia.
Qed.

Lemma read_hex_snoc x c d : forall acc k, Forall (fun c => hex_value_of c <> None) x -> hex_value_of c = Some d ->
  (read_hex (x ++ [c]) acc k).1.1 = (read_hex x acc k).1.1 * 16 + d.
Proof.
  induction x as [|c' x IH]; intros acc k Hx Hc; cbn [app read_hex]; [by rewrite Hc|].
  apply Forall_cons in Hx as [Hc' Hx]. destruct (hex_value_of c'); [|done]. by apply IH.
Qed.

Lemma hex_loop_format fuel : forall n, 0 <= n < 16 ^ Z.of_nat (S fuel) ->
  Forall (fun c => hex_value_of c <> None) (hex_loop (S fuel) n) /\ (read_hex (hex_loop (S fuel) n) 0 0).1.1 = n.
Proof.
  induction fuel as [|fuel IH]; intros n Hn; cbn [hex_loop] in *; pose proof (Z.mod_pos_bound n 16 ltac:(lia)) as Hm;
    pose proof (hex_digit_value _ Hm) as Hd; pose proof (Z.div_mod n 16 ltac:(lia)) as Hdm.
  - change (16 ^ Z.of_nat 1) with 16 in Hn. rewrite (proj2 (Z.ltb_lt _ _)) by lia. cbn [app read_hex]. rewrite Hd.
    split; [by constructor; [rewrite Hd|constructor]|]. cbn. rewrite Z.mod_small by lia. done.
  - destruct (Z.ltb_spec n 16).
    + cbn [app read_hex]. rewrite Hd. split; [by constructor; [rewrite Hd|constructor]|]. cbn. rewrite Z.mod_small by lia. done.
    + rewrite Nat2Z.inj_succ, Z.pow_succ_r in Hn by lia.
      destruct (IH (n / 16)) as [H1 H2]; [split; [apply Z.div_pos; lia|apply Z.div_lt_upper_bound; lia]|]. cbn [hex_loop] in H1, H2. split.
      * apply Forall_app. split; [exact H1|]. by constructor; [rewrite Hd|constructor].
      * rewrite (read_hex_snoc _ _ _ _ _ H1 Hd), H2. lia.
Qed.

Lemma hex_loop_is_format : hex_format (hex_loop 16).
Proof.
  intros n Hn. destruct (hex_loop_format 15 n) as [H1 H2]; [change (16 ^ Z.of_nat 16) with (2 ^ 64); lia|].
  split_and!; [|done|done]. intros H. apply (f_equal length) in H. cbn [hex_loop] in H. rewrite length_app in H. cbn in H. lia.
Qed.

Definition sample_chunks : list Chunked.op :=
  [Chunked.Chunk (TrivialItem (str "Hello,")); Chunked.Chunk (TrivialItem []); Chunked.Flush (Some 3%nat);
   Chunked.Header H_close; Chunked.Chunk (TrivialItem (str " world and some more")); Chunked.Chunk (TrivialItem (str "!"))].

Lemma chunked_roundtrip_witness :
  exists ws b last b' body,
    foldM (Chunked.apply (hex_loop 16)) ([], Chunked.chunked_create (base_builder 200 (str "OK") 5 true)) sample_chunks = Ok (ws, b) /\
    Chunked.chunked_done (hex_loop 16) b None = Ok ([last], b') /\
    decode_chunked (S (length body)) body = Some (str "Hello, world and some more!", []) /\ notificators (ws ++ [last]) = [3%nat].
Proof.
  destruct (chunked_roundtrip (hex_loop 16) hex_loop_is_format 200 (str "OK") 5 true sample_chunks None)
    as (ws & b & last & b' & body & H1 & H2 & _ & _ & H3 & _ & _ & H4 & _); [by repeat constructor|].
  exists ws, b, last, b', body. split_and!; [exact H1|exact H2| |exact H4].
  rewrite <- (app_nil_r body) at 2. exact (H3 []).
Defined.

(** ** The builders of whole responses and of parts *)

Definition item_ok (i : writable_item_t) : Prop := 0 <= item_size i < 2 ^ 64.
Definition if_not_empty (i : writable_item_t) : list writable_item_t := if 0 <? item_size i then [i] else [].
Definition size_of_items (its : list writable_item_t) : Z := foldr (fun i n => item_size i + n) 0 its.

Lemma size_of_items_app a b : size_of_items (a ++ b) = size_of_items a + size_of_items b.
Proof. induction a as [|i a IH]; [done|]. change (item_size i + size_of_items (a ++ b) = item_size i + size_of_items a + size_of_items b). lia. Qed.

Lemma size_of_nonempty i : item_ok i -> size_of_items (if_not_empty i) = item_size i.
Proof. unfold item_ok, if_not_empty. intros H. destruct (Z.ltb_spec 0 (item_size i)); cbn; lia. Qed.

Lemma insert_first {A} (x y : A) l : <[0%nat := x]> (y :: l) = x :: l.
Proof. done. Qed.

Section WholeResponse.
Import Controlled.

Definition whole_ok (o : op) : Prop := match o with SetBody i | AppendBody i => item_ok i | Header _ => True end.
(** The body: what was set last and appended since. *)
Definition next_body (body : list writable_item_t) (o : op) : list writable_item_t :=
  match o with Header _ => body | SetBody i => if_not_empty i | AppendBody i => body ++ if_not_empty i end.
Definition body_of (ops : list op) : list writable_item_t := fold_left next_body ops [].
Definition header_of (b : base_builder_t) (ops : list op) : http_response_header_t :=
  m_header (fold_left (fun b o => match o with Header o => change_header b o | _ => b end) ops b).

Definition has_body (b : controlled_t) (body : list writable_item_t) : Prop :=
  m_body_size b = wrap 64 (size_of_items body) /\
  ((m_response_parts b = [] /\ body = []) \/ exists first, m_response_parts b = first :: body).

Lemma reserve_body b body : has_body b body -> exists first, reserve_first (m_response_parts b) = first :: body.
Proof. intros [_ [[-> ->]|[first ->]]]; by eexists. Qed.

Lemma apply_body b o body : has_body b body -> whole_ok o -> has_body (apply b o) (next_body body o).
Proof.
  intros Hb Ho. destruct (reserve_body b body Hb) as [first Hf]. destruct Hb as [Hs Hp]. destruct o as [o|i|i]; cbn [apply next_body].
  - by split.
  - unfold controlled_set_body. rewrite Hf. cbn [take]. split; cbn [m_body_size m_response_parts].
    + rewrite size_of_nonempty by done. unfold wrap. by rewrite Z.mod_small.
    + right. exists first. unfold if_not_empty. rewrite take_0. by destruct (0 <? item_size i).
  - unfold controlled_append_body. rewrite Hf. unfold if_not_empty. destruct (Z.ltb_spec 0 (item_size i)) as [Hi|Hi]; split; cbn [m_body_size m_response_parts].
    + rewrite Hs, size_of_items_app. cbn [size_of_items foldr]. unfold wrap. rewrite Zplus_mod_idemp_l. f_equal. lia.
    + right. by exists first.
    + by rewrite app_nil_r.
    + right. exists first. by rewrite app_nil_r.
Qed.

Lemma run_whole ops : Forall whole_ok ops -> forall b body, has_body b body ->
  let b' := fold_left apply ops b in
  has_body b' (fold_left next_body ops body) /\ m_connected (base b') = m_connected (base b) /\
  m_request_id (base b') = m_request_id (base b) /\ m_header (base b') = header_of (base b) ops.
Proof.
  induction 1 as [|o ops Ho _ IH]; intros b body Hb; [done|]. cbn [fold_left].
  destruct (IH (apply b o) (next_body body o) (apply_body b o body Hb Ho)) as (H1 & H2 & H3 & H4). split; [exact H1|].
  rewrite H2, H3, H4. unfold header_of. cbn [fold_left].
  assert (Hbase : base (apply b o) = match o with Header o => change_header (base b) o | _ => base b end).
  { destruct o as [o|i|i]; [done..|]. cbn. unfold controlled_append_body. by destruct (0 <? item_size i). }
  rewrite Hbase. by destruct o.
Qed.

End WholeResponse.

(** C17 (functional). A whole response is one final group: the header
    with the number of bytes of the body as its Content-Length, whatever the user
    has said about it, and the body, which is what was set last and everything
    appended since, without the empty items. It has the id of the request, closes
    the connection as the header says, carries the notificator, and the size of its
    status line is right; [done] cannot be called again. *)
Theorem whole_response_exact code reason id keep (ops : list Controlled.op) cb :
  Forall whole_ok ops -> size_of_items (body_of ops) < 2 ^ 64 ->
  let b0 := base_builder code reason id keep in
  let h := header_of b0 ops in
  exists w b',
    Controlled.controlled_done (fold_left Controlled.apply ops (Controlled.create b0)) cb = Ok ([w], b') /\
    flags_are id (mk_flags final_parts (response_connection_attr (should_keep_alive h))) w /\
    m_items (w_group w) =
      TrivialItem (create_header_string (set_content_length h (size_of_items (body_of ops))) add_content_length) :: body_of ops /\
    m_status_line_size (w_group w) = 13 + Z.of_nat (length (m_reason_phrase h)) /\
    m_after_write_notificator (w_group w) = cb /\
    forall cb', Controlled.controlled_done b' cb' = Err done_called_twice.
Proof.
  intros Hok Hsize b0 h. destruct (run_whole ops Hok (Controlled.create b0) []) as (Hb & Hcon & Hid & Hh); [by split; [|left]|].
  fold (body_of ops) in Hb. set (b := fold_left Controlled.apply ops (Controlled.create b0)) in *.
  destruct (reserve_body b _ Hb) as [first Hf]. destruct Hb as [Hs _]. unfold Controlled.controlled_done. rewrite Hcon.
  cbn [m_connected Controlled.base Controlled.create b0 base_builder]. rewrite Hf, insert_first, make_group_header by done.
  cbn [mbind result_bind]. do 2 eexists. split; [done|].
  cbn [with_header m_header]. rewrite Hh, Hs. fold h.
  split_and!; try done. unfold set_content_length. do 3 f_equal. unfold wrap. by rewrite Zmod_mod.
Qed.

Definition sample_whole : list Controlled.op :=
  [Controlled.AppendBody (TrivialItem (str "lost")); Controlled.SetBody (TrivialItem (str "Hello"));
   Controlled.Header (H_content_length 99); Controlled.AppendBody (TrivialItem []); Controlled.AppendBody (TrivialItem (str "!"))].

Lemma whole_response_exact_witness :
  exists w b',
    Controlled.controlled_done (fold_left Controlled.apply sample_whole (Controlled.create (base_builder 200 (str "OK") 5 true))) None = Ok ([w], b') /\
    m_items (w_group w) =
      [TrivialItem (str "HTTP/1.1 200 OK" ++ CRLF ++ str "Connection: keep-alive" ++ CRLF ++ str "Content-Length: 6" ++ CRLF ++ CRLF);
       TrivialItem (str "Hello"); TrivialItem (str "!")].
Proof.
  destruct (whole_response_exact 200 (str "OK") 5 true sample_whole None) as (w & b' & H1 & _ & H2 & _); [by repeat constructor|done|].
  exists w, b'. split; [exact H1 | exact H2].
Defined.

Section UserRun.
Import User.

Definition user_ok (o : op) : Prop := match o with SetBody i | AppendBody i => item_ok i | _ => True end.

(** All that is written of the body: what is pending at each flush and at the end. *)
Fixpoint user_body (pending : list writable_item_t) (ops : list op) : list writable_item_t :=
  match ops with
  | [] => pending
  | Header _ :: ops => user_body pending ops
  | SetBody i :: ops => user_body (if_not_empty i) ops
  | AppendBody i :: ops => user_body (pending ++ if_not_empty i) ops
  | Flush _ :: ops => pending ++ user_body [] ops
  end.
Definition user_callbacks (ops : list op) : list notificator := ops ≫= fun o => match o with Flush cb => option_list cb | _ => [] end.
Fixpoint user_header (b : base_builder_t) (ops : list op) : http_response_header_t :=
  match ops with
  | [] | Flush _ :: _ => m_header b
  | Header o :: ops => user_header (change_header b o) ops
  | _ :: ops => user_header b ops
  end.

Definition header_item (h : http_response_header_t) : writable_item_t := TrivialItem (create_header_string h add_content_length).
Definition items_before (b : user_t) (h : http_response_header_t) : list writable_item_t :=
  if m_header_was_sent b then [] else [header_item h].
Definition keep_before (b : user_t) (h : http_response_header_t) : bool :=
  if m_header_was_sent b then m_keep_alive_when_sent b else should_keep_alive h.

Definition user_has (b : user_t) (cur : list writable_item_t) : Prop :=
  if m_header_was_sent b then m_response_parts b = cur
  else (m_response_parts b = [] /\ cur = []) \/ exists first, m_response_parts b = first :: cur.

Lemma reserve_user b cur : user_has b cur ->
  if m_header_was_sent b then reserve_if_necessary b = cur else exists first, reserve_if_necessary b = first :: cur.
Proof.
  unfold user_has, reserve_if_necessary. destruct (m_header_was_sent b); [done|].
  intros [[-> ->]|[first ->]]; by eexists.
Qed.

Lemma send_user b cur attr wscb : user_has b cur ->
  exists out, user_send_ready_data b attr wscb = Ok (out, mk (base b) true (keep_before b (m_header (base b))) []) /\
    written_items out = items_before b (m_header (base b)) ++ cur /\ notificators out = option_list wscb /\
    Forall (flags_are (m_request_id (base b)) (mk_flags attr (response_connection_attr (keep_before b (m_header (base b)))))) out /\
    (attr = final_parts -> exists w, out = [w]).
Proof.
  intros Hb. pose proof (reserve_user b cur Hb) as Hr. unfold user_send_ready_data, items_before, keep_before.
  unfold user_has in Hb. destruct (m_header_was_sent b) eqn:Es; cbn [negb].
  - destruct (_ || _) eqn:Ew.
    + rewrite make_group_plain. cbn [mbind result_bind]. eexists. split; [unfold with_parts; rewrite Es; reflexivity|]. split_and!.
      * unfold written_items. cbn [mbind list_bind w_group m_items]. by rewrite app_nil_r.
      * unfold notificators. cbn. by destruct wscb.
      * by repeat constructor.
      * by eexists.
    + apply orb_false_iff in Ew as [Ew Hattr]. apply orb_false_iff in Ew as [Hp Hcb].
      apply negb_false_iff, bool_decide_eq_true_1 in Hp. apply bool_decide_eq_false_1 in Hattr.
      assert (wscb = None) as -> by (destruct wscb; done). rewrite Hp in Hb. subst cur. exists [].
      destruct b as [bb s k ps]. cbn in *. subst. done.
  - destruct Hr as [first Hr]. rewrite Hr, insert_first. cbn [m_response_parts bool_decide negb orb].
    rewrite bool_decide_eq_false_2 by done. cbn [negb orb]. rewrite make_group_header by done. cbn [mbind result_bind].
    eexists. split; [done|]. split_and!.
    + unfold written_items. cbn [mbind list_bind w_group m_items]. by rewrite app_nil_r.
    + unfold notificators. cbn. by destruct wscb.
    + by repeat constructor.
    + by eexists.
Qed.

Record user_ran (b : user_t) (cur : list writable_item_t) (ops : list op) (ws : list written) (b' : user_t) (cur' : list writable_item_t) : Prop := {
  u_connected : m_connected (base b') = true;
  u_id : m_request_id (base b') = m_request_id (base b);
  u_pending : user_has b' cur';
  u_items : written_items ws ++ items_before b' (m_header (base b')) ++ cur' = items_before b (user_header (base b) ops) ++ user_body cur ops;
  u_flags : Forall (flags_are (m_request_id (base b)) (mk_flags not_final_parts (response_connection_attr (keep_before b (user_header (base b) ops))))) ws;
  u_keep : keep_before b' (m_header (base b')) = keep_before b (user_header (base b) ops);
  u_calls : notificators ws = user_callbacks ops }.

Lemma written_items_app a b : written_items (a ++ b) = written_items a ++ written_items b.
Proof. apply bind_app. Qed.

Lemma set_user b i : user_has (user_set_body b i) (if_not_empty i).
Proof.
  unfold user_set_body, user_has, if_not_empty, reserve_if_necessary. cbn [m_header_was_sent with_parts m_response_parts].
  destruct (m_header_was_sent b); cbn [negb]; [by destruct (0 <? item_size i)|]. right.
  destruct (m_response_parts b) as [|x l]; cbn [reserve_first take]; rewrite ?take_0; destruct (0 <? item_size i); by eexists.
Qed.

Lemma append_user b i cur : item_ok i -> user_has b cur -> user_has (user_append_body b i) (cur ++ if_not_empty i).
Proof.
  intros Hi Hb. pose proof (reserve_user b cur Hb) as Hr. unfold item_ok in Hi. unfold user_append_body, if_not_empty.
  destruct (Z.eqb_spec 0 (item_size i)) as [Hz|Hz].
  - rewrite <- Hz. change (0 <? 0) with false. by rewrite app_nil_r.
  - rewrite (proj2 (Z.ltb_lt _ _)) by lia. unfold user_has. cbn [m_header_was_sent with_parts m_response_parts].
    destruct (m_header_was_sent b); [by rewrite Hr|]. destruct Hr as [first ->]. right. by exists first.
Qed.

Lemma run_user ops : Forall user_ok ops -> forall ws b cur, m_connected (base b) = true -> user_has b cur ->
  exists ws' b' cur', foldM apply (ws, b) ops = Ok (ws ++ ws', b') /\ user_ran b cur ops ws' b' cur'.
Proof.
  induction 1 as [|o ops Ho _ IH]; intros ws b cur Hcon Hb; cbn [foldM].
  - exists [], b, cur. rewrite app_nil_r. split; [done|]. split; done || by constructor.
  - destruct o as [o|i|i|cb]; cbn [apply].
    + destruct (IH ws (mk (change_header (base b) o) (m_header_was_sent b) (m_keep_alive_when_sent b) (m_response_parts b)) cur Hcon Hb)
        as (ws' & b' & cur' & H & []). exists ws', b', cur'. split; [exact H|]. by split.
    + destruct (IH ws (user_set_body b i) (if_not_empty i) Hcon (set_user b i)) as (ws' & b' & cur' & H & []).
      exists ws', b', cur'. split; [exact H|]. by split.
    + assert (Hsame : base (user_append_body b i) = base b /\ m_header_was_sent (user_append_body b i) = m_header_was_sent b /\
        m_keep_alive_when_sent (user_append_body b i) = m_keep_alive_when_sent b) by (unfold user_append_body; by destruct (0 =? item_size i)).
      destruct Hsame as (Hbase & Hs & Hk).
      destruct (IH ws (user_append_body b i) (cur ++ if_not_empty i)) as (ws' & b' & cur' & H & []); [by rewrite Hbase|by apply append_user|].
      exists ws', b', cur'. split; [exact H|]. unfold items_before, keep_before in *. rewrite Hbase, Hs, ?Hk in *. by split.
    + destruct (send_user b cur not_final_parts cb Hb) as (out & Hsend & Hi & Hcb & Hfl & _).
      unfold user_flush. rewrite Hcon, Hsend. cbn [mbind result_bind].
      destruct (IH (ws ++ out) (mk (base b) true (keep_before b (m_header (base b))) []) [] Hcon eq_refl) as (ws' & b' & cur' & H & []).
      exists (out ++ ws'), b', cur'. rewrite app_assoc. split; [exact H|]. split; try done.
      * rewrite written_items_app, <- app_assoc, u_items0, Hi. cbn [user_header user_body]. by rewrite <- app_assoc.
      * apply Forall_app. by split.
      * rewrite notificators_app, Hcb, u_calls0. done.
Qed.
End UserRun.

(** A response whose output the user controls is written
    as the header it had at the first flush and the items set and appended, flush
    by flush: what is set replaces only what has not been flushed yet. The last
    group alone is final, all have the id of the request and the connection
    attribute of the header that was sent, whatever becomes of the header later,
    every notificator is given once and in order, and [done] cannot be called again. *)
Theorem user_response_exact code reason id keep (ops : list User.op) cb :
  Forall user_ok ops ->
  let b0 := base_builder code reason id keep in
  let h := user_header b0 ops in
  exists ws b last b',
    foldM User.apply ([], User.create b0) ops = Ok (ws, b) /\
    User.user_done b cb = Ok ([last], b') /\
    written_items (ws ++ [last]) = header_item h :: user_body [] ops /\
    Forall (flags_are id (mk_flags not_final_parts (response_connection_attr (should_keep_alive h)))) ws /\
    flags_are id (mk_flags final_parts (response_connection_attr (should_keep_alive h))) last /\
    notificators (ws ++ [last]) = user_callbacks ops ++ option_list cb /\
    forall cb', User.user_done b' cb' = Err done_called_twice.
Proof.
  intros Hok b0 h. destruct (run_user ops Hok [] (User.create b0) [] eq_refl) as (ws & b & cur & Hrun & []); [by left|].
  set (b1 := User.mk (disconnected (User.base b)) (User.m_header_was_sent b) (User.m_keep_alive_when_sent b) (User.m_response_parts b)).
  destruct (send_user b1 cur final_parts cb u_pending0) as (out & Hsend & Hi & Hcb & Hfl & Hlast). destruct (Hlast eq_refl) as [last ->].
  exists ws, b, last. eexists. split; [exact Hrun|]. split; [unfold User.user_done; by rewrite u_connected0|].
  change (keep_before b1 (m_header (User.base b1))) with (keep_before b (m_header (User.base b))) in *. rewrite u_keep0 in *.
  split_and!.
  - rewrite written_items_app, Hi. exact u_items0.
  - exact u_flags0.
  - apply Forall_inv in Hfl. destruct Hfl as [H1 H2]. split; [|exact H2]. rewrite H1. exact u_id0.
  - by rewrite notificators_app, Hcb, u_calls0.
  - done.
Qed.

Lemma user_response_exact_witness :
  exists ws b last b',
    foldM User.apply ([], User.create (base_builder 200 (str "OK") 5 true))
      [User.AppendBody (TrivialItem (str "a")); User.Flush None; User.AppendBody (TrivialItem (str "b"));
       User.SetBody (TrivialItem (str "c")); User.Header H_close] = Ok (ws, b) /\
    User.user_done b (Some 1%nat) = Ok ([last], b') /\ tail (written_items (ws ++ [last])) = [TrivialItem (str "a"); TrivialItem (str "c")].
Proof.
  destruct (user_response_exact 200 (str "OK") 5 true
      [User.AppendBody (TrivialItem (str "a")); User.Flush None; User.AppendBody (TrivialItem (str "b"));
       User.SetBody (TrivialItem (str "c")); User.Header H_close] (Some 1%nat)) as (ws & b & last & b' & H1 & H2 & H3 & _);
    [by repeat constructor|].
  exists ws, b, last, b'. split; [exact H1|]. split; [exact H2|]. by rewrite H3.
Defined.
