(* ===== verification/Multipart.v ===== *)
(** * Multipart bodies

    [restinio/helpers/multipart_body.hpp] and [restinio/helpers/string_algo.hpp]: a
    body is split by its boundary, every part is parsed to its fields and its own
    body, and a handler of the user is called for each. *)

From S2P Require Import Prelude Headers EasyParser EasyRules HttpFields HttpGrammar FieldParsers FieldGrammar.

(** ** Strings *)

(** [string_view_t::find]: the first position where [what] is. *)
Fixpoint find_sub (what s : bytes) : option nat :=
  if bool_decide (what `prefix_of` s) then Some 0%nat
  else match s with [] => None | _ :: s => S <$> find_sub what s end.

Definition substr (s : bytes) (pos count : nat) : bytes := take count (drop pos s).

(*@ helpers/string_algo.hpp 23-30 starts_with *)
Definition starts_with (where_ what : bytes) : bool :=
  (length what <=? length where_)%nat && bool_decide (substr where_ 0 (length what) = what).

(*@ helpers/string_algo.hpp 32-39 ends_with *)
Definition ends_with (where_ what : bytes) : bool :=
  (length what <=? length where_)%nat && bool_decide (substr where_ (length where_ - length what) (length what) = what).

(** ** Splitting *)

Definition eol : bytes := [13; 10].
Definition last_separator : bytes := str "--" ++ eol.

(** The loop; [fuel] is more than the length of what remains. *)
(*@ helpers/multipart_body.hpp 103-127 split_multipart_body *)
Fixpoint split_loop (fuel : nat) (boundary remaining_body : bytes) (tmp_result : list bytes) : list bytes :=
  match fuel with
  | O => []
  | S fuel =>
      if starts_with remaining_body eol then
        let remaining_body := drop (length eol) remaining_body in
        match find_sub boundary remaining_body with
        | None => []
        | Some boundary_pos =>
            if (boundary_pos <? length eol)%nat ||
               negb (bool_decide (substr remaining_body (boundary_pos - length eol) (length eol) = eol))
            then []
            else
              let tmp_result := tmp_result ++ [substr remaining_body 0 (boundary_pos - length eol)] in
              let remaining_body := drop (boundary_pos + length boundary) remaining_body in
              if starts_with remaining_body last_separator then tmp_result
              else split_loop fuel boundary remaining_body tmp_result
        end
      else []
  end.

(*@ helpers/multipart_body.hpp 70-133 split_multipart_body *)
Definition split_multipart_body (body boundary : bytes) : list bytes :=
  match find_sub boundary body with
  | None => []
  | Some boundary_pos =>
      if negb (boundary_pos =? 0)%nat &&
         ((boundary_pos <? length eol)%nat ||
          negb (bool_decide (substr body (boundary_pos - length eol) (length eol) = eol)))
      then []
      else
        let remaining_body := drop (boundary_pos + length boundary) body in
        if starts_with remaining_body last_separator then []
        else split_loop (S (length body)) boundary remaining_body []
  end.

(** ** Parsing a part *)

(*@ helpers/multipart_body.hpp 143-153 parsed_part_t *)
Record parsed_part_t : Type := mk_part { fields : http_header_fields_t; body : bytes }.

#[global] Instance default_part : Default parsed_part_t := mk_part [] [].
#[global] Instance default_field : Default http_header_field_t := mk_field [] [] field_unspecified.

Definition CR : Z := 13.
Definition LF : Z := 10.

(** It does not move the position. *)
(*@ helpers/multipart_body.hpp 183-193 body_producer_t *)
Definition body_p : producer bytes := fun from => (Ok (drop (current_position from) (EasyParser.m_data from)), from).

Fixpoint field_value_loop (fuel : nat) (from : source_t) (accumulator : bytes) : character_t * source_t * bytes :=
  let '(ch, from) := getch from in
  match fuel with
  | O => (ch, from, accumulator)
  | S fuel =>
      if negb (m_eof ch) && negb (m_ch ch =? CR) && negb (m_ch ch =? LF)
      then field_value_loop fuel from (accumulator ++ [m_ch ch])
      else (ch, from, accumulator)
  end.

(*@ helpers/multipart_body.hpp 207-233 field_value_producer_t *)
Definition field_value_p : producer bytes := fun from =>
  let '(ch, from, accumulator) := field_value_loop (S (length (EasyParser.m_data from))) from [] in
  if m_eof ch then (Err (mk_error (current_position from) unexpected_eof), from)
  else (Ok accumulator, putback from).

Definition set_fields : consumer parsed_part_t http_header_fields_t := field_setter (fun p v => mk_part v (body p)).
Definition set_part_body : consumer parsed_part_t bytes := field_setter (fun p v => mk_part (fields p) v).

Definition part_field_p : producer http_header_field_t :=
  produce http_header_field_t
    [consume_value_clause (lowered token_p) (custom_consumer Headers.set_name); symbol (chr ":"); ows;
     consume_value_clause field_value_p (custom_consumer Headers.set_value); symbol CR; symbol LF].

Definition part_fields_p : producer http_header_fields_t :=
  produce http_header_fields_t
    [repeat 0 N_ [consume_value_clause part_field_p (custom_consumer (fun to v => to ++ [v]))]].

(*@ helpers/multipart_body.hpp 252-281 make_parser *)
Definition part_p : producer parsed_part_t :=
  produce parsed_part_t
    [consume_value_clause part_fields_p set_fields; symbol CR; symbol LF; consume_value_clause body_p set_part_body].

(** The top level clause only runs the producer. *)
(*@ helpers/multipart_body.hpp 313-326 try_parse_part *)
Definition try_parse_part (part : bytes) : result parse_error_t parsed_part_t := (part_p (source part)).1.

(** ** The boundary *)

(*@ helpers/multipart_body.hpp 337-351 handling_result_t *)
Inductive handling_result_t : Type := continue_enumeration | stop_enumeration | terminate_enumeration.

(*@ helpers/multipart_body.hpp 361-384 enumeration_error_t *)
Inductive enumeration_error_t : Type :=
| content_type_field_not_found
| content_type_field_parse_error
| content_type_field_inappropriate_value
| illegal_boundary_value
| no_parts_found
| terminated_by_handler
| unexpected_error.

(*@ helpers/multipart_body.hpp 401-419 boundary_value_checkers::is_bcharnospace *)
Definition is_bcharnospace (ch : Z) : bool :=
  ((chr "0" <=? ch) && (ch <=? chr "9")) ||
  (((chr "A" <=? ch) && (ch <=? chr "Z")) || ((chr "a" <=? ch) && (ch <=? chr "z"))) ||
  (ch =? 39) || existsb (Z.eqb ch) (str "()+_,-./:=?").

(*@ helpers/multipart_body.hpp 421-426 boundary_value_checkers::is_bchar *)
Definition is_bchar (ch : Z) : bool := is_bcharnospace ch || (ch =? chr " ").

(*@ helpers/multipart_body.hpp 455-475 check_boundary_value *)
Definition check_boundary_value (value : bytes) : option enumeration_error_t :=
  if (1 <=? length value)%nat && (length value <=? 70)%nat then
    let last_index := (length value - 1)%nat in
    if negb (forallb is_bchar (take last_index value)) then Some illegal_boundary_value
    else if negb (is_bcharnospace (nth last_index value 0)) then Some illegal_boundary_value
    else None
  else Some illegal_boundary_value.

(** What the helpers look at of a request. *)
Record multipart_request_t : Type := mk_multipart_request { rq_fields : http_header_fields_t; rq_body : bytes }.

Definition content_type : http_field_t := field_id "content_type".

(*@ helpers/multipart_body.hpp 494-553 detect_boundary_for_multipart_body *)
Definition detect_boundary_for_multipart_body (req : multipart_request_t) (expected_media_type : bytes)
    (expected_media_subtype : option bytes) : result enumeration_error_t bytes :=
  content_type ← of_option content_type_field_not_found (Fields.opt_value_of (rq_fields req) (ById content_type));
  match try_parse content_type content_type_p with
  | Err _ => Err content_type_field_parse_error
  | Ok media_type =>
      if negb (is_equal_caseless expected_media_type (m_type media_type)) then Err content_type_field_inappropriate_value
      else if match expected_media_subtype with
              | Some subtype => negb (is_equal_caseless subtype (m_subtype media_type))
              | None => false
              end then Err content_type_field_inappropriate_value
      else
        match find_first (m_parameters media_type) (str "boundary") with
        | Err _ => Err content_type_field_inappropriate_value
        | Ok boundary =>
            match check_boundary_value (view_text boundary) with
            | Some e => Err e
            | None => Ok (str "--" ++ view_text boundary)
            end
        end
  end.

(** ** Enumeration *)

Section Enumeration.
(** The world the handler of the user changes. *)
Context {W : Type} (handler : W -> parsed_part_t -> handling_result_t * W).

(** The loop: the count of parts, and whether the handler has terminated it. *)
(*@ helpers/multipart_body.hpp 567-601 enumerate_parts_of_request_body *)
Fixpoint enumerate_parts_of_request_body (parts : list bytes) (parts_processed : nat) (w : W)
    : result enumeration_error_t nat * W :=
  match parts with
  | [] => (Ok parts_processed, w)
  | current_part :: parts =>
      match try_parse_part current_part with
      | Err _ => (Err unexpected_error, w)
      | Ok part =>
          match handler w part with
          | (continue_enumeration, w) => enumerate_parts_of_request_body parts (S parts_processed) w
          | (stop_enumeration, w) => (Ok (S parts_processed), w)
          | (terminate_enumeration, w) => (Err terminated_by_handler, w)
          end
      end
  end.

(*@ helpers/multipart_body.hpp 683-730 enumerate_parts *)
Definition enumerate_parts (req : multipart_request_t) (expected_media_type : bytes)
    (expected_media_subtype : option bytes) (w : W) : result enumeration_error_t nat * W :=
  match detect_boundary_for_multipart_body req expected_media_type expected_media_subtype with
  | Ok boundary =>
      match split_multipart_body (rq_body req) boundary with
      | [] => (Err no_parts_found, w)
      | parts => enumerate_parts_of_request_body parts 0 w
      end
  | Err e => (Err e, w)
  end.
End Enumeration.

(** ** The search *)

Lemma starts_with_prefix s what : starts_with s what = true <-> what `prefix_of` s.
Proof.
  unfold starts_with, substr. rewrite drop_0, andb_true_iff, bool_decide_eq_true, Nat.leb_le. split.
  - intros [_ E]. exists (drop (length what) s). rewrite <- E at 1. by rewrite take_drop.
  - intros [r ->]. rewrite length_app, take_app_length. split; [lia | done].
Qed.

Lemma starts_with_app what r : starts_with (what ++ r) what = true.
Proof. apply starts_with_prefix. by exists r. Qed.

Lemma find_sub_spec what s i :
  find_sub what s = Some i <->
  what `prefix_of` drop i s /\ (i <= length s)%nat /\ forall j, (j < i)%nat -> ~ what `prefix_of` drop j s.
Proof.
  revert i. induction s as [|c s IH]; intros i; cbn [find_sub]; case_bool_decide as Hw.
  1,3: split; [intros [= <-]; rewrite drop_0; split; [done | split; [lia | intros; lia]]|];
    intros (_ & _ & Hj); destruct i as [|i]; [done | by destruct (Hj 0%nat ltac:(lia))].
  - split; [done|]. intros (Hp & Hi & _). cbn in Hi. by replace i with 0%nat in Hp by lia.
  - rewrite fmap_Some. split.
    + intros (k & (Hp & Hk & Hj)%IH & ->). split; [done|]. split; [cbn; lia|].
      intros [|j] Hjk; [done|]. apply Hj. lia.
    + intros (Hp & Hi & Hj). destruct i as [|i]; [done|]. exists i. split; [|done]. apply IH.
      split; [done|]. split; [cbn in Hi; lia|]. intros j Hji. apply (Hj (S j)). lia.
Qed.

(** [what] is nowhere in [s]. *)
Definition absent (what s : bytes) : Prop := forall x y, s <> x ++ what ++ y.

Lemma absent_find what s : absent what s <-> find_sub what s = None.
Proof.
  split.
  - intros Ha. destruct (find_sub what s) as [i|] eqn:E; [|done]. apply find_sub_spec in E as ([y Hy] & _).
    destruct (Ha (take i s) y). by rewrite <- Hy, take_drop.
  - intros E x y ->. induction x as [|c x IH]; cbn in E.
    + destruct (what ++ y) eqn:Ey; cbn in E; rewrite bool_decide_eq_true_2 in E by (rewrite <- Ey; by exists y); done.
    + case_bool_decide; [done|]. by apply fmap_None in E.
Qed.

#[global] Instance absent_decision what s : Decision (absent what s).
Proof. refine (cast_if (decide (find_sub what s = None))); abstract (by rewrite absent_find). Defined.

Section Boundary.
Context (boundary : bytes) (Hn : boundary <> []) (H13 : 13 ∉ boundary) (H10 : 10 ∉ boundary).

(** The boundary is never over a line break. *)
Lemma boundary_over_eol p r j : absent boundary p -> (j < length p + 2)%nat ->
  ~ boundary `prefix_of` drop j (p ++ eol ++ r).
Proof.
  intros Ha Hj [k Hk]. destruct (decide (j < length p)%nat) as [Hlt|Hge].
  - rewrite drop_app_le in Hk by lia. apply app_eq_inv in Hk as [(l & E & Hl)|(l & E & Hl)].
    + by apply (Ha (take j p) l); rewrite <- E, take_drop.
    + destruct l as [|c l]; [|injection Hl as <- _; apply H13; rewrite E; apply elem_of_app; right; constructor].
      rewrite app_nil_r in E. apply (Ha (take j p) []). by rewrite app_nil_r, E, take_drop.
  - rewrite drop_app_ge in Hk by lia. destruct boundary as [|c b]; [done|].
    assert (j - length p = 0 \/ j - length p = 1)%nat as [E|E] by lia; rewrite E in Hk; cbn in Hk;
      injection Hk as <- _; [apply H13 | apply H10]; constructor.
Qed.

Lemma find_after_eol p r : absent boundary p ->
  find_sub boundary (p ++ eol ++ boundary ++ r) = Some (length p + 2)%nat.
Proof.
  intros Ha. apply find_sub_spec. split; [|split].
  - exists r. rewrite app_assoc. by rewrite drop_app_length' by (by rewrite length_app).
  - rewrite !length_app. cbn. lia.
  - intros j Hj. by apply boundary_over_eol.
Qed.

Lemma find_at_start r : find_sub boundary (boundary ++ r) = Some 0%nat.
Proof. apply find_sub_spec. rewrite drop_0. split; [by exists r|]. split; [lia | intros; lia]. Qed.

(** What is before a found boundary that is behind a line break. *)
Lemma found_after_eol s i : find_sub boundary s = Some i -> (2 <= i)%nat -> substr s (i - 2) 2 = eol ->
  exists p r, s = p ++ eol ++ boundary ++ r /\ absent boundary p /\ i = (length p + 2)%nat.
Proof.
  intros (Hp & Hi & Hj)%find_sub_spec H2 He. destruct Hp as [r Hr].
  assert (Hl : length (take (i - 2) s) = (i - 2)%nat) by (rewrite length_take; lia).
  exists (take (i - 2) s), r. split; [|split; [|lia]].
  - rewrite <- He at 1. unfold substr. rewrite <- Hr.
    replace (drop i s) with (drop 2 (drop (i - 2) s)) by (rewrite drop_drop; f_equal; lia).
    by rewrite !take_drop.
  - intros x y E. assert (length x < i)%nat by (apply (f_equal length) in E; rewrite Hl, !length_app in E; lia).
    apply (Hj (length x)); [done|]. exists (y ++ drop (i - 2) s).
    rewrite <- (take_drop (i - 2) s) at 1. rewrite E, <- !app_assoc. apply drop_app_length.
Qed.
End Boundary.

(** ** The split *)

(** The parts between the first boundary and the last one. *)
Definition parts_text (boundary : bytes) (parts : list bytes) : bytes :=
  mjoin ((fun p => eol ++ p ++ eol ++ boundary) <$> parts).

(** A multipart body; there is a line break before the first boundary, if
    there is anything. *)
Definition multipart_text (boundary : bytes) (prologue : option bytes) (parts : list bytes) (epilogue : bytes) : bytes :=
  match prologue with Some p => p ++ eol | None => [] end ++ boundary ++ parts_text boundary parts ++
    last_separator ++ epilogue.

Definition well_separated (boundary : bytes) (prologue : option bytes) (parts : list bytes) : Prop :=
  match prologue with Some p => absent boundary p | None => True end /\ Forall (absent boundary) parts.

Lemma last_is_not_eol r : starts_with (eol ++ r) last_separator = false.
Proof. apply not_true_is_false. intros [k Hk]%starts_with_prefix. done. Qed.

Lemma parts_text_cons boundary p parts r :
  parts_text boundary (p :: parts) ++ r = eol ++ p ++ eol ++ boundary ++ parts_text boundary parts ++ r.
Proof. unfold parts_text. cbn [fmap list_fmap mjoin list_join]. by rewrite <- !app_assoc. Qed.

Section Split.
Context (boundary : bytes) (Hn : boundary <> []) (H13 : 13 ∉ boundary) (H10 : 10 ∉ boundary).

Lemma split_loop_reads epilogue parts : forall fuel acc,
  Forall (absent boundary) parts -> parts <> [] ->
  (length (parts_text boundary parts ++ last_separator ++ epilogue) < fuel)%nat ->
  split_loop fuel boundary (parts_text boundary parts ++ last_separator ++ epilogue) acc = acc ++ parts.
Proof.
  induction parts as [|p parts IH]; intros [|fuel] acc Ha Hp Hf; [done..|lia|].
  apply Forall_cons in Ha as [Ha Hps]. rewrite parts_text_cons in *. cbn [split_loop].
  rewrite starts_with_app, drop_app_length, find_after_eol by done.
  change (length eol) with 2%nat in *. destruct (Nat.ltb_spec (length p + 2) 2) as [|_]; [lia|].
  replace (length p + 2 - 2)%nat with (length p) by lia. unfold substr.
  rewrite drop_app_length, (take_app_length' eol _ 2) by done. rewrite bool_decide_eq_true_2 by done. cbn [negb orb].
  rewrite drop_0, take_app_length. rewrite app_assoc, app_assoc, drop_app_length' by (rewrite !length_app; cbn; lia).
  destruct parts as [|p' parts].
  - change (parts_text boundary []) with (@nil Z). cbn [app]. by rewrite starts_with_app.
  - rewrite parts_text_cons at 1. rewrite last_is_not_eol, IH; [by rewrite <- app_assoc|done|done|].
    rewrite !length_app in Hf. rewrite !length_app. cbn in Hf |- *. lia.
Qed.

Lemma split_loop_sound fuel : forall s acc res, split_loop fuel boundary s acc = res -> res <> [] ->
  exists parts epilogue, parts <> [] /\ res = acc ++ parts /\ Forall (absent boundary) parts /\
    s = parts_text boundary parts ++ last_separator ++ epilogue.
Proof.
  induction fuel as [|fuel IH]; intros s acc res E Hr; cbn [split_loop] in E; [congruence|].
  destruct (starts_with s eol) eqn:Es; [|congruence]. apply starts_with_prefix in Es as [s' ->].
  rewrite drop_app_length in E. destruct (find_sub boundary s') as [i|] eqn:Ei; [|congruence].
  change (length eol) with 2%nat in E. destruct (Nat.ltb_spec i 2) as [|H2]; [cbn in E; congruence|].
  case_bool_decide as He; [|cbn in E; congruence]. cbn [negb orb] in E.
  destruct (found_after_eol boundary s' i Ei H2 He) as (p & r & -> & Ha & ->).
  replace (length p + 2 - 2)%nat with (length p) in E by lia. unfold substr in E. rewrite drop_0, take_app_length in E.
  rewrite app_assoc, app_assoc, drop_app_length' in E by (rewrite !length_app; cbn; lia).
  destruct (starts_with r last_separator) eqn:El.
  - apply starts_with_prefix in El as [epi ->]. exists [p], epi. rewrite parts_text_cons. subst res. split_and!; [done..| |done].
    by constructor.
  - apply IH in E as (parts & epi & Hp & -> & Hps & ->); [|done]. exists (p :: parts), epi.
    rewrite parts_text_cons. split_and!; [done | by rewrite <- app_assoc | by constructor | done].
Qed.

Lemma split_start prologue r : match prologue with Some p => absent boundary p | None => True end ->
  exists i, find_sub boundary (match prologue with Some p => p ++ eol | None => [] end ++ boundary ++ r) = Some i /\
    (i = length (match prologue with Some p => p ++ eol | None => [] end)) /\
    negb (i =? 0)%nat && ((i <? 2)%nat ||
      negb (bool_decide (substr (match prologue with Some p => p ++ eol | None => [] end ++ boundary ++ r) (i - 2) 2 = eol))) = false.
Proof.
  intros Hp. destruct prologue as [p|].
  - exists (length p + 2)%nat. rewrite <- app_assoc, find_after_eol by done. split; [done|].
    split; [by rewrite length_app|]. apply andb_false_iff. right.
    destruct (Nat.ltb_spec (length p + 2) 2) as [|_]; [lia|]. replace (length p + 2 - 2)%nat with (length p) by lia.
    unfold substr. rewrite drop_app_length, (take_app_length' eol _ 2) by done. by rewrite bool_decide_eq_true_2.
  - exists 0%nat. by rewrite app_nil_l, find_at_start.
Qed.

Lemma split_sound body parts : parts <> [] -> split_multipart_body body boundary = parts ->
  exists prologue epilogue, well_separated boundary prologue parts /\
    body = multipart_text boundary prologue parts epilogue.
Proof.
  intros Hp E. unfold split_multipart_body, multipart_text in *. change (length eol) with 2%nat in *.
  destruct (find_sub boundary body) as [i|] eqn:Ei; [|congruence].
  destruct (_ && _) eqn:Ec; [congruence|]. destruct (starts_with _ last_separator) eqn:El; [congruence|].
  apply split_loop_sound in E as (parts' & epi & _ & -> & Hps & E); [|done]. rewrite app_nil_l.
  destruct (Nat.eqb_spec i 0) as [->|Hi].
  - exists None, epi. split; [done|]. apply find_sub_spec in Ei as ([r Hr] & _). rewrite drop_0 in Hr.
    rewrite Hr, app_nil_l, <- E, Nat.add_0_l, Hr. by rewrite drop_app_length.
  - cbn [negb andb] in Ec. apply orb_false_iff in Ec as [H2%Nat.ltb_ge He].
    apply negb_false_iff, bool_decide_eq_true in He.
    destruct (found_after_eol boundary body i Ei H2 He) as (p & r & -> & Ha & ->). exists (Some p), epi.
    split; [done|]. rewrite <- E. rewrite <- !app_assoc. do 3 f_equal.
    rewrite app_assoc, app_assoc, drop_app_length' by (rewrite !length_app; cbn; lia). done.
Qed.

Lemma split_reads prologue parts epilogue : parts <> [] -> well_separated boundary prologue parts ->
  split_multipart_body (multipart_text boundary prologue parts epilogue) boundary = parts.
Proof.
  intros Hp [Hpro Hps]. unfold split_multipart_body, multipart_text. change (length eol) with 2%nat.
  destruct (split_start prologue (parts_text boundary parts ++ last_separator ++ epilogue) Hpro) as (i & -> & -> & ->).
  rewrite app_assoc, drop_app_length' by (by rewrite length_app).
  destruct parts as [|p parts]; [done|]. rewrite parts_text_cons at 1. rewrite last_is_not_eol.
  rewrite split_loop_reads; [done|done|done|]. rewrite !length_app. cbn. lia.
Qed.

End Split.

(** Splitting, by a boundary without line breaks in it: the
    parts that [split_multipart_body] returns, when it returns any, are those of
    the one way to write the body as something that ends with a line break, or
    nothing, then the boundary, then the parts, each between line breaks and
    followed by the boundary, then two hyphens and a line break, then anything - so that
    the boundary is neither in what precedes it nor in a part. Any other body
    has no parts. *)
Theorem split_exact boundary body parts
  (Hn : boundary <> []) (H13 : 13 ∉ boundary) (H10 : 10 ∉ boundary) (Hp : parts <> []) :
  split_multipart_body body boundary = parts <->
  exists prologue epilogue, well_separated boundary prologue parts /\
    body = multipart_text boundary prologue parts epilogue.
Proof.
  split; [by apply split_sound|]. intros (prologue & epilogue & Hs & ->). by apply split_reads.
Qed.

(** Two parts, a line break in one, a prologue and an epilogue. *)
Lemma split_exact_witness :
  split_multipart_body (str "x" ++ eol ++ str "--B" ++ eol ++ str "one" ++ eol ++ str "more" ++ eol ++ str "--B" ++
    eol ++ eol ++ str "--B--" ++ eol ++ str "y") (str "--B") = [str "one" ++ eol ++ str "more"; []] /\
  exists prologue epilogue, well_separated (str "--B") prologue [str "one" ++ eol ++ str "more"; []] /\
    str "x" ++ eol ++ str "--B" ++ eol ++ str "one" ++ eol ++ str "more" ++ eol ++ str "--B" ++
      eol ++ eol ++ str "--B--" ++ eol ++ str "y" = multipart_text (str "--B") prologue [str "one" ++ eol ++ str "more"; []] epilogue.
Proof.
  split; [vm_compute; reflexivity|].
  apply split_exact; [done|exact (bool_decide_unpack (13 ∉ str "--B") I)|exact (bool_decide_unpack (10 ∉ str "--B") I)|done|vm_compute; reflexivity].
Defined.

(** ** The text of a part *)

Definition is_line_break (c : Z) : bool := (c =? CR) || (c =? LF).
Definition line_text (v : bytes) : Prop := Forall (fun c => is_line_break c = false) v.

(** token ":" OWS value CR LF *)
Definition field_text (x : bytes) (f : http_header_field_t) : Prop :=
  exists n w v, x = n ++ [58] ++ w ++ v ++ eol /\ token n /\ spaces w /\ stops is_space v /\ line_text v /\
    f = Headers.set_value (Headers.set_name default_value (to_lower n)) v.

(** *field CR LF body *)
Definition part_text (x : bytes) (p : parsed_part_t) : Prop :=
  exists l, x = mjoin l.*1 ++ eol ++ body p /\ Forall (fun xf => field_text xf.1 xf.2) l /\
    fields p = l.*2 /\ (N.of_nat (length l) < N_)%N.

Definition at_line_break (r : bytes) : Prop := exists c r', r = c :: r' /\ is_line_break c = true.

Lemma field_value_loop_reads v : line_text v -> forall fuel s c r acc,
  remaining s = v ++ c :: r -> is_line_break c = true -> (length v < fuel)%nat ->
  field_value_loop fuel s acc = (mk_char false c, advance (S (length v)) s, acc ++ v).
Proof.
  induction 1 as [|a v Ha Hv IH]; intros [|fuel] s c r acc Hs Hc Hf; [cbn in Hf; lia| |cbn in Hf; lia|];
    cbn [field_value_loop].
  - rewrite (getch_cons s c r) by done. unfold is_line_break in Hc. cbn [m_eof m_ch negb andb].
    rewrite <- negb_orb, Hc. cbn. by rewrite app_nil_r.
  - rewrite (getch_cons s a (v ++ c :: r)) by done. unfold is_line_break in Ha. cbn [m_eof m_ch negb andb].
    rewrite <- negb_orb, Ha. cbn [negb]. rewrite (IH fuel (advance 1 s) c r);
      [|by apply (remaining_advance s [a]) | done | cbn in Hf; lia].
    rewrite advance_add, <- app_assoc. cbn [length]. done.
Qed.

Lemma reads_field_value v : line_text v -> reads field_value_p at_line_break v v.
Proof.
  intros Hv s r Hs E (c & r' & -> & Hc). unfold field_value_p.
  rewrite (field_value_loop_reads v Hv _ s c r') by (done || by eapply (fuel_enough s v)).
  cbn [m_eof]. replace (S (length v)) with (length v + 1)%nat by lia.
  by rewrite <- advance_add, putback_advance.
Qed.

Lemma reads_part_field x f : field_text x f -> reads part_field_p anything x f.
Proof.
  intros (n & w & v & -> & Hn & Hw & Hsp & Hv & ->). eapply reads_make.
  - apply (creads_cons _ _ (stops is_token_char) _ _ _ (fun t => Headers.set_name t (to_lower n)));
      [by apply creads_consume, reads_transformed, reads_token| |by follows].
    apply (creads_cons _ _ anything _ _ _ (fun t => t)); [apply creads_symbol| |done].
    apply (creads_cons ows _ (stops is_space) _ _ _ (fun t => t)); [by apply creads_ows| |].
    + apply (creads_cons _ _ at_line_break _ _ _ (fun t => Headers.set_value t v));
        [by apply creads_consume, reads_field_value| |].
      * apply (creads_cons _ _ anything _ [CR] [LF] (fun t => t)); [apply creads_symbol| |done].
        apply creads_last, creads_symbol.
      * intros r (z & -> & _). by exists CR, (LF :: z).
    + intros r (z & -> & _). destruct v; [done | by cbn in *].
  - done.
Qed.

Lemma fails_part_field : fails part_field_p (stops is_token_char).
Proof.
  apply fails_produce, cfails_to_loosely, cfails_head, cfails_consume, fails_transformed, fails_token.
Qed.

Lemma reads_part_fields l : Forall (fun xf => field_text xf.1 xf.2) l -> (N.of_nat (length l) < N_)%N ->
  reads part_fields_p (stops is_token_char) (mjoin l.*1) l.*2.
Proof.
  intros Hl Hn. unfold part_fields_p. eapply (reads_make _ _ _ (fun t => t ++ l.*2)); [|done].
  apply creads_last, (creads_many part_field_p); [|apply fails_part_field | lia].
  intros pre x v post ->. apply Forall_app in Hl as [_ [Hx _]%Forall_cons].
  eapply reads_weaken; [by apply reads_part_field | done].
Qed.

Lemma creads_body b : creads (consume_value_clause body_p set_part_body) (eq b) [] (fun p => mk_part (fields p) b).
Proof. intros s r t Hs E <-. unfold consume_value_clause, body_p. rewrite advance_0. cbn in E. by rewrite <- E. Qed.

Lemma reads_part x p : part_text x p -> forall s, valid s -> remaining s = x -> (part_p s).1 = Ok p.
Proof.
  intros (l & -> & Hl & Hf & Hn) s Hs E.
  assert (Hp : reads part_p (eq (body p)) (mjoin l.*1 ++ [CR] ++ [LF]) p).
  { eapply reads_make.
    - apply (creads_cons _ _ (stops is_token_char) _ _ _ (fun t => set_fields t l.*2));
        [by apply creads_consume, reads_part_fields| |by follows].
      apply (creads_cons _ _ anything _ [CR] [LF] (fun t => t)); [apply creads_symbol| |done].
      apply (creads_cons _ _ anything _ [LF] [] (fun t => t)); [apply creads_symbol| |done].
      apply creads_last, creads_body.
    - cbn. rewrite <- Hf. by destruct p. }
  rewrite (Hp s (body p)); [done|done| |done]. rewrite E. by rewrite <- app_assoc.
Qed.

Lemma try_parse_part_reads x p : part_text x p -> try_parse_part x = Ok p.
Proof. intros Hp. eapply reads_part; [done | apply valid_source | apply remaining_source]. Qed.

(** ** The boundary *)

(** boundary := 0*69<bchars> bcharsnospace *)
Definition boundary_text (v : bytes) : Prop :=
  exists x c, v = x ++ [c] /\ (length x <= 69)%nat /\ Forall (fun c => is_bchar c = true) x /\ is_bcharnospace c = true.

Lemma check_boundary_exact v : check_boundary_value v = None <-> boundary_text v.
Proof.
  unfold check_boundary_value. split.
  - intros E. destruct (_ && _) eqn:El; [|done]. apply andb_true_iff in El as [H1%Nat.leb_le H2%Nat.leb_le].
    destruct (forallb _ _) eqn:Ex; [|done]. cbn [negb] in E. destruct (is_bcharnospace _) eqn:Ec; [|done].
    destruct v as [|c x _] using rev_ind; [cbn in H1; lia|]. rewrite length_app in *. cbn [length] in *.
    replace (length x + 1 - 1)%nat with (length x) in * by lia. rewrite take_app_length in Ex. rewrite nth_middle in Ec.
    exists x, c. split_and!; [done|lia| |done]. apply Forall_forall. intros a Ha. rewrite forallb_forall in Ex.
    by apply Ex, list_elem_of_In.
  - intros (x & c & -> & Hl & Hx & Hc). rewrite length_app. cbn [length].
    destruct (Nat.leb_spec 1 (length x + 1)) as [_|]; [|lia]. destruct (Nat.leb_spec (length x + 1) 70) as [_|]; [|lia].
    cbn [andb]. replace (length x + 1 - 1)%nat with (length x) by lia. rewrite take_app_length, nth_middle, Hc.
    assert (E : forallb is_bchar x = true); [|by rewrite E].
    apply forallb_forall. intros a Ha%list_elem_of_In. by eapply Forall_forall in Hx.
Qed.

Lemma boundary_chars v c : boundary_text v -> c ∈ str "--" ++ v -> is_bchar c = true.
Proof.
  intros (x & a & -> & _ & Hx & Ha) [Hc|[Hc|Hc]%elem_of_app]%elem_of_app.
  - by apply list_elem_of_In in Hc as [<-|[<-|[]]].
  - by eapply Forall_forall in Hx.
  - apply list_elem_of_singleton in Hc as ->. unfold is_bchar. by rewrite Ha.
Qed.

(** ** The whole enumeration *)

Lemma find_first_app before after n v what :
  Forall (fun p => is_equal_caseless p.1 what = false) before -> is_equal_caseless n what = true ->
  exists w, find_first (before ++ (n, v) :: after) what = Ok w /\ view_text w = v.
Proof.
  intros Hb Hn. unfold find_first.
  assert (E : list_find (fun pair => is_equal_caseless pair.1 what = true) (before ++ (n, v) :: after) =
    Some (length before, (n, v))); [|by rewrite E; eexists].
  apply list_find_Some. split; [by apply list_lookup_middle|]. split; [done|].
  intros j y Hj Hlt. rewrite lookup_app_l in Hj by done. eapply Forall_lookup_1 in Hj; [|done]. cbn in Hj. by rewrite Hj.
Qed.

(** The handler gets the parts in their order, until it wants no more; the
    count of the parts it got, unless it has terminated the enumeration. *)
Fixpoint deliver {P W} (handler : W -> P -> handling_result_t * W) (parts : list P) (handled : nat) (w : W)
    : option nat * W :=
  match parts with
  | [] => (Some handled, w)
  | p :: parts =>
      match handler w p with
      | (continue_enumeration, w) => deliver handler parts (S handled) w
      | (stop_enumeration, w) => (Some (S handled), w)
      | (terminate_enumeration, w) => (None, w)
      end
  end.

(** What the caller gets of it. *)
Definition delivered {E W} (terminated : E) (d : option nat * W) : result E nat * W := (of_option terminated d.1, d.2).

Section Delivery.
Context {W : Type} (handler : W -> parsed_part_t -> handling_result_t * W).

Lemma enumerate_delivers xs parts : Forall2 part_text xs parts -> forall handled w,
  enumerate_parts_of_request_body handler xs handled w = delivered terminated_by_handler (deliver handler parts handled w).
Proof.
  induction 1 as [|x p xs parts Hx _ IH]; intros handled w; cbn; [done|].
  rewrite (try_parse_part_reads _ _ Hx). destruct (handler w p) as [[] w']; [apply IH | done | done].
Qed.

(** The Content-Type of a multipart request: the parameter [boundary] is the
    first one of that name. *)
Definition multipart_content_type (value ty sub boundary : bytes) : Prop :=
  exists l before n after, value = ty ++ [47] ++ sub ++ mjoin l.*1 /\ token ty /\ token sub /\
    Forall (fun xp => param_text xp.1 xp.2) l /\ (N.of_nat (length l) < N_)%N /\
    l.*2 = before ++ (n, boundary) :: after /\ is_equal_caseless n (str "boundary") = true /\
    Forall (fun p => is_equal_caseless p.1 (str "boundary") = false) before.

Lemma detect_boundary req value ty sub boundary media_type media_subtype :
  Fields.opt_value_of (rq_fields req) (ById content_type) = Some value ->
  multipart_content_type value ty sub boundary -> boundary_text boundary ->
  is_equal_caseless media_type (to_lower ty) = true ->
  (forall s, media_subtype = Some s -> is_equal_caseless s (to_lower sub) = true) ->
  detect_boundary_for_multipart_body req media_type media_subtype = Ok (str "--" ++ boundary).
Proof.
  intros Ev (l & before & n & after & -> & Ht & Hs & Hl & Hn & El & Eb & Hb) Hbd Hm Hms.
  unfold detect_boundary_for_multipart_body. rewrite Ev. cbn [of_option mbind result_bind m_type m_subtype m_parameters].
  rewrite content_type_roundtrip by done. cbn [m_type m_subtype m_parameters]. rewrite Hm. cbn [negb].
  assert (E : match media_subtype with Some s => negb (is_equal_caseless s (to_lower sub)) | None => false end = false).
  { destruct media_subtype as [s|]; [|done]. by rewrite (Hms s). }
  rewrite E, El. destruct (find_first_app before after n boundary (str "boundary")) as (w & -> & ->); [done..|].
  by apply check_boundary_exact in Hbd as ->.
Qed.

(** A request with these parts, for who expects this media type. *)
Definition multipart_request (req : multipart_request_t) (media_type : bytes) (media_subtype : option bytes)
    (parts : list parsed_part_t) : Prop :=
  exists value ty sub boundary prologue epilogue xs,
    Fields.opt_value_of (rq_fields req) (ById content_type) = Some value /\
    multipart_content_type value ty sub boundary /\ boundary_text boundary /\
    is_equal_caseless media_type (to_lower ty) = true /\
    (forall s, media_subtype = Some s -> is_equal_caseless s (to_lower sub) = true) /\
    rq_body req = multipart_text (str "--" ++ boundary) prologue xs epilogue /\
    well_separated (str "--" ++ boundary) prologue xs /\ Forall2 part_text xs parts.

Lemma enumerate_printed req media_type media_subtype parts w :
  multipart_request req media_type media_subtype parts -> parts <> [] ->
  enumerate_parts handler req media_type media_subtype w = delivered terminated_by_handler (deliver handler parts 0 w).
Proof.
  intros (value & ty & sub & boundary & prologue & epilogue & xs & Hv & Hc & Hb & Hm & Hms & Hbody & Hs & Hx) Hp.
  unfold enumerate_parts. rewrite (detect_boundary req value ty sub boundary) by done.
  assert (H13 : 13 ∉ str "--" ++ boundary) by (by intros H%(boundary_chars _ _ Hb)).
  assert (H10 : 10 ∉ str "--" ++ boundary) by (by intros H%(boundary_chars _ _ Hb)).
  rewrite Hbody, split_reads by (done || by destruct Hx). rewrite <- (enumerate_delivers xs) by done. by destruct Hx.
Qed.
End Delivery.
