(* ===== verification/FileUpload.v ===== *)
(** * File upload

    [restinio/helpers/file_upload.hpp]: the parts of a multipart body that hold
    files, told by their Content-Disposition. *)

From S2P Require Import Prelude Headers EasyParser EasyRules HttpFields HttpGrammar FieldParsers FieldGrammar Multipart.

(** [file_upload::enumeration_error_t]; the constructors have a prefix of
    their own. *)
(*@ helpers/file_upload.hpp 39-71 enumeration_error_t *)
Inductive upload_error_t : Type :=
| up_content_type_field_not_found
| up_content_type_field_parse_error
| up_content_type_field_inappropriate_value
| up_illegal_boundary_value
| up_content_disposition_field_parse_error
| up_content_disposition_field_inappropriate_value
| up_no_parts_found
| up_no_files_found
| up_terminated_by_handler
| up_unexpected_error.

#[global] Instance upload_error_eq_dec : EqDecision upload_error_t.
Proof. solve_decision. Defined.

(*@ helpers/file_upload.hpp 82-118 translate_enumeration_error *)
Definition translate_enumeration_error (original : enumeration_error_t) : upload_error_t :=
  match original with
  | content_type_field_not_found => up_content_type_field_not_found
  | content_type_field_parse_error => up_content_type_field_parse_error
  | content_type_field_inappropriate_value => up_content_type_field_inappropriate_value
  | illegal_boundary_value => up_illegal_boundary_value
  | no_parts_found => up_no_parts_found
  | terminated_by_handler => up_terminated_by_handler
  | unexpected_error => up_unexpected_error
  end.

(*@ helpers/file_upload.hpp 146-176 part_description_t *)
Record part_description_t : Type := mk_description {
  pd_fields : http_header_fields_t;
  pd_body : bytes;
  pd_name : bytes;
  pd_filename_star : option bytes;
  pd_filename : option bytes }.

Definition expected_to_optional (expected : result not_found_t string_view_t) : option bytes :=
  match expected with Ok v => Some (view_text v) | Err _ => None end.

Definition content_disposition : http_field_t := field_id "content_disposition".

(*@ helpers/file_upload.hpp 220-271 analyze_part *)
Definition analyze_part (parsed_part : parsed_part_t) : result upload_error_t part_description_t :=
  match Fields.opt_value_of (fields parsed_part) (ById content_disposition) with
  | None => Err up_no_files_found
  | Some disposition_field =>
      match try_parse disposition_field content_disposition_p with
      | Err _ => Err up_content_disposition_field_parse_error
      | Ok (value, parameters) =>
          if negb (bool_decide (str "form-data" = value)) then Err up_no_files_found
          else
            match find_first parameters (str "name") with
            | Err _ => Err up_content_disposition_field_inappropriate_value
            | Ok name =>
                let filename_star := expected_to_optional (find_first parameters (str "filename*")) in
                let filename := expected_to_optional (find_first parameters (str "filename")) in
                match filename_star, filename with
                | None, None => Err up_no_files_found
                | _, _ => Ok (mk_description (fields parsed_part) (body parsed_part) (view_text name) filename_star filename)
                end
            end
      end
  end.

Section Upload.
Context {W : Type} (handler : W -> part_description_t -> handling_result_t * W).

(** The lambda, with what it captures by reference beside the world of the
    handler: [files_found] and [error]. *)
(*@ helpers/file_upload.hpp 380-401 enumerate_parts_with_files *)
Definition file_handler (state : W * nat * option upload_error_t) (part : parsed_part_t)
    : handling_result_t * (W * nat * option upload_error_t) :=
  let '(w, files_found, error) := state in
  match analyze_part part with
  | Ok part_description =>
      let files_found := S files_found in
      let '(result, w) := handler w part_description in
      (result, (w, files_found, error))
  | Err e =>
      if bool_decide (up_no_files_found = e) then (continue_enumeration, (w, files_found, error))
      else (terminate_enumeration, (w, files_found, Some e))
  end.

(*@ helpers/file_upload.hpp 357-412 enumerate_parts_with_files *)
Definition enumerate_parts_with_files (req : multipart_request_t) (expected_media_type expected_media_subtype : bytes)
    (w : W) : result upload_error_t nat * W :=
  let '(res, (w, files_found, error)) :=
    enumerate_parts file_handler req expected_media_type (Some expected_media_subtype) (w, 0%nat, None) in
  match error with
  | Some e => (Err e, w)
  | None => match res with Err e => (Err (translate_enumeration_error e), w) | Ok _ => (Ok files_found, w) end
  end.
End Upload.

(** ** The text of Content-Disposition *)

(** charset "'" [ language ] "'" *( attr-char / pct-encoded ) *)
Definition ext_char (x : bytes) : Prop :=
  (exists c, x = [c] /\ is_attr_char c = true) \/
  exists h k, x = [37; h; k] /\ is_hexdigit h = true /\ is_hexdigit k = true.

Definition ext_text (y : bytes) : Prop :=
  (N.of_nat (length y) < N_)%N /\
  exists cs lang l, y = cs ++ [39] ++ lang ++ [39] ++ mjoin l /\ cs <> [] /\
    Forall (fun c => is_mime_charsetc c = true) cs /\ Forall (fun c => is_language c = true) lang /\ Forall ext_char l.

(** OWS ";" OWS token "=" value; a name with a star at its end has an
    extended value, which is kept as it is. *)
Definition disposition_text (x : bytes) (p : bytes * bytes) : Prop :=
  exists w1 w2 n y, x = w1 ++ [59] ++ w2 ++ n ++ [61] ++ y /\ spaces w1 /\ spaces w2 /\ token n /\ p.1 = to_lower n /\
    if decide (last n = Some (chr "*")) then ext_text y /\ p.2 = y else value_text y p.2.

Lemma reads_regular n : token n -> last n <> Some (chr "*") -> reads regular_token_p (stops is_token_char) n n.
Proof.
  intros Hn Hl s r Hs E Hr. unfold regular_token_p. rewrite (reads_token n Hn s r Hs E Hr).
  by rewrite bool_decide_eq_false_2, end_consumer_commit.
Qed.
Lemma fails_regular n F : token n -> last n = Some (chr "*") -> (forall r, F r -> stops is_token_char r) ->
  fails regular_token_p (followed n F).
Proof.
  intros Hn Hl HF s Hs (r & E & Hr). unfold regular_token_p. rewrite (reads_token n Hn s r Hs E) by auto.
  rewrite bool_decide_eq_true_2 by done. do 2 eexists. split; [done|]. split; [by rewrite end_consumer_back | done].
Qed.
Lemma reads_ext n : token n -> last n = Some (chr "*") -> reads ext_token_p (stops is_token_char) n n.
Proof.
  intros Hn Hl s r Hs E Hr. unfold ext_token_p. rewrite (reads_token n Hn s r Hs E Hr).
  by rewrite bool_decide_eq_true_2, end_consumer_commit.
Qed.

Definition ext_char_clause : clause bytes :=
  alternatives
    [consume_value_clause (symbol_producer is_attr_char) to_container;
     consume_value_clause pct_encoded_symbols_p pct_encoded_symbols_consumer].

Definition after_ext (r : bytes) : Prop := stops (fun c => is_attr_char c || (c =? 37)) r.

Lemma reads_pct h k : is_hexdigit h = true -> is_hexdigit k = true ->
  reads pct_encoded_symbols_p anything [37; h; k] [37; h; k].
Proof.
  intros Hh Hk. eapply reads_make.
  - eapply (creads_cons _ _ anything _ [37] [h; k]); [by eapply creads_consume, reads_symbol| |done].
    eapply (creads_cons _ _ anything _ [h] [k]); [by eapply creads_consume, reads_symbol| |done].
    apply creads_last. by eapply creads_consume, reads_symbol.
  - done.
Qed.

Lemma cfails_ext_char : cfails (all_of [ext_char_clause]) after_ext.
Proof.
  apply cfails_head, cfails_alternatives. repeat constructor; apply cfails_to_loosely, cfails_consume.
  - eapply fails_weaken; [apply fails_symbol|]. intros [|c r]; [done|]. unfold after_ext. cbn. by intros [? _]%orb_false_iff.
  - apply fails_produce, cfails_head_loosely, cfails_to_loosely, cfails_consume.
    eapply fails_weaken; [apply fails_symbol|]. intros [|c r]; [done|]. unfold after_ext. cbn. rewrite Z.eqb_sym. by intros [_ ?]%orb_false_iff.
Qed.

Lemma creads_ext_char x : ext_char x -> creads (all_of [ext_char_clause]) anything x (fun t => t ++ x).
Proof.
  intros [(c & -> & Hc)|(h & k & -> & Hh & Hk)]; apply creads_last.
  - eapply creads_ext; [by eapply creads_first, creads_consume, reads_symbol | done].
  - apply creads_next.
    + apply cfails_to_loosely, cfails_consume. eapply fails_weaken; [apply fails_symbol|]. by intros ? (? & -> & _).
    + eapply creads_ext; [by eapply creads_first, creads_consume, reads_pct | done].
Qed.

Lemma apply_pieces l t : apply_all ((fun x => (x, fun t => t ++ x)) <$> l) t = t ++ mjoin l.
Proof.
  revert t. induction l as [|x l IH]; intros t; [by rewrite app_nil_r|].
  change (apply_all ((fun x => (x, fun t => t ++ x)) <$> l) (t ++ x) = t ++ x ++ mjoin l). by rewrite IH, <- app_assoc.
Qed.

Lemma ext_chars_fit l : Forall ext_char l -> (length l <= length (mjoin l))%nat.
Proof.
  induction 1 as [|x l Hx _ IH]; [done|]. change (mjoin (x :: l)) with (x ++ mjoin l). rewrite length_app.
  destruct Hx as [(c & -> & _)|(h & k & -> & _)]; cbn [length]; lia.
Qed.

Lemma creads_ext_chars l : Forall ext_char l -> (N.of_nat (length (mjoin l)) < N_)%N ->
  creads (repeat 0 N_ [ext_char_clause]) after_ext (mjoin l) (fun t => t ++ mjoin l).
Proof.
  intros Hl Hn. pose proof (ext_chars_fit l Hl). eapply creads_ext; [|intros; apply apply_pieces].
  assert (E : mjoin l = texts ((fun x => (x, fun t => t ++ x)) <$> l)).
  { unfold texts. rewrite <- list_fmap_compose. by rewrite list_fmap_id. }
  rewrite E. apply creads_repeat.
  - intros pre x f post Ep. apply fmap_app_inv in Ep as (l1 & l2 & -> & E2 & ->).
    destruct l2 as [|y l2]; [done|]. injection E2 as -> -> _. apply Forall_app in Hl as [_ [Hy _]%Forall_cons].
    eapply creads_weaken; [by apply creads_ext_char | done].
  - right. apply cfails_ext_char.
  - rewrite length_fmap. lia.
Qed.

Lemma ext_char_is_token c : is_attr_char c || (c =? 37) = true -> is_token_char c = true.
Proof.
  unfold is_attr_char, is_token_char. intros [[[-> | ->]%orb_true_iff|H]%orb_true_iff| ->%Z.eqb_eq]%orb_true_iff;
    [done | by rewrite orb_true_r | | done].
  apply existsb_exists in H as (x & Hx & ->%Z.eqb_eq). vm_compute in Hx.
  repeat (destruct Hx as [<-|Hx]; [done|]). done.
Qed.

Lemma token_stops_ext r : stops is_token_char r -> after_ext r.
Proof.
  destruct r as [|c r]; [done|]. unfold after_ext. cbn. intros Hc. apply not_true_is_false.
  intros H%ext_char_is_token. congruence.
Qed.

Lemma reads_ext_value y : ext_text y -> reads ext_parameter_value_p (stops is_token_char) y y.
Proof.
  intros (Hn & cs & lang & l & -> & Hne & Hcs & Hlang & Hl). rewrite !length_app in Hn. cbn [length] in Hn.
  eapply reads_make.
  - apply (creads_cons _ _ (stops is_mime_charsetc) _ _ _ (fun t => t ++ cs)); [apply creads_run; [done|]| |by follows].
    { destruct cs; [done|]. cbn [length] in *. lia. }
    eapply (creads_cons _ _ anything _ [39]); [by eapply creads_consume, reads_symbol| |done].
    apply (creads_cons _ _ (stops is_language) _ _ _ (fun t => t ++ lang)); [apply creads_run; [done|lia]| |by follows].
    eapply (creads_cons _ _ anything _ [39]); [by eapply creads_consume, reads_symbol| |done].
    apply creads_last. eapply creads_weaken; [apply creads_ext_chars; [done|lia] | apply token_stops_ext].
  - cbn. unfold to_container, add_to_container, vector_container. by rewrite <- !app_assoc.
Qed.

(** ** Parameters *)

Lemma reads_disposition_param x p : disposition_text x p -> reads disposition_parameter_p (stops is_token_char) x p.
Proof.
  destruct p as [pn pv]. intros (w1 & w2 & n & y & -> & Hw1 & Hw2 & Hn & E & Hy). cbn [fst snd] in *. subst pn.
  apply (reads_produce _ _ _ (fun t => set_second (set_first t (to_lower n)) pv)).
  apply creads_ows_symbol; [done..|].
  apply (creads_cons ows _ (stops is_space) _ _ _ (fun t => t)); [by apply creads_ows| |].
  - apply creads_last. case_decide as Hl.
    + destruct Hy as [Hy ->]. apply creads_next; [|apply creads_first, creads_sequence].
      * apply cfails_to_loosely, cfails_sequence, cfails_to_loosely, cfails_head, cfails_consume, fails_transformed.
        eapply fails_weaken; [apply (fails_regular n (followed ([61] ++ y) (stops is_token_char))); [done|done|by follows]|].
        intros r Hr. by apply followed_app.
      * apply (creads_cons _ _ (stops is_token_char) _ _ _ (fun t => set_first t (to_lower n)) (fun t => set_second t y)); [| |by follows].
        { by apply creads_consume, reads_transformed, reads_ext. }
        apply (creads_cons _ _ anything _ [61] _ (fun t => t)); [apply creads_symbol| |done].
        by apply creads_last, creads_consume, reads_ext_value.
    + apply creads_first, creads_sequence.
      apply (creads_cons _ _ (stops is_token_char) _ _ _ (fun t => set_first t (to_lower n)) (fun t => set_second t pv)); [| |by follows].
      { by apply creads_consume, reads_transformed, reads_regular. }
      apply (creads_cons _ _ anything _ [61] _ (fun t => t)); [apply creads_symbol| |done].
      by apply creads_last, (creads_value set_second).
  - intros r Hr. apply followed_app in Hr. by eapply token_head.
Qed.

Lemma fails_disposition_param : fails disposition_parameter_p after_params.
Proof.
  intros s Hs (_ & w & r' & E & Hw & Hr & Hc).
  by apply (fails_produce _ _ (cfails_to_loosely _ _ (cfails_ows_symbol 59 _ w r' Hw Hr Hc))).
Qed.

Lemma disposition_params_stop l F r : Forall (fun xp => disposition_text xp.1 xp.2) l ->
  followed (mjoin l.*1) F r -> (forall r, F r -> stops is_token_char r) -> stops is_token_char r.
Proof.
  intros Hl (z & -> & Hz) HF. destruct Hl as [|[x p] l (w1 & w2 & n & y & E & Hw & _) _]; [by apply HF|].
  cbn in *. subst x. destruct Hw as [|c w Hc _]; cbn; [done|].
  unfold is_space in Hc. to_prop. by destruct Hc as [-> | ->].
Qed.

Lemma reads_disposition_params l : Forall (fun xp => disposition_text xp.1 xp.2) l -> (N.of_nat (length l) < N_)%N ->
  reads (produce (list parameter_with_mandatory_value_t)
    [repeat 0 N_ [consume_value_clause disposition_parameter_p to_container]]) after_params (mjoin l.*1) l.*2.
Proof.
  intros Hl Hn. eapply (reads_make _ _ _ (fun t => t ++ l.*2)); [|done].
  apply creads_last, creads_many; [|apply fails_disposition_param|lia].
  intros pre x v post ->. apply Forall_app in Hl as [_ Hl]. apply Forall_cons in Hl as [Hx Hl].
  eapply reads_weaken; [by apply reads_disposition_param|]. intros r Hr. eapply disposition_params_stop; [done..|]. by intros ? [].
Qed.

Lemma not_a_space (pred : Z -> bool) c : pred 32 = false -> pred 9 = false -> pred c = true -> is_space c = false.
Proof. unfold is_space. intros H1 H2 Hc. apply orb_false_iff. split; apply Z.eqb_neq; intros ->; unfold SP, HTAB in *; congruence. Qed.

Lemma ext_text_end y : ext_text y -> ends_well y.
Proof.
  intros (_ & cs & lang & l & -> & _ & _ & _ & Hl). do 3 apply ends_well_app. split; [done|].
  apply (trimmed_Forall (fun c => negb (is_space c))); [by intros ? ?%negb_true_iff|]. constructor; [done|].
  induction Hl as [|x l Hx _ IH]; [constructor|]. change (mjoin (x :: l)) with (x ++ mjoin l). apply Forall_app. split; [|done].
  destruct Hx as [(c & -> & Hc)|(h & k & -> & Hh & Hk)]; repeat constructor; apply negb_true_iff.
  - by apply (not_a_space is_attr_char).
  - by apply (not_a_space is_hexdigit).
  - by apply (not_a_space is_hexdigit).
Qed.

Lemma disposition_text_end x p : disposition_text x p -> ends_well x.
Proof.
  intros (w1 & w2 & n & y & -> & Hw1 & Hw2 & Hn & E & Hy). case_decide.
  - do 5 apply ends_well_app. by apply ext_text_end, (proj1 Hy).
  - apply (param_text_end _ p). exists w1, w2, n, y. by split_and!.
Qed.

Lemma content_disposition_parses value l (Hv : token value) (Hl : Forall (fun xp => disposition_text xp.1 xp.2) l)
  (Hn : (N.of_nat (length l) < N_)%N) :
  try_parse (value ++ mjoin l.*1) content_disposition_p = Ok (to_lower value, l.*2).
Proof.
  apply try_parse_reads.
  - destruct l as [|xp l] using rev_ind; [cbn; rewrite app_nil_r; by apply token_end|].
    apply Forall_app in Hl as [_ [Hx _]%Forall_cons]. rewrite fmap_app, join_app. cbn. rewrite app_nil_r, app_assoc.
    by eapply ends_well_app, disposition_text_end.
  - eapply reads_weaken; [|apply after_params_end]. eapply reads_make.
    + apply (creads_cons _ _ (stops is_token_char) _ _ _ (fun t => set_first t (to_lower value)));
        [by apply creads_consume, reads_transformed, reads_token| |].
      * by apply creads_last, creads_consume, reads_disposition_params.
      * intros r Hr. eapply disposition_params_stop; [done..|]. by intros ? [].
    + done.
Qed.

(** ** Files *)

(** The value of the first parameter of that name. *)
Definition first_value (params : list (bytes * bytes)) (what : bytes) : option bytes :=
  snd <$> List.find (fun p => is_equal_caseless p.1 what) params.

Lemma find_first_value params what : expected_to_optional (find_first params what) = first_value params what.
Proof.
  unfold find_first, first_value. induction params as [|p params IH]; [done|]. cbn.
  destruct (is_equal_caseless p.1 what) eqn:E; (case_decide; [try done; congruence | try congruence]).
  rewrite <- IH. by destruct (list_find (fun pair => is_equal_caseless pair.1 what = true) params) as [[i q]|].
Qed.

(** The Content-Disposition of a part, printed. *)
Definition has_disposition (p : parsed_part_t) (value : bytes) (params : list (bytes * bytes)) : Prop :=
  exists v l, Fields.opt_value_of (fields p) (ById content_disposition) = Some (v ++ mjoin l.*1) /\ token v /\
    Forall (fun xp => disposition_text xp.1 xp.2) l /\ (N.of_nat (length l) < N_)%N /\ to_lower v = value /\ l.*2 = params.

(** What a part of a form is: a file, or something else. *)
Inductive part_kind (p : parsed_part_t) : option part_description_t -> Prop :=
| pk_file name star filename params :
    has_disposition p (str "form-data") params -> first_value params (str "name") = Some name ->
    first_value params (str "filename*") = star -> first_value params (str "filename") = filename ->
    (star <> None \/ filename <> None) ->
    part_kind p (Some (mk_description (fields p) (body p) name star filename))
| pk_no_disposition : Fields.opt_value_of (fields p) (ById content_disposition) = None -> part_kind p None
| pk_other_disposition value params : has_disposition p value params -> value <> str "form-data" -> part_kind p None
| pk_plain_field name params :
    has_disposition p (str "form-data") params -> first_value params (str "name") = Some name ->
    first_value params (str "filename*") = None -> first_value params (str "filename") = None -> part_kind p None.

Lemma analyze_disposition p value params : has_disposition p value params ->
  exists text, Fields.opt_value_of (fields p) (ById content_disposition) = Some text /\
    try_parse text content_disposition_p = Ok (value, params).
Proof.
  intros (v & l & -> & Hv & Hl & Hn & <- & <-). eexists. split; [done|]. by apply content_disposition_parses.
Qed.

Lemma analyze_part_kind p kind : part_kind p kind ->
  analyze_part p = match kind with Some d => Ok d | None => Err up_no_files_found end.
Proof.
  intros Hk. unfold analyze_part.
  destruct Hk as [name star filename params (text & -> & ->)%analyze_disposition Hn <- <- Hf| -> 
    |value params (text & -> & ->)%analyze_disposition Hv|name params (text & -> & ->)%analyze_disposition Hn Hs Hf]; [|done| |].
  - rewrite !find_first_value. rewrite <- find_first_value in Hn. rewrite bool_decide_eq_true_2 by done. cbn [negb].
    destruct (find_first params (str "name")) as [w|]; [|done]. injection Hn as <-.
    destruct (first_value params (str "filename*")), (first_value params (str "filename")); [done..|by destruct Hf].
  - by rewrite bool_decide_eq_false_2.
  - rewrite !find_first_value, Hs, Hf. rewrite <- find_first_value in Hn. rewrite bool_decide_eq_true_2 by done. cbn [negb].
    by destruct (find_first params (str "name")).
Qed.

Section Files.
Context {W : Type} (handler : W -> part_description_t -> handling_result_t * W).

(** The lambda hands over exactly the files, and counts them. *)
Lemma deliver_files parts kinds : Forall2 part_kind parts kinds -> forall n found w,
  exists r found', deliver (file_handler handler) parts n (w, found, None) =
    (r, ((deliver handler (omap id kinds) found w).2, found', None)) /\
    (deliver handler (omap id kinds) found w).1 = (fun _ => found') <$> r.
Proof.
  induction 1 as [|p kind parts kinds Hk _ IH]; intros n found w; [by do 2 eexists|].
  cbn [deliver]. unfold file_handler at 1. rewrite (analyze_part_kind p kind Hk). destruct kind as [d|].
  - change (omap id (Some d :: kinds)) with (d :: omap id kinds). cbn [deliver].
    destruct (handler w d) as [[] w']; [apply IH | by do 2 eexists..].
  - rewrite bool_decide_eq_true_2 by done. apply IH.
Qed.

(** C20 (roundtrip). File upload, from the request to the files: when a
    multipart request is sent for this media type, its parts printed with their
    fields and bodies and separated by a boundary that is in none of them,
    then [enumerate_parts_with_files] hands the handler exactly the parts that
    are files, in their order, each with its fields, its body, its name and the
    file names its Content-Disposition gives, until the handler wants no more,
    and returns how many it handed over, or that the handler has terminated the
    enumeration. Parts that are not files do not disturb it. *)
Theorem upload_roundtrip req media_type media_subtype parts kinds w
  (Hr : multipart_request req media_type (Some media_subtype) parts) (Hp : parts <> [])
  (Hk : Forall2 part_kind parts kinds) :
  enumerate_parts_with_files handler req media_type media_subtype w =
    delivered up_terminated_by_handler (deliver handler (omap id kinds) 0 w).
Proof.
  unfold enumerate_parts_with_files. rewrite (enumerate_printed _ req media_type _ parts) by done.
  destruct (deliver_files parts kinds Hk 0 0 w) as (r & found & -> & E). unfold delivered. rewrite E. by destruct r.
Qed.
End Files.

(** ** An upload with a file and a plain field *)

Definition disposition_header : bytes := str "Content-Disposition: ".
Definition file_disposition : bytes := str "form-data; name=f; filename=" ++ [34] ++ str "a b" ++ [34].
Definition plain_disposition : bytes := str "form-data; name=x".
Definition parsed_example (disposition b : bytes) : parsed_part_t :=
  mk_part [Headers.set_value (Headers.set_name default_value (str "content-disposition")) disposition] b.
Definition example_upload : multipart_request_t :=
  mk_multipart_request
    [mk_field (str "Content-Type") (str "multipart/form-data; boundary=B") content_type]
    (str "--B" ++ eol ++ disposition_header ++ file_disposition ++ eol ++ eol ++ str "hello" ++ eol ++
     str "--B" ++ eol ++ disposition_header ++ plain_disposition ++ eol ++ eol ++ str "1" ++ eol ++ str "--B--" ++ eol).

Lemma example_part disposition b : line_text disposition -> stops is_space disposition ->
  part_text (disposition_header ++ disposition ++ eol ++ eol ++ b) (parsed_example disposition b).
Proof.
  intros Hl Hs. exists [(disposition_header ++ disposition ++ eol, Headers.set_value (Headers.set_name default_value (str "content-disposition")) disposition)].
  cbn [fmap list_fmap fst snd mjoin list_join body parsed_example fields].
  split_and!; [by rewrite app_nil_r, <- !app_assoc|constructor; [|constructor]|done|done].
  exists (str "Content-Disposition"), [32], disposition.
  split_and!; [reflexivity|split; [done|by repeat constructor]|by repeat constructor|done..].
Qed.

Lemma token_check x : negb (bool_decide (x = [])) && forallb is_token_char x = true -> token x.
Proof.
  intros [Hn%negb_true_iff Hx]%andb_true_iff. apply bool_decide_eq_false in Hn. split; [done|].
  apply Forall_forall. intros c Hc%list_elem_of_In. rewrite forallb_forall in Hx. by apply Hx.
Qed.

Lemma token_param n y v : token n -> last n <> Some (chr "*") -> to_lower n = n -> value_text y v ->
  disposition_text ([59; 32] ++ n ++ [61] ++ y) (n, v).
Proof.
  intros Hn Hs Hl Hv. exists [], [32], n, y. split_and!; [done|constructor|by repeat constructor|done|done|].
  by rewrite decide_False.
Qed.

Lemma example_file b : part_kind (parsed_example file_disposition b)
  (Some (mk_description (fields (parsed_example file_disposition b)) b (str "f") None (Some (str "a b")))).
Proof.
  apply (pk_file (parsed_example file_disposition b) (str "f") None (Some (str "a b")) [(str "name", str "f"); (str "filename", str "a b")]); [|done..|by right].
  exists (str "form-data"), [(str "; name=f", (str "name", str "f"));
    (str "; filename=" ++ [34] ++ str "a b" ++ [34], (str "filename", str "a b"))].
  split_and!; [vm_compute; reflexivity|by apply token_check| |done..]. constructor; [|constructor; [|constructor]].
  - apply (token_param (str "name") (str "f")); [by apply token_check|done|done|]. left. split; [by apply token_check|done].
  - apply (token_param (str "filename") ([34] ++ str "a b" ++ [34])); [by apply token_check|done|done|].
    right. exists (str "a b"). split; [done|]. by repeat constructor.
Qed.

Lemma example_plain b : part_kind (parsed_example plain_disposition b) None.
Proof.
  apply (pk_plain_field (parsed_example plain_disposition b) (str "x") [(str "name", str "x")]); [|done..].
  exists (str "form-data"), [(str "; name=x", (str "name", str "x"))].
  split_and!; [vm_compute; reflexivity|by apply token_check| |done..]. constructor; [|constructor].
  apply (token_param (str "name") (str "x")); [by apply token_check|done|done|]. left. split; [by apply token_check|done].
Qed.

Lemma example_request : multipart_request example_upload (str "multipart") (Some (str "form-data"))
  [parsed_example file_disposition (str "hello"); parsed_example plain_disposition (str "1")].
Proof.
  exists (str "multipart/form-data; boundary=B"), (str "multipart"), (str "form-data"), (str "B"), None, [],
    [disposition_header ++ file_disposition ++ eol ++ eol ++ str "hello";
     disposition_header ++ plain_disposition ++ eol ++ eol ++ str "1"].
  split_and!; [vm_compute; reflexivity| | |done|by intros s [= <-]|vm_compute; reflexivity| |].
  - exists [(str "; boundary=B", (str "boundary", str "B"))], [], (str "boundary"), [].
    split_and!; [done|by apply token_check|by apply token_check| |done..]. constructor; [|constructor].
    exists [], [32], (str "boundary"), (str "B").
    split_and!; [done|constructor|by repeat constructor|by apply token_check| |done]. left. split; [by apply token_check|done].
  - exists [], (chr "B"). split_and!; [done|cbn; lia|constructor|done].
  - split; [done|]. repeat constructor; by apply absent_find; vm_compute.
  - repeat constructor; apply example_part; (done || by repeat constructor).
Qed.

Lemma upload_roundtrip_witness :
  enumerate_parts_with_files (fun w d => (continue_enumeration, w ++ [(pd_filename d, pd_body d)])) example_upload
    (str "multipart") (str "form-data") [] = (Ok 1%nat, [(Some (str "a b"), str "hello")]).
Proof.
  apply (upload_roundtrip (fun w d => (continue_enumeration, w ++ [(pd_filename d, pd_body d)])) example_upload
    (str "multipart") (str "form-data")
    [parsed_example file_disposition (str "hello"); parsed_example plain_disposition (str "1")]
    [Some (mk_description (fields (parsed_example file_disposition (str "hello"))) (str "hello") (str "f") None (Some (str "a b"))); None] []); [apply example_request | done |].
  constructor; [apply example_file|]. constructor; [apply example_plain|constructor].
Defined.
