(* ===== verification/Zlib.v ===== *)
(** * Compression

    [restinio/transforms/zlib.hpp]: parameters, the transformator [zlib_t] with its
    output buffer and its loops, the one-call functions, the appenders that
    compress the body of a response and [handle_body]. The library zlib is a
    class of operations; what zlib.h documents of [deflate] and [inflate] is in
    [ZlibProofs]. *)

From S2P Require Import Prelude Sendfile WriteGroup RespCoord Headers Builders.

(** ** The library *)

Inductive flush_t : Type := Z_NO_FLUSH | Z_SYNC_FLUSH | Z_FINISH.
Inductive zresult_t : Type := Z_OK | Z_STREAM_END | Z_BUF_ERROR | Z_OTHER (code : Z).

#[global] Instance flush_eq_dec : EqDecision flush_t.
Proof. solve_decision. Defined.
#[global] Instance zresult_eq_dec : EqDecision zresult_t.
Proof. solve_decision. Defined.

(** What a call of [deflate] or [inflate] does: how much of the input it took, what
    it wrote and the stream behind it. *)
Record answer_t (stream : Type) : Type := mk_answer {
  za_result : zresult_t; za_consumed : nat; za_output : bytes; za_stream : stream }.
Arguments mk_answer {stream}.
Arguments za_result {stream}.
Arguments za_consumed {stream}.
Arguments za_output {stream}.
Arguments za_stream {stream}.

(** A stream, its initial states, and the two calls with the flush parameter, the
    input and the space for output. [string_max_size] is that of [std::string]. *)
Class ZlibLibrary : Type := {
  z_stream : Type;
  deflateInit2 : forall (level window_bits mem_level strategy : Z), zresult_t * z_stream;
  inflateInit2 : forall (window_bits : Z), zresult_t * z_stream;
  deflate : z_stream -> flush_t -> bytes -> Z -> answer_t z_stream;
  inflate : z_stream -> flush_t -> bytes -> Z -> answer_t z_stream;
  string_max_size : Z }.

(** Constants of zlib.h. *)
Definition MAX_WBITS : Z := 15.
Definition MAX_MEM_LEVEL : Z := 9.
Definition Z_DEFAULT_STRATEGY : Z := 0.
Definition Z_FILTERED : Z := 1.
Definition Z_HUFFMAN_ONLY : Z := 2.
Definition Z_RLE : Z := 3.

Inductive zlib_error : Type :=
| invalid_compression_level (level : Z)
| invalid_window_bits (bits : Z)
| invalid_mem_level (level : Z)
| invalid_strategy (strategy : Z)
| too_small_reserve_buffer_size
| failed_to_initialize (code : zresult_t)
| input_too_large (size : Z)
| operation_already_completed
| unexpected_result_of_deflate (code : zresult_t)
| unexpected_result_of_inflate (code : zresult_t)
| operation_is_not_compress
| invalid_body_appender
| content_encoding_not_supported (encoding : bytes)
| string_too_long
| builder_error (e : builder_failure).

(** ** Parameters *)

(*@ transforms/zlib.hpp 67-73 params_t::operation_t *)
Inductive operation_t : Type := compress | decompress.
(*@ transforms/zlib.hpp 76-87 params_t::format_t *)
Inductive format_t : Type := deflate_format | gzip_format | identity_format.

#[global] Instance operation_eq_dec : EqDecision operation_t.
Proof. solve_decision. Defined.
#[global] Instance format_eq_dec : EqDecision format_t.
Proof. solve_decision. Defined.

(*@ transforms/zlib.hpp 336-358 params_t *)
Record params_t : Type := mk_params {
  m_operation : operation_t;
  m_format : format_t;
  m_level : Z;
  m_window_bits : Z;
  m_mem_level : Z;
  m_strategy : Z;
  m_reserve_buffer_size : Z }.

(*@ transforms/zlib.hpp 38-48 default_output_reserve_buffer_size *)
Definition default_params (op : operation_t) (f : format_t) (l : Z) : params_t :=
  mk_params op f l MAX_WBITS MAX_MEM_LEVEL Z_DEFAULT_STRATEGY (256 * 1024).

(*@ transforms/zlib.hpp 135-150 params_t::level *)
Definition set_level (p : params_t) (level_value : Z) : result zlib_error params_t :=
  if (level_value <? -1) || (9 <? level_value) then Err (invalid_compression_level level_value)
  else Ok (mk_params (m_operation p) (m_format p) level_value (m_window_bits p) (m_mem_level p) (m_strategy p) (m_reserve_buffer_size p)).

(*@ transforms/zlib.hpp 170-206 params_t::window_bits *)
Definition set_window_bits (p : params_t) (window_bits_value : Z) : result zlib_error params_t :=
  if ((window_bits_value <? 8) || (MAX_WBITS <? window_bits_value)) &&
     (negb (0 =? window_bits_value) || negb (bool_decide (decompress = m_operation p)))
  then Err (invalid_window_bits window_bits_value)
  else
    let window_bits_value := if 8 =? window_bits_value then 9 else window_bits_value in
    Ok (mk_params (m_operation p) (m_format p) (m_level p) window_bits_value (m_mem_level p) (m_strategy p) (m_reserve_buffer_size p)).

(*@ transforms/zlib.hpp 231-247 params_t::mem_level *)
Definition set_mem_level (p : params_t) (mem_level_value : Z) : result zlib_error params_t :=
  if (mem_level_value <? 1) || (MAX_MEM_LEVEL <? mem_level_value) then Err (invalid_mem_level mem_level_value)
  else Ok (mk_params (m_operation p) (m_format p) (m_level p) (m_window_bits p) mem_level_value (m_strategy p) (m_reserve_buffer_size p)).

(*@ transforms/zlib.hpp 270-296 params_t::strategy *)
Definition set_strategy (p : params_t) (strategy_value : Z) : result zlib_error params_t :=
  if negb (Z_DEFAULT_STRATEGY =? strategy_value) && negb (Z_FILTERED =? strategy_value) &&
     negb (Z_HUFFMAN_ONLY =? strategy_value) && negb (Z_RLE =? strategy_value)
  then Err (invalid_strategy strategy_value)
  else Ok (mk_params (m_operation p) (m_format p) (m_level p) (m_window_bits p) (m_mem_level p) strategy_value (m_reserve_buffer_size p)).

(*@ transforms/zlib.hpp 316-327 params_t::reserve_buffer_size *)
Definition set_reserve_buffer_size (p : params_t) (size : Z) : result zlib_error params_t :=
  if size <? 10 then Err too_small_reserve_buffer_size
  else Ok (mk_params (m_operation p) (m_format p) (m_level p) (m_window_bits p) (m_mem_level p) (m_strategy p) size).

(*@ transforms/zlib.hpp 96-107 params_t::params_t *)
Definition params (op : operation_t) (f : format_t) (l : Z) : result zlib_error params_t := set_level (default_params op f (-1)) l.

(*@ transforms/zlib.hpp 110-115 params_t::params_t *)
Definition identity_params : params_t := default_params compress identity_format (-1).

(*@ transforms/zlib.hpp 379-386 make_deflate_compress_params *)
Definition make_deflate_compress_params (compression_level : Z) : result zlib_error params_t := params compress deflate_format compression_level.
(*@ transforms/zlib.hpp 388-394 make_deflate_decompress_params *)
Definition make_deflate_decompress_params : result zlib_error params_t := params decompress deflate_format (-1).
(*@ transforms/zlib.hpp 396-403 make_gzip_compress_params *)
Definition make_gzip_compress_params (compression_level : Z) : result zlib_error params_t := params compress gzip_format compression_level.
(*@ transforms/zlib.hpp 405-411 make_gzip_decompress_params *)
Definition make_gzip_decompress_params : result zlib_error params_t := params decompress gzip_format (-1).
(*@ transforms/zlib.hpp 413-417 make_identity_params *)
Definition make_identity_params : params_t := identity_params.

(** ** The transformator *)

(** What an operation comes to: it is still running when the fuel is out, or it
    has ended, normally or by an exception, and leaves a state. *)
Inductive run (S : Type) : Type := Running | Ended (r : result zlib_error unit) (s : S).
Arguments Running {S}.
Arguments Ended {S}.

Definition then_ {S} (m : run S) (f : S -> run S) : run S :=
  match m with Ended (Ok _) s => f s | m => m end.

Section Transformator.
Context `{ZlibLibrary}.

(** [next_in] is what is left of the input; [avail_in] is its length. *)
(*@ transforms/zlib.hpp 836-855 zlib_t *)
Record zlib_t : Type := mk_zlib {
  m_params : params_t;
  m_zlib_stream : option z_stream;
  next_in : bytes;
  m_out_buffer : bytes;
  m_write_pos : Z;
  m_operation_is_complete : bool }.

(*@ transforms/zlib.hpp 695-698 zlib_t::is_identity *)
Definition is_identity (z : zlib_t) : bool := bool_decide (identity_format = m_format (m_params z)).

Definition resize (s : bytes) (n : Z) : bytes := take (Z.to_nat n) s ++ replicate (Z.to_nat n - length s) 0.
Definition size (s : bytes) : Z := Z.of_nat (length s).

Definition with_buffer (z : zlib_t) (out : bytes) : zlib_t :=
  mk_zlib (m_params z) (m_zlib_stream z) (next_in z) out (m_write_pos z) (m_operation_is_complete z).

(** [std::string::resize] throws when the size is over the limit. *)
(*@ transforms/zlib.hpp 720-725 zlib_t::inc_buffer *)
Definition inc_buffer (z : zlib_t) : result zlib_error zlib_t :=
  let new_size := wrap 64 (size (m_out_buffer z) + m_reserve_buffer_size (m_params z)) in
  if string_max_size <? new_size then Err string_too_long else Ok (with_buffer z (resize (m_out_buffer z) new_size)).

(*@ transforms/zlib.hpp 477-534 zlib_t::zlib_t *)
Definition zlib_create (transformation_params : params_t) : result zlib_error zlib_t :=
  if bool_decide (identity_format = m_format transformation_params)
  then Ok (mk_zlib transformation_params None [] [] 0 false)
  else
    let current_window_bits :=
      if bool_decide (gzip_format = m_format transformation_params)
      then m_window_bits transformation_params + 16 else m_window_bits transformation_params in
    let '(init_result, stream) :=
      if bool_decide (compress = m_operation transformation_params)
      then deflateInit2 (m_level transformation_params) current_window_bits
             (m_mem_level transformation_params) (m_strategy transformation_params)
      else inflateInit2 current_window_bits in
    if negb (bool_decide (Z_OK = init_result)) then Err (failed_to_initialize init_result)
    else inc_buffer (mk_zlib transformation_params (Some stream) [] [] 0 false).

(** [avail_out] is an [uInt]; the size is a [std::size_t]. *)
(*@ transforms/zlib.hpp 728-741 zlib_t::prepare_out_buffer *)
Definition prepare_out_buffer (z : zlib_t) : Z * Z :=
  let provided_out_buffer_size := wrap 64 (size (m_out_buffer z) - m_write_pos z) in
  (provided_out_buffer_size, wrap 32 provided_out_buffer_size).

(** The output is written behind what is there. *)
Definition put_output (s : bytes) (pos : Z) (out : bytes) : bytes :=
  take (Z.to_nat pos) s ++ out ++ drop (Z.to_nat pos + length out) s.

(** The call and what follows it: the state and [avail_out]. *)
Definition called (z : zlib_t) (provided_out_buffer_size avail_out : Z) (a : answer_t z_stream) : zlib_t * Z :=
  let avail_out := avail_out - size (za_output a) in
  (mk_zlib (m_params z) (Some (za_stream a)) (drop (za_consumed a) (next_in z))
     (put_output (m_out_buffer z) (m_write_pos z) (za_output a))
     (wrap 64 (m_write_pos z + (provided_out_buffer_size - avail_out))) (m_operation_is_complete z), avail_out).

(** An exception is thrown before the output is counted. *)
Definition not_counted (z z' : zlib_t) : zlib_t :=
  mk_zlib (m_params z') (m_zlib_stream z') (next_in z') (m_out_buffer z') (m_write_pos z) (m_operation_is_complete z').

(*@ transforms/zlib.hpp 748-790 zlib_t::write_compress_impl *)
Fixpoint write_compress_impl (fuel : nat) (flush : flush_t) (z : zlib_t) : run zlib_t :=
  match fuel, m_zlib_stream z with
  | O, _ | _, None => Running
  | S fuel, Some stream =>
      let '(provided_out_buffer_size, avail_out) := prepare_out_buffer z in
      let a := deflate stream flush (next_in z) avail_out in
      let operation_result := za_result a in
      let '(z', avail_out) := called z provided_out_buffer_size avail_out a in
      if negb (bool_decide (Z_OK = operation_result) || bool_decide (Z_BUF_ERROR = operation_result) ||
               (bool_decide (Z_STREAM_END = operation_result) && bool_decide (Z_FINISH = flush)))
      then Ended (Err (unexpected_result_of_deflate operation_result)) (not_counted z z')
      else if (0 =? avail_out) && negb (bool_decide (Z_STREAM_END = operation_result))
      then match inc_buffer z' with Ok z' => write_compress_impl fuel flush z' | Err e => Ended (Err e) z' end
      else if 0 =? size (next_in z') then Ended (Ok tt) z'
      else write_compress_impl fuel flush z'
  end.

(*@ transforms/zlib.hpp 797-834 zlib_t::write_decompress_impl *)
Fixpoint write_decompress_impl (fuel : nat) (flush : flush_t) (z : zlib_t) : run zlib_t :=
  match fuel, m_zlib_stream z with
  | O, _ | _, None => Running
  | S fuel, Some stream =>
      let '(provided_out_buffer_size, avail_out) := prepare_out_buffer z in
      let a := inflate stream flush (next_in z) avail_out in
      let operation_result := za_result a in
      let '(z', avail_out) := called z provided_out_buffer_size avail_out a in
      if negb (bool_decide (Z_OK = operation_result) || bool_decide (Z_BUF_ERROR = operation_result) ||
               bool_decide (Z_STREAM_END = operation_result))
      then Ended (Err (unexpected_result_of_inflate operation_result)) (not_counted z z')
      else if (0 =? avail_out) && negb (bool_decide (Z_STREAM_END = operation_result))
      then match inc_buffer z' with Ok z' => write_decompress_impl fuel flush z' | Err e => Ended (Err e) z' end
      else if 0 =? size (next_in z') then Ended (Ok tt) z'
      else write_decompress_impl fuel flush z'
  end.

Definition write_impl (fuel : nat) (flush : flush_t) (z : zlib_t) : run zlib_t :=
  if bool_decide (compress = m_operation (m_params z)) then write_compress_impl fuel flush z
  else write_decompress_impl fuel flush z.

Definition with_input (z : zlib_t) (input : bytes) : zlib_t :=
  mk_zlib (m_params z) (m_zlib_stream z) input (m_out_buffer z) (m_write_pos z) (m_operation_is_complete z).

(*@ transforms/zlib.hpp 712-717 zlib_t::ensure_operation_in_not_completed *)
Definition ensure_operation_in_not_completed (z : zlib_t) (f : run zlib_t) : run zlib_t :=
  if m_operation_is_complete z then Ended (Err operation_already_completed) z else f.

Definition uInt_max : Z := 2 ^ 32 - 1.

(*@ transforms/zlib.hpp 564-603 zlib_t::write *)
Definition write (fuel : nat) (z : zlib_t) (input : bytes) : run zlib_t :=
  ensure_operation_in_not_completed z
    (if is_identity z then
       let out := m_out_buffer z ++ input in
       if string_max_size <? size out then Ended (Err string_too_long) z
       else Ended (Ok tt) (mk_zlib (m_params z) (m_zlib_stream z) (next_in z) out (size out) (m_operation_is_complete z))
     else if uInt_max <? size input then Ended (Err (input_too_large (size input))) z
     else if 0 <? size input then write_impl fuel Z_NO_FLUSH (with_input z input)
     else Ended (Ok tt) z).

(*@ transforms/zlib.hpp 610-629 zlib_t::flush *)
Definition flush (fuel : nat) (z : zlib_t) : run zlib_t :=
  ensure_operation_in_not_completed z
    (if negb (is_identity z) then write_impl fuel Z_SYNC_FLUSH (with_input z []) else Ended (Ok tt) z).

(*@ transforms/zlib.hpp 632-653 zlib_t::complete *)
Definition complete (fuel : nat) (z : zlib_t) : run zlib_t :=
  ensure_operation_in_not_completed z
    (then_ (if negb (is_identity z) then write_impl fuel Z_FINISH (with_input z []) else Ended (Ok tt) z)
       (fun z => Ended (Ok tt) (mk_zlib (m_params z) (m_zlib_stream z) (next_in z) (m_out_buffer z) (m_write_pos z) true))).

(*@ transforms/zlib.hpp 677-686 zlib_t::giveaway_output *)
Definition giveaway_output (z : zlib_t) : bytes * zlib_t :=
  (resize (m_out_buffer z) (m_write_pos z),
   mk_zlib (m_params z) (m_zlib_stream z) (next_in z) [] 0 (m_operation_is_complete z)).

(*@ transforms/zlib.hpp 689-692 zlib_t::output_size *)
Definition output_size (z : zlib_t) : Z := m_write_pos z.

(** ** In one call *)

(** [None] when it is still running. *)
(*@ transforms/zlib.hpp 877-885 transform *)
Definition transform (fuel : nat) (input : bytes) (params : params_t) : option (result zlib_error bytes) :=
  match zlib_create params with
  | Err e => Some (Err e)
  | Ok z =>
      match then_ (write fuel z input) (complete fuel) with
      | Running => None
      | Ended (Err e) _ => Some (Err e)
      | Ended (Ok _) z => Some (Ok (giveaway_output z).1)
      end
  end.

Definition transform_by (fuel : nat) (input : bytes) (params : result zlib_error params_t) : option (result zlib_error bytes) :=
  match params with Ok p => transform fuel input p | Err e => Some (Err e) end.

(*@ transforms/zlib.hpp 887-891 deflate_compress *)
Definition deflate_compress (fuel : nat) (input : bytes) (compression_level : Z) : option (result zlib_error bytes) :=
  transform_by fuel input (make_deflate_compress_params compression_level).
(*@ transforms/zlib.hpp 893-897 deflate_decompress *)
Definition deflate_decompress (fuel : nat) (input : bytes) : option (result zlib_error bytes) :=
  transform_by fuel input make_deflate_decompress_params.
(*@ transforms/zlib.hpp 899-903 gzip_compress *)
Definition gzip_compress (fuel : nat) (input : bytes) (compression_level : Z) : option (result zlib_error bytes) :=
  transform_by fuel input (make_gzip_compress_params compression_level).
(*@ transforms/zlib.hpp 905-909 gzip_decompress *)
Definition gzip_decompress (fuel : nat) (input : bytes) : option (result zlib_error bytes) :=
  transform_by fuel input make_gzip_decompress_params.

Definition content_encoding : http_field_t := field_id "content_encoding".

(** What the handler returns, or the exception. *)
(*@ transforms/zlib.hpp 1315-1341 handle_body *)
Definition handle_body {R} (fuel : nat) (fields : http_header_fields_t) (body : bytes) (handler : bytes -> R)
    : option (result zlib_error R) :=
  let call decompressed := option_map (fun r => b ← r; Ok (handler b)) decompressed in
  let encoding := Fields.get_field_or fields (ById content_encoding) (str "identity") in
  if is_equal_caseless encoding (str "deflate") then call (deflate_decompress fuel body)
  else if is_equal_caseless encoding (str "gzip") then call (gzip_decompress fuel body)
  else if negb (is_equal_caseless encoding (str "identity")) then Some (Err (content_encoding_not_supported encoding))
  else Some (Ok (handler body)).
End Transformator.

(** ** Body appenders *)

(*@ transforms/zlib.hpp 944-958 content_encoding_token *)
Definition content_encoding_token (f : format_t) : bytes :=
  match f with identity_format => str "identity" | deflate_format => str "deflate" | gzip_format => str "gzip" end.

Section Appenders.
Context `{ZlibLibrary}.

(** An appender and the builder it refers to; a moved appender has no
    transformator. *)
(*@ transforms/zlib.hpp 997-1000 body_appender_base_t *)
Record appender_t (resp_t : Type) : Type := mk_appender { m_ztransformator : option zlib_t; m_resp : resp_t }.
Arguments mk_appender {resp_t}.
Arguments m_ztransformator {resp_t}.
Arguments m_resp {resp_t}.

(** [append_header] is that of the builder. *)
(*@ transforms/zlib.hpp 973-984 body_appender_base_t::body_appender_base_t *)
Definition body_appender {resp_t} (append_header : resp_t -> header_op -> resp_t) (params : params_t) (resp : resp_t)
    : result zlib_error (appender_t resp_t) :=
  z ← zlib_create params;
  if negb (bool_decide (compress = m_operation (m_params z))) then Err operation_is_not_compress
  else Ok (mk_appender (Some z)
             (append_header resp (H_append (ById content_encoding) (content_encoding_token (m_format (m_params z)))))).

(** The new appender and the old one. *)
(*@ transforms/zlib.hpp 990-993 body_appender_base_t::body_appender_base_t *)
Definition move_appender {resp_t} (ba : appender_t resp_t) : appender_t resp_t * appender_t resp_t :=
  (mk_appender (m_ztransformator ba) (m_resp ba), mk_appender None (m_resp ba)).

(** [impl::ensure_valid_transforator], an operation of the transformator, and
    what follows it. *)
(*@ transforms/zlib.hpp 935-941 ensure_valid_transforator *)
Definition on_transformator {resp_t} (a : appender_t resp_t) (f : zlib_t -> run zlib_t)
    (rest : zlib_t -> run (appender_t resp_t)) : run (appender_t resp_t) :=
  match m_ztransformator a with
  | None => Ended (Err invalid_body_appender) a
  | Some z =>
      match f z with
      | Running => Running
      | Ended (Err e) z => Ended (Err e) (mk_appender (Some z) (m_resp a))
      | Ended (Ok _) z => rest z
      end
  end.

Definition update {resp_t} (a : appender_t resp_t) (z : zlib_t) : run (appender_t resp_t) :=
  Ended (Ok tt) (mk_appender (Some z) (m_resp a)).

(** The output is given to the builder. *)
Definition give {resp_t} (a : appender_t resp_t) (z : zlib_t) (append : resp_t -> bytes -> resp_t) : appender_t resp_t :=
  let '(out, z) := giveaway_output z in mk_appender (Some z) (append (m_resp a) out).

(** *** For responses controlled by the library or the user *)

(*@ transforms/zlib.hpp 1012-1019 x_controlled_output_body_appender_base_t::append *)
Definition x_append {resp_t} (fuel : nat) (a : appender_t resp_t) (input : bytes) : run (appender_t resp_t) :=
  on_transformator a (fun z => write fuel z input) (update a).

(*@ transforms/zlib.hpp 1021-1030 x_controlled_output_body_appender_base_t::complete *)
Definition x_complete {resp_t} (append_body : resp_t -> bytes -> resp_t) (fuel : nat) (a : appender_t resp_t)
    : run (appender_t resp_t) :=
  on_transformator a (complete fuel) (fun z => Ended (Ok tt) (give a z append_body)).

(*@ transforms/zlib.hpp 1068-1074 body_appender_t::size *)
Definition appender_size {resp_t} (a : appender_t resp_t) : result zlib_error Z :=
  match m_ztransformator a with None => Err invalid_body_appender | Some z => Ok (output_size z) end.

Definition controlled_append (b : Controlled.controlled_t) (data : bytes) : Controlled.controlled_t :=
  Controlled.apply b (Controlled.AppendBody (TrivialItem data)).

(** What the builder has written so far is beside it. *)
Definition user_resp : Type := (list written * User.user_t)%type.
Definition user_append (r : user_resp) (data : bytes) : user_resp := (r.1, User.user_append_body r.2 (TrivialItem data)).

(*@ transforms/zlib.hpp 1116-1126 body_appender_t::flush *)
Definition user_appender_flush (fuel : nat) (a : appender_t user_resp) : run (appender_t user_resp) :=
  on_transformator a (flush fuel)
    (fun z =>
       let a := give a z user_append in
       match User.apply (m_resp a) (User.Flush None) with
       | Ok resp => Ended (Ok tt) (mk_appender (m_ztransformator a) resp)
       | Err e => Ended (Err (builder_error e)) a
       end).

(** *** For chunked responses *)

Section ChunkedAppender.
Context (fmt_X : Z -> bytes).

Definition chunked_resp : Type := (list written * Chunked.chunked_t)%type.
Definition chunked_append (r : chunked_resp) (data : bytes) : chunked_resp := (r.1, Chunked.append_chunk r.2 (TrivialItem data)).

Definition chunked_header (r : chunked_resp) (o : header_op) : chunked_resp :=
  match Chunked.apply fmt_X r (Chunked.Header o) with Ok r => r | Err _ => r end.

(*@ transforms/zlib.hpp 1181-1188 body_appender_t::append *)
Definition chunked_appender_append (fuel : nat) (a : appender_t chunked_resp) (input : bytes) : run (appender_t chunked_resp) :=
  on_transformator a (fun z => write fuel z input) (update a).

(*@ transforms/zlib.hpp 1197-1208 body_appender_t::make_chunk *)
Definition make_chunk (fuel : nat) (a : appender_t chunked_resp) (input : bytes) : run (appender_t chunked_resp) :=
  then_ (chunked_appender_append fuel a input)
    (fun a => on_transformator a (flush fuel) (fun z => Ended (Ok tt) (give a z chunked_append))).

Definition flush_response (a : appender_t chunked_resp) : run (appender_t chunked_resp) :=
  match Chunked.apply fmt_X (m_resp a) (Chunked.Flush None) with
  | Ok resp => Ended (Ok tt) (mk_appender (m_ztransformator a) resp)
  | Err e => Ended (Err (builder_error e)) a
  end.

(*@ transforms/zlib.hpp 1212-1224 body_appender_t::flush *)
Definition chunked_appender_flush (fuel : nat) (a : appender_t chunked_resp) : run (appender_t chunked_resp) :=
  match m_ztransformator a with
  | None => Ended (Err invalid_body_appender) a
  | Some z =>
      if negb (m_operation_is_complete z)
      then on_transformator a (flush fuel) (fun z => flush_response (give a z chunked_append))
      else flush_response a
  end.

(*@ transforms/zlib.hpp 1227-1233 body_appender_t::complete *)
Definition chunked_appender_complete (fuel : nat) (a : appender_t chunked_resp) : run (appender_t chunked_resp) :=
  on_transformator a (complete fuel) (fun z => Ended (Ok tt) (give a z chunked_append)).
End ChunkedAppender.

(*@ transforms/zlib.hpp 1249-1256 deflate_body_appender *)
Definition deflate_body_appender {resp_t} (append_header : resp_t -> header_op -> resp_t) (resp : resp_t) (level : Z)
    : result zlib_error (appender_t resp_t) :=
  p ← make_deflate_compress_params level; body_appender append_header p resp.
(*@ transforms/zlib.hpp 1260-1267 gzip_body_appender *)
Definition gzip_body_appender {resp_t} (append_header : resp_t -> header_op -> resp_t) (resp : resp_t) (level : Z)
    : result zlib_error (appender_t resp_t) :=
  p ← make_gzip_compress_params level; body_appender append_header p resp.
(*@ transforms/zlib.hpp 1271-1278 identity_body_appender *)
Definition identity_body_appender {resp_t} (append_header : resp_t -> header_op -> resp_t) (resp : resp_t)
    : result zlib_error (appender_t resp_t) := body_appender append_header make_identity_params resp.
End Appenders.
Arguments mk_appender {_ resp_t}.
Arguments m_ztransformator {_ resp_t}.
Arguments m_resp {_ resp_t}.
