(* ===== verification/ZlibProofs.v ===== *)
(** * Compression: theorems

    What zlib.h documents of [deflate] and [inflate], as classes, and what
    [Zlib]'s transformator then does: compression and decompression end and give
    what the formats say, whatever the sizes of the pieces; and how a body that does not
    end with its stream is taken. *)

From S2P Require Import Prelude Sendfile WriteGroup RespCoord Headers Builders Zlib.

(** ** What zlib.h documents *)

(** [Z_FINISH] is called without new input, and after it nothing else is. *)
Definition allowed (fin : bool) (f : flush_t) (i : bytes) : Prop := (fin = true -> f = Z_FINISH) /\ (f = Z_FINISH -> i = []).

(** [stands_for x y]: [x] is a whole stream of the format for the data [y].
    [readable x y]: who has got [x] can decompress [y]. *)
Class Deflates `{ZlibLibrary} (bits : Z) (stands_for readable : bytes -> bytes -> Prop) : Type := {
  (** An open stream that has taken the input [c] and given the output [p], and
      whether it has been called with [Z_FINISH]. *)
  deflating : z_stream -> bool -> bytes -> bytes -> Prop;
  (** How many bytes of output are to come at most, if it is called with this flush and
      this input, and with room for more than six bytes, until there is room left: with less the
      marker of a flush may be repeated for ever. *)
  to_come : z_stream -> flush_t -> bytes -> nat;
  deflate_start l m s stream : deflateInit2 l bits m s = (Z_OK, stream) -> deflating stream false [] [];
  deflate_results stream fin c p f i n : deflating stream fin c p -> allowed fin f i -> 0 <= n ->
    let a := deflate stream f i n in
    (za_result a = Z_OK \/ za_result a = Z_BUF_ERROR \/ (za_result a = Z_STREAM_END /\ f = Z_FINISH)) /\
    size (za_output a) <= n /\ (za_consumed a <= length i)%nat;
  deflate_goes_on stream fin c p f i n : deflating stream fin c p -> allowed fin f i -> 0 <= n ->
    let a := deflate stream f i n in
    za_result a <> Z_STREAM_END -> deflating (za_stream a) (fin || bool_decide (f = Z_FINISH)) (c ++ take (za_consumed a) i) (p ++ za_output a);
  deflate_room stream fin c p f i n : deflating stream fin c p -> allowed fin f i -> 0 <= n ->
    let a := deflate stream f i n in
    size (za_output a) < n ->
    za_consumed a = length i /\ (f = Z_FINISH -> za_result a = Z_STREAM_END) /\
    (f = Z_SYNC_FLUSH -> readable (p ++ za_output a) (c ++ i));
  deflate_end stream fin c p f i n : deflating stream fin c p -> allowed fin f i -> 0 <= n ->
    let a := deflate stream f i n in
    za_result a = Z_STREAM_END -> za_consumed a = length i /\ stands_for (p ++ za_output a) (c ++ i);
  deflate_progress stream fin c p f i n : deflating stream fin c p -> allowed fin f i -> 6 < n ->
    let a := deflate stream f i n in
    size (za_output a) = n -> za_result a <> Z_STREAM_END ->
    (length (za_output a) + to_come (za_stream a) f (drop (za_consumed a) i) <= to_come stream f i)%nat }.

(** The input so far and the input at hand may be the start of [x], or go beyond it. *)
Definition agrees (c i x : bytes) : Prop := exists l1 l2, (c ++ i) ++ l1 = x ++ l2.

Class Inflates `{ZlibLibrary} (bits : Z) (stands_for : bytes -> bytes -> Prop) : Type := {
  (** A stream that is not at its end. *)
  inflating : z_stream -> bytes -> bytes -> Prop;
  at_end : z_stream -> Prop;
  inflate_start stream : inflateInit2 bits = (Z_OK, stream) -> inflating stream [] [];
  inflate_sizes stream c p f i n x y : inflating stream c p -> 0 <= n -> stands_for x y -> agrees c i x ->
    let a := inflate stream f i n in size (za_output a) <= n /\ (za_consumed a <= length i)%nat;
  inflate_whole stream c p f i n x y : inflating stream c p -> 0 <= n -> stands_for x y -> agrees c i x ->
    let a := inflate stream f i n in
    za_result a = Z_STREAM_END ->
    c ++ take (za_consumed a) i = x /\ p ++ za_output a = y /\ at_end (za_stream a);
  inflate_goes_on stream c p f i n x y : inflating stream c p -> 0 <= n -> stands_for x y -> agrees c i x ->
    let a := inflate stream f i n in
    za_result a <> Z_STREAM_END ->
    (za_result a = Z_OK \/ za_result a = Z_BUF_ERROR) /\
    inflating (za_stream a) (c ++ take (za_consumed a) i) (p ++ za_output a) /\ p ++ za_output a `prefix_of` y /\
    (size (za_output a) < n -> za_consumed a = length i /\ c ++ i `prefix_of` x /\ c ++ i <> x);
  inflate_after_end stream f i n : at_end stream -> 0 <= n ->
    let a := inflate stream f i n in
    za_result a = Z_STREAM_END /\ za_consumed a = 0%nat /\ za_output a = [] /\ at_end (za_stream a) }.

Lemma create_params `{ZlibLibrary} ps z : zlib_create ps = Ok z -> m_params z = ps.
Proof.
  unfold zlib_create, inc_buffer. case_bool_decide; [by intros [= <-]|]. destruct (if bool_decide (compress = _) then _ else _) as [res st].
  destruct (negb _); [done|]. destruct (string_max_size <? _); [done|]. by intros [= <-].
Qed.

(** ** The output buffer *)

Section Buffer.
Context `{ZlibLibrary}.
Implicit Types z : zlib_t.

Definition free z : Z := size (m_out_buffer z) - m_write_pos z.

(** What was given away and what is in the buffer make [p]; the space behind is not
    more than a reserve. *)
Definition holds z (given p : bytes) : Prop :=
  0 <= m_write_pos z <= size (m_out_buffer z) /\ free z <= m_reserve_buffer_size (m_params z) /\
  size (m_out_buffer z) <= string_max_size /\ given ++ take (Z.to_nat (m_write_pos z)) (m_out_buffer z) = p.

Definition good_params (ps : params_t) : Prop := 10 <= m_reserve_buffer_size ps < 2 ^ 32.
Definition good_strings : Prop := 0 <= string_max_size < 2 ^ 63.

Lemma resize_grows s n : size s <= n -> resize s n = s ++ replicate (Z.to_nat n - length s) 0.
Proof. unfold size, resize. intros Hn. by rewrite take_ge by lia. Qed.

Lemma inc_buffer_grows z given p : good_params (m_params z) -> good_strings -> holds z given p -> free z = 0 ->
  inc_buffer z = Err string_too_long \/
  exists z', inc_buffer z = Ok z' /\ holds z' given p /\ free z' = m_reserve_buffer_size (m_params z) /\
    m_params z' = m_params z /\ m_zlib_stream z' = m_zlib_stream z /\ next_in z' = next_in z /\
    m_operation_is_complete z' = m_operation_is_complete z.
Proof.
  unfold good_params, good_strings, holds, free. intros Hp Hs (Hw & Hf & Hm & Hg) H0.
  assert (0 <= size (m_out_buffer z)) by (unfold size; lia).
  unfold inc_buffer. rewrite wrap_small by lia. destruct (Z.ltb_spec string_max_size (size (m_out_buffer z) + m_reserve_buffer_size (m_params z))); [by left|].
  right. eexists. split; [done|]. rewrite resize_grows by lia. cbn [m_out_buffer m_write_pos m_params m_zlib_stream next_in m_operation_is_complete with_buffer].
  assert (E : size (m_out_buffer z ++ replicate (Z.to_nat (size (m_out_buffer z) + m_reserve_buffer_size (m_params z)) - length (m_out_buffer z)) 0) =
    size (m_out_buffer z) + m_reserve_buffer_size (m_params z)).
  { unfold size in *. rewrite length_app, length_replicate. lia. }
  rewrite E. split_and!; try done; try lia. rewrite take_app_le by (unfold size in *; lia). done.
Qed.

Lemma called_holds z given p a : good_params (m_params z) -> good_strings -> holds z given p -> size (za_output a) <= free z ->
  exists z', called z (free z) (free z) a = (z', free z - size (za_output a)) /\ holds z' given (p ++ za_output a) /\
    free z' = free z - size (za_output a) /\ m_params z' = m_params z /\ m_zlib_stream z' = Some (za_stream a) /\
    next_in z' = drop (za_consumed a) (next_in z) /\ m_operation_is_complete z' = m_operation_is_complete z.
Proof.
  unfold good_params, good_strings, holds, free. intros Hp Hs (Hw & Hf & Hm & Hg) Ho.
  eexists. split; [reflexivity|]. cbn [m_out_buffer m_write_pos m_params m_zlib_stream next_in m_operation_is_complete].
  assert (0 <= size (za_output a)) by (unfold size; lia).
  replace (size (m_out_buffer z) - m_write_pos z - (size (m_out_buffer z) - m_write_pos z - size (za_output a)))
    with (size (za_output a)) by lia.
  rewrite wrap_small by lia.
  assert (E : size (put_output (m_out_buffer z) (m_write_pos z) (za_output a)) = size (m_out_buffer z)).
  { unfold size, put_output in *. rewrite !length_app, length_take, length_drop. lia. }
  rewrite E. split_and!; try done; try lia. rewrite <- Hg, <- app_assoc. f_equal. unfold put_output.
  rewrite app_assoc. apply take_app_length'. unfold size in *. rewrite length_app, length_take. lia.
Qed.

Lemma prepare_free z given p : good_params (m_params z) -> good_strings -> holds z given p -> prepare_out_buffer z = (free z, free z).
Proof.
  unfold good_params, good_strings, holds, free, prepare_out_buffer. intros Hp Hs (Hw & Hf & Hm & _).
  by rewrite !wrap_small by (rewrite ?wrap_small by lia; lia).
Qed.
End Buffer.

(** ** The loop of compression *)

Section Compress.
Context {L : ZlibLibrary} (bits : Z) (stands_for readable : bytes -> bytes -> Prop) `{!Deflates bits stands_for readable}.
Implicit Types z : zlib_t.

(** The transformator has taken [c] and its output so far is [p]. *)
Definition compressing z given c p : Prop :=
  exists stream, m_zlib_stream z = Some stream /\ deflating stream false c p /\ holds z given p.

Definition same_but_output z z' : Prop :=
  m_params z' = m_params z /\ m_operation_is_complete z' = m_operation_is_complete z.

Lemma allowed_rest fin f i k : allowed fin f i -> allowed (fin || bool_decide (f = Z_FINISH)) f (drop k i).
Proof.
  intros [H1 H2]. split.
  - intros [?|?%bool_decide_eq_true]%orb_true_iff; auto.
  - intros Hf. by rewrite H2, drop_nil.
Qed.
Lemma allowed_goes_on fin f i : allowed fin f i -> f <> Z_FINISH -> fin || bool_decide (f = Z_FINISH) = false.
Proof. intros [H1 _] Hf. rewrite bool_decide_eq_false_2 by done. destruct fin; [by destruct Hf, H1 | done]. Qed.

(** What the loop has reached when it ends. *)
Definition compressed z given c f (r : run zlib_t) : Prop :=
  (exists z', r = Ended (Err string_too_long) z') \/
  exists z' p, r = Ended (Ok tt) z' /\ same_but_output z z' /\ holds z' given p /\ next_in z' = [] /\
    (f <> Z_FINISH -> compressing z' given (c ++ next_in z) p) /\
    (f = Z_SYNC_FLUSH -> readable p (c ++ next_in z)) /\ (f = Z_FINISH -> stands_for p (c ++ next_in z)).

(** One turn of the loop ends it, or fills the buffer, which then gets more room. *)
Lemma compress_turn fuel z stream fin f given c p :
  good_params (m_params z) -> good_strings -> m_zlib_stream z = Some stream -> deflating stream fin c p ->
  allowed fin f (next_in z) -> holds z given p ->
  compressed z given c f (write_compress_impl (S fuel) f z) \/
  let a := deflate stream f (next_in z) (free z) in
  exists z', write_compress_impl (S fuel) f z = write_compress_impl fuel f z' /\
    m_params z' = m_params z /\ m_zlib_stream z' = Some (za_stream a) /\ next_in z' = drop (za_consumed a) (next_in z) /\
    deflating (za_stream a) (fin || bool_decide (f = Z_FINISH)) (c ++ take (za_consumed a) (next_in z)) (p ++ za_output a) /\
    allowed (fin || bool_decide (f = Z_FINISH)) f (next_in z') /\ holds z' given (p ++ za_output a) /\
    6 < free z' /\ size (za_output a) = free z /\ za_result a <> Z_STREAM_END /\
    forall r, compressed z' given (c ++ take (za_consumed a) (next_in z)) f r -> compressed z given c f r.
Proof.
  intros Hp Hs Hz Hd Hal Hh. cbn [write_compress_impl]. rewrite Hz, (prepare_free z given p) by done.
  assert (Hfree : 0 <= free z) by (destruct Hh as (? & _); unfold free; lia).
  pose proof (deflate_results stream fin c p f (next_in z) (free z) Hd Hal Hfree) as (Hr & Ho & Hc).
  pose proof (deflate_goes_on stream fin c p f (next_in z) (free z) Hd Hal Hfree) as Hgo.
  pose proof (deflate_room stream fin c p f (next_in z) (free z) Hd Hal Hfree) as Hroom.
  pose proof (deflate_end stream fin c p f (next_in z) (free z) Hd Hal Hfree) as Hend.
  set (a := deflate stream f (next_in z) (free z)) in *. cbn beta zeta in *.
  destruct (called_holds z given p a) as (z' & -> & Hh' & Hf' & Hp' & Hz' & Hn' & Hm'); [done..|].
  assert (Hres : negb (bool_decide (Z_OK = za_result a) || bool_decide (Z_BUF_ERROR = za_result a) ||
    (bool_decide (Z_STREAM_END = za_result a) && bool_decide (Z_FINISH = f))) = false).
  { destruct Hr as [-> | [-> | [-> ->]]]; done. }
  rewrite Hres. destruct (decide (za_result a = Z_STREAM_END)) as [He|He].
  { left. rewrite He. cbn [bool_decide negb]. rewrite andb_false_r. destruct (Hend He) as [Hall Hst].
    rewrite Hn', Hall, drop_all. cbn [size length Z.of_nat Z.eqb]. right. exists z', (p ++ za_output a).
    destruct Hr as [Hr|[Hr|[_ ->]]]; [congruence..|]. split_and!; try done. by rewrite Hn', Hall, drop_all. }
  rewrite (bool_decide_eq_false_2 (Z_STREAM_END = _)) by congruence. cbn [negb]. rewrite andb_true_r.
  specialize (Hgo He). destruct (Z.eqb_spec 0 (free z - size (za_output a))) as [E|E].
  - destruct (inc_buffer_grows z' given (p ++ za_output a)) as [->|(z2 & -> & Hh2 & Hf2 & Hp2 & Hz2 & Hn2 & Hm2)];
      [by rewrite Hp'|done|done|lia|by left; left; eexists|].
    right. exists z2. unfold good_params in Hp. rewrite Hp' in Hf2. split_and!; try done; try lia; try congruence.
    + rewrite Hn2, Hn'. by apply allowed_rest.
    + intros r [?|(z3 & q & H1 & [H2 H2'] & H3 & H4 & H5 & H6 & H7)]; [by left|].
      rewrite Hn2, Hn', <- app_assoc, take_drop in H5, H6, H7. right. exists z3, q.
      split_and!; [done|split; congruence|done..].
  - left. destruct (Hroom ltac:(lia)) as (Hall & Hfin & Hsync). rewrite Hn', Hall, drop_all. cbn [size length Z.of_nat Z.eqb].
    rewrite Hall, take_ge in Hgo by lia. right. exists z', (p ++ za_output a). split_and!; try done.
    + by rewrite Hn', Hall, drop_all.
    + intros Hnf. rewrite (allowed_goes_on fin f (next_in z)) in Hgo by done. by exists (za_stream a).
    + intros ->. by destruct (He (Hfin eq_refl)).
Qed.

Lemma compress_roomy_loop_ends fuel : forall z stream fin f given c p,
  good_params (m_params z) -> good_strings -> m_zlib_stream z = Some stream -> deflating stream fin c p ->
  allowed fin f (next_in z) -> holds z given p -> 6 < free z -> (to_come stream f (next_in z) < fuel)%nat ->
  compressed z given c f (write_compress_impl fuel f z).
Proof.
  induction fuel as [|fuel IH]; intros z stream fin f given c p Hp Hs Hz Hd Hal Hh Hr Hf; [lia|].
  destruct (compress_turn fuel z stream fin f given c p) as
    [?|(z' & -> & Hp' & Hz' & Hn' & Hd' & Hal' & Hh' & Hr' & Ho & He & Hback)]; [done..|].
  apply Hback. eapply IH; try done; [by rewrite Hp'|].
  pose proof (deflate_progress stream fin c p f (next_in z) (free z) Hd Hal Hr Ho He) as Hprog. cbv zeta in Hprog.
  rewrite Hn'. unfold size in Ho. lia.
Qed.

(** The first turn may have little room. *)
Definition turns_left z stream f : nat :=
  let a := deflate stream f (next_in z) (free z) in 2 + to_come (za_stream a) f (drop (za_consumed a) (next_in z)).

Lemma compress_loop_ends z stream fin f given c p :
  good_params (m_params z) -> good_strings -> m_zlib_stream z = Some stream -> deflating stream fin c p ->
  allowed fin f (next_in z) -> holds z given p ->
  compressed z given c f (write_compress_impl (turns_left z stream f) f z).
Proof.
  intros Hp Hs Hz Hd Hal Hh. unfold turns_left. cbv zeta. cbn [Nat.add].
  lazymatch goal with |- context [S (S ?n)] => destruct (compress_turn (S n) z stream fin f given c p) as
    [?|(z' & -> & Hp' & Hz' & Hn' & Hd' & Hal' & Hh' & Hr' & Ho & He & Hback)] end; [done..|].
  apply Hback. eapply compress_roomy_loop_ends; try done; [by rewrite Hp'|]. rewrite Hn'. lia.
Qed.
End Compress.

(** ** Runs *)

Section Fuel.
Context `{ZlibLibrary}.
Implicit Types z : zlib_t.

(** More fuel changes nothing. *)
Lemma compress_fuel fuel : forall fuel' f z, write_compress_impl fuel f z <> Running -> (fuel <= fuel')%nat ->
  write_compress_impl fuel' f z = write_compress_impl fuel f z.
Proof.
  induction fuel as [|fuel IH]; intros [|fuel'] f z Hr Hf; cbn [write_compress_impl] in *; [done|done|lia|].
  destruct (m_zlib_stream z) as [stream|]; [|done]. destruct (prepare_out_buffer z) as [provided avail].
  destruct (called _ _ _ _) as [z' left]. destruct (negb _); [done|]. destruct ((0 =? left) && _).
  - destruct (inc_buffer z') as [z2|e]; [|done]. apply IH; [done | lia].
  - destruct (0 =? size (next_in z')); [done|]. apply IH; [done | lia].
Qed.

Lemma decompress_fuel fuel : forall fuel' f z, write_decompress_impl fuel f z <> Running -> (fuel <= fuel')%nat ->
  write_decompress_impl fuel' f z = write_decompress_impl fuel f z.
Proof.
  induction fuel as [|fuel IH]; intros [|fuel'] f z Hr Hf; cbn [write_decompress_impl] in *; [done|done|lia|].
  destruct (m_zlib_stream z) as [stream|]; [|done]. destruct (prepare_out_buffer z) as [provided avail].
  destruct (called _ _ _ _) as [z' left]. destruct (negb _); [done|]. destruct ((0 =? left) && _).
  - destruct (inc_buffer z') as [z2|e]; [|done]. apply IH; [done | lia].
  - destruct (0 =? size (next_in z')); [done|]. apply IH; [done | lia].
Qed.

(** With enough fuel it comes to an end, always the same. *)
Definition ends {S} (m : nat -> run S) (r : result zlib_error unit) (s : S) : Prop :=
  exists enough, forall fuel, (enough <= fuel)%nat -> m fuel = Ended r s.

Lemma ends_now {S} r (s : S) : ends (fun _ => Ended r s) r s.
Proof. by exists O. Qed.

Lemma ends_then {S} (m : nat -> run S) f s r s' : ends m (Ok tt) s -> ends (fun fuel => f fuel s) r s' ->
  ends (fun fuel => then_ (m fuel) (f fuel)) r s'.
Proof.
  intros [n1 H1] [n2 H2]. exists (n1 + n2)%nat. intros fuel Hf. rewrite H1 by lia. cbn. apply H2. lia.
Qed.
Lemma ends_throw {S} (m : nat -> run S) f e s : ends m (Err e) s -> ends (fun fuel => then_ (m fuel) (f fuel)) (Err e) s.
Proof. intros [n1 H1]. exists n1. intros fuel Hf. by rewrite H1. Qed.
End Fuel.

(** What a user does with a transformator before [complete]. *)
Inductive zop : Type := Z_write (data : bytes) | Z_flush | Z_giveaway.

Definition written_data (ops : list zop) : bytes := ops ≫= fun o => match o with Z_write d => d | _ => [] end.
Definition fits_uInt (o : zop) : Prop := match o with Z_write d => size d <= uInt_max | _ => True end.

Section Runs.
Context {L : ZlibLibrary}.

(** With what was given away. *)
Definition beside (given : bytes) (m : run zlib_t) : run (bytes * zlib_t) :=
  match m with Running => Running | Ended r z => Ended r (given, z) end.

Definition zapply (fuel : nat) (o : zop) (s : bytes * zlib_t) : run (bytes * zlib_t) :=
  let '(given, z) := s in
  match o with
  | Z_write d => beside given (write fuel z d)
  | Z_flush => beside given (flush fuel z)
  | Z_giveaway => let '(out, z) := giveaway_output z in Ended (Ok tt) (given ++ out, z)
  end.

Fixpoint zrun (fuel : nat) (ops : list zop) (s : bytes * zlib_t) : run (bytes * zlib_t) :=
  match ops with [] => Ended (Ok tt) s | o :: ops => then_ (zapply fuel o s) (zrun fuel ops) end.

Definition zfinish (fuel : nat) (s : bytes * zlib_t) : run (bytes * zlib_t) :=
  then_ (beside s.1 (complete fuel s.2)) (zapply fuel Z_giveaway).
End Runs.

Section CompressRuns.
Context {L : ZlibLibrary} (bits : Z) (stands_for readable : bytes -> bytes -> Prop) `{!Deflates bits stands_for readable}.
Implicit Types z : zlib_t.

Definition open_compressor z : Prop :=
  good_params (m_params z) /\ good_strings /\ m_operation (m_params z) = compress /\
  m_format (m_params z) <> identity_format /\ m_operation_is_complete z = false.

Lemma same_open z z' : same_but_output z z' -> open_compressor z -> open_compressor z'.
Proof. intros [E1 E2]. unfold open_compressor. by rewrite E1, E2. Qed.

(** It ends by the one exception that the length of a string may cause, or so. *)
Definition ends_well_or_too_long {S} (m : nat -> run S) (P : S -> Prop) : Prop :=
  exists r s, ends m r s /\ (r = Err string_too_long \/ (r = Ok tt /\ P s)).

Lemma then_well {S} (m : nat -> run S) f (P Q : S -> Prop) : ends_well_or_too_long m P ->
  (forall s, P s -> ends_well_or_too_long (fun fuel => f fuel s) Q) -> ends_well_or_too_long (fun fuel => then_ (m fuel) (f fuel)) Q.
Proof.
  intros (r & s & Hm & [->|[-> HP]]) Hf.
  - exists (Err string_too_long), s. split; [by apply ends_throw | by left].
  - destruct (Hf s HP) as (r & s' & H1 & H2). exists r, s'. split; [|done]. by eapply ends_then.
Qed.

Lemma well_ext {S} (m m' : nat -> run S) P : (forall fuel, m' fuel = m fuel) -> ends_well_or_too_long m P -> ends_well_or_too_long m' P.
Proof. intros E (r & s & [n Hn] & H). exists r, s. split; [|done]. exists n. intros fuel Hf. by rewrite E, Hn. Qed.

Lemma beside_well given (m : nat -> run zlib_t) (P : bytes * zlib_t -> Prop) :
  ends_well_or_too_long m (fun z => P (given, z)) -> ends_well_or_too_long (fun fuel => beside given (m fuel)) P.
Proof.
  intros (r & z & [n Hn] & H). exists r, (given, z). split; [|done]. exists n. intros fuel Hf. by rewrite Hn.
Qed.

Lemma write_impl_well z given c p f : open_compressor z -> (f = Z_FINISH -> next_in z = []) -> compressing bits stands_for readable z given c p ->
  ends_well_or_too_long (fun fuel => write_impl fuel f z) (fun z' =>
    same_but_output z z' /\ next_in z' = [] /\ exists p', holds z' given p' /\
    (f <> Z_FINISH -> compressing bits stands_for readable z' given (c ++ next_in z) p') /\
    (f = Z_SYNC_FLUSH -> readable p' (c ++ next_in z)) /\ (f = Z_FINISH -> stands_for p' (c ++ next_in z))).
Proof.
  intros (Hp & Hs & Ho & Hi & Hn) Hfin (stream & Hz & Hd & Hh). set (n := turns_left bits stands_for readable z stream f).
  assert (E : forall fuel, write_impl fuel f z = write_compress_impl fuel f z) by (intros; unfold write_impl; by rewrite bool_decide_eq_true_2).
  assert (Hstop : forall r s, write_compress_impl n f z = Ended r s -> ends (fun fuel => write_impl fuel f z) r s).
  { intros r s Hr. exists n. intros fuel Hf. rewrite E, (compress_fuel n); [done|by rewrite Hr|done]. }
  destruct (compress_loop_ends bits stands_for readable z stream false f given c p) as [[z' Hr]|(z' & p' & Hr & H1 & H2 & H3 & H4 & H5 & H6)];
    [done..| |].
  - eexists _, z'. split; [by apply Hstop | by left].
  - eexists _, z'. split; [by apply Hstop|]. right. split; [done|]. split; [done|]. split; [done|]. by exists p'.
Qed.

Definition took (given c : bytes) (z : zlib_t) : Prop := open_compressor z /\ exists p, compressing bits stands_for readable z given c p.

Lemma took_input z given c i : took given c z -> took given c (with_input z i).
Proof. intros (Ho & p & stream & Hz & Hd & Hh). split; [done|]. by exists p, stream. Qed.

Lemma giveaway_took given c z : took given c z -> took (given ++ (giveaway_output z).1) c (giveaway_output z).2.
Proof.
  intros (Ho & p & stream & Hz & Hd & H1 & H2 & H3 & H4). pose proof Ho as (Hp & Hs & _).
  split; [done|]. exists p, stream. split; [done|]. split; [done|]. unfold good_params, good_strings in *.
  unfold holds, free in *. cbn [giveaway_output m_out_buffer m_write_pos m_params snd fst]. change (size []) with 0.
  split_and!; [lia..|]. rewrite <- H4. unfold resize, size in *. rewrite take_nil.
  replace (Z.to_nat (m_write_pos z) - length (m_out_buffer z))%nat with O by lia. by rewrite !app_nil_r.
Qed.

Lemma well_weaken {S} (m : nat -> run S) (P Q : S -> Prop) : ends_well_or_too_long m P -> (forall s, P s -> Q s) -> ends_well_or_too_long m Q.
Proof. intros (r & s & H1 & [->|[-> H2]]) HPQ; eexists _, s; (split; [done|]); [by left | right; auto]. Qed.

Lemma write_well given c z d : took given c z -> size d <= uInt_max ->
  ends_well_or_too_long (fun fuel => write fuel z d) (took given (c ++ d)).
Proof.
  intros ((Hp & Hs & Ho & Hi & Hn) & p & Hc) Hf.
  unfold write, ensure_operation_in_not_completed, is_identity. rewrite Hn, bool_decide_eq_false_2 by done.
  destruct (Z.ltb_spec uInt_max (size d)); [lia|]. destruct (Z.ltb_spec 0 (size d)) as [Hd|Hd].
  - eapply well_weaken; [apply (write_impl_well (with_input z d) given c p Z_NO_FLUSH); [done|done|by destruct Hc as (st & ?); exists st]|].
    intros z' (Hsame & _ & p' & _ & H3 & _). split; [by apply (same_open (with_input z d))|]. exists p'. by apply H3.
  - eexists _, z. split; [apply ends_now|]. right. split; [done|]. destruct d; [|unfold size in Hd; cbn in Hd; lia].
    rewrite app_nil_r. split; [done|]. by exists p.
Qed.

Lemma flush_well given c z : took given c z ->
  ends_well_or_too_long (fun fuel => flush fuel z) (fun z' =>
    took given c z' /\ exists p, compressing bits stands_for readable z' given c p /\ readable p c).
Proof.
  intros ((Hp & Hs & Ho & Hi & Hn) & p & Hc).
  unfold flush, ensure_operation_in_not_completed, is_identity. rewrite Hn, bool_decide_eq_false_2 by done. cbn [negb].
  eapply well_weaken; [apply (write_impl_well (with_input z []) given c p Z_SYNC_FLUSH); [done|done|by destruct Hc as (st & ?); exists st]|].
  intros z' (Hsame & _ & p' & _ & H3 & H4 & _). cbn [next_in with_input] in H3, H4. rewrite app_nil_r in H3, H4.
  split; [|exists p'; auto]. split; [by apply (same_open (with_input z []))|]. exists p'. by apply H3.
Qed.

Lemma zapply_well given c z o : took given c z -> fits_uInt o ->
  ends_well_or_too_long (fun fuel => zapply fuel o (given, z)) (fun s =>
    took s.1 (c ++ written_data [o]) s.2 /\ (o = Z_flush -> exists p, compressing bits stands_for readable s.2 s.1 c p /\ readable p c)).
Proof.
  intros Ht Hf. destruct o as [d| |]; cbn [zapply written_data mbind list_bind]; rewrite ?app_nil_r.
  - apply beside_well. eapply well_weaken; [by apply (write_well given c)|]. intros z' Hz'. by split.
  - apply beside_well. eapply well_weaken; [by apply (flush_well given c)|]. intros z' [H1 H2]. by split.
  - eexists _, _. split; [apply ends_now|]. right. split; [done|]. split; [|done]. by apply giveaway_took.
Qed.

Lemma written_data_cons o ops : written_data (o :: ops) = written_data [o] ++ written_data ops.
Proof. unfold written_data. cbn [mbind list_bind]. by rewrite app_nil_r. Qed.

Lemma zrun_well ops : Forall fits_uInt ops -> forall given c z, took given c z ->
  ends_well_or_too_long (fun fuel => zrun fuel ops (given, z)) (fun s => took s.1 (c ++ written_data ops) s.2).
Proof.
  induction 1 as [|o ops Ho _ IH]; intros given c z Ht; cbn [zrun].
  - eexists _, _. split; [apply ends_now|]. right. split; [done|]. by rewrite app_nil_r.
  - eapply then_well; [by eapply (zapply_well given c)|]. intros [given' z'] [Ht' _]. cbn [fst snd] in Ht'.
    rewrite written_data_cons, app_assoc. by apply IH.
Qed.

Lemma giveaway_text given z p : holds z given p -> given ++ (giveaway_output z).1 = p.
Proof.
  intros (H1 & _ & _ & <-). cbn [giveaway_output fst]. unfold resize, size in *.
  replace (Z.to_nat (m_write_pos z) - length (m_out_buffer z))%nat with O by lia. by rewrite app_nil_r.
Qed.

Lemma complete_well given c z : took given c z ->
  ends_well_or_too_long (fun fuel => complete fuel z) (fun z' =>
    exists p, holds z' given p /\ stands_for p c /\ m_operation_is_complete z' = true).
Proof.
  intros (Ho & p & Hc). pose proof Ho as (Hp & Hs & Hop & Hi & Hn).
  assert (Hid : is_identity z = false) by (unfold is_identity; by rewrite bool_decide_eq_false_2).
  unfold complete, ensure_operation_in_not_completed. rewrite Hn, Hid. cbn [negb].
  eapply then_well; [apply (write_impl_well (with_input z []) given c p Z_FINISH); [done|done|by destruct Hc as (st & ?); exists st]|].
  intros z' (Hsame & H1 & p' & H2 & _ & _ & H3). cbn [next_in with_input] in H3. rewrite app_nil_r in H3.
  eexists _, _. split; [apply ends_now|]. right. split; [done|]. exists p'. by split_and!; [|apply H3|].
Qed.

Lemma zfinish_well given c z : took given c z ->
  ends_well_or_too_long (fun fuel => zfinish fuel (given, z)) (fun s => stands_for s.1 c /\ m_operation_is_complete s.2 = true).
Proof.
  intros Ht. unfold zfinish. cbn [fst snd].
  apply (then_well _ _ (fun s => exists p, holds s.2 s.1 p /\ stands_for p c /\ m_operation_is_complete s.2 = true)).
  - by apply beside_well, (complete_well given c z).
  - intros [given' z'] (p' & H1 & H2 & H3). cbn [zapply fst snd] in *.
    destruct (giveaway_output z') as [out z2] eqn:E. eexists _, _. split; [apply ends_now|]. right. split; [done|]. cbn [fst snd].
    apply giveaway_text in H1. rewrite E in H1. cbn [fst] in H1. rewrite H1. split; [done|]. by injection E as _ <-.
Qed.

(** The window bits that tell the library the format. *)
Definition stream_bits ps : Z := if bool_decide (gzip_format = m_format ps) then m_window_bits ps + 16 else m_window_bits ps.

Lemma create_took ps z : good_params ps -> good_strings -> m_operation ps = compress -> m_format ps <> identity_format ->
  stream_bits ps = bits -> zlib_create ps = Ok z -> took [] [] z.
Proof.
  intros Hp Hs Ho Hi Hb. unfold zlib_create. rewrite bool_decide_eq_false_2, bool_decide_eq_true_2 by done.
  destruct (deflateInit2 _ _ _ _) as [res stream] eqn:E. destruct (bool_decide_reflect (Z_OK = res)) as [<-|Hres]; [|by intros]. cbn [negb].
  set (z0 := mk_zlib _ _ _ _ _ _). intros Hz.
  assert (H0 : holds z0 [] []).
  { unfold holds, free, z0, good_params, good_strings in *. cbn [m_out_buffer m_write_pos m_params]. change (size []) with 0.
    split_and!; [lia..|done]. }
  destruct (inc_buffer_grows z0 [] []) as [Hz'|(z' & Hz' & Hh & _ & E1 & E2 & E3 & E4)]; [done..|congruence|].
  rewrite Hz in Hz'. injection Hz' as <-. split; [unfold open_compressor; by rewrite E1, E4|]. exists [], stream.
  split; [done|]. split; [|done]. eapply (deflate_start (bits := bits)). rewrite <- Hb. exact E.
Qed.

(** *** Appenders of chunked responses *)

Section Appender.
Context (fmt_X : Z -> bytes) (start : chunked_resp).

Inductive appender_op : Type := A_append (data : bytes) | A_make_chunk (data : bytes) | A_flush.
Definition appended_data (ops : list appender_op) : bytes :=
  ops ≫= fun o => match o with A_append d | A_make_chunk d => d | A_flush => [] end.
Definition op_fits (o : appender_op) : Prop := match o with A_append d | A_make_chunk d => size d <= uInt_max | A_flush => True end.

Definition apply_appender (fuel : nat) (o : appender_op) (a : appender_t chunked_resp) : run (appender_t chunked_resp) :=
  match o with
  | A_append d => chunked_appender_append fuel a d
  | A_make_chunk d => make_chunk fuel a d
  | A_flush => chunked_appender_flush fmt_X fuel a
  end.
Fixpoint run_appender (fuel : nat) (ops : list appender_op) (a : appender_t chunked_resp) : run (appender_t chunked_resp) :=
  match ops with [] => Ended (Ok tt) a | o :: ops => then_ (apply_appender fuel o a) (run_appender fuel ops) end.

(** The builder is as these calls of its own make it. *)
Definition builds (r : chunked_resp) (given : bytes) : Prop :=
  exists bops, Forall chunk_ok bops /\ foldM (Chunked.apply fmt_X) start bops = Ok r /\ concat (chunks_of bops) = given.

Definition appending (a : appender_t chunked_resp) (c : bytes) : Prop :=
  exists z given, m_ztransformator a = Some z /\ took given c z /\ builds (m_resp a) given.

Lemma on_transformator_well {resp_t} (a : appender_t resp_t) z (f : nat -> zlib_t -> run zlib_t) rest P Q :
  m_ztransformator a = Some z -> ends_well_or_too_long (fun fuel => f fuel z) P ->
  (forall z', P z' -> ends_well_or_too_long (fun fuel => rest fuel z') Q) ->
  ends_well_or_too_long (fun fuel => on_transformator a (f fuel) (rest fuel)) Q.
Proof.
  intros Hz (r & z' & [n Hn] & Hr) Hrest. unfold on_transformator. rewrite Hz. destruct Hr as [->|[-> HP]].
  - exists (Err string_too_long), (mk_appender (Some z') (m_resp a)). split; [|by left]. exists n. intros fuel Hf. by rewrite Hn.
  - destruct (Hrest z' HP) as (r & s & [n' Hn'] & Hr). exists r, s. split; [|done]. exists (n + n')%nat. intros fuel Hf.
    rewrite Hn by lia. apply Hn'. lia.
Qed.

Lemma ended_well {S} (s : S) (P : S -> Prop) : P s -> ends_well_or_too_long (fun _ => Ended (Ok tt) s) P.
Proof. intros HP. eexists _, s. split; [apply ends_now | by right]. Qed.

Lemma foldM_snoc {E A B} (f : A -> B -> result E A) l b : forall s, foldM f s (l ++ [b]) = (s ← foldM f s l; f s b).
Proof.
  induction l as [|x l IH]; intros s; cbn [app foldM].
  - cbn. by destruct (f s b).
  - destruct (f s x); cbn [mbind result_bind]; [apply IH | done].
Qed.

Lemma chunks_of_app a b : chunks_of (a ++ b) = chunks_of a ++ chunks_of b.
Proof. apply bind_app. Qed.

Lemma builds_chunk r given out : builds r given -> size out < 2 ^ 64 -> builds (chunked_append r out) (given ++ out).
Proof.
  intros (bops & Hok & Hr & Hg) Hout. exists (bops ++ [Chunked.Chunk (TrivialItem out)]). split_and!.
  - apply Forall_app. split; [done|]. by constructor.
  - rewrite foldM_snoc, Hr. cbn [mbind result_bind]. by destruct r.
  - rewrite chunks_of_app, concat_app, Hg. f_equal. destruct out as [|x out]; [done|]. cbn. by rewrite app_nil_r.
Qed.

Context (Hstart : m_connected (Chunked.base start.2) = true) (Hchunks : Chunked.m_chunks start.2 = []).

Lemma builds_flush r given : builds r given ->
  exists r', Chunked.apply fmt_X r (Chunked.Flush None) = Ok r' /\ builds r' given.
Proof.
  intros (bops & Hok & Hr & Hg).
  assert (Hok' : Forall chunk_ok (bops ++ [Chunked.Flush None])) by (apply Forall_app; split; [done | by constructor]).
  destruct (run_ops fmt_X (bops ++ [Chunked.Flush None]) Hok' start.1 start.2 []) as (ws & b' & fl & pend' & H & _); [done|done|].
  pose proof H as H'. rewrite <- surjective_pairing, foldM_snoc, Hr in H'. cbn [mbind result_bind] in H'.
  eexists. split; [exact H'|]. exists (bops ++ [Chunked.Flush None]). split; [done|].
  rewrite <- surjective_pairing in H. split; [exact H|]. by rewrite chunks_of_app, concat_app, Hg, app_nil_r.
Qed.

Lemma out_fits given c z : took given c z -> size (giveaway_output z).1 < 2 ^ 64.
Proof.
  intros ((_ & Hs & _) & p & stream & _ & _ & H1 & _ & H3 & _). unfold good_strings in Hs. cbn. unfold resize, size in *.
  rewrite length_app, length_take, length_replicate. lia.
Qed.

Lemma give_appends a z given c : took given c z -> builds (m_resp a) given -> appending (give a z chunked_append) c.
Proof.
  intros Ht Hb. pose proof (giveaway_took given c z Ht) as Ht'. pose proof (out_fits given c z Ht) as Hf. unfold give.
  destruct (giveaway_output z) as [out z']. cbn [fst snd] in *. exists z', (given ++ out). split; [done|]. split; [done|]. by apply builds_chunk.
Qed.

Lemma append_well a c d : appending a c -> size d <= uInt_max ->
  ends_well_or_too_long (fun fuel => chunked_appender_append fuel a d) (fun a' => appending a' (c ++ d)).
Proof.
  intros (z & given & Hz & Ht & Hb) Hd. eapply on_transformator_well; [done|by apply (write_well given c)|].
  intros z' Ht'. apply ended_well. by exists z', given.
Qed.

Lemma apply_appender_well a c o : appending a c -> op_fits o ->
  ends_well_or_too_long (fun fuel => apply_appender fuel o a) (fun a' => appending a' (c ++ appended_data [o])).
Proof.
  intros Ha Ho. destruct o as [d|d|]; cbn [apply_appender appended_data mbind list_bind]; rewrite ?app_nil_r.
  - by apply append_well.
  - eapply then_well; [by apply (append_well a c)|]. intros a' (z & given & Hz & Ht & Hb).
    eapply on_transformator_well; [done|by apply (flush_well given (c ++ d))|].
    intros z' [Ht' _]. by eapply ended_well, give_appends.
  - destruct Ha as (z & given & Hz & Ht & Hb). pose proof Ht as ((_ & _ & _ & _ & Hn) & _).
    unfold chunked_appender_flush. rewrite Hz, Hn. cbn [negb].
    eapply on_transformator_well; [done|by apply (flush_well given c)|]. intros z' [Ht' _].
    pose proof (give_appends a z' given c Ht' Hb) as (z2 & given2 & Hz2 & Ht2 & Hb2).
    destruct (builds_flush _ _ Hb2) as (r' & Hr' & Hb'). unfold flush_response. rewrite Hr'. apply ended_well. by exists z2, given2.
Qed.

Lemma run_appender_well ops : Forall op_fits ops -> forall a c, appending a c ->
  ends_well_or_too_long (fun fuel => run_appender fuel ops a) (fun a' => appending a' (c ++ appended_data ops)).
Proof.
  induction 1 as [|o ops Ho _ IH]; intros a c Ha; cbn [run_appender].
  - apply ended_well. by rewrite app_nil_r.
  - eapply then_well; [by eapply (apply_appender_well a c)|]. intros a' Ha'.
    assert (E : appended_data (o :: ops) = appended_data [o] ++ appended_data ops) by (unfold appended_data; cbn [mbind list_bind]; by rewrite app_nil_r).
    rewrite E, app_assoc. by apply IH.
Qed.

Lemma complete_appender_well a c : appending a c ->
  ends_well_or_too_long (fun fuel => chunked_appender_complete fuel a) (fun a' =>
    exists bops, Forall chunk_ok bops /\ foldM (Chunked.apply fmt_X) start bops = Ok (m_resp a') /\
      stands_for (concat (chunks_of bops)) c).
Proof.
  intros (z & given & Hz & Ht & Hb). eapply on_transformator_well; [done|by apply (complete_well given c)|].
  intros z' (p & Hh & Hp & _). apply ended_well. unfold give.
  assert (Hf : size (giveaway_output z').1 < 2 ^ 64).
  { destruct Ht as ((_ & Hs & _) & _), Hh as (H1 & _ & H3 & _). unfold good_strings in Hs. cbn. unfold resize, size in *.
    rewrite length_app, length_take, length_replicate. lia. }
  apply giveaway_text in Hh. destruct (giveaway_output z') as [out z2]. cbn [fst snd m_resp] in *.
  destruct (builds_chunk _ _ out Hb Hf) as (bops & Hok & Hr & Hg). exists bops. split_and!; [done|done|]. by rewrite Hg, Hh.
Qed.
End Appender.
End CompressRuns.

(** ** Decompression *)

Section Decompress.
Context {L : ZlibLibrary} (bits : Z) (stands_for : bytes -> bytes -> Prop) `{!Inflates bits stands_for}.
Implicit Types z : zlib_t.

(** The loop does not end when there is input behind the stream. *)
Lemma loops_at_the_end fuel : forall z stream f given p, good_params (m_params z) -> good_strings ->
  m_zlib_stream z = Some stream -> at_end stream -> holds z given p -> next_in z <> [] ->
  write_decompress_impl fuel f z = Running.
Proof.
  induction fuel as [|fuel IH]; intros z stream f given p Hp Hs Hz He Hh Hn; cbn [write_decompress_impl]; [done|].
  rewrite Hz, (prepare_free z given p) by done.
  assert (Hfree : 0 <= free z) by (destruct Hh as (? & _); unfold free; lia).
  pose proof (inflate_after_end stream f (next_in z) (free z) He Hfree) as (H1 & H2 & H3 & H4).
  set (a := inflate stream f (next_in z) (free z)) in *.
  destruct (called_holds z given p a) as (z' & -> & Hh' & Hf' & Hp' & Hz' & Hn' & Hm');
    [done..|rewrite H3; change (size []) with 0; lia|].
  rewrite H1. cbn [bool_decide negb orb]. rewrite orb_true_r, andb_false_r. cbn [negb]. rewrite Hn', H2, drop_0.
  destruct (Z.eqb_spec 0 (size (next_in z))) as [E|_]; [unfold size in E; destruct (next_in z); [done | cbn in E; lia]|].
  eapply IH; [by rewrite Hp'|done|done|done|done|]. by rewrite Hn', H2, drop_0.
Qed.

Definition decompressing z c p : Prop :=
  exists stream, m_zlib_stream z = Some stream /\ inflating stream c p.

(** What the loop comes to: the string is too long, or the whole stream has been read and there is
    nothing behind it, or something is and the loop goes on for ever, or the stream is not
    all there. *)
Inductive loop_outcome z given c x y : run zlib_t -> Prop :=
| lo_too_long z' : loop_outcome z given c x y (Ended (Err string_too_long) z')
| lo_whole z' stream : c ++ next_in z = x -> same_but_output z z' -> holds z' given y -> next_in z' = [] ->
    m_zlib_stream z' = Some stream -> at_end stream -> loop_outcome z given c x y (Ended (Ok tt) z')
| lo_behind l : c ++ next_in z = x ++ l -> l <> [] -> loop_outcome z given c x y Running
| lo_part z' p : c ++ next_in z `prefix_of` x -> c ++ next_in z <> x -> same_but_output z z' -> holds z' given p ->
    next_in z' = [] -> decompressing z' (c ++ next_in z) p -> p `prefix_of` y -> loop_outcome z given c x y (Ended (Ok tt) z').

Definition inflate_turns z (p y : bytes) : nat := 2 * (length y - length p) + (if decide (free z = 0) then 1 else 0).

Lemma decompress_loop fuel x y (Hxy : stands_for x y) : forall z stream f given c p,
  good_params (m_params z) -> good_strings -> m_zlib_stream z = Some stream -> inflating stream c p -> holds z given p ->
  agrees c (next_in z) x -> p `prefix_of` y -> (inflate_turns z p y < fuel)%nat ->
  loop_outcome z given c x y (write_decompress_impl fuel f z).
Proof.
  induction fuel as [|fuel IH]; intros z stream f given c p Hp Hs Hz Hd Hh Ha Hpy Hf; [lia|].
  cbn [write_decompress_impl]. rewrite Hz, (prepare_free z given p) by done.
  assert (Hfree : 0 <= free z) by (destruct Hh as (? & _); unfold free; lia).
  pose proof (inflate_sizes stream c p f (next_in z) (free z) x y Hd Hfree Hxy Ha) as (Ho & Hc).
  pose proof (inflate_whole stream c p f (next_in z) (free z) x y Hd Hfree Hxy Ha) as Hwhole.
  pose proof (inflate_goes_on stream c p f (next_in z) (free z) x y Hd Hfree Hxy Ha) as Hgo.
  set (a := inflate stream f (next_in z) (free z)) in *. cbn beta zeta in *.
  destruct (called_holds z given p a) as (z' & -> & Hh' & Hf' & Hp' & Hz' & Hn' & Hm'); [done..|].
  destruct (decide (za_result a = Z_STREAM_END)) as [He|He].
  - rewrite He. cbn [bool_decide negb orb]. rewrite orb_true_r, andb_false_r. cbn [negb]. destruct (Hwhole He) as (Hx & Hy & Hend).
    destruct (Z.eqb_spec 0 (size (next_in z'))) as [E|E].
    + assert (E' : next_in z' = []) by (unfold size in E; destruct (next_in z'); [done | cbn in E; lia]).
      assert (Hall : take (za_consumed a) (next_in z) = next_in z) by (rewrite <- (take_drop (za_consumed a) (next_in z)) at 2; by rewrite <- Hn', E', app_nil_r).
      rewrite Hall in Hx. rewrite Hy in Hh'. by eapply lo_whole.
    + rewrite (loops_at_the_end fuel z' (za_stream a) f given (p ++ za_output a)); [|by rewrite Hp'|done..|by intros E'; rewrite E' in E].
      apply (lo_behind _ _ _ _ _ (next_in z')); [|by intros E'; rewrite E' in E]. by rewrite Hn', <- Hx, <- app_assoc, take_drop.
  - destruct (Hgo He) as (Hr & Hinf & Hpre & Hroom).
    assert (Hres : negb (bool_decide (Z_OK = za_result a) || bool_decide (Z_BUF_ERROR = za_result a) || bool_decide (Z_STREAM_END = za_result a)) = false)
      by (destruct Hr as [-> | ->]; done).
    rewrite Hres, (bool_decide_eq_false_2 (Z_STREAM_END = _)) by congruence. cbn [negb]. rewrite andb_true_r.
    destruct (Z.eqb_spec 0 (free z - size (za_output a))) as [E|E].
    + destruct (inc_buffer_grows z' given (p ++ za_output a)) as [->|(z2 & -> & Hh2 & Hf2 & Hp2 & Hz2 & Hn2 & Hm2)];
        [by rewrite Hp'|done|done|lia|constructor|].
      assert (Hag : agrees (c ++ take (za_consumed a) (next_in z)) (next_in z2) x).
      { unfold agrees. rewrite Hn2, Hn', <- (app_assoc c), take_drop. exact Ha. }
      assert (Hlt : (inflate_turns z2 (p ++ za_output a) y < fuel)%nat).
      { apply prefix_length in Hpre. unfold inflate_turns, good_params in *. rewrite Hp' in Hf2. rewrite length_app in *.
        rewrite (decide_False (P := free z2 = 0)) by lia. destruct (decide (free z = 0)); unfold size in *; lia. }
      destruct (IH z2 (za_stream a) f given (c ++ take (za_consumed a) (next_in z)) (p ++ za_output a)) as
        [z3|z3 st H1 [H2 H2'] H3 H4 H5 H6|l H1 H2|z3 q H1 H1' [H2 H2'] H3 H4 H5 H6];
        [by rewrite Hp2, Hp'|done|congruence|done..|constructor| | |];
        rewrite Hn2, Hn', <- app_assoc, take_drop in *.
      * eapply lo_whole; try done. split; congruence.
      * by eapply lo_behind.
      * eapply lo_part; try done. split; congruence.
    + destruct (Hroom ltac:(lia)) as (Hall & Hcx & Hne). rewrite Hn', Hall, drop_all. cbn [size length Z.of_nat Z.eqb].
      rewrite Hall, take_ge in Hinf by lia. eapply (lo_part _ _ _ _ _ _ (p ++ za_output a)); try done.
      * by rewrite Hn', Hall, drop_all.
      * by exists (za_stream a).
Qed.

(** A call when the stream has ended and there is no input. *)
Lemma call_at_the_end fuel z stream f given p : good_params (m_params z) -> good_strings ->
  m_zlib_stream z = Some stream -> at_end stream -> holds z given p -> next_in z = [] ->
  exists z' stream', write_decompress_impl (S fuel) f z = Ended (Ok tt) z' /\ holds z' given p /\ same_but_output z z' /\
    m_zlib_stream z' = Some stream' /\ at_end stream'.
Proof.
  intros Hp Hs Hz He Hh Hn. cbn [write_decompress_impl]. rewrite Hz, (prepare_free z given p) by done.
  assert (Hfree : 0 <= free z) by (destruct Hh as (? & _); unfold free; lia).
  pose proof (inflate_after_end stream f (next_in z) (free z) He Hfree) as (H1 & H2 & H3 & H4).
  set (a := inflate stream f (next_in z) (free z)) in *.
  destruct (called_holds z given p a) as (z' & -> & Hh' & Hf' & Hp' & Hz' & Hn' & Hm');
    [done..|rewrite H3; change (size []) with 0; lia|].
  rewrite H1. cbn [bool_decide negb orb]. rewrite orb_true_r, andb_false_r. cbn [negb]. rewrite Hn', H2, drop_0, Hn.
  change (0 =? size []) with true. cbv iota. exists z', (za_stream a). rewrite H3, app_nil_r in Hh'. by split_and!.
Qed.

Definition open_decompressor z : Prop :=
  good_params (m_params z) /\ good_strings /\ m_operation (m_params z) = decompress /\
  m_format (m_params z) <> identity_format /\ m_operation_is_complete z = false.

Lemma same_open_decompressor z z' : same_but_output z z' -> open_decompressor z -> open_decompressor z'.
Proof. intros [E1 E2]. unfold open_decompressor. by rewrite E1, E2. Qed.

(** What has been read of [x], and what it has given. *)
Definition read_so_far z given c x y : Prop :=
  open_decompressor z /\ exists stream p, m_zlib_stream z = Some stream /\ holds z given p /\
    ((c = x /\ p = y /\ at_end stream) \/ (c `prefix_of` x /\ inflating stream c p /\ p `prefix_of` y)).

Lemma write_impl_inflates fuel f z : open_decompressor z -> write_impl fuel f z = write_decompress_impl fuel f z.
Proof. intros (_ & _ & Ho & _). unfold write_impl. rewrite Ho. done. Qed.

Lemma prefix_agrees c i x : c ++ i `prefix_of` x -> agrees c i x.
Proof. intros [l ->]. exists l, []. by rewrite app_nil_r. Qed.

(** The result of enough fuel stays. *)
Lemma inflates_stably n f z (P : zlib_t -> Prop) : open_decompressor z ->
  ((exists z', write_decompress_impl n f z = Ended (Err string_too_long) z') \/
   exists z', write_decompress_impl n f z = Ended (Ok tt) z' /\ P z') ->
  ends_well_or_too_long (fun fuel => write_impl fuel f z) P.
Proof.
  intros Ho Hn.
  assert (Hstop : forall r s, write_decompress_impl n f z = Ended r s -> ends (fun fuel => write_impl fuel f z) r s).
  { intros r s Hr. exists n. intros fuel Hf. rewrite write_impl_inflates, (decompress_fuel n); [done|by rewrite Hr|done|done]. }
  destruct Hn as [[z' E]|(z' & E & HP)]; eexists _, z'; (split; [by apply Hstop|]); [by left | by right].
Qed.

Lemma read_input z given c i x y f : stands_for x y -> read_so_far z given c x y -> c ++ i `prefix_of` x ->
  ends_well_or_too_long (fun fuel => write_impl fuel f (with_input z i)) (fun z' =>
    same_but_output z z' /\ read_so_far z' given (c ++ i) x y /\ (c ++ i = x -> holds z' given y)).
Proof.
  intros Hxy (Ho & stream & p & Hz & Hh & Hst) Hi. pose proof Ho as (Hp & Hs & _).
  destruct Hst as [(-> & -> & He)|(Hc & Hd & Hpy)].
  - assert (i = []) as ->.
    { apply prefix_length in Hi. rewrite length_app in Hi. destruct i; [done | cbn in Hi; lia]. }
    apply (inflates_stably 1); [done|]. right.
    destruct (call_at_the_end 0 (with_input z []) stream f given y) as (z' & st & E & Hh' & Hsame & Hz' & He'); [done..|].
    exists z'. split; [exact E|]. split; [done|]. split; [|done]. split; [by eapply (same_open_decompressor (with_input z []))|].
    exists st, y. split_and!; [done..|]. left. by rewrite app_nil_r.
  - apply (inflates_stably (S (inflate_turns (with_input z i) p y))); [done|].
    destruct (decompress_loop (S (inflate_turns (with_input z i) p y)) x y Hxy (with_input z i) stream f given c p) as
      [z'|z' st H1 H2 H3 H4 H5 H6|l H1 H2|z' q H1 H1' H2 H3 H4 (st & H5 & H5') H6];
      [done..|by apply prefix_agrees|done|lia|by left; eexists| | |]; cbn [next_in with_input] in *.
    + right. exists z'. split; [done|]. split; [done|]. split; [|done]. split; [by eapply (same_open_decompressor (with_input z i))|].
      exists st, y. split_and!; [done..|]. by left.
    + apply prefix_length in Hi. rewrite H1, length_app in Hi. destruct l; [done | cbn in Hi; lia].
    + right. exists z'. split; [done|]. split; [done|]. split; [|by intros ?]. split; [by eapply (same_open_decompressor (with_input z i))|].
      exists st, q. split_and!; [done..|]. by right.
Qed.

Lemma create_open ps z : good_params ps -> good_strings -> m_operation ps = decompress -> m_format ps <> identity_format ->
  stream_bits ps = bits -> zlib_create ps = Ok z -> forall x y, stands_for x y -> read_so_far z [] [] x y.
Proof.
  intros Hp Hs Ho Hi Hb Hz x y Hxy. unfold zlib_create in Hz. rewrite bool_decide_eq_false_2 in Hz by done.
  rewrite Ho in Hz. change (bool_decide (compress = decompress)) with false in Hz. cbv iota in Hz.
  fold (stream_bits ps) in Hz. rewrite Hb in Hz.
  destruct (inflateInit2 bits) as [res stream] eqn:E.
  destruct (bool_decide_reflect (Z_OK = res)) as [<-|Hres]; [|done]. cbn [negb] in Hz.
  set (z0 := mk_zlib _ _ _ _ _ _) in Hz.
  assert (H0 : holds z0 [] []).
  { unfold holds, free, z0, good_params, good_strings in *. cbn [m_out_buffer m_write_pos m_params]. change (size []) with 0.
    split_and!; [lia..|done]. }
  destruct (inc_buffer_grows z0 [] []) as [Hz'|(z' & Hz' & Hh & _ & E1 & E2 & E3 & E4)]; [done..|congruence|].
  rewrite Hz in Hz'. injection Hz' as <-. split; [unfold open_decompressor; by rewrite E1, E4|]. exists stream, [].
  split; [done|]. split; [done|]. right. split; [apply prefix_nil|]. split; [by apply inflate_start | apply prefix_nil].
Qed.

Lemma write_reads z given c i x y : stands_for x y -> read_so_far z given c x y -> c ++ i `prefix_of` x -> size i <= uInt_max ->
  ends_well_or_too_long (fun fuel => write fuel z i) (fun z' => read_so_far z' given (c ++ i) x y).
Proof.
  intros Hxy Hz Hi Hsize. pose proof Hz as ((Hp & Hs & Ho & Hid & Hn) & _).
  unfold write, ensure_operation_in_not_completed, is_identity. rewrite Hn, bool_decide_eq_false_2 by done.
  destruct (Z.ltb_spec uInt_max (size i)); [lia|]. destruct (Z.ltb_spec 0 (size i)) as [Hd|Hd].
  - destruct (read_input z given c i x y Z_NO_FLUSH) as (r & z' & He & Hr); [done..|]. exists r, z'. split; [done|].
    destruct Hr as [|(-> & _ & ? & _)]; [by left | by right].
  - assert (i = []) as -> by (destruct i; [done | unfold size in Hd; cbn in Hd; lia]). rewrite app_nil_r.
    eexists _, z. split; [apply ends_now|]. by right.
Qed.

Lemma complete_reads z given c x y : stands_for x y -> read_so_far z given c x y -> c `prefix_of` x ->
  ends_well_or_too_long (fun fuel => complete fuel z) (fun z' =>
    (exists p, holds z' given p /\ p `prefix_of` y) /\ (c = x -> holds z' given y)).
Proof.
  intros Hxy Hz Hc. pose proof Hz as ((Hp & Hs & Ho & Hid & Hn) & _).
  unfold complete, ensure_operation_in_not_completed, is_identity. rewrite Hn, bool_decide_eq_false_2 by done. cbn [negb].
  eapply then_well; [apply (read_input z given c [] x y Z_FINISH); [done..|by rewrite app_nil_r]|].
  intros z' (_ & (_ & stream & p & Hz' & Hh & Hst) & Hx). rewrite app_nil_r in Hst, Hx.
  eexists _, _. split; [apply ends_now|]. right. split; [done|]. split; [|done].
  exists p. split; [done|]. by destruct Hst as [(_ & -> & _)|(_ & _ & Hpy)].
Qed.

Definition decompressor (ps : params_t) : Prop :=
  good_params ps /\ m_operation ps = decompress /\ m_format ps <> identity_format /\ stream_bits ps = bits.

Lemma create_decompressor ps : good_strings -> decompressor ps -> (inflateInit2 bits).1 = Z_OK ->
  zlib_create ps = Err string_too_long \/ exists z, zlib_create ps = Ok z /\ forall x y, stands_for x y -> read_so_far z [] [] x y.
Proof.
  intros Hs (Hp & Ho & Hi & Hb) Hinit. destruct (zlib_create ps) as [z|e] eqn:Hz.
  - right. exists z. split; [done|]. by apply (create_open ps).
  - left. unfold zlib_create in Hz. rewrite bool_decide_eq_false_2 in Hz by done. rewrite Ho in Hz.
    change (bool_decide (compress = decompress)) with false in Hz. cbv iota in Hz. fold (stream_bits ps) in Hz. rewrite Hb in Hz.
    destruct (inflateInit2 bits) as [res stream]. cbn [fst] in Hinit. subst res. cbn [bool_decide negb] in Hz.
    unfold inc_buffer in Hz. destruct (string_max_size <? _) in Hz; [|done]. by injection Hz as <-.
Qed.

(** It ends with a value of [P], or because a string would be too long. *)
Definition results_in {R} (m : nat -> option (result zlib_error R)) (P : R -> Prop) : Prop :=
  exists enough r, (forall fuel, (enough <= fuel)%nat -> m fuel = Some r) /\
    (r = Err string_too_long \/ exists v, r = Ok v /\ P v).

Lemma transform_reads ps x y b : good_strings -> decompressor ps -> (inflateInit2 bits).1 = Z_OK -> stands_for x y ->
  b `prefix_of` x -> size b <= uInt_max ->
  results_in (fun fuel => transform fuel b ps) (fun v => v `prefix_of` y /\ (b = x -> v = y)).
Proof.
  intros Hs Hps Hinit Hxy Hb Hsize. unfold transform.
  destruct (create_decompressor ps Hs Hps Hinit) as [->|(z & -> & Hz)]; [exists O, (Err string_too_long); by split; [|left]|].
  destruct (then_well (fun fuel => write fuel z b) complete (fun z' => read_so_far z' [] b x y)
    (fun z' => (exists p, holds z' [] p /\ p `prefix_of` y) /\ (b = x -> holds z' [] y))) as (r & z' & [n Hn] & Hr).
  { apply (write_reads z [] [] b x y); auto. }
  { intros z' Hz'. by apply (complete_reads z' [] b x y). }
  destruct Hr as [->|[-> [(p & Hh & Hp) Hx]]].
  - exists n, (Err string_too_long). split; [|by left]. intros fuel Hf. by rewrite Hn.
  - exists n, (Ok (giveaway_output z').1). split; [intros fuel Hf; by rewrite Hn|]. right. eexists. split; [done|].
    apply giveaway_text in Hh. cbn [app] in Hh. rewrite Hh. split; [done|]. intros E. apply Hx, giveaway_text in E. cbn [app] in E. congruence.
Qed.

Lemma transform_loops ps x y l fuel : good_strings -> decompressor ps -> (inflateInit2 bits).1 = Z_OK -> stands_for x y ->
  l <> [] -> size (x ++ l) <= uInt_max ->
  transform fuel (x ++ l) ps = None \/ transform fuel (x ++ l) ps = Some (Err string_too_long).
Proof.
  intros Hs Hps Hinit Hxy Hl Hsize. unfold transform.
  destruct (create_decompressor ps Hs Hps Hinit) as [->|(z & -> & Hz)]; [by right|].
  pose proof (Hz x y Hxy) as ((Hp & _ & Ho & Hid & Hn) & stream & p & Hz' & Hh & Hst).
  assert (Hne : x ++ l <> []) by (destruct x; [by destruct l | done]).
  assert (Hloop : forall fuel f, (exists z', write_decompress_impl fuel f (with_input z (x ++ l)) = Ended (Err string_too_long) z') \/
    write_decompress_impl fuel f (with_input z (x ++ l)) = Running).
  { intros k f. destruct Hst as [(<- & -> & He)|(_ & Hd & Hpy)].
    - right. by eapply (loops_at_the_end k (with_input z _) stream f []).
    - set (n := S (k + inflate_turns (with_input z (x ++ l)) p y)).
      assert (Hout : (exists z', write_decompress_impl n f (with_input z (x ++ l)) = Ended (Err string_too_long) z') \/
        write_decompress_impl n f (with_input z (x ++ l)) = Running).
      { destruct (decompress_loop n x y Hxy (with_input z (x ++ l)) stream f [] [] p) as [z'|z' st H1|k' H1 H2|z' q H1];
          [done..|exists [], l; by rewrite app_nil_r|done|unfold n; lia|by left; eexists| |by right|]; cbn [next_in with_input app] in *.
        - apply (f_equal length) in H1. rewrite length_app in H1. destruct l; [done | cbn in H1; lia].
        - apply prefix_length in H1. rewrite length_app in H1. destruct l; [done | cbn in H1; lia]. }
      destruct (write_decompress_impl k f _) as [|r' z'] eqn:E; [by right|].
      rewrite (decompress_fuel k) in Hout by (rewrite ?E; done || lia). rewrite E in Hout. destruct Hout as [[z2 [= -> ->]]|?]; [left; by eexists|done]. }
  unfold write, ensure_operation_in_not_completed, is_identity. rewrite Hn, bool_decide_eq_false_2 by done.
  destruct (Z.ltb_spec uInt_max (size (x ++ l))); [lia|]. destruct (Z.ltb_spec 0 (size (x ++ l))) as [Hd|Hd].
  - unfold write_impl. cbn [with_input m_params]. rewrite Ho. change (bool_decide (compress = decompress)) with false. cbv iota.
    destruct (Hloop fuel Z_NO_FLUSH) as [[z' ->]| ->]; [by right | by left].
  - destruct (x ++ l); [done | unfold size in Hd; cbn in Hd; lia].
Qed.
End Decompress.
