(* ===== verification/ZlibTheorems.v ===== *)
(** * Compression: what comes out

    The theorems on compression, on compressed responses and on compressed
    requests, for every library that does what zlib.h documents; they are
    applied to a small library of that kind, whose format makes two bytes of a byte and
    ends with a zero. *)

From S2P Require Import Prelude Sendfile WriteGroup RespCoord Headers Builders Zlib ZlibProofs.

(** ** A small library *)

Definition enc (y : bytes) : bytes := y ≫= fun b => [1; b].
Definition toy_stream (x y : bytes) : Prop := x = enc y ++ [0].
Definition toy_readable (x y : bytes) : Prop := x = enc y.

Inductive toy_state : Type :=
| Packing (fin : bool) (out : bytes)
| Unpacking (esc ended : bool) (out : bytes).

(** What is taken of the input, what it gives, and the state behind it. *)
Fixpoint toy_parse (esc : bool) (i : bytes) : nat * bytes * bool * bool * bool :=
  match i with
  | [] => (0%nat, [], esc, false, false)
  | c :: i =>
      if esc then let '(k, new, esc, ended, bad) := toy_parse false i in (S k, c :: new, esc, ended, bad)
      else if c =? 1 then let '(k, new, esc, ended, bad) := toy_parse true i in (S k, new, esc, ended, bad)
      else (1%nat, [], false, true, negb (c =? 0))
  end.

Definition toy_deflate (s : toy_state) (f : flush_t) (i : bytes) (n : Z) : answer_t toy_state :=
  match s with
  | Packing fin out =>
      let finish := bool_decide (f = Z_FINISH) in
      let all := out ++ enc i ++ (if finish && negb fin then [0] else []) in
      let left := drop (Z.to_nat n) all in
      mk_answer (if finish && bool_decide (left = []) then Z_STREAM_END else Z_OK) (length i) (take (Z.to_nat n) all)
        (Packing (fin || finish) left)
  | _ => mk_answer (Z_OTHER (-2)) 0 [] s
  end.

Definition toy_inflate (s : toy_state) (f : flush_t) (i : bytes) (n : Z) : answer_t toy_state :=
  match s with
  | Unpacking esc ended out =>
      let '(k, new, esc, ended, bad) := if ended then (0%nat, [], esc, true, false) else toy_parse esc i in
      let all := out ++ new in
      let left := drop (Z.to_nat n) all in
      mk_answer (if bad then Z_OTHER (-3) else if ended && bool_decide (left = []) then Z_STREAM_END else Z_OK) k
        (take (Z.to_nat n) all) (Unpacking esc ended left)
  | _ => mk_answer (Z_OTHER (-2)) 0 [] s
  end.

#[global] Instance toy_library : ZlibLibrary := {|
  z_stream := toy_state;
  deflateInit2 _ _ _ _ := (Z_OK, Packing false []);
  inflateInit2 _ := (Z_OK, Unpacking false false []);
  deflate := toy_deflate;
  inflate := toy_inflate;
  string_max_size := 2 ^ 62 |}.

Lemma enc_app x y : enc (x ++ y) = enc x ++ enc y.
Proof. apply bind_app. Qed.
Lemma enc_length y : length (enc y) = (2 * length y)%nat.
Proof. induction y as [|b y IH]; [done|]. change (enc (b :: y)) with (1 :: b :: enc y). cbn [length]. lia. Qed.

(** ** Packing *)

Definition toy_packs (s : toy_state) (fin : bool) (c p : bytes) : Prop :=
  exists out, s = Packing fin out /\ p ++ out = enc c ++ (if fin then [0] else []).
Definition toy_to_come (s : toy_state) (f : flush_t) (i : bytes) : nat :=
  match s with
  | Packing fin out => length out + 2 * length i + (if bool_decide (f = Z_FINISH) && negb fin then 1 else 0)
  | _ => 0
  end.

Lemma toy_all (out c i p : bytes) (fin : bool) (f : flush_t) : p ++ out = enc c ++ (if fin then [0] else []) -> allowed fin f i ->
  p ++ out ++ enc i ++ (if bool_decide (f = Z_FINISH) && negb fin then [0] else []) =
    enc (c ++ i) ++ (if fin || bool_decide (f = Z_FINISH) then [0] else []).
Proof.
  intros E [H1 H2]. rewrite app_assoc, E, enc_app. destruct fin.
  - rewrite H2, andb_false_r by auto. by rewrite !app_nil_r.
  - rewrite andb_true_r, app_nil_r, orb_false_l. by rewrite app_assoc.
Qed.

Lemma packed_size s f i n : 0 <= n -> size (za_output (toy_deflate s f i n)) <= n.
Proof. intros Hn. destruct s; cbn; unfold size; [|cbn; lia]. rewrite length_take. lia. Qed.

Lemma taken_all {A} k (l : list A) : drop k l = [] -> take k l = l.
Proof. intros E. rewrite <- (take_drop k l) at 2. by rewrite E, app_nil_r. Qed.

Lemma room_left {A} (all : list A) n : 0 <= n -> Z.of_nat (length (take (Z.to_nat n) all)) < n -> drop (Z.to_nat n) all = [] /\ take (Z.to_nat n) all = all.
Proof. intros Hn. rewrite length_take. intros Hl. split; [apply drop_ge | apply take_ge]; lia. Qed.

#[global] Instance toy_deflates bits : Deflates bits toy_stream toy_readable.
Proof.
  refine {| deflating := toy_packs; to_come := toy_to_come |}.
  - intros l m s stream [= <-]. by exists [].
  - intros stream fin c p f i n (out & -> & E) Ha Hn. split_and!; [|by apply (packed_size (Packing fin out))|done].
    cbn. destruct (bool_decide_reflect (f = Z_FINISH)) as [->|]; [|by left]. case_bool_decide; cbn; [by right; right | by left].
  - intros stream fin c p f i n (out & -> & E) Ha Hn a He. cbn in *. eexists. split; [done|].
    by rewrite <- app_assoc, !take_drop, (take_ge i), (toy_all out c i p fin f) by done.
  - intros stream fin c p f i n (out & -> & E) Ha Hn a Hl. cbn in *. apply room_left in Hl as [H1 H2]; [|done].
    rewrite H1, H2, (bool_decide_eq_true_2 (@nil Z = [])), andb_true_r by done. split; [done|]. split; [by intros ->|].
    intros ->. unfold toy_readable. rewrite (toy_all out c i p fin) by done. destruct Ha as [Ha _]. destruct fin; [by specialize (Ha eq_refl)|].
    by rewrite app_nil_r.
  - intros stream fin c p f i n (out & -> & E) Ha Hn a He. split; [done|]. cbn in *.
    destruct (decide (f = Z_FINISH)) as [Hf|Hf]; [|by rewrite bool_decide_eq_false_2 in He].
    destruct (decide (drop (Z.to_nat n) (out ++ enc i ++ (if bool_decide (f = Z_FINISH) && negb fin then [0] else [])) = [])) as [Hleft|Hleft];
      [|by rewrite (bool_decide_eq_false_2 (_ = [])), andb_false_r in He].
    rewrite (taken_all _ _ Hleft). unfold toy_stream. rewrite (toy_all out c i p fin f E Ha), bool_decide_eq_true_2, orb_true_r by done. done.
  - intros stream fin c p f i n (out & -> & E) Ha Hn a Hl He. cbn in *. rewrite drop_all. cbn [length].
    assert (Ht : bool_decide (f = Z_FINISH) && negb (fin || bool_decide (f = Z_FINISH)) = false) by (destruct (bool_decide _), fin; done).
    rewrite Ht. rewrite length_take, length_drop, !length_app, enc_length. destruct (bool_decide _ && negb fin); cbn [length]; lia.
Qed.

(** ** Unpacking *)

Lemma parse_exact i : forall esc l1 l2 y, (if esc : bool then [1] else []) ++ i ++ l1 = enc y ++ 0 :: l2 ->
  let '(k, new, esc', ended, bad) := toy_parse esc i in
  bad = false /\ (k <= length i)%nat /\
  (if esc then [1] else []) ++ take k i = enc new ++ (if ended then [0] else if esc' then [1] else []) /\
  new `prefix_of` y /\ (if ended then new = y else k = length i).
Proof.
  induction i as [|c i IH]; intros esc l1 l2 y E; cbn [toy_parse].
  - split_and!; try done; [by destruct esc | apply prefix_nil].
  - destruct esc.
    + destruct y as [|b y]; [done|]. change (1 :: c :: i ++ l1 = 1 :: b :: enc y ++ 0 :: l2) in E. injection E as -> E.
      specialize (IH false l1 l2 y E). destruct (toy_parse false i) as [[[[k new] esc'] ended] bad]. destruct IH as (H1 & H2 & H3 & H4 & H5).
      cbn [app length take] in *. split_and!; [done|lia| |by apply prefix_cons|destruct ended; congruence].
      rewrite H3. change (enc (b :: new)) with (1 :: b :: enc new). done.
    + destruct y as [|b y].
      * injection E as -> _. cbn. split_and!; try done. lia.
      * change (c :: i ++ l1 = 1 :: b :: enc y ++ 0 :: l2) in E. injection E as -> E. cbn [Z.eqb Pos.eqb].
        specialize (IH true l1 l2 (b :: y)). change (enc (b :: y) ++ 0 :: l2) with (1 :: b :: enc y ++ 0 :: l2) in IH. rewrite <- E in IH.
        specialize (IH eq_refl). destruct (toy_parse true i) as [[[[k new] esc'] ended] bad]. destruct IH as (H1 & H2 & H3 & H4 & H5).
        cbn [app length take] in *. split_and!; [done|lia|done|done|destruct ended; congruence].
Qed.

Lemma enc_prefix q : forall s y l, enc q ++ s = enc y ++ 0 :: l -> exists r, y = q ++ r /\ s = enc r ++ 0 :: l.
Proof.
  induction q as [|b q IH]; intros s y l E; [by exists y|].
  change (1 :: b :: enc q ++ s = enc y ++ 0 :: l) in E. destruct y as [|b' y]; [done|].
  change (enc (b' :: y)) with (1 :: b' :: enc y) in E. injection E as -> E. destruct (IH s y l E) as (r & -> & ->). by exists r.
Qed.

Definition toy_unpacks (s : toy_state) (c p : bytes) : Prop :=
  exists esc ended out, s = Unpacking esc ended out /\
    c = enc (p ++ out) ++ (if ended : bool then [0] else if esc : bool then [1] else []).
Definition toy_done (s : toy_state) : Prop := exists esc, s = Unpacking esc true [].

(** All that a call does. *)
Lemma toy_inflate_exact esc ended out c p f i n x y :
  c = enc (p ++ out) ++ (if ended : bool then [0] else if esc : bool then [1] else []) -> toy_stream x y -> agrees c i x ->
  exists k new esc' ended',
    toy_inflate (Unpacking esc ended out) f i n =
      mk_answer (if ended' && bool_decide (drop (Z.to_nat n) (out ++ new) = []) then Z_STREAM_END else Z_OK) k
        (take (Z.to_nat n) (out ++ new)) (Unpacking esc' ended' (drop (Z.to_nat n) (out ++ new))) /\
    (k <= length i)%nat /\ c ++ take k i = enc (p ++ out ++ new) ++ (if ended' then [0] else if esc' then [1] else []) /\
    p ++ out ++ new `prefix_of` y /\ (if ended' then p ++ out ++ new = y else k = length i).
Proof.
  intros -> -> (l1 & l2 & E). unfold toy_inflate. rewrite <- !app_assoc in E. apply enc_prefix in E as (r & -> & E).
  destruct ended.
  - assert (r = []) as ->. { destruct r as [|b r]; [done|]. discriminate E. }
    exists 0%nat, [], esc, true. rewrite !app_nil_r. split_and!; try done. lia.
  - pose proof (parse_exact i esc l1 l2 r E) as Hparse. destruct (toy_parse esc i) as [[[[k new] esc'] ended'] bad].
    destruct Hparse as (-> & H2 & H3 & H4 & H5). exists k, new, esc', ended'. split_and!; [done|done| | |].
    + by rewrite <- app_assoc, H3, (app_assoc p), (enc_app (p ++ out)), <- app_assoc.
    + rewrite app_assoc. by apply prefix_app.
    + rewrite app_assoc. destruct ended'; [by rewrite H5 | done].
Qed.

#[global] Instance toy_inflates bits : Inflates bits toy_stream.
Proof.
  refine {| inflating := toy_unpacks; at_end := toy_done |}.
  - intros stream [= <-]. by exists false, false, [].
  - intros stream c p f i n x y (esc & ended & out & -> & Hc) Hn Hxy Ha.
    destruct (toy_inflate_exact esc ended out c p f i n x y Hc Hxy Ha) as (k & new & esc' & ended' & E & Hk & _). cbn [inflate toy_library].
    rewrite E. cbn. split; [|done]. unfold size. rewrite length_take. lia.
  - intros stream c p f i n x y (esc & ended & out & -> & Hc) Hn Hxy Ha.
    destruct (toy_inflate_exact esc ended out c p f i n x y Hc Hxy Ha) as (k & new & esc' & ended' & E & Hk & Htake & Hpre & Hend). cbn [inflate toy_library].
    rewrite E. cbn. intros He. destruct ended'; [|done]. destruct (decide (drop (Z.to_nat n) (out ++ new) = [])) as [Hl|Hl];
      [|by rewrite bool_decide_eq_false_2 in He]. rewrite Hl, (taken_all _ _ Hl), Htake, Hend. split_and!; [done|done|by eexists].
  - intros stream c p f i n x y (esc & ended & out & -> & Hc) Hn Hxy Ha.
    destruct (toy_inflate_exact esc ended out c p f i n x y Hc Hxy Ha) as (k & new & esc' & ended' & E & Hk & Htake & Hpre & Hend). cbn [inflate toy_library].
    rewrite E. cbn. intros He.
    assert (Hok : (if ended' && bool_decide (drop (Z.to_nat n) (out ++ new) = []) then Z_STREAM_END else Z_OK) = Z_OK) by (by destruct (_ && _)).
    split; [by left|]. split; [|split].
    + eexists _, _, _. split; [done|]. rewrite <- app_assoc, take_drop. done.
    + etransitivity; [|exact Hpre]. apply prefix_app. exists (drop (Z.to_nat n) (out ++ new)). by rewrite take_drop.
    + intros Hl. apply room_left in Hl as [Hl _]; [|done]. rewrite Hl, bool_decide_eq_true_2, andb_true_r in He by done.
      destruct ended'; [done|]. subst k. split; [done|]. rewrite take_ge in Htake by lia. rewrite Htake. rewrite Hxy in Ha |- *.
      destruct Hpre as [r ->]. split.
      * destruct esc'; [|rewrite app_nil_r; exists (enc r ++ [0]); by rewrite (enc_app (p ++ out ++ new) r), <- app_assoc].
        destruct Ha as (l1 & l2 & Ha). rewrite Htake, (enc_app (p ++ out ++ new) r), <- !app_assoc in Ha. apply app_inv_head in Ha.
        destruct r as [|b r]; [done|]. exists (b :: enc r ++ [0]). rewrite (enc_app (p ++ out ++ new) (b :: r)), <- !app_assoc. done.
      * rewrite (enc_app (p ++ out ++ new) r), <- app_assoc. intros Hx. apply app_inv_head in Hx. destruct esc', r; done.
  - intros stream f i n [esc ->] Hn. cbn. rewrite take_nil, drop_nil. split_and!; try done. by exists esc.
Qed.

(** ** Compression *)

(** C18 (functional). Compression with zlib, whatever the library does within what
    zlib.h documents, and with a reserve buffer of at least 10 bytes, as is checked, and less than 2^32 (with 4 GiB
    the code counts output that was never written): a transformator may be written to, in pieces of at most 2^32 - 1
    bytes, flushed and emptied in any order; every operation comes to an end, and after [complete] the outputs that
    were given away, joined, are one whole stream for the data that were written, joined.
    What has been given away after a flush suffices to decompress all that was
    written until then. The only exception on the way is that of a string which would be too
    long. *)
Theorem compression_exact {L : ZlibLibrary} bits stands_for readable (HL : Deflates bits stands_for readable) ps z ops
  (Hp : good_params ps) (Hs : good_strings) (Ho : m_operation ps = compress) (Hi : m_format ps <> identity_format)
  (Hb : stream_bits ps = bits) (Hz : zlib_create ps = Ok z) (Hops : Forall fits_uInt ops) :
  ends_well_or_too_long (fun fuel => then_ (zrun fuel ops ([], z)) (zfinish fuel))
    (fun s => stands_for s.1 (written_data ops) /\ m_operation_is_complete s.2 = true) /\
  ends_well_or_too_long (fun fuel => zrun fuel (ops ++ [Z_flush; Z_giveaway]) ([], z))
    (fun s => readable s.1 (written_data ops)).
Proof.
  pose proof (create_took bits stands_for readable ps z Hp Hs Ho Hi Hb Hz) as Ht. split.
  - eapply then_well; [by apply (zrun_well bits stands_for readable ops Hops [] [])|]. intros [given z'] Ht'. by apply (zfinish_well bits stands_for readable).
  - assert (E : forall fuel, zrun fuel (ops ++ [Z_flush; Z_giveaway]) ([], z) =
      then_ (zrun fuel ops ([], z)) (fun s => then_ (zapply fuel Z_flush s) (zapply fuel Z_giveaway))).
    { intros fuel. generalize (@nil Z, z). induction ops as [|o ops IH]; intros s; cbn [zrun app].
      - cbn [then_]. destruct (zapply fuel Z_flush s) as [|[[]|e] s']; [done| |done]. cbn [then_]. by destruct (zapply fuel Z_giveaway s') as [|[[]|e] s2].
      - destruct (zapply fuel o s) as [|[[]|e] s']; [done| |done]. cbn [then_]. apply IH. by apply Forall_cons in Hops as [_ ?]. }
    eapply well_ext; [exact E|]. eapply then_well; [by apply (zrun_well bits stands_for readable ops Hops [] [])|].
    intros [given z'] Ht'. cbn [fst snd app] in Ht'. eapply then_well; [by apply (zapply_well bits stands_for readable given (written_data ops) z' Z_flush)|].
    intros [given2 z2] [_ Hr]. destruct (Hr eq_refl) as (p & (stream & _ & _ & Hh) & Hread). cbn [fst snd] in *. cbn [zapply].
    destruct (giveaway_output z2) as [out z3] eqn:E3. eexists _, _. split; [apply ends_now|]. right. split; [done|].
    apply giveaway_text in Hh. rewrite E3 in Hh. cbn [fst] in *. by rewrite Hh.
Qed.

Definition small_params : params_t := mk_params compress deflate_format (-1) 15 9 0 10.
Definition toy_transformator : zlib_t := mk_zlib small_params (Some (Packing false [])) [] (replicate 10 0) 0 false.

(** More than a buffer of ten bytes holds, flushed and emptied on the way. *)
Lemma compression_exact_witness :
  ends_well_or_too_long
    (fun fuel => then_ (zrun fuel [Z_write (str "abcdefgh"); Z_flush; Z_giveaway; Z_write (str "i")] ([], toy_transformator)) (zfinish fuel))
    (fun s => toy_stream s.1 (str "abcdefghi") /\ m_operation_is_complete s.2 = true).
Proof.
  apply (compression_exact 15 toy_stream toy_readable (toy_deflates 15) small_params toy_transformator
    [Z_write (str "abcdefgh"); Z_flush; Z_giveaway; Z_write (str "i")]);
    [by split|by split|done|done|done|reflexivity|by repeat constructor].
Defined.

(** The outcome is the good one. *)
Example toy_compresses : exists z, then_ (zrun 9 [Z_write (str "abcdefgh"); Z_flush; Z_giveaway; Z_write (str "i")] ([], toy_transformator)) (zfinish 9) =
  Ended (Ok tt) (enc (str "abcdefghi") ++ [0], z).
Proof. eexists. vm_compute. reflexivity. Qed.

(** ** Compressed responses *)

(** The appender of chunked responses: whatever is appended, made
    a chunk of or flushed, the builder is at the end as calls of its own leave it,
    first of the header Content-Encoding with the name of the format, then of chunks
    which, joined, are one whole stream for all that was appended. Every call comes to an
    end; the only exception is that of a string which would be too long. *)
Theorem compressed_chunks {L : ZlibLibrary} bits stands_for readable (HL : Deflates bits stands_for readable) fmt_X ws b ps a ops
  (Hp : good_params ps) (Hs : good_strings) (Hi : m_format ps <> identity_format) (Hb : stream_bits ps = bits)
  (Hcon : m_connected (Chunked.base b) = true) (Hch : Chunked.m_chunks b = [])
  (Ha : body_appender (chunked_header fmt_X) ps (ws, b) = Ok a) (Hops : Forall op_fits ops) :
  ends_well_or_too_long (fun fuel => then_ (run_appender fmt_X fuel ops a) (chunked_appender_complete fuel))
    (fun a' => exists bops, Forall chunk_ok bops /\
       foldM (Chunked.apply fmt_X) (ws, b)
         (Chunked.Header (H_append (ById content_encoding) (content_encoding_token (m_format ps))) :: bops) = Ok (m_resp a') /\
       stands_for (concat (chunks_of bops)) (appended_data ops)).
Proof.
  unfold body_appender in Ha. destruct (zlib_create ps) as [z|e] eqn:Hz; [|done]. cbn [mbind result_bind] in Ha.
  assert (Eps : m_params z = ps) by (by eapply create_params). rewrite Eps in Ha.
  destruct (bool_decide_reflect (compress = m_operation ps)) as [Ho|]; [|done]. cbn [negb] in Ha. injection Ha as <-.
  set (start := chunked_header _ _ _).
  assert (Happ : appending bits stands_for readable fmt_X start (mk_appender (Some z) start) []).
  { exists z, []. split; [done|]. split; [by apply (create_took bits stands_for readable ps)|]. exists []. by split_and!. }
  eapply then_well; [by apply (run_appender_well bits stands_for readable fmt_X start Hcon Hch ops Hops _ [])|].
  intros a' Ha'. eapply well_weaken; [by apply (complete_appender_well bits stands_for readable fmt_X start a' (appended_data ops))|].
  intros a2 (bops & Hok & Hr & Hst). exists bops. by split_and!.
Qed.

Definition toy_response : chunked_resp := ([], Chunked.chunked_create (base_builder 200 (str "OK") 5 true)).
Definition toy_appender : appender_t chunked_resp :=
  mk_appender (Some toy_transformator)
    (chunked_header (hex_loop 16) toy_response (H_append (ById content_encoding) (str "deflate"))).

Lemma compressed_chunks_witness :
  ends_well_or_too_long
    (fun fuel => then_ (run_appender (hex_loop 16) fuel [A_append (str "ab"); A_make_chunk (str "cdefgh"); A_flush; A_append (str "i")] toy_appender)
       (chunked_appender_complete fuel))
    (fun a' => exists bops, Forall chunk_ok bops /\
       foldM (Chunked.apply (hex_loop 16)) toy_response
         (Chunked.Header (H_append (ById content_encoding) (str "deflate")) :: bops) = Ok (m_resp a') /\
       toy_stream (concat (chunks_of bops)) (str "abcdefghi")).
Proof.
  apply (compressed_chunks 15 toy_stream toy_readable (toy_deflates 15) (hex_loop 16) [] (Chunked.chunked_create (base_builder 200 (str "OK") 5 true))
    small_params toy_appender [A_append (str "ab"); A_make_chunk (str "cdefgh"); A_flush; A_append (str "i")]);
    [by split|by split|done|done|done|done|reflexivity|by repeat constructor].
Defined.

(** ** Compressed requests *)

(** What Content-Encoding asks for, and the window bits of that format. *)
Definition encoded_as (fields : http_header_fields_t) (bits : Z) : Prop :=
  let encoding := Fields.get_field_or fields (ById content_encoding) (str "identity") in
  (is_equal_caseless encoding (str "deflate") = true /\ bits = 15) \/
  (is_equal_caseless encoding (str "deflate") = false /\ is_equal_caseless encoding (str "gzip") = true /\ bits = 31).

Lemma handle_body_transforms `{ZlibLibrary} {R} fields bits : encoded_as fields bits ->
  exists ps, decompressor bits ps /\ forall fuel body (handler : bytes -> R),
    handle_body fuel fields body handler = option_map (fun r => b ← r; Ok (handler b)) (transform fuel body ps).
Proof.
  unfold handle_body. intros [[-> ->]|(-> & -> & ->)].
  - exists (default_params decompress deflate_format (-1)). by split.
  - exists (default_params decompress gzip_format (-1)). by split.
Qed.

Lemma handled_results {R} (m : nat -> option (result zlib_error bytes)) (handler : bytes -> R) P : results_in m P ->
  results_in (fun fuel => option_map (fun r => b ← r; Ok (handler b)) (m fuel)) (fun v => exists y, v = handler y /\ P y).
Proof.
  intros (n & r & Hn & Hr). exists n, (b ← r; Ok (handler b)). split; [intros fuel Hf; by rewrite Hn|].
  destruct Hr as [->|(v & -> & HP)]; [by left|]. right. exists (handler v). split; [done|]. by exists v.
Qed.

(** C19 (error). A request with a compressed body, for every library that does what
    zlib.h documents. When the body is one whole stream, the handler gets what it
    stands for. When it ends before the stream does, no error is reported: the
    handler gets the part of the data that could be read. When anything follows the stream,
    be it a byte, [handle_body] does not return, whatever the time it is given: the loop
    waits for the rest of the input to be taken, but a stream that has ended
    takes nothing. (A string that would be too long ends each of the three by an
    exception.) *)
Theorem handle_body_exact {L : ZlibLibrary} {R} bits stands_for (HL : Inflates bits stands_for) fields (handler : bytes -> R) x y
  (Hs : good_strings) (He : encoded_as fields bits) (Hinit : (inflateInit2 bits).1 = Z_OK)
  (Hxy : stands_for x y) (Hx : size x <= uInt_max) :
  results_in (fun fuel => handle_body fuel fields x handler) (fun v => v = handler y) /\
  (forall b l, b ++ l = x ->
     results_in (fun fuel => handle_body fuel fields b handler) (fun v => exists part, v = handler part /\ part `prefix_of` y)) /\
  (forall l fuel, l <> [] -> size (x ++ l) <= uInt_max ->
     handle_body fuel fields (x ++ l) handler = None \/ handle_body fuel fields (x ++ l) handler = Some (Err string_too_long)).
Proof.
  destruct (handle_body_transforms (R := R) fields bits He) as (ps & Hps & E). split_and!.
  - destruct (handled_results (fun fuel => transform fuel x ps) handler _ (transform_reads bits stands_for ps x y x Hs Hps Hinit Hxy ltac:(done) Hx))
      as (n & r & Hn & Hr).
    exists n, r. split; [intros fuel Hf; rewrite E; by apply Hn|].
    destruct Hr as [->|(v & -> & z & -> & _ & Hz)]; [by left|]. right. rewrite Hz by done. by eexists.
  - intros b l Hb. assert (Hpre : b `prefix_of` x) by (by exists l).
    assert (Hsize : size b <= uInt_max) by (apply prefix_length in Hpre; unfold size in *; lia).
    destruct (handled_results (fun fuel => transform fuel b ps) handler _ (transform_reads bits stands_for ps x y b Hs Hps Hinit Hxy Hpre Hsize))
      as (n & r & Hn & Hr).
    exists n, r. split; [intros fuel Hf; rewrite E; by apply Hn|].
    destruct Hr as [->|(v & -> & z & -> & Hz & _)]; [by left|]. right. eexists. split; [done|]. by exists z.
  - intros l fuel Hl Hsize. rewrite E.
    destruct (transform_loops bits stands_for ps x y l fuel Hs Hps Hinit Hxy Hl Hsize) as [-> | ->]; [by left | by right].
Qed.

Definition gzip_fields : http_header_fields_t := [mk_field (str "Content-Encoding") (str "GZip") content_encoding].

(** A whole body is handled; the same body with one more byte never is. *)
Lemma handle_body_exact_witness :
  results_in (fun fuel => handle_body fuel gzip_fields (enc (str "data") ++ [0]) id) (fun v => v = str "data") /\
  forall fuel, handle_body fuel gzip_fields (enc (str "data") ++ [0; 0]) id = None \/
    handle_body fuel gzip_fields (enc (str "data") ++ [0; 0]) id = Some (Err string_too_long).
Proof.
  destruct (handle_body_exact 31 toy_stream (toy_inflates 31) gzip_fields id (enc (str "data") ++ [0]) (str "data")) as (H1 & _ & H3);
    [by split|right; by vm_compute|done|done|done|]. split; [exact H1|]. intros fuel. apply (H3 [0] fuel); done.
Defined.
