(* ===== verification/Server.v ===== *)
(** * The server and the ways to run it

    [http_server_t] of [restinio/http_server.hpp] with the opening and closing of
    the acceptor of [restinio/impl/acceptor.hpp], the pool of threads of
    [restinio/impl/ioctx_on_thread_pool.hpp], and what [restinio/http_server_run.hpp] makes of
    them: the functions that run a server on a pool until it is stopped are a machine
    whose steps are those of the calling thread, of the threads of the pool
    and of the signal, in any order. *)

From stdpp Require Import relations.
From S2P Require Import Prelude Effects.

(** An exception; code catches [std::exception] or everything. *)
Inductive exn_t : Type := Std (what : nat) | Other (what : nat).

(** Why a method does not return: it throws, or an exception has left a [noexcept] function and
    [std::terminate] was called. *)
Inductive stop_t : Type := Throws (ex : exn_t) | Terminates.

(** ** The acceptor *)

(** The calls that may throw: to asio, to the user's objects and to the logger. *)
Inductive acceptor_call : Type :=
| C_local_endpoint | C_log | C_address | C_open | C_options_setter | C_bind | C_post_bind_hook | C_listen
| C_async_accept | C_close.

#[global] Instance acceptor_call_eq_dec : EqDecision acceptor_call.
Proof. solve_decision. Defined.

(** Which of them throw, for one run of a method. *)
Definition faults : Type := acceptor_call -> option exn_t.

(** [accepting]: the sockets for which [accept_next] was called since it was opened. *)
Record acceptor_t : Type := mk_acceptor { is_open : bool; listening : bool; accepting : list nat }.

(** Whether the server is open for connections: the acceptor, the timer manager,
    the functor, which is called once, and how often it has been called. *)
(*@ http_server.hpp 360-380 http_server_t *)
Record http_server_t : Type := mk_server {
  m_acceptor : acceptor_t;
  m_timers_started : bool;
  m_cleanup_functor : bool;
  m_running : bool;
  cleanup_calls : nat }.

Definition server_act : Type -> Type := act faults http_server_t unit stop_t.

Definition perform (c : acceptor_call) : server_act unit :=
  fun r s => match r c with None => (Ok tt, s, []) | Some e => (Err (Throws e), s, []) end.

Definition with_acceptor (s : http_server_t) (a : acceptor_t) : http_server_t :=
  mk_server a (m_timers_started s) (m_cleanup_functor s) (m_running s) (cleanup_calls s).
Definition with_timers (s : http_server_t) (b : bool) : http_server_t :=
  mk_server (m_acceptor s) b (m_cleanup_functor s) (m_running s) (cleanup_calls s).
Definition with_running (s : http_server_t) (b : bool) : http_server_t :=
  mk_server (m_acceptor s) (m_timers_started s) (m_cleanup_functor s) b (cleanup_calls s).

Definition closed_acceptor : acceptor_t := mk_acceptor false false [].

(** [try { m } catch( const std::exception & ) { h }]. *)
Definition catch_std {A} (m : server_act A) (h : exn_t -> server_act A) : server_act A :=
  fun r s => match m r s with
             | (Err (Throws (Std n)), s', w) => let '(x, s'', w') := h (Std n) r s' in (x, s'', w ++ w')
             | x => x
             end.

Definition open_state : server_act bool := gets (fun s => is_open (m_acceptor s)).
Definition close_acceptor : server_act unit := perform C_close;; modify (fun s => with_acceptor s closed_acceptor).

Definition noexcept {A} (m : server_act A) : server_act A :=
  fun r s => match m r s with (Err _, s', w) => (Err Terminates, s', w) | x => x end.

(** The limiter calls [call_accept_now] at once, or later: that the operation is started is
    one of the calls that may fail, and both functions are [noexcept]. *)
(*@ impl/acceptor.hpp 325-381 acceptor_t::accept_next *)
Definition accept_next (i : nat) : server_act unit :=
  noexcept (perform C_async_accept;;
    modify (fun s => let a := m_acceptor s in with_acceptor s (mk_acceptor (is_open a) (listening a) (accepting a ++ [i])))).

Fixpoint init_accepts (sockets : list nat) : server_act unit :=
  match sockets with [] => mret tt | i :: sockets => perform C_log;; accept_next i;; init_accepts sockets end.

(** [count] sockets accept at the same time. Parsing the address is outside of the
    [try] block. *)
(*@ impl/acceptor.hpp 219-292 acceptor_t::open *)
Definition acceptor_open (count : nat) : server_act unit :=
  opened ← open_state;
  if (opened : bool) then perform C_local_endpoint;; perform C_log
  else
    perform C_address;;
    catch_std
      (perform C_log;; perform C_open;;
       modify (fun s => with_acceptor s (mk_acceptor true false []));;
       perform C_options_setter;; perform C_bind;; perform C_post_bind_hook;; perform C_local_endpoint;; perform C_listen;;
       modify (fun s => with_acceptor s (mk_acceptor true true []));;
       init_accepts (seq 0 count);; perform C_log)
      (fun ex =>
         opened ← open_state;
         (if (opened : bool) then close_acceptor else mret tt);;
         perform C_log;; throw (Throws ex)).

(*@ impl/acceptor.hpp 520-537 acceptor_t::close_impl *)
Definition close_impl : server_act unit := perform C_local_endpoint;; close_acceptor;; perform C_log.

(*@ impl/acceptor.hpp 295-308 acceptor_t::close *)
Definition acceptor_close : server_act unit :=
  opened ← open_state;
  if (opened : bool) then close_impl else perform C_log.

(** ** The server *)

(*@ http_server.hpp 391-400 http_server_t::call_cleanup_functor *)
Definition call_cleanup_functor : server_act unit :=
  modify (fun s =>
    if m_cleanup_functor s
    then mk_server (m_acceptor s) (m_timers_started s) false (m_running s) (S (cleanup_calls s)) else s).

(*@ http_server.hpp 293-302 http_server_t::open_sync *)
Definition open_sync (count : nat) : server_act unit :=
  running ← gets m_running;
  if negb (running : bool) then
    modify (fun s => with_timers s true);; acceptor_open count;; modify (fun s => with_running s true)
  else mret tt.

(*@ http_server.hpp 347-357 http_server_t::close_sync *)
Definition close_sync : server_act unit :=
  running ← gets m_running;
  if (running : bool) then
    modify (fun s => with_timers s false);; acceptor_close;; call_cleanup_functor;; modify (fun s => with_running s false)
  else mret tt.

(** Its outcome and the server afterwards. *)
Definition after {A} (m : server_act A) (r : faults) (s : http_server_t) : result stop_t A * http_server_t :=
  let '(x, s, _) := m r s in (x, s).

(** ** Running it on a pool *)

(*@ impl/ioctx_on_thread_pool.hpp 180-180 ioctx_on_thread_pool_t::status_t *)
Inductive pool_status_t : Type := stopped | started.

#[global] Instance pool_status_eq_dec : EqDecision pool_status_t.
Proof. solve_decision. Defined.

(** Handlers that are posted: [open_async], the signal, [close_async] and
    [initiate_shutdown]. *)
Inductive handler_t : Type := H_open | H_signal | H_close | H_shutdown.

(** Where the thread is that has called [run]: it creates the threads, it joins
    them, it joins them since one could not be created, it has returned or
    thrown, or the program has been terminated. *)
Inductive caller_t : Type :=
| Creating | Joining | Unwinding (ex : exn_t) | Finished (r : result exn_t unit) | Terminated.

(** [r_running]: the handlers that threads are executing. [r_raced]: two of them have used the server at
    the same time, and it may be in any state from then on. *)
(*@ impl/ioctx_on_thread_pool.hpp 182-184 ioctx_on_thread_pool_t *)
Record run_t : Type := mk_run {
  r_server : http_server_t;
  r_queue : list handler_t;
  r_running : list handler_t;
  r_io_stopped : bool;
  r_status : pool_status_t;
  r_created : nat;
  r_threads : nat;
  r_caller : caller_t;
  r_caught : option exn_t;
  r_signal_armed : bool;
  r_raced : bool }.

Section Run.
(** The size of the pool and the number of accepting sockets. *)
Context (pool_size count : nat).

Definition with_server (s : run_t) (srv : http_server_t) : run_t :=
  mk_run srv (r_queue s) (r_running s) (r_io_stopped s) (r_status s) (r_created s) (r_threads s) (r_caller s) (r_caught s)
    (r_signal_armed s) (r_raced s).
Definition with_handlers (s : run_t) (q running : list handler_t) : run_t :=
  mk_run (r_server s) q running (r_io_stopped s) (r_status s) (r_created s) (r_threads s) (r_caller s) (r_caught s)
    (r_signal_armed s) (r_raced s).
Definition with_queue (s : run_t) (q : list handler_t) : run_t := with_handlers s q (r_running s).
Definition with_caught (s : run_t) (ex : exn_t) : run_t :=
  mk_run (r_server s) (r_queue s) (r_running s) (r_io_stopped s) (r_status s) (r_created s) (r_threads s) (r_caller s) (Some ex)
    (r_signal_armed s) (r_raced s).
Definition with_caller (s : run_t) (c : caller_t) : run_t :=
  mk_run (r_server s) (r_queue s) (r_running s) (r_io_stopped s) (r_status s) (r_created s) (r_threads s) c (r_caught s)
    (r_signal_armed s) (r_raced s).
Definition io_stop (s : run_t) : run_t :=
  mk_run (r_server s) (r_queue s) (r_running s) true (r_status s) (r_created s) (r_threads s) (r_caller s) (r_caught s)
    (r_signal_armed s) (r_raced s).
Definition raced (s : run_t) (srv : http_server_t) : run_t :=
  mk_run srv (r_queue s) (r_running s) (r_io_stopped s) (r_status s) (r_created s) (r_threads s) (r_caller s) (r_caught s)
    (r_signal_armed s) true.

(*@ impl/ioctx_on_thread_pool.hpp 145-152 ioctx_on_thread_pool_t::stop *)
Definition pool_stop (s : run_t) : run_t := if bool_decide (started = r_status s) then io_stop s else s.

(*@ http_server.hpp 264-286 http_server_t::open_async *)
Definition on_open (f : faults) (s : run_t) : run_t :=
  match after (open_sync count) f (r_server s) with
  | (Ok _, srv) => with_server s srv
  | (Err (Throws ex), srv) => with_caught (pool_stop (with_server s srv)) ex
  | (Err Terminates, srv) => with_caller (with_server s srv) Terminated
  end.

(*@ http_server.hpp 318-340 http_server_t::close_async *)
Definition on_close (f : faults) (s : run_t) : run_t :=
  match after close_sync f (r_server s) with
  | (Ok _, srv) => pool_stop (with_server s srv)
  | (Err (Throws ex), srv) => with_caught (with_server s srv) ex
  | (Err Terminates, srv) => with_caller (with_server s srv) Terminated
  end.

(** Nothing catches the exception in a thread of the pool. *)
(*@ http_server_run.hpp 679-687 initiate_shutdown *)
Definition on_shutdown (f : faults) (s : run_t) : run_t :=
  match after close_sync f (r_server s) with
  | (Ok _, srv) => io_stop (with_server s srv)
  | (Err _, srv) => with_caller (with_server s srv) Terminated
  end.

(** The effects of a handler, as it has them by its end. *)
Definition execute (f : faults) (h : handler_t) (s : run_t) : run_t :=
  match h with
  | H_open => on_open f s
  | H_signal => with_queue s (r_queue s ++ [H_close])
  | H_close => on_close f s
  | H_shutdown => on_shutdown f s
  end.

(** Opening and closing are posted to a strand; [initiate_shutdown] posts to the context itself. *)
Definition on_strand (h : handler_t) : bool := match h with H_open | H_close => true | H_signal | H_shutdown => false end.
Definition uses_server (h : handler_t) : bool := match h with H_signal => false | _ => true end.
Definition overlaps (h : handler_t) (running : list handler_t) : bool := uses_server h && existsb uses_server running.

(** A thread takes a handler. Those of the strand are executed one at a time and in their order, the others are free. *)
Definition can_begin (s : run_t) (h : handler_t) (q1 q2 : list handler_t) : Prop :=
  r_caller s <> Terminated /\ (length (r_running s) < r_threads s)%nat /\ r_io_stopped s = false /\
  r_queue s = q1 ++ h :: q2 /\ (on_strand h = true -> existsb on_strand (q1 ++ r_running s) = false).

Definition with_threads (s : run_t) (created threads : nat) : run_t :=
  mk_run (r_server s) (r_queue s) (r_running s) (r_io_stopped s) (r_status s) created threads (r_caller s) (r_caught s)
    (r_signal_armed s) (r_raced s).
Definition with_status (s : run_t) (st : pool_status_t) (c : caller_t) : run_t :=
  mk_run (r_server s) (r_queue s) (r_running s) (r_io_stopped s) st (r_created s) (r_threads s) c (r_caught s)
    (r_signal_armed s) (r_raced s).
Definition disarmed (s : run_t) : run_t :=
  mk_run (r_server s) (r_queue s) (r_running s) (r_io_stopped s) (r_status s) (r_created s) (r_threads s) (r_caller s) (r_caught s)
    false (r_raced s).

(** What the caller is told in the end. *)
(*@ http_server_run.hpp 557-560 run_with_break_signal_handling *)
Definition run_outcome (s : run_t) : result exn_t unit := match r_caught s with Some ex => Err ex | None => Ok tt end.

(** [R_create] to [R_started] are [pool.start()], [R_joined] is the end of
    [pool.wait()]; a thread executes handlers until the context is stopped. A handler that begins
    while another one uses the server that it uses too is a race, after which C++ gives the server no meaning. *)
(*@ impl/ioctx_on_thread_pool.hpp 102-169 ioctx_on_thread_pool_t::start *)
Inductive run_step : run_t -> run_t -> Prop :=
| R_create s : r_caller s = Creating -> (r_created s < pool_size)%nat ->
    run_step s (with_threads s (S (r_created s)) (S (r_threads s)))
| R_create_fails s n : r_caller s = Creating -> (r_created s < pool_size)%nat ->
    run_step s (with_caller (io_stop s) (Unwinding (Std n)))
| R_started s : r_caller s = Creating -> r_created s = pool_size -> run_step s (with_status s started Joining)
| R_begin s h q1 q2 : can_begin s h q1 q2 -> overlaps h (r_running s) = false ->
    run_step s (with_handlers s (q1 ++ q2) (r_running s ++ [h]))
| R_race s h q1 q2 srv : can_begin s h q1 q2 -> overlaps h (r_running s) = true ->
    run_step s (raced (with_handlers s (q1 ++ q2) (r_running s ++ [h])) srv)
| R_end s h l1 l2 f : r_caller s <> Terminated -> r_running s = l1 ++ h :: l2 ->
    run_step s (execute f h (with_handlers s (r_queue s) (l1 ++ l2)))
| R_exit s : r_caller s <> Terminated -> (length (r_running s) < r_threads s)%nat -> r_io_stopped s = true ->
    run_step s (with_threads s (r_created s) (r_threads s - 1))
| R_joined s : r_caller s = Joining -> r_threads s = 0%nat -> run_step s (with_status s stopped (Finished (run_outcome s)))
| R_unwound s ex : r_caller s = Unwinding ex -> r_threads s = 0%nat -> run_step s (with_caller s (Finished (Err ex)))
| R_signal s : r_signal_armed s = true -> run_step s (with_queue (disarmed s) (r_queue s ++ [H_signal]))
| R_shutdown s : run_step s (with_queue s (r_queue s ++ [H_shutdown])).

(** Before the threads are created: the wait for the signal, if it is used, and the
    posted opening. *)
Definition run_start (srv : http_server_t) (signals : bool) : run_t :=
  mk_run srv [H_open] [] false stopped 0 0 Creating None signals false.

(*@ http_server.hpp 188-222 http_server_t::http_server_t *)
Definition new_server (cleanup : bool) : http_server_t := mk_server closed_acceptor false cleanup false 0.

(*@ http_server_run.hpp 518-554 run_with_break_signal_handling *)
Definition run_with_break_signal_handling (server : http_server_t) : run_t := run_start server true.
(*@ http_server_run.hpp 575-599 run_without_break_signal_handling *)
Definition run_without_break_signal_handling (server : http_server_t) : run_t := run_start server false.
(*@ http_server_run.hpp 301-350 run *)
Definition run_settings (cleanup : bool) : run_t := run_start (new_server cleanup) true.

(*@ http_server_run.hpp 28-34 break_signal_handling_t *)
Inductive break_signal_handling_t : Type := used | skipped.
(*@ http_server_run.hpp 630-643 run *)
Definition run_existing (break_handling : break_signal_handling_t) (server : http_server_t) : run_t :=
  match break_handling with
  | used => run_with_break_signal_handling server
  | skipped => run_without_break_signal_handling server
  end.
End Run.

(** ** Opening and closing *)

(** The calls of the functor and the functors left. *)
Definition functor_left (s : http_server_t) : nat := cleanup_calls s + (if m_cleanup_functor s then 1 else 0).

(** The members that the acceptor does not touch. *)
Definition outer (s : http_server_t) : bool * nat * bool := (m_cleanup_functor s, cleanup_calls s, m_running s).

Definition keeps {A} (m : server_act A) : Prop := forall r s, outer (m r s).1.2 = outer s.

Lemma keeps_bind {A B} (m : server_act A) (f : A -> server_act B) : keeps m -> (forall a, keeps (f a)) -> keeps (m ≫= f).
Proof.
  intros Hm Hf r s. unfold mbind, act_bind. specialize (Hm r s).
  destruct (m r s) as [[[a|e] s'] w]; cbn [fst snd] in *; [|done].
  specialize (Hf a r s'). destruct (f a r s') as [[y s''] w']. cbn [fst snd] in *. congruence.
Qed.

Lemma keeps_catch {A} (m : server_act A) h : keeps m -> (forall e, keeps (h e)) -> keeps (catch_std m h).
Proof.
  intros Hm Hh r s. unfold catch_std. specialize (Hm r s).
  destruct (m r s) as [[[a|[[n|n]|]] s'] w]; cbn [fst snd] in *; [done| |done|done].
  specialize (Hh (Std n) r s'). destruct (h (Std n) r s') as [[y s''] w']. cbn [fst snd] in *. congruence.
Qed.

Lemma keeps_noexcept {A} (m : server_act A) : keeps m -> keeps (noexcept m).
Proof. intros Hm r s. unfold noexcept. specialize (Hm r s). by destruct (m r s) as [[[a|e] s'] w]. Qed.

Lemma keeps_perform c : keeps (perform c).
Proof. intros r s. unfold perform. by destruct (r c). Qed.
Lemma keeps_ret {A} (a : A) : keeps (mret a).
Proof. done. Qed.
Lemma keeps_gets {A} (f : http_server_t -> A) : keeps (gets f).
Proof. done. Qed.
Lemma keeps_throw {A} e : keeps (throw (A := A) e).
Proof. done. Qed.
Lemma keeps_modify f : (forall s, outer (f s) = outer s) -> keeps (modify f).
Proof. intros Hf r s. apply Hf. Qed.

Create HintDb server.
#[local] Hint Resolve keeps_bind keeps_catch keeps_noexcept keeps_perform keeps_ret keeps_gets keeps_throw : server.
#[local] Hint Extern 2 (keeps (modify _)) => (apply keeps_modify; by intros) : server.
#[local] Hint Extern 1 (keeps (if ?b then _ else _)) => destruct b : server.
#[local] Hint Extern 1 (forall _, keeps _) => intros : server.

Lemma keeps_init_accepts l : keeps (init_accepts l).
Proof. induction l as [|i l IH]; cbn [init_accepts]; unfold accept_next; eauto with server. Qed.
#[local] Hint Resolve keeps_init_accepts : server.

Lemma keeps_close_acceptor : keeps close_acceptor.
Proof. unfold close_acceptor. eauto with server. Qed.
#[local] Hint Resolve keeps_close_acceptor : server.

Lemma keeps_acceptor_open count : keeps (acceptor_open count).
Proof. unfold acceptor_open, open_state. eauto 20 with server. Qed.
Lemma keeps_acceptor_close : keeps acceptor_close.
Proof. unfold acceptor_close, open_state, close_impl. eauto 20 with server. Qed.

(** What an opening comes to: the server is running, or it was not opened. *)
Lemma open_sync_outer count f s : let '(x, s') := after (open_sync count) f s in
  outer s' = (m_cleanup_functor s, cleanup_calls s, match x with Ok _ => true | Err _ => m_running s end).
Proof.
  unfold after, open_sync, mbind, act_bind, gets, mret, act_ret, modify. destruct (m_running s) eqn:Er; cbn; [unfold outer; by rewrite Er|].
  pose proof (keeps_acceptor_open count f (with_timers s true)) as H1. unfold outer in *.
  destruct (acceptor_open count f (with_timers s true)) as [[[a|e] s'] w]; cbn in *; congruence.
Qed.

(** What a closing comes to: the server is closed, and its functor was called if it had been running;
    or an exception has left it as it was. *)
Lemma close_sync_outer f s : let '(x, s') := after close_sync f s in
  match x with
  | Ok _ => if m_running s then outer s' = (false, functor_left s, false) else outer s' = outer s
  | Err _ => m_running s = true /\ outer s' = outer s
  end.
Proof.
  unfold after, close_sync, mbind, act_bind, gets, mret, act_ret, modify. destruct (m_running s) eqn:Er; cbn; [|by rewrite ?Er].
  pose proof (keeps_acceptor_close f (with_timers s false)) as H1. unfold outer, functor_left in *.
  destruct (acceptor_close f (with_timers s false)) as [[[a|e] s'] w]; cbn in *; [|split; [done|congruence]].
  injection H1 as H1 H2 H3. rewrite H1, H2. destruct (m_cleanup_functor s) eqn:E; cbn; [f_equal; f_equal; lia|].
  rewrite H1, H2, ?E. f_equal; f_equal; lia.
Qed.

Lemma open_sync_outcome count f s : let '(x, s') := after (open_sync count) f s in
  functor_left s' = functor_left s /\ match x with Ok _ => m_running s' = true | Err _ => m_running s' = m_running s end.
Proof.
  pose proof (open_sync_outer count f s) as H. destruct (after _ f s) as [x s']. unfold functor_left, outer in *.
  injection H as -> -> ->. by destruct x.
Qed.

Lemma close_sync_outcome f s : let '(x, s') := after close_sync f s in
  functor_left s' = functor_left s /\ match x with Ok _ => m_running s' = false | Err _ => m_running s = true end.
Proof.
  pose proof (close_sync_outer f s) as H. destruct (after _ f s) as [[u|e] s']; unfold functor_left, outer in *.
  - destruct (m_running s) eqn:Er; injection H as -> -> ->; split; try done; lia.
  - destruct H as [Hr H]. by injection H as -> -> _.
Qed.

(** ** What opening and closing do *)

Definition no_faults : faults := fun _ => None.

Lemma init_accepts_all l s : is_open (m_acceptor s) = true -> listening (m_acceptor s) = true ->
  init_accepts l no_faults s = (Ok tt, with_acceptor s (mk_acceptor true true (accepting (m_acceptor s) ++ l)), []).
Proof.
  revert s. induction l as [|i l IH]; intros [[o li acc] t c r n] Ho Hl; cbn in *; subst; [by rewrite app_nil_r|].
  unfold accept_next, noexcept, mbind, act_bind, perform, modify, no_faults. cbn.
  fold no_faults. rewrite IH; [|done..]. cbn. by rewrite <- app_assoc.
Qed.

(** A server that is opened accepts with every socket; closing it undoes that and
    uses up the functor. *)
Lemma opened_and_closed count cleanup :
  let opened := mk_server (mk_acceptor true true (seq 0 count)) true cleanup true 0 in
  after (open_sync count) no_faults (new_server cleanup) = (Ok tt, opened) /\
  after close_sync no_faults opened = (Ok tt, mk_server closed_acceptor false false false (if cleanup then 1 else 0)).
Proof.
  split; [|by destruct cleanup].
  unfold after, open_sync, acceptor_open, catch_std, open_state, mbind, act_bind, gets, mret, act_ret, modify, perform, no_faults.
  cbn. fold no_faults. by rewrite init_accepts_all.
Qed.

(** An exception of another type leaves the acceptor open, and the next call opens
    a server that listens to nothing. *)
Lemma half_opened count : let f c := if bool_decide (c = C_bind) then Some (Other 0) else None in
  let s := (after (open_sync count) f (new_server true)).2 in
  is_open (m_acceptor s) = true /\ m_running s = false /\
  after (open_sync count) no_faults s = (Ok tt, mk_server (mk_acceptor true false []) true true true 0).
Proof. done. Qed.

(** Starting to accept throws when the operation cannot be started, also in the handler of an opening. *)
Lemma accept_failure_terminates count s : (0 < count)%nat -> m_running s = false -> is_open (m_acceptor s) = false ->
  (after (open_sync count) (fun c => if bool_decide (c = C_async_accept) then Some (Std 0) else None) s).1 = Err Terminates.
Proof.
  intros Hc Hr Ho. destruct count as [|count]; [lia|].
  unfold after, open_sync, acceptor_open, catch_std, open_state, mbind, act_bind, gets, mret, act_ret, modify, perform.
  rewrite Hr. cbn. by rewrite Ho.
Qed.

(** ** Invariants of a run *)

Section Runs.
Context (pool_size count : nat).

Definition ended (s : run_t) : bool := match r_caller s with Finished _ => true | _ => false end.

(** The caller may still return. *)
Definition promising (s : run_t) : Prop :=
  (r_caller s = Creating \/ r_caller s = Joining \/ r_caller s = Finished (Ok tt)) /\ r_caught s = None /\ r_raced s = false.

Definition users (hs : list handler_t) : nat := length (List.filter uses_server hs).

(** What holds in every state of a run of a server that was not running. *)
Record sound (left : nat) (s : run_t) : Prop := {
  so_threads : (r_threads s <= r_created s <= pool_size)%nat;
  so_busy : (length (r_running s) <= r_threads s)%nat;
  so_creating : r_caller s = Creating -> r_status s = stopped;
  so_joining : r_caller s = Joining -> r_created s = pool_size /\ r_status s = started;
  so_unwinding : forall ex, r_caller s = Unwinding ex -> r_io_stopped s = true;
  so_all_there : r_io_stopped s = false -> r_caller s <> Terminated -> r_threads s = r_created s;
  so_ended : ended s = true -> r_threads s = 0%nat /\ (r_io_stopped s = false -> pool_size = 0%nat);
  so_good_end : r_caller s = Finished (Ok tt) -> r_caught s = None;
  so_alone : r_raced s = false -> (users (r_running s) <= 1)%nat;
  so_closed : r_io_stopped s = true -> promising s -> m_running (r_server s) = false /\ H_open ∉ r_running s;
  so_functor : r_raced s = false -> functor_left (r_server s) = left }.

Lemma pool_stop_cases s : pool_stop s = s \/ (pool_stop s = io_stop s /\ r_status s = started).
Proof. unfold pool_stop. case_bool_decide; [by right | by left]. Qed.

Lemma busy_not_ended left s : sound left s -> (0 < length (r_running s))%nat -> ended s = false.
Proof. intros [] H. destruct (ended s) eqn:E; [|done]. destruct (so_ended0 eq_refl). lia. Qed.

(** *** The effects of handlers *)

Lemma sound_server left s srv : sound left s -> (r_raced s = false -> functor_left srv = functor_left (r_server s)) ->
  (r_io_stopped s = true -> promising s -> m_running srv = false) -> sound left (with_server s srv).
Proof.
  intros [] Hf Hc. split; try done; cbn.
  - intros Hs Hp. split; [by apply Hc | by apply so_closed0].
  - intros Hr. rewrite Hf by done. by apply so_functor0.
Qed.

Lemma sound_stop left s : sound left s -> ended s = false ->
  (promising s -> m_running (r_server s) = false /\ H_open ∉ r_running s) -> sound left (io_stop s).
Proof.
  intros [] He Hc. split; try done; cbn. change (ended (io_stop s)) with (ended s). congruence.
Qed.

Lemma sound_pool_stop left s : sound left s -> ended s = false ->
  (promising s -> m_running (r_server s) = false /\ H_open ∉ r_running s) -> sound left (pool_stop s).
Proof. intros Hs He Hc. destruct (pool_stop_cases s) as [-> | [-> _]]; [done | by apply sound_stop]. Qed.

Lemma sound_caught left s ex : sound left s -> ended s = false -> sound left (with_caught s ex).
Proof.
  intros [] He. split; try done; cbn.
  - intros Hc. unfold ended in He. by rewrite Hc in He.
  - by intros _ (_ & ? & _).
Qed.

Lemma sound_terminated left s : sound left s -> sound left (with_caller s Terminated).
Proof. intros []. split; try done; cbn. by intros _ ([? | [? | ?]] & _). Qed.

Lemma sound_queue left s q : sound left s -> sound left (with_queue s q).
Proof. by intros []. Qed.

Lemma sound_fewer left s q l1 h l2 : r_running s = l1 ++ h :: l2 -> sound left s -> sound left (with_handlers s q (l1 ++ l2)).
Proof.
  intros E []. rewrite E, length_app in so_busy0. cbn in so_busy0. split; try done; cbn.
  - rewrite length_app. lia.
  - intros Hr. specialize (so_alone0 Hr). unfold users in *. rewrite E in so_alone0.
    rewrite List.filter_app, length_app in *. cbn in so_alone0. destruct (uses_server h); cbn in so_alone0; lia.
  - intros Hs Hp. destruct (so_closed0 Hs Hp) as [? Ho]. split; [done|]. rewrite E in Ho.
    rewrite elem_of_app, ?elem_of_cons in *. tauto.
Qed.

Lemma alone_rest left s l1 h l2 : sound left s -> r_running s = l1 ++ h :: l2 -> uses_server h = true -> r_raced s = false ->
  H_open ∉ l1 ++ l2.
Proof.
  intros [] E Hh Hr Hin. specialize (so_alone0 Hr). unfold users in so_alone0.
  rewrite E, List.filter_app, length_app in so_alone0. cbn in so_alone0. rewrite Hh in so_alone0. cbn in so_alone0.
  assert (Hu : (0 < length (List.filter uses_server (l1 ++ l2)))%nat).
  { apply list_elem_of_split in Hin as (k1 & k2 & ->). rewrite List.filter_app, length_app. cbn. lia. }
  rewrite List.filter_app, length_app in Hu. lia.
Qed.

(** A handler that comes to its end does not touch the threads. *)
Lemma sound_end left f h s l1 l2 : sound left s -> r_running s = l1 ++ h :: l2 ->
  sound left (execute count f h (with_handlers s (r_queue s) (l1 ++ l2))).
Proof.
  intros Hsound E. pose proof (alone_rest left s l1 h l2 Hsound E) as Halone.
  assert (He : ended s = false) by (eapply busy_not_ended; [done|]; rewrite E, length_app; cbn; lia).
  assert (Hopen : h = H_open -> r_io_stopped s = true -> ~ promising s).
  { intros -> Hs Hp. destruct (so_closed _ _ Hsound Hs Hp) as [_ Ho]. apply Ho. rewrite E. apply elem_of_app. right.
    apply list_elem_of_here. }
  pose proof (sound_fewer left s (r_queue s) l1 h l2 E Hsound) as Hs1.
  set (s1 := with_handlers s (r_queue s) (l1 ++ l2)) in *.
  assert (He1 : ended s1 = false) by done.
  destruct h; cbn [execute]; [unfold on_open | by apply sound_queue | unfold on_close | unfold on_shutdown].
  - pose proof (open_sync_outcome count f (r_server s1)) as Ho.
    destruct (after _ f (r_server s1)) as [[[]|[ex|]] srv]; destruct Ho as [Hf Hrun].
    + apply sound_server; [done..|]. intros Hs Hp. by destruct (Hopen eq_refl Hs).
    + assert (Hc : sound left (with_caught (with_server s1 srv) ex)).
      { apply (sound_server left (with_caught s1 ex)); [by apply sound_caught | done|]. by intros _ (_ & ? & _). }
      replace (with_caught (pool_stop (with_server s1 srv)) ex) with (pool_stop (with_caught (with_server s1 srv) ex))
        by (unfold pool_stop; cbn; by case_bool_decide).
      apply sound_pool_stop; [done..|]. by intros (_ & ? & _).
    + apply (sound_server left (with_caller s1 Terminated)); [by apply sound_terminated | done|].
      by intros _ ([? | [? | ?]] & _).
  - pose proof (close_sync_outcome f (r_server s1)) as Ho.
    destruct (after _ f (r_server s1)) as [[[]|[ex|]] srv]; destruct Ho as [Hf Hrun].
    + apply sound_pool_stop; [by apply sound_server | done|]. intros Hp. split; [done|]. apply Halone; [done|]. apply Hp.
    + apply (sound_server left (with_caught s1 ex)); [by apply sound_caught | done|]. by intros _ (_ & ? & _).
    + apply (sound_server left (with_caller s1 Terminated)); [by apply sound_terminated | done|].
      by intros _ ([? | [? | ?]] & _).
  - pose proof (close_sync_outcome f (r_server s1)) as Ho.
    destruct (after _ f (r_server s1)) as [[[]|ex] srv]; destruct Ho as [Hf Hrun].
    + apply sound_stop; [by apply sound_server | done|]. intros Hp. split; [done|]. apply Halone; [done|]. apply Hp.
    + apply (sound_server left (with_caller s1 Terminated)); [by apply sound_terminated | done|].
      by intros _ ([? | [? | ?]] & _).
Qed.

Lemma sound_begin left s h q1 q2 : sound left s -> can_begin s h q1 q2 -> overlaps h (r_running s) = false ->
  sound left (with_handlers s (q1 ++ q2) (r_running s ++ [h])).
Proof.
  intros [] (Hc & Hn & Hs & _) Ho. split; try done; cbn.
  - rewrite length_app. cbn. lia.
  - intros Hr. unfold users in *. rewrite List.filter_app, length_app. specialize (so_alone0 Hr).
    unfold overlaps in Ho. cbn. destruct (uses_server h); cbn in *; [|lia].
    assert (List.filter uses_server (r_running s) = []) as ->; [|done].
    clear -Ho. induction (r_running s) as [|h' l IH]; [done|]. cbn in *. destruct (uses_server h'); [done | by apply IH].
  - congruence.
Qed.

Lemma sound_race left s h q1 q2 srv : sound left s -> can_begin s h q1 q2 ->
  sound left (raced (with_handlers s (q1 ++ q2) (r_running s ++ [h])) srv).
Proof.
  intros [] (Hc & Hn & Hs & _). split; try done; cbn.
  - rewrite length_app. cbn. lia.
  - by intros _ (_ & _ & ?).
Qed.

Lemma sound_step left s s' : sound left s -> run_step pool_size count s s' -> sound left s'.
Proof.
  intros Hsound Hstep.
  destruct Hstep as [s Hc Hlt|s n Hc Hlt|s Hc He|s h q1 q2 Hb Ho|s h q1 q2 srv Hb Ho|s h l1 l2 f Ht Hr|s Ht Hr Hs|s Hc Hr|s ex Hc Hr|s Ha|s];
    [| | |by apply sound_begin|by apply sound_race|by apply sound_end| | | | |].
  all: destruct Hsound; unfold ended, promising in *.
  - split; cbn; unfold ended, promising; cbn; rewrite ?Hc in *; try done; try lia; auto.
  - split; cbn; unfold ended, promising; cbn; try done. by intros _ ([? | [? | ?]] & _).
  - split; cbn; unfold ended, promising; cbn; rewrite ?Hc in *; try done; auto.
    intros Hs (_ & Hp). apply so_closed0; auto.
  - split; cbn; try done; [lia | lia | intros; congruence |].
    intros He. unfold ended in He. cbn in He. destruct (so_ended0 He). split; [lia | congruence].
  - split; cbn; unfold ended, promising, run_outcome; cbn; try done.
    + intros Hs _. apply so_all_there0; [done | congruence].
    + intros _. split; [done|]. intros Hs. destruct (so_joining0 Hc) as [<- _]. rewrite <- so_all_there0; [done..|congruence].
    + by destruct (r_caught s).
    + intros Hs (_ & Hp). apply so_closed0; auto.
  - split; cbn; unfold ended, promising; cbn; try done.
    + intros Hs _. apply so_all_there0; [done | congruence].
    + intros _. split; [done|]. intros Hs. by rewrite (so_unwinding0 _ Hc) in Hs.
    + by intros _ ([? | [? | ?]] & _).
  - split; cbn; auto.
  - split; cbn; auto.
Qed.

Lemma sound_start srv signals : m_running srv = false -> sound (functor_left srv) (run_start srv signals).
Proof. intros H. split; cbn; unfold ended; cbn; try done; lia. Qed.

Lemma sound_run srv signals s : m_running srv = false -> rtc (run_step pool_size count) (run_start srv signals) s ->
  sound (functor_left srv) s.
Proof.
  intros Hsrv. revert s. apply rtc_ind_r; [by apply sound_start|]. intros s s' _ Hstep IH. by apply sound_step with s.
Qed.

(** C21 (safety). A call of [run] that returns or throws, in whatever order the threads,
    the signal and the calls of [initiate_shutdown] come and whichever calls of asio
    fail: every thread of the pool has ended. If no handler of [initiate_shutdown], which is not posted to the
    strand, was executed while another handler opened or closed the server (a data race that nothing
    prevents, [shutdown_races]), then the functor of the user has not been called more than once, and if [run]
    returns, no exception was stored and, unless the pool has no thread at all, the server is closed. *)
Theorem run_ends_clean handling srv s r (Hsrv : m_running srv = false)
  (Hrun : rtc (run_step pool_size count) (run_existing handling srv) s) (Hend : r_caller s = Finished r) :
  r_threads s = 0%nat /\
  (r_raced s = false ->
   (cleanup_calls (r_server s) <= functor_left srv)%nat /\
   (r = Ok tt -> r_caught s = None /\ (m_running (r_server s) = false \/ pool_size = 0%nat))).
Proof.
  assert (Hs : sound (functor_left srv) s).
  { unfold run_existing, run_with_break_signal_handling, run_without_break_signal_handling in Hrun.
    destruct handling; by eapply sound_run. }
  destruct Hs. unfold ended in so_ended0. rewrite Hend in so_ended0. destruct (so_ended0 eq_refl) as [Ht Hio].
  split; [done|]. intros Hr. specialize (so_functor0 Hr). unfold functor_left in so_functor0 at 1. split; [lia|].
  intros ->. split; [auto|].
  destruct (r_io_stopped s) eqn:E; [left; apply so_closed0; unfold promising; auto 6 | right; auto].
Qed.

(** ** A stopped run ends *)

(** How far the calling thread still has to go. *)
Definition to_do (s : run_t) : nat :=
  match r_caller s with
  | Creating => 2 * (pool_size - r_created s) + r_threads s + 2
  | Joining | Unwinding _ => S (r_threads s)
  | Finished _ | Terminated => r_threads s
  end + length (r_running s).

(** A step that is not a post from outside: of the calling thread or of the pool. *)
Definition outside (s s' : run_t) : Prop :=
  (r_signal_armed s = true /\ s' = with_queue (disarmed s) (r_queue s ++ [H_signal])) \/
  s' = with_queue s (r_queue s ++ [H_shutdown]).

Lemma outside_keeps s s' : outside s s' -> to_do s' = to_do s /\ r_io_stopped s' = r_io_stopped s /\ r_caller s' = r_caller s.
Proof. by intros [[_ ->]| ->]. Qed.

(** A handler that comes to its end does not set the caller back, and a stopped context stays stopped. *)
Lemma execute_to_do f h s : r_io_stopped s = true ->
  r_io_stopped (execute count f h s) = true /\ (to_do (execute count f h s) <= to_do s)%nat.
Proof.
  intros Hs. assert (Hstop : forall s, r_io_stopped s = true -> r_io_stopped (pool_stop s) = true /\ to_do (pool_stop s) = to_do s)
    by (intros t Ht; destruct (pool_stop_cases t) as [-> | [-> _]]; done).
  assert (Hend : forall srv, (to_do (with_caller (with_server s srv) Terminated) <= to_do s)%nat)
    by (intros srv; unfold to_do; cbn; destruct (r_caller s); lia).
  destruct h; cbn [execute]; unfold on_open, on_close, on_shutdown; [| done | |];
    (destruct (after _ f _) as [[[]|[ex|]] srv]; try done).
  - destruct (Hstop (with_server s srv) Hs) as [H1 H2]. split; [done|].
    by rewrite <- (eq_refl : to_do (with_server s srv) = to_do s), <- H2.
  - destruct (Hstop (with_server s srv) Hs) as [H1 H2]. split; [done|]. by rewrite H2.
Qed.

(** C22 (termination). Once the context of the pool is stopped - by a failed
    opening, the signal, [initiate_shutdown] or a thread that could not be created -
    [run] ends: it stays stopped, every step of the calling thread and of the pool
    makes [to_do] smaller, posts from outside do not change it, and as long as [run] has not
    ended one of those steps can be made. *)
Theorem stopped_run_ends handling srv s (Hsrv : m_running srv = false)
  (Hrun : rtc (run_step pool_size count) (run_existing handling srv) s) (Hio : r_io_stopped s = true) :
  (forall s', run_step pool_size count s s' -> r_io_stopped s' = true /\
     (outside s s' /\ to_do s' = to_do s \/ (to_do s' < to_do s)%nat)) /\
  (r_caller s = Terminated \/ (exists r, r_caller s = Finished r) \/
   exists s', run_step pool_size count s s' /\ (to_do s' < to_do s)%nat).
Proof.
  assert (Hs : sound (functor_left srv) s).
  { unfold run_existing, run_with_break_signal_handling, run_without_break_signal_handling in Hrun.
    destruct handling; by eapply sound_run. }
  destruct Hs. split.
  - intros s' Hstep.
    destruct Hstep as [s Hc Hlt|s n Hc Hlt|s Hc He|s h q1 q2 (_ & _ & Hs & _) Ho|s h q1 q2 srv' (_ & _ & Hs & _) Ho|s h l1 l2 f Ht Hr|s Ht Hr Hs|s Hc Hr|s ex Hc Hr|s Ha|s];
      try (split; [done|]); try (right; unfold to_do; cbn; rewrite ?Hc; lia).
    + congruence.
    + congruence.
    + destruct (execute_to_do f h (with_handlers s (r_queue s) (l1 ++ l2))) as [Hio' Hle]; [done|]. split; [done|]. right.
      eapply Nat.le_lt_trans; [exact Hle|]. unfold to_do. cbn. rewrite Hr, !length_app. cbn. lia.
    + right. unfold to_do. cbn. destruct (r_caller s); lia.
    + left. split; [by left | done].
    + left. split; [by right | done].
  - assert (Hrun1 : r_caller s <> Terminated -> r_running s <> [] -> exists s', run_step pool_size count s s' /\ (to_do s' < to_do s)%nat).
    { intros Hc Hn. destruct (r_running s) as [|h l] eqn:E; [done|]. exists (execute count no_faults h (with_handlers s (r_queue s) l)).
      split; [by apply (R_end _ _ s h [] l)|]. destruct (execute_to_do no_faults h (with_handlers s (r_queue s) l)) as [_ Hle]; [done|].
      eapply Nat.le_lt_trans; [exact Hle|]. unfold to_do. cbn. rewrite E. cbn. lia. }
    assert (Hexit : r_caller s <> Terminated -> r_threads s <> 0%nat -> exists s', run_step pool_size count s s' /\ (to_do s' < to_do s)%nat).
    { intros Hc Hn. destruct (decide (r_running s = [])) as [E|E]; [|by apply Hrun1].
      eexists. split; [apply R_exit; [done | rewrite E; cbn; lia | done]|]. unfold to_do. cbn. destruct (r_caller s); lia. }
    destruct (r_caller s) as [| |ex|r|] eqn:Hc; [right; right|right; right|right; right| by eauto | by left].
    + destruct (decide (r_created s < pool_size)%nat) as [Hlt|Hge].
      * eexists. split; [by apply R_create|]. unfold to_do. cbn. rewrite Hc. lia.
      * eexists. split; [apply R_started; [done | lia]|]. unfold to_do. cbn. rewrite Hc. lia.
    + destruct (decide (r_threads s = 0%nat)) as [H0|H0].
      * eexists. split; [by apply R_joined|]. unfold to_do. cbn. rewrite Hc. lia.
      * by apply Hexit.
    + destruct (decide (r_threads s = 0%nat)) as [H0|H0].
      * eexists. split; [by eapply R_unwound|]. unfold to_do. cbn. rewrite Hc. lia.
      * by apply Hexit.
Qed.

(** ** A failure that is lost *)

(** A handler from its beginning to its end, with nothing in between. *)
Lemma run_handler_whole s h q f : r_caller s <> Terminated -> (0 < r_threads s)%nat -> r_io_stopped s = false -> r_queue s = h :: q ->
  r_running s = [] -> rtc (run_step pool_size count) s (execute count f h (with_handlers s q [])).
Proof.
  intros Hc Hn Hs Hq Hr. eapply rtc_l; [apply (R_begin _ _ s h [] q)|].
  - split_and!; [done|by rewrite Hr|done|done|]. by rewrite Hr.
  - unfold overlaps. by rewrite Hr, andb_false_r.
  - rewrite Hr. apply rtc_once. by apply (R_end _ _ (with_handlers s q [h]) h [] [] f).
Qed.

Lemma create_all k s : r_caller s = Creating -> (r_created s + k = pool_size)%nat ->
  rtc (run_step pool_size count) s (with_threads s pool_size (r_threads s + k)).
Proof.
  revert s. induction k as [|k IH]; intros s Hc Hk.
  - rewrite Nat.add_0_r. replace (with_threads s _ _) with s; [done|]. destruct s; unfold with_threads; cbn in *. f_equal. lia.
  - eapply rtc_l; [apply R_create; [done | lia]|].
    replace (r_threads s + S k)%nat with (S (r_threads s) + k)%nat by lia. apply (IH (with_threads s _ _)); cbn; [done | lia].
Qed.

(** The pool ignores a stop until all its threads are created. If the first thread
    executes the opening before that and it fails, the exception is stored, but
    nothing stops the pool: [run] waits for threads that wait for work, and only
    a post from outside can make a step. *)
Theorem early_failure_is_lost handling srv f ex (Hpool : (0 < pool_size)%nat)
  (Hfail : (after (open_sync count) f srv).1 = Err (Throws ex)) :
  exists s, rtc (run_step pool_size count) (run_existing handling srv) s /\
    r_caller s = Joining /\ r_caught s = Some ex /\ r_threads s = pool_size /\
    forall s', run_step pool_size count s s' -> outside s s'.
Proof.
  destruct (after (open_sync count) f srv) as [x srv'] eqn:Ho. cbn in Hfail. subst x.
  set (s0 := run_existing handling srv).
  assert (Hs0 : exists b, s0 = run_start srv b) by (destruct handling; by eexists). destruct Hs0 as [signals Hs0].
  set (s1 := mk_run srv' [] [] false stopped 1 1 Creating (Some ex) signals false).
  exists (with_status (with_threads s1 pool_size pool_size) started Joining). split; [|split_and!; try done].
  - rewrite Hs0. eapply rtc_l; [apply R_create; [done | done]|].
    etrans; [apply (run_handler_whole _ H_open [] f); cbn; [done | lia | done..]|].
    cbn [execute]. unfold on_open. cbn [with_queue with_handlers with_threads run_start r_server]. rewrite Ho. cbn.
    eapply rtc_r; [apply (create_all (pool_size - 1) s1); cbn; [done | lia]|].
    replace (r_threads s1 + (pool_size - 1))%nat with pool_size by (cbn; lia). by apply R_started.
  - intros s' Hstep. inversion Hstep as [| | |s h q1 q2 (_ & _ & _ & Hq & _)|s h q1 q2 srv2 (_ & _ & _ & Hq & _)|s h l1 l2 f2 _ Hl| | | | |];
      subst; cbn in *; try done; try lia; try (by destruct q1); try (by destruct l1).
    + by left.
    + by right.
Qed.

(** While the opening is executed, [initiate_shutdown] is called, and another thread executes its handler. *)
Lemma shutdown_races handling srv srv' : (2 <= pool_size)%nat ->
  exists s, rtc (run_step pool_size count) (run_existing handling srv) s /\ r_raced s = true /\ r_server s = srv'.
Proof.
  intros Hpool. assert (Hs0 : exists b, run_existing handling srv = run_start srv b) by (destruct handling; by eexists).
  destruct Hs0 as [signals ->]. eexists. split; [|split; [|]].
  - eapply rtc_l; [apply R_create; cbn; [done | lia]|]. eapply rtc_l; [apply R_create; cbn; [done | lia]|].
    eapply rtc_l; [apply (R_begin _ _ _ H_open [] []); [by split_and!; cbn; try done; lia | done]|].
    eapply rtc_l; [apply R_shutdown|].
    eapply rtc_l; [apply (R_race _ _ _ H_shutdown [] [] srv'); [by split_and!; cbn; try done; lia | done]|]. apply rtc_refl.
  - done.
  - done.
Qed.
End Runs.

(** ** Runs of a small pool *)

Definition port_taken : faults := fun c => if bool_decide (c = C_bind) then Some (Std 98) else None.

(** Two threads, one accepting socket: opened, interrupted, closed. *)
Definition interrupted : run_t :=
  mk_run (mk_server closed_acceptor false false false 1) [] [] true stopped 2 0 (Finished (Ok tt)) None false false.

Lemma interrupted_reached : rtc (run_step 2 1) (run_existing used (new_server true)) interrupted.
Proof.
  eapply rtc_l; [apply R_create; [done | cbn; lia]|].
  eapply rtc_l; [apply R_create; [done | cbn; lia]|].
  eapply rtc_l; [by apply R_started|].
  etrans; [apply (run_handler_whole _ _ _ H_open [] no_faults); [done | cbn; lia | done..]|].
  eapply rtc_l; [apply R_signal; by vm_compute|].
  etrans; [apply (run_handler_whole _ _ _ H_signal [] no_faults); [done | vm_compute; lia | done..]|].
  etrans; [apply (run_handler_whole _ _ _ H_close [] no_faults); [done | vm_compute; lia | done..]|].
  eapply rtc_l; [apply R_exit; [done | vm_compute; lia | done]|].
  eapply rtc_l; [apply R_exit; [done | vm_compute; lia | done]|].
  eapply rtc_l; [apply R_joined; done|].
  by vm_compute.
Qed.

Lemma run_ends_clean_witness : (cleanup_calls (r_server interrupted) <= 1)%nat /\
  (Ok tt = Ok tt :> result exn_t unit -> r_caught interrupted = None /\ (m_running (r_server interrupted) = false \/ 2 = 0)%nat).
Proof. exact (proj2 (run_ends_clean 2 1 used (new_server true) interrupted (Ok tt) eq_refl interrupted_reached eq_refl) eq_refl). Defined.

(** The opening fails when the pool has started. *)
Definition failed_opening : run_t :=
  mk_run (mk_server closed_acceptor true true false 0) [] [] true started 1 1 Joining (Some (Std 98)) false false.

Lemma failed_opening_reached : rtc (run_step 1 1) (run_existing skipped (new_server true)) failed_opening.
Proof.
  eapply rtc_l; [apply R_create; [done | cbn; lia]|].
  eapply rtc_l; [by apply R_started|].
  etrans; [apply (run_handler_whole _ _ _ H_open [] port_taken); [done | cbn; lia | done..]|].
  by vm_compute.
Qed.

Lemma stopped_run_ends_witness :
  exists s', run_step 1 1 failed_opening s' /\ (to_do 1 s' < to_do 1 failed_opening)%nat.
Proof.
  destruct (stopped_run_ends 1 1 skipped (new_server true) failed_opening eq_refl failed_opening_reached eq_refl)
    as [_ [Hc|[[r Hc]|H]]]; [discriminate Hc | discriminate Hc | exact H].
Defined.

Lemma early_failure_is_lost_witness : exists s, rtc (run_step 2 1) (run_existing skipped (new_server true)) s /\
  r_caller s = Joining /\ r_caught s = Some (Std 98) /\ r_threads s = 2%nat /\
  forall s', run_step 2 1 s s' -> outside s s'.
Proof. apply (early_failure_is_lost 2 1 skipped (new_server true) port_taken (Std 98)); [lia | vm_compute; reflexivity]. Defined.
