(* ===== verification/ThisThread.v ===== *)
(** * A server that runs on the calling thread

    The functions [run] of [restinio/http_server_run.hpp] that take settings for the calling thread, over
    the server of [Server]: the thread executes the handlers of its context until the
    context is stopped or has no work, then destroys the server, and returns or throws. The signal and
    calls of [initiate_shutdown] come at any time. *)

From stdpp Require Import relations.
From S2P Require Import Prelude Effects Server.

(** Where the thread is: in the context's [run]; it leaves, with what it will tell, and destroys
    the server; it has left; an exception in the destructor has ended the program. *)
Inductive place_t : Type :=
| Running_context
| Destroying (r : result exn_t unit)
| Left_run (r : result exn_t unit)
| Died.

(** [t_opened]: the handler of the opening has been executed. *)
(*@ http_server_run.hpp 223-232 run *)
Record this_run_t : Type := mk_this_run {
  t_server : http_server_t;
  t_queue : list handler_t;
  t_io_stopped : bool;
  t_caught : option exn_t;
  t_signal_armed : bool;
  t_opened : bool;
  t_place : place_t }.

Section ThisThread.
(** The number of accepting sockets. *)
Context (count : nat).

Definition t_with (srv : http_server_t) (stop : bool) (caught : option exn_t) (s : this_run_t) : this_run_t :=
  mk_this_run srv (t_queue s) stop caught (t_signal_armed s) (t_opened s) (t_place s).
Definition t_requeue (q : list handler_t) (armed : bool) (s : this_run_t) : this_run_t :=
  mk_this_run (t_server s) q (t_io_stopped s) (t_caught s) armed (t_opened s) (t_place s).
Definition t_moved (p : place_t) (s : this_run_t) : this_run_t :=
  mk_this_run (t_server s) (t_queue s) (t_io_stopped s) (t_caught s) (t_signal_armed s) (t_opened s) p.

(*@ http_server_run.hpp 250-258 run *)
Definition t_on_open (f : faults) (s : this_run_t) : this_run_t :=
  let s := mk_this_run (t_server s) (t_queue s) (t_io_stopped s) (t_caught s) (t_signal_armed s) true (t_place s) in
  match after (open_sync count) f (t_server s) with
  | (Ok _, srv) => t_with srv (t_io_stopped s) (t_caught s) s
  | (Err (Throws ex), srv) => t_with srv true (Some ex) s
  | (Err Terminates, srv) => t_moved Died (t_with srv (t_io_stopped s) (t_caught s) s)
  end.

(*@ http_server_run.hpp 237-246 run *)
Definition t_on_close (f : faults) (s : this_run_t) : this_run_t :=
  match after close_sync f (t_server s) with
  | (Ok _, srv) => t_with srv true (t_caught s) s
  | (Err (Throws ex), srv) => t_with srv (t_io_stopped s) (Some ex) s
  | (Err Terminates, srv) => t_moved Died (t_with srv (t_io_stopped s) (t_caught s) s)
  end.

(** An exception leaves the handler, the context's [run] and with it this function. *)
(*@ http_server_run.hpp 679-687 initiate_shutdown *)
Definition t_on_shutdown (f : faults) (s : this_run_t) : this_run_t :=
  match after close_sync f (t_server s) with
  | (Ok _, srv) => t_with srv true (t_caught s) s
  | (Err (Throws ex), srv) => t_moved (Destroying (Err ex)) (t_with srv (t_io_stopped s) (t_caught s) s)
  | (Err Terminates, srv) => t_moved Died (t_with srv (t_io_stopped s) (t_caught s) s)
  end.

Definition t_execute (f : faults) (h : handler_t) (s : this_run_t) : this_run_t :=
  match h with
  | H_open => t_on_open f s
  | H_signal => t_requeue (t_queue s ++ [H_close]) (t_signal_armed s) s
  | H_close => t_on_close f s
  | H_shutdown => t_on_shutdown f s
  end.

(*@ http_server_run.hpp 262-265 run *)
Definition t_outcome (s : this_run_t) : result exn_t unit := match t_caught s with Some ex => Err ex | None => Ok tt end.

(*@ http_server.hpp 240-244 http_server_t::~http_server_t *)
Definition t_destroy (f : faults) (r : result exn_t unit) (s : this_run_t) : this_run_t :=
  match after close_sync f (t_server s) with
  | (Ok _, srv) => t_moved (Left_run r) (t_with srv (t_io_stopped s) (t_caught s) s)
  | (Err _, srv) => t_moved Died (t_with srv (t_io_stopped s) (t_caught s) s)
  end.

(** The context has work as long as a handler is queued, the signal is waited for or
    sockets are accepted; connections may keep it busy after that. *)
(*@ http_server_run.hpp 214-265 run *)
Inductive this_step : this_run_t -> this_run_t -> Prop :=
| T_execute s h q f : t_place s = Running_context -> t_io_stopped s = false -> t_queue s = h :: q ->
    this_step s (t_execute f h (t_requeue q (t_signal_armed s) s))
| T_stopped s : t_place s = Running_context -> t_io_stopped s = true -> this_step s (t_moved (Destroying (t_outcome s)) s)
| T_no_work s : t_place s = Running_context -> t_queue s = [] -> t_signal_armed s = false -> is_open (m_acceptor (t_server s)) = false ->
    this_step s (t_moved (Destroying (t_outcome s)) s)
| T_destroyed s r f : t_place s = Destroying r -> this_step s (t_destroy f r s)
| T_signal s : t_signal_armed s = true -> this_step s (t_requeue (t_queue s ++ [H_signal]) false s)
| T_shutdown s : this_step s (t_requeue (t_queue s ++ [H_shutdown]) (t_signal_armed s) s).

(*@ http_server_run.hpp 281-288 run *)
Definition run_on_this_thread (cleanup : bool) : this_run_t :=
  mk_this_run (new_server cleanup) [H_open] false None true false Running_context.
End ThisThread.

(** ** Proofs *)

Section Proofs.
Context (count : nat) (cleanup : bool).

(** Code that succeeds leaves an open acceptor open, or opens it. *)
Definition stays_open {A} (m : server_act A) : Prop :=
  forall r s a s' w, m r s = (Ok a, s', w) -> is_open (m_acceptor s) = true -> is_open (m_acceptor s') = true.
Definition opens {A} (m : server_act A) : Prop :=
  forall r s a s' w, m r s = (Ok a, s', w) -> is_open (m_acceptor s') = true.

Lemma bind_ok {A B} (m : server_act A) (f : A -> server_act B) r s b s' w : (m ≫= f) r s = (Ok b, s', w) ->
  exists a s1 w1 w2, m r s = (Ok a, s1, w1) /\ f a r s1 = (Ok b, s', w2).
Proof.
  unfold mbind, act_bind. destruct (m r s) as [[[a|e] s1] w1]; [|done].
  destruct (f a r s1) as [[y s2] w2] eqn:E. intros [= -> -> _]. by exists a, s1, w1, w2.
Qed.

Lemma stays_bind {A B} (m : server_act A) (f : A -> server_act B) : stays_open m -> (forall a, stays_open (f a)) -> stays_open (m ≫= f).
Proof. intros Hm Hf r s b s' w (a & s1 & w1 & w2 & E1 & E2)%bind_ok Ho. eapply Hf, Hm; done. Qed.
Lemma opens_later {A B} (m : server_act A) (f : A -> server_act B) : (forall a, opens (f a)) -> opens (m ≫= f).
Proof. intros Hf r s b s' w (a & s1 & w1 & w2 & E1 & E2)%bind_ok. by eapply Hf. Qed.
Lemma opens_now {A B} (m : server_act A) (f : A -> server_act B) : opens m -> (forall a, stays_open (f a)) -> opens (m ≫= f).
Proof. intros Hm Hf r s b s' w (a & s1 & w1 & w2 & E1 & E2)%bind_ok. eapply Hf, Hm; done. Qed.
Lemma stays_perform c : stays_open (perform c).
Proof. intros r s a s' w. unfold perform. by destruct (r c); intros [= _ <- _]. Qed.
Lemma stays_noexcept {A} (m : server_act A) : stays_open m -> stays_open (noexcept m).
Proof. intros Hm r s a s' w. unfold noexcept. destruct (m r s) as [[[b|e] s1] w1] eqn:E; [|done]. intros [= -> -> ->]. by eapply Hm. Qed.
Lemma stays_init_accepts l : stays_open (init_accepts l).
Proof.
  induction l as [|i l IH]; [by intros r s a s' w [= _ <- _]|]. cbn [init_accepts].
  apply stays_bind; [apply stays_perform|]. intros _. apply stays_bind; [|done]. apply stays_noexcept, stays_bind; [apply stays_perform|].
  by intros _ r s a s' w [= _ <- _].
Qed.

Lemma catch_ok {A} (m : server_act A) h r s a s' w : (forall n r s b s1 w1, h (Std n) r s <> (Ok b, s1, w1)) ->
  catch_std m h r s = (Ok a, s', w) -> m r s = (Ok a, s', w).
Proof.
  intros Hh. unfold catch_std. destruct (m r s) as [[[b|[[n|n]|]] s1] w1]; [done| |done|done].
  specialize (Hh n r s1). destruct (h (Std n) r s1) as [[y s2] w2]. intros [= -> -> _]. by destruct (Hh a s' w2).
Qed.

Lemma acceptor_open_opens : opens (acceptor_open count).
Proof.
  intros r s a s' w H. unfold acceptor_open in H. apply bind_ok in H as (o & s1 & w1 & w2 & E1 & E2).
  injection E1 as <- <- <-. destruct (is_open (m_acceptor s)) eqn:Eo.
  - revert E2 Eo. by apply (stays_bind (perform C_local_endpoint)); intros; apply stays_perform.
  - apply bind_ok in E2 as (u & s2 & w3 & w4 & E2 & E3). apply catch_ok in E3.
    + revert E3. apply opens_later. intros _. apply opens_later. intros _. apply opens_now; [by intros ????? [= _ <- _]|]. intros _.
      repeat (apply stays_bind; [first [apply stays_perform | apply stays_init_accepts | by intros ????? [= _ <- _]]|intros _]).
      apply stays_perform.
    + intros n r' s5 b s4 w6 Eh. do 3 apply bind_ok in Eh as (? & ? & ? & ? & _ & Eh). done.
Qed.

Lemma open_sync_opens f s u srv : m_running s = false -> after (open_sync count) f s = (Ok u, srv) -> is_open (m_acceptor srv) = true.
Proof.
  unfold after. intros Hs. destruct (open_sync count f s) as [[x s'] w] eqn:E. intros [= -> ->].
  unfold open_sync in E. apply bind_ok in E as (r & s1 & w1 & w2 & E1 & E). injection E1 as <- <- _. rewrite Hs in E. cbn [negb] in E.
  revert E. assert (H : opens (modify (fun s => with_timers s true);; acceptor_open count;; modify (fun s => with_running s true)));
    [|apply H].
  apply opens_later. intros _. apply opens_now; [apply acceptor_open_opens|]. by intros _ ????? [= _ <- _].
Qed.

(** Opening a new server leaves it open, or not running. *)
Lemma new_server_opened f : let '(x, srv) := after (open_sync count) f (new_server cleanup) in
  outer srv = (cleanup, 0%nat, is_ok x) /\ (is_ok x = true -> is_open (m_acceptor srv) = true).
Proof.
  pose proof (open_sync_outer count f (new_server cleanup)) as H.
  destruct (after _ _ _) as [[u|] srv] eqn:E; (split; [exact H|]); [|done]. intros _. by apply (open_sync_opens f (new_server cleanup) u).
Qed.

(** The handler of the opening is the first, and the only one of its kind; until no exception is stored, the server
    is running with its functor, or has been closed and stops the context. *)
Definition waiting (s : this_run_t) : Prop :=
  (exists q, t_queue s = H_open :: q /\ ~ (H_open ∈ q)) /\ t_server s = new_server cleanup /\ t_caught s = None /\ t_io_stopped s = false.

Definition progressed (s : this_run_t) : Prop :=
  ~ (H_open ∈ t_queue s) /\ functor_left (t_server s) = (if cleanup then 1%nat else 0%nat) /\
  (t_caught s = None ->
   m_running (t_server s) = true /\ is_open (m_acceptor (t_server s)) = true /\ t_io_stopped s = false \/
   outer (t_server s) = (false, if cleanup then 1%nat else 0%nat, false) /\ t_io_stopped s = true).

Definition this_inv (s : this_run_t) : Prop :=
  match t_place s with
  | Running_context => if t_opened s then progressed s else waiting s
  | Destroying r | Left_run r =>
      functor_left (t_server s) = (if cleanup then 1%nat else 0%nat) /\
      (r = Ok tt -> outer (t_server s) = (false, if cleanup then 1%nat else 0%nat, false)) /\
      (t_place s = Left_run r -> m_running (t_server s) = false)
  | Died => True
  end.

Lemma outer_left srv c n r : outer srv = (c, n, r) -> functor_left srv = (n + if c then 1 else 0)%nat /\ m_running srv = r.
Proof. unfold outer, functor_left. by intros [= -> -> ->]. Qed.

Lemma requeue_inv s h armed : h <> H_open -> this_inv s -> this_inv (t_requeue (t_queue s ++ [h]) armed s).
Proof.
  assert (Hx : forall q : list handler_t, h <> H_open -> ~ (H_open ∈ q) -> ~ (H_open ∈ q ++ [h])).
  { intros q Hh Hq. rewrite elem_of_app, list_elem_of_singleton. intros [?|E]; [done | by symmetry in E]. }
  intros Hh. unfold this_inv. cbn. destruct (t_place s); try done. destruct (t_opened s).
  - intros (Hq & Hg). split; [by apply Hx | done].
  - intros ((q & Hq & Hn) & Hg). split; [|done]. exists (q ++ [h]). cbn. rewrite Hq. split; [done | by apply Hx].
Qed.

(** A closing that succeeds leaves the server closed and the context stopped; one that fails is stored, or thrown. *)
Lemma closed_progressed s srv : progressed s -> t_io_stopped s = false -> 
  outer srv = (if m_running (t_server s) then (false, functor_left (t_server s), false) else outer (t_server s)) ->
  functor_left srv = functor_left (t_server s) -> progressed (t_with srv true (t_caught s) s).
Proof.
  intros (Hq & Hf & Hc) Hs Ho Hl. split_and!; cbn; [done | congruence|]. intros E. right. split; [|done].
  destruct (Hc E) as [(Hr & _)|[_ Hx]]; [|congruence]. rewrite Hr, Hf in Ho. exact Ho.
Qed.

Lemma this_inv_execute s h q f : this_inv s -> t_place s = Running_context -> t_io_stopped s = false -> t_queue s = h :: q ->
  this_inv (t_execute count f h (t_requeue q (t_signal_armed s) s)).
Proof.
  intros Hi Hp Hs Hq. set (s0 := t_requeue q (t_signal_armed s) s). unfold this_inv in Hi. rewrite Hp in Hi.
  assert (Hp0 : t_place s0 = Running_context) by done. assert (Hs0 : t_io_stopped s0 = false) by done.
  destruct (t_opened s) eqn:Eo.
  - assert (Eo0 : t_opened s0 = true) by done.
    assert (Hh : h <> H_open) by (destruct Hi as [Hx _]; rewrite Hq in Hx; intros ->; apply Hx, list_elem_of_here).
    assert (Hg : progressed s0).
    { destruct Hi as (Hx & Hf & Hc). split; [|done]. cbn. rewrite Hq in Hx. intros Hx'. by apply Hx, list_elem_of_further. }
    pose proof (close_sync_outcome f (t_server s0)) as H1. pose proof (close_sync_outer f (t_server s0)) as H2.
    clearbody s0. clear Hi Hp Hs Eo Hq.
    unfold this_inv. destruct h; [done | | |]; cbn [t_execute]; unfold t_on_close, t_on_shutdown.
    + apply (requeue_inv s0 H_close (t_signal_armed s0)); [done|]. unfold this_inv. by rewrite Hp0, Eo0.
    + destruct (after close_sync f (t_server s0)) as [[[]|[ex|]] srv]; destruct H1 as [Hl Hr]; cbn; rewrite ?Hp0, ?Eo0; [| |done].
      * apply closed_progressed; try done. by destruct (m_running (t_server s0)).
      * destruct Hg as (Hx & Hf & _). split_and!; cbn; [done | congruence | done].
    + destruct (after close_sync f (t_server s0)) as [[[]|[ex|]] srv]; destruct H1 as [Hl Hr]; cbn; rewrite ?Hp0, ?Eo0; [| |done].
      * apply closed_progressed; try done. by destruct (m_running (t_server s0)).
      * destruct Hg as (Hx & Hf & _). split_and!; [congruence | done | done].
  - destruct Hi as ((q' & Hq' & Hx) & Hsrv & Hc & _). rewrite Hq in Hq'. injection Hq' as -> <-.
    cbn [t_execute]. unfold t_on_open, this_inv. cbn. rewrite Hsrv. pose proof (new_server_opened f) as H.
    destruct (after _ f _) as [[[]|[ex|]] srv]; destruct H as [Ho Hop]; cbn; rewrite ?Hp; [| |done]; apply outer_left in Ho as [Hf Hr];
      (split_and!; cbn; [done | by rewrite Hf; destruct cleanup|]); [|done].
    intros _. left. split_and!; [done | by apply Hop | done].
Qed.

Lemma this_inv_step s s' : this_inv s -> this_step count s s' -> this_inv s'.
Proof.
  intros Hi Hs. destruct Hs as [s h q f Hp Hs Hq|s Hp Hs|s Hp Hq Ha Ho|s r f Hp|s Ha|s].
  - by apply this_inv_execute.
  - unfold this_inv in *. rewrite Hp in Hi. cbn. destruct (t_opened s); [|by destruct Hi as (_ & _ & _ & ?); congruence].
    destruct Hi as (_ & Hf & Hc). split_and!; [done| |done]. unfold t_outcome. destruct (t_caught s); [done|].
    intros _. by destruct (Hc eq_refl) as [(_ & _ & ?)|[? _]]; [congruence|].
  - unfold this_inv in *. rewrite Hp in Hi. cbn. destruct (t_opened s); [|by destruct Hi as ((q & Hq' & _) & _); congruence].
    destruct Hi as (_ & Hf & Hc). split_and!; [done| |done]. unfold t_outcome. destruct (t_caught s); [done|].
    intros _. by destruct (Hc eq_refl) as [(_ & ? & _)|[? _]]; [congruence|].
  - unfold this_inv in *. rewrite Hp in Hi. destruct Hi as (Hf & Hr & _). unfold t_destroy.
    pose proof (close_sync_outcome f (t_server s)) as H1. pose proof (close_sync_outer f (t_server s)) as H2.
    destruct (after close_sync f (t_server s)) as [[[]|ex] srv]; [|done]. destruct H1 as [Hl Hm]. cbn.
    split_and!; [congruence | | done]. intros ->. specialize (Hr eq_refl). pose proof (outer_left _ _ _ _ Hr) as [_ Hn].
    rewrite Hn in H2. congruence.
  - by apply requeue_inv.
  - by apply requeue_inv.
Qed.

Lemma this_inv_run s : rtc (this_step count) (run_on_this_thread cleanup) s -> this_inv s.
Proof.
  revert s. apply rtc_ind_r; [|intros s s' _ Hstep IH; by eapply this_inv_step].
  split; [|done]. exists []. split; [done|]. by intros ?%elem_of_nil.
Qed.

(** What holds once the opening has failed. *)
Definition failed (ex : exn_t) (s : this_run_t) : Prop :=
  m_running (t_server s) = false /\
  match t_place s with
  | Running_context => t_io_stopped s = true /\ t_caught s = Some ex
  | Destroying r | Left_run r => r = Err ex
  | Died => False
  end.

Lemma failed_step ex s s' : failed ex s -> this_step count s s' -> failed ex s'.
Proof.
  intros [Hr Hi] Hs. unfold failed in *. destruct Hs as [s h q f Hp Hs Hq|s Hp Hs|s Hp Hq Ha Ho|s r f Hp|s Ha|s]; try rewrite Hp in Hi.
  - destruct Hi. congruence.
  - cbn. split; [done|]. unfold t_outcome. destruct Hi as [_ ->]. done.
  - cbn. split; [done|]. unfold t_outcome. destruct Hi as [_ ->]. done.
  - subst r. unfold t_destroy. pose proof (close_sync_outcome f (t_server s)) as H1.
    destruct (after close_sync f (t_server s)) as [[[]|e] srv]; destruct H1 as [_ H1]; [done | congruence].
  - done.
  - done.
Qed.

Lemma failed_ends ex s : failed ex s -> exists s', rtc (this_step count) s s' /\ t_place s' = Left_run (Err ex).
Proof.
  assert (Hd : forall s, failed ex s -> t_place s = Destroying (Err ex) -> exists s', this_step count s s' /\ t_place s' = Left_run (Err ex)).
  { intros t [Hr _] Hp. exists (t_destroy no_faults (Err ex) t). split; [by apply T_destroyed|]. unfold t_destroy.
    pose proof (close_sync_outcome no_faults (t_server t)) as H1.
    destruct (after close_sync no_faults (t_server t)) as [[[]|e] srv]; destruct H1 as [_ H1]; [done | congruence]. }
  intros Hf. pose proof Hf as [Hr Hi]. destruct (t_place s) eqn:Hp; [| | |done].
  - destruct Hi as [Hs Hc]. assert (Hstep : this_step count s (t_moved (Destroying (t_outcome s)) s)) by by apply T_stopped.
    unfold t_outcome in Hstep. rewrite Hc in Hstep. destruct (Hd _ (failed_step _ _ _ Hf Hstep) eq_refl) as (s' & Hs' & Hl).
    exists s'. split; [|done]. eapply rtc_l; [done|]. by apply rtc_once.
  - subst r. destruct (Hd s Hf Hp) as (s' & Hs' & Hl). exists s'. split; [by apply rtc_once|done].
  - subst r. by exists s.
Qed.
End Proofs.

(** When [run] has returned or thrown, whichever calls fail and whenever the signal and the shutdowns
    come, the server is closed; if it has returned, the user's functor has been called, exactly once. *)
Lemma this_thread_run_ends_clean count cleanup s r (Hrun : rtc (this_step count) (run_on_this_thread cleanup) s)
  (Hend : t_place s = Left_run r) :
  m_running (t_server s) = false /\
  (r = Ok tt -> m_cleanup_functor (t_server s) = false /\ cleanup_calls (t_server s) = if cleanup then 1%nat else 0%nat).
Proof.
  pose proof (this_inv_run count cleanup s Hrun) as Hi. unfold this_inv in Hi. rewrite Hend in Hi.
  destruct Hi as (_ & Ho & Hm). split; [by apply Hm|]. intros Hr. by injection (Ho Hr) as -> -> _.
Qed.

(** C23 (error). The opening of a server that runs on the calling thread throws an exception, by whatever
    call but the start of an accept operation, which is made in [noexcept] functions and
    ends the program ([accept_failure_ends_program]): [run] throws just that exception, whatever else happens. It cannot
    return, throw another one, wait for ever or end the program (on a pool it can, by [early_failure_is_lost]). *)
Theorem opening_failure_is_thrown count cleanup f ex srv s
  (Hopen : after (open_sync count) f (new_server cleanup) = (Err (Throws ex), srv))
  (Hrun : rtc (this_step count) (t_execute count f H_open (t_requeue [] true (run_on_this_thread cleanup))) s) :
  t_place s <> Died /\ (forall r, t_place s = Left_run r -> r = Err ex) /\
  exists s', rtc (this_step count) s s' /\ t_place s' = Left_run (Err ex).
Proof.
  assert (Hf : failed ex s).
  { revert s Hrun. apply rtc_ind_r; [|intros s s' _ Hstep IH; by eapply failed_step].
    unfold failed, t_execute, t_on_open. cbn. rewrite Hopen. cbn.
    pose proof (open_sync_outcome count f (new_server cleanup)) as H. rewrite Hopen in H. by destruct H as [_ ->]. }
  split_and!; [| |by apply failed_ends]; destruct Hf as [_ Hf].
  - intros E. by rewrite E in Hf.
  - intros r E. by rewrite E in Hf.
Qed.

(** Binding to the address throws. *)
Definition bind_fails : faults := fun c => if bool_decide (c = C_bind) then Some (Std 98) else None.

Lemma opening_failure_is_thrown_witness :
  exists s', rtc (this_step 1) (t_execute 1 bind_fails H_open (t_requeue [] true (run_on_this_thread true))) s' /\
    t_place s' = Left_run (Err (Std 98)).
Proof.
  destruct (opening_failure_is_thrown 1 true bind_fails (Std 98) (after (open_sync 1) bind_fails (new_server true)).2
    (t_execute 1 bind_fails H_open (t_requeue [] true (run_on_this_thread true))) ltac:(reflexivity) (rtc_refl _ _)) as (_ & _ & s' & H1 & H2).
  by exists s'.
Defined.

(** The start of an accept operation throws. *)
Lemma accept_failure_ends_program count cleanup : (0 < count)%nat ->
  t_place (t_execute count (fun c => if bool_decide (c = C_async_accept) then Some (Std 0) else None) H_open
             (t_requeue [] true (run_on_this_thread cleanup))) = Died.
Proof.
  intros Hc. pose proof (accept_failure_terminates count (new_server cleanup) Hc eq_refl eq_refl) as H.
  cbn [t_execute]. unfold t_on_open. cbn [t_server t_requeue run_on_this_thread].
  destruct (after _ _ _) as [x srv]. cbn in H. by subst x.
Qed.

(** The handler of the opening is the first to be executed. *)
Lemma opening_comes_first count cleanup f :
  this_step count (run_on_this_thread cleanup) (t_execute count f H_open (t_requeue [] true (run_on_this_thread cleanup))).
Proof. by apply (T_execute count (run_on_this_thread cleanup) H_open [] f). Qed.
