(* ===== verification/AsyncRun.v ===== *)
(** * A server that runs beside its creator

    [on_pool_runner_t], [running_server_instance_t] and [run_async] of
    [restinio/http_server_run.hpp], over the server and the pool of [Server]: the
    thread that calls [run_async] waits until the server is open, keeps a handle to
    stop it and wait for it, and destroys the handle when it likes. The machine's steps are
    those of this thread and of the threads of the pool, in any order. *)

From stdpp Require Import relations.
From S2P Require Import Prelude Effects Server.

(** Where that thread is: [run_async] creates the threads of the pool, or waits
    for the promise; the handle is in use, or [wait] is; what was made is destroyed, first
    the pool and then the server, and then [run_async] throws or the handle is gone; or
    an exception in the destructor has ended the program. *)
Inductive caller_t : Type :=
| Creating
| Waiting
| In_use
| Joining
| Pool_destructor (r : result exn_t unit)
| Server_destructor (r : result exn_t unit)
| Gone (r : result exn_t unit)
| Terminated.

(** The server, the queue and the state of the pool, the promise of [start] and the caller. *)
(*@ http_server_run.hpp 941-969 running_server_instance_t *)
Record instance_t : Type := mk_instance {
  m_server : http_server_t;
  m_queue : list handler_t;
  m_io_stopped : bool;
  m_status : pool_status_t;
  m_created : nat;
  m_threads : nat;
  m_promise : option (result exn_t unit);
  m_caller : caller_t }.

Section AsyncRun.
(** The size of the pool and the number of accepting sockets. *)
Context (pool_size count : nat).

Definition set_server (s : instance_t) (srv : http_server_t) : instance_t :=
  mk_instance srv (m_queue s) (m_io_stopped s) (m_status s) (m_created s) (m_threads s) (m_promise s) (m_caller s).
Definition set_queue (s : instance_t) (q : list handler_t) : instance_t :=
  mk_instance (m_server s) q (m_io_stopped s) (m_status s) (m_created s) (m_threads s) (m_promise s) (m_caller s).
Definition set_pool (s : instance_t) (io : bool) (st : pool_status_t) (created threads : nat) : instance_t :=
  mk_instance (m_server s) (m_queue s) io st created threads (m_promise s) (m_caller s).
Definition set_promise (s : instance_t) (r : result exn_t unit) : instance_t :=
  mk_instance (m_server s) (m_queue s) (m_io_stopped s) (m_status s) (m_created s) (m_threads s) (Some r) (m_caller s).
Definition set_caller (s : instance_t) (c : caller_t) : instance_t :=
  mk_instance (m_server s) (m_queue s) (m_io_stopped s) (m_status s) (m_created s) (m_threads s) (m_promise s) c.

(** [stop] of the pool of [Server], on this state. *)
Definition stop_pool (s : instance_t) : instance_t :=
  if bool_decide (started = m_status s) then set_pool s true (m_status s) (m_created s) (m_threads s) else s.

(** The handler of the opening, with the callbacks of [running_server_instance_t::start]. *)
(*@ http_server_run.hpp 821-849 on_pool_runner_t::start *)
Definition on_start (f : faults) (s : instance_t) : instance_t :=
  match after (open_sync count) f (m_server s) with
  | (Ok _, srv) => set_promise (set_server s srv) (Ok tt)
  | (Err (Throws ex), srv) => set_promise (stop_pool (set_server s srv)) (Err ex)
  | (Err Terminates, srv) => set_caller (set_server s srv) Terminated
  end.

(** The handler of the closing; its exception is dropped. *)
(*@ http_server_run.hpp 873-888 on_pool_runner_t::stop *)
Definition on_stop (f : faults) (s : instance_t) : instance_t :=
  match after close_sync f (m_server s) with
  | (Ok _, srv) => stop_pool (set_server s srv)
  | (Err (Throws _), srv) => set_server s srv
  | (Err Terminates, srv) => set_caller (set_server s srv) Terminated
  end.

Definition execute_handler (f : faults) (h : handler_t) (s : instance_t) : instance_t :=
  match h with H_open => on_start f s | H_close => on_stop f s | H_signal | H_shutdown => s end.

(** The destructor of the pool: [stop] and [wait], when it was started. *)
(*@ impl/ioctx_on_thread_pool.hpp 90-100 ioctx_on_thread_pool_t::~ioctx_on_thread_pool_t *)
Definition destroy_pool (r : result exn_t unit) (s : instance_t) : instance_t :=
  if bool_decide (started = m_status s) then set_caller (stop_pool s) (Pool_destructor r) else set_caller s (Server_destructor r).

(*@ http_server.hpp 240-244 http_server_t::~http_server_t *)
Definition destroy_server (f : faults) (r : result exn_t unit) (s : instance_t) : instance_t :=
  match after close_sync f (m_server s) with
  | (Ok _, srv) => set_caller (set_server s srv) (Gone r)
  | (Err _, srv) => set_caller (set_server s srv) Terminated
  end.

(*@ http_server_run.hpp 974-986 running_server_instance_t::start *)
Inductive instance_step : instance_t -> instance_t -> Prop :=
| A_create s : m_caller s = Creating -> (m_created s < pool_size)%nat ->
    instance_step s (set_pool s (m_io_stopped s) (m_status s) (S (m_created s)) (S (m_threads s)))
| A_create_fails s n : m_caller s = Creating -> (m_created s < pool_size)%nat ->
    instance_step s (set_caller (set_pool s true (m_status s) (m_created s) (m_threads s)) (Pool_destructor (Err (Std n))))
| A_started s : m_caller s = Creating -> m_created s = pool_size ->
    instance_step s (set_caller (set_pool s (m_io_stopped s) started (m_created s) (m_threads s)) Waiting)
| A_execute s h q f : m_caller s <> Terminated -> (0 < m_threads s)%nat -> m_io_stopped s = false -> m_queue s = h :: q ->
    instance_step s (execute_handler f h (set_queue s q))
| A_exit s : m_caller s <> Terminated -> (0 < m_threads s)%nat -> m_io_stopped s = true ->
    instance_step s (set_pool s true (m_status s) (m_created s) (m_threads s - 1))
| A_opened s : m_caller s = Waiting -> m_promise s = Some (Ok tt) -> instance_step s (set_caller s In_use)
| A_failed s ex : m_caller s = Waiting -> m_promise s = Some (Err ex) -> instance_step s (destroy_pool (Err ex) s)
| A_stop s : m_caller s = In_use -> instance_step s (set_queue s (m_queue s ++ [H_close]))
| A_wait s : m_caller s = In_use -> m_status s = started -> instance_step s (set_caller s Joining)
| A_joined s : m_caller s = Joining -> m_threads s = 0%nat ->
    instance_step s (set_caller (set_pool s (m_io_stopped s) stopped (m_created s) 0) In_use)
| A_destroy s : m_caller s = In_use -> instance_step s (destroy_pool (Ok tt) s)
| A_pool_gone s r : m_caller s = Pool_destructor r -> m_threads s = 0%nat ->
    instance_step s (set_caller (set_pool s (m_io_stopped s) stopped (m_created s) 0) (Server_destructor r))
| A_server_gone s r f : m_caller s = Server_destructor r -> instance_step s (destroy_server f r s).

(*@ http_server_run.hpp 1109-1128 run_async *)
Definition run_async (cleanup : bool) : instance_t :=
  mk_instance (new_server cleanup) [H_open] false stopped 0 0 None Creating.

(** ** Invariant *)

(** The functor is called when the server, once open, is closed. *)
Definition functor_state (cleanup : bool) (s : instance_t) : Prop :=
  match m_promise s with
  | Some (Ok _) => outer (m_server s) = (cleanup, 0%nat, true) \/ outer (m_server s) = (false, (if cleanup then 1 else 0)%nat, false)
  | _ => outer (m_server s) = (cleanup, 0%nat, false)
  end.

Definition before (s : instance_t) : bool := match m_caller s with Creating | Waiting => true | _ => false end.
Definition over (s : instance_t) : bool := match m_caller s with Server_destructor _ | Gone _ => true | _ => false end.

Record keeps_going (cleanup : bool) (s : instance_t) : Prop := {
  kg_threads : (m_threads s <= m_created s <= pool_size)%nat;
  kg_creating : m_caller s = Creating -> m_status s = stopped /\ m_io_stopped s = false;
  kg_waiting : m_caller s = Waiting -> m_created s = pool_size /\ m_status s = started /\
    (m_io_stopped s = true -> is_Some (m_promise s));
  kg_all_there : m_io_stopped s = false -> m_caller s <> Terminated -> m_threads s = m_created s;
  kg_destroying : forall r, m_caller s = Pool_destructor r -> m_io_stopped s = true;
  kg_over : over s = true -> m_threads s = 0%nat;
  kg_queue : before s = true -> m_queue s = match m_promise s with None => [H_open] | Some _ => [] end;
  kg_handle : m_caller s = In_use \/ m_caller s = Joining -> m_promise s = Some (Ok tt);
  kg_result : forall r, m_caller s = Pool_destructor r \/ m_caller s = Server_destructor r \/ m_caller s = Gone r ->
    r = Ok tt -> m_promise s = Some (Ok tt);
  kg_pool : m_caller s = In_use \/ m_caller s = Joining -> m_status s = stopped -> m_threads s = 0%nat;
  kg_later : before s = false -> m_io_stopped s = false -> H_open ∉ m_queue s;
  kg_functor : functor_state cleanup s;
  kg_closed : forall r, m_caller s = Gone r -> m_running (m_server s) = false }.

Lemma stop_pool_cases s : stop_pool s = s /\ m_status s = stopped \/
  stop_pool s = set_pool s true (m_status s) (m_created s) (m_threads s) /\ m_status s = started.
Proof. unfold stop_pool. case_bool_decide as H; [by right | left; split; [done|]]. by destruct (m_status s). Qed.

Lemma start_keeps cleanup f s q : keeps_going cleanup s -> m_caller s <> Terminated -> (0 < m_threads s)%nat ->
  m_io_stopped s = false -> m_queue s = H_open :: q -> keeps_going cleanup (on_start f (set_queue s q)).
Proof.
  intros [] Ht Hn Hio Hq. unfold before, over in *.
  assert (Hb : (m_caller s = Creating \/ m_caller s = Waiting) /\ m_promise s = None /\ q = []).
  { destruct (m_caller s) eqn:Ec; try (exfalso; apply (kg_later0 eq_refl Hio); rewrite Hq; by apply list_elem_of_here).
    all: specialize (kg_queue0 eq_refl); rewrite Hq in kg_queue0; destruct (m_promise s); [done|]; injection kg_queue0 as ->; auto. }
  destruct Hb as (Hc & Hp & ->). unfold functor_state in kg_functor0. rewrite Hp in kg_functor0.
  unfold on_start. pose proof (open_sync_outer count f (m_server s)) as Ho. cbn [set_queue m_server].
  destruct (after (open_sync count) f (m_server s)) as [[[]|[ex|]] srv].
  - assert (Hs : outer srv = (cleanup, 0%nat, true)) by (unfold outer in *; congruence).
    split; cbn; unfold over, before, functor_state; cbn; try done; try by destruct Hc as [-> | ->]; auto.
    all: destruct Hc as [Hc|Hc]; rewrite Hc in *; try done; intuition congruence.
  - assert (Hs : outer srv = (cleanup, 0%nat, false)) by (unfold outer in *; congruence).
    destruct (stop_pool_cases (set_server (set_queue s []) srv)) as [[-> Hst]|[-> Hst]]; cbn in Hst;
      (split; cbn; unfold over, before, functor_state; cbn; try done);
      destruct Hc as [Hc|Hc]; rewrite Hc in *; try done; try (intuition congruence).
    intros _. destruct (kg_waiting0 eq_refl) as (? & ? & ?). eauto 6.
  - assert (Hs : outer srv = (cleanup, 0%nat, false)) by (unfold outer in *; congruence).
    split; cbn; unfold over, before, functor_state; cbn; rewrite ?Hp; try done; try (intuition discriminate).
    intros _ _. apply not_elem_of_nil.
Qed.

Lemma stop_keeps cleanup f s q : keeps_going cleanup s -> m_caller s <> Terminated -> (0 < m_threads s)%nat ->
  m_io_stopped s = false -> m_queue s = H_close :: q -> keeps_going cleanup (on_stop f (set_queue s q)).
Proof.
  intros [] Ht Hn Hio Hq. unfold before, over in *.
  assert (Hb : m_caller s = In_use \/ m_caller s = Joining).
  { destruct (m_caller s) eqn:Ec; try (by auto).
    1,2: specialize (kg_queue0 eq_refl); rewrite Hq in kg_queue0; by destruct (m_promise s).
    - by rewrite (kg_destroying0 r) in Hio.
    - specialize (kg_over0 eq_refl). lia.
    - specialize (kg_over0 eq_refl). lia. }
  pose proof (kg_handle0 Hb) as Hp. unfold functor_state in kg_functor0. rewrite Hp in kg_functor0.
  assert (Hl : H_open ∉ q).
  { intros Hin. destruct Hb as [Hb|Hb]; rewrite Hb in kg_later0; apply (kg_later0 eq_refl Hio); rewrite Hq; by apply list_elem_of_further. }
  unfold on_stop. pose proof (close_sync_outer f (m_server s)) as Ho. cbn [set_queue m_server].
  assert (Hs : let '(x, srv) := after close_sync f (m_server s) in
    outer srv = (cleanup, 0%nat, true) \/ outer srv = (false, (if cleanup then 1 else 0)%nat, false)).
  { destruct (after close_sync f (m_server s)) as [[u|ex] srv].
    - unfold outer, functor_left in *. destruct kg_functor0 as [E|E]; injection E as E1 E2 E3; rewrite E1, E2, E3 in Ho; auto.
    - destruct Ho as [_ ->]. done. }
  destruct (after close_sync f (m_server s)) as [[u|[ex|]] srv];
    [destruct (stop_pool_cases (set_server (set_queue s q) srv)) as [[-> Hst]|[-> Hst]]; cbn in Hst| |];
    (split; cbn; unfold over, before, functor_state; cbn; rewrite ?Hp; try done);
    destruct Hb as [Hc|Hc]; rewrite Hc in *; try done; intuition congruence.
Qed.

Lemma other_keeps cleanup s h q : keeps_going cleanup s -> m_queue s = h :: q -> h <> H_open -> keeps_going cleanup (set_queue s q).
Proof.
  intros [] Hq Hh. unfold before, over in *.
  assert (Hb : match m_caller s with Creating | Waiting => False | _ => True end).
  { destruct (m_caller s); try done; specialize (kg_queue0 eq_refl); rewrite Hq in kg_queue0; destruct (m_promise s); congruence. }
  split; cbn; unfold over, before, functor_state; cbn; try done.
  - by destruct (m_caller s).
  - intros Hb' Hio Hin. apply (kg_later0 Hb' Hio). rewrite Hq. by apply list_elem_of_further.
Qed.

Lemma execute_keeps cleanup f s h q : keeps_going cleanup s -> m_caller s <> Terminated -> (0 < m_threads s)%nat ->
  m_io_stopped s = false -> m_queue s = h :: q -> keeps_going cleanup (execute_handler f h (set_queue s q)).
Proof.
  intros Hk Ht Hn Hio Hq. destruct h; cbn [execute_handler].
  - by apply start_keeps.
  - by apply (other_keeps cleanup s H_signal).
  - by apply stop_keeps.
  - by apply (other_keeps cleanup s H_shutdown).
Qed.

(** The cases of the invariant that follow from those before the step. *)
Local Ltac kg_solve :=
  try done; try lia; try (intuition (congruence || lia));
  try (intros ? [E|[E|E]] Hok; try discriminate E; injection E as <-; eauto 6).

Lemma destroy_pool_keeps cleanup s r : keeps_going cleanup s -> m_caller s = Waiting \/ m_caller s = In_use ->
  (r = Ok tt -> m_promise s = Some (Ok tt)) -> keeps_going cleanup (destroy_pool r s).
Proof.
  intros [] Hc Hr. unfold before, over in *. unfold destroy_pool. case_bool_decide as Hst.
  - unfold stop_pool. rewrite bool_decide_true by done. destruct Hc as [Hc|Hc]; rewrite Hc in *.
    all: split; cbn; unfold over, before, functor_state; cbn; kg_solve.
  - assert (Hst' : m_status s = stopped) by by destruct (m_status s).
    destruct Hc as [Hc|Hc]; rewrite Hc in *; [destruct (kg_waiting0 eq_refl) as (_ & ? & _); congruence|].
    pose proof (kg_pool0 (or_introl eq_refl) Hst') as Hn.
    split; cbn; unfold over, before, functor_state; cbn; kg_solve.
Qed.

Lemma destroy_server_keeps cleanup f s r : keeps_going cleanup s -> m_caller s = Server_destructor r ->
  keeps_going cleanup (destroy_server f r s).
Proof.
  intros [] Hc. unfold before, over in *. rewrite Hc in *.
  assert (Hs : let '(x, srv) := after close_sync f (m_server s) in functor_state cleanup (set_server s srv) /\
    match x with Ok _ => m_running srv = false | Err _ => True end).
  { pose proof (close_sync_outer f (m_server s)) as Ho. pose proof (close_sync_outcome f (m_server s)) as Hx.
    unfold functor_state in *. cbn. destruct (after close_sync f (m_server s)) as [[u|ex] srv].
    - split; [|apply Hx]. unfold outer, functor_left in *.
      destruct (m_promise s) as [[[]|]|]; [destruct kg_functor0 as [E|E]|..]; try injection E as E1 E2 E3;
        try injection kg_functor0 as E1 E2 E3; rewrite E1, E2, E3 in Ho; auto.
    - destruct Ho as [_ ->]. done. }
  unfold destroy_server. destruct (after close_sync f (m_server s)) as [[u|ex] srv]; destruct Hs as [Hs Hx];
    split; cbn; unfold over, before; cbn; kg_solve.
Qed.

Lemma instance_step_keeps cleanup s s' : keeps_going cleanup s -> instance_step s s' -> keeps_going cleanup s'.
Proof.
  intros Hk Hstep. destruct Hstep as [s Hc Hlt|s n Hc Hlt|s Hc He|s h q f Ht Hr Hs Hq|s Ht Hr Hs|s Hc Hp|s ex Hc Hp|s Hc
    |s Hc Hst|s Hc Hn|s Hc|s r Hc Hn|s r f Hc]; [| | |by apply execute_keeps| | | | | | | | |].
  6: by apply destroy_pool_keeps; [|left|].
  9: by apply destroy_pool_keeps; [|right|destruct Hk; auto].
  10: by apply destroy_server_keeps.
  all: destruct Hk; unfold before, over, functor_state in *; try rewrite Hc in *.
  all: split; cbn; unfold over, before, functor_state; cbn; rewrite ?Hc; kg_solve.
  - intros _ _. rewrite (kg_queue0 eq_refl), Hp. apply not_elem_of_nil.
  - intros _ Hio. apply not_elem_of_app. split; [by apply kg_later0 | by apply not_elem_of_cons; split; [|apply not_elem_of_nil]].
Qed.

Lemma run_async_keeps cleanup s : rtc instance_step (run_async cleanup) s -> keeps_going cleanup s.
Proof.
  revert s. apply rtc_ind_r.
  - split; cbn; unfold over, before, functor_state; cbn; try done; try lia; intuition discriminate.
  - intros s s' _ Hs IH. by apply (instance_step_keeps cleanup s).
Qed.

(** The opening has succeeded. *)
Definition opened (s : instance_t) : bool := match m_promise s with Some (Ok _) => true | _ => false end.

(** C24 (safety). [run_async], whatever the threads do and whichever calls of asio fail: while the handle is in
    use, the server has been opened. When the handle is gone, or [run_async] has
    thrown, every thread of the pool has ended and the server is
    closed, and the user's functor has been called exactly if the server had
    been opened, once; it had, if [run_async] returned. *)
Theorem handle_is_clean cleanup s (Hr : rtc instance_step (run_async cleanup) s) :
  (m_caller s = In_use -> m_promise s = Some (Ok tt)) /\
  forall r, m_caller s = Gone r -> m_threads s = 0%nat /\ m_running (m_server s) = false /\
    (r = Ok tt -> m_promise s = Some (Ok tt)) /\
    cleanup_calls (m_server s) = (if cleanup && opened s then 1 else 0)%nat.
Proof.
  destruct (run_async_keeps cleanup s Hr). split; [by auto|]. intros r Hc. unfold over in kg_over0. rewrite Hc in *.
  split; [by apply kg_over0|]. pose proof (kg_closed0 r eq_refl) as Hrun. split; [done|]. split; [eauto|].
  unfold functor_state, outer, opened in *. destruct (m_promise s) as [[[]|ex]|]; rewrite ?andb_true_r, ?andb_false_r.
  - destruct kg_functor0 as [E|E]; congruence.
  - by injection kg_functor0.
  - by injection kg_functor0.
Qed.

(** ** It ends *)

(** The thread that called [run_async] is not in the hands of the user. *)
Definition busy (s : instance_t) : bool :=
  match m_caller s with Creating | Waiting | Pool_destructor _ | Server_destructor _ => true | _ => false end.

Definition stage (c : caller_t) : nat :=
  match c with
  | Creating => 6 | Waiting => 5 | In_use | Joining => 4 | Pool_destructor _ => 3 | Server_destructor _ => 2
  | Gone _ => 1 | Terminated => 0
  end.

Definition left_to_do (s : instance_t) : nat :=
  stage (m_caller s) + 2 * (pool_size - m_created s) + m_threads s + length (m_queue s).

Lemma stop_pool_left s : left_to_do (stop_pool s) = left_to_do s.
Proof. unfold stop_pool. by case_bool_decide. Qed.

Lemma execute_left f h s q : m_queue s = h :: q -> (left_to_do (execute_handler f h (set_queue s q)) < left_to_do s)%nat.
Proof.
  intros Hq. assert (H0 : (left_to_do (set_queue s q) < left_to_do s)%nat) by (unfold left_to_do; cbn; rewrite Hq; cbn; lia).
  destruct h; cbn [execute_handler]; [unfold on_start | done | unfold on_stop | done];
    destruct (after _ f _) as [[u|[ex|]] srv]; try done;
    try (by unfold left_to_do; cbn; rewrite Hq; cbn; lia);
    try (change (left_to_do (set_promise ?x ?r)) with (left_to_do x)); rewrite ?stop_pool_left; done.
Qed.

(** C25 (termination). With a pool of at least one thread, a call of [run_async] and the destruction of its
    handle come to an end: as long as
    the calling thread is in one of them, every step of any thread makes [left_to_do]
    smaller, and some step can be made. (With an empty pool [run_async] waits for ever, [empty_pool_waits].) *)
Theorem run_async_ends cleanup s (Hpool : (0 < pool_size)%nat) (Hr : rtc instance_step (run_async cleanup) s)
  (Hb : busy s = true) :
  (forall s', instance_step s s' -> (left_to_do s' < left_to_do s)%nat) /\ exists s', instance_step s s'.
Proof.
  destruct (run_async_keeps cleanup s Hr). unfold busy, before, over in *. split.
  - intros s' Hstep. destruct Hstep as [s Hc Hlt|s n Hc Hlt|s Hc He|s h q f Ht Hn Hs Hq|s Ht Hn Hs|s Hc Hp|s ex Hc Hp|s Hc
      |s Hc Hst|s Hc Hn|s Hc|s r Hc Hn|s r f Hc]; try (by rewrite Hc in Hb);
      [| | |by apply execute_left| | | | |]; unfold destroy_pool, stop_pool, destroy_server, left_to_do;
      repeat case_bool_decide; try (destruct (after close_sync _ _) as [[u|ex] srv]); cbn; rewrite ?Hc; cbn; lia.
  - destruct (m_caller s) as [| | | |r|r|r|] eqn:Hc; try done.
    + destruct (decide (m_created s < pool_size)%nat) as [Hlt|Hge]; eexists; [by apply A_create | apply A_started; [done | lia]].
    + destruct (kg_waiting0 eq_refl) as (Hcr & _ & Hp). destruct (m_promise s) as [[[]|ex]|] eqn:Ep; eexists.
      * by apply A_opened.
      * by apply A_failed.
      * destruct (m_io_stopped s) eqn:Eio; [by destruct (Hp eq_refl)|]. pose proof (kg_all_there0 eq_refl) as Hn.
        eapply (A_execute s H_open [] (fun _ => None)); [by rewrite Hc | rewrite Hn; [lia | done] | done | by apply kg_queue0].
    + destruct (decide (m_threads s = 0%nat)) as [H0|H0]; eexists; [by eapply A_pool_gone|].
      apply A_exit; [by rewrite Hc | lia | by eapply kg_destroying0].
    + eexists. by apply (A_server_gone s r (fun _ => None)).
Qed.

(** Without a thread nobody executes the opening. *)
Lemma empty_pool_waits cleanup : pool_size = 0%nat ->
  exists s, rtc instance_step (run_async cleanup) s /\ m_caller s = Waiting /\ forall s', ~ instance_step s s'.
Proof.
  intros H0. eexists. split; [apply rtc_once; by apply A_started|]. split; [done|].
  intros s' Hstep. inversion Hstep; subst; cbn in *; try congruence; lia.
Qed.

(** *** A closing that fails *)

(** The exception of a closing is dropped, and nothing stops the pool: a thread in
    [wait] waits for threads that have nothing to do. *)
Lemma dropped_failure s f ex : m_caller s = Joining -> m_queue s = [H_close] -> (0 < m_threads s)%nat -> m_io_stopped s = false ->
  (after close_sync f (m_server s)).1 = Err (Throws ex) ->
  exists s', instance_step s s' /\ m_caller s' = Joining /\ m_threads s' = m_threads s /\ forall s'', ~ instance_step s' s''.
Proof.
  intros Hc Hq Hn Hs He. eexists. split; [by apply (A_execute s H_close [] f); [rewrite Hc| | |]|].
  cbn [execute_handler]. unfold on_stop. cbn [set_queue m_server]. destruct (after close_sync f (m_server s)) as [x srv].
  cbn in He. subst x. split_and!; [done|done|]. intros s'' Hstep. inversion Hstep; subst; cbn in *; try congruence; lia.
Qed.
End AsyncRun.

(** ** Runs of a pool of one *)

(** Opened, used, and destroyed. *)
Definition example_gone : instance_t :=
  mk_instance (mk_server closed_acceptor false false false 1) [] true stopped 1 0 (Some (Ok tt)) (Gone (Ok tt)).

Lemma example_gone_reached : rtc (instance_step 1 2) (run_async true) example_gone.
Proof.
  eapply rtc_l; [apply A_create; [done | cbn; lia]|].
  eapply rtc_l; [by apply A_started|].
  eapply rtc_l; [apply (A_execute _ _ _ H_open [] no_faults); [done | cbn; lia | done | done]|].
  eapply rtc_l; [by apply A_opened|].
  eapply rtc_l; [by apply A_destroy|].
  eapply rtc_l; [apply A_exit; [done | vm_compute; lia | done]|].
  eapply rtc_l; [by apply (A_pool_gone _ _ _ (Ok tt))|].
  eapply rtc_l; [by apply (A_server_gone _ _ _ (Ok tt) no_faults)|].
  by vm_compute.
Qed.

Lemma handle_is_clean_witness :
  m_threads example_gone = 0%nat /\ cleanup_calls (m_server example_gone) = 1%nat.
Proof.
  destruct (proj2 (handle_is_clean 1 2 true example_gone example_gone_reached) (Ok tt) eq_refl) as (H1 & _ & _ & H2).
  split; [exact H1 | exact H2].
Defined.

(** The opening failed, and [run_async] has not noticed yet. *)
Definition example_failed : instance_t :=
  mk_instance (mk_server closed_acceptor true true false 0) [] true started 1 1 (Some (Err (Std 98))) Waiting.

Lemma example_failed_reached : rtc (instance_step 1 2) (run_async true) example_failed.
Proof.
  eapply rtc_l; [apply A_create; [done | cbn; lia]|].
  eapply rtc_l; [by apply A_started|].
  eapply rtc_l; [apply (A_execute _ _ _ H_open [] port_taken); [done | cbn; lia | done | done]|].
  by vm_compute.
Qed.

Lemma run_async_ends_witness : exists s', instance_step 1 2 example_failed s'.
Proof. exact (proj2 (run_async_ends 1 2 true example_failed ltac:(lia) example_failed_reached eq_refl)). Defined.
