(* ===== verification/Settings.v ===== *)
(** * From the settings to the server

    [basic_server_settings_t] of [restinio/settings.hpp], the constructors of
    [connection_settings_t] ([restinio/impl/connection_settings.hpp]), of [http_server_t]
    ([restinio/http_server.hpp]) and of [acceptor_t] ([restinio/impl/acceptor.hpp]): what a server that is
    configured by a sequence of calls of setters consists of, or which exception it ends with. *)

From S2P Require Import Prelude Effects ParserCallbacks.
From S2P Require Connection Limiter Accept.

(** ** Data *)

(** What the settings own by a pointer: the types are those of the traits. *)
Inductive object_kind : Type :=
| K_request_handler | K_timer_factory | K_logger
| K_acceptor_options_setter | K_socket_options_setter | K_extra_data_factory.

#[global] Instance object_kind_eq_dec : EqDecision object_kind.
Proof. solve_decision. Defined.

(** An object or functor: one of the user's, one made by default, the hook that does nothing. *)
Inductive object_t : Type := given (id : nat) | default_of (k : object_kind) | hook_without_effect.

(** The types of the traits, as far as they matter: is the class of an object default
    constructible, is the handler [default_request_handler_t], and which holders are not the empty ones. *)
Record traits_t : Type := mk_traits {
  is_default_constructible : object_kind -> bool;
  uses_default_request_handler : bool;
  has_actual_connection_state_listener : bool;
  has_actual_ip_blocker : bool;
  has_actual_max_parallel_connections : bool }.

(** The exceptions; [terminate] is one that leaves a [noexcept] function. *)
Inductive settings_error : Type :=
| object_not_set (k : object_kind)
| listener_not_specified
| ip_blocker_not_specified
| empty_acceptor_options_setter
| empty_socket_options_setter
| empty_acceptor_post_bind_hook
| invalid_accepts_count (n : Z)
| timer_manager_not_set
| user_exception (e : nat)
| terminate.

Inductive protocol_t : Type := v4 | v6.
Inductive ip_address_t : Type := ip_v4 (a : Z) | ip_v6 (a : Z).

(*@ settings.hpp 449-463 address_variant_t *)
Inductive address_variant_t : Type :=
| no_address_specified
| address_string (s : bytes)
| address_value (a : ip_address_t).

(** The members that own an object; the setters and getters of all of them are alike. *)
(*@ settings.hpp 1713-1757 basic_server_settings_t *)
Record owned_t : Type := mk_owned {
  m_request_handler : option object_t;
  m_timer_factory : option object_t;
  m_logger : option object_t;
  m_acceptor_options_setter : option object_t;
  m_socket_options_setter : option object_t;
  m_extra_data_factory : option object_t }.

Definition member (k : object_kind) (o : owned_t) : option object_t :=
  match k with
  | K_request_handler => m_request_handler o
  | K_timer_factory => m_timer_factory o
  | K_logger => m_logger o
  | K_acceptor_options_setter => m_acceptor_options_setter o
  | K_socket_options_setter => m_socket_options_setter o
  | K_extra_data_factory => m_extra_data_factory o
  end.

Definition set_member (k : object_kind) (v : option object_t) (o : owned_t) : owned_t :=
  let '(mk_owned h t l a s e) := o in
  match k with
  | K_request_handler => mk_owned v t l a s e
  | K_timer_factory => mk_owned h v l a s e
  | K_logger => mk_owned h t v a s e
  | K_acceptor_options_setter => mk_owned h t l v s e
  | K_socket_options_setter => mk_owned h t l a v e
  | K_extra_data_factory => mk_owned h t l a s v
  end.

(** Durations are in milliseconds. *)
(*@ settings.hpp 1685-1757 basic_server_settings_t *)
Record basic_server_settings_t : Type := mk_settings {
  m_connection_state_listener : option nat;
  m_ip_blocker : option nat;
  m_max_parallel_connections : Z;
  m_port : Z;
  m_protocol : protocol_t;
  m_address : address_variant_t;
  m_buffer_size : Z;
  m_read_next_http_message_timelimit : Z;
  m_write_http_response_timelimit : Z;
  m_handle_request_timeout : Z;
  m_max_pipelined_requests : Z;
  m_objects : owned_t;
  m_acceptor_post_bind_hook : option object_t;
  m_concurrent_accepts_count : Z;
  m_separate_accept_and_create_connect : bool;
  m_cleanup_functor : option object_t;
  m_incoming_http_msg_limits : incoming_http_msg_limits_t }.

Definition size_max : Z := 2 ^ 64 - 1.

(*@ incoming_http_msg_limits.hpp 70-77 incoming_http_msg_limits_t::incoming_http_msg_limits_t *)
Definition limits_create : incoming_http_msg_limits_t := mk_limits size_max size_max size_max size_max size_max.

(*@ settings.hpp 575-581 basic_server_settings_t::basic_server_settings_t *)
Definition settings_create : basic_server_settings_t :=
  mk_settings None None size_max 8080 v4 no_address_specified 4096 60000 5000 10000 1 (mk_owned None None None None None None)
    (Some hook_without_effect) 1 false None limits_create.

Definition with_object (k : object_kind) (v : option object_t) (s : basic_server_settings_t) : basic_server_settings_t :=
  mk_settings (m_connection_state_listener s) (m_ip_blocker s) (m_max_parallel_connections s) (m_port s)
    (m_protocol s) (m_address s) (m_buffer_size s) (m_read_next_http_message_timelimit s)
    (m_write_http_response_timelimit s) (m_handle_request_timeout s) (m_max_pipelined_requests s)
    (set_member k v (m_objects s)) (m_acceptor_post_bind_hook s) (m_concurrent_accepts_count s)
    (m_separate_accept_and_create_connect s) (m_cleanup_functor s) (m_incoming_http_msg_limits s).
Definition with_hook (hook : option object_t) (s : basic_server_settings_t) : basic_server_settings_t :=
  mk_settings (m_connection_state_listener s) (m_ip_blocker s) (m_max_parallel_connections s) (m_port s)
    (m_protocol s) (m_address s) (m_buffer_size s) (m_read_next_http_message_timelimit s)
    (m_write_http_response_timelimit s) (m_handle_request_timeout s) (m_max_pipelined_requests s) (m_objects s)
    hook (m_concurrent_accepts_count s) (m_separate_accept_and_create_connect s) (m_cleanup_functor s)
    (m_incoming_http_msg_limits s).
Definition with_cleanup (func : option object_t) (s : basic_server_settings_t) : basic_server_settings_t :=
  mk_settings (m_connection_state_listener s) (m_ip_blocker s) (m_max_parallel_connections s) (m_port s)
    (m_protocol s) (m_address s) (m_buffer_size s) (m_read_next_http_message_timelimit s)
    (m_write_http_response_timelimit s) (m_handle_request_timeout s) (m_max_pipelined_requests s) (m_objects s)
    (m_acceptor_post_bind_hook s) (m_concurrent_accepts_count s) (m_separate_accept_and_create_connect s) func
    (m_incoming_http_msg_limits s).
Definition with_accepts_count (n : Z) (s : basic_server_settings_t) : basic_server_settings_t :=
  mk_settings (m_connection_state_listener s) (m_ip_blocker s) (m_max_parallel_connections s) (m_port s)
    (m_protocol s) (m_address s) (m_buffer_size s) (m_read_next_http_message_timelimit s)
    (m_write_http_response_timelimit s) (m_handle_request_timeout s) (m_max_pipelined_requests s) (m_objects s)
    (m_acceptor_post_bind_hook s) n (m_separate_accept_and_create_connect s) (m_cleanup_functor s)
    (m_incoming_http_msg_limits s).

(** ** Setters *)

(*@ settings.hpp 585-596 basic_server_settings_t::port *)
Definition port (p : Z) (s : basic_server_settings_t) : basic_server_settings_t :=
  mk_settings (m_connection_state_listener s) (m_ip_blocker s) (m_max_parallel_connections s) p (m_protocol s)
    (m_address s) (m_buffer_size s) (m_read_next_http_message_timelimit s) (m_write_http_response_timelimit s)
    (m_handle_request_timeout s) (m_max_pipelined_requests s) (m_objects s) (m_acceptor_post_bind_hook s)
    (m_concurrent_accepts_count s) (m_separate_accept_and_create_connect s) (m_cleanup_functor s)
    (m_incoming_http_msg_limits s).

(*@ settings.hpp 605-616 basic_server_settings_t::protocol *)
Definition protocol (p : protocol_t) (s : basic_server_settings_t) : basic_server_settings_t :=
  mk_settings (m_connection_state_listener s) (m_ip_blocker s) (m_max_parallel_connections s) (m_port s) p
    (m_address s) (m_buffer_size s) (m_read_next_http_message_timelimit s) (m_write_http_response_timelimit s)
    (m_handle_request_timeout s) (m_max_pipelined_requests s) (m_objects s) (m_acceptor_post_bind_hook s)
    (m_concurrent_accepts_count s) (m_separate_accept_and_create_connect s) (m_cleanup_functor s)
    (m_incoming_http_msg_limits s).

(*@ settings.hpp 642-666 basic_server_settings_t::address *)
Definition address_text (addr : bytes) (s : basic_server_settings_t) : basic_server_settings_t :=
  mk_settings (m_connection_state_listener s) (m_ip_blocker s) (m_max_parallel_connections s) (m_port s)
    (m_protocol s) (address_string addr) (m_buffer_size s) (m_read_next_http_message_timelimit s)
    (m_write_http_response_timelimit s) (m_handle_request_timeout s) (m_max_pipelined_requests s) (m_objects s)
    (m_acceptor_post_bind_hook s) (m_concurrent_accepts_count s) (m_separate_accept_and_create_connect s)
    (m_cleanup_functor s) (m_incoming_http_msg_limits s).

(*@ settings.hpp 687-713 basic_server_settings_t::address *)
Definition address_ip (addr : ip_address_t) (s : basic_server_settings_t) : basic_server_settings_t :=
  mk_settings (m_connection_state_listener s) (m_ip_blocker s) (m_max_parallel_connections s) (m_port s)
    (m_protocol s) (address_value addr) (m_buffer_size s) (m_read_next_http_message_timelimit s)
    (m_write_http_response_timelimit s) (m_handle_request_timeout s) (m_max_pipelined_requests s) (m_objects s)
    (m_acceptor_post_bind_hook s) (m_concurrent_accepts_count s) (m_separate_accept_and_create_connect s)
    (m_cleanup_functor s) (m_incoming_http_msg_limits s).

(*@ settings.hpp 729-740 basic_server_settings_t::buffer_size *)
Definition buffer_size (n : Z) (s : basic_server_settings_t) : basic_server_settings_t :=
  mk_settings (m_connection_state_listener s) (m_ip_blocker s) (m_max_parallel_connections s) (m_port s)
    (m_protocol s) (m_address s) n (m_read_next_http_message_timelimit s) (m_write_http_response_timelimit s)
    (m_handle_request_timeout s) (m_max_pipelined_requests s) (m_objects s) (m_acceptor_post_bind_hook s)
    (m_concurrent_accepts_count s) (m_separate_accept_and_create_connect s) (m_cleanup_functor s)
    (m_incoming_http_msg_limits s).

(*@ settings.hpp 756-767 basic_server_settings_t::read_next_http_message_timelimit *)
Definition read_next_http_message_timelimit (d : Z) (s : basic_server_settings_t) : basic_server_settings_t :=
  mk_settings (m_connection_state_listener s) (m_ip_blocker s) (m_max_parallel_connections s) (m_port s)
    (m_protocol s) (m_address s) (m_buffer_size s) d (m_write_http_response_timelimit s)
    (m_handle_request_timeout s) (m_max_pipelined_requests s) (m_objects s) (m_acceptor_post_bind_hook s)
    (m_concurrent_accepts_count s) (m_separate_accept_and_create_connect s) (m_cleanup_functor s)
    (m_incoming_http_msg_limits s).

(*@ settings.hpp 778-789 basic_server_settings_t::write_http_response_timelimit *)
Definition write_http_response_timelimit (d : Z) (s : basic_server_settings_t) : basic_server_settings_t :=
  mk_settings (m_connection_state_listener s) (m_ip_blocker s) (m_max_parallel_connections s) (m_port s)
    (m_protocol s) (m_address s) (m_buffer_size s) (m_read_next_http_message_timelimit s) d
    (m_handle_request_timeout s) (m_max_pipelined_requests s) (m_objects s) (m_acceptor_post_bind_hook s)
    (m_concurrent_accepts_count s) (m_separate_accept_and_create_connect s) (m_cleanup_functor s)
    (m_incoming_http_msg_limits s).

(*@ settings.hpp 800-811 basic_server_settings_t::handle_request_timeout *)
Definition handle_request_timeout (d : Z) (s : basic_server_settings_t) : basic_server_settings_t :=
  mk_settings (m_connection_state_listener s) (m_ip_blocker s) (m_max_parallel_connections s) (m_port s)
    (m_protocol s) (m_address s) (m_buffer_size s) (m_read_next_http_message_timelimit s)
    (m_write_http_response_timelimit s) d (m_max_pipelined_requests s) (m_objects s)
    (m_acceptor_post_bind_hook s) (m_concurrent_accepts_count s) (m_separate_accept_and_create_connect s)
    (m_cleanup_functor s) (m_incoming_http_msg_limits s).

(*@ settings.hpp 822-833 basic_server_settings_t::max_pipelined_requests *)
Definition max_pipelined_requests (mpr : Z) (s : basic_server_settings_t) : basic_server_settings_t :=
  mk_settings (m_connection_state_listener s) (m_ip_blocker s) (m_max_parallel_connections s) (m_port s)
    (m_protocol s) (m_address s) (m_buffer_size s) (m_read_next_http_message_timelimit s)
    (m_write_http_response_timelimit s) (m_handle_request_timeout s) mpr (m_objects s)
    (m_acceptor_post_bind_hook s) (m_concurrent_accepts_count s) (m_separate_accept_and_create_connect s)
    (m_cleanup_functor s) (m_incoming_http_msg_limits s).

(*@ settings.hpp 1038-1049 basic_server_settings_t::separate_accept_and_create_connect *)
Definition separate_accept_and_create_connect (do_separate : bool) (s : basic_server_settings_t) : basic_server_settings_t :=
  mk_settings (m_connection_state_listener s) (m_ip_blocker s) (m_max_parallel_connections s) (m_port s)
    (m_protocol s) (m_address s) (m_buffer_size s) (m_read_next_http_message_timelimit s)
    (m_write_http_response_timelimit s) (m_handle_request_timeout s) (m_max_pipelined_requests s) (m_objects s)
    (m_acceptor_post_bind_hook s) (m_concurrent_accepts_count s) do_separate (m_cleanup_functor s)
    (m_incoming_http_msg_limits s).

(*@ settings.hpp 1119-1169 basic_server_settings_t::connection_state_listener *)
Definition connection_state_listener (listener : option nat) (s : basic_server_settings_t) : basic_server_settings_t :=
  mk_settings listener (m_ip_blocker s) (m_max_parallel_connections s) (m_port s) (m_protocol s) (m_address s)
    (m_buffer_size s) (m_read_next_http_message_timelimit s) (m_write_http_response_timelimit s)
    (m_handle_request_timeout s) (m_max_pipelined_requests s) (m_objects s) (m_acceptor_post_bind_hook s)
    (m_concurrent_accepts_count s) (m_separate_accept_and_create_connect s) (m_cleanup_functor s)
    (m_incoming_http_msg_limits s).

(*@ settings.hpp 1236-1286 basic_server_settings_t::ip_blocker *)
Definition ip_blocker (blocker : option nat) (s : basic_server_settings_t) : basic_server_settings_t :=
  mk_settings (m_connection_state_listener s) blocker (m_max_parallel_connections s) (m_port s) (m_protocol s)
    (m_address s) (m_buffer_size s) (m_read_next_http_message_timelimit s) (m_write_http_response_timelimit s)
    (m_handle_request_timeout s) (m_max_pipelined_requests s) (m_objects s) (m_acceptor_post_bind_hook s)
    (m_concurrent_accepts_count s) (m_separate_accept_and_create_connect s) (m_cleanup_functor s)
    (m_incoming_http_msg_limits s).

(*@ settings.hpp 1439-1474 basic_server_settings_t::incoming_http_msg_limits *)
Definition incoming_http_msg_limits (limits : incoming_http_msg_limits_t) (s : basic_server_settings_t) : basic_server_settings_t :=
  mk_settings (m_connection_state_listener s) (m_ip_blocker s) (m_max_parallel_connections s) (m_port s)
    (m_protocol s) (m_address s) (m_buffer_size s) (m_read_next_http_message_timelimit s)
    (m_write_http_response_timelimit s) (m_handle_request_timeout s) (m_max_pipelined_requests s) (m_objects s)
    (m_acceptor_post_bind_hook s) (m_concurrent_accepts_count s) (m_separate_accept_and_create_connect s)
    (m_cleanup_functor s) limits.

(*@ settings.hpp 1500-1539 basic_server_settings_t::max_parallel_connections *)
Definition max_parallel_connections (value : Z) (s : basic_server_settings_t) : basic_server_settings_t :=
  mk_settings (m_connection_state_listener s) (m_ip_blocker s) value (m_port s) (m_protocol s) (m_address s)
    (m_buffer_size s) (m_read_next_http_message_timelimit s) (m_write_http_response_timelimit s)
    (m_handle_request_timeout s) (m_max_pipelined_requests s) (m_objects s) (m_acceptor_post_bind_hook s)
    (m_concurrent_accepts_count s) (m_separate_accept_and_create_connect s) (m_cleanup_functor s)
    (m_incoming_http_msg_limits s).

(** The handler by a pointer, which may be null. *)
(*@ settings.hpp 847-852 basic_server_settings_t::request_handler *)
Definition request_handler_ptr (handler : option nat) (s : basic_server_settings_t) : basic_server_settings_t :=
  with_object K_request_handler (given <$> handler) s.

(** The constructor of the new object may throw. *)
(*@ settings.hpp 1661-1670 basic_server_settings_t::set_unique_instance *)
Definition set_unique_instance (k : object_kind) (made : result nat nat) (s : basic_server_settings_t) :
    result settings_error basic_server_settings_t :=
  match made with Ok o => Ok (with_object k (Some (given o)) s) | Err e => Err (user_exception e) end.

(*@ settings.hpp 854-869 basic_server_settings_t::request_handler *)
Definition request_handler (made : result nat nat) : basic_server_settings_t -> result settings_error basic_server_settings_t :=
  set_unique_instance K_request_handler made.

(*@ settings.hpp 886-900 basic_server_settings_t::timer_manager *)
Definition timer_manager (made : result nat nat) : basic_server_settings_t -> result settings_error basic_server_settings_t :=
  set_unique_instance K_timer_factory made.

(*@ settings.hpp 915-929 basic_server_settings_t::logger *)
Definition logger (made : result nat nat) : basic_server_settings_t -> result settings_error basic_server_settings_t :=
  set_unique_instance K_logger made.

(** A functor may be empty. *)
(*@ settings.hpp 942-957 basic_server_settings_t::acceptor_options_setter *)
Definition acceptor_options_setter (aos : option nat) (s : basic_server_settings_t) : result settings_error basic_server_settings_t :=
  match aos with
  | None => Err empty_acceptor_options_setter
  | Some f => set_unique_instance K_acceptor_options_setter (Ok f) s
  end.

(*@ settings.hpp 970-985 basic_server_settings_t::socket_options_setter *)
Definition socket_options_setter (sos : option nat) (s : basic_server_settings_t) : result settings_error basic_server_settings_t :=
  match sos with
  | None => Err empty_socket_options_setter
  | Some f => set_unique_instance K_socket_options_setter (Ok f) s
  end.

(*@ settings.hpp 1002-1019 basic_server_settings_t::concurrent_accepts_count *)
Definition concurrent_accepts_count (n : Z) (s : basic_server_settings_t) : result settings_error basic_server_settings_t :=
  if (n =? 0) || (1024 <? n) then Err (invalid_accepts_count n) else Ok (with_accepts_count n s).

(*@ settings.hpp 1345-1378 basic_server_settings_t::acceptor_post_bind_hook *)
Definition acceptor_post_bind_hook (hook : option nat) (s : basic_server_settings_t) : result settings_error basic_server_settings_t :=
  match hook with
  | None => Err empty_acceptor_post_bind_hook
  | Some h => Ok (with_hook (Some (given h)) s)
  end.

(*@ settings.hpp 1591-1636 basic_server_settings_t::extra_data_factory *)
Definition extra_data_factory (factory : option nat) (s : basic_server_settings_t) : basic_server_settings_t :=
  with_object K_extra_data_factory (given <$> factory) s.

Section Settings.
Context (tr : traits_t).
(** What the factory of timers makes; what is left of a functor that was moved from, which the language
    leaves open. *)
Context (create_timer_manager : object_t -> result nat (option nat)) (moved_from : option object_t -> option object_t).

(** The settings, and the variable of the caller when it is one: the functor is moved out of it
    in any case. *)
(*@ settings.hpp 1060-1073 basic_server_settings_t::cleanup_func *)
Definition cleanup_func (func : option object_t) (s : basic_server_settings_t) : basic_server_settings_t * option object_t :=
  (with_cleanup func s, moved_from func).

Inductive setting : Type :=
| S_port (p : Z) | S_protocol (p : protocol_t) | S_address_text (addr : bytes) | S_address_ip (addr : ip_address_t)
| S_buffer_size (n : Z) | S_read_timelimit (d : Z) | S_write_timelimit (d : Z) | S_handle_timeout (d : Z)
| S_max_pipelined (n : Z) | S_separate (b : bool) | S_listener (l : option nat) | S_ip_blocker (b : option nat)
| S_limits (l : incoming_http_msg_limits_t) | S_max_parallel (n : Z)
| S_handler_ptr (h : option nat) | S_handler (made : result nat nat) | S_timer_manager (made : result nat nat)
| S_logger (made : result nat nat) | S_acceptor_options (f : option nat) | S_socket_options (f : option nat)
| S_accepts_count (n : N) | S_post_bind_hook (h : option nat) | S_cleanup (f : option nat) | S_extra_data (f : option nat).

Definition apply_setting (s : basic_server_settings_t) (c : setting) : result settings_error basic_server_settings_t :=
  match c with
  | S_port p => Ok (port p s)
  | S_protocol p => Ok (protocol p s)
  | S_address_text a => Ok (address_text a s)
  | S_address_ip a => Ok (address_ip a s)
  | S_buffer_size n => Ok (buffer_size n s)
  | S_read_timelimit d => Ok (read_next_http_message_timelimit d s)
  | S_write_timelimit d => Ok (write_http_response_timelimit d s)
  | S_handle_timeout d => Ok (handle_request_timeout d s)
  | S_max_pipelined n => Ok (max_pipelined_requests n s)
  | S_separate b => Ok (separate_accept_and_create_connect b s)
  | S_listener l => Ok (connection_state_listener l s)
  | S_ip_blocker b => Ok (ip_blocker b s)
  | S_limits l => Ok (incoming_http_msg_limits l s)
  | S_max_parallel n => Ok (max_parallel_connections n s)
  | S_handler_ptr h => Ok (request_handler_ptr h s)
  | S_handler m => request_handler m s
  | S_timer_manager m => timer_manager m s
  | S_logger m => logger m s
  | S_acceptor_options f => acceptor_options_setter f s
  | S_socket_options f => socket_options_setter f s
  | S_accepts_count n => concurrent_accepts_count (Z.of_N n) s
  | S_post_bind_hook h => acceptor_post_bind_hook h s
  | S_cleanup f => Ok (cleanup_func (given <$> f) s).1
  | S_extra_data f => Ok (extra_data_factory f s)
  end.

(** The configurator is a sequence of calls. *)
(*@ settings.hpp 1775-1784 exec_configurator *)
Definition exec_configurator (configurator : list setting) : result settings_error basic_server_settings_t :=
  foldM apply_setting settings_create configurator.

(** ** Getters *)

(*@ settings.hpp 28-105 create_default_unique_object_instance *)
Definition create_default_object_instance (k : object_kind) : option object_t :=
  match k with
  | K_request_handler =>
      if uses_default_request_handler tr then None
      else if is_default_constructible tr k then Some (default_of k) else None
  | _ => if is_default_constructible tr k then Some (default_of k) else None
  end.

(** The setters of options have defaults of their own: reuse_address, and no option. *)
(*@ settings.hpp 228-236 create_default_unique_object_instance *)
Definition create_default_unique_object_instance (k : object_kind) : option object_t :=
  match k with
  | K_acceptor_options_setter | K_socket_options_setter => Some (default_of k)
  | _ => create_default_object_instance k
  end.

(*@ settings.hpp 112-145 ensure_created *)
Definition ensure_created (k : object_kind) (mb_created_one : option object_t) : result settings_error object_t :=
  let mb_created_one := match mb_created_one with Some o => Some o | None => create_default_unique_object_instance k end in
  of_option (object_not_set k) mb_created_one.

Definition settings_act : Type -> Type := act unit basic_server_settings_t unit settings_error.

(** A getter of an owned object moves it out of the settings. *)
Definition take (k : object_kind) : settings_act object_t :=
  mb ← gets (fun s => member k (m_objects s));
  modify (with_object k None);;
  lift (ensure_created k mb).

(*@ settings.hpp 871-877 basic_server_settings_t::request_handler *)
Definition take_request_handler : settings_act object_t := take K_request_handler.
(*@ settings.hpp 902-908 basic_server_settings_t::timer_factory *)
Definition take_timer_factory : settings_act object_t := take K_timer_factory.
(*@ settings.hpp 931-937 basic_server_settings_t::logger *)
Definition take_logger : settings_act object_t := take K_logger.
(*@ settings.hpp 959-965 basic_server_settings_t::acceptor_options_setter *)
Definition take_acceptor_options_setter : settings_act object_t := take K_acceptor_options_setter.
(*@ settings.hpp 987-993 basic_server_settings_t::socket_options_setter *)
Definition take_socket_options_setter : settings_act object_t := take K_socket_options_setter.

(** The method is [const], so the pointer is copied, and [noexcept]. *)
(*@ settings.hpp 1642-1649 basic_server_settings_t::giveaway_extra_data_factory *)
Definition giveaway_extra_data_factory : settings_act object_t :=
  mb ← gets (fun s => m_extra_data_factory (m_objects s));
  lift (of_option terminate (match ensure_created K_extra_data_factory mb with Ok o => Some o | Err _ => None end)).

(*@ settings.hpp 1081-1086 basic_server_settings_t::giveaway_cleanup_func *)
Definition giveaway_cleanup_func : settings_act (option object_t) :=
  f ← gets m_cleanup_functor; modify (with_cleanup (moved_from f));; mret f.

(*@ settings.hpp 1390-1395 basic_server_settings_t::giveaway_acceptor_post_bind_hook *)
Definition giveaway_acceptor_post_bind_hook : settings_act (option object_t) :=
  f ← gets m_acceptor_post_bind_hook; modify (with_hook (moved_from f));; mret f.

(*@ settings.hpp 322-359 connection_state_listener_holder_t::check_valid_connection_state_listener_pointer *)
Definition check_valid_connection_state_listener_pointer : settings_act unit :=
  l ← gets m_connection_state_listener;
  if has_actual_connection_state_listener tr && bool_decide (l = None) then throw listener_not_specified else mret tt.

(*@ settings.hpp 373-423 ip_blocker_holder_t::check_valid_ip_blocker_pointer *)
Definition check_valid_ip_blocker_pointer : settings_act unit :=
  b ← gets m_ip_blocker;
  if has_actual_ip_blocker tr && bool_decide (b = None) then throw ip_blocker_not_specified else mret tt.

(*@ settings.hpp 480-529 max_parallel_connections_holder_t::max_parallel_connections *)
Definition get_max_parallel_connections (s : basic_server_settings_t) : Z :=
  if has_actual_max_parallel_connections tr then m_max_parallel_connections s else size_max.

(** ** Constructors *)

(** The listener is held only when it is not the one that does nothing. *)
(*@ impl/connection_settings.hpp 39-48 state_listener_holder_t::state_listener_holder_t *)
Definition state_listener_holder_create : settings_act (option nat) :=
  l ← gets m_connection_state_listener; mret (if has_actual_connection_state_listener tr then l else None).

(*@ impl/connection_settings.hpp 167-231 connection_settings_t *)
Record connection_settings_t : Type := mk_connection_settings {
  cs_connection_state_listener : option nat;
  cs_request_handler : object_t;
  cs_settings : Connection.settings_t;
  cs_logger : object_t;
  cs_timer_manager : nat;
  cs_extra_data_factory : object_t }.

(** The members are initialized in the order of their declarations. *)
(*@ impl/connection_settings.hpp 139-165 connection_settings_t::connection_settings_t *)
Definition connection_settings_create (timer_manager : option nat) : settings_act connection_settings_t :=
  listener ← state_listener_holder_create;
  handler ← take_request_handler;
  st ← gets (fun s => Connection.mk_settings (Z.to_nat (m_buffer_size s)) (m_incoming_http_msg_limits s)
    (m_read_next_http_message_timelimit s) (m_write_http_response_timelimit s) (m_handle_request_timeout s)
    (Z.to_nat (m_max_pipelined_requests s)));
  log ← take_logger;
  factory ← giveaway_extra_data_factory;
  match timer_manager with
  | None => throw timer_manager_not_set
  | Some tm => mret (mk_connection_settings listener handler st log tm factory)
  end.

(** An acceptor that is not open, with as many sockets as accepts are allowed at a time. *)
(*@ impl/acceptor.hpp 539-575 acceptor_t *)
Record acceptor_t : Type := mk_acceptor {
  a_sockets : nat;
  a_ip_blocker : option nat;
  a_port : Z;
  a_protocol : protocol_t;
  a_address : address_variant_t;
  a_acceptor_options_setter : object_t;
  a_acceptor_post_bind_hook : option object_t;
  a_separate_accept_and_create_connect : bool;
  a_connection_count_limiter : Limiter.actual_limiter_t }.

(*@ impl/acceptor.hpp 40-62 socket_supplier_t::socket_supplier_t *)
Definition socket_supplier_create : settings_act nat := gets (fun s => Z.to_nat (m_concurrent_accepts_count s)).

(*@ impl/acceptor.hpp 185-216 acceptor_t::acceptor_t *)
Definition acceptor_create : settings_act acceptor_t :=
  sockets ← socket_supplier_create;
  blocker ← gets (fun s => if has_actual_ip_blocker tr then m_ip_blocker s else None);
  p ← gets m_port; pr ← gets m_protocol; a ← gets m_address;
  aos ← take_acceptor_options_setter;
  hook ← giveaway_acceptor_post_bind_hook;
  separate ← gets m_separate_accept_and_create_connect;
  max ← gets get_max_parallel_connections;
  mret (mk_acceptor sockets blocker p pr a aos hook separate (Limiter.limiter_create max)).

(*@ http_server.hpp 360-380 http_server_t *)
Record http_server_t : Type := mk_server {
  s_cleanup_functor : option object_t;
  s_connection_settings : connection_settings_t;
  s_socket_options_setter : object_t;
  s_acceptor : acceptor_t }.

(*@ http_server.hpp 188-222 http_server_t::http_server_t *)
Definition http_server_create : settings_act http_server_t :=
  cleanup ← giveaway_cleanup_func;
  check_valid_connection_state_listener_pointer;;
  check_valid_ip_blocker_pointer;;
  timer_factory ← take_timer_factory;
  tm ← lift (match create_timer_manager timer_factory with Ok tm => Ok tm | Err e => Err (user_exception e) end);
  conn_settings ← connection_settings_create tm;
  sos ← take_socket_options_setter;
  acceptor ← acceptor_create;
  mret (mk_server cleanup conn_settings sos acceptor).

(*@ http_server.hpp 224-239 http_server_t::http_server_t *)
Definition configure_server (configurator : list setting) : result settings_error http_server_t :=
  settings ← exec_configurator configurator;
  (http_server_create tt settings).1.1.

(** ** The endpoint the acceptor listens on

    [from_string] is asio's parser of addresses. *)
(*@ impl/acceptor.hpp 585-608 acceptor_t::try_extract_actual_address_from_variant *)
Definition try_extract_actual_address_from_variant (from_string : bytes -> result nat ip_address_t) (from : address_variant_t) :
    result nat (option ip_address_t) :=
  match from with
  | address_string str_v =>
      let str_addr := if decide (str_v = str "localhost") then str "127.0.0.1"
                      else if decide (str_v = str "ip6-localhost") then str "::1" else str_v in
      a ← from_string str_addr; Ok (Some a)
  | address_value addr_v => Ok (Some addr_v)
  | no_address_specified => Ok None
  end.

(** Without an address, any of the protocol. *)
Definition any_address (p : protocol_t) : ip_address_t := match p with v4 => ip_v4 0 | v6 => ip_v6 0 end.

(*@ impl/acceptor.hpp 231-236 acceptor_t::open *)
Definition endpoint_to_bind (from_string : bytes -> result nat ip_address_t) (a : acceptor_t) : result nat (ip_address_t * Z) :=
  actual_address ← try_extract_actual_address_from_variant from_string (a_address a);
  Ok (default (any_address (a_protocol a)) actual_address, a_port a).

(** The protocol the acceptor is opened with is that of the address. *)
Definition endpoint_protocol (ep : ip_address_t * Z) : protocol_t := match ep.1 with ip_v4 _ => v4 | ip_v6 _ => v6 end.

(** ** Specification

    A setter that is called later wins, and no setter changes anything else. *)
Definition last_set {A} (get : setting -> option A) (otherwise : A) (cs : list setting) : A := default otherwise (last (omap get cs)).

Definition refusal (c : setting) : option settings_error :=
  match c with
  | S_handler (Err e) | S_timer_manager (Err e) | S_logger (Err e) => Some (user_exception e)
  | S_acceptor_options None => Some empty_acceptor_options_setter
  | S_socket_options None => Some empty_socket_options_setter
  | S_post_bind_hook None => Some empty_acceptor_post_bind_hook
  | S_accepts_count n => if decide (1 <= n <= 1024)%N then None else Some (invalid_accepts_count (Z.of_N n))
  | _ => None
  end.

Definition object_set (k : object_kind) (c : setting) : option (option object_t) :=
  match k, c with
  | K_request_handler, S_handler_ptr h => Some (given <$> h)
  | K_request_handler, S_handler (Ok h) => Some (Some (given h))
  | K_timer_factory, S_timer_manager (Ok f) => Some (Some (given f))
  | K_logger, S_logger (Ok l) => Some (Some (given l))
  | K_acceptor_options_setter, S_acceptor_options (Some f) => Some (Some (given f))
  | K_socket_options_setter, S_socket_options (Some f) => Some (Some (given f))
  | K_extra_data_factory, S_extra_data f => Some (given <$> f)
  | _, _ => None
  end.

(** The object a server gets: the last that was set, unless it is null, and else one made by default. *)
Definition object_of (k : object_kind) (cs : list setting) : option object_t :=
  match last_set (object_set k) None cs with
  | Some o => Some o
  | None =>
      match k with
      | K_acceptor_options_setter | K_socket_options_setter => Some (default_of k)
      | K_request_handler => if negb (uses_default_request_handler tr) && is_default_constructible tr k then Some (default_of k) else None
      | _ => if is_default_constructible tr k then Some (default_of k) else None
      end
  end.

(** What there is to complain about, in the order in which it is noticed. *)
Definition complaint (b : bool) (e : settings_error) : list settings_error := if b then [e] else [].
Definition missing (k : object_kind) (cs : list setting) (e : settings_error) : list settings_error :=
  complaint (bool_decide (object_of k cs = None)) e.

Definition complaints (cs : list setting) : list settings_error :=
  omap refusal cs ++
  complaint (has_actual_connection_state_listener tr &&
    bool_decide (last_set (fun c => match c with S_listener l => Some l | _ => None end) None cs = None)) listener_not_specified ++
  complaint (has_actual_ip_blocker tr &&
    bool_decide (last_set (fun c => match c with S_ip_blocker b => Some b | _ => None end) None cs = None)) ip_blocker_not_specified ++
  missing K_timer_factory cs (object_not_set K_timer_factory) ++
  match create_timer_manager <$> object_of K_timer_factory cs with Some (Err e) => [user_exception e] | _ => [] end ++
  missing K_request_handler cs (object_not_set K_request_handler) ++
  missing K_logger cs (object_not_set K_logger) ++
  missing K_extra_data_factory cs terminate ++
  match create_timer_manager <$> object_of K_timer_factory cs with Some (Ok None) => [timer_manager_not_set] | _ => [] end.

(** The members a sequence of calls sets. *)
Definition configured (cs : list setting) : basic_server_settings_t :=
  mk_settings
    (last_set (fun c => match c with S_listener l => Some l | _ => None end) None cs)
    (last_set (fun c => match c with S_ip_blocker b => Some b | _ => None end) None cs)
    (last_set (fun c => match c with S_max_parallel n => Some n | _ => None end) size_max cs)
    (last_set (fun c => match c with S_port p => Some p | _ => None end) 8080 cs)
    (last_set (fun c => match c with S_protocol p => Some p | _ => None end) v4 cs)
    (last_set (fun c => match c with S_address_text a => Some (address_string a) | S_address_ip a => Some (address_value a) | _ => None end)
      no_address_specified cs)
    (last_set (fun c => match c with S_buffer_size n => Some n | _ => None end) 4096 cs)
    (last_set (fun c => match c with S_read_timelimit d => Some d | _ => None end) 60000 cs)
    (last_set (fun c => match c with S_write_timelimit d => Some d | _ => None end) 5000 cs)
    (last_set (fun c => match c with S_handle_timeout d => Some d | _ => None end) 10000 cs)
    (last_set (fun c => match c with S_max_pipelined n => Some n | _ => None end) 1 cs)
    (mk_owned (last_set (object_set K_request_handler) None cs) (last_set (object_set K_timer_factory) None cs)
      (last_set (object_set K_logger) None cs) (last_set (object_set K_acceptor_options_setter) None cs)
      (last_set (object_set K_socket_options_setter) None cs) (last_set (object_set K_extra_data_factory) None cs))
    (last_set (fun c => match c with S_post_bind_hook (Some h) => Some (Some (given h)) | _ => None end) (Some hook_without_effect) cs)
    (last_set (fun c => match c with S_accepts_count n => if decide (1 <= n <= 1024)%N then Some (Z.of_N n) else None | _ => None end) 1 cs)
    (last_set (fun c => match c with S_separate b => Some b | _ => None end) false cs)
    (last_set (fun c => match c with S_cleanup f => Some (given <$> f) | _ => None end) None cs)
    (last_set (fun c => match c with S_limits l => Some l | _ => None end) limits_create cs).

(** The server these settings ask for; [handler], [log], [factory], [sos] and [aos] are its objects. *)
Definition server_of (s : basic_server_settings_t) (handler log factory sos aos : object_t) (tm : nat) : http_server_t :=
  mk_server (m_cleanup_functor s)
    (mk_connection_settings (if has_actual_connection_state_listener tr then m_connection_state_listener s else None) handler
      (Connection.mk_settings (Z.to_nat (m_buffer_size s)) (m_incoming_http_msg_limits s)
        (m_read_next_http_message_timelimit s) (m_write_http_response_timelimit s) (m_handle_request_timeout s)
        (Z.to_nat (m_max_pipelined_requests s)))
      log tm factory)
    sos
    (mk_acceptor (Z.to_nat (m_concurrent_accepts_count s)) (if has_actual_ip_blocker tr then m_ip_blocker s else None)
      (m_port s) (m_protocol s) (m_address s) aos (m_acceptor_post_bind_hook s) (m_separate_accept_and_create_connect s)
      (Limiter.limiter_create (if has_actual_max_parallel_connections tr then m_max_parallel_connections s else size_max))).

(** ** Proofs *)

Lemma last_set_app {A} (get : setting -> option A) d cs c :
  last_set get d (cs ++ [c]) = match get c with Some v => v | None => last_set get d cs end.
Proof. unfold last_set. rewrite omap_app. cbn. destruct (get c); [by rewrite last_snoc | by rewrite app_nil_r]. Qed.

Lemma setting_applied cs c : apply_setting (configured cs) c =
  match refusal c with Some e => Err e | None => Ok (configured (cs ++ [c])) end.
Proof.
  unfold configured. rewrite !last_set_app.
  destruct c as [| | | | | | | | | | | | | | | | | | | |n| | |]; cbn -[last_set]; try reflexivity;
    try (by destruct made); try (by destruct f); try (by destruct h).
  unfold concurrent_accepts_count. destruct (decide (1 <= n <= 1024)%N) as [Hn|Hn].
  - replace ((Z.of_N n =? 0) || (1024 <? Z.of_N n)) with false by lia. reflexivity.
  - replace ((Z.of_N n =? 0) || (1024 <? Z.of_N n)) with true by lia. reflexivity.
Qed.

Lemma configurator_run cs rest : foldM apply_setting (configured cs) rest =
  match omap refusal rest with e :: _ => Err e | [] => Ok (configured (cs ++ rest)) end.
Proof.
  revert cs. induction rest as [|c rest IH]; intros cs; [by rewrite app_nil_r|].
  cbn [foldM omap list_omap]. rewrite setting_applied. destruct (refusal c) as [e|]; [done|].
  rewrite IH. by rewrite <- app_assoc.
Qed.

Lemma object_of_member k cs :
  object_of k cs = match member k (m_objects (configured cs)) with Some o => Some o | None => create_default_unique_object_instance k end.
Proof.
  unfold object_of. destruct k; cbn -[last_set]; destruct (last_set _ _ _); try done.
  by destruct (uses_default_request_handler tr).
Qed.
(** The construction, seen from the settings it starts with. *)
Definition obtained (k : object_kind) (s : basic_server_settings_t) : result settings_error object_t :=
  ensure_created k (member k (m_objects s)).

(** Runs the construction on settings [s], case by case; [fin] closes the case in which a server is made. *)
Ltac run_construction s fin :=
  destruct s as [l b mx po pr ad bs rt wt ht mp [oh ot ol oa os oe] hk ac se cl lim];
  cbv [http_server_create giveaway_cleanup_func check_valid_connection_state_listener_pointer check_valid_ip_blocker_pointer
    take_timer_factory connection_settings_create state_listener_holder_create take_request_handler take_logger
    giveaway_extra_data_factory take_socket_options_setter acceptor_create socket_supplier_create
    take_acceptor_options_setter giveaway_acceptor_post_bind_hook take obtained
    mbind act_bind result_bind mret act_ret gets modify lift throw];
  cbn; destruct (has_actual_connection_state_listener _ && _); [done|];
  cbn; destruct (has_actual_ip_blocker _ && _); [done|];
  cbn; destruct (ensure_created K_timer_factory ot) as [tf|]; [|done];
  cbn; destruct (create_timer_manager tf) as [[tm|]|]; try done;
  cbn; destruct (ensure_created K_request_handler oh); try done;
  cbn; destruct (ensure_created K_logger ol); try done;
  cbn; destruct (ensure_created K_extra_data_factory oe); try done;
  cbn; destruct os, oa; fin.

Lemma server_created s : (http_server_create tt s).1.1 =
  if has_actual_connection_state_listener tr && bool_decide (m_connection_state_listener s = None) then Err listener_not_specified
  else if has_actual_ip_blocker tr && bool_decide (m_ip_blocker s = None) then Err ip_blocker_not_specified
  else
    timer_factory ← obtained K_timer_factory s;
    tm ← (match create_timer_manager timer_factory with Ok tm => Ok tm | Err e => Err (user_exception e) end);
    handler ← obtained K_request_handler s;
    log ← obtained K_logger s;
    factory ← (match obtained K_extra_data_factory s with Ok o => Ok o | Err _ => Err terminate end);
    tm ← of_option timer_manager_not_set tm;
    sos ← obtained K_socket_options_setter s;
    aos ← obtained K_acceptor_options_setter s;
    Ok (server_of s handler log factory sos aos tm).
Proof. run_construction s ltac:(done). Qed.
Lemma obtained_configured k cs : obtained k (configured cs) = of_option (object_not_set k) (object_of k cs).
Proof. unfold obtained, ensure_created. by rewrite object_of_member. Qed.

Lemma options_setter_exists k cs : k = K_socket_options_setter \/ k = K_acceptor_options_setter -> exists o, object_of k cs = Some o.
Proof. unfold object_of. intros [-> | ->]; destruct (last_set _ _ _); by eexists. Qed.
(** After a server has been made, the settings have lost what they owned, but not the factory of extra data. *)
Lemma settings_after_server s srv s' w : http_server_create tt s = (Ok srv, s', w) ->
  m_objects s' = mk_owned None None None None None (m_extra_data_factory (m_objects s)) /\
  m_cleanup_functor s' = moved_from (m_cleanup_functor s) /\ m_port s' = m_port s.
Proof. run_construction s ltac:(by intros [= <- <- <-]). Qed.
End Settings.

(** The acceptor of a server that is configured keeps the configured limit. *)
Lemma configured_limit_is_kept tr s handler log factory sos aos tm es a :
  has_actual_max_parallel_connections tr = true -> 0 <= m_max_parallel_connections s < 2 ^ 64 ->
  forall blocker, let acceptor := s_acceptor (server_of tr s handler log factory sos aos tm) in
  Accept.acceptor_run blocker (a_separate_accept_and_create_connect acceptor)
    (Accept.acceptor_opened (a_connection_count_limiter acceptor) (a_sockets acceptor)) es = Ok a ->
  Z.of_nat (length (Accept.a_alive a)) + Accept.total_event_leaks blocker es <= m_max_parallel_connections s.
Proof.
  intros Ht Hmax blocker acceptor Hr. cbn in Hr. rewrite Ht in Hr.
  destruct (Accept.acceptor_run_inv _ Hmax blocker _ _ es 0 _ a (Accept.opened_inv _ Hmax blocker _) Hr) as [[] Hm _].
  cbn in *. unfold Accept.connections in Hm. lia.
Qed.

Section Theorems.
Context (tr : traits_t) (create_timer_manager : object_t -> result nat (option nat)) (moved_from : option object_t -> option object_t).

(** C39 (functional). A server that is made from settings on which any sequence of setters was called:
    if there is anything to complain about, its first exception, and the program is terminated
    where that is how a missing factory of extra data is reported; and else the server with every member as the last
    call that sets it says, the owned objects replaced by default ones where they are missing. *)
Theorem server_is_as_configured cs :
  match complaints tr create_timer_manager cs with
  | e :: _ => configure_server tr create_timer_manager moved_from cs = Err e
  | [] =>
      exists handler log factory sos aos timer_factory tm,
        object_of tr K_request_handler cs = Some handler /\ object_of tr K_logger cs = Some log /\
        object_of tr K_extra_data_factory cs = Some factory /\ object_of tr K_socket_options_setter cs = Some sos /\
        object_of tr K_acceptor_options_setter cs = Some aos /\ object_of tr K_timer_factory cs = Some timer_factory /\
        create_timer_manager timer_factory = Ok (Some tm) /\
        configure_server tr create_timer_manager moved_from cs = Ok (server_of tr (configured cs) handler log factory sos aos tm)
  end.
Proof.
  unfold configure_server, exec_configurator, complaints. change settings_create with (configured []).
  rewrite configurator_run. destruct (omap refusal cs) as [|e es]; [|done].
  cbn [app mbind result_bind]. rewrite server_created, !obtained_configured.
  destruct (options_setter_exists tr K_socket_options_setter cs (or_introl eq_refl)) as [sos Esos].
  destruct (options_setter_exists tr K_acceptor_options_setter cs (or_intror eq_refl)) as [aos Eaos].
  rewrite Esos, Eaos. unfold missing, complaint.
  cbn [configured m_connection_state_listener m_ip_blocker].
  destruct (has_actual_connection_state_listener tr && _); [done|].
  destruct (has_actual_ip_blocker tr && _); [done|].
  destruct (object_of tr K_timer_factory cs) as [tf|]; [|done].
  cbn [fmap option_fmap option_map of_option mbind result_bind app]. rewrite bool_decide_eq_false_2 by done.
  destruct (create_timer_manager tf) as [tm|] eqn:Etm; [|done].
  destruct (object_of tr K_request_handler cs) as [h|]; [|done].
  destruct (object_of tr K_logger cs) as [l|]; [|done].
  destruct (object_of tr K_extra_data_factory cs) as [f|]; [|done].
  cbn [of_option mbind result_bind app]. rewrite !bool_decide_eq_false_2 by done.
  destruct tm as [tm|]; [|done]. by exists h, l, f, sos, aos, tf, tm.
Qed.
End Theorems.

(** Traits with a class of handlers that has no default, and a limit of connections. *)
Definition example_traits : traits_t :=
  mk_traits (fun k => match k with K_request_handler => false | _ => true end) true false false true.

Definition example_timers (factory : object_t) : result nat (option nat) := Ok (Some 0%nat).

Example no_handler : configure_server example_traits example_timers id [S_port 80; S_max_parallel 5] = Err (object_not_set K_request_handler).
Proof. reflexivity. Qed.

Example no_factory : configure_server (mk_traits (fun k => match k with K_extra_data_factory => false | _ => true end) false false false true)
    example_timers id [] = Err terminate.
Proof. reflexivity. Qed.

Example a_server : match configure_server example_traits example_timers id
    [S_port 80; S_handler (Ok 7%nat); S_address_text (str "localhost"); S_accepts_count 4; S_port 8081; S_cleanup (Some 3%nat)] with
  | Ok s => cs_request_handler (s_connection_settings s) = given 7 /\ a_port (s_acceptor s) = 8081 /\ a_sockets (s_acceptor s) = 4%nat /\
            s_cleanup_functor s = Some (given 3) /\
            endpoint_to_bind (fun t => if decide (t = str "127.0.0.1") then Ok (ip_v4 2130706433) else Err 0%nat) (s_acceptor s) =
              Ok (ip_v4 2130706433, 8081)
  | Err _ => False
  end.
Proof. vm_compute. intuition. Qed.
